(* ===== verification/_CoqProject ===== *)
-Q . S2P
Prelude.v
Bytes.v
Bits.v
IpAddr.v
Packet.v
Lpm.v
ArtPrefix.v
Stride.v
PrefixTable.v
ArtTree.v
ArtTable.v
IpSet.v
FlowTrack.v
IpText.v
FilterPrefix.v
FilterMatch.v
FilterParse.v
Filter.v
FilterSpec.v
Keys.v
Disco.v
Geneve.v
Relay.v
RelaySpec.v
Checksum.v
Gso.v
GsoSpec.v
Gro.v
GroSpec.v
GroTrip.v
MagicEndpoint.v
MagicEndpointSpec.v
Stun.v
StunSpec.v
Utf8.v
Str.v
Derp.v
DerpServer.v
DerpSpec.v
DerpServerSpec.v
Ipn.v
Order.v
TsAddr.v
DnsName.v
DnsWire.v
DnsWireSpec.v
Dns.v
DnsPeers.v
DnsServe.v
DnsSpec.v
Crypto.v
Noise.v
NoiseSpec.v
Cbor.v
TkaAum.v
TkaCodec.v
TkaSig.v
TkaSigSpec.v
TkaChonk.v
TkaAuthority.v
TkaTrust.v
TkaState.v
TkaFork.v
TkaSync.v
TkaText.v
TkaBuild.v
TkaFs.v
TkaFsSpec.v
TkaDemo.v
TkaSpec.v
