(* ===== verification/Prelude.v ===== *)
(** * Verification of rustscale

    rustscale is a Rust implementation of a Tailscale client: about ninety crates
    under [src/crates].  This development models the crates through which every
    packet passes, the relays and path state that carry it to a peer, the state
    machine above them, the connection to the control server, the authority that
    decides which nodes are trusted, and the resolver of names, as far as their
    behaviour is decided by code over bytes, tables, queues and files, and proves
    that they do what they are for.

    ** The program's parts and how they interact

    An IP packet is parsed ([packet]) into addresses, ports and protocol.  The
    packet filter ([filter]) decides on it: the rules the control plane sends
    ([tailcfg]) are compiled to prefixes and port ranges, local addresses are
    recognised by an address-set predicate ([ipset]) which for large sets is a
    longest-prefix-match table ([art]), and replies to outbound datagrams are
    admitted through an LRU cache of flows.  [flowtrack] is the general form of
    that cache.  Peers find paths by exchanging sealed discovery messages
    ([disco]) under Curve25519 keys ([key]).  Two peers without a direct path use
    a relay ([udprelay]), which speaks disco inside Geneve headers to bind two
    addresses to an endpoint and then forwards between them, or a DERP server
    ([derp]), which relays packets by public key over streams; [magicsock] keeps
    for every peer which of these paths is best, on the evidence of pongs and of
    traffic, and [netcheck] learns the own address by STUN.  Packets enter and
    leave through a TUN device ([tun]) that splits and joins TCP segments.  The
    backend ([ipn]) decides from all this whether the node is running, and tells
    its subscribers.

    Peers and rules come from the control server over a connection that
    [controlclient] secures with a Noise handshake.  What the server says about
    peers is not simply believed: [tka] keeps a chain of signed updates, agrees on
    it with other nodes, and verifies that every node key is vouched for by a key
    that the chain trusts.  [dns] answers queries for the names of peers from the
    network map and forwards the others along the routes the server configures;
    [dnsname] and [tsaddr] hold the rules for names and for Tailscale's address
    ranges.

    ** Files

    - [Prelude]: the panic monad [run] ([Ret] or [Panic]), the error sum [result],
      slice and index operations that panic out of range, list and option lemmas
      and the tactics shared by all files.
    - [Bytes], [Bits]: octets as [Z], big-endian integers, writing a zeroed buffer
      slice by slice, bit strings and how shifts and masks act on them; the hint
      database [wf] of well-formedness lemmas.
    - [IpAddr], [IpText], [Utf8], [Str], [Order]: the part of [std] the crates
      use: addresses, socket addresses, their parser and their printed form,
      UTF-8 validation and the lossy decoder, [str] methods on bytes, sorting and
      comparison.
    - [Packet]: [packet/src/lib.rs].  [decode] is [Parsed::decode],
      [parse_packet] the free function; accessors keep their names.
    - [Lpm]: longest-prefix match on bit strings, the specification of the table.
      [ArtPrefix], [Stride], [ArtTree], [ArtTable]: [art/src/lib.rs] and
      [stride_table.rs]; [table_insert], [table_delete], [table_get] and so on are
      the methods of [Table], and the walks over the tree of strides are the
      loops of those methods.
    - [PrefixTable]: the class that states what such a table promises;
      [ArtTable] gives the instance, [IpSet] ([ipset/src/lib.rs]) is proved
      against the class.
    - [FlowTrack]: [flowtrack/src/lib.rs], with the linked slots and free list.
    - [FilterPrefix], [FilterMatch], [FilterParse], [Filter]:
      [filter/src/prefix.rs], [match.rs], [parse.rs], and [lib.rs] with
      [state.rs].  [FilterSpec]: the abstract policy and the refinement.
    - [Keys]: [key/src].  The node, disco, machine and network-lock key types
      share one model that takes the text prefix as an argument.
    - [Disco]: [disco/src], all nine messages and the packet envelope.
    - [Geneve], [Relay]: [udprelay/src].  [RelaySpec]: its invariant and theorems.
    - [Checksum], [Gso], [Gro]: [tun/src/offload.rs], the packet batch of
      [tun/src/lib.rs] and the vectored write of [tun/src/linux.rs].  [GsoSpec],
      [GroSpec], [GroTrip]: splitting, planning, and their round trip.
    - [MagicEndpoint]: [Endpoint] of [magicsock/src/endpoint.rs], each method a
      function of the endpoint and the clock.  [MagicEndpointSpec]: traces of
      operations ([ep_op], [exec]) and theorems on them.
    - [Stun], [StunSpec]: [netcheck/src/stun.rs].
    - [Derp]: [derp/src/frame.rs], [protocol.rs] and the client of [client.rs].
      [DerpServer]: [server.rs], with the connections' tasks cut at their awaits
      into atomic operations ([op], [run_op], [reachable]).  [DerpSpec],
      [DerpServerSpec]: codec, handshake and server theorems.
    - [Ipn]: [ipn/src/machine.rs] and [backend.rs], with its notification queue.
    - [Crypto]: the classes of BLAKE2s, ChaCha20-Poly1305 and X25519 with their
      laws, and toy instances for witnesses.  [Noise], [NoiseSpec]:
      [controlclient/src/controlbase.rs], both ends of the handshake, the record
      ciphers and the two pumps of [NoiseIo].
    - [Cbor], [TkaAum], [TkaCodec]: [tka/src/aum.rs], [key.rs] and [state.rs]:
      updates, keys and states, their canonical CBOR and its round trip.
      [TkaSig], [TkaSigSpec]: [sig.rs].  [TkaChonk]: the store of [chonk.rs] as an
      interface, and the store in memory.  [TkaAuthority]: [authority.rs],
      [builder.rs] and [sync.rs], how a chain is followed, verified, extended,
      offered and answered.  [TkaState], [TkaTrust], [TkaFork], [TkaSync],
      [TkaBuild]: what a replayed chain trusts, which fork is taken, what is
      exchanged and built.  [TkaText]: hashes and offers as text.  [TkaFs],
      [TkaFsSpec]: the file store with its transactions.  [TkaDemo], [TkaSpec]:
      concrete parameters and the theorems.
    - [TsAddr]: [tsaddr/src/lib.rs].  [DnsName]: [dnsname/src/lib.rs].
    - [DnsWire], [DnsWireSpec]: [dns/src/wire.rs], a form for queries on the wire
      ([Query], [wire_query]) and a reference decoder of responses.  [Dns]:
      the resolver of [dns/src/lib.rs].  [DnsServe]: [forwarder.rs] and the
      responder of [lib.rs].  [DnsPeers], [DnsSpec]: their theorems.

    Names follow the source; a prefix is added where two types of a file have a
    field or method of the same name ([r_vni], [table_get]).  Each definition
    that models code says in its comment which function it is, where its name
    does not.

    ** How Rust is modelled

    A function that can panic returns [run]; so every theorem that equates a call
    with [Ret] also says that no index, slice or [unwrap] fails.  [Result] is
    [result], [Option] is [option].  Bytes and unsigned integers are [Z] with the
    width written out; [usize] indices are [nat].  Overflow wraps as in release
    builds; where a computation does overflow on an input the program can get (a
    range that is the whole address space) a parameter [checked] selects whether
    it panics.  [HashMap] is [gmap]; a [Vec] is a list.  Shared endpoints
    ([Arc<RelayEndpoint>] held by two maps and by packets in flight) are positions
    in a heap.  Time and randomness are arguments.  A stream is the list of bytes
    still to be read or already written; a task is a phase between two awaits,
    and [select!] loses what a cancelled read had taken.  Where the order of a
    hash map's values matters it is a parameter ([values] in [Gro], [HashOrder] in
    [Dns]); native byte order is one too ([little] in [Checksum]).  A store of
    updates is a class ([Chonk]) with its laws, of which the store in memory is an
    instance; in the file store calls to the file system take a schedule that says
    which of them fail, before or after their effect, and where the process
    stops.  What a DNS resolver sends back is an argument, one [Attempt] per
    resolver, and the resolvers that are contacted are recorded.

    The crates [hex], [crypto_box], [blake2], [serde_json], [ciborium],
    [ed25519-dalek], [base64], [data_encoding], [argon2], [chacha20poly1305] and
    [x25519-dalek] are classes with the laws that their documentation states; so
    is lower-casing outside ASCII ([Lowercase]).
    The CRC-32 of STUN fingerprints and the token bucket of the DERP client, which
    counts in floating point, are arguments without laws; the hash of the filter's
    inputs ([deephash]) is an argument, since the filter only compares its results.
    Witnesses instantiate them with concrete functions.

    ** What the theorems show

    - Refinement: the filter over any history of operations gives the verdicts of
      an abstract policy ([filter_refines_policy]); the routing table is a finite
      map with longest-prefix match ([art_table_refines_map]); the flow cache is a
      list in order of use, cut at its bound ([flow_cache_refines_lru]); every
      representation of an address set is membership ([contains_ip_func_correct]).
    - Invariants and interleavings: the relay server stays consistent and never
      panics for any interleaving of packets in flight with allocation, garbage
      collection, drain and close ([relay_safe]), and is silent once drained
      ([drained_is_silent]); the DERP server, for any interleaving of its
      connections, lets the newest connection own a key, keeps its bounds, queues
      nothing under a false name, relays in order, and gives each client exactly
      the messages of its queue ([derp_newest_connection], [derp_server_bounds],
      [derp_provenance], [derp_relay_in_order], [derp_end_to_end]); the backend
      runs only a committed startup and notifies in commit order
      ([ipn_running_committed], [ipn_notifications_ordered], [ipn_running_iff]).
    - Offload: the parallel checksum is the Internet checksum
      ([checksum_correct]); a frame is split into correct segments
      ([split_virtio_correct]); only valid segments of one flow are joined
      ([plan_correct]) and splitting undoes joining ([gro_split_roundtrip]).
    - Paths: a direct path is reported on evidence ([endpoint_trust]), a pong is
      matched once ([pong_matches]), relay addresses are not forgotten
      ([relay_addresses_kept]), histories are bounded ([endpoint_bounds]) and a
      probe cycle ends ([probe_cycle_ends]).
    - Security: shields up, replies to outbound flows, what a bind proves, where
      data can go ([shields_up_admits_only_established], [reply_admitted],
      [bind_requires_proof], [data_forwarded]); a pinned DERP server key
      ([derp_pinned_key]).
    - Progress: the bind handshake completes ([handshake_binds]), as does the DERP
      handshake ([derp_handshake]); allocation fails only for its stated reasons
      ([allocation_outcomes]).
    - The control connection: the handshake leaves both ends with the same keys
      and the pumps deliver what was written ([noise_session]); a receiver
      delivers only what was sealed for its nonce, in order, whatever bytes it gets
      ([noise_delivers_sealed]); an initiation that is accepted is the one that the
      shared secrets determine ([noise_server_authenticates]).
    - Tailnet Lock: whatever a node is told after its bootstrap, its authority is
      the replay of a chain of updates signed by keys trusted at that point
      ([tka_trust_rooted]); nodes with the same updates agree ([tka_converges]); an
      answer to an offer completes the receiver's chain ([tka_sync_completes]); a
      batch is stored whole or not at all through failures and crashes
      ([tka_store_atomic]); a node key is authorized exactly when it is vouched for
      ([node_authorized_iff_vouched], [delegated_key_authorized]); what the builder
      makes is accepted ([built_updates_accepted]).
    - Names: local queries are answered by well-formed responses without asking
      anyone ([dns_local_answers]); other queries reach only the resolvers of the
      most specific route ([dns_queries_contained]); the names of the tailnet
      follow the network map ([dns_names_follow_netmap]); requests on a TCP
      connection are answered in order ([serve_tcp_in_order]); sanitized labels are
      valid ([sanitize_label_valid]) and address mappings are undone
      ([four_to_six_roundtrip], [map_via_inj]).
    - Codecs: disco messages, packets and headers, Geneve, STUN, DERP frames, keys,
      CIDR text and the updates of [tka] round-trip, and parsers of untrusted bytes
      are total ([disco_roundtrip], [disco_parse_total], [decode_accessors_safe],
      [ip4_decode_roundtrip], [geneve_roundtrip], [stun_response_roundtrip],
      [stun_parse_returns], [derp_frames_roundtrip], [derp_parse_typed],
      [key_text_typed], [cidr4_roundtrip], [tka_codec_roundtrip] and their like).
    - Parsing of rules denotes the right sets of addresses, ranges included
      ([parse_ip_set_denotes], [range_v4_covers], [compile_all_or_nothing]).
    - Places where the code departs from its documentation are theorems too
      ([payload_of_truncated_ipv6], [ip4_header_returns_iff],
      [ips_only_cap_ignores_dst], [allow_all_verdict], [to_fqdn_two_dots]), and so
      are defects: of the DERP server's interleavings ([derp_tick_loses_header],
      [peer_gone_after_reconnect], [handshake_before_registration]), of the control
      connection's errors ([noise_error_lost]) and of the resolver
      ([dns_reverse_never_local], [dns_shared_peers_stale], [dns_all_malformed],
      [via_suffix_text]).

    ** Bounds and fuel

    Loops that are not structural run on fuel, and the theorems prove the fuel
    enough: they state that the call returns, never only what holds if it does.
    The IPv6 extension-header walk takes the length of the buffer, since each
    header advances by at least eight bytes, and the list of endpoints of a disco
    message the length of its body plus one; the walks over the tree of strides
    take 16, the number of strides of an IPv6 address, since each step descends;
    a range becomes at most twice as many prefixes as the address has bits, with
    slack for the wrap at the top ([range_fuel]); the search for a network
    identifier makes exactly as many turns as the range has identifiers, as the
    code does.  [FLOW_MAX] is the 512 of the code.  Folding a 64-bit checksum takes
    at most six turns ([fold_loop]); the walk over STUN attributes takes the length
    of the datagram, since an attribute has four bytes of header; [recv] of the
    DERP client takes one more than the bytes left, since a frame has five; and
    the lossy UTF-8 decoder the length of its input.  The scans of a chain of
    updates have the 2000 turns of the code, rotations of signatures its 15 and
    CBOR its nesting of 16.  A record pump takes a turn per record, and a record
    has three bytes of header.  A DNS name is read in 200 turns: a turn takes a
    pointer, of which 65 are allowed, or at least two of 256 bytes
    ([name_measure]).

    ** What is not modelled

    Sockets, tasks, timers, locks as such (steps between lock acquisitions are
    the units of interleaving), logging, serialisation through serde, and
    third-party crates.  Of the modelled crates: iteration order and text
    parsing of routing-table prefixes, the text and JSON forms of flow tuples,
    key generation from the system's randomness, and the relay's read and
    garbage-collection loops, whose bodies ([handle_packet], [run_gc_once]) are
    modelled; the TUN devices and system calls; the socket loops and relay manager
    of [magicsock]; probing and reports of [netcheck]; dialing, TLS, the HTTP
    upgrade and the accept loop of [derp]; preferences, profiles, stores and
    guarded subscriptions of [ipn]; registration, long polling and the HTTP
    upgrade of [controlclient]; timeouts, the DoH request and the operating
    system's configuration of [dns].  The other crates are mostly glue between
    these and the operating system, command lines and services over sockets. *)

From Stdlib Require Export ZArith Lia.
From stdpp Require Export base list gmap strings numbers.

#[global] Open Scope Z_scope.

(** ** Panicking computations

    Rust code that indexes a slice, unwraps an option or trips an assertion
    either returns a value or panics.  [run A] is the result of such a
    computation; the development proves that the modelled entry points return
    [Ret]. *)

Inductive run (A : Type) : Type :=
| Ret (a : A)
| Panic.
Arguments Ret {A} a.
Arguments Panic {A}.

#[global] Instance run_ret : MRet run := fun A a => Ret a.
#[global] Instance run_bind : MBind run := fun A B f m =>
  match m with
  | Ret a => f a
  | Panic => Panic
  end.

(** [Option::expect] / [Option::unwrap]. *)
Definition expect {A} (o : option A) : run A :=
  match o with
  | Some a => Ret a
  | None => Panic
  end.

(** [assert!]. *)
Definition assert_run (b : bool) : run unit := if b then Ret tt else Panic.

Lemma run_bind_Ret {A B} (f : A -> run B) (a : A) : (Ret a ≫= f) = f a.
Proof. reflexivity. Qed.

Lemma run_bind_inv {A B} (f : A -> run B) (m : run A) (b : B) :
  (m ≫= f) = Ret b -> exists a, m = Ret a /\ f a = Ret b.
Proof. destruct m; simpl; [eauto | discriminate]. Qed.

(** Subtraction on [usize]: it panics when it would be negative. *)
Definition sub_usize (a b : nat) : run nat := if (b <=? a)%nat then Ret (a - b)%nat else Panic.

(** ** Fallible computations

    [Result<A, E>]. *)

Inductive result (E A : Type) : Type :=
| Ok (a : A)
| Err (e : E).
Arguments Ok {E A} a.
Arguments Err {E A} e.

(** [Option::is_some]. *)
Definition is_some {A} (o : option A) : bool := match o with Some _ => true | None => false end.

(** [Option::ok_or] / [Result::map_err] on an optional value. *)
Definition ok_or {E A} (o : option A) (e : E) : result E A :=
  match o with Some a => Ok a | None => Err e end.

#[global] Instance result_ret {E} : MRet (result E) := fun A a => Ok a.
#[global] Instance result_bind {E} : MBind (result E) := fun A B f m =>
  match m with
  | Ok a => f a
  | Err e => Err e
  end.

(** ** Slices *)

(** [b[i]]. *)
Definition idx {A} (b : list A) (i : nat) : run A := expect (b !! i).
(** [&b[i..]]. *)
Definition slice_from {A} (b : list A) (i : nat) : run (list A) :=
  if decide (i <= length b)%nat then Ret (drop i b) else Panic.
(** [&b[i..j]]. *)
Definition slice {A} (b : list A) (i j : nat) : run (list A) :=
  if decide (i <= j <= length b)%nat then Ret (take (j - i) (drop i b)) else Panic.
(** [b[i] = x]. *)
Definition idx_set {A} (b : list A) (i : nat) (x : A) : run (list A) :=
  if decide (i < length b)%nat then Ret (<[i := x]> b) else Panic.

(** The byte at [i] of a buffer known to be long enough. *)
Definition byte_at (b : list Z) (i : nat) : Z := nth i b 0.

Lemma idx_byte_at (b : list Z) (i : nat) :
  (i < length b)%nat -> idx b i = Ret (byte_at b i).
Proof.
  intros H. unfold idx, byte_at.
  destruct (lookup_lt_is_Some_2 b i H) as [x Hx].
  rewrite Hx. simpl. f_equal. symmetry. by apply nth_lookup_Some.
Qed.

Lemma idx_lookup {A} (b : list A) (i : nat) (x : A) : b !! i = Some x -> idx b i = Ret x.
Proof. intros H. unfold idx. by rewrite H. Qed.

Lemma slice_from_ok {A} (b : list A) (i : nat) :
  (i <= length b)%nat -> slice_from b i = Ret (drop i b).
Proof. intros H. unfold slice_from. by rewrite decide_True. Qed.

Lemma slice_ok {A} (b : list A) (i j : nat) :
  (i <= j <= length b)%nat -> slice b i j = Ret (take (j - i) (drop i b)).
Proof. intros H. unfold slice. by rewrite decide_True. Qed.

(** [[b[i], b[i+1], ..., b[i+n-1]]]: [n] consecutive indexed reads. *)
Fixpoint idx_range {A} (b : list A) (i n : nat) : run (list A) :=
  match n with
  | O => Ret []
  | S n' => x ← idx b i; xs ← idx_range b (S i) n'; Ret (x :: xs)
  end.

Lemma idx_range_ok {A} (b : list A) (i n : nat) :
  (i + n <= length b)%nat -> idx_range b i n = Ret (take n (drop i b)).
Proof.
  revert i. induction n as [|n IH]; intros i H; [by rewrite take_0|]. simpl.
  destruct (lookup_lt_is_Some_2 b i ltac:(lia)) as [x Hx].
  unfold idx. rewrite Hx. simpl. rewrite IH by lia. simpl.
  by rewrite (drop_S _ _ _ Hx).
Qed.

Lemma idx_range_bound {A} (b : list A) (i n : nat) (xs : list A) :
  idx_range b i n = Ret xs -> n <> 0%nat -> (i + n <= length b)%nat.
Proof.
  revert i xs. induction n as [|n IH]; intros i xs H Hn; [done|]. simpl in H.
  apply run_bind_inv in H as (x & Hx & H). apply run_bind_inv in H as (ys & Hys & _).
  unfold idx in Hx. destruct (b !! i) eqn:E; [|done]. apply lookup_lt_Some in E.
  destruct n as [|n]; [lia|]. specialize (IH (S i) ys Hys). lia.
Qed.

Lemma bind_Ret_eq {A B} (m : run A) (a : A) (f : A -> run B) :
  m = Ret a -> (m ≫= f) = f a.
Proof. by intros ->. Qed.

(** A computation that returns. *)
Definition returns {A} (m : run A) : Prop := exists a, m = Ret a.

Lemma returns_Ret {A} (a : A) : returns (Ret a).
Proof. by exists a. Qed.

Lemma returns_bind {A B} (m : run A) (f : A -> run B) :
  returns m -> (forall a, m = Ret a -> returns (f a)) -> returns (m ≫= f).
Proof. intros [a ->] H. by apply H. Qed.

(** [run_step] executes the leading slice access of a [run] block whose bounds
    follow from the context by linear arithmetic. *)
Ltac run_step :=
  match goal with
  | |- context [idx ?b ?i] => rewrite (idx_byte_at b i) by (simpl in *; lia)
  | |- context [slice_from ?b ?i] => rewrite (slice_from_ok b i) by (simpl in *; lia)
  | |- context [slice ?b ?i ?j] => rewrite (slice_ok b i j) by (simpl in *; lia)
  | |- context [idx_range ?b ?i ?n] => rewrite (idx_range_ok b i n) by (simpl in *; lia)
  end; rewrite ?run_bind_Ret.
Ltac run_steps := repeat run_step.

(** The middle part of a concatenation. *)
Lemma take_drop_mid {A} (pre m post : list A) (i n : nat) :
  length pre = i -> length m = n -> take n (drop i (pre ++ m ++ post)) = m.
Proof.
  intros <- <-. rewrite drop_app_ge, Nat.sub_diag, drop_0 by lia.
  by rewrite take_app_le, take_ge by lia.
Qed.

(** [n] elements from position [i]. *)
Definition field {A} (b : list A) (i n : nat) : list A := take n (drop i b).

Lemma field_here {A} (m post : list A) (n : nat) : length m = n -> field (m ++ post) 0 n = m.
Proof. intros <-. unfold field. rewrite drop_0, take_app_le, take_ge by lia. done. Qed.

Lemma field_end {A} (m : list A) (n : nat) : length m = n -> field m 0 n = m.
Proof. intros <-. unfold field. rewrite drop_0, take_ge by lia. done. Qed.

Lemma field_skip {A} (a r : list A) (i n k : nat) :
  length a = k -> (k <= i)%nat -> field (a ++ r) i n = field r (i - k) n.
Proof. intros <- H. unfold field. by rewrite drop_app_ge. Qed.

Lemma slice_field {A} (b : list A) (i j : nat) :
  (i <= j <= length b)%nat -> slice b i j = Ret (field b i (j - i)).
Proof. apply slice_ok. Qed.

Lemma idx_range_field {A} (b : list A) (i n : nat) :
  (i + n <= length b)%nat -> idx_range b i n = Ret (field b i n).
Proof. apply idx_range_ok. Qed.

Lemma length_field {A} (b : list A) (i n : nat) : (i + n <= length b)%nat -> length (field b i n) = n.
Proof. intros H. unfold field. rewrite length_take, length_drop. lia. Qed.

Lemma prefix_of_snoc {A} (v z : list A) (x : A) :
  v `prefix_of` z ++ [x] <-> v = z ++ [x] \/ v `prefix_of` z.
Proof.
  split.
  - intros [k E]. destruct k as [|y k _] using rev_ind.
    + left. by rewrite app_nil_r in E.
    + right. rewrite app_assoc in E. apply app_inj_tail in E as [-> _]. by exists k.
  - intros [->|H]; [done|by apply prefix_app_r].
Qed.

(** Two initial segments of one list are comparable. *)
Lemma prefix_of_same {A} (v w u : list A) :
  v `prefix_of` u -> w `prefix_of` u -> (length v <= length w)%nat -> v `prefix_of` w.
Proof.
  intros [k ->] [l E] Hl. exists (take (length w - length v) k).
  apply (f_equal (take (length w))) in E.
  rewrite (take_app_le w), (take_ge w), take_app_ge in E by lia. congruence.
Qed.

(** ** Boolean quantifiers over lists *)

Lemma existsb_elem {A} (f : A -> bool) (l : list A) :
  existsb f l = true <-> exists x, x ∈ l /\ f x = true.
Proof. rewrite existsb_exists. by setoid_rewrite list_elem_of_In. Qed.

Lemma existsb_map {A B} (g : A -> B) (f : B -> bool) (l : list A) :
  existsb f (map g l) = existsb (fun x => f (g x)) l.
Proof. induction l as [|x l IH]; simpl; [done|by rewrite IH]. Qed.

Lemma existsb_ext {A} (f g : A -> bool) (l : list A) :
  (forall x, f x = g x) -> existsb f l = existsb g l.
Proof. intros H. induction l as [|x l IH]; simpl; [done|by rewrite H, IH]. Qed.

(** ** Concatenation up to order *)

#[global] Instance concat_Permutation {A} : Proper ((≡ₚ) ==> (≡ₚ)) (@concat A).
Proof.
  induction 1 as [|x l1 l2 _ IH|x y l|l1 l2 l3 _ IH1 _ IH2]; cbn [concat];
    [done|by rewrite IH|by rewrite !app_assoc, (Permutation_app_comm y x)|by rewrite IH1].
Qed.
