(* ===== verification/Bytes.v ===== *)
(** * Bytes, big-endian integers and bit strings

    Octets are [Z] values in [0, 256); an address or a packet is a list of
    them.  [from_be_bytes]/[to_be_bytes] are the conversions of Rust's integer
    types.  [bits_of] reads a list of octets as a bit string, most significant
    bit first: every notion of network prefix in the development is stated on
    bit strings. *)

From S2P Require Import Prelude.

Definition is_u8 (z : Z) : Prop := 0 <= z < 256.
Definition is_u16 (z : Z) : Prop := 0 <= z < 65536.
Definition is_u32 (z : Z) : Prop := 0 <= z < 2 ^ 32.
Definition is_u64 (z : Z) : Prop := 0 <= z < 2 ^ 64.

(** Well-formed byte strings. *)
Definition wf_bytes (l : list Z) : Prop := Forall is_u8 l.

#[global] Instance is_u8_dec z : Decision (is_u8 z).
Proof. unfold is_u8. apply _. Defined.
#[global] Instance is_u16_dec z : Decision (is_u16 z).
Proof. unfold is_u16. apply _. Defined.
#[global] Instance is_u32_dec z : Decision (is_u32 z).
Proof. unfold is_u32. apply _. Defined.
#[global] Instance is_u64_dec z : Decision (is_u64 z).
Proof. unfold is_u64. apply _. Defined.
#[global] Instance wf_bytes_dec l : Decision (wf_bytes l).
Proof. unfold wf_bytes. apply _. Defined.

(** Wrap-around of the unsigned machine types. *)
Definition wrap8 (z : Z) : Z := z mod 256.
Definition wrap16 (z : Z) : Z := z mod 65536.
Definition wrap32 (z : Z) : Z := z mod 2 ^ 32.
Definition wrap64 (z : Z) : Z := z mod 2 ^ 64.

(** ** Big-endian integers *)

Fixpoint from_be_bytes (l : list Z) : Z :=
  match l with
  | [] => 0
  | b :: l' => b * 256 ^ Z.of_nat (length l') + from_be_bytes l'
  end.

Fixpoint to_be_bytes (n : nat) (z : Z) : list Z :=
  match n with
  | O => []
  | S n' => (z / 256 ^ Z.of_nat n') mod 256 :: to_be_bytes n' z
  end.

Lemma length_to_be_bytes n z : length (to_be_bytes n z) = n.
Proof. induction n; simpl; congruence. Qed.

Lemma wf_to_be_bytes n z : wf_bytes (to_be_bytes n z).
Proof.
  induction n; simpl; constructor; [|done].
  unfold is_u8. apply Z.mod_pos_bound. lia.
Qed.

Lemma pow256_pos n : 0 < 256 ^ Z.of_nat n.
Proof. apply Z.pow_pos_nonneg; lia. Qed.

Lemma pow256_succ n : 256 ^ Z.of_nat (S n) = 256 * 256 ^ Z.of_nat n.
Proof. rewrite Nat2Z.inj_succ, Z.pow_succ_r; lia. Qed.

Lemma from_be_bytes_bound l :
  wf_bytes l -> 0 <= from_be_bytes l < 256 ^ Z.of_nat (length l).
Proof.
  induction l as [|b l IH]; simpl; intros H; [lia|].
  inversion_clear H as [|? ? Hb Hl]. specialize (IH Hl).
  rewrite (pow256_succ (length l)).
  pose proof (pow256_pos (length l)). unfold is_u8 in Hb. nia.
Qed.

Lemma to_be_bytes_mod n z k :
  (n <= k)%nat -> to_be_bytes n (z mod 256 ^ Z.of_nat k) = to_be_bytes n z.
Proof.
  induction n as [|n IH]; simpl; intros Hk; [done|].
  f_equal; [|apply IH; lia].
  pose proof (pow256_pos n) as Hp.
  replace (256 ^ Z.of_nat k)
    with (256 ^ Z.of_nat n * (256 * 256 ^ Z.of_nat (k - S n))).
  - rewrite Z.rem_mul_r by (pose proof (pow256_pos (k - S n)); nia).
    rewrite (Z.mul_comm (256 ^ Z.of_nat n)), Z.div_add by lia.
    rewrite (Z.div_small (z mod _)) by (apply Z.mod_pos_bound; lia).
    rewrite Z.add_0_l. pose proof (pow256_pos (k - S n)).
    rewrite Z.rem_mul_r, Z.mul_comm, Z.mod_add, Z.mod_mod; lia.
  - rewrite <- pow256_succ, <- Z.pow_add_r by lia. f_equal. lia.
Qed.

Lemma from_to_be_bytes n z :
  from_be_bytes (to_be_bytes n z) = z mod 256 ^ Z.of_nat n.
Proof.
  induction n as [|n IH]; simpl; [by rewrite Z.mod_1_r|].
  rewrite IH, length_to_be_bytes.
  change (Z.pow_pos 256 (Pos.of_succ_nat n)) with (256 ^ Z.of_nat (S n)).
  rewrite pow256_succ, (Z.mul_comm 256).
  rewrite Z.rem_mul_r by (pose proof (pow256_pos n); lia). lia.
Qed.

Lemma to_from_be_bytes l :
  wf_bytes l -> to_be_bytes (length l) (from_be_bytes l) = l.
Proof.
  induction l as [|b l IH]; simpl; intros H; [done|].
  inversion_clear H as [|? ? Hb Hl].
  pose proof (from_be_bytes_bound l Hl) as Hlt. pose proof (pow256_pos (length l)).
  f_equal.
  - rewrite Z.add_comm, Z.div_add by lia. rewrite Z.div_small, Z.add_0_l by lia.
    by apply Z.mod_small.
  - rewrite <- (to_be_bytes_mod (length l) _ (length l)) by lia.
    rewrite Z.add_comm, Z.mod_add, Z.mod_small by lia. auto.
Qed.

Lemma from_be_bytes_inj l1 l2 :
  wf_bytes l1 -> wf_bytes l2 -> length l1 = length l2 ->
  from_be_bytes l1 = from_be_bytes l2 -> l1 = l2.
Proof.
  intros H1 H2 Hlen He.
  rewrite <- (to_from_be_bytes l1 H1), <- (to_from_be_bytes l2 H2). congruence.
Qed.

Lemma to_be_bytes_shift n z : to_be_bytes (S n) (z * 256) = to_be_bytes n z ++ [0].
Proof.
  induction n as [|n IH]; [cbn; by rewrite Z.div_1_r, Z.mod_mul by lia|].
  change (to_be_bytes (S (S n)) (z * 256)) with ((z * 256 / 256 ^ Z.of_nat (S n)) mod 256 :: to_be_bytes (S n) (z * 256)).
  rewrite IH, pow256_succ, (Z.mul_comm 256), Z.div_mul_cancel_r by (pose proof (pow256_pos n); lia). done.
Qed.

Lemma from_to_be_bytes_small n z :
  0 <= z < 256 ^ Z.of_nat n -> from_be_bytes (to_be_bytes n z) = z.
Proof. intros H. rewrite from_to_be_bytes. by apply Z.mod_small. Qed.

Lemma wf_bytes_app l1 l2 : wf_bytes (l1 ++ l2) <-> wf_bytes l1 /\ wf_bytes l2.
Proof. apply Forall_app. Qed.

Lemma wf_bytes_take n l : wf_bytes l -> wf_bytes (take n l).
Proof. apply Forall_take. Qed.

Lemma wf_bytes_drop n l : wf_bytes l -> wf_bytes (drop n l).
Proof. apply Forall_drop. Qed.

Lemma wf_bytes_replicate0 n : wf_bytes (replicate n 0).
Proof. apply Forall_replicate. unfold is_u8. lia. Qed.

Lemma byte_at_u8 l i : wf_bytes l -> is_u8 (byte_at l i).
Proof.
  intros H. unfold byte_at. destruct (l !! i) eqn:E.
  - rewrite (nth_lookup_Some _ _ _ _ E). eapply Forall_lookup_1; eauto.
  - rewrite nth_overflow; [unfold is_u8; lia|]. by apply lookup_ge_None_1.
Qed.

Create HintDb wf.
#[export] Hint Resolve wf_to_be_bytes wf_bytes_take wf_bytes_drop byte_at_u8
  wf_bytes_replicate0 : wf.

Lemma byte_at_drop l n i : byte_at (drop n l) i = byte_at l (n + i).
Proof.
  unfold byte_at. rewrite !nth_lookup. by rewrite lookup_drop.
Qed.

(** ** Writing into a buffer *)

(** [b[i..j].copy_from_slice(src)]. *)
Definition copy_to {A} (b : list A) (i j : nat) (src : list A) : run (list A) :=
  if decide (i <= j <= length b /\ length src = j - i)%nat then Ret (take i b ++ src ++ drop j b) else Panic.

(** [f(&mut b[i..j])] for a function that rewrites the slice in place. *)
Definition on_slice {A} (b : list A) (i j : nat) (f : list A -> run (list A)) : run (list A) :=
  s ← slice b i j; s' ← f s; Ret (take i b ++ s' ++ drop j b).

(** A buffer is filled from the left: what is written so far, then zeros. *)
Definition filled (w : list Z) (k : nat) : list Z := w ++ replicate k 0.

Lemma filled_start n : replicate n 0 = filled [] n.
Proof. reflexivity. Qed.

Lemma filled_full w : filled w 0 = w.
Proof. apply app_nil_r. Qed.

Lemma length_filled w k : length (filled w k) = (length w + k)%nat.
Proof. unfold filled. by rewrite length_app, length_replicate. Qed.

Lemma filled_split w k n x :
  length x = n -> (n <= k)%nat ->
  take (length w) (filled w k) ++ x ++ drop (length w + n) (filled w k) = filled (w ++ x) (k - n).
Proof.
  intros Hx Hn. unfold filled. rewrite take_app_le, take_ge by lia.
  rewrite drop_app_ge by lia. replace (length w + n - length w)%nat with n by lia.
  by rewrite drop_replicate, <- app_assoc.
Qed.

Lemma copy_filled w k i j src :
  i = length w -> j = (i + length src)%nat -> (length src <= k)%nat ->
  copy_to (filled w k) i j src = Ret (filled (w ++ src) (k - length src)).
Proof.
  intros -> -> Hk. unfold copy_to. rewrite decide_True by (rewrite length_filled; lia).
  by rewrite filled_split.
Qed.

Lemma set_filled w k i x :
  i = length w -> (0 < k)%nat -> idx_set (filled w k) i x = Ret (filled (w ++ [x]) (k - 1)).
Proof.
  intros -> Hk. unfold idx_set. rewrite decide_True by (rewrite length_filled; lia).
  unfold filled. rewrite insert_app_r_alt, Nat.sub_diag by lia. destruct k as [|k]; [lia|].
  cbn [replicate insert list_insert]. by rewrite Nat.sub_1_r, <- app_assoc.
Qed.

Lemma on_slice_filled w k i j n f x :
  i = length w -> j = (i + n)%nat -> (n <= k)%nat -> length x = n -> f (replicate n 0) = Ret x ->
  on_slice (filled w k) i j f = Ret (filled (w ++ x) (k - n)).
Proof.
  intros -> -> Hn Hx Hf. unfold on_slice. rewrite slice_ok by (rewrite length_filled; lia). rewrite run_bind_Ret.
  assert (take (length w + n - length w) (drop (length w) (filled w k)) = replicate n 0) as ->.
  { unfold filled. rewrite drop_app_ge, Nat.sub_diag, drop_0 by lia.
    rewrite take_replicate. f_equal. lia. }
  by rewrite Hf, run_bind_Ret, filled_split.
Qed.

(** ** Overwriting a part of a buffer *)

Definition splice {A} (data : list A) (i : nat) (x : list A) : list A :=
  take i data ++ x ++ drop (i + length x) data.

Section splice.
Context {A : Type}.
Implicit Types (l x : list A).

Lemma length_splice l i x : (i + length x <= length l)%nat -> length (splice l i x) = length l.
Proof. intros H. unfold splice. rewrite !length_app, length_take, length_drop. lia. Qed.

Lemma lookup_splice_in l i x k :
  (i <= k < i + length x)%nat -> (i <= length l)%nat -> splice l i x !! k = x !! (k - i)%nat.
Proof.
  intros Hk Hi. unfold splice. rewrite lookup_app_r by (rewrite length_take; lia).
  rewrite length_take_le by lia. by rewrite lookup_app_l by lia.
Qed.

Lemma lookup_splice_out l i x k :
  (k < i \/ i + length x <= k)%nat -> (i + length x <= length l)%nat -> splice l i x !! k = l !! k.
Proof.
  intros Hk Hi. unfold splice. destruct Hk as [Hk|Hk].
  - rewrite lookup_app_l by (rewrite length_take; lia). by apply lookup_take_lt.
  - rewrite lookup_app_r by (rewrite length_take; lia). rewrite length_take_le by lia.
    rewrite lookup_app_r, lookup_drop by lia. f_equal. lia.
Qed.

Lemma field_splice l i x : (i + length x <= length l)%nat -> field (splice l i x) i (length x) = x.
Proof.
  intros H. unfold field, splice. rewrite drop_app_ge, length_take_le, Nat.sub_diag, drop_0 by (rewrite ?length_take; lia).
  by rewrite take_app_le, take_ge by lia.
Qed.

Lemma take_splice l i x n :
  (i + length x <= n)%nat -> (n <= length l)%nat -> take n (splice l i x) = splice (take n l) i x.
Proof.
  intros H Hn. unfold splice. rewrite take_app_ge, length_take_le by (rewrite ?length_take; lia).
  rewrite take_app_ge by lia. rewrite take_take, Nat.min_l by lia. do 2 f_equal.
  rewrite skipn_firstn_comm. f_equal. lia.
Qed.

Lemma drop_splice l i x n :
  (n <= i)%nat -> (i + length x <= length l)%nat -> drop n (splice l i x) = splice (drop n l) (i - n) x.
Proof.
  intros H Hn. unfold splice. rewrite drop_app_le by (rewrite length_take; lia). rewrite firstn_skipn_comm, drop_drop.
  f_equal; [do 2 f_equal; lia|]. do 2 f_equal. lia.
Qed.

(** [a] is [b] outside the positions [T]. *)
Definition same_except (T : nat -> Prop) (a b : list A) : Prop :=
  length a = length b /\ forall k, ~ T k -> a !! k = b !! k.

Lemma same_except_refl T l : same_except T l l.
Proof. done. Qed.

Lemma same_except_splice l i x :
  (i + length x <= length l)%nat -> same_except (fun k => (i <= k < i + length x)%nat) (splice l i x) l.
Proof. intros H. split; [by apply length_splice|]. intros k Hk. apply lookup_splice_out; lia. Qed.

Lemma same_except_insert l i y : same_except (fun k => k = i) (<[i := y]> l) l.
Proof. split; [apply length_insert|]. intros k Hk. apply list_lookup_insert_ne. congruence. Qed.

Lemma same_except_trans (T1 T2 T : nat -> Prop) a b c :
  same_except T1 a b -> same_except T2 b c -> (forall k, T1 k \/ T2 k -> T k) -> same_except T a c.
Proof.
  intros [L1 E1] [L2 E2] HT. split; [congruence|]. intros k Hk. rewrite E1 by auto. apply E2. auto.
Qed.

Lemma same_except_mono (T T' : nat -> Prop) a b :
  same_except T a b -> (forall k, T k -> T' k) -> same_except T' a b.
Proof. intros [L E] H. split; [done|]. auto. Qed.

Lemma field_same T a b i n :
  same_except T a b -> (forall k, (i <= k < i + n)%nat -> ~ T k) -> field a i n = field b i n.
Proof.
  intros [L E] HT. unfold field. apply list_eq. intros k. destruct (decide (k < n)%nat).
  - rewrite !lookup_take_lt, !lookup_drop by done. apply E, HT. lia.
  - by rewrite !lookup_take_ge by lia.
Qed.
End splice.

Lemma wf_splice l i x : wf_bytes l -> wf_bytes x -> wf_bytes (splice l i x).
Proof. intros Hl Hx. unfold splice. rewrite !wf_bytes_app. auto with wf. Qed.
#[export] Hint Resolve wf_splice : wf.

(** Exclusive or stays within a machine width. *)
Lemma lxor_bound n a b : 0 <= n -> 0 <= a < 2 ^ n -> 0 <= b < 2 ^ n -> 0 <= Z.lxor a b < 2 ^ n.
Proof.
  intros Hn Ha Hb. assert (0 <= Z.lxor a b) as H0 by (apply Z.lxor_nonneg; lia). split; [done|].
  destruct (Z.eq_dec (Z.lxor a b) 0) as [->|Hne]; [lia|]. apply Z.log2_lt_pow2; [lia|].
  pose proof (Z.log2_lxor a b ltac:(lia) ltac:(lia)). assert (forall x, 0 <= x < 2 ^ n -> Z.log2 x < n \/ Z.log2 x = 0) as Hl.
  { intros x Hx. destruct (Z.eq_dec x 0) as [->|]; [by right|left]. apply Z.log2_lt_pow2; lia. }
  destruct (Z.eq_dec n 0) as [->|]; [|destruct (Hl a Ha), (Hl b Hb); lia].
  assert (a = 0) as -> by lia. assert (b = 0) as -> by lia. done.
Qed.
