(* ===== verification/Bits.v ===== *)
(** * Bit strings

    [bits_of] flattens octets into bits, most significant first, and
    [bits_val] reads a bit string as a number.  The lemmas relate shifts,
    masks and xor on machine integers, which is how the Rust code compares
    network prefixes, to equality of initial segments of bit strings. *)

From S2P Require Import Prelude Bytes.

(** The eight bits of an octet, most significant first. *)
Definition octet_bits (b : Z) : list bool :=
  [Z.testbit b 7; Z.testbit b 6; Z.testbit b 5; Z.testbit b 4;
   Z.testbit b 3; Z.testbit b 2; Z.testbit b 1; Z.testbit b 0].

Fixpoint bits_of (l : list Z) : list bool :=
  match l with
  | [] => []
  | b :: l' => octet_bits b ++ bits_of l'
  end.

Arguments octet_bits : simpl never.

(** The number a bit string denotes. *)
Fixpoint bits_val (u : list bool) : Z :=
  match u with
  | [] => 0
  | b :: u' => Z.b2z b * 2 ^ Z.of_nat (length u') + bits_val u'
  end.

(** ** Numbers and bit strings *)

Lemma pow2_pos n : 0 < 2 ^ Z.of_nat n.
Proof. apply Z.pow_pos_nonneg; lia. Qed.

Lemma pow2_succ n : 2 ^ Z.of_nat (S n) = 2 * 2 ^ Z.of_nat n.
Proof. rewrite Nat2Z.inj_succ, Z.pow_succ_r; lia. Qed.

Lemma bits_val_bound u : 0 <= bits_val u < 2 ^ Z.of_nat (length u).
Proof.
  induction u as [|b u IH]; simpl bits_val; [simpl; lia|].
  simpl length. rewrite pow2_succ. pose proof (pow2_pos (length u)).
  destruct b; simpl Z.b2z; lia.
Qed.

Lemma bits_val_inj u v :
  length u = length v -> bits_val u = bits_val v -> u = v.
Proof.
  revert v. induction u as [|b u IH]; intros [|c v]; simpl; try done.
  intros [= Hlen] Hv. rewrite Hlen in Hv.
  pose proof (bits_val_bound u). pose proof (bits_val_bound v).
  rewrite Hlen in *. pose proof (pow2_pos (length v)).
  assert (b = c) as -> by (destruct b, c; simpl in *; auto; lia).
  f_equal. apply IH; [done|lia].
Qed.

Lemma bits_val_app u v :
  bits_val (u ++ v) = bits_val u * 2 ^ Z.of_nat (length v) + bits_val v.
Proof.
  induction u as [|b u IH]; simpl; [done|].
  rewrite IH, length_app, Nat2Z.inj_add, Z.pow_add_r by lia. ring.
Qed.

Lemma bits_val_take u n :
  bits_val (take n u) = bits_val u / 2 ^ Z.of_nat (length u - n).
Proof.
  destruct (decide (n <= length u)%nat) as [H|H].
  - rewrite <- (take_drop n u) at 2. rewrite bits_val_app, length_drop.
    pose proof (bits_val_bound (drop n u)) as Hb. rewrite length_drop in Hb.
    pose proof (pow2_pos (length u - n)).
    rewrite Z.add_comm, Z.div_add, Z.div_small; lia.
  - rewrite take_ge by lia. replace (length u - n)%nat with 0%nat by lia.
    by rewrite Z.div_1_r.
Qed.

(** ** Octets *)

Lemma length_octet_bits b : length (octet_bits b) = 8%nat.
Proof. reflexivity. Qed.

(** A boolean property of octets can be checked on all 256 of them. *)
Lemma u8_forallb (f : Z -> bool) :
  forallb f (seqZ 0 256) = true -> forall z, is_u8 z -> f z = true.
Proof.
  intros Hall z Hz. rewrite forallb_forall in Hall. apply Hall.
  apply list_elem_of_In, elem_of_seqZ. unfold is_u8 in Hz. lia.
Qed.

Lemma octet_bits_val b : is_u8 b -> bits_val (octet_bits b) = b.
Proof.
  intros H. apply Z.eqb_eq. revert b H.
  apply (u8_forallb (fun b => bits_val (octet_bits b) =? b)). vm_compute. reflexivity.
Qed.

Lemma octet_bits_inj a b : is_u8 a -> is_u8 b -> octet_bits a = octet_bits b -> a = b.
Proof.
  intros Ha Hb He. rewrite <- (octet_bits_val a Ha), <- (octet_bits_val b Hb). congruence.
Qed.

Lemma bits_val_octet u : length u = 8%nat -> octet_bits (bits_val u) = u.
Proof.
  intros H. apply bits_val_inj; [by rewrite length_octet_bits|].
  apply octet_bits_val. pose proof (bits_val_bound u). rewrite H in *. simpl in *.
  unfold is_u8. lia.
Qed.

Lemma lookup_octet_bits b (i : nat) :
  (i < 8)%nat -> octet_bits b !! i = Some (Z.testbit b (7 - Z.of_nat i)).
Proof. intros H. do 8 (destruct i as [|i]; [reflexivity|]). lia. Qed.

(** ** Octet strings *)

Lemma length_bits_of l : length (bits_of l) = (8 * length l)%nat.
Proof. induction l; simpl; lia. Qed.

Lemma bits_of_app l1 l2 : bits_of (l1 ++ l2) = bits_of l1 ++ bits_of l2.
Proof. induction l1 as [|b l1 IH]; [done|]. rewrite <- app_comm_cons. cbn [bits_of].
  by rewrite IH, app_assoc. Qed.

Lemma take_bits_of k l : take (8 * k) (bits_of l) = bits_of (take k l).
Proof.
  revert k. induction l as [|b l IH]; intros [|k]; try done.
  rewrite Nat.mul_succ_r. rewrite firstn_cons. cbn [bits_of].
    rewrite take_app_ge, length_octet_bits by (rewrite length_octet_bits; lia).
    rewrite Nat.add_sub. by rewrite IH.
Qed.

Lemma drop_bits_of k l : drop (8 * k) (bits_of l) = bits_of (drop k l).
Proof.
  revert k. induction l as [|b l IH]; intros [|k]; try done.
  rewrite Nat.mul_succ_r. rewrite skipn_cons. cbn [bits_of].
    rewrite drop_app_ge, length_octet_bits by (rewrite length_octet_bits; lia).
    rewrite Nat.add_sub. by rewrite IH.
Qed.

Lemma bits_of_inj l1 l2 :
  wf_bytes l1 -> wf_bytes l2 -> bits_of l1 = bits_of l2 -> l1 = l2.
Proof.
  revert l2. induction l1 as [|a l1 IH]; intros [|b l2] H1 H2; cbn [bits_of]; intros He.
  - done.
  - by apply (f_equal length) in He.
  - by apply (f_equal length) in He.
  - apply app_inj_1 in He as [Ha Hl]; [|done].
    inversion_clear H1; inversion_clear H2.
    f_equal; [by apply octet_bits_inj|by apply IH].
Qed.

Lemma bits_val_bits_of l : wf_bytes l -> bits_val (bits_of l) = from_be_bytes l.
Proof.
  induction l as [|b l IH]; intros H; [done|]. inversion_clear H as [|? ? Hb Hl].
  cbn [bits_of from_be_bytes]. rewrite bits_val_app, octet_bits_val, IH, length_bits_of by done.
  f_equal. f_equal. rewrite Nat2Z.inj_mul, Z.pow_mul_r by lia. reflexivity.
Qed.

(** Comparing two integers shifted right by [s] compares their leading bits. *)
Lemma shiftr_eq_take l1 l2 n :
  wf_bytes l1 -> wf_bytes l2 -> length l1 = length l2 -> (n <= 8 * length l1)%nat ->
  Z.shiftr (from_be_bytes l1) (Z.of_nat (8 * length l1 - n)) =
  Z.shiftr (from_be_bytes l2) (Z.of_nat (8 * length l1 - n)) <->
  take n (bits_of l1) = take n (bits_of l2).
Proof.
  intros H1 H2 Hlen Hn. rewrite !Z.shiftr_div_pow2 by lia.
  rewrite <- !bits_val_bits_of by done.
  pose proof (bits_val_take (bits_of l1) n) as E1.
  pose proof (bits_val_take (bits_of l2) n) as E2.
  rewrite length_bits_of in E1, E2. rewrite <- Hlen in E2. rewrite <- E1, <- E2.
  split; [|congruence]. apply bits_val_inj. rewrite !length_take, !length_bits_of. lia.
Qed.

(** Masking with [0xFF << (8 - r)] keeps the first [r] bits of an octet. *)
Lemma octet_bits_mask b (r : nat) :
  (r <= 8)%nat ->
  octet_bits (Z.land b (Z.land (Z.shiftl 255 (Z.of_nat (8 - r))) 255)) =
  take r (octet_bits b) ++ replicate (8 - r) false.
Proof.
  intros Hr. unfold octet_bits.
  rewrite !Z.land_spec, !Z.shiftl_spec by lia.
  do 9 (destruct r as [|r]; [simpl; by rewrite ?andb_true_r, ?andb_false_r|]). lia.
Qed.

Lemma land_u8 a m : is_u8 a -> is_u8 (Z.land a m).
Proof.
  intros Ha. assert (Z.land a m = Z.land a m mod 2 ^ 8) as ->.
  - rewrite <- Z.land_ones, <- Z.land_assoc, (Z.land_comm m), Z.land_assoc by lia.
    rewrite Z.land_ones, (Z.mod_small a) by (unfold is_u8 in Ha; lia). done.
  - apply Z.mod_pos_bound. lia.
Qed.

Lemma take_octet_mask_eq a b r :
  is_u8 a -> is_u8 b -> (r <= 8)%nat ->
  Z.land a (Z.land (Z.shiftl 255 (Z.of_nat (8 - r))) 255) =
  Z.land b (Z.land (Z.shiftl 255 (Z.of_nat (8 - r))) 255) <->
  take r (octet_bits a) = take r (octet_bits b).
Proof.
  intros Ha Hb Hr. split; intros H.
  - apply (f_equal octet_bits) in H. rewrite !octet_bits_mask in H by done.
    apply app_inj_1 in H; [tauto|]. by rewrite !length_take, !length_octet_bits.
  - apply octet_bits_inj.
    + by apply land_u8.
    + by apply land_u8.
    + rewrite !octet_bits_mask by done. by f_equal.
Qed.

(** ** Longest common prefix of two bit strings *)

Fixpoint lcp (u v : list bool) : nat :=
  match u, v with
  | a :: u', b :: v' => if Bool.eqb a b then S (lcp u' v') else 0%nat
  | _, _ => 0%nat
  end.

Lemma lcp_le_l u v : (lcp u v <= length u)%nat.
Proof. revert v. induction u as [|a u IH]; intros [|b v]; simpl; try lia. destruct (Bool.eqb a b); [specialize (IH v)|]; lia. Qed.

Lemma lcp_comm u v : lcp u v = lcp v u.
Proof.
  revert v. induction u as [|a u IH]; intros [|b v]; simpl; try done.
  rewrite (IH v). by destruct a, b.
Qed.

Lemma take_lcp u v n : (n <= lcp u v)%nat -> take n u = take n v.
Proof.
  revert v n. induction u as [|a u IH]; intros [|b v] [|n]; simpl; try done; try lia.
  destruct (Bool.eqb a b) eqn:E; [|lia]. apply Bool.eqb_prop in E as ->.
  intros H. f_equal. apply IH. lia.
Qed.

Lemma take_eq_lcp u v n :
  (n <= length u)%nat -> (n <= length v)%nat ->
  take n u = take n v <-> (n <= lcp u v)%nat.
Proof.
  intros Hu Hv. split; [|apply take_lcp].
  revert v n Hu Hv. induction u as [|a u IH]; intros [|b v] [|n]; simpl; try lia.
  intros Hu Hv [= -> He]. rewrite Bool.eqb_reflx.
  assert (n <= lcp u v)%nat by (apply IH; [lia|lia|done]). lia.
Qed.

(** The first differing position. *)
Lemma lcp_differ u v :
  (lcp u v < length u)%nat -> (lcp u v < length v)%nat ->
  exists a, u !! lcp u v = Some a /\ v !! lcp u v = Some (negb a).
Proof.
  revert v. induction u as [|a u IH]; intros [|b v]; simpl; try lia.
  destruct (Bool.eqb a b) eqn:E; simpl.
  - intros ??. apply IH; lia.
  - intros _ _. exists a. split; [done|]. by destruct a, b.
Qed.

Lemma lcp_app_same w u v : lcp (w ++ u) (w ++ v) = (length w + lcp u v)%nat.
Proof. induction w as [|b w IH]; simpl; [done|]. by rewrite Bool.eqb_reflx, IH. Qed.

Lemma lcp_app_differ u v u' v' :
  length u = length v -> (lcp u v < length u)%nat -> lcp (u ++ u') (v ++ v') = lcp u v.
Proof.
  revert v. induction u as [|a u IH]; intros [|b v]; simpl; try lia.
  intros [= Hl]. destruct (Bool.eqb a b); [|done]. intros H. rewrite IH; lia.
Qed.
