(* ===== verification/IpAddr.v ===== *)
(** * IP addresses

    The part of Rust's [std::net] the crates use: [IpAddr] as its octets, the
    mapping of IPv4 into IPv6 and back, and socket addresses. *)

From S2P Require Import Prelude Bytes Bits.

Inductive IpAddr : Type :=
| V4 (octets : list Z)
| V6 (octets : list Z).

#[global] Instance IpAddr_eq_dec : EqDecision IpAddr.
Proof. solve_decision. Defined.

#[global] Instance IpAddr_countable : Countable IpAddr.
Proof.
  refine (inj_countable'
    (fun a => match a with V4 o => inl o | V6 o => inr o end)
    (fun s => match s with inl o => V4 o | inr o => V6 o end) _).
  by intros [].
Defined.

Definition octets (a : IpAddr) : list Z :=
  match a with V4 o => o | V6 o => o end.
Definition is_ipv4 (a : IpAddr) : bool :=
  match a with V4 _ => true | V6 _ => false end.
Definition is_ipv6 (a : IpAddr) : bool := negb (is_ipv4 a).

(** The number of octets of an address of the same family. *)
Definition addr_len (a : IpAddr) : nat := if is_ipv4 a then 4%nat else 16%nat.

(** [Ipv4Addr] holds four octets, [Ipv6Addr] sixteen. *)
Definition wf_ip (a : IpAddr) : Prop :=
  wf_bytes (octets a) /\ length (octets a) = addr_len a.

#[global] Instance wf_ip_dec a : Decision (wf_ip a).
Proof. unfold wf_ip. apply _. Defined.

Definition V4_UNSPECIFIED : IpAddr := V4 [0; 0; 0; 0].
Definition V6_UNSPECIFIED : IpAddr := V6 (replicate 16 0).

(** [Ipv4Addr::to_ipv6_mapped]. *)
Definition to_ipv6_mapped (o : list Z) : list Z := replicate 10 0 ++ [255; 255] ++ o.

(** [Ipv6Addr::to_ipv4_mapped]. *)
Definition to_ipv4_mapped (o : list Z) : option (list Z) :=
  if decide (take 12 o = replicate 10 0 ++ [255; 255]) then Some (drop 12 o) else None.

Record SocketAddr : Type := { ip : IpAddr; port : Z }.

#[global] Instance SocketAddr_eq_dec : EqDecision SocketAddr.
Proof. solve_decision. Defined.

(** The bit string of an address. *)
Definition ip_bits (a : IpAddr) : list bool := bits_of (octets a).

Lemma wf_ip_bytes a : wf_ip a -> wf_bytes (octets a).
Proof. by intros []. Qed.
Lemma wf_ip_length a : wf_ip a -> length (octets a) = addr_len a.
Proof. by intros []. Qed.
#[export] Hint Resolve wf_ip_bytes wf_ip_length : wf.

Lemma length_ip_bits a : wf_ip a -> length (ip_bits a) = (8 * addr_len a)%nat.
Proof. intros [_ H]. unfold ip_bits. by rewrite length_bits_of, H. Qed.

Lemma ip_bits_inj a b :
  wf_ip a -> wf_ip b -> is_ipv4 a = is_ipv4 b -> ip_bits a = ip_bits b -> a = b.
Proof.
  intros [Ha _] [Hb _] Hf He. apply bits_of_inj in He; [|done..].
  destruct a, b; simpl in *; congruence.
Qed.

Lemma to_ipv4_mapped_to_ipv6_mapped o : to_ipv4_mapped (to_ipv6_mapped o) = Some o.
Proof. reflexivity. Qed.

Lemma to_ipv4_mapped_Some o o4 :
  to_ipv4_mapped o = Some o4 -> o = to_ipv6_mapped o4.
Proof.
  unfold to_ipv4_mapped, to_ipv6_mapped. case_decide as H; [|done]. intros [= <-].
  rewrite <- (take_drop 12 o) at 1. by rewrite H, <- app_assoc.
Qed.
