(* ===== verification/Packet.v ===== *)
(** * IP packet parsing: [crates/packet/src/lib.rs]

    [decode] is [Parsed::decode], the rich view with offsets; [parse_packet]
    is the free function that produces the flat [PacketInfo] the filter
    consumes.  Both parse attacker-supplied bytes, so every slice access is a
    [run] operation that can panic. *)

From S2P Require Import Prelude Bytes Bits IpAddr.

(** ** Constants *)

Definition UNKNOWN : Z := 0.
Definition ICMP_V4 : Z := 1.
Definition IGMP : Z := 2.
Definition TCP : Z := 6.
Definition UDP : Z := 17.
Definition FRAGMENT : Z := 44.
Definition ICMP_V6 : Z := 58.
Definition SCTP : Z := 132.
Definition TSMP : Z := 99.

Definition TCP_FIN : Z := 0x01.
Definition TCP_SYN : Z := 0x02.
Definition TCP_RST : Z := 0x04.
Definition TCP_PSH : Z := 0x08.
Definition TCP_ACK : Z := 0x10.
Definition TCP_URG : Z := 0x20.
Definition TCP_ECE : Z := 0x40.
Definition TCP_CWR : Z := 0x80.
Definition TCP_SYN_ACK : Z := Z.lor TCP_SYN TCP_ACK.

Definition tcp_contains (f other : Z) : bool := Z.land f other =? other.
Definition tcp_is_set (f flag : Z) : bool := negb (Z.land f flag =? 0).

Definition ICMP_V4_ERROR_TYPES : list Z := [3; 4; 11; 12].
Definition ICMP_V6_ERROR_TYPES : list Z := [1; 2; 3; 4].

(** ** Data *)

Record IPv4Header : Type := {
  h4_version : Z; h4_ihl : Z; h4_tos : Z; h4_total_len : Z; h4_id : Z;
  h4_flags_frag : Z; h4_ttl : Z; h4_proto : Z; h4_checksum : Z;
  h4_src : list Z; h4_dst : list Z }.

Record IPv6Header : Type := {
  h6_version : Z; h6_traffic_class : Z; h6_flow_label : Z; h6_payload_len : Z;
  h6_next_header : Z; h6_hop_limit : Z; h6_src : list Z; h6_dst : list Z }.

Record ICMPHeader : Type := {
  icmp_type : Z; icmp_code : Z; icmp_checksum : Z; icmp_rest_of_header : Z }.

Record UDPHeader : Type := {
  udp_src_port : Z; udp_dst_port : Z; udp_len : Z; udp_checksum : Z }.

Record PacketInfo : Type := {
  version : Z; proto : Z; src : IpAddr; dst : IpAddr;
  src_port : Z; dst_port : Z; tcp_flags : Z;
  is_tcp_syn : bool; is_icmp_echo_reply : bool; is_icmp_error : bool }.

(** [PacketInfo { version, proto, src, dst, ..Default::default() }]. *)
Definition packet_info_default (v p : Z) (s d : IpAddr) : PacketInfo :=
  {| version := v; proto := p; src := s; dst := d; src_port := 0; dst_port := 0;
     tcp_flags := 0; is_tcp_syn := false; is_icmp_echo_reply := false;
     is_icmp_error := false |}.

Record Parsed : Type := {
  q_buf : list Z; q_subofs : nat; q_dataofs : nat; q_length : nat;
  q_ip_version : Z; q_ip_proto : Z; q_src : IpAddr; q_dst : IpAddr;
  q_src_port : Z; q_dst_port : Z; q_tcp_flags : Z }.

(** Field updates of [Parsed]. *)
Definition set_version (q : Parsed) (v : Z) : Parsed :=
  {| q_buf := q_buf q; q_subofs := q_subofs q; q_dataofs := q_dataofs q;
     q_length := q_length q; q_ip_version := v; q_ip_proto := q_ip_proto q;
     q_src := q_src q; q_dst := q_dst q; q_src_port := q_src_port q;
     q_dst_port := q_dst_port q; q_tcp_flags := q_tcp_flags q |}.
Definition set_proto (q : Parsed) (p : Z) : Parsed :=
  {| q_buf := q_buf q; q_subofs := q_subofs q; q_dataofs := q_dataofs q;
     q_length := q_length q; q_ip_version := q_ip_version q; q_ip_proto := p;
     q_src := q_src q; q_dst := q_dst q; q_src_port := q_src_port q;
     q_dst_port := q_dst_port q; q_tcp_flags := q_tcp_flags q |}.
Definition set_addrs (q : Parsed) (s d : IpAddr) : Parsed :=
  {| q_buf := q_buf q; q_subofs := q_subofs q; q_dataofs := q_dataofs q;
     q_length := q_length q; q_ip_version := q_ip_version q;
     q_ip_proto := q_ip_proto q; q_src := s; q_dst := d;
     q_src_port := q_src_port q; q_dst_port := q_dst_port q;
     q_tcp_flags := q_tcp_flags q |}.
Definition set_subofs (q : Parsed) (o : nat) : Parsed :=
  {| q_buf := q_buf q; q_subofs := o; q_dataofs := q_dataofs q;
     q_length := q_length q; q_ip_version := q_ip_version q;
     q_ip_proto := q_ip_proto q; q_src := q_src q; q_dst := q_dst q;
     q_src_port := q_src_port q; q_dst_port := q_dst_port q;
     q_tcp_flags := q_tcp_flags q |}.
Definition set_dataofs (q : Parsed) (o : nat) : Parsed :=
  {| q_buf := q_buf q; q_subofs := q_subofs q; q_dataofs := o;
     q_length := q_length q; q_ip_version := q_ip_version q;
     q_ip_proto := q_ip_proto q; q_src := q_src q; q_dst := q_dst q;
     q_src_port := q_src_port q; q_dst_port := q_dst_port q;
     q_tcp_flags := q_tcp_flags q |}.
Definition set_transport (q : Parsed) (sp dp fl : Z) : Parsed :=
  {| q_buf := q_buf q; q_subofs := q_subofs q; q_dataofs := q_dataofs q;
     q_length := q_length q; q_ip_version := q_ip_version q;
     q_ip_proto := q_ip_proto q; q_src := q_src q; q_dst := q_dst q;
     q_src_port := sp; q_dst_port := dp; q_tcp_flags := fl |}.

(** ** [Parsed::decode] *)

(** [Parsed::fill_transport]. *)
Definition fill_transport (q : Parsed) (transport : list Z) : run Parsed :=
  if q_ip_proto q =? TCP then
    if (14 <=? length transport)%nat then
      t0 ← idx transport 0; t1 ← idx transport 1;
      t2 ← idx transport 2; t3 ← idx transport 3;
      t13 ← idx transport 13;
      Ret (set_transport q (from_be_bytes [t0; t1]) (from_be_bytes [t2; t3]) t13)
    else Ret q
  else if ((q_ip_proto q =? UDP) || (q_ip_proto q =? SCTP))
          && (4 <=? length transport)%nat then
    t0 ← idx transport 0; t1 ← idx transport 1;
    t2 ← idx transport 2; t3 ← idx transport 3;
    Ret (set_transport q (from_be_bytes [t0; t1]) (from_be_bytes [t2; t3]) (q_tcp_flags q))
  else Ret q.

(** [Parsed::compute_dataofs]. *)
Definition compute_dataofs (q : Parsed) (transport : list Z) : run nat :=
  if q_ip_proto q =? TCP then
    if (14 <=? length transport)%nat then
      t12 ← idx transport 12;
      Ret (q_subofs q + Z.to_nat (Z.shiftr t12 4) * 4)%nat
    else Ret (q_subofs q)
  else if q_ip_proto q =? UDP then Ret (q_subofs q + 8)%nat
  else if q_ip_proto q =? SCTP then Ret (q_subofs q + 12)%nat
  else if (q_ip_proto q =? ICMP_V4) || (q_ip_proto q =? ICMP_V6) then Ret (q_subofs q + 8)%nat
  else Ret (q_subofs q).

(** [Parsed::decode4]. *)
Definition decode4 (q : Parsed) (b : list Z) : run Parsed :=
  if (length b <? 20)%nat then Ret (set_proto q UNKNOWN)
  else
    b0 ← idx b 0;
    let ihl := (Z.to_nat (Z.land b0 0x0F) * 4)%nat in
    if (ihl <? 20)%nat || (length b <? ihl)%nat then Ret (set_proto q UNKNOWN)
    else
      b9 ← idx b 9;
      let q := set_proto q b9 in
      s ← idx_range b 12 4;
      d ← idx_range b 16 4;
      let q := set_addrs q (V4 s) (V4 d) in
      let q := set_subofs q ihl in
      t ← slice_from b ihl;
      q ← fill_transport q t;
      dofs ← compute_dataofs q t;
      Ret (set_dataofs q dofs).

(** The extension-header loop of [Parsed::decode6].  Each iteration advances
    [offset] by at least eight, so [length b] iterations are enough. *)
Fixpoint decode6_loop (fuel : nat) (b : list Z) (next_header : Z) (offset : nat)
  : run (Z * nat) :=
  match fuel with
  | O => Panic
  | S fuel =>
    if (next_header =? 0) || (next_header =? 43) || (next_header =? 60)
       || (next_header =? 51) then
      if (length b <? offset + 2)%nat then Ret (next_header, offset)
      else
        new_nh ← idx b offset;
        l ← idx b (offset + 1);
        let hdr_len := if next_header =? 51 then ((Z.to_nat l + 2) * 4)%nat
                       else ((Z.to_nat l + 1) * 8)%nat in
        decode6_loop fuel b new_nh (offset + hdr_len)
    else if next_header =? FRAGMENT then
      if (length b <? offset + 8)%nat then Ret (next_header, offset)
      else
        f2 ← idx b (offset + 2);
        f3 ← idx b (offset + 3);
        let frag_offset := Z.lor (wrap16 (Z.shiftl f2 5)) (Z.shiftr f3 3) in
        if negb (frag_offset =? 0) then Ret (next_header, offset)
        else
          nh ← idx b offset;
          decode6_loop fuel b nh (offset + 8)
    else Ret (next_header, offset)
  end.

(** [Parsed::decode6]. *)
Definition decode6 (q : Parsed) (b : list Z) : run Parsed :=
  if (length b <? 40)%nat then Ret (set_proto q UNKNOWN)
  else
    next_header ← idx b 6;
    s ← idx_range b 8 16;
    d ← idx_range b 24 16;
    let q := set_addrs q (V6 s) (V6 d) in
    r ← decode6_loop (length b) b next_header 40;
    let q := set_proto q r.1 in
    let q := set_subofs q r.2 in
    if (r.2 <? length b)%nat then
      t ← slice_from b r.2;
      q ← fill_transport q t;
      dofs ← compute_dataofs q t;
      Ret (set_dataofs q dofs)
    else Ret q.

(** [Parsed::decode]. *)
Definition decode (buf : list Z) : run Parsed :=
  let q := {| q_buf := buf; q_subofs := 0; q_dataofs := 0; q_length := length buf;
              q_ip_version := 0; q_ip_proto := UNKNOWN;
              q_src := V4_UNSPECIFIED; q_dst := V4_UNSPECIFIED;
              q_src_port := 0; q_dst_port := 0; q_tcp_flags := 0 |} in
  if (length buf =? 0)%nat then Ret q
  else
    b0 ← idx buf 0;
    let q := set_version q (Z.shiftr b0 4) in
    if q_ip_version q =? 4 then decode4 q buf
    else if q_ip_version q =? 6 then decode6 q buf
    else Ret (set_proto (set_version q 0) UNKNOWN).

(** ** Accessors of [Parsed] *)

(** [Parsed::transport]. *)
Definition transport (q : Parsed) : run (list Z) :=
  if (length (q_buf q) <? q_subofs q)%nat then Ret [] else slice_from (q_buf q) (q_subofs q).

(** [Parsed::payload]. *)
Definition payload (q : Parsed) : run (list Z) :=
  if (length (q_buf q) <? q_length q)%nat || (length (q_buf q) <? q_dataofs q)%nat then Ret []
  else slice (q_buf q) (q_dataofs q) (q_length q).

(** [Parsed::is_tcp_syn]. *)
Definition q_is_tcp_syn (q : Parsed) : bool := Z.land (q_tcp_flags q) TCP_SYN_ACK =? TCP_SYN.

(** An ICMP message of eight bytes or more with the given type and code 0. *)
Definition icmp_type_code0 (q : Parsed) (ty : Z) : run bool :=
  if (q_subofs q + 8 <=? length (q_buf q))%nat then
    t ← idx (q_buf q) (q_subofs q);
    c ← idx (q_buf q) (q_subofs q + 1);
    Ret ((t =? ty) && (c =? 0))
  else Ret false.

(** [Parsed::is_echo_request]. *)
Definition is_echo_request (q : Parsed) : run bool :=
  if q_ip_proto q =? ICMP_V4 then icmp_type_code0 q 8
  else if q_ip_proto q =? ICMP_V6 then icmp_type_code0 q 128
  else Ret false.

(** [Parsed::is_echo_response]. *)
Definition is_echo_response (q : Parsed) : run bool :=
  if q_ip_proto q =? ICMP_V4 then icmp_type_code0 q 0
  else if q_ip_proto q =? ICMP_V6 then icmp_type_code0 q 129
  else Ret false.

(** An ICMP message whose type is one of [types]. *)
Definition icmp_type_in (q : Parsed) (types : list Z) : run bool :=
  if (q_subofs q <? length (q_buf q))%nat then
    t ← idx (q_buf q) (q_subofs q);
    Ret (bool_decide (t ∈ types))
  else Ret false.

(** [Parsed::is_error]. *)
Definition is_error (q : Parsed) : run bool :=
  if q_ip_proto q =? ICMP_V4 then icmp_type_in q ICMP_V4_ERROR_TYPES
  else if q_ip_proto q =? ICMP_V6 then icmp_type_in q ICMP_V6_ERROR_TYPES
  else Ret false.

(** [Parsed::ip4_header]. *)
Definition ip4_header (q : Parsed) : run IPv4Header :=
  _ ← assert_run (q_ip_version q =? 4);
  let b := q_buf q in
  b0 ← idx b 0; b1 ← idx b 1;
  tl ← idx_range b 2 2; id ← idx_range b 4 2; ff ← idx_range b 6 2;
  b8 ← idx b 8; b9 ← idx b 9;
  ck ← idx_range b 10 2;
  s ← idx_range b 12 4; d ← idx_range b 16 4;
  Ret {| h4_version := 4; h4_ihl := Z.land b0 0x0F; h4_tos := b1;
         h4_total_len := from_be_bytes tl; h4_id := from_be_bytes id;
         h4_flags_frag := from_be_bytes ff; h4_ttl := b8; h4_proto := b9;
         h4_checksum := from_be_bytes ck; h4_src := s; h4_dst := d |}.

(** [Parsed::ip6_header]. *)
Definition ip6_header (q : Parsed) : run IPv6Header :=
  _ ← assert_run (q_ip_version q =? 6);
  let b := q_buf q in
  v ← idx_range b 0 4;
  let vtc_fl := from_be_bytes v in
  pl ← idx_range b 4 2;
  b6 ← idx b 6; b7 ← idx b 7;
  s ← idx_range b 8 16; d ← idx_range b 24 16;
  Ret {| h6_version := wrap8 (Z.shiftr vtc_fl 28);
         h6_traffic_class := wrap8 (Z.land (Z.shiftr vtc_fl 20) 0xFF);
         h6_flow_label := Z.land vtc_fl 0xFFFFF;
         h6_payload_len := from_be_bytes pl;
         h6_next_header := b6; h6_hop_limit := b7; h6_src := s; h6_dst := d |}.

(** [Parsed::icmp_header]. *)
Definition icmp_header (q : Parsed) : run ICMPHeader :=
  b ← slice_from (q_buf q) (q_subofs q);
  b0 ← idx b 0; b1 ← idx b 1;
  ck ← idx_range b 2 2; rest ← idx_range b 4 4;
  Ret {| icmp_type := b0; icmp_code := b1; icmp_checksum := from_be_bytes ck;
         icmp_rest_of_header := from_be_bytes rest |}.

(** [Parsed::udp_header]. *)
Definition udp_header (q : Parsed) : run UDPHeader :=
  b ← slice_from (q_buf q) (q_subofs q);
  sp ← idx_range b 0 2; dp ← idx_range b 2 2;
  ln ← idx_range b 4 2; ck ← idx_range b 6 2;
  Ret {| udp_src_port := from_be_bytes sp; udp_dst_port := from_be_bytes dp;
         udp_len := from_be_bytes ln; udp_checksum := from_be_bytes ck |}.

(** ** [parse_packet] *)

(** [fill_transport_info]. *)
Definition fill_transport_info (info : PacketInfo) (p : Z) (transport : list Z)
  : run PacketInfo :=
  if p =? TCP then
    if (14 <=? length transport)%nat then
      t0 ← idx transport 0; t1 ← idx transport 1;
      t2 ← idx transport 2; t3 ← idx transport 3;
      fl ← idx transport 13;
      Ret {| version := version info; proto := proto info; src := src info;
             dst := dst info;
             src_port := from_be_bytes [t0; t1]; dst_port := from_be_bytes [t2; t3];
             tcp_flags := fl;
             is_tcp_syn := Z.land fl (Z.lor TCP_SYN TCP_ACK) =? TCP_SYN;
             is_icmp_echo_reply := is_icmp_echo_reply info;
             is_icmp_error := is_icmp_error info |}
    else Ret info
  else if (p =? UDP) || (p =? SCTP) then
    if (4 <=? length transport)%nat then
      t0 ← idx transport 0; t1 ← idx transport 1;
      t2 ← idx transport 2; t3 ← idx transport 3;
      Ret {| version := version info; proto := proto info; src := src info;
             dst := dst info;
             src_port := from_be_bytes [t0; t1]; dst_port := from_be_bytes [t2; t3];
             tcp_flags := tcp_flags info; is_tcp_syn := is_tcp_syn info;
             is_icmp_echo_reply := is_icmp_echo_reply info;
             is_icmp_error := is_icmp_error info |}
    else Ret info
  else if (p =? ICMP_V4) && negb (length transport =? 0)%nat then
    ty ← idx transport 0;
    Ret {| version := version info; proto := proto info; src := src info;
           dst := dst info; src_port := src_port info; dst_port := dst_port info;
           tcp_flags := tcp_flags info; is_tcp_syn := is_tcp_syn info;
           is_icmp_echo_reply := ty =? 0;
           is_icmp_error := bool_decide (ty ∈ ICMP_V4_ERROR_TYPES) |}
  else if (p =? ICMP_V6) && negb (length transport =? 0)%nat then
    ty ← idx transport 0;
    Ret {| version := version info; proto := proto info; src := src info;
           dst := dst info; src_port := src_port info; dst_port := dst_port info;
           tcp_flags := tcp_flags info; is_tcp_syn := is_tcp_syn info;
           is_icmp_echo_reply := ty =? 129;
           is_icmp_error := bool_decide (ty ∈ ICMP_V6_ERROR_TYPES) |}
  else Ret info.

(** [parse_v4]. *)
Definition parse_v4 (buf : list Z) : run (option PacketInfo) :=
  if (length buf <? 20)%nat then Ret None
  else
    b0 ← idx buf 0;
    let ihl := (Z.to_nat (Z.land b0 0x0F) * 4)%nat in
    if (ihl <? 20)%nat || (length buf <? ihl)%nat then Ret None
    else
      p ← idx buf 9;
      s ← idx_range buf 12 4;
      d ← idx_range buf 16 4;
      t ← slice_from buf ihl;
      info ← fill_transport_info (packet_info_default 4 p (V4 s) (V4 d)) p t;
      Ret (Some info).

(** The extension-header loop of [parse_v6]. *)
Fixpoint parse_v6_loop (fuel : nat) (buf : list Z) (next_header : Z) (offset : nat)
  : run (Z * nat) :=
  match fuel with
  | O => Panic
  | S fuel =>
    if (next_header =? 0) || (next_header =? 43) || (next_header =? 60)
       || (next_header =? 51) then
      if (length buf <? offset + 2)%nat then Ret (next_header, offset)
      else
        new_nh ← idx buf offset;
        l ← idx buf (offset + 1);
        let hdr_len := if next_header =? 51 then ((Z.to_nat l + 2) * 4)%nat
                       else ((Z.to_nat l + 1) * 8)%nat in
        parse_v6_loop fuel buf new_nh (offset + hdr_len)
    else if next_header =? FRAGMENT then
      if (length buf <? offset + 8)%nat then Ret (next_header, offset)
      else
        f2 ← idx buf (offset + 2);
        f3 ← idx buf (offset + 3);
        let frag_offset := Z.lor (wrap16 (Z.shiftl f2 5)) (Z.shiftr f3 3) in
        if negb (frag_offset =? 0) then Ret (next_header, offset)
        else
          nh ← idx buf offset;
          parse_v6_loop fuel buf nh (offset + 8)
    else Ret (next_header, offset)
  end.

(** [parse_v6]. *)
Definition parse_v6 (buf : list Z) : run (option PacketInfo) :=
  if (length buf <? 40)%nat then Ret None
  else
    next_header ← idx buf 6;
    s ← idx_range buf 8 16;
    d ← idx_range buf 24 16;
    r ← parse_v6_loop (length buf) buf next_header 40;
    let info := packet_info_default 6 r.1 (V6 s) (V6 d) in
    if (r.2 <? length buf)%nat then
      t ← slice_from buf r.2;
      info ← fill_transport_info info r.1 t;
      Ret (Some info)
    else Ret (Some info).

(** [parse_packet]. *)
Definition parse_packet (buf : list Z) : run (option PacketInfo) :=
  if (length buf =? 0)%nat then Ret None
  else
    b0 ← idx buf 0;
    let v := Z.shiftr b0 4 in
    if v =? 4 then parse_v4 buf
    else if v =? 6 then parse_v6 buf
    else Ret None.

(** ** The extension-header loop *)

(** A protocol number at which the loop keeps going, given enough bytes. *)
Definition is_ext_header (nh : Z) : bool :=
  (nh =? 0) || (nh =? 43) || (nh =? 60) || (nh =? 51).

(** Both loops agree. *)
Lemma loops_agree fuel b nh offset :
  decode6_loop fuel b nh offset = parse_v6_loop fuel b nh offset.
Proof.
  revert nh offset. induction fuel as [|fuel IH]; intros nh offset; [done|].
  cbn [decode6_loop parse_v6_loop].
  destruct (_ || _ || _ || _); [|destruct (nh =? FRAGMENT); [|done]];
  case_match; try done; repeat (destruct (idx b _); [|done]); simpl; rewrite ?IH; auto.
Qed.

(** Why the loop stopped: a transport protocol, a truncated extension header,
    or a fragment that is truncated or not the first one. *)
Definition loop_stopped (b : list Z) (nh : Z) (offset : nat) : Prop :=
  (is_ext_header nh = false /\ nh <> FRAGMENT) \/
  (is_ext_header nh = true /\ (length b < offset + 2)%nat) \/
  (nh = FRAGMENT /\
   ((length b < offset + 8)%nat \/
    Z.lor (wrap16 (Z.shiftl (byte_at b (offset + 2)) 5))
          (Z.shiftr (byte_at b (offset + 3)) 3) <> 0)).

Lemma parse_v6_loop_returns fuel b nh offset :
  (1 <= fuel)%nat -> (length b + 8 <= offset + 8 * fuel)%nat ->
  exists nh' off', parse_v6_loop fuel b nh offset = Ret (nh', off') /\
    (offset <= off')%nat /\ loop_stopped b nh' off'.
Proof.
  revert nh offset. induction fuel as [|fuel IH]; intros nh offset H1 H2; [lia|].
  cbn [parse_v6_loop]. fold (is_ext_header nh).
  destruct (is_ext_header nh) eqn:Eext.
  - destruct (Nat.ltb_spec (length b) (offset + 2)) as [Hlt|Hge].
    { exists nh, offset. split_and!; [done|lia|right; left; auto]. }
    run_steps.
    match goal with |- context [parse_v6_loop fuel b ?n (offset + ?h)] =>
      assert (8 <= h)%nat as Hh by (destruct (nh =? 51); lia);
      destruct (IH n (offset + h)%nat) as (nh' & off' & E & Ho & Hs); [lia..|]
    end.
    exists nh', off'. split_and!; [done|lia|done].
  - destruct (Z.eqb_spec nh FRAGMENT) as [->|Hne].
    + destruct (Nat.ltb_spec (length b) (offset + 8)) as [Hlt|Hge].
      { exists FRAGMENT, offset. split_and!; [done|lia|right; right; auto]. }
      run_steps. destruct (Z.eqb_spec
        (Z.lor (wrap16 (Z.shiftl (byte_at b (offset + 2)) 5))
               (Z.shiftr (byte_at b (offset + 3)) 3)) 0) as [E0|E0]; simpl.
      * destruct (IH (byte_at b offset) (offset + 8)%nat) as (nh' & off' & E & Ho & Hs); [lia..|].
        exists nh', off'. split_and!; [done|lia|done].
      * exists FRAGMENT, offset. split_and!; [done|lia|right; right; auto].
    + exists nh, offset. split_and!; [done|lia|left; auto].
Qed.

(** ** Transport fields *)

(** Source port, destination port and TCP flags of a transport header. *)
Definition transport_fields (p : Z) (t : list Z) : Z * Z * Z :=
  if p =? TCP then
    if (14 <=? length t)%nat then
      (from_be_bytes [byte_at t 0; byte_at t 1],
       from_be_bytes [byte_at t 2; byte_at t 3], byte_at t 13)
    else (0, 0, 0)
  else if ((p =? UDP) || (p =? SCTP)) && (4 <=? length t)%nat then
    (from_be_bytes [byte_at t 0; byte_at t 1],
     from_be_bytes [byte_at t 2; byte_at t 3], 0)
  else (0, 0, 0).

(** The payload offset relative to the transport header. *)
Definition header_size (p : Z) (t : list Z) : nat :=
  if p =? TCP then
    if (14 <=? length t)%nat then (Z.to_nat (Z.shiftr (byte_at t 12) 4) * 4)%nat else 0%nat
  else if p =? UDP then 8%nat
  else if p =? SCTP then 12%nat
  else if (p =? ICMP_V4) || (p =? ICMP_V6) then 8%nat
  else 0%nat.

Lemma fill_transport_eq q t :
  q_src_port q = 0 -> q_dst_port q = 0 -> q_tcp_flags q = 0 ->
  fill_transport q t =
  let f := transport_fields (q_ip_proto q) t in Ret (set_transport q f.1.1 f.1.2 f.2).
Proof.
  intros H1 H2 H3. unfold fill_transport, transport_fields.
  assert (set_transport q 0 0 0 = q) as Hq by (destruct q; simpl in *; subst; done).
  destruct (q_ip_proto q =? TCP).
  - destruct (Nat.leb_spec 14 (length t)); [|simpl; by rewrite Hq]. run_steps. done.
  - destruct ((q_ip_proto q =? UDP) || (q_ip_proto q =? SCTP)); cbn [andb];
      [|simpl; by rewrite Hq].
    destruct (Nat.leb_spec 4 (length t)); [|simpl; by rewrite Hq]. run_steps. by rewrite H3.
Qed.

Lemma compute_dataofs_eq q t :
  compute_dataofs q t = Ret (q_subofs q + header_size (q_ip_proto q) t)%nat.
Proof.
  unfold compute_dataofs, header_size.
  destruct (_ =? TCP).
  - destruct (Nat.leb_spec 14 (length t)); [by run_steps|]. by rewrite Nat.add_0_r.
  - destruct (_ =? UDP); [done|]. destruct (_ =? SCTP); [done|].
    destruct (_ || _); [done|]. by rewrite Nat.add_0_r.
Qed.

(** The PacketInfo of a transport header. *)
Definition info_of (v p : Z) (s d : IpAddr) (t : list Z) : PacketInfo :=
  let f := transport_fields p t in
  {| version := v; proto := p; src := s; dst := d;
     src_port := f.1.1; dst_port := f.1.2; tcp_flags := f.2;
     is_tcp_syn := Z.land f.2 TCP_SYN_ACK =? TCP_SYN;
     is_icmp_echo_reply :=
       negb (length t =? 0)%nat &&
       (((p =? ICMP_V4) && (byte_at t 0 =? 0)) || ((p =? ICMP_V6) && (byte_at t 0 =? 129)));
     is_icmp_error :=
       negb (length t =? 0)%nat &&
       (((p =? ICMP_V4) && bool_decide (byte_at t 0 ∈ ICMP_V4_ERROR_TYPES)) ||
        ((p =? ICMP_V6) && bool_decide (byte_at t 0 ∈ ICMP_V6_ERROR_TYPES))) |}.

Lemma fill_transport_info_eq v p s d t :
  fill_transport_info (packet_info_default v p s d) p t = Ret (info_of v p s d t).
Proof.
  unfold fill_transport_info, info_of, transport_fields.
  destruct (Z.eqb_spec p TCP) as [->|H1].
  - destruct (Nat.leb_spec 14 (length t)); [run_steps|]; simpl;
      by destruct (negb _); simpl.
  - destruct (Z.eqb_spec p UDP) as [->|H2]; [|destruct (Z.eqb_spec p SCTP) as [->|H3]]; cbn [orb andb].
    + destruct (Nat.leb_spec 4 (length t)); [run_steps|]; simpl; by destruct (negb _).
    + destruct (Nat.leb_spec 4 (length t)); [run_steps|]; simpl; by destruct (negb _).
    + destruct (Nat.eqb_spec (length t) 0) as [E|E]; simpl.
      { by rewrite !andb_false_r. }
      destruct (Z.eqb_spec p ICMP_V4) as [->|H4]; simpl; [run_steps|].
      { simpl. by rewrite !orb_false_r. }
      destruct (Z.eqb_spec p ICMP_V6) as [->|H6]; simpl; [run_steps; done|]. done.
Qed.

(** ** Closed forms of the parsers *)

Definition ihl_of (b : list Z) : nat := (Z.to_nat (Z.land (byte_at b 0) 0x0F) * 4)%nat.

(** The buffer holds a complete IPv4 header. *)
Definition v4_complete (b : list Z) : Prop :=
  (20 <= length b)%nat /\ (20 <= ihl_of b)%nat /\ (ihl_of b <= length b)%nat.

#[global] Instance v4_complete_dec b : Decision (v4_complete b).
Proof. unfold v4_complete. apply _. Defined.

(** The decoded view of a packet whose transport header starts at [ofs]. *)
Definition parsed_of (buf : list Z) (v p : Z) (s d : IpAddr) (ofs : nat) : Parsed :=
  let t := drop ofs buf in
  let f := transport_fields p t in
  {| q_buf := buf; q_subofs := ofs;
     q_dataofs := if (ofs <? length buf)%nat || (v =? 4) then (ofs + header_size p t)%nat else 0%nat;
     q_length := length buf; q_ip_version := v; q_ip_proto := p;
     q_src := s; q_dst := d; q_src_port := f.1.1; q_dst_port := f.1.2; q_tcp_flags := f.2 |}.

(** The decoded view of a buffer that is not a packet. *)
Definition parsed_none (buf : list Z) (v : Z) : Parsed :=
  {| q_buf := buf; q_subofs := 0; q_dataofs := 0; q_length := length buf;
     q_ip_version := v; q_ip_proto := UNKNOWN;
     q_src := V4_UNSPECIFIED; q_dst := V4_UNSPECIFIED;
     q_src_port := 0; q_dst_port := 0; q_tcp_flags := 0 |}.

Definition ip_nibble (b : list Z) : Z := Z.shiftr (byte_at b 0) 4.

Definition v4_src (b : list Z) : IpAddr := V4 (take 4 (drop 12 b)).
Definition v4_dst (b : list Z) : IpAddr := V4 (take 4 (drop 16 b)).
Definition v6_src (b : list Z) : IpAddr := V6 (take 16 (drop 8 b)).
Definition v6_dst (b : list Z) : IpAddr := V6 (take 16 (drop 24 b)).

(** What [decode] and [parse_packet] compute, case by case. *)
Inductive packet_case (buf : list Z) : Parsed -> option PacketInfo -> Prop :=
| case_empty : buf = [] -> packet_case buf (parsed_none buf 0) None
| case_other :
    buf <> [] -> ip_nibble buf <> 4 -> ip_nibble buf <> 6 ->
    packet_case buf (parsed_none buf 0) None
| case_v4_bad :
    buf <> [] -> ip_nibble buf = 4 -> ~ v4_complete buf ->
    packet_case buf (parsed_none buf 4) None
| case_v4 p t :
    buf <> [] -> ip_nibble buf = 4 -> v4_complete buf ->
    p = byte_at buf 9 -> t = drop (ihl_of buf) buf ->
    packet_case buf (parsed_of buf 4 p (v4_src buf) (v4_dst buf) (ihl_of buf))
      (Some (info_of 4 p (v4_src buf) (v4_dst buf) t))
| case_v6_bad :
    buf <> [] -> ip_nibble buf = 6 -> (length buf < 40)%nat ->
    packet_case buf (parsed_none buf 6) None
| case_v6 p ofs :
    buf <> [] -> ip_nibble buf = 6 -> (40 <= length buf)%nat ->
    (40 <= ofs)%nat -> loop_stopped buf p ofs ->
    packet_case buf (parsed_of buf 6 p (v6_src buf) (v6_dst buf) ofs)
      (Some (info_of 6 p (v6_src buf) (v6_dst buf) (drop ofs buf))).

Lemma transport_fields_nil p : transport_fields p [] = (0, 0, 0).
Proof. unfold transport_fields. simpl. by rewrite andb_false_r, Tauto.if_same. Qed.

Lemma parse_v4_case q buf :
  q = parsed_none buf 4 -> buf <> [] -> ip_nibble buf = 4 ->
  exists q' o, decode4 q buf = Ret q' /\ parse_v4 buf = Ret o /\ packet_case buf q' o.
Proof.
  intros -> Hne Hv. unfold decode4, parse_v4.
  destruct (Nat.ltb_spec (length buf) 20) as [Hlt|Hge].
  { do 2 eexists. split_and!; [done..|]. apply case_v4_bad; [done..|]. unfold v4_complete. lia. }
  rewrite (idx_byte_at buf 0) by lia. rewrite !run_bind_Ret. fold (ihl_of buf).
  destruct ((ihl_of buf <? 20)%nat || (length buf <? ihl_of buf)%nat) eqn:Ei.
  { rewrite orb_true_iff, !Nat.ltb_lt in Ei.
    do 2 eexists. split_and!; [done..|]. apply case_v4_bad; [done..|]. unfold v4_complete. lia. }
  rewrite orb_false_iff, !Nat.ltb_ge in Ei.
  assert (v4_complete buf) as Hc by (unfold v4_complete; lia).
  destruct Hc as (? & ? & ?). run_steps.
  rewrite fill_transport_eq by done. cbv zeta. rewrite run_bind_Ret.
  rewrite compute_dataofs_eq, fill_transport_info_eq, !run_bind_Ret.
  exists (parsed_of buf 4 (byte_at buf 9) (v4_src buf) (v4_dst buf) (ihl_of buf)). eexists.
  split_and!; [unfold parsed_of; by rewrite orb_true_r|done|]. by apply case_v4.
Qed.

Lemma parse_v6_case q buf :
  q = parsed_none buf 6 -> buf <> [] -> ip_nibble buf = 6 ->
  exists q' o, decode6 q buf = Ret q' /\ parse_v6 buf = Ret o /\ packet_case buf q' o.
Proof.
  intros -> Hne Hv. unfold decode6, parse_v6.
  destruct (Nat.ltb_spec (length buf) 40) as [Hlt|Hge].
  { do 2 eexists. split_and!; [done..|]. by apply case_v6_bad. }
  run_steps. rewrite loops_agree.
  destruct (parse_v6_loop_returns (length buf) buf (byte_at buf 6) 40)
    as (p & ofs & -> & Hofs & Hs); [lia..|].
  rewrite !run_bind_Ret. cbn [fst snd].
  destruct (Nat.ltb_spec ofs (length buf)) as [Hlt|Hge'].
  - run_steps. rewrite fill_transport_eq by done. cbv zeta.
    rewrite run_bind_Ret, compute_dataofs_eq, fill_transport_info_eq, !run_bind_Ret.
    exists (parsed_of buf 6 p (v6_src buf) (v6_dst buf) ofs). eexists.
    split_and!; [|done|by apply case_v6]. unfold parsed_of. apply Nat.ltb_lt in Hlt. by rewrite Hlt.
  - exists (parsed_of buf 6 p (v6_src buf) (v6_dst buf) ofs). eexists.
    split_and!; [|done|]; [unfold parsed_of; rewrite (proj2 (Nat.ltb_ge _ _) Hge');
      rewrite (drop_ge buf ofs) by lia; by rewrite transport_fields_nil|].
    fold (v6_src buf) (v6_dst buf). assert (info_of 6 p (v6_src buf) (v6_dst buf) (drop ofs buf) =
            packet_info_default 6 p (v6_src buf) (v6_dst buf)) as <-.
    { rewrite (drop_ge buf ofs) by lia. unfold info_of. by rewrite transport_fields_nil. }
    by apply case_v6.
Qed.

Lemma packet_cases buf :
  exists q o, decode buf = Ret q /\ parse_packet buf = Ret o /\ packet_case buf q o.
Proof.
  unfold decode, parse_packet.
  destruct (Nat.eqb_spec (length buf) 0) as [E|E].
  { do 2 eexists. split_and!; [done..|]. by apply case_empty, nil_length_inv. }
  assert (buf <> []) by (by intros ->). rewrite (idx_byte_at buf 0) by lia.
  rewrite !run_bind_Ret. fold (ip_nibble buf). cbv zeta. cbn [set_version q_ip_version].
  destruct (Z.eqb_spec (ip_nibble buf) 4) as [E4|E4].
  { apply parse_v4_case; [|done..]. unfold set_version, parsed_none. by rewrite E4. }
  destruct (Z.eqb_spec (ip_nibble buf) 6) as [E6|E6].
  { apply parse_v6_case; [|done..]. unfold set_version, parsed_none. by rewrite E6. }
  do 2 eexists. split_and!; [done..|]. by apply case_other.
Qed.

(** ** Serialised headers

    The wire layout of RFC 791 and RFC 8200, used to state that the accessors
    read each field where the format puts it. *)

Definition ip4_bytes (h : IPv4Header) : list Z :=
  [64 + h4_ihl h; h4_tos h] ++ to_be_bytes 2 (h4_total_len h) ++ to_be_bytes 2 (h4_id h) ++
  to_be_bytes 2 (h4_flags_frag h) ++ [h4_ttl h; h4_proto h] ++
  to_be_bytes 2 (h4_checksum h) ++ h4_src h ++ h4_dst h.

Definition wf_ip4_header (h : IPv4Header) : Prop :=
  h4_version h = 4 /\ 5 <= h4_ihl h <= 15 /\
  is_u16 (h4_total_len h) /\ is_u16 (h4_id h) /\ is_u16 (h4_flags_frag h) /\
  is_u16 (h4_checksum h) /\ length (h4_src h) = 4%nat /\ length (h4_dst h) = 4%nat.

Definition ip6_bytes (h : IPv6Header) : list Z :=
  to_be_bytes 4 (6 * 2 ^ 28 + h6_traffic_class h * 2 ^ 20 + h6_flow_label h) ++
  to_be_bytes 2 (h6_payload_len h) ++ [h6_next_header h; h6_hop_limit h] ++
  h6_src h ++ h6_dst h.

Definition wf_ip6_header (h : IPv6Header) : Prop :=
  h6_version h = 6 /\ is_u8 (h6_traffic_class h) /\ 0 <= h6_flow_label h < 2 ^ 20 /\
  is_u16 (h6_payload_len h) /\ length (h6_src h) = 16%nat /\ length (h6_dst h) = 16%nat.

Lemma list_len4 {A} (l : list A) :
  length l = 4%nat -> exists a b c d, l = [a; b; c; d].
Proof. destruct l as [|a [|b [|c [|d [|]]]]]; try done. eauto. Qed.

Lemma be2 z : is_u16 z ->
  exists x y, to_be_bytes 2 z = [x; y] /\ from_be_bytes [x; y] = z.
Proof. intros H. do 2 eexists. split; [done|]. apply (from_to_be_bytes_small 2). exact H. Qed.

Lemma be4 z : is_u32 z ->
  exists a b c d, to_be_bytes 4 z = [a; b; c; d] /\ from_be_bytes [a; b; c; d] = z
    /\ a = z / 2 ^ 24.
Proof.
  intros H. do 4 eexists. split; [done|].
  split; [apply (from_to_be_bytes_small 4); exact H|].
  apply Z.mod_small. unfold is_u32 in H. change (256 ^ Z.of_nat 3) with (2 ^ 24).
  split; [apply Z.div_pos; lia|apply Z.div_lt_upper_bound; lia].
Qed.

Lemma ip4_header_read h rest q :
  wf_ip4_header h -> q_buf q = ip4_bytes h ++ rest -> q_ip_version q = 4 ->
  ip4_header q = Ret h.
Proof.
  intros (Hv & Hi & Htl & Hid & Hff & Hck & Hs & Hd) Hb Hq.
  unfold ip4_header. rewrite Hq, Hb. unfold ip4_bytes.
  destruct (be2 _ Htl) as (t1 & t2 & -> & Et). destruct (be2 _ Hid) as (i1 & i2 & -> & Ei).
  destruct (be2 _ Hff) as (f1 & f2 & -> & Ef). destruct (be2 _ Hck) as (c1 & c2 & -> & Ec).
  destruct (list_len4 _ Hs) as (s1 & s2 & s3 & s4 & Es).
  destruct (list_len4 _ Hd) as (d1 & d2 & d3 & d4 & Ed). rewrite Es, Ed.
  cbn -[from_be_bytes Z.land Z.add]. rewrite Et, Ei, Ef, Ec.
  replace (Z.land (64 + h4_ihl h) 15) with (h4_ihl h).
  - destruct h; simpl in *; subst; done.
  - change 15 with (Z.ones 4). rewrite Z.land_ones by lia.
    change 64 with (4 * 2 ^ 4). rewrite Z.add_comm, Z.mod_add, Z.mod_small; simpl; lia.
Qed.

Lemma ip6_header_read h rest q :
  wf_ip6_header h -> q_buf q = ip6_bytes h ++ rest -> q_ip_version q = 6 ->
  ip6_header q = Ret h.
Proof.
  intros (Hv & Htc & Hfl & Hpl & Hs & Hd) Hb Hq. unfold is_u8 in Htc.
  unfold ip6_header. rewrite Hq, Hb. unfold ip6_bytes.
  set (w := 6 * 2 ^ 28 + h6_traffic_class h * 2 ^ 20 + h6_flow_label h).
  assert (is_u32 w) as Hw by (unfold is_u32, w; lia).
  destruct (be4 _ Hw) as (w1 & w2 & w3 & w4 & -> & Ew & _).
  destruct (be2 _ Hpl) as (p1 & p2 & -> & Ep).
  rewrite !(idx_range_ok _ 8), !(idx_range_ok _ 24) by (simpl; rewrite !length_app; simpl; lia).
  cbn -[from_be_bytes Z.land Z.shiftr wrap8 take drop].
  set (pre := [w1; w2; w3; w4; p1; p2; h6_next_header h; h6_hop_limit h]).
  assert (take 16 (drop 8 (pre ++ (h6_src h ++ h6_dst h) ++ rest)) = h6_src h) as Hsrc
    by (rewrite <- app_assoc; by apply take_drop_mid).
  assert (take 16 (drop 24 (pre ++ (h6_src h ++ h6_dst h) ++ rest)) = h6_dst h) as Hdst
    by (rewrite <- app_assoc, (app_assoc pre); apply take_drop_mid;
        rewrite ?length_app; simpl; lia).
  unfold pre in Hsrc, Hdst. cbn [app] in Hsrc, Hdst. rewrite Hsrc, Hdst.
  rewrite Ew, Ep. unfold wrap8.
  change 255 with (Z.ones 8). change 1048575 with (Z.ones 20).
  rewrite !Z.land_ones, !Z.shiftr_div_pow2 by lia.
  replace (w / 2 ^ 28) with 6 by (unfold w; apply Z.div_unique with (h6_traffic_class h * 2 ^ 20 + h6_flow_label h); lia).
  replace (w / 2 ^ 20) with (6 * 2 ^ 8 + h6_traffic_class h)
    by (unfold w; apply Z.div_unique with (h6_flow_label h); lia).
  replace (w mod 2 ^ 20) with (h6_flow_label h)
    by (unfold w; apply Z.mod_unique with (6 * 2 ^ 8 + h6_traffic_class h); lia).
  rewrite (Z.add_comm (6 * 2 ^ 8)), Z.mod_add by lia.
  rewrite (Z.mod_small (h6_traffic_class h)) by lia.
  rewrite (Z.mod_small (h6_traffic_class h)) by lia.
  destruct h; simpl in *; subst; done.
Qed.

Lemma ip4_bytes_fields h rest :
  wf_ip4_header h ->
  let buf := ip4_bytes h ++ rest in
  ip_nibble buf = 4 /\ ihl_of buf = (Z.to_nat (h4_ihl h) * 4)%nat /\
  length buf = (20 + length rest)%nat /\ byte_at buf 9 = h4_proto h /\
  take 4 (drop 12 buf) = h4_src h /\ take 4 (drop 16 buf) = h4_dst h.
Proof.
  intros (Hv & Hi & Htl & Hid & Hff & Hck & Hs & Hd) buf. unfold buf, ip4_bytes.
  destruct (be2 _ Htl) as (t1 & t2 & -> & _). destruct (be2 _ Hid) as (i1 & i2 & -> & _).
  destruct (be2 _ Hff) as (f1 & f2 & -> & _). destruct (be2 _ Hck) as (c1 & c2 & -> & _).
  destruct (list_len4 _ Hs) as (s1 & s2 & s3 & s4 & ->).
  destruct (list_len4 _ Hd) as (d1 & d2 & d3 & d4 & ->).
  unfold ip_nibble, ihl_of, byte_at. cbn -[Z.land Z.shiftr Z.add Nat.mul].
  split_and!; try done.
  - rewrite Z.shiftr_div_pow2 by lia. symmetry. apply Z.div_unique with (h4_ihl h); lia.
  - change 15 with (Z.ones 4). rewrite Z.land_ones by lia.
    change 64 with (4 * 2 ^ 4). rewrite Z.add_comm, Z.mod_add, Z.mod_small; simpl; lia.
Qed.

Lemma ip6_bytes_fields h rest :
  wf_ip6_header h ->
  let buf := ip6_bytes h ++ rest in
  ip_nibble buf = 6 /\ length buf = (40 + length rest)%nat /\
  byte_at buf 6 = h6_next_header h /\
  take 16 (drop 8 buf) = h6_src h /\ take 16 (drop 24 buf) = h6_dst h.
Proof.
  intros (Hv & Htc & Hfl & Hpl & Hs & Hd) buf. unfold is_u8 in Htc. unfold buf, ip6_bytes.
  set (w := 6 * 2 ^ 28 + h6_traffic_class h * 2 ^ 20 + h6_flow_label h).
  assert (is_u32 w) as Hw by (unfold is_u32, w; lia).
  destruct (be4 _ Hw) as (w1 & w2 & w3 & w4 & -> & _ & Ew).
  destruct (be2 _ Hpl) as (p1 & p2 & -> & _).
  rewrite <- !app_assoc. unfold ip_nibble, byte_at. split_and!.
  - cbn [app nth]. subst w1. rewrite Z.shiftr_div_pow2, Z.div_div by lia. symmetry.
    apply Z.div_unique with (h6_traffic_class h * 2 ^ 20 + h6_flow_label h); unfold w; simpl; lia.
  - cbn [app length]. rewrite !length_app, Hs, Hd. lia.
  - done.
  - by apply (take_drop_mid [w1; w2; w3; w4; p1; p2; h6_next_header h; h6_hop_limit h]).
  - change (take 16 (drop 24 (([w1; w2; w3; w4; p1; p2; h6_next_header h; h6_hop_limit h]) ++ h6_src h ++ h6_dst h ++ rest)) = h6_dst h).
    rewrite (app_assoc _ (h6_src h)). apply take_drop_mid; [rewrite length_app; simpl; lia|done].
Qed.

Lemma decode6_loop_stop fuel b nh ofs :
  (1 <= fuel)%nat -> is_ext_header nh = false -> nh <> FRAGMENT ->
  decode6_loop fuel b nh ofs = Ret (nh, ofs).
Proof.
  intros Hf He Hn. destruct fuel as [|fuel]; [lia|]. cbn [decode6_loop].
  fold (is_ext_header nh). rewrite He. by apply Z.eqb_neq in Hn as ->.
Qed.

Lemma decode_v6 buf :
  (40 <= length buf)%nat -> ip_nibble buf = 6 ->
  exists p ofs, decode6_loop (length buf) buf (byte_at buf 6) 40 = Ret (p, ofs) /\
    decode buf = Ret (parsed_of buf 6 p (v6_src buf) (v6_dst buf) ofs).
Proof.
  intros Hl Hn. destruct (packet_cases buf) as (q & o & Hq & _ & Hc).
  destruct (parse_v6_loop_returns (length buf) buf (byte_at buf 6) 40)
    as (p & ofs & Hloop & Hofs & Hs); [lia..|].
  rewrite <- loops_agree in Hloop. exists p, ofs. split; [done|].
  unfold decode. destruct (Nat.eqb_spec (length buf) 0); [lia|].
  rewrite (idx_byte_at buf 0), run_bind_Ret by lia. fold (ip_nibble buf).
  cbv zeta. cbn [set_version q_ip_version]. rewrite Hn. cbn [Z.eqb Pos.eqb].
  unfold decode6. destruct (Nat.ltb_spec (length buf) 40); [lia|]. run_steps.
  rewrite Hloop, run_bind_Ret. cbn [fst snd]. unfold parsed_of.
  destruct (Nat.ltb_spec ofs (length buf)).
  - run_steps. rewrite fill_transport_eq by done. cbv zeta.
    by rewrite run_bind_Ret, compute_dataofs_eq, run_bind_Ret.
  - rewrite (drop_ge buf ofs) by lia. by rewrite transport_fields_nil.
Qed.

(** ** Classification of a decoded packet *)

Lemma parsed_is_error buf v p s d ofs :
  is_error (parsed_of buf v p s d ofs) = Ret (is_icmp_error (info_of v p s d (drop ofs buf))).
Proof.
  unfold is_error, icmp_type_in, info_of.
  cbn [parsed_of q_ip_proto q_subofs q_buf is_icmp_error].
  rewrite length_drop, byte_at_drop, Nat.add_0_r.
  destruct (Nat.ltb_spec ofs (length buf)) as [Hlt|Hge].
  - rewrite idx_byte_at, run_bind_Ret by lia.
    replace (length buf - ofs =? 0)%nat with false by (symmetry; apply Nat.eqb_neq; lia).
    cbn [negb andb].
    destruct (Z.eqb_spec p ICMP_V4) as [->|]; [by rewrite orb_false_r|].
    by destruct (p =? ICMP_V6).
  - replace (length buf - ofs =? 0)%nat with true by (symmetry; apply Nat.eqb_eq; lia).
    by destruct (p =? ICMP_V4), (p =? ICMP_V6).
Qed.

Lemma icmp_type_code0_parsed buf v p s d ofs ty :
  icmp_type_code0 (parsed_of buf v p s d ofs) ty =
  Ret ((ofs + 8 <=? length buf)%nat && ((byte_at buf ofs =? ty) && (byte_at buf (ofs + 1) =? 0))).
Proof.
  unfold icmp_type_code0. cbn [parsed_of q_subofs q_buf].
  destruct (Nat.leb_spec (ofs + 8) (length buf)); [|done]. by run_steps.
Qed.

Lemma parsed_is_echo_response buf v p s d ofs :
  is_echo_response (parsed_of buf v p s d ofs) = Ret true ->
  is_icmp_echo_reply (info_of v p s d (drop ofs buf)) = true.
Proof.
  unfold is_echo_response, info_of. rewrite !icmp_type_code0_parsed.
  cbn [parsed_of q_ip_proto is_icmp_echo_reply].
  rewrite length_drop, byte_at_drop, Nat.add_0_r.
  destruct (Nat.leb_spec (ofs + 8) (length buf)) as [Hl|Hl]; cbn [andb];
    [|by destruct (p =? ICMP_V4), (p =? ICMP_V6)].
  replace (length buf - ofs =? 0)%nat with false by (symmetry; apply Nat.eqb_neq; lia).
  cbn [negb andb].
  destruct (Z.eqb_spec p ICMP_V4) as [->|].
  - intros [= H]. apply andb_true_iff in H as [-> _]. done.
  - destruct (p =? ICMP_V6); [|done].
    intros [= H]. apply andb_true_iff in H as [-> _]. done.
Qed.

Lemma payload_eq q :
  q_length q = length (q_buf q) -> payload q = Ret (drop (q_dataofs q) (q_buf q)).
Proof.
  intros H. unfold payload. rewrite H, Nat.ltb_irrefl. cbn [orb].
  destruct (Nat.ltb_spec (length (q_buf q)) (q_dataofs q)) as [Hlt|Hge];
    [by rewrite drop_ge by lia|].
  rewrite slice_ok by lia. f_equal. rewrite take_ge; [done|]. rewrite length_drop. lia.
Qed.

Lemma transport_eq q : transport q = Ret (drop (q_subofs q) (q_buf q)).
Proof.
  unfold transport. destruct (Nat.ltb_spec (length (q_buf q)) (q_subofs q)).
  - by rewrite drop_ge by lia.
  - by rewrite slice_from_ok.
Qed.

Lemma icmp_type_code0_returns q ty : returns (icmp_type_code0 q ty).
Proof.
  unfold icmp_type_code0. destruct (Nat.leb_spec (q_subofs q + 8) (length (q_buf q))).
  - run_steps. apply returns_Ret.
  - apply returns_Ret.
Qed.

Lemma icmp_type_in_returns q l : returns (icmp_type_in q l).
Proof.
  unfold icmp_type_in. destruct (Nat.ltb_spec (q_subofs q) (length (q_buf q))).
  - run_steps. apply returns_Ret.
  - apply returns_Ret.
Qed.

(** ** Properties *)

(** on every byte string both parsers return (no slice access is out of
    bounds and the extension-header loop terminates); they accept the same
    packets and agree on version, protocol, addresses, ports, TCP flags, the
    SYN test and the ICMP-error test, and an echo response of the rich view is
    an echo reply of the flat one.  A rejected buffer has protocol UNKNOWN. *)
Theorem decode_parse_agree (buf : list Z) :
  exists q o, decode buf = Ret q /\ parse_packet buf = Ret o /\
  match o with
  | None => q_ip_proto q = UNKNOWN
  | Some info =>
      q_ip_version q = version info /\ q_ip_proto q = proto info /\
      q_src q = src info /\ q_dst q = dst info /\
      q_src_port q = src_port info /\ q_dst_port q = dst_port info /\
      q_tcp_flags q = tcp_flags info /\ q_is_tcp_syn q = is_tcp_syn info /\
      is_error q = Ret (is_icmp_error info) /\
      (is_echo_response q = Ret true -> is_icmp_echo_reply info = true)
  end.
Proof.
  destruct (packet_cases buf) as (q & o & Hq & Ho & Hc).
  exists q, o. split_and!; [done..|].
  destruct Hc as [ | | |p t Hne Hv Hc Hp Ht| |p ofs Hne Hv Hl Hofs Hs]; try done;
    subst; split_and!; auto using parsed_is_error, parsed_is_echo_response.
Qed.

(** on every decoded buffer the slicing accessors and the ICMP tests
    return; [transport] is the buffer from the transport offset on and
    [payload] the buffer from the payload offset on.  For an accepted packet
    whose transport header starts inside the buffer, the payload offset is
    past the transport header by that protocol's header size. *)
Theorem decode_accessors_safe (buf : list Z) :
  exists q, decode buf = Ret q /\ q_buf q = buf /\
    transport q = Ret (drop (q_subofs q) buf) /\
    payload q = Ret (drop (q_dataofs q) buf) /\
    returns (is_echo_request q) /\ returns (is_echo_response q) /\ returns (is_error q) /\
    ((exists info, parse_packet buf = Ret (Some info)) -> (q_subofs q < length buf)%nat ->
     q_dataofs q = (q_subofs q + header_size (q_ip_proto q) (drop (q_subofs q) buf))%nat).
Proof.
  destruct (packet_cases buf) as (q & o & Hq & Ho & Hc). exists q.
  assert (q_buf q = buf /\ q_length q = length buf) as [Hb Hl] by by destruct Hc.
  split_and!; [done|done| | | | | |].
  - by rewrite transport_eq, Hb.
  - by rewrite payload_eq, Hb by congruence.
  - unfold is_echo_request. repeat case_match; auto using icmp_type_code0_returns, returns_Ret.
  - unfold is_echo_response. repeat case_match; auto using icmp_type_code0_returns, returns_Ret.
  - unfold is_error. repeat case_match; auto using icmp_type_in_returns, returns_Ret.
  - intros [info Hi] Hlt. rewrite Ho in Hi. injection Hi as ->. clear Hb Hl Hq Ho.
    inversion Hc; subst; cbn [parsed_of q_subofs q_dataofs q_ip_proto] in *;
      apply Nat.ltb_lt in Hlt; by rewrite Hlt.
Qed.

(** [payload] is documented to be empty for a truncated packet, but an
    IPv6 packet whose transport header lies at or beyond the end of the buffer
    (for one, a bare 40-byte header) keeps payload offset 0, and [payload]
    returns the whole packet, IP header included. *)
Theorem payload_of_truncated_ipv6 (buf : list Z) (q : Parsed) :
  decode buf = Ret q -> ip_nibble buf = 6 -> (40 <= length buf)%nat ->
  (length buf <= q_subofs q)%nat ->
  payload q = Ret buf /\ transport q = Ret [].
Proof.
  intros Hq Hv Hl Hs. destruct (packet_cases buf) as (q' & o & Hq' & _ & Hc).
  assert (q' = q) as -> by congruence.
  assert (q_buf q = buf /\ q_length q = length buf) as [Hb Hlen] by by destruct Hc.
  rewrite payload_eq, transport_eq, Hb by congruence.
  rewrite (drop_ge buf (q_subofs q)) by lia. split; [|done].
  clear Hb Hlen Hq Hq'. destruct Hc as [-> | | | | | ]; try (simpl in Hl; lia); try congruence.
  cbn [parsed_of q_subofs q_dataofs] in *. apply Nat.ltb_ge in Hs. by rewrite Hs.
Qed.

Lemma payload_of_truncated_ipv6_witness :
  let buf := 0x60 :: replicate 5 0 ++ [59] ++ replicate 33 0 in
  exists q, decode buf = Ret q /\ payload q = Ret buf /\ transport q = Ret [].
Proof.
  intros buf. exists (parsed_of buf 6 59 (v6_src buf) (v6_dst buf) 40).
  split; [vm_compute; reflexivity|].
  apply (payload_of_truncated_ipv6 buf); [vm_compute; reflexivity..|vm_compute; lia|vm_compute; lia].
Defined.

(** [ip4_header] returns exactly when the version nibble is 4 and the
    buffer has the 20 bytes of a fixed header; in particular a shorter buffer
    with version nibble 4 keeps [ip_version = 4], although it is unparseable,
    and the accessor panics on it. *)
Theorem ip4_header_returns_iff (buf : list Z) (q : Parsed) :
  decode buf = Ret q ->
  (returns (ip4_header q) <-> ip_nibble buf = 4 /\ (20 <= length buf)%nat) /\
  (buf <> [] -> ip_nibble buf = 4 -> q_ip_version q = 4).
Proof.
  intros Hq. destruct (packet_cases buf) as (q' & o & Hq' & _ & Hc).
  assert (q' = q) as -> by congruence.
  assert (q_buf q = buf) as Hb by by destruct Hc.
  assert (q_ip_version q = 4 <-> ip_nibble buf = 4 /\ buf <> []) as Hv.
  { clear Hb Hq Hq'. destruct Hc; simpl; (split; [intros He; try discriminate; auto|intros []; congruence]). }
  split; [|tauto]. split.
  - intros [h Hh]. unfold ip4_header in Hh. apply run_bind_inv in Hh as ([] & Ha & Hh).
    unfold assert_run in Ha. destruct (Z.eqb_spec (q_ip_version q) 4) as [E|]; [|done].
    split; [tauto|]. do 9 apply run_bind_inv in Hh as (? & _ & Hh). cbv beta in Hh.
    apply run_bind_inv in Hh as (d & Hd & _).
    destruct (decide (20 <= length buf)%nat) as [|Hn]; [done|].
    rewrite Hb in Hd. exfalso. by apply idx_range_bound in Hd; lia.
  - intros [Hn Hl]. unfold ip4_header. rewrite Hb.
    rewrite (proj2 Hv) by (split; [done|]; intros ->; simpl in Hl; lia).
    cbn [assert_run Z.eqb Pos.eqb]. rewrite run_bind_Ret. run_steps. apply returns_Ret.
Qed.

Lemma ip4_header_returns_iff_witness :
  exists q, decode [0x45; 0; 0] = Ret q /\ q_ip_version q = 4 /\ ip4_header q = Panic /\
    ((returns (ip4_header q) <-> ip_nibble [0x45; 0; 0] = 4 /\ (20 <= 3)%nat) /\
     ([0x45; 0; 0] <> [] -> ip_nibble [0x45; 0; 0] = 4 -> q_ip_version q = 4)).
Proof.
  exists (parsed_none [0x45; 0; 0] 4). split; [reflexivity|].
  split; [reflexivity|]. split; [reflexivity|].
  apply (ip4_header_returns_iff [0x45; 0; 0]). reflexivity.
Defined.

(** decoding the serialisation of any IPv4 header followed by its options
    and any payload recovers every header field, the addresses, the protocol
    and the transport offset. *)
Theorem ip4_decode_roundtrip (h : IPv4Header) (rest : list Z) :
  wf_ip4_header h -> (4 * Z.to_nat (h4_ihl h) - 20 <= length rest)%nat ->
  exists q, decode (ip4_bytes h ++ rest) = Ret q /\ ip4_header q = Ret h /\
    q_ip_proto q = h4_proto h /\ q_src q = V4 (h4_src h) /\ q_dst q = V4 (h4_dst h) /\
    q_subofs q = (4 * Z.to_nat (h4_ihl h))%nat.
Proof.
  intros Hwf Hrest. set (buf := ip4_bytes h ++ rest).
  destruct (ip4_bytes_fields h rest Hwf) as (Hn & Hi & Hlen & Hp & Hs & Hd).
  fold buf in Hn, Hi, Hlen, Hp, Hs, Hd.
  destruct (packet_cases buf) as (q & o & Hq & _ & Hc). exists q.
  pose proof Hwf as (_ & Hihl & _).
  assert (v4_complete buf) as Hcomp by (unfold v4_complete; rewrite Hi; lia).
  assert (q = parsed_of buf 4 (byte_at buf 9) (v4_src buf) (v4_dst buf) (ihl_of buf)) as ->.
  { clear Hq. destruct Hc as [He| | | | | ]; try congruence. rewrite He in Hlen. simpl in Hlen. lia. }
  split_and!; [done| | | | |]; cbn [parsed_of q_ip_proto q_src q_dst q_subofs].
  - by eapply ip4_header_read.
  - done.
  - unfold v4_src. by rewrite Hs.
  - unfold v4_dst. by rewrite Hd.
  - rewrite Hi. lia.
Qed.

Lemma ip4_decode_roundtrip_witness :
  let h := {| h4_version := 4; h4_ihl := 6; h4_tos := 0; h4_total_len := 1500; h4_id := 7;
              h4_flags_frag := 0x4000; h4_ttl := 64; h4_proto := TCP; h4_checksum := 0xbeef;
              h4_src := [100; 64; 0; 1]; h4_dst := [100; 64; 0; 2] |} in
  exists q, decode (ip4_bytes h ++ replicate 24 0) = Ret q /\ ip4_header q = Ret h /\
    q_ip_proto q = TCP /\ q_src q = V4 [100; 64; 0; 1] /\ q_dst q = V4 [100; 64; 0; 2] /\
    q_subofs q = 24%nat.
Proof.
  intros h. apply (ip4_decode_roundtrip h (replicate 24 0)).
  - repeat split; simpl; lia.
  - vm_compute. lia.
Defined.

(** decoding the serialisation of any IPv6 header followed by any bytes
    recovers every field of the fixed header and the addresses; when the next
    header is not an extension header it is the packet's protocol and the
    transport header starts right after the fixed header. *)
Theorem ip6_decode_roundtrip (h : IPv6Header) (rest : list Z) :
  wf_ip6_header h ->
  exists q, decode (ip6_bytes h ++ rest) = Ret q /\ ip6_header q = Ret h /\
    q_src q = V6 (h6_src h) /\ q_dst q = V6 (h6_dst h) /\
    (is_ext_header (h6_next_header h) = false -> h6_next_header h <> FRAGMENT ->
     q_ip_proto q = h6_next_header h /\ q_subofs q = 40%nat).
Proof.
  intros Hwf. set (buf := ip6_bytes h ++ rest).
  destruct (ip6_bytes_fields h rest Hwf) as (Hn & Hlen & Hp & Hs & Hd).
  fold buf in Hn, Hlen, Hp, Hs, Hd.
  destruct (decode_v6 buf) as (p & ofs & Hl & Hq); [lia|done|].
  exists (parsed_of buf 6 p (v6_src buf) (v6_dst buf) ofs).
  split_and!; [done| | | |]; cbn [parsed_of q_ip_proto q_src q_dst q_subofs].
  - by eapply ip6_header_read.
  - unfold v6_src. by rewrite Hs.
  - unfold v6_dst. by rewrite Hd.
  - intros He Hf. rewrite Hp, decode6_loop_stop in Hl by (done || lia). by injection Hl as <- <-.
Qed.

Lemma ip6_decode_roundtrip_witness :
  let h := {| h6_version := 6; h6_traffic_class := 0x12; h6_flow_label := 0xabcde;
              h6_payload_len := 8; h6_next_header := UDP; h6_hop_limit := 64;
              h6_src := 0xfd :: replicate 15 1; h6_dst := 0xfd :: replicate 15 2 |} in
  exists q, decode (ip6_bytes h ++ [0; 53; 0; 54; 0; 8; 0; 0]) = Ret q /\ ip6_header q = Ret h /\
    q_src q = V6 (0xfd :: replicate 15 1) /\ q_dst q = V6 (0xfd :: replicate 15 2) /\
    (is_ext_header UDP = false -> UDP <> FRAGMENT -> q_ip_proto q = UDP /\ q_subofs q = 40%nat).
Proof.
  intros h. apply (ip6_decode_roundtrip h [0; 53; 0; 54; 0; 8; 0; 0]).
  repeat split; simpl; lia.
Defined.
