(* ===== verification/Lpm.v ===== *)
(** * Longest-prefix match on bit strings

    The specification the routing table is proved against: a finite map from
    bit strings to values, and [lpm m u], the value of the longest key of [m]
    that is an initial segment of [u]. *)

From S2P Require Import Prelude.

Section lpm.
Context {A : Type}.
Implicit Types m : gmap (list bool) A.
Implicit Types u w z : list bool.

(** The first defined of two options. *)
Definition orelse (o1 o2 : option A) : option A :=
  match o1 with Some a => Some a | None => o2 end.

(** [lpm] on a reversed bit string. *)
Fixpoint lpm_rev m (ru : list bool) : option A :=
  orelse (m !! rev ru) (match ru with [] => None | _ :: ru' => lpm_rev m ru' end).

Definition lpm m u : option A := lpm_rev m (rev u).

(** The longest match among the keys that properly extend [u] and are initial
    segments of [u ++ z]. *)
Fixpoint lpm_below_rev m u (rz : list bool) : option A :=
  match rz with
  | [] => None
  | _ :: rz' => orelse (m !! (u ++ rev rz)) (lpm_below_rev m u rz')
  end.
Definition lpm_below m u z : option A := lpm_below_rev m u (rev z).

Lemma lpm_nil m : lpm m [] = m !! [].
Proof. unfold lpm. simpl. by destruct (m !! []). Qed.

Lemma lpm_snoc m u x : lpm m (u ++ [x]) = orelse (m !! (u ++ [x])) (lpm m u).
Proof. unfold lpm. rewrite rev_unit. simpl. by rewrite rev_involutive. Qed.

Lemma lpm_below_nil m u : lpm_below m u [] = None.
Proof. reflexivity. Qed.

Lemma lpm_below_snoc m u z x :
  lpm_below m u (z ++ [x]) = orelse (m !! (u ++ z ++ [x])) (lpm_below m u z).
Proof. unfold lpm_below. rewrite rev_unit. simpl. by rewrite rev_involutive. Qed.

Lemma orelse_assoc o1 o2 o3 : orelse (orelse o1 o2) o3 = orelse o1 (orelse o2 o3).
Proof. by destruct o1. Qed.

Lemma lpm_app m u z : lpm m (u ++ z) = orelse (lpm_below m u z) (lpm m u).
Proof.
  induction z as [|x z IH] using rev_ind; [by rewrite app_nil_r|].
  by rewrite app_assoc, lpm_snoc, IH, lpm_below_snoc, orelse_assoc, app_assoc.
Qed.

(** [lpm_below] only looks at keys properly extending [u]. *)
Lemma lpm_below_ext m1 m2 u z :
  (forall v, v `prefix_of` z -> v <> [] -> m1 !! (u ++ v) = m2 !! (u ++ v)) ->
  lpm_below m1 u z = lpm_below m2 u z.
Proof.
  induction z as [|x z IH] using rev_ind; intros H; [done|].
  rewrite !lpm_below_snoc, IH.
  - rewrite (H (z ++ [x])); [done|done|by destruct z].
  - intros v Hv. apply H. by apply prefix_app_r.
Qed.

Lemma lpm_ext m1 m2 u :
  (forall v, v `prefix_of` u -> m1 !! v = m2 !! v) -> lpm m1 u = lpm m2 u.
Proof.
  intros H. pose proof (lpm_app m1 [] u) as E1. pose proof (lpm_app m2 [] u) as E2.
  simpl in *. rewrite E1, E2, !lpm_nil, (H []) by apply prefix_nil. f_equal.
  apply lpm_below_ext. intros v Hv _. by apply H.
Qed.

Lemma lpm_Some m u a :
  lpm m u = Some a -> exists v, v `prefix_of` u /\ m !! v = Some a.
Proof.
  induction u as [|x u IH] using rev_ind.
  - rewrite lpm_nil. by exists [].
  - rewrite lpm_snoc. destruct (m !! (u ++ [x])) eqn:E; simpl.
    + intros [= ->]. by exists (u ++ [x]).
    + intros H. destruct (IH H) as (v & Hv & Hm). exists v. split; [by apply prefix_app_r|done].
Qed.

Lemma lpm_below_None m u z :
  lpm_below m u z = None <-> forall v, v `prefix_of` z -> v <> [] -> m !! (u ++ v) = None.
Proof.
  induction z as [|x z IH] using rev_ind.
  - split; [|done]. intros _ v Hv Hne. by apply prefix_nil_inv in Hv.
  - rewrite lpm_below_snoc. split.
    + destruct (m !! (u ++ z ++ [x])) eqn:E; simpl; [done|]. intros H v Hv Hne.
      destruct (decide (v = z ++ [x])) as [->|Hne']; [done|].
      apply IH; [done| |done]. by apply prefix_of_snoc in Hv as [].
    + intros H. rewrite (H (z ++ [x])); [|done|by destruct z]. simpl. apply IH.
      intros v Hv. apply H. by apply prefix_app_r.
Qed.

(** The characterisation: [lpm m u = Some a] exactly when some matching key
    with value [a] is at least as long as every other matching key. *)
Lemma lpm_spec m u a :
  lpm m u = Some a <->
  exists v, v `prefix_of` u /\ m !! v = Some a /\
    forall w b, w `prefix_of` u -> m !! w = Some b -> (length w <= length v)%nat.
Proof.
  split.
  - induction u as [|x u IH] using rev_ind.
    + rewrite lpm_nil. intros H. exists []. split_and!; [done..|].
      intros w b Hw _. by apply prefix_nil_inv in Hw as ->.
    + rewrite lpm_snoc. destruct (m !! (u ++ [x])) as [c|] eqn:E; simpl.
      * intros [= ->]. exists (u ++ [x]). split_and!; [done..|].
        intros w b Hw _. by apply prefix_length.
      * intros H. destruct (IH H) as (v & Hv & Hm & Hmax). exists v.
        split_and!; [by apply prefix_app_r|done|].
        intros w b [->|Hw]%prefix_of_snoc Hb; [congruence|eauto].
  - intros (v & [z ->] & Hm & Hmax). rewrite lpm_app.
    assert (lpm_below m v z = None) as ->.
    { apply lpm_below_None. intros w Hw Hne. destruct (m !! (v ++ w)) as [b|] eqn:E; [|done].
      specialize (Hmax (v ++ w) b (prefix_app v _ _ Hw) E).
      rewrite length_app in Hmax. destruct w; simpl in *; [done|lia]. }
    simpl. destruct v as [|x v _] using rev_ind; [by rewrite lpm_nil|].
    by rewrite lpm_snoc, Hm.
Qed.

Lemma lpm_None m u : lpm m u = None <-> forall v, v `prefix_of` u -> m !! v = None.
Proof.
  split.
  - intros H v Hv. destruct Hv as [z ->]. rewrite lpm_app in H.
    destruct (lpm_below m v z); [done|]. simpl in H.
    destruct v as [|x v _] using rev_ind; [by rewrite lpm_nil in H|].
    rewrite lpm_snoc in H. by destruct (m !! _).
  - intros H. destruct (lpm m u) eqn:E; [|done]. apply lpm_Some in E as (v & Hv & Hm).
    rewrite H in Hm; done.
Qed.

End lpm.
