(* ===== verification/ArtPrefix.v ===== *)
(** * Network prefixes of the routing table: [crates/art/src/lib.rs]

    [IpPrefix] and the free functions on prefixes the routing table uses.
    Lengths are [nat]: the constructor bounds them by 128 and no operation
    exceeds that, so the [u8] arithmetic of the code never wraps.  [pbits] is
    the bit string a prefix stands for; [masked], [contains] and [common_bits]
    are characterised by it. *)

From S2P Require Import Prelude Bytes Bits IpAddr.

Record IpPrefix : Type := { addr : IpAddr; bits : nat }.

#[global] Instance IpPrefix_eq_dec : EqDecision IpPrefix.
Proof. solve_decision. Defined.

#[global] Instance IpPrefix_countable : Countable IpPrefix.
Proof.
  refine (inj_countable' (fun p => (addr p, bits p))
    (fun x => {| addr := x.1; bits := x.2 |}) _).
  by intros [].
Defined.

(** [bit_len]. *)
Definition bit_len (a : IpAddr) : nat := if is_ipv6 a then 128%nat else 32%nat.

(** [IpPrefix::new]. *)
Definition new (a : IpAddr) (n : nat) : option IpPrefix :=
  if (n <=? bit_len a)%nat then Some {| addr := a; bits := n |} else None.

(** [IpPrefix::octets]: sixteen octets, an IPv4 address in the first four. *)
Definition octets16 (p : IpPrefix) : list Z :=
  match addr p with
  | V4 o => o ++ replicate 12 0
  | V6 o => o
  end.

(** [IpPrefix::from_octets]. *)
Definition from_octets (o : list Z) (v6 : bool) (n : nat) : IpPrefix :=
  {| addr := if v6 then V6 o else V4 (take 4 o); bits := n |}.

(** [octets[i..j].fill(0)]. *)
Definition fill0 (o : list Z) (i j : nat) : list Z :=
  take i o ++ replicate (j - i) 0 ++ drop j o.

(** [u8::MAX << n]. *)
Definition mask_shl (n : nat) : Z := Z.land (Z.shiftl 255 (Z.of_nat n)) 255.

(** [IpPrefix::masked]. *)
Definition masked (p : IpPrefix) : IpPrefix :=
  let o := octets16 p in
  let byte_len := (bit_len (addr p) / 8)%nat in
  let full_bytes := (bits p / 8)%nat in
  let partial_bits := (bits p mod 8)%nat in
  let o :=
    if (full_bytes <? byte_len)%nat then
      if negb (partial_bits =? 0)%nat then
        fill0 (<[full_bytes := Z.land (byte_at o full_bytes) (mask_shl (8 - partial_bits))]> o)
          (full_bytes + 1) byte_len
      else fill0 o full_bytes byte_len
    else o in
  from_octets o (is_ipv6 (addr p)) (bits p).

(** [u8::leading_zeros]. *)
Definition leading_zeros8 (d : Z) : nat := if d =? 0 then 8%nat else (7 - Z.to_nat (Z.log2 d))%nat.

(** The loop of [common_bits]. *)
Fixpoint common_bits_loop (a b : list Z) (n : nat) (shared : nat) {struct n} : nat :=
  match n, a, b with
  | S n', x :: a', y :: b' =>
      let different := Z.lxor x y in
      if different =? 0 then common_bits_loop a' b' n' (shared + 8)
      else (shared + leading_zeros8 different)%nat
  | _, _, _ => shared
  end.

(** [common_bits]. *)
Definition common_bits (a b : IpPrefix) (max_bits : nat) : nat :=
  let len := ((max_bits + 7) / 8)%nat in
  Nat.min (common_bits_loop (octets16 a) (octets16 b) len 0) max_bits.

(** [IpPrefix::contains]. *)
Definition contains (p : IpPrefix) (a : IpAddr) : bool :=
  if negb (Bool.eqb (is_ipv6 (addr p)) (is_ipv6 a)) then false
  else
    let candidate := {| addr := a; bits := bit_len a |} in
    (common_bits (masked p) candidate (bits p) =? bits p)%nat.

(** [prefix_at_byte_boundary]. *)
Definition prefix_at_byte_boundary (p : IpPrefix) (n : nat) : IpPrefix :=
  masked (from_octets (octets16 (masked p)) (is_ipv6 (addr p)) n).

(** [prefix_strictly_contains]. *)
Definition prefix_strictly_contains (parent child : IpPrefix) : bool :=
  (bits parent <? bits child)%nat && contains parent (addr child).

(** [compute_prefix_split]. *)
Definition compute_prefix_split (a b : IpPrefix) : IpPrefix * Z * Z :=
  let a := masked a in
  let b := masked b in
  let min_bits := Nat.min (bits a) (bits b) in
  let shared := common_bits a b min_bits in
  let shared := if (shared =? min_bits)%nat then (shared - 1)%nat else shared in
  let common_strides := (shared / 8)%nat in
  (prefix_at_byte_boundary a (common_strides * 8),
   byte_at (octets16 a) common_strides, byte_at (octets16 b) common_strides).

(** [addr_byte_at]. *)
Definition addr_byte_at (a : IpAddr) (i : nat) : run Z := idx (octets a) i.

(** ** Well-formed prefixes and their bit strings *)

Definition wf_prefix (p : IpPrefix) : Prop := wf_ip (addr p) /\ (bits p <= bit_len (addr p))%nat.

#[global] Instance wf_prefix_dec p : Decision (wf_prefix p).
Proof. unfold wf_prefix. apply _. Defined.

(** The network part. *)
Definition pbits (p : IpPrefix) : list bool := take (bits p) (ip_bits (addr p)).

Lemma bit_len_addr_len a : bit_len a = (8 * addr_len a)%nat.
Proof. by destruct a. Qed.

Lemma length_pbits p : wf_prefix p -> length (pbits p) = bits p.
Proof.
  intros [Ha Hb]. unfold pbits. rewrite length_take, length_ip_bits by done.
  rewrite bit_len_addr_len in Hb. lia.
Qed.

Lemma length_octets16 p : wf_prefix p -> length (octets16 p) = 16%nat.
Proof.
  intros [[_ Hl] _]. unfold octets16, addr_len in *. destruct (addr p); simpl in *; [|done].
  rewrite length_app, Hl. done.
Qed.

Lemma wf_octets16 p : wf_prefix p -> wf_bytes (octets16 p).
Proof.
  intros [[Hw _] _]. unfold octets16. destruct (addr p); simpl in *; [|done].
  apply wf_bytes_app. split; [done|apply (wf_bytes_replicate0 12)].
Qed.

Lemma octets16_take p :
  wf_prefix p -> take (addr_len (addr p)) (octets16 p) = octets (addr p).
Proof.
  intros [[_ Hl] _]. unfold octets16, addr_len in *. destruct (addr p); simpl in *.
  - rewrite take_app_le, take_ge by lia. done.
  - by rewrite take_ge by lia.
Qed.

(** ** Masking octets masks bits *)

Lemma bits_of_replicate0 n : bits_of (replicate n 0) = replicate (8 * n) false.
Proof.
  induction n as [|n IH]; [done|]. rewrite Nat.mul_succ_r, Nat.add_comm, replicate_add.
  cbn [replicate bits_of]. by rewrite IH.
Qed.

Lemma bits_of_middle k l b :
  l !! k = Some b ->
  bits_of l = bits_of (take k l) ++ octet_bits b ++ bits_of (drop (S k) l).
Proof.
  intros H. rewrite <- (take_drop_middle l k b H) at 1. by rewrite bits_of_app.
Qed.

(** The octets [masked] computes, restricted to the address. *)
Lemma masked_octets (o : list Z) (n L : nat) :
  (L <= length o)%nat -> (n <= 8 * L)%nat ->
  let o' := if (n / 8 <? L)%nat then
      if negb (n mod 8 =? 0)%nat then
        fill0 (<[(n / 8)%nat := Z.land (byte_at o (n / 8)) (mask_shl (8 - n mod 8))]> o)
          (n / 8 + 1) L
      else fill0 o (n / 8) L
    else o in
  length o' = length o /\
  bits_of (take L o') = take n (bits_of (take L o)) ++ replicate (8 * L - n) false.
Proof.
  intros HL Hn. cbv zeta.
  pose proof (Nat.div_mod_eq n 8) as Hdm. pose proof (Nat.mod_upper_bound n 8 ltac:(lia)) as Hr.
  set (k := (n / 8)%nat) in *. set (r := (n mod 8)%nat) in *.
  destruct (Nat.ltb_spec k L) as [Hk|Hk].
  2:{ split; [done|]. rewrite (take_ge (bits_of (take L o))) by (rewrite length_bits_of, length_take; lia).
      replace (8 * L - n)%nat with 0%nat by lia. by rewrite app_nil_r. }
  destruct (lookup_lt_is_Some_2 o k ltac:(lia)) as [b Hb].
  assert (byte_at o k = b) as Hbk by (unfold byte_at; by apply nth_lookup_Some).
  rewrite (bits_of_middle k (take L o) b) by (by rewrite lookup_take_lt by lia).
  rewrite take_app_ge by (rewrite length_bits_of, !length_take; lia).
  rewrite take_take, Nat.min_l, length_bits_of, length_take by lia.
  replace (n - 8 * (k `min` length o))%nat with r by lia.
  rewrite take_app_le by (rewrite length_octet_bits; lia).
  destruct (Nat.eqb_spec r 0) as [E|E]; cbn [negb]; unfold fill0.
  - rewrite E, take_0, app_nil_r. split.
    + rewrite !length_app, length_take, length_replicate, length_drop. lia.
    + rewrite app_assoc, take_app_le, take_ge
        by (rewrite !length_app, length_take, length_replicate; lia).
      rewrite bits_of_app, bits_of_replicate0. do 2 f_equal. lia.
  - split.
    + rewrite !length_app, length_take, length_replicate, length_drop, length_insert. lia.
    + rewrite app_assoc, take_app_le, take_ge
        by (rewrite !length_app, length_take, length_replicate, length_insert; lia).
      rewrite Nat.add_1_r, (take_S_r _ _ (Z.land b (mask_shl (8 - r))))
        by (rewrite list_lookup_insert_eq by lia; by rewrite Hbk).
      rewrite take_insert_ge by lia.
      rewrite !bits_of_app, bits_of_replicate0. cbn [bits_of]. rewrite app_nil_r.
      unfold mask_shl. rewrite octet_bits_mask by lia.
      rewrite <- !app_assoc, <- replicate_add. do 3 f_equal. lia.
Qed.

Lemma masked_bits p : bits (masked p) = bits p.
Proof. reflexivity. Qed.

Lemma masked_family p : is_ipv6 (addr (masked p)) = is_ipv6 (addr p).
Proof. unfold masked, from_octets. cbn [addr]. by destruct (is_ipv6 (addr p)). Qed.

Lemma wf_fill0 o i j : wf_bytes o -> wf_bytes (fill0 o i j).
Proof. intros H. unfold fill0. rewrite !wf_bytes_app. auto with wf. Qed.

Lemma wf_insert o i x : wf_bytes o -> is_u8 x -> wf_bytes (<[i := x]> o).
Proof. intros. by apply Forall_insert. Qed.

Lemma masked_spec p :
  wf_prefix p ->
  wf_prefix (masked p) /\
  ip_bits (addr (masked p)) = pbits p ++ replicate (bit_len (addr p) - bits p) false.
Proof.
  intros Hwf. pose proof Hwf as [[Hwb Hlen] Hb].
  pose proof (length_octets16 p Hwf) as Hl16. pose proof (wf_octets16 p Hwf) as Hw16.
  pose proof (octets16_take p Hwf) as Ht.
  assert (bit_len (addr p) / 8 = addr_len (addr p))%nat as HL by (by destruct (addr p)).
  pose proof (bit_len_addr_len (addr p)) as Hbl.
  destruct (masked_octets (octets16 p) (bits p) (addr_len (addr p))) as [Hl Hbits].
  { rewrite Hl16. unfold addr_len. case_match; lia. } { lia. }
  unfold masked, wf_prefix, wf_ip, pbits, ip_bits. rewrite HL.
  match goal with |- context [from_octets ?x _ _] => set (o' := x) in * end.
  assert (wf_bytes o') as Hwo.
  { unfold o'. repeat case_match; auto using wf_fill0, wf_insert, land_u8, byte_at_u8. }
  rewrite Hl16 in Hl. rewrite Ht in Hbits.
  unfold from_octets. cbn [addr bits]. unfold addr_len, is_ipv6, bit_len in *.
  destruct (addr p) as [o|o]; cbn [is_ipv4 octets negb] in *.
  - split_and!; [by apply wf_bytes_take|rewrite length_take; lia|done|done].
  - split_and!; [done|done|done|]. rewrite take_ge in Hbits by lia. done.
Qed.

Lemma wf_masked p : wf_prefix p -> wf_prefix (masked p).
Proof. intros H. by apply masked_spec. Qed.
#[export] Hint Resolve wf_masked : wf.

Lemma pbits_masked p : wf_prefix p -> pbits (masked p) = pbits p.
Proof.
  intros H. destruct (masked_spec p H) as [_ E]. unfold pbits at 1.
  pose proof (length_pbits p H).
  rewrite E, masked_bits, take_app_le, take_ge by lia. done.
Qed.

Lemma is_ipv4_ipv6 a b : is_ipv6 a = is_ipv6 b <-> is_ipv4 a = is_ipv4 b.
Proof. by destruct a, b. Qed.

(** A masked prefix is determined by its family and its bit string. *)
Lemma masked_eq p q :
  wf_prefix p -> wf_prefix q ->
  is_ipv6 (addr p) = is_ipv6 (addr q) -> pbits p = pbits q -> masked p = masked q.
Proof.
  intros Hp Hq Hf He. destruct (masked_spec p Hp) as [Wp Ep]. destruct (masked_spec q Hq) as [Wq Eq].
  assert (bits p = bits q) as Hb by (rewrite <- (length_pbits p Hp), <- (length_pbits q Hq); congruence).
  assert (bit_len (addr p) = bit_len (addr q)) as Hbl by (unfold bit_len; by rewrite Hf).
  assert (addr (masked p) = addr (masked q)) as Ha.
  { apply ip_bits_inj; [by destruct Wp|by destruct Wq| |congruence].
    apply is_ipv4_ipv6. by rewrite !masked_family. }
  destruct (masked p) eqn:E1, (masked q) eqn:E2. simpl in Ha.
  pose proof (masked_bits p). pose proof (masked_bits q). rewrite E1, E2 in *. simpl in *. congruence.
Qed.

Lemma masked_idem p : wf_prefix p -> masked (masked p) = masked p.
Proof.
  intros H. apply masked_eq; auto with wf; [apply masked_family|by apply pbits_masked].
Qed.

(** ** Common bits *)

Lemma leading_zeros8_spec x y :
  is_u8 x -> is_u8 y -> Z.lxor x y <> 0 ->
  leading_zeros8 (Z.lxor x y) = lcp (octet_bits x) (octet_bits y) /\
  (lcp (octet_bits x) (octet_bits y) < 8)%nat.
Proof.
  intros Hx Hy. revert x Hx y Hy.
  assert (forall x, is_u8 x ->
    forallb (fun y => bool_decide (Z.lxor x y = 0) ||
      ((leading_zeros8 (Z.lxor x y) =? lcp (octet_bits x) (octet_bits y))%nat &&
       (lcp (octet_bits x) (octet_bits y) <? 8)%nat)) (seqZ 0 256) = true) as Hall.
  { apply (u8_forallb (fun x => forallb (fun y => _) (seqZ 0 256))). vm_compute. reflexivity. }
  intros x Hx y Hy Hne. specialize (u8_forallb _ (Hall x Hx) y Hy) as H. cbv beta in H.
  rewrite bool_decide_eq_false_2 in H by done. cbn [orb] in H.
  by rewrite andb_true_iff, Nat.eqb_eq, Nat.ltb_lt in H.
Qed.

Lemma lcp_refl u : lcp u u = length u.
Proof. induction u as [|[] u IH]; simpl; auto. Qed.

Lemma common_bits_loop_spec a b n shared :
  wf_bytes a -> wf_bytes b -> length a = length b -> (n <= length a)%nat ->
  common_bits_loop a b n shared =
  (shared + lcp (take (8 * n) (bits_of a)) (take (8 * n) (bits_of b)))%nat.
Proof.
  revert a b shared. induction n as [|n IH]; intros a b shared Ha Hb Hl Hn.
  { rewrite Nat.mul_0_r, !take_0. simpl. lia. }
  destruct a as [|x a], b as [|y b]; simpl in Hl, Hn; try lia.
  inversion_clear Ha; inversion_clear Hb.
  cbn [common_bits_loop]. rewrite !take_bits_of, !firstn_cons. cbn [bits_of].
  destruct (Z.eqb_spec (Z.lxor x y) 0) as [E|E].
  - apply Z.lxor_eq in E as ->. rewrite IH by (done || lia).
    rewrite lcp_app_same, length_octet_bits, !take_bits_of. lia.
  - destruct (leading_zeros8_spec x y) as [E1 E2]; [done..|].
    rewrite lcp_app_differ by (rewrite ?length_octet_bits; done || lia). by rewrite E1.
Qed.

Lemma lcp_take u v n m :
  (n <= m)%nat -> Nat.min (lcp (take m u) (take m v)) n = Nat.min (lcp u v) n.
Proof.
  revert v n m. induction u as [|a u IH]; intros [|b v] n m H; simpl; rewrite ?take_nil;
    try (destruct m; simpl; lia).
  destruct m as [|m]; simpl; [lia|]. destruct (Bool.eqb a b); [|done].
  destruct n as [|n]; [lia|]. simpl. f_equal. apply IH. lia.
Qed.

Lemma common_bits_spec a b n :
  wf_prefix a -> wf_prefix b -> is_ipv6 (addr a) = is_ipv6 (addr b) ->
  (n <= bit_len (addr a))%nat ->
  common_bits a b n = Nat.min (lcp (ip_bits (addr a)) (ip_bits (addr b))) n.
Proof.
  intros Ha Hb Hf Hn. unfold common_bits.
  pose proof (length_octets16 a Ha). pose proof (length_octets16 b Hb).
  assert (8 * ((n + 7) / 8) >= n)%nat as Hc.
  { pose proof (Nat.div_mod_eq (n + 7) 8). pose proof (Nat.mod_upper_bound (n + 7) 8). lia. }
  assert ((n + 7) / 8 <= addr_len (addr a))%nat as Hc2.
  { rewrite bit_len_addr_len in Hn. apply Nat.Div0.div_le_upper_bound in Hn as Hx.
    assert ((n + 7) / 8 < addr_len (addr a) + 1)%nat; [|lia].
    apply Nat.Div0.div_lt_upper_bound. lia. }
  assert (addr_len (addr a) <= 16)%nat by (unfold addr_len; case_match; lia).
  rewrite common_bits_loop_spec by (auto using wf_octets16; lia). rewrite Nat.add_0_l.
  set (k := ((n + 7) / 8)%nat) in *.
  assert (addr_len (addr a) = addr_len (addr b)) as HL.
  { apply is_ipv4_ipv6 in Hf. unfold addr_len. by rewrite Hf. }
  rewrite !take_bits_of.
  replace (take k (octets16 a)) with (take k (octets (addr a)))
    by (rewrite <- octets16_take by done; rewrite take_take; f_equal; lia).
  replace (take k (octets16 b)) with (take k (octets (addr b)))
    by (rewrite <- octets16_take by done; rewrite take_take; f_equal; lia).
  rewrite <- !take_bits_of. apply lcp_take. lia.
Qed.

(** [contains] is initial-segment equality of bit strings. *)
Lemma contains_spec p a :
  wf_prefix p -> wf_ip a ->
  contains p a = true <-> is_ipv6 (addr p) = is_ipv6 a /\ take (bits p) (ip_bits a) = pbits p.
Proof.
  intros Hp Ha. unfold contains. destruct (Bool.eqb (is_ipv6 (addr p)) (is_ipv6 a)) eqn:Ef; cbn [negb].
  2:{ apply Bool.eqb_false_iff in Ef. split; [done|intros []; contradiction]. }
  apply Bool.eqb_prop in Ef. destruct (masked_spec p Hp) as [Wm Em].
  pose proof Hp as [Hpa Hpb].
  assert (bit_len (addr p) = bit_len a) as Hbl by (unfold bit_len; by rewrite Ef).
  rewrite common_bits_spec; cbn [addr]; [|done|by split|by rewrite masked_family|].
  2:{ unfold bit_len. rewrite masked_family. exact Hpb. }
  rewrite Nat.eqb_eq. trans (bits p <= lcp (ip_bits (addr (masked p))) (ip_bits a))%nat; [lia|].
  rewrite <- take_eq_lcp.
  2:{ rewrite length_ip_bits by by destruct Wm. rewrite <- bit_len_addr_len.
      unfold bit_len. rewrite masked_family. exact Hpb. }
  2:{ rewrite length_ip_bits, <- bit_len_addr_len by done. lia. }
  change (take (bits p) (ip_bits (addr (masked p)))) with (pbits (masked p)).
  rewrite pbits_masked by done. split; [intros ->; auto|intros [_ ->]; done].
Qed.

(** ** Octets and sub-prefixes *)

Lemma from_octets_octets16 p n :
  wf_prefix p -> from_octets (octets16 p) (is_ipv6 (addr p)) n = {| addr := addr p; bits := n |}.
Proof.
  intros [[_ Hl] _]. unfold from_octets, octets16, addr_len in *. f_equal.
  destruct (addr p); cbn in *; [|done]. by rewrite take_app_le, take_ge by lia.
Qed.

Lemma octet_at p k :
  wf_prefix p -> (8 * k + 8 <= bit_len (addr p))%nat ->
  is_u8 (byte_at (octets16 p) k) /\
  octet_bits (byte_at (octets16 p) k) = take 8 (drop (8 * k) (ip_bits (addr p))).
Proof.
  intros Hp Hk. pose proof (length_octets16 p Hp) as Hl.
  pose proof (bit_len_addr_len (addr p)) as Hbl.
  assert (addr_len (addr p) <= 16)%nat by (unfold addr_len; case_match; lia).
  split; [apply byte_at_u8; by apply wf_octets16|].
  destruct (lookup_lt_is_Some_2 (octets16 p) k ltac:(lia)) as [x Hx].
  assert (byte_at (octets16 p) k = x) as -> by (unfold byte_at; by apply nth_lookup_Some).
  assert (octets (addr p) !! k = Some x) as Ho.
  { rewrite <- octets16_take by done. by rewrite lookup_take_lt by lia. }
  unfold ip_bits. rewrite drop_bits_of, (drop_S _ _ _ Ho). cbn [bits_of].
  by rewrite take_app_le, take_ge by (rewrite length_octet_bits; lia).
Qed.

Lemma idx_octets16 p k :
  wf_prefix p -> (k < 16)%nat -> idx (octets16 p) k = Ret (byte_at (octets16 p) k).
Proof. intros Hp Hk. apply idx_byte_at. by rewrite length_octets16. Qed.

(** The octet a prefix has after its first [8 * k] bits. *)
Lemma pbits_octet p k :
  wf_prefix p -> (8 * k + 8 <= bits p)%nat ->
  take (8 * k) (pbits p) ++ octet_bits (byte_at (octets16 p) k) = take (8 * k + 8) (pbits p).
Proof.
  intros Hp Hk. pose proof Hp as [_ Hb]. destruct (octet_at p k Hp ltac:(lia)) as [_ ->].
  unfold pbits. rewrite !take_take, !Nat.min_l by lia. by rewrite take_take_drop.
Qed.

(** The bits of a prefix within its last octet. *)
Lemma pbits_last p k :
  wf_prefix p -> (8 * k <= bits p <= 8 * k + 8)%nat -> (8 * k + 8 <= bit_len (addr p))%nat ->
  take (8 * k) (pbits p) ++ take (bits p - 8 * k) (octet_bits (byte_at (octets16 p) k)) = pbits p.
Proof.
  intros Hp Hk Hl. destruct (octet_at p k Hp Hl) as [_ ->].
  unfold pbits. rewrite !take_take, !Nat.min_l, take_take_drop by lia. f_equal. lia.
Qed.

Lemma prefix_at_byte_boundary_spec p n :
  wf_prefix p -> (n <= bits p)%nat ->
  let q := prefix_at_byte_boundary p n in
  wf_prefix q /\ is_ipv6 (addr q) = is_ipv6 (addr p) /\ masked q = q /\ bits q = n /\
  pbits q = take n (pbits p).
Proof.
  intros Hp Hn q. unfold q, prefix_at_byte_boundary. rewrite <- (masked_family p).
  rewrite from_octets_octets16 by auto with wf.
  set (r := {| addr := addr (masked p); bits := n |}).
  assert (wf_prefix r) as Hr.
  { destruct (wf_masked p Hp) as [Ha Hb]. split; [done|]. rewrite masked_bits in Hb. unfold r. cbn [addr bits]. lia. }
  split_and!; [auto with wf|exact (masked_family r)|by apply masked_idem|exact (masked_bits r)|].
  rewrite pbits_masked, <- (pbits_masked p) by done. unfold pbits, r. cbn [bits addr].
  rewrite take_take, masked_bits. f_equal. lia.
Qed.

Lemma take_prefix_of {A} (u v : list A) n :
  (length u = n)%nat -> take n v = u -> u `prefix_of` v.
Proof. intros _ <-. exists (drop n v). by rewrite take_drop. Qed.

Lemma prefix_of_take {A} (u v : list A) : u `prefix_of` v -> take (length u) v = u.
Proof. intros [k ->]. by rewrite take_app_le, take_ge by lia. Qed.

Lemma prefix_strictly_contains_spec a b :
  wf_prefix a -> wf_prefix b -> is_ipv6 (addr a) = is_ipv6 (addr b) ->
  prefix_strictly_contains a b = true <-> (bits a < bits b)%nat /\ pbits a `prefix_of` pbits b.
Proof.
  intros Ha Hb Hf. unfold prefix_strictly_contains.
  rewrite andb_true_iff, Nat.ltb_lt, contains_spec by (done || by destruct Hb).
  split; intros [Hlt H]; (split; [done|]).
  - destruct H as [_ H]. apply (take_prefix_of _ _ (bits a)); [by apply length_pbits|].
    unfold pbits at 1. rewrite take_take. rewrite <- H. f_equal. lia.
  - split; [done|]. apply prefix_of_take in H. rewrite length_pbits in H by done.
    rewrite <- H. unfold pbits. rewrite take_take. f_equal. lia.
Qed.

(** The number of bits after which [compute_prefix_split] branches. *)
Lemma split_shared a p k ka :
  wf_prefix a -> wf_prefix p -> is_ipv6 (addr a) = is_ipv6 (addr p) ->
  bits a = (8 * ka)%nat -> prefix_strictly_contains a p = false ->
  (8 * k <= bits a)%nat -> (8 * k < bits p)%nat ->
  take (8 * k) (pbits a) = take (8 * k) (pbits p) ->
  let m := Nat.min (bits a) (bits p) in
  let s := common_bits a p m in
  let s := if (s =? m)%nat then (s - 1)%nat else s in
  let l := lcp (ip_bits (addr a)) (ip_bits (addr p)) in
  (8 * k <= s)%nat /\ (s < bits a)%nat /\ (s < bits p)%nat /\ (s <= l)%nat /\
  (8 * (s / 8) + 8 < bits p -> l < 8 * (s / 8) + 8)%nat.
Proof.
  intros Ha Hp Hf Hka Hns Hk1 Hk2 Hw m s0 s l.
  pose proof Ha as [Haw Hal]. pose proof Hp as [Hpw Hpl].
  pose proof (length_ip_bits _ Haw) as Hla. pose proof (length_ip_bits _ Hpw) as Hlp.
  rewrite <- bit_len_addr_len in Hla, Hlp.
  assert (bit_len (addr a) = bit_len (addr p)) as Hbl by (unfold bit_len; by rewrite Hf).
  assert (s0 = Nat.min l m) as E0 by (unfold s0; rewrite common_bits_spec by (done || lia); done).
  assert (8 * k <= l)%nat as Hkl.
  { apply take_eq_lcp; [lia..|]. unfold pbits in Hw. by rewrite !take_take, !Nat.min_l in Hw by lia. }
  assert (bits a < bits p -> l < bits a)%nat as Hstrict.
  { intros Hlt. destruct (decide (l < bits a)%nat) as [|Hge]; [done|]. exfalso.
    assert (prefix_strictly_contains a p = true) as Ht; [|congruence].
    apply prefix_strictly_contains_spec; [done..|]. split; [done|].
    apply (take_prefix_of _ _ (bits a)); [by apply length_pbits|].
    unfold pbits. rewrite take_take, Nat.min_l by lia. symmetry. apply take_lcp. fold l. lia. }
  pose proof (Nat.div_mod_eq s 8) as Hdm. pose proof (Nat.mod_upper_bound s 8 ltac:(lia)) as Hmod.
  unfold s in *. destruct (Nat.eqb_spec s0 m) as [E|E]; lia.
Qed.

Lemma compute_prefix_split_spec a p k ka :
  wf_prefix a -> wf_prefix p -> is_ipv6 (addr a) = is_ipv6 (addr p) ->
  masked a = a -> masked p = p ->
  bits a = (8 * ka)%nat -> prefix_strictly_contains a p = false ->
  (8 * k <= bits a)%nat -> (8 * k < bits p)%nat ->
  take (8 * k) (pbits a) = take (8 * k) (pbits p) ->
  exists q x y cs, compute_prefix_split a p = (q, x, y) /\
    wf_prefix q /\ is_ipv6 (addr q) = is_ipv6 (addr p) /\ masked q = q /\ bits q = (8 * cs)%nat /\
    (k <= cs)%nat /\ (8 * cs + 8 <= bits a)%nat /\ (8 * cs < bits p)%nat /\
    is_u8 x /\ is_u8 y /\
    pbits q = take (8 * cs) (pbits a) /\ pbits q = take (8 * cs) (pbits p) /\
    (pbits q ++ octet_bits x) `prefix_of` pbits a /\
    (8 * cs + 8 < bits p -> x <> y /\ (pbits q ++ octet_bits y) `prefix_of` pbits p)%nat.
Proof.
  intros Ha Hp Hf Hma Hmp Hka Hns Hk1 Hk2 Hw.
  destruct (split_shared a p k ka Ha Hp Hf Hka Hns Hk1 Hk2 Hw) as (H1 & H2 & H3 & H4 & H5).
  pose proof Ha as [Haw Hal]. pose proof Hp as [Hpw Hpl].
  pose proof (length_ip_bits _ Haw) as Hla. pose proof (length_ip_bits _ Hpw) as Hlp.
  rewrite <- bit_len_addr_len in Hla, Hlp.
  unfold compute_prefix_split. rewrite Hma, Hmp. cbv zeta.
  match goal with |- context [(?s / 8)%nat] => set (sh := s) in *; set (cs := (sh / 8)%nat) in * end.
  pose proof (Nat.div_mod_eq sh 8) as Hdm. pose proof (Nat.mod_upper_bound sh 8 ltac:(lia)) as Hmod.
  fold cs in Hdm. rewrite (Nat.mul_comm cs 8).
  destruct (prefix_at_byte_boundary_spec a (8 * cs) Ha ltac:(lia)) as (Q1 & Q2 & Q3 & Q4 & Q5).
  destruct (octet_at a cs Ha ltac:(lia)) as [X1 X2].
  assert (take (8 * cs) (pbits a) = take (8 * cs) (pbits p)) as Et.
  { unfold pbits. rewrite !take_take, !Nat.min_l by lia. apply take_lcp. lia. }
  eexists _, _, _, cs. split; [reflexivity|].
  split_and!; try done; [congruence|lia..| | | |].
  - apply byte_at_u8. by apply wf_octets16.
  - congruence.
  - rewrite Q5, pbits_octet by (done || lia). apply prefix_take.
  - intros Hlong. rewrite Q5, Et, pbits_octet by (done || lia). split; [|apply prefix_take].
    intros Exy. specialize (H5 Hlong). 
    destruct (octet_at p cs Hp ltac:(lia)) as [Y1 Y2].
    assert (8 * cs + 8 <= lcp (ip_bits (addr a)) (ip_bits (addr p)))%nat; [|lia].
    apply take_eq_lcp; [lia..|]. rewrite <- !take_take_drop, <- X2, <- Y2, Exy. f_equal.
    apply take_lcp. lia.
Qed.
