(* ===== verification/Stride.v ===== *)
(** * The 8-bit stride table: [crates/art/src/stride_table.rs]

    A stride is a flattened binary tree of 512 entries: the node of a bit
    string [u] of at most eight bits is [node_index u], and each entry caches
    the route of the longest installed prefix above it, so that a lookup reads
    one host entry.  [rep e b] states that the entries [e] cache
    longest-prefix match in the map [b] of the routes installed in this
    stride; [allot] is proved to maintain it. *)

From S2P Require Import Prelude Bytes Bits IpAddr ArtPrefix Lpm.

Definition FIRST_HOST_INDEX : nat := 256.
Definition ENTRY_COUNT : nat := 512.
Definition CHILD_COUNT : nat := 256.

(** [RouteId] is an index into the table's value vector. *)
Abbreviation entries_t := (list (option nat)).

#[warnings="-register-all"]
Inductive StrideTable : Type := Stride {
  prefix : IpPrefix;
  entries : list (option nat);
  children : list (option StrideTable);
  route_refs : Z;
  child_refs : Z }.

(** [StrideTable::new]. *)
Definition stride_new (p : IpPrefix) : StrideTable :=
  {| prefix := p; entries := replicate ENTRY_COUNT None;
     children := replicate CHILD_COUNT None; route_refs := 0; child_refs := 0 |}.

(** [child_prefix_of]. *)
Definition child_prefix_of (parent : IpPrefix) (stride : Z) : run IpPrefix :=
  o ← idx_set (octets16 parent) (bits parent / 8) stride;
  Ret (from_octets o (is_ipv6 (addr parent)) (bits parent + 8)).

(** Writing back a child reached through a mutable borrow, and its prefix. *)
Definition put_child (t : StrideTable) (a : Z) (c : option StrideTable) : run StrideTable :=
  cs ← idx_set (children t) (Z.to_nat a) c;
  Ret {| prefix := prefix t; entries := entries t; children := cs;
         route_refs := route_refs t; child_refs := child_refs t |}.
Definition with_prefix (t : StrideTable) (p : IpPrefix) : StrideTable :=
  {| prefix := p; entries := entries t; children := children t;
     route_refs := route_refs t; child_refs := child_refs t |}.
Definition with_child_refs (t : StrideTable) (n : Z) : StrideTable :=
  {| prefix := prefix t; entries := entries t; children := children t;
     route_refs := route_refs t; child_refs := n |}.

(** [StrideTable::get_or_create_child]: the updated table, the child and
    whether it was created. *)
Definition get_or_create_child (t : StrideTable) (a : Z)
  : run (StrideTable * StrideTable * bool) :=
  o ← idx (children t) (Z.to_nat a);
  match o with
  | None =>
      cp ← child_prefix_of (prefix t) a;
      let c := stride_new cp in
      t ← put_child t a (Some c);
      Ret (with_child_refs t (wrap16 (child_refs t + 1)), c, true)
  | Some c => Ret (t, c, false)
  end.

(** [StrideTable::set_child]. *)
Definition set_child (t : StrideTable) (a : Z) (c : StrideTable) : run StrideTable :=
  o ← idx (children t) (Z.to_nat a);
  let t := match o with
           | None => with_child_refs t (wrap16 (child_refs t + 1))
           | Some _ => t
           end in
  put_child t a (Some c).

(** [StrideTable::delete_child]. *)
Definition delete_child (t : StrideTable) (a : Z) : run StrideTable :=
  o ← idx (children t) (Z.to_nat a);
  t ← put_child t a None;
  Ret (match o with
       | Some _ => with_child_refs t (wrap16 (child_refs t - 1))
       | None => t
       end).

(** [StrideTable::take_first_child]: the caller drops the table it takes the
    child from. *)
Fixpoint first_child (cs : list (option StrideTable)) : option StrideTable :=
  match cs with
  | [] => None
  | Some c :: _ => Some c
  | None :: cs' => first_child cs'
  end.
Definition take_first_child (t : StrideTable) : run StrideTable :=
  expect (first_child (children t)).

(** [prefix_index]. *)
Definition prefix_index (a : Z) (prefix_len : nat) : nat :=
  (Z.to_nat (Z.shiftr a (Z.of_nat (8 - prefix_len))) + 2 ^ prefix_len)%nat.
(** [host_index]. *)
Definition host_index (a : Z) : nat := (Z.to_nat a + FIRST_HOST_INDEX)%nat.
(** [parent_index]. *)
Definition parent_index (i : nat) : option nat := if (i =? 1)%nat then None else Some (i / 2)%nat.

(** [StrideTable::has_prefix_rooted_at]. *)
Definition has_prefix_rooted_at (e : entries_t) (i : nat) : run bool :=
  v ← idx e i;
  match v with
  | None => Ret false
  | Some v =>
      match parent_index i with
      | None => Ret true
      | Some parent => p ← idx e parent; Ret (bool_decide (p <> Some v))
      end
  end.

(** [StrideTable::allot].  The recursion goes down a tree of nine levels. *)
Fixpoint allot (fuel : nat) (e : entries_t) (i : nat) (old new : option nat) : run entries_t :=
  match fuel with
  | O => Panic
  | S fuel =>
      x ← idx e i;
      if bool_decide (x <> old) then Ret e
      else
        e ← idx_set e i new;
        if (FIRST_HOST_INDEX <=? i)%nat then Ret e
        else
          e ← allot fuel e (i * 2) old new;
          allot fuel e (i * 2 + 1) old new
  end.
Definition ALLOT_FUEL : nat := 9.
Arguments ALLOT_FUEL : simpl never.
Arguments ENTRY_COUNT : simpl never.
Arguments CHILD_COUNT : simpl never.

Definition with_entries (t : StrideTable) (e : entries_t) (refs : Z) : StrideTable :=
  {| prefix := prefix t; entries := e; children := children t;
     route_refs := refs; child_refs := child_refs t |}.

(** [StrideTable::insert]. *)
Definition stride_insert (t : StrideTable) (a : Z) (prefix_len : nat) (route : nat)
  : run (StrideTable * option nat) :=
  let i := prefix_index a prefix_len in
  r ← has_prefix_rooted_at (entries t) i;
  old ← idx (entries t) i;
  let previous := if r : bool then old else None in
  let refs := match previous with
              | None => wrap16 (route_refs t + 1)
              | Some _ => route_refs t
              end in
  e ← allot ALLOT_FUEL (entries t) i old (Some route);
  Ret (with_entries t e refs, previous).

(** [StrideTable::delete]. *)
Definition stride_delete (t : StrideTable) (a : Z) (prefix_len : nat)
  : run (StrideTable * option nat) :=
  let i := prefix_index a prefix_len in
  r ← has_prefix_rooted_at (entries t) i;
  if negb r then Ret (t, None)
  else
    o ← idx (entries t) i;
    old ← expect o;
    parent ← match parent_index i with
             | None => Ret None
             | Some p => idx (entries t) p
             end;
    e ← allot ALLOT_FUEL (entries t) i (Some old) parent;
    Ret (with_entries t e (wrap16 (route_refs t - 1)), Some old).

(** [StrideTable::get_val_and_child]. *)
Definition get_val_and_child (t : StrideTable) (a : Z)
  : run (option nat * option StrideTable) :=
  v ← idx (entries t) (host_index a);
  c ← idx (children t) (Z.to_nat a);
  Ret (v, c).

(** [StrideTable::num_strides]. *)
Fixpoint num_strides (t : StrideTable) : nat :=
  S (list_sum (map (fun o => match o with Some c => num_strides c | None => 0%nat end) (children t))).

(** ** Tree indices *)

(** The index of the node of a bit string. *)
Definition node_index (u : list bool) : nat := Z.to_nat (bits_val (true :: u)).

Lemma bits_val_true u : bits_val (true :: u) = 2 ^ Z.of_nat (length u) + bits_val u.
Proof. simpl. lia. Qed.

Lemma node_index_nil : node_index [] = 1%nat.
Proof. reflexivity. Qed.

Lemma node_index_snoc u x :
  node_index (u ++ [x]) = (node_index u * 2 + if x then 1 else 0)%nat.
Proof.
  unfold node_index. rewrite app_comm_cons, bits_val_app.
  pose proof (bits_val_bound (true :: u)). simpl length in *. simpl bits_val in *.
  destruct x; simpl Z.b2z; simpl; lia.
Qed.

Lemma node_index_bound u :
  (length u <= 8)%nat -> (1 <= node_index u < 512)%nat.
Proof.
  intros H. unfold node_index. rewrite bits_val_true. pose proof (bits_val_bound u) as Hb.
  pose proof (pow2_pos (length u)).
  assert (2 ^ Z.of_nat (length u) <= 2 ^ 8) by (apply Z.pow_le_mono_r; lia).
  simpl (2 ^ 8) in *. lia.
Qed.

Lemma node_index_host u : length u = 8%nat -> (256 <= node_index u)%nat.
Proof.
  intros H. unfold node_index. rewrite bits_val_true, H. pose proof (bits_val_bound u). simpl. lia.
Qed.

Lemma node_index_inner u : (length u < 8)%nat -> (node_index u < 256)%nat.
Proof.
  intros H. unfold node_index. rewrite bits_val_true. pose proof (bits_val_bound u) as Hb.
  assert (2 ^ Z.of_nat (length u) <= 2 ^ 7) by (apply Z.pow_le_mono_r; lia).
  simpl (2 ^ 7) in *. lia.
Qed.

Lemma bits_val_true_inj u v : bits_val (true :: u) = bits_val (true :: v) -> u = v.
Proof.
  intros H. rewrite !bits_val_true in H.
  pose proof (bits_val_bound u). pose proof (bits_val_bound v).
  assert (length u = length v) as Hl.
  { destruct (lt_eq_lt_dec (length u) (length v)) as [[Hlt|He]|Hgt]; [|done|].
    - assert (2 ^ Z.of_nat (S (length u)) <= 2 ^ Z.of_nat (length v))
        by (apply Z.pow_le_mono_r; lia). rewrite pow2_succ in *. lia.
    - assert (2 ^ Z.of_nat (S (length v)) <= 2 ^ Z.of_nat (length u))
        by (apply Z.pow_le_mono_r; lia). rewrite pow2_succ in *. lia. }
  apply bits_val_inj; [done|]. rewrite Hl in H. lia.
Qed.

Lemma node_index_inj u v : node_index u = node_index v -> u = v.
Proof.
  intros H. apply bits_val_true_inj. unfold node_index in H.
  pose proof (bits_val_bound (true :: u)). pose proof (bits_val_bound (true :: v)). lia.
Qed.

Lemma prefix_index_node a n :
  is_u8 a -> (n <= 8)%nat -> prefix_index a n = node_index (take n (octet_bits a)).
Proof.
  intros Ha Hn. unfold prefix_index, node_index. rewrite bits_val_true.
  rewrite length_take, length_octet_bits, Nat.min_l, bits_val_take, octet_bits_val by done.
  rewrite length_octet_bits, Z.shiftr_div_pow2 by lia.
  pose proof (pow2_pos (8 - n)). unfold is_u8 in Ha.
  assert (0 <= a / 2 ^ Z.of_nat (8 - n)) by (apply Z.div_pos; lia). pose proof (pow2_pos n).
  rewrite Z2Nat.inj_add by lia.
  replace (Z.to_nat (2 ^ Z.of_nat n)) with (2 ^ n)%nat; [lia|].
  apply Nat2Z.inj. rewrite Z2Nat.id, Nat2Z.inj_pow by lia. done.
Qed.

Lemma host_index_node a : is_u8 a -> host_index a = node_index (octet_bits a).
Proof.
  intros Ha. pose proof (prefix_index_node a 8 Ha ltac:(lia)) as H.
  rewrite take_ge in H by done. rewrite <- H. unfold prefix_index, host_index.
  rewrite Z.shiftr_0_r. done.
Qed.

Lemma parent_index_nil : parent_index (node_index []) = None.
Proof. reflexivity. Qed.

Lemma parent_index_snoc u x :
  (length u < 8)%nat -> parent_index (node_index (u ++ [x])) = Some (node_index u).
Proof.
  intros H. rewrite node_index_snoc. pose proof (node_index_bound u ltac:(lia)).
  unfold parent_index. destruct (Nat.eqb_spec (node_index u * 2 + (if x then 1 else 0)) 1); [lia|].
  f_equal. symmetry. apply (Nat.div_unique _ _ _ (if x then 1 else 0)); destruct x; lia.
Qed.

(** ** Entries indexed by bit strings *)

Definition ent (e : entries_t) (u : list bool) : option nat := default None (e !! node_index u).

Lemma idx_ent e u :
  length e = 512%nat -> (length u <= 8)%nat -> idx e (node_index u) = Ret (ent e u).
Proof.
  intros Hl Hu. pose proof (node_index_bound u Hu).
  destruct (lookup_lt_is_Some_2 e (node_index u) ltac:(lia)) as [x Hx].
  unfold idx, ent. by rewrite Hx.
Qed.

Lemma ent_insert e u w x :
  length e = 512%nat -> (length u <= 8)%nat ->
  ent (<[node_index u := x]> e) w = if decide (w = u) then x else ent e w.
Proof.
  intros Hl Hu. pose proof (node_index_bound u Hu). unfold ent. case_decide as E.
  - subst w. by rewrite list_lookup_insert_eq by lia.
  - rewrite list_lookup_insert_ne; [done|]. intros H'. apply E. symmetry. by apply node_index_inj.
Qed.

Lemma idx_set_ent (e : entries_t) u x :
  length e = 512%nat -> (length u <= 8)%nat ->
  idx_set e (node_index u) x = Ret (<[node_index u := x]> e).
Proof.
  intros Hl Hu. pose proof (node_index_bound u Hu). unfold idx_set.
  by rewrite decide_True by lia.
Qed.

(** ** What [allot] computes *)

(** Every node from [u] down to [w] holds [old]. *)
Definition all_old (e : entries_t) (old : option nat) (u w : list bool) : Prop :=
  u `prefix_of` w /\ forall v, u `prefix_of` v -> v `prefix_of` w -> ent e v = old.

(** [e'] is [e] with every node reachable from [u] through nodes holding
    [old] set to [new]. *)
Definition allotted (e e' : entries_t) (u : list bool) (old new : option nat) : Prop :=
  length e' = 512%nat /\
  forall w, (length w <= 8)%nat ->
    (all_old e old u w -> ent e' w = new) /\ (~ all_old e old u w -> ent e' w = ent e w).

Lemma prefix_of_antisym_len {A} (u w : list A) :
  u `prefix_of` w -> (length w <= length u)%nat -> u = w.
Proof.
  intros [k ->] H. rewrite length_app in H. destruct k; simpl in H; [|lia].
  by rewrite app_nil_r.
Qed.

Lemma prefix_of_children (u w : list bool) :
  u `prefix_of` w -> w = u \/ u ++ [false] `prefix_of` w \/ u ++ [true] `prefix_of` w.
Proof.
  intros [[|[] k] ->]; [left; by rewrite app_nil_r|right; right|right; left];
    exists k; by rewrite <- app_assoc.
Qed.

Lemma prefix_snoc_disjoint (u w : list bool) x y :
  u ++ [x] `prefix_of` w -> u ++ [y] `prefix_of` w -> x = y.
Proof.
  intros [k ->] [l E]. rewrite <- !app_assoc in E. apply app_inv_head in E. by simplify_eq/=.
Qed.

Lemma all_old_step e old u w x :
  ent e u = old -> u ++ [x] `prefix_of` w ->
  all_old e old u w <-> all_old e old (u ++ [x]) w.
Proof.
  intros Hu Hx. split; intros [H1 H2].
  - split; [done|]. intros v Hv Hw. apply H2; [|done].
    etrans; [|exact Hv]. by apply prefix_app_r.
  - split; [etrans; [|exact Hx]; by apply prefix_app_r|].
    intros v Hv Hw. destruct (prefix_of_children u v Hv) as [->|[Hc|Hc]]; [done| |];
      apply H2; try done.
    + assert (false = x) as <-; [|done].
      eapply (prefix_snoc_disjoint u w); [|done]. by etrans.
    + assert (true = x) as <-; [|done].
      eapply (prefix_snoc_disjoint u w); [|done]. by etrans.
Qed.

Lemma all_old_ext e1 e2 old u w :
  (forall v, u `prefix_of` v -> v `prefix_of` w -> ent e1 v = ent e2 v) ->
  all_old e1 old u w <-> all_old e2 old u w.
Proof.
  intros H. split; intros [H1 H2]; (split; [done|]); intros v Hv Hw.
  - rewrite <- H by done. auto.
  - rewrite H by done. auto.
Qed.

(** Combining the three steps of [allot] at an inner node. *)
Lemma allot_combine (e e1 e2 e3 : entries_t) u old new w :
  ent e u = old -> ent e1 u = new -> (forall v, v <> u -> ent e1 v = ent e v) ->
  (forall w, (length w <= 8)%nat ->
    (all_old e1 old (u ++ [false]) w -> ent e2 w = new) /\
    (~ all_old e1 old (u ++ [false]) w -> ent e2 w = ent e1 w)) ->
  (forall w, (length w <= 8)%nat ->
    (all_old e2 old (u ++ [true]) w -> ent e3 w = new) /\
    (~ all_old e2 old (u ++ [true]) w -> ent e3 w = ent e2 w)) ->
  all_old e old u u -> (length w <= 8)%nat ->
  (all_old e old u w -> ent e3 w = new) /\ (~ all_old e old u w -> ent e3 w = ent e w).
Proof.
  intros Hold Hnew Hne Hs2 Hs3 Huu Hw.
  assert (forall x v, u ++ [x] `prefix_of` v -> v <> u) as Hlong.
  { intros x v Hv ->. apply prefix_length in Hv. rewrite length_app in Hv. simpl in Hv. lia. }
  assert (forall x v, u ++ [x] `prefix_of` v -> ~ u ++ [negb x] `prefix_of` v) as Hdis.
  { intros x v Hv Hv'. pose proof (prefix_snoc_disjoint _ _ _ _ Hv Hv'). by destruct x. }
  destruct (Hs2 w Hw) as [Hs2a Hs2b]. destruct (Hs3 w Hw) as [Hs3a Hs3b].
  destruct (decide (u ++ [false] `prefix_of` w)) as [H0|H0];
    [|destruct (decide (u ++ [true] `prefix_of` w)) as [H1|H1]].
  - assert (~ all_old e2 old (u ++ [true]) w) as Hn by (intros [Hp _]; by apply (Hdis false w)).
    rewrite (Hs3b Hn), (all_old_step e old u w false Hold H0).
    rewrite (all_old_ext e e1 old (u ++ [false]) w) by (intros; symmetry; eauto).
    rewrite <- (Hne w) by eauto. done.
  - assert (forall v, u ++ [true] `prefix_of` v -> (length v <= 8)%nat -> ent e2 v = ent e v) as He2.
    { intros v Hv Hl. rewrite (proj2 (Hs2 v Hl)) by (intros [Hp _]; by apply (Hdis true v)). eauto. }
    rewrite (all_old_step e old u w true Hold H1).
    rewrite (all_old_ext e e2 old (u ++ [true]) w).
    + rewrite <- (He2 w) by done. done.
    + intros v Hv Hvw. symmetry. apply He2; [done|]. apply prefix_length in Hvw. lia.
  - assert (ent e3 w = ent e1 w) as ->.
    { rewrite Hs3b by (by intros []). by rewrite Hs2b by (by intros []). }
    destruct (decide (w = u)) as [->|Hwu]; [done|]. split; [|auto].
    intros [Hp _]. exfalso. destruct (prefix_of_children u w Hp) as [|[|]]; auto.
Qed.

Lemma allot_spec fuel e u old new :
  length e = 512%nat -> (length u <= 8)%nat -> (9 - length u <= fuel)%nat ->
  exists e', allot fuel e (node_index u) old new = Ret e' /\ allotted e e' u old new.
Proof.
  revert e u. induction fuel as [|fuel IH]; intros e u He Hu Hf; [lia|].
  cbn [allot]. rewrite idx_ent, run_bind_Ret by done.
  destruct (decide (ent e u = old)) as [Hold|Hold].
  2:{ rewrite bool_decide_eq_true_2 by done. exists e. split; [done|]. split; [done|].
      intros w Hw. split; [|done]. intros [Hp Ha]. exfalso. apply Hold. by apply Ha. }
  rewrite bool_decide_eq_false_2 by tauto.
  rewrite idx_set_ent, run_bind_Ret by done. set (e1 := <[node_index u := new]> e).
  assert (length e1 = 512%nat) as He1 by (unfold e1; by rewrite length_insert).
  assert (forall v, v <> u -> ent e1 v = ent e v) as Hne.
  { intros v Hv. unfold e1. rewrite ent_insert by done. by case_decide. }
  assert (ent e1 u = new) as Heq.
  { unfold e1. rewrite ent_insert by done. by case_decide. }
  assert (all_old e old u u) as Huu.
  { split; [done|]. intros v Hv Hw. rewrite <- (prefix_of_antisym_len u v); [done|done|].
    by apply prefix_length. }
  destruct (decide (length u = 8%nat)) as [H8|H8].
  { pose proof (node_index_host u H8). destruct (Nat.leb_spec FIRST_HOST_INDEX (node_index u));
      [|unfold FIRST_HOST_INDEX in *; lia].
    exists e1. split; [done|]. split; [done|]. intros w Hw. destruct (decide (w = u)) as [->|Hwu].
    - done.
    - split; [|auto]. intros [Hp _]. exfalso. apply Hwu. symmetry.
      apply prefix_of_antisym_len; [done|lia]. }
  pose proof (node_index_inner u ltac:(lia)).
  destruct (Nat.leb_spec FIRST_HOST_INDEX (node_index u)); [unfold FIRST_HOST_INDEX in *; lia|].
  pose proof (node_index_snoc u false) as E0. pose proof (node_index_snoc u true) as E1.
  rewrite Nat.add_0_r in E0. rewrite <- E1, <- E0.
  destruct (IH e1 (u ++ [false])) as (e2 & -> & He2 & Hs2);
    [done|rewrite length_app; simpl; lia..|].
  rewrite run_bind_Ret.
  destruct (IH e2 (u ++ [true])) as (e3 & -> & He3 & Hs3);
    [done|rewrite length_app; simpl; lia..|].
  exists e3. split; [done|]. split; [done|]. intros w Hw.
  apply (allot_combine e e1 e2 e3 u old new w); auto.
Qed.

Arguments allot : simpl never.

(** ** The representation invariant *)

Section rep.
Implicit Types b : gmap (list bool) nat.

(** Distinct prefixes have distinct routes. *)
Definition injective b : Prop :=
  forall u v r, b !! u = Some r -> b !! v = Some r -> u = v.

(** The entries [e] cache longest-prefix match in [b]. *)
Record rep (e : entries_t) b : Prop := {
  rep_length : length e = 512%nat;
  rep_keys : forall u r, b !! u = Some r -> (length u <= 8)%nat;
  rep_inj : injective b;
  rep_ent : forall u, (length u <= 8)%nat -> ent e u = lpm b u }.

Lemma rep_empty : rep (replicate ENTRY_COUNT None) ∅.
Proof.
  split; [done|done|done|]. intros u Hu. pose proof (node_index_bound u Hu).
  unfold ent. rewrite lookup_replicate_2 by (unfold ENTRY_COUNT; lia). simpl.
  symmetry. apply lpm_None. intros v _. apply lookup_empty.
Qed.

(** A node strictly below [u] with its own route does not hold what [u] holds. *)
Lemma all_old_iff e b u z :
  rep e b -> (length (u ++ z) <= 8)%nat ->
  all_old e (lpm b u) u (u ++ z) <-> lpm_below b u z = None.
Proof.
  intros Hr Hl. rewrite length_app in Hl. split.
  - intros [_ Ha]. apply lpm_below_None. intros v Hv Hne.
    destruct (b !! (u ++ v)) as [r|] eqn:E; [|done]. exfalso.
    assert (ent e (u ++ v) = lpm b u) as He.
    { apply Ha; [by apply prefix_app_r|by apply prefix_app]. }
    pose proof (prefix_length _ _ Hv).
    rewrite (rep_ent e b Hr) in He by (rewrite length_app; lia).
    assert (lpm b (u ++ v) = Some r) as Hlpm.
    { destruct v as [|x v _] using rev_ind; [done|]. rewrite app_assoc in *. by rewrite lpm_snoc, E. }
    rewrite Hlpm in He. symmetry in He. apply lpm_Some in He as (w & Hw & Hb).
    pose proof (rep_inj e b Hr _ _ _ Hb E) as ->. apply prefix_length in Hw.
    rewrite length_app in Hw. destruct v; simpl in *; [done|lia].
  - intros Hn. split; [by apply prefix_app_r|]. intros v [y ->] Hv.
    apply prefix_app_inv in Hv. pose proof (prefix_length _ _ Hv).
    rewrite (rep_ent e b Hr) by (rewrite length_app; lia). rewrite lpm_app.
    assert (lpm_below b u y = None) as ->; [|done].
    rewrite lpm_below_None in *. intros k Hk Hne. apply Hn; [by etrans|done].
Qed.

(** Re-allotting [u] after its own route changed from [b] to [b']. *)
Lemma allot_rep e b b' u :
  rep e b -> (length u <= 8)%nat -> injective b' ->
  (forall v, v <> u -> b' !! v = b !! v) ->
  exists e', allot ALLOT_FUEL e (node_index u) (ent e u) (lpm b' u) = Ret e' /\ rep e' b'.
Proof.
  intros Hr Hu Hinj Hb'.
  destruct (allot_spec ALLOT_FUEL e u (ent e u) (lpm b' u)) as (e' & He' & Hlen & Hs);
    [by destruct Hr|done|unfold ALLOT_FUEL; lia|].
  exists e'. split; [done|]. split; [done| |done|].
  - intros v r Hv. destruct (decide (v = u)) as [->|Hne]; [done|].
    rewrite Hb' in Hv by done. by eapply rep_keys.
  - intros w Hw. destruct (Hs w Hw) as [Hs1 Hs2]. rewrite (rep_ent e b Hr u Hu) in Hs1, Hs2.
    destruct (decide (u `prefix_of` w)) as [[z ->]|Hnp].
    + pose proof (all_old_iff e b u z Hr Hw) as Hiff.
      assert (lpm_below b' u z = lpm_below b u z) as Hbel.
      { apply lpm_below_ext. intros v _ Hne. apply Hb'. intros E.
        apply (f_equal length) in E. rewrite length_app in E. destruct v; simpl in E; [done|lia]. }
      rewrite lpm_app, Hbel. destruct (lpm_below b u z) eqn:E; simpl.
      * rewrite Hs2 by (rewrite Hiff; done). by rewrite (rep_ent e b Hr), lpm_app, E.
      * rewrite Hs1 by (by rewrite Hiff). done.
    + rewrite Hs2 by (by intros []). rewrite (rep_ent e b Hr) by done.
      apply lpm_ext. intros v Hv. rewrite Hb'; [done|]. by intros ->.
Qed.

Lemma rooted_spec e b u :
  rep e b -> (length u <= 8)%nat ->
  has_prefix_rooted_at e (node_index u) = Ret (bool_decide (is_Some (b !! u))).
Proof.
  intros Hr Hu. pose proof (rep_length e b Hr) as Hl.
  unfold has_prefix_rooted_at. rewrite idx_ent, run_bind_Ret, (rep_ent e b Hr) by done.
  destruct u as [|x u _] using rev_ind.
  - rewrite lpm_nil, parent_index_nil. by destruct (b !! []).
  - rewrite length_app in Hu. simpl in Hu.
    rewrite lpm_snoc, parent_index_snoc by lia. destruct (b !! (u ++ [x])) as [r|] eqn:E; simpl.
    + rewrite idx_ent, run_bind_Ret, (rep_ent e b Hr) by (done || lia). f_equal.
      apply bool_decide_eq_true_2. intros He.
      apply lpm_Some in He as (w & Hw & Hb).
      pose proof (rep_inj e b Hr _ _ _ Hb E) as ->. apply prefix_length in Hw.
      rewrite length_app in Hw. simpl in Hw. lia.
    + destruct (lpm b u) eqn:E2; simpl.
      * rewrite idx_ent, run_bind_Ret, (rep_ent e b Hr), E2 by (done || lia). f_equal.
        apply bool_decide_eq_false_2. tauto.
      * done.
Qed.

End rep.

(** ** Insertion and deletion in one stride *)

Lemma lpm_insert_eq {A} (b : gmap (list bool) A) u r : lpm (<[u := r]> b) u = Some r.
Proof.
  destruct u as [|x u _] using rev_ind.
  - by rewrite lpm_nil, lookup_insert_eq.
  - by rewrite lpm_snoc, lookup_insert_eq.
Qed.

Lemma stride_insert_spec t b a n route :
  rep (entries t) b -> is_u8 a -> (n <= 8)%nat ->
  (forall v, b !! v <> Some route) ->
  let u := take n (octet_bits a) in
  exists e, stride_insert t a n route =
    Ret (with_entries t e (match b !! u with
                           | None => wrap16 (route_refs t + 1)
                           | Some _ => route_refs t
                           end), b !! u) /\
    rep e (<[u := route]> b).
Proof.
  intros Hr Ha Hn Hfresh u. pose proof (rep_length _ _ Hr) as Hl.
  assert (length u <= 8)%nat as Hu by (unfold u; rewrite length_take, length_octet_bits; lia).
  unfold stride_insert. rewrite prefix_index_node by done. fold u.
  rewrite (rooted_spec _ b) by done. rewrite run_bind_Ret, idx_ent, run_bind_Ret by done.
  destruct (allot_rep (entries t) b (<[u := route]> b) u) as (e & He & Hr').
  { done. } { done. }
  { intros v w r. rewrite !lookup_insert_Some. intros [[<- <-]|[Hv Hbv]] [[<- E]|[Hw Hbw]];
      subst; try done; [by destruct (Hfresh w)|by destruct (Hfresh v)|by eapply (rep_inj _ _ Hr)]. }
  { intros v Hv. by rewrite lookup_insert_ne by done. }
  rewrite lpm_insert_eq in He. rewrite He, run_bind_Ret. exists e. split; [|done].
  destruct (b !! u) as [r|] eqn:E.
  - rewrite bool_decide_eq_true_2 by done. rewrite (rep_ent _ b Hr) by done.
    assert (lpm b u = Some r) as ->; [|done].
    clear -E. destruct u as [|x u _] using rev_ind; [by rewrite lpm_nil|by rewrite lpm_snoc, E].
  - rewrite bool_decide_eq_false_2; [done|]. by intros [].
Qed.

Lemma lpm_key {A} (b : gmap (list bool) A) u r : b !! u = Some r -> lpm b u = Some r.
Proof.
  intros E. destruct u as [|x u _] using rev_ind; [by rewrite lpm_nil|by rewrite lpm_snoc, E].
Qed.

Lemma stride_delete_spec t b a n :
  rep (entries t) b -> is_u8 a -> (n <= 8)%nat ->
  let u := take n (octet_bits a) in
  match b !! u with
  | None => stride_delete t a n = Ret (t, None)
  | Some r => exists e, stride_delete t a n =
                Ret (with_entries t e (wrap16 (route_refs t - 1)), Some r) /\
                rep e (delete u b)
  end.
Proof.
  intros Hr Ha Hn u. pose proof (rep_length _ _ Hr) as Hl.
  assert (length u <= 8)%nat as Hu by (unfold u; rewrite length_take, length_octet_bits; lia).
  unfold stride_delete. rewrite prefix_index_node by done. fold u.
  rewrite (rooted_spec _ b), run_bind_Ret by done.
  destruct (b !! u) as [r|] eqn:E.
  2:{ rewrite bool_decide_eq_false_2; [done|]. by intros []. }
  rewrite bool_decide_eq_true_2 by done. cbn [negb].
  rewrite idx_ent, run_bind_Ret by done.
  destruct (allot_rep (entries t) b (delete u b) u) as (e & He & Hr'); [done..| | |].
  { intros v w r'. rewrite !lookup_delete_Some. intros [_ ?] [_ ?]. by eapply (rep_inj _ _ Hr). }
  { intros v Hv. by rewrite lookup_delete_ne by done. }
  rewrite (rep_ent _ b Hr), (lpm_key b u r) in He by done.
  rewrite (rep_ent _ b Hr), (lpm_key b u r) by done. cbn [expect]. rewrite run_bind_Ret.
  assert (match parent_index (node_index u) with
          | Some p => idx (entries t) p | None => Ret None end = Ret (lpm (delete u b) u)) as ->.
  { clear He Hr' E. destruct u as [|x u' _] using rev_ind.
    - rewrite parent_index_nil, lpm_nil, lookup_delete_eq. done.
    - rewrite length_app in Hu. simpl in Hu.
      rewrite parent_index_snoc, idx_ent, (rep_ent _ b Hr) by (done || lia).
      rewrite lpm_snoc, lookup_delete_eq. simpl. f_equal. apply lpm_ext. intros v Hv.
      rewrite lookup_delete_ne; [done|]. intros <-. apply prefix_length in Hv.
      rewrite length_app in Hv. simpl in Hv. lia. }
  rewrite run_bind_Ret, He, run_bind_Ret. eauto.
Qed.
