(* ===== verification/PrefixTable.v ===== *)
(** * What a longest-prefix-match table promises

    The interface between the routing table ([crates/art]) and the code that
    builds address sets with it ([crates/ipset]): a table abstracts to a finite
    map from masked prefixes to values, insertion and deletion are the map
    operations, and a lookup returns the value of the longest prefix that
    contains the address. *)

From S2P Require Import Prelude IpAddr ArtPrefix.

(** The value [o] is that of a longest prefix of [m] containing [a]. *)
Definition longest_match {V} (m : gmap IpPrefix V) (a : IpAddr) (o : option V) : Prop :=
  match o with
  | Some v => exists p, m !! p = Some v /\ contains p a = true /\
                forall p' v', m !! p' = Some v' -> contains p' a = true -> (bits p' <= bits p)%nat
  | None => forall p v, m !! p = Some v -> contains p a = false
  end.

Class PrefixTable (V T : Type) : Type := {
  pt_new : T;
  pt_insert : T -> IpPrefix -> V -> run (T * option V);
  pt_delete : T -> IpPrefix -> run (T * option V);
  pt_get : T -> IpAddr -> run (option V);
  pt_ok : T -> Prop;
  pt_abs : T -> gmap IpPrefix V;
  pt_new_ok : pt_ok pt_new /\ pt_abs pt_new = ∅;
  pt_insert_ok t p v : pt_ok t -> wf_prefix p ->
    exists t', pt_insert t p v = Ret (t', pt_abs t !! masked p) /\ pt_ok t' /\
      pt_abs t' = <[masked p := v]> (pt_abs t);
  pt_delete_ok t p : pt_ok t -> wf_prefix p ->
    exists t', pt_delete t p = Ret (t', pt_abs t !! masked p) /\ pt_ok t' /\
      pt_abs t' = delete (masked p) (pt_abs t);
  pt_get_ok t a : pt_ok t -> wf_ip a ->
    exists o, pt_get t a = Ret o /\ longest_match (pt_abs t) a o }.
