(* ===== verification/ArtTree.v ===== *)
(** * Trees of strides: [crates/art/src/lib.rs]

    The walks of [Table::insert_into], [Table::delete_from],
    [Table::clean_empty_strides] and [Table::get] over one path-compressed tree
    of strides, the invariant [wf_tree] of such trees and the set [has_route] of
    the routes a tree holds.  The walks return (never panic, never run out of
    fuel) on trees that satisfy the invariant, preserve it, and change
    [has_route] by exactly one route. *)

From S2P Require Import Prelude Bytes Bits IpAddr Lpm ArtPrefix Stride.

(** A tree has at most sixteen strides on a path: the prefix of each child is
    at least eight bits longer than its parent's and at most 120 bits long. *)
Definition STRIDE_FUEL : nat := 16.

(** ** Walking the strides *)

(** The loop of [Table::insert_into]. *)
Fixpoint insert_loop (fuel : nat) (p : IpPrefix) (final_byte final_bits : nat)
    (final_stride_prefix : IpPrefix) (route : nat)
    (byte_index bits_remaining : nat) (current : StrideTable)
  : run (StrideTable * option nat) :=
  match fuel with
  | O => Panic
  | S fuel =>
    if (bits_remaining <=? 8)%nat then
      fb ← idx (octets16 p) final_byte;
      stride_insert current fb final_bits route
    else
      a ← idx (octets16 p) byte_index;
      o ← idx (children current) (Z.to_nat a);
      match o with
      | None =>
          r ← get_or_create_child current a;
          _ ← assert_run r.2;
          let child := with_prefix r.1.2 final_stride_prefix in
          fb ← idx (octets16 p) final_byte;
          r' ← stride_insert child fb final_bits route;
          current ← put_child r.1.1 a (Some r'.1);
          Ret (current, r'.2)
      | Some child =>
          if negb (prefix_strictly_contains (prefix child) p) then
            let '(intermediate_prefix, existing_stride, new_stride) :=
              compute_prefix_split (prefix child) p in
            intermediate ← set_child (stride_new intermediate_prefix) existing_stride child;
            r ← (if (bits p - bits (prefix intermediate) <=? 8)%nat then
                   fb ← idx (octets16 p) final_byte;
                   stride_insert intermediate fb final_bits route
                 else
                   r ← get_or_create_child intermediate new_stride;
                   _ ← assert_run r.2;
                   let new_child := with_prefix r.1.2 final_stride_prefix in
                   fb ← idx (octets16 p) final_byte;
                   r' ← stride_insert new_child fb final_bits route;
                   intermediate ← put_child r.1.1 new_stride (Some r'.1);
                   Ret (intermediate, r'.2));
            current ← put_child current a (Some r.1);
            Ret (current, r.2)
          else
            r ← insert_loop fuel p final_byte final_bits final_stride_prefix route
                  (bits (prefix child) / 8) (bits p - bits (prefix child)) child;
            current ← put_child current a (Some r.1);
            Ret (current, r.2)
      end
  end.

(** [Table::insert_into]. *)
Definition insert_into (stride : StrideTable) (p : IpPrefix) (route : nat)
  : run (StrideTable * option nat) :=
  if (bits p =? 0)%nat then stride_insert stride 0 0 route
  else
    let final_byte := ((bits p - 1) / 8)%nat in
    let final_bits := (bits p - final_byte * 8)%nat in
    let final_stride_prefix := prefix_at_byte_boundary p (final_byte * 8) in
    insert_loop STRIDE_FUEL p final_byte final_bits final_stride_prefix route 0 (bits p) stride.

(** The loop of [Table::get]: the matches found on the way down, the last one
    first.  [matches] has room for sixteen. *)
Fixpoint get_loop (fuel : nat) (a : IpAddr) (byte_index : nat) (stride : StrideTable)
    (matches : list (IpPrefix * nat)) : run (list (IpPrefix * nat)) :=
  match fuel with
  | O => Panic
  | S fuel =>
      byte ← addr_byte_at a byte_index;
      r ← get_val_and_child stride byte;
      matches ← match r.1 with
                | Some route =>
                    if (length matches <? 16)%nat then Ret ((prefix stride, route) :: matches)
                    else Panic
                | None => Ret matches
                end;
      match r.2 with
      | None => Ret matches
      | Some child => get_loop fuel a (bits (prefix child) / 8) child matches
      end
  end.

(** The descent of [Table::delete_from]: the stride with the prefix removed,
    the octets of the path to it and the removed route; [None] leaves the tree
    as it was. *)
Fixpoint delete_loop (fuel : nat) (p : IpPrefix) (byte_index bits_remaining : nat)
    (current : StrideTable) : run (option (StrideTable * list Z * nat)) :=
  match fuel with
  | O => Panic
  | S fuel =>
    if (8 <? bits_remaining)%nat then
      a ← idx (octets16 p) byte_index;
      o ← idx (children current) (Z.to_nat a);
      match o with
      | None => Ret None
      | Some child =>
          if (bits p <? bits (prefix child))%nat then Ret None
          else
            r ← delete_loop fuel p (bits (prefix child) / 8) (bits p - bits (prefix child)) child;
            match r with
            | None => Ret None
            | Some (child, path, removed) =>
                current ← put_child current a (Some child);
                Ret (Some (current, a :: path, removed))
            end
      end
    else if negb (prefix_strictly_contains (prefix current) p) then Ret None
    else
      fb ← idx (octets16 p) byte_index;
      r ← stride_delete current fb bits_remaining;
      match r.2 with
      | None => Ret None
      | Some removed => Ret (Some (r.1, [], removed))
      end
  end.

(** [Table::clean_empty_strides]. *)
Fixpoint clean_empty_strides (stride : StrideTable) (path : list Z) : run StrideTable :=
  match path with
  | [] => Ret stride
  | a :: rest =>
      o ← idx (children stride) (Z.to_nat a);
      child ← expect o;
      child ← clean_empty_strides child rest;
      stride ← put_child stride a (Some child);
      if negb (route_refs child =? 0) || (1 <? child_refs child) then Ret stride
      else if child_refs child =? 0 then delete_child stride a
      else
        replacement ← take_first_child child;
        set_child stride a replacement
  end.

(** [Table::delete_from]. *)
Definition delete_from (stride : StrideTable) (p : IpPrefix) : run (StrideTable * option nat) :=
  if (bits p =? 0)%nat then stride_delete stride 0 0
  else
    r ← delete_loop STRIDE_FUEL p 0 (bits p) stride;
    match r with
    | None => Ret (stride, None)
    | Some (stride, path, removed) =>
        stride ← clean_empty_strides stride path;
        Ret (stride, Some removed)
    end.

(** ** The invariant of a tree *)

(** The number of occupied slots. *)
Fixpoint occupied {A} (cs : list (option A)) : nat :=
  match cs with
  | [] => 0
  | o :: cs' => (if is_some o then 1 else 0) + occupied cs'
  end.

Definition family_bits (v6 : bool) : nat := if v6 then 128%nat else 32%nat.

(** A prefix that can label a stride. *)
Definition stride_prefix (v6 : bool) (p : IpPrefix) : Prop :=
  wf_prefix p /\ is_ipv6 (addr p) = v6 /\ masked p = p /\
  (exists k, bits p = 8 * k)%nat /\ (bits p + 8 <= family_bits v6)%nat.

(** One stride holding the local routes [b]; only the root has a route for
    the empty bit string. *)
Record node_ok (v6 root : bool) (t : StrideTable) (b : gmap (list bool) nat) : Prop := {
  no_prefix : stride_prefix v6 (prefix t);
  no_rep : rep (entries t) b;
  no_routes : route_refs t = Z.of_nat (size b);
  no_root : root = false -> b !! [] = None;
  no_children : length (children t) = 256%nat;
  no_child_refs : child_refs t = Z.of_nat (occupied (children t)) }.

(** A child lies below its parent's prefix extended by the octet of its slot. *)
Definition child_below (p : IpPrefix) (a : nat) (c : StrideTable) : Prop :=
  (pbits p ++ octet_bits (Z.of_nat a)) `prefix_of` pbits (prefix c).

Inductive wf_tree (v6 : bool) : bool -> StrideTable -> Prop :=
| wf_tree_intro root t b :
    node_ok v6 root t b ->
    (forall a c, children t !! a = Some (Some c) -> child_below (prefix t) a c) ->
    (forall a c, children t !! a = Some (Some c) -> wf_tree v6 false c) ->
    wf_tree v6 root t.

(** A route installed in this stride, by the bits below the stride's prefix. *)
Definition local_route (t : StrideTable) (w : list bool) (r : nat) : Prop :=
  exists b, rep (entries t) b /\ b !! w = Some r.

(** A route installed somewhere in the tree, by its full bit string. *)
Inductive has_route : StrideTable -> list bool -> nat -> Prop :=
| route_here t w r : local_route t w r -> has_route t (pbits (prefix t) ++ w) r
| route_below t a c u r :
    children t !! a = Some (Some c) -> has_route c u r -> has_route t u r.

Definition opt_route (o : option StrideTable) (u : list bool) (r : nat) : Prop :=
  match o with Some c => has_route c u r | None => False end.

Lemma has_route_iff t u r :
  has_route t u r <->
  (exists w, u = pbits (prefix t) ++ w /\ local_route t w r) \/
  (exists a o, children t !! a = Some o /\ opt_route o u r).
Proof.
  split.
  - intros H. destruct H as [t w r Hl|t a c u r Hc H]; [eauto|]. right. by exists a, (Some c).
  - intros [(w & -> & Hl)|(a & [c|] & Hc & H)]; [by constructor|by eapply route_below|done].
Qed.

(** ** Local routes *)

Lemma rep_unique e b1 b2 : rep e b1 -> rep e b2 -> b1 = b2.
Proof.
  intros H1 H2. apply map_eq. intros u.
  destruct (decide (length u <= 8)%nat) as [Hu|Hu].
  - pose proof (rooted_spec e b1 u H1 Hu) as E1. pose proof (rooted_spec e b2 u H2 Hu) as E2.
    rewrite E1 in E2. injection E2 as E.
    pose proof (rep_ent _ _ H1 u Hu) as L1. pose proof (rep_ent _ _ H2 u Hu) as L2.
    destruct (b1 !! u) as [r1|] eqn:U1, (b2 !! u) as [r2|] eqn:U2.
    + rewrite (lpm_key _ _ _ U1) in L1. rewrite (lpm_key _ _ _ U2) in L2. congruence.
    + done.
    + done.
    + done.
  - destruct (b1 !! u) eqn:U1; [by apply (rep_keys _ _ H1) in U1|].
    destruct (b2 !! u) eqn:U2; [by apply (rep_keys _ _ H2) in U2|]. done.
Qed.

Lemma local_route_rep t b w r : rep (entries t) b -> local_route t w r <-> b !! w = Some r.
Proof.
  intros H. split; [|by exists b]. intros (b' & H' & Hw). by rewrite (rep_unique _ _ _ H H').
Qed.

Lemma rep_size e b : rep e b -> (size b < 512)%nat.
Proof.
  intros H. set (keys := (map_to_list b).*1).
  assert (NoDup (node_index <$> keys)) as Hnd.
  { apply NoDup_fmap_2; [exact node_index_inj|apply NoDup_fst_map_to_list]. }
  assert (length (node_index <$> keys) <= length (seq 1 511))%nat as Hle.
  { apply NoDup_incl_length; [by apply NoDup_ListNoDup|]. intros i Hi.
    apply list_elem_of_In, list_elem_of_fmap in Hi as (u & -> & Hu).
    apply list_elem_of_fmap in Hu as ([u' r] & -> & Hu). apply elem_of_map_to_list in Hu.
    pose proof (node_index_bound u' (rep_keys _ _ H _ _ Hu)). apply in_seq. simpl. lia. }
  unfold keys in Hle. rewrite !length_fmap, length_map_to_list, length_seq in Hle. lia.
Qed.

Lemma occupied_insert {A} (cs : list (option A)) a o x :
  cs !! a = Some o ->
  (occupied (<[a := x]> cs) + (if is_some o then 1 else 0) =
   occupied cs + (if is_some x then 1 else 0))%nat.
Proof.
  revert a. induction cs as [|y cs IH]; intros [|a] H; simpl in *; try done.
  - injection H as ->. lia.
  - specialize (IH a H). lia.
Qed.

Lemma occupied_le {A} (cs : list (option A)) : (occupied cs <= length cs)%nat.
Proof. induction cs as [|[] cs IH]; simpl; lia. Qed.

Lemma occupied_zero {A} (cs : list (option A)) a o :
  occupied cs = 0%nat -> cs !! a = Some o -> o = None.
Proof.
  revert a. induction cs as [|[c|] cs IH]; intros [|a] Hz H; simpl in *; simplify_eq; try done.
  by apply (IH a).
Qed.

(** ** Where the routes of a tree are *)

Lemma wf_tree_inv v6 root t :
  wf_tree v6 root t ->
  exists b, node_ok v6 root t b /\
    (forall a c, children t !! a = Some (Some c) -> child_below (prefix t) a c) /\
    (forall a c, children t !! a = Some (Some c) -> wf_tree v6 false c).
Proof. intros []. eauto. Qed.

Lemma wf_tree_prefix v6 root t : wf_tree v6 root t -> stride_prefix v6 (prefix t).
Proof. intros (b & Hn & _)%wf_tree_inv. apply Hn. Qed.

Lemma has_route_prefix v6 root t u r :
  wf_tree v6 root t -> has_route t u r ->
  pbits (prefix t) `prefix_of` u /\ (root = false -> bits (prefix t) < length u)%nat.
Proof.
  intros Hwf Hr. revert root Hwf. induction Hr as [t w r Hl|t a c u r Hc Hr IH]; intros root Hwf;
    destruct (wf_tree_inv _ _ _ Hwf) as (b & Hn & Hb & Ht).
  - split; [by apply prefix_app_r|]. intros ->.
    apply (local_route_rep t b w r) in Hl; [|by destruct Hn].
    rewrite length_app, length_pbits by apply Hn.
    destruct w; [|simpl; lia]. by rewrite (no_root _ _ _ _ Hn) in Hl.
  - destruct (IH false (Ht a c Hc)) as [Hp Hlt]. specialize (Hb a c Hc). unfold child_below in Hb.
    pose proof (prefix_length _ _ Hb) as Hl. rewrite length_app, length_octet_bits in Hl.
    rewrite length_pbits in Hl by apply Hn.
    rewrite length_pbits in Hl by apply (wf_tree_prefix _ _ _ (Ht a c Hc)). split.
    + etrans; [|exact Hp]. etrans; [|exact Hb]. by apply prefix_app_r.
    + intros _. specialize (Hlt eq_refl). lia.
Qed.

Lemma child_bits v6 root t a c :
  wf_tree v6 root t -> children t !! a = Some (Some c) ->
  wf_tree v6 false c /\ child_below (prefix t) a c /\ (a < 256)%nat /\
  (bits (prefix t) + 8 <= bits (prefix c))%nat.
Proof.
  intros (b & Hn & Hb & Ht)%wf_tree_inv Hc. split_and!; [eauto..| |].
  - apply lookup_lt_Some in Hc. rewrite (no_children _ _ _ _ Hn) in Hc. done.
  - specialize (Hb a c Hc). specialize (Ht a c Hc). apply prefix_length in Hb.
    rewrite length_app, length_octet_bits in Hb. rewrite length_pbits in Hb by apply Hn.
    rewrite length_pbits in Hb by apply (wf_tree_prefix _ _ _ Ht). lia.
Qed.

(** The routes below slot [a] start with the octet [a], and are longer. *)
Lemma route_in_child v6 root t a c u r :
  wf_tree v6 root t -> children t !! a = Some (Some c) -> has_route c u r ->
  (pbits (prefix t) ++ octet_bits (Z.of_nat a)) `prefix_of` u /\
  (bits (prefix t) + 8 < length u)%nat.
Proof.
  intros Hwf Hc Hr. destruct (child_bits _ _ _ _ _ Hwf Hc) as (Hcw & Hb & _ & Hlt).
  destruct (has_route_prefix _ _ _ _ _ Hcw Hr) as [Hp Hl]. specialize (Hl eq_refl).
  split; [by etrans|lia].
Qed.

Lemma local_route_length t w r : local_route t w r -> (length w <= 8)%nat.
Proof. intros (b & Hr & Hw). by apply (rep_keys _ _ Hr) in Hw. Qed.

Lemma octet_prefix_eq (P x : list bool) (a : nat) (byte : Z) :
  (a < 256)%nat -> is_u8 byte ->
  octet_bits byte = take 8 (drop (length P) x) ->
  (P ++ octet_bits (Z.of_nat a)) `prefix_of` x -> a = Z.to_nat byte.
Proof.
  intros Ha Hby Hx [k ->]. rewrite <- app_assoc in Hx.
  rewrite drop_app_ge, Nat.sub_diag, drop_0, take_app_le, take_ge in Hx
    by (rewrite ?length_octet_bits; lia).
  apply octet_bits_inj in Hx; [lia|done|unfold is_u8; lia].
Qed.

(** A route through the octet [a] is in the child of that slot. *)
Lemma child_on_path v6 root t a a' c u r :
  wf_tree v6 root t -> is_u8 a -> (pbits (prefix t) ++ octet_bits a) `prefix_of` u ->
  children t !! a' = Some (Some c) -> has_route c u r -> a' = Z.to_nat a.
Proof.
  intros Hwf Ha [z ->] Hc Hr. destruct (child_bits _ _ _ _ _ Hwf Hc) as (_ & _ & Hlt & _).
  destruct (route_in_child _ _ _ _ _ _ _ Hwf Hc Hr) as [Hpre _].
  eapply octet_prefix_eq; [done|done| |done].
  rewrite <- app_assoc, drop_app_ge, Nat.sub_diag, drop_0 by lia.
  by rewrite take_app_le, take_ge by (rewrite length_octet_bits; lia).
Qed.

(** ** Longest match in a tree *)

(** [o] is the route of the longest string of [R] that is an initial segment
    of [x]. *)
Definition best_route (R : list bool -> nat -> Prop) (x : list bool) (o : option nat) : Prop :=
  match o with
  | Some r => exists u, R u r /\ u `prefix_of` x /\
                forall u' r', R u' r' -> u' `prefix_of` x -> (length u' <= length u)%nat
  | None => forall u r, R u r -> ~ u `prefix_of` x
  end.

(** A stride's longest match is the one of the child at the address's octet,
    else the local one. *)
Lemma best_route_node v6 root t b x byte o oc :
  wf_tree v6 root t -> rep (entries t) b -> is_u8 byte ->
  octet_bits byte = take 8 (drop (bits (prefix t)) x) ->
  children t !! Z.to_nat byte = Some o ->
  best_route (opt_route o) x oc ->
  best_route (has_route t) x
    (orelse oc (if decide (pbits (prefix t) `prefix_of` x) then lpm b (octet_bits byte) else None)).
Proof.
  intros Hwf Hrep Hby Hx Ho Hbest.
  pose proof (length_pbits _ (proj1 (wf_tree_prefix _ _ _ Hwf))) as HP.
  set (P := pbits (prefix t)) in *. rewrite <- HP in Hx.
  assert (forall u r, has_route t u r -> u `prefix_of` x ->
    P `prefix_of` x /\
    ((exists w, u = P ++ w /\ b !! w = Some r /\ w `prefix_of` octet_bits byte) \/ opt_route o u r))
    as Hcase.
  { intros u r Hr Hu. split; [etrans; [apply (has_route_prefix _ _ _ _ _ Hwf Hr)|done]|].
    apply has_route_iff in Hr as [(w & -> & Hl)|(a & [c|] & Hc & Hr)]; [left|right|done].
    - pose proof (local_route_length _ _ _ Hl). exists w. split; [done|].
      split; [by apply (local_route_rep t b)|]. rewrite Hx. destruct Hu as [k ->].
      fold P. rewrite <- app_assoc, drop_app_ge, Nat.sub_diag, drop_0 by lia.
      rewrite take_app_ge by lia. by apply prefix_app_r.
    - destruct (route_in_child _ _ _ _ _ _ _ Hwf Hc Hr) as [Hpre _].
      destruct (child_bits _ _ _ _ _ Hwf Hc) as (_ & _ & Ha & _).
      assert (a = Z.to_nat byte) as -> by (eapply octet_prefix_eq; [done|done|exact Hx|by etrans]).
      by simplify_eq. }
  assert (forall u r, opt_route o u r -> has_route t u r /\ (length P + 8 < length u)%nat) as Hsub.
  { intros u r Hr. destruct o as [c|]; [|done]. split; [by eapply route_below|].
    rewrite HP. by eapply route_in_child. }
  destruct oc as [r|]; simpl in *.
  - destruct Hbest as (u & Hu & Hux & Hmax). destruct (Hsub u r Hu) as [Hur Hul].
    exists u. split_and!; [done..|]. intros u' r' Hr' Hux'.
    destruct (Hcase u' r' Hr' Hux') as [_ [(w & -> & _ & Hw)|Hr2]]; [|by eapply Hmax].
    apply prefix_length in Hw. rewrite length_octet_bits in Hw. rewrite length_app. lia.
  - case_decide as HPx.
    2:{ intros u r Hr Hu. by destruct (Hcase u r Hr Hu). }
    destruct (lpm b (octet_bits byte)) as [r|] eqn:E.
    + apply lpm_spec in E as (v & Hv & Hbv & Hmax). exists (P ++ v). split_and!.
      * constructor. by apply (local_route_rep t b).
      * destruct HPx as [k ->]. apply prefix_app. rewrite drop_app_ge, Nat.sub_diag, drop_0 in Hx by lia.
        etrans; [exact Hv|]. rewrite Hx. apply prefix_take.
      * intros u' r' Hr' Hux'. destruct (Hcase u' r' Hr' Hux') as [_ [(w & -> & Hbw & Hw)|Hr2]].
        -- rewrite !length_app. specialize (Hmax w r' Hw Hbw). lia.
        -- by destruct (Hbest _ _ Hr2).
    + intros u r Hr Hu. destruct (Hcase u r Hr Hu) as [_ [(w & -> & Hbw & Hw)|Hr2]].
      * rewrite lpm_None in E. by rewrite (E w Hw) in Hbw.
      * by destruct (Hbest _ _ Hr2).
Qed.

(** The route of the first match whose prefix contains the address. *)
Fixpoint find_route (a : IpAddr) (ms : list (IpPrefix * nat)) : option nat :=
  match ms with
  | [] => None
  | (p, r) :: ms' => if contains p a then Some r else find_route a ms'
  end.

Lemma find_route_app a ms1 ms2 :
  find_route a (ms1 ++ ms2) = orelse (find_route a ms1) (find_route a ms2).
Proof. induction ms1 as [|[p r] ms1 IH]; simpl; [done|]. by destruct (contains p a). Qed.

Lemma addr_octet a k :
  wf_ip a -> (8 * k + 8 <= bit_len a)%nat ->
  exists byte, addr_byte_at a k = Ret byte /\ is_u8 byte /\
    octet_bits byte = take 8 (drop (8 * k) (ip_bits a)).
Proof.
  intros Ha Hk. set (p := {| addr := a; bits := 0 |}).
  assert (wf_prefix p) as Hp by (split; [done|apply Nat.le_0_l]).
  destruct (octet_at p k Hp Hk) as [H1 H2]. exists (byte_at (octets16 p) k). split_and!; [|done..].
  pose proof (bit_len_addr_len a) as Hbl. destruct Ha as [_ Hl].
  unfold addr_byte_at. rewrite idx_byte_at by lia. f_equal. unfold byte_at.
  change a with (addr p) at 1. rewrite <- (octets16_take p Hp).
  change (addr p) with a. symmetry. rewrite !nth_lookup, lookup_take_lt by lia. done.
Qed.

Lemma contains_iff p a :
  wf_prefix p -> wf_ip a -> is_ipv6 (addr p) = is_ipv6 a ->
  contains p a = bool_decide (pbits p `prefix_of` ip_bits a).
Proof.
  intros Hp Ha Hf. apply Bool.eq_iff_eq_true. rewrite contains_spec, bool_decide_eq_true by done.
  split.
  - intros [_ H]. rewrite <- H. apply prefix_take.
  - intros H. split; [done|]. apply prefix_of_take in H. by rewrite length_pbits in H.
Qed.

Lemma idx_children v6 root t a :
  wf_tree v6 root t -> is_u8 a ->
  exists o, children t !! Z.to_nat a = Some o /\ idx (children t) (Z.to_nat a) = Ret o.
Proof.
  intros (b & Hn & _)%wf_tree_inv Ha. pose proof (no_children _ _ _ _ Hn).
  destruct (lookup_lt_is_Some_2 (children t) (Z.to_nat a)) as [o Ho]; [unfold is_u8 in Ha; lia|].
  exists o. unfold idx. by rewrite Ho.
Qed.

Lemma get_val_and_child_spec v6 root t a :
  wf_tree v6 root t -> is_u8 a ->
  exists b o, rep (entries t) b /\ children t !! Z.to_nat a = Some o /\
    get_val_and_child t a = Ret (lpm b (octet_bits a), o).
Proof.
  intros Hwf Ha. destruct (idx_children _ _ _ _ Hwf Ha) as (o & Ho & Ei).
  destruct (wf_tree_inv _ _ _ Hwf) as (b & Hn & _). pose proof (no_rep _ _ _ _ Hn) as Hr.
  exists b, o. split_and!; [done..|]. unfold get_val_and_child.
  rewrite host_index_node, idx_ent, run_bind_Ret by (done || by destruct Hr).
  by rewrite Ei, (rep_ent _ _ Hr).
Qed.

(** The walk of [Table::get] returns, and finds the longest match. *)
Lemma get_loop_spec v6 fuel a : forall root t acc,
  wf_tree v6 root t -> wf_ip a -> is_ipv6 a = v6 ->
  (family_bits v6 <= bits (prefix t) + 8 * fuel)%nat -> (8 * length acc <= bits (prefix t))%nat ->
  exists ms, get_loop fuel a (bits (prefix t) / 8) t acc = Ret (ms ++ acc) /\
    best_route (has_route t) (ip_bits a) (find_route a ms).
Proof.
  induction fuel as [|fuel IH]; intros root t acc Hwf Ha Hf Hfuel Hacc;
    destruct (wf_tree_prefix _ _ _ Hwf) as (Hp & Hpf & _ & [k Hk] & Hmax); [lia|].
  assert (bits (prefix t) / 8 = k)%nat as -> by (rewrite Hk, Nat.mul_comm; apply Nat.div_mul; lia).
  assert (bit_len a = family_bits v6) as Hbl by (unfold bit_len, family_bits; by rewrite Hf).
  destruct (addr_octet a k Ha ltac:(lia)) as (byte & E1 & Hby & Hbits).
  destruct (get_val_and_child_spec _ _ _ _ Hwf Hby) as (b & o & Hr & Ho & E2).
  cbn [get_loop]. rewrite E1, run_bind_Ret, E2, run_bind_Ret. cbn [fst snd].
  assert (family_bits v6 <= 128)%nat by (unfold family_bits; destruct v6; lia).
  set (here := match lpm b (octet_bits byte) with Some r => [(prefix t, r)] | None => [] end).
  assert (match lpm b (octet_bits byte) with
          | Some route => if (length acc <? 16)%nat then Ret ((prefix t, route) :: acc) else Panic
          | None => Ret acc end = Ret (here ++ acc)) as ->.
  { unfold here. destruct (lpm _ _); [|done]. destruct (Nat.ltb_spec (length acc) 16); [done|lia]. }
  rewrite run_bind_Ret.
  assert (length (here ++ acc) <= S (length acc))%nat as Hacc'.
  { rewrite length_app. unfold here. destruct (lpm _ _); simpl; lia. }
  rewrite <- Hk in Hbits.
  pose proof (best_route_node v6 root t b (ip_bits a) byte o) as Hnode.
  assert (find_route a here =
    if decide (pbits (prefix t) `prefix_of` ip_bits a) then lpm b (octet_bits byte) else None) as Ehere.
  { unfold here. destruct (lpm _ _); simpl; [|by case_decide].
    rewrite contains_iff by (done || congruence). by case_bool_decide; case_decide. }
  rewrite <- Ehere in Hnode. destruct o as [c|].
  - destruct (child_bits _ _ _ _ _ Hwf Ho) as (Hc & _ & _ & Hcb).
    destruct (IH false c (here ++ acc)) as (ms & -> & Hb); [done..|lia|lia|].
    exists (ms ++ here). split; [by rewrite app_assoc|]. rewrite find_route_app. by apply Hnode.
  - exists here. split; [done|]. apply (Hnode None); [done..|]. by intros u r [].
Qed.

(** ** Replacing a child *)

Definition upd_child (t : StrideTable) (i : nat) (o : option StrideTable) (refs : Z) : StrideTable :=
  {| prefix := prefix t; entries := entries t; children := <[i := o]> (children t);
     route_refs := route_refs t; child_refs := refs |}.

Lemma put_child_ok t a o old :
  children t !! Z.to_nat a = Some old ->
  put_child t a o = Ret (upd_child t (Z.to_nat a) o (child_refs t)).
Proof.
  intros H. apply lookup_lt_Some in H. unfold put_child, idx_set. by rewrite decide_True.
Qed.

Lemma wf_upd_child v6 root t i old o refs :
  wf_tree v6 root t -> children t !! i = Some old ->
  refs = Z.of_nat (occupied (<[i := o]> (children t))) ->
  (forall c, o = Some c -> child_below (prefix t) i c /\ wf_tree v6 false c) ->
  wf_tree v6 root (upd_child t i o refs).
Proof.
  intros Hwf Hi Hrefs Ho. destruct (wf_tree_inv _ _ _ Hwf) as (b & Hn & Hb & Ht).
  assert (forall a c, <[i := o]> (children t) !! a = Some (Some c) ->
            (a = i /\ o = Some c) \/ children t !! a = Some (Some c)) as Hcase.
  { intros a c Hc. rewrite list_lookup_insert in Hc. case_decide as E; [|by right].
    left. destruct E as [-> _]. by injection Hc. }
  apply (wf_tree_intro _ _ _ b).
  - destruct Hn. split; try done. simpl. by rewrite length_insert.
  - intros a c Hc. apply Hcase in Hc as [[-> ->]|Hc]; [by apply Ho|by apply Hb].
  - intros a c Hc. apply Hcase in Hc as [[-> ->]|Hc]; [by apply Ho|by eapply Ht].
Qed.

(** The routes of a tree with one child replaced. *)
Lemma has_route_upd_child t i old o refs u r :
  children t !! i = Some old ->
  has_route (upd_child t i o refs) u r <->
  (exists w, u = pbits (prefix t) ++ w /\ local_route t w r) \/
  (exists a o', a <> i /\ children t !! a = Some o' /\ opt_route o' u r) \/
  opt_route o u r.
Proof.
  intros Hi. rewrite has_route_iff. cbn [upd_child prefix children]. apply or_iff_compat_l. split.
  - intros (a & o' & Ha & Hr). rewrite list_lookup_insert in Ha. case_decide as E.
    + destruct E as [-> _]. injection Ha as ->. by right.
    + left. exists a, o'. split_and!; [|done..]. intros ->. apply E. split; [done|].
      by apply lookup_lt_Some in Hi.
  - intros [(a & o' & Hne & Ha & Hr)|Hr].
    + exists a, o'. split; [|done]. by rewrite list_lookup_insert_ne.
    + exists i, o. split; [|done]. rewrite list_lookup_insert_eq; [done|].
      by apply lookup_lt_Some in Hi.
Qed.

Lemma has_route_split t i old u r :
  children t !! i = Some old ->
  has_route t u r <->
  (exists w, u = pbits (prefix t) ++ w /\ local_route t w r) \/
  (exists a o', a <> i /\ children t !! a = Some o' /\ opt_route o' u r) \/
  opt_route old u r.
Proof.
  intros Hi. rewrite <- (has_route_upd_child t i old old (child_refs t)) by done.
  rewrite !has_route_iff. cbn [upd_child prefix children]. by rewrite list_insert_id.
Qed.

(** The occupied slots after a replacement, by what was there. *)
Lemma upd_refs v6 root t i old o :
  wf_tree v6 root t -> children t !! i = Some old ->
  Z.of_nat (occupied (<[i := o]> (children t))) =
  child_refs t + Z.b2z (is_some o) - Z.b2z (is_some old).
Proof.
  intros Hwf Hi. destruct (wf_tree_inv _ _ _ Hwf) as (b & Hn & _).
  rewrite (no_child_refs _ _ _ _ Hn). pose proof (occupied_insert _ _ _ o Hi).
  destruct o, old; simpl in *; lia.
Qed.

Lemma child_refs_bound v6 root t :
  wf_tree v6 root t -> 0 <= child_refs t <= 256.
Proof.
  intros Hwf. destruct (wf_tree_inv _ _ _ Hwf) as (b & Hn & _).
  rewrite (no_child_refs _ _ _ _ Hn). pose proof (occupied_le (children t)).
  rewrite (no_children _ _ _ _ Hn) in *. lia.
Qed.

(** ** Empty strides *)

Lemma wf_stride_new v6 root q : stride_prefix v6 q -> wf_tree v6 root (stride_new q).
Proof.
  intros Hq. assert (forall a (c : StrideTable), replicate CHILD_COUNT None !! a = Some (Some c) -> False) as Hno.
  { intros a c Ha. apply lookup_replicate in Ha as [? _]. done. }
  apply (wf_tree_intro _ _ _ ∅).
  - split; try done. apply rep_empty.
  - intros a c Hc. by destruct (Hno a c).
  - intros a c Hc. by destruct (Hno a c).
Qed.

Lemma has_route_new q u r : ~ has_route (stride_new q) u r.
Proof.
  rewrite has_route_iff. intros [(w & -> & Hl)|(a & o & Ha & Ho)].
  - by apply (local_route_rep _ ∅) in Hl; [|apply rep_empty].
  - cbn in Ha. apply lookup_replicate in Ha as [-> _]. done.
Qed.

(** ** Changing the local routes *)

Lemma wf_with_entries v6 root t e b refs :
  wf_tree v6 root t -> rep e b -> refs = Z.of_nat (size b) -> (root = false -> b !! [] = None) ->
  wf_tree v6 root (with_entries t e refs).
Proof.
  intros Hwf Hr Hrefs Hroot. destruct (wf_tree_inv _ _ _ Hwf) as (b0 & Hn & Hb & Ht).
  apply (wf_tree_intro _ _ _ b); [|exact Hb|exact Ht]. by destruct Hn; split.
Qed.

Lemma has_route_with_entries t e b refs u r :
  rep e b ->
  has_route (with_entries t e refs) u r <->
  (exists w, u = pbits (prefix t) ++ w /\ b !! w = Some r) \/
  (exists a o, children t !! a = Some o /\ opt_route o u r).
Proof.
  intros Hr. rewrite has_route_iff. cbn [with_entries prefix children]. apply or_iff_compat_r.
  by setoid_rewrite (local_route_rep (with_entries t e refs) b _ _ Hr).
Qed.

Lemma has_route_rep t b u r :
  rep (entries t) b ->
  has_route t u r <->
  (exists w, u = pbits (prefix t) ++ w /\ b !! w = Some r) \/
  (exists a o, children t !! a = Some o /\ opt_route o u r).
Proof.
  intros Hr. rewrite has_route_iff. apply or_iff_compat_r. by setoid_rewrite (local_route_rep t b _ _ Hr).
Qed.

(** [t'] is [t] with the route [r] added for the bit string [u]. *)
Definition route_added (v6 root : bool) (t t' : StrideTable) (u : list bool) (r : nat) : Prop :=
  wf_tree v6 root t' /\ prefix t' = prefix t /\
  forall u' r', has_route t' u' r' <-> has_route t u' r' \/ (u' = u /\ r' = r).

(** Neither the bit string nor the route number is in use in [t]. *)
Definition fresh_route (t : StrideTable) (u : list bool) (r : nat) : Prop :=
  (forall u', ~ has_route t u' r) /\ (forall r', ~ has_route t u r').

Lemma stride_insert_tree v6 root t a n r :
  wf_tree v6 root t -> is_u8 a -> (n <= 8)%nat -> (root = false -> 0 < n)%nat ->
  let u := pbits (prefix t) ++ take n (octet_bits a) in
  fresh_route t u r ->
  exists t', stride_insert t a n r = Ret (t', None) /\ route_added v6 root t t' u r.
Proof.
  intros Hwf Ha Hn Hroot u [Hf1 Hf2]. destruct (wf_tree_inv _ _ _ Hwf) as (b & Hnode & Hb & Ht).
  pose proof (no_rep _ _ _ _ Hnode) as Hr. set (w := take n (octet_bits a)) in *.
  assert (b !! w = None) as Hbw.
  { destruct (b !! w) as [r'|] eqn:E; [|done]. destruct (Hf2 r'). constructor. by exists b. }
  destruct (stride_insert_spec t b a n r) as (e & E & Hr'); [done..| |].
  { intros v Hv. apply (Hf1 (pbits (prefix t) ++ v)). constructor. by exists b. }
  fold w in E, Hr'. rewrite Hbw in E. rewrite E. eexists. split; [done|]. split_and!; [|done|].
  - pose proof (rep_size _ _ Hr) as Hsz. apply (wf_with_entries _ _ _ _ (<[w := r]> b)); [done..| |].
    + rewrite map_size_insert_None, (no_routes _ _ _ _ Hnode) by done.
      unfold wrap16. rewrite Z.mod_small by lia. lia.
    + intros E0. rewrite lookup_insert_ne; [by apply (no_root _ _ _ _ Hnode)|].
      intros Hw. apply (f_equal length) in Hw. unfold w in Hw.
      rewrite length_take, length_octet_bits in Hw. specialize (Hroot E0). simpl in Hw. lia.
  - intros u' r'. rewrite (has_route_with_entries _ _ _ _ _ _ Hr'), (has_route_rep t b) by done.
    split.
    + intros [(v & -> & Hv)|H]; [|tauto]. apply lookup_insert_Some in Hv as [[<- <-]|[Hv1 Hv2]]; eauto.
    + intros [[(v & -> & Hv)|H]|[-> ->]]; [|tauto|].
      * left. exists v. split; [done|]. rewrite lookup_insert_ne; [done|]. intros <-. congruence.
      * left. exists w. by rewrite lookup_insert_eq.
Qed.

(** ** Insertion *)

Section insert.
Variables (v6 : bool) (p : IpPrefix) (route : nat).
Hypotheses (Hp : wf_prefix p) (Hm : masked p = p) (Hf : is_ipv6 (addr p) = v6) (Hpos : (0 < bits p)%nat).

Let final_byte := ((bits p - 1) / 8)%nat.
Let final_bits := (bits p - final_byte * 8)%nat.
Let final_stride_prefix := prefix_at_byte_boundary p (final_byte * 8).

Lemma final_byte_bound : (8 * final_byte < bits p <= 8 * final_byte + 8)%nat.
Proof.
  unfold final_byte. pose proof (Nat.div_mod_eq (bits p - 1) 8).
  pose proof (Nat.mod_upper_bound (bits p - 1) 8 ltac:(lia)). lia.
Qed.

Lemma family_bit_len : bit_len (addr p) = family_bits v6.
Proof. unfold bit_len, family_bits. by rewrite Hf. Qed.

Lemma bits_le_family : (bits p <= family_bits v6)%nat /\ (exists k, family_bits v6 = 8 * k)%nat /\
  (family_bits v6 <= 128)%nat.
Proof.
  split_and!; [rewrite <- family_bit_len; apply Hp| |destruct v6; simpl; lia].
  destruct v6; [by exists 16%nat|by exists 4%nat].
Qed.

Lemma final_stride_prefix_ok :
  stride_prefix v6 final_stride_prefix /\ bits final_stride_prefix = (8 * final_byte)%nat /\
  pbits final_stride_prefix = take (8 * final_byte) (pbits p).
Proof.
  pose proof final_byte_bound. unfold final_stride_prefix. rewrite Nat.mul_comm.
  destruct (prefix_at_byte_boundary_spec p (8 * final_byte) Hp ltac:(lia)) as (Q1 & Q2 & Q3 & Q4 & Q5).
  destruct bits_le_family as (Hb & [j Hj] & _).
  split_and!; [|done|done]. split_and!; [done|congruence|done|by exists final_byte|lia].
Qed.

(** The last octet goes into the stride the prefix ends in. *)
Lemma insert_final root t :
  wf_tree v6 root t -> pbits (prefix t) `prefix_of` pbits p ->
  (bits (prefix t) < bits p <= bits (prefix t) + 8)%nat -> fresh_route t (pbits p) route ->
  exists t', (fb ← idx (octets16 p) final_byte; stride_insert t fb final_bits route) = Ret (t', None) /\
    route_added v6 root t t' (pbits p) route.
Proof.
  intros Hwf Hpre Hb Hfresh. pose proof final_byte_bound as Hfb.
  destruct (wf_tree_prefix _ _ _ Hwf) as (Htp & _ & _ & [k Hk] & Hmax).
  destruct bits_le_family as (Hbl & _ & H128).
  assert (final_byte = k) as Ek by lia. rewrite idx_octets16, run_bind_Ret by (done || lia).
  assert (pbits (prefix t) ++ take final_bits (octet_bits (byte_at (octets16 p) final_byte)) = pbits p)
    as Eu.
  { rewrite <- (pbits_last p final_byte) by (done || rewrite ?family_bit_len; lia).
    apply prefix_of_take in Hpre. rewrite length_pbits, Hk in Hpre by done.
    rewrite Ek, <- Hpre. f_equal. f_equal. unfold final_bits. lia. }
  rewrite <- Eu in Hfresh |- *. apply stride_insert_tree; [done| |unfold final_bits; lia..|done].
  apply byte_at_u8. by apply wf_octets16.
Qed.

(** A new child for the octet [a], holding only the new route. *)
Lemma insert_new_child root t a :
  wf_tree v6 root t -> is_u8 a -> children t !! Z.to_nat a = Some None ->
  (pbits (prefix t) ++ octet_bits a) `prefix_of` pbits p -> (bits (prefix t) + 8 < bits p)%nat ->
  exists t', (r ← get_or_create_child t a;
    _ ← assert_run r.2;
    let child := with_prefix r.1.2 final_stride_prefix in
    fb ← idx (octets16 p) final_byte;
    r' ← stride_insert child fb final_bits route;
    current ← put_child r.1.1 a (Some r'.1);
    Ret (current, r'.2)) = Ret (t', None) /\ route_added v6 root t t' (pbits p) route.
Proof.
  intros Hwf Ha Hnone Hpre Hlen. pose proof final_byte_bound as Hfb.
  destruct (wf_tree_prefix _ _ _ Hwf) as (Htp & _ & _ & [k Hk] & Hmax).
  destruct final_stride_prefix_ok as (Hq & Hqb & Hqp). destruct bits_le_family as (Hbl & _ & H128).
  pose proof (child_refs_bound _ _ _ Hwf) as Hcr.
  pose proof (length_octets16 _ Htp) as H16.
  unfold get_or_create_child. rewrite (idx_lookup _ _ _ Hnone), run_bind_Ret.
  unfold child_prefix_of, idx_set.
  rewrite decide_True by (rewrite H16; apply Nat.Div0.div_lt_upper_bound; lia).
  rewrite !run_bind_Ret, (put_child_ok _ _ _ _ Hnone), !run_bind_Ret. cbn [fst snd assert_run].
  rewrite run_bind_Ret. cbv zeta.
  match goal with |- context [with_prefix (stride_new ?x) _] =>
    change (with_prefix (stride_new x) final_stride_prefix) with (stride_new final_stride_prefix);
    set (c0 := stride_new x) end.
  destruct (insert_final false (stride_new final_stride_prefix)) as (c & Ec & Hc & Hcp & Hcr').
  { by apply wf_stride_new. } { cbn [stride_new prefix]. rewrite Hqp. apply prefix_take. }
  { cbn [stride_new prefix]. lia. } { split; intros ??; by eapply has_route_new. }
  destruct (run_bind_inv _ _ _ Ec) as (fb & Efb & Ec'). rewrite Efb, run_bind_Ret, Ec', run_bind_Ret.
  cbn [fst snd].
  assert (put_child (with_child_refs (upd_child t (Z.to_nat a) (Some c0) (child_refs t))
      (wrap16 (child_refs (upd_child t (Z.to_nat a) (Some c0) (child_refs t)) + 1))) a (Some c) =
    Ret (upd_child t (Z.to_nat a) (Some c) (child_refs t + 1))) as ->.
  { pose proof (lookup_lt_Some _ _ _ Hnone). rewrite (put_child_ok _ _ _ (Some c0)).
    - unfold upd_child, with_child_refs. cbn [prefix entries children route_refs child_refs].
      rewrite list_insert_insert_eq. unfold wrap16. by rewrite Z.mod_small by lia.
    - cbn [with_child_refs upd_child children]. by rewrite list_lookup_insert_eq. }
  rewrite run_bind_Ret. eexists. split; [done|]. split_and!; [|done|].
  - apply (wf_upd_child _ _ _ _ None); [done..| |].
    + rewrite (upd_refs _ _ _ _ _ _ Hwf Hnone). simpl. lia.
    + intros c' [= <-]. split; [|done]. unfold child_below. rewrite Hcp. cbn [stride_new prefix].
      rewrite Z2Nat.id by (unfold is_u8 in Ha; lia).
      apply (prefix_of_same _ _ (pbits p)); [done|rewrite Hqp; apply prefix_take|].
      rewrite length_app, length_octet_bits, !length_pbits by (done || apply Hq). lia.
  - intros u r. rewrite (has_route_upd_child _ _ _ _ _ _ _ Hnone), (has_route_split _ _ _ _ _ Hnone).
    cbn [opt_route]. rewrite Hcr'. pose proof (has_route_new final_stride_prefix u r). tauto.
Qed.

(** A child holding one subtree, for [set_child] on a new stride. *)
Lemma set_child_new q x c :
  is_u8 x -> set_child (stride_new q) x c = Ret (upd_child (stride_new q) (Z.to_nat x) (Some c) 1).
Proof.
  intros Hx. assert (children (stride_new q) !! Z.to_nat x = Some None) as Hl.
  { cbn [stride_new children]. apply lookup_replicate_2. unfold is_u8, CHILD_COUNT in *. lia. }
  unfold set_child. rewrite (idx_lookup _ _ _ Hl), run_bind_Ret.
  by rewrite (put_child_ok _ _ _ None) by done.
Qed.

Lemma wf_intermediate q x c :
  stride_prefix v6 q -> is_u8 x -> wf_tree v6 false c ->
  (pbits q ++ octet_bits x) `prefix_of` pbits (prefix c) ->
  let t := upd_child (stride_new q) (Z.to_nat x) (Some c) 1 in
  wf_tree v6 false t /\ forall u r, has_route t u r <-> has_route c u r.
Proof.
  intros Hq Hx Hc Hpre t. assert (children (stride_new q) !! Z.to_nat x = Some None) as Hl.
  { cbn [stride_new children]. apply lookup_replicate_2. unfold is_u8, CHILD_COUNT in *. lia. }
  split.
  - apply (wf_upd_child _ _ _ _ None); [by apply wf_stride_new|done| |].
    + rewrite (upd_refs v6 false _ _ None) by (by apply wf_stride_new || done). done.
    + intros c' [= <-]. split; [|done]. unfold child_below. cbn [stride_new prefix].
      by rewrite Z2Nat.id by (unfold is_u8 in Hx; lia).
  - intros u r. unfold t. rewrite (has_route_upd_child _ _ _ _ _ _ _ Hl).
    pose proof (has_route_new q u r) as Hno. rewrite (has_route_split _ _ _ _ _ Hl) in Hno.
    simpl in *. tauto.
Qed.

(** The child at the octet of [p] is off the path: a stride is put between. *)
Lemma insert_split root t a c :
  wf_tree v6 root t -> is_u8 a -> children t !! Z.to_nat a = Some (Some c) ->
  (pbits (prefix t) ++ octet_bits a) `prefix_of` pbits p -> (bits (prefix t) + 8 < bits p)%nat ->
  prefix_strictly_contains (prefix c) p = false -> fresh_route t (pbits p) route ->
  exists t', (let '(intermediate_prefix, existing_stride, new_stride) :=
      compute_prefix_split (prefix c) p in
    intermediate ← set_child (stride_new intermediate_prefix) existing_stride c;
    r ← (if (bits p - bits (prefix intermediate) <=? 8)%nat then
           fb ← idx (octets16 p) final_byte;
           stride_insert intermediate fb final_bits route
         else
           r ← get_or_create_child intermediate new_stride;
           _ ← assert_run r.2;
           let new_child := with_prefix r.1.2 final_stride_prefix in
           fb ← idx (octets16 p) final_byte;
           r' ← stride_insert new_child fb final_bits route;
           intermediate ← put_child r.1.1 new_stride (Some r'.1);
           Ret (intermediate, r'.2));
    current ← put_child t a (Some r.1);
    Ret (current, r.2)) = Ret (t', None) /\ route_added v6 root t t' (pbits p) route.
Proof.
  intros Hwf Ha Hc Hpre Hlen Hns Hfresh.
  destruct (child_bits _ _ _ _ _ Hwf Hc) as (Hcw & Hcb & _ & Hcbits).
  destruct (wf_tree_prefix _ _ _ Hwf) as (Htp & _ & _ & [k Hk] & _).
  destruct (wf_tree_prefix _ _ _ Hcw) as (Hcp & Hcf & Hcm & [kc Hkc] & Hcmax).
  unfold child_below in Hcb. rewrite Z2Nat.id in Hcb by (unfold is_u8 in Ha; lia).
  assert (length (pbits (prefix t) ++ octet_bits a) = 8 * (k + 1))%nat as Hl8.
  { rewrite length_app, length_octet_bits, length_pbits by done. lia. }
  destruct (compute_prefix_split_spec (prefix c) p (k + 1) kc) as
    (q & x & y & cs & -> & Q1 & Q2 & Q3 & Q4 & Hk1 & Hcs1 & Hcs2 & Hx & Hy & Eqa & Eqp & Hxp & Hyp);
    [done..|congruence|done|done|done|done|lia|lia| |].
  { apply prefix_of_take in Hcb, Hpre. rewrite Hl8 in Hcb, Hpre. congruence. }
  assert (stride_prefix v6 q) as Hq.
  { split_and!; [done|congruence|done|by exists cs|lia]. }
  destruct (wf_intermediate q x c) as [Hiw Hir]; [done..|].
  rewrite set_child_new, run_bind_Ret by done.
  set (i0 := upd_child (stride_new q) (Z.to_nat x) (Some c) 1) in *.
  assert (prefix i0 = q) as Hi0 by done. rewrite Hi0.
  assert (pbits q `prefix_of` pbits p) as Hqp by (rewrite Eqp; apply prefix_take).
  match goal with |- context [(if _ then _ else ?e2)] => set (E2 := e2) end.
  assert (exists i1, (if (bits p - bits q <=? 8)%nat then
      fb ← idx (octets16 p) final_byte; stride_insert i0 fb final_bits route else E2) = Ret (i1, None) /\
      route_added v6 false i0 i1 (pbits p) route) as (i1 & Ei1 & Hi1 & Hi1p & Hi1r).
  { destruct (Nat.leb_spec (bits p - bits q) 8) as [Hle|Hgt].
    - apply insert_final; [done|done|rewrite Hi0; lia|].
      destruct Hfresh as [Hf1 Hf2]. split; intros ?; rewrite Hir; intros ?;
        [eapply Hf1|eapply Hf2]; by eapply route_below.
    - destruct (Hyp ltac:(lia)) as [Hxy Hyp']. apply (insert_new_child false i0 y);
        [done..| |done|rewrite Hi0; lia].
      unfold i0. cbn [upd_child stride_new children]. rewrite list_lookup_insert_ne.
      + apply lookup_replicate_2. unfold is_u8, CHILD_COUNT in *. lia.
      + unfold is_u8 in *. lia. }
  rewrite Ei1, run_bind_Ret. cbn [fst snd]. rewrite (put_child_ok _ _ _ _ Hc), run_bind_Ret.
  eexists. split; [done|]. split_and!; [|done|].
  - apply (wf_upd_child _ _ _ _ (Some c)); [done..| |].
    + rewrite (upd_refs _ _ _ _ _ _ Hwf Hc). simpl. lia.
    + intros c' [= <-]. split; [|done]. unfold child_below. rewrite Hi1p, Hi0.
      rewrite Z2Nat.id by (unfold is_u8 in Ha; lia).
      apply (prefix_of_same _ _ (pbits p)); [done..|]. rewrite Hl8, length_pbits by done. lia.
  - intros u r. rewrite (has_route_upd_child _ _ _ _ _ _ _ Hc), (has_route_split _ _ _ _ _ Hc).
    cbn [opt_route]. rewrite Hi1r, Hir. tauto.
Qed.

Lemma insert_loop_spec fuel : forall root t,
  wf_tree v6 root t -> pbits (prefix t) `prefix_of` pbits p -> (bits (prefix t) < bits p)%nat ->
  fresh_route t (pbits p) route -> (family_bits v6 <= bits (prefix t) + 8 * fuel)%nat ->
  exists t', insert_loop fuel p final_byte final_bits final_stride_prefix route
      (bits (prefix t) / 8) (bits p - bits (prefix t)) t = Ret (t', None) /\
    route_added v6 root t t' (pbits p) route.
Proof.
  induction fuel as [|fuel IH]; intros root t Hwf Hpre Hlt Hfresh Hfuel;
    destruct (wf_tree_prefix _ _ _ Hwf) as (Htp & _ & _ & [k Hk] & Hmax); [lia|].
  cbn [insert_loop]. destruct (Nat.leb_spec (bits p - bits (prefix t)) 8) as [Hle|Hgt].
  { apply insert_final; [done..|lia|done]. }
  assert (bits (prefix t) / 8 = k)%nat as -> by (rewrite Hk, Nat.mul_comm; apply Nat.div_mul; lia).
  destruct bits_le_family as (Hbl & _ & H128). pose proof family_bit_len as Hfl.
  rewrite (idx_octets16 p k), run_bind_Ret by (done || lia).
  set (a := byte_at (octets16 p) k).
  assert (is_u8 a) as Ha by (unfold a; apply byte_at_u8, wf_octets16, Hp).
  assert ((pbits (prefix t) ++ octet_bits a) `prefix_of` pbits p) as Hpa.
  { apply prefix_of_take in Hpre. rewrite length_pbits, Hk in Hpre by done.
    rewrite <- Hpre. unfold a. rewrite pbits_octet by (done || lia). apply prefix_take. }
  destruct (idx_children _ _ _ _ Hwf Ha) as (o & Ho & Ei). rewrite Ei, run_bind_Ret.
  destruct o as [c|].
  2:{ apply insert_new_child; [done..|lia]. }
  destruct (prefix_strictly_contains (prefix c) p) eqn:Esc; cbn [negb].
  2:{ apply insert_split; [done..|lia|done|done]. }
  destruct (child_bits _ _ _ _ _ Hwf Ho) as (Hcw & Hcb & _ & Hcbits).
  destruct (wf_tree_prefix _ _ _ Hcw) as (Hcp & Hcf & _).
  apply prefix_strictly_contains_spec in Esc as [Hclt Hcpre]; [|done|done|congruence].
  destruct (IH false c) as (c' & -> & Hc' & Hc'p & Hc'r); [done..| |lia|].
  { destruct Hfresh as [Hf1 Hf2]. split; intros ? Hr; [eapply Hf1|eapply Hf2];
      by eapply route_below. }
  rewrite run_bind_Ret. cbn [fst snd]. rewrite (put_child_ok _ _ _ _ Ho), run_bind_Ret.
  eexists. split; [done|]. split_and!; [|done|].
  - apply (wf_upd_child _ _ _ _ (Some c)); [done..| |].
    + rewrite (upd_refs _ _ _ _ _ _ Hwf Ho). simpl. lia.
    + intros c2 [= <-]. split; [|done]. unfold child_below in *. by rewrite Hc'p.
  - intros u r. rewrite (has_route_upd_child _ _ _ _ _ _ _ Ho), (has_route_split _ _ _ _ _ Ho).
    cbn [opt_route]. rewrite Hc'r. tauto.
Qed.

End insert.

(** The root stride of a family. *)
Definition root_tree (v6 : bool) (t : StrideTable) : Prop :=
  wf_tree v6 true t /\ bits (prefix t) = 0%nat.

Lemma root_pbits v6 t : root_tree v6 t -> pbits (prefix t) = [].
Proof. intros [_ H]. unfold pbits. by rewrite H, take_0. Qed.

(** [Table::insert_into] adds the route. *)
Lemma insert_into_spec v6 t p route :
  root_tree v6 t -> wf_prefix p -> masked p = p -> is_ipv6 (addr p) = v6 ->
  fresh_route t (pbits p) route ->
  exists t', insert_into t p route = Ret (t', None) /\ root_tree v6 t' /\
    forall u r, has_route t' u r <-> has_route t u r \/ (u = pbits p /\ r = route).
Proof.
  intros Hroot Hp Hm Hf Hfresh. pose proof (root_pbits _ _ Hroot) as HP. destruct Hroot as [Hwf H0].
  unfold insert_into. destruct (Nat.eqb_spec (bits p) 0) as [E|E].
  - destruct (stride_insert_tree v6 true t 0 0 route) as (t' & -> & Hw & Hpr & Hr);
      [done|unfold is_u8; lia|lia|done| |].
    { rewrite HP, take_0. unfold pbits in Hfresh. by rewrite E, take_0 in Hfresh. }
    exists t'. split_and!; [done|by split; [|rewrite Hpr]|]. intros u r. rewrite Hr, HP, take_0.
    unfold pbits. by rewrite E, take_0.
  - assert (0 < bits p)%nat as Hpos by lia.
    destruct (insert_loop_spec v6 p route Hp Hm Hf Hpos STRIDE_FUEL true t) as (t' & Et & Hw & Hpr & Hr).
    { done. } { rewrite HP. apply prefix_nil. } { lia. } { done. }
    { rewrite H0. unfold family_bits, STRIDE_FUEL. destruct v6; lia. }
    rewrite H0 in Et. change (0 / 8)%nat with 0%nat in Et. rewrite Nat.sub_0_r in Et.
    exists t'. split_and!; [done|by split; [|rewrite Hpr]|done].
Qed.

(** ** Deletion *)

(** [t'] is [t] without the routes for the bit string [u]. *)
Definition route_removed (v6 root : bool) (t t' : StrideTable) (u : list bool) : Prop :=
  wf_tree v6 root t' /\ prefix t' = prefix t /\
  forall u' r', has_route t' u' r' <-> has_route t u' r' /\ u' <> u.

(** The octets of a path name nested children. *)
Fixpoint valid_path (t : StrideTable) (path : list Z) : Prop :=
  match path with
  | [] => True
  | a :: rest => is_u8 a /\ exists c, children t !! Z.to_nat a = Some (Some c) /\ valid_path c rest
  end.

Lemma stride_delete_tree v6 root t b a n r :
  wf_tree v6 root t -> rep (entries t) b -> is_u8 a -> (n <= 8)%nat ->
  b !! take n (octet_bits a) = Some r ->
  exists t', stride_delete t a n = Ret (t', Some r) /\ children t' = children t /\
    route_removed v6 root t t' (pbits (prefix t) ++ take n (octet_bits a)).
Proof.
  intros Hwf Hr Ha Hn Hbw. destruct (wf_tree_inv _ _ _ Hwf) as (b0 & Hnode & _).
  pose proof (rep_unique _ _ _ Hr (no_rep _ _ _ _ Hnode)) as <-. set (w := take n (octet_bits a)) in *.
  pose proof (stride_delete_spec t b a n Hr Ha Hn) as Hd. cbv zeta in Hd. fold w in Hd.
  rewrite Hbw in Hd. destruct Hd as (e & -> & Hr'). eexists. split; [done|]. split; [done|].
  pose proof (rep_size _ _ Hr) as Hsz. split_and!; [|done|].
  - apply (wf_with_entries _ _ _ _ (delete w b)); [done..| |].
    + rewrite map_size_delete_Some, (no_routes _ _ _ _ Hnode) by eauto.
      assert (size b <> 0%nat) by (intros Hz; apply map_size_empty_inv in Hz; subst; done).
      unfold wrap16. rewrite Z.mod_small by lia. lia.
    + intros E0. rewrite lookup_delete_None. right. by apply (no_root _ _ _ _ Hnode).
  - intros u' r'. rewrite (has_route_with_entries _ _ _ _ _ _ Hr'), (has_route_rep t b) by done.
    assert (forall a o, children t !! a = Some o -> opt_route o u' r' -> u' <> pbits (prefix t) ++ w) as Hne.
    { intros a' [c|] Hc Hrt ->; [|done]. destruct (route_in_child _ _ _ _ _ _ _ Hwf Hc Hrt) as [_ Hl].
      rewrite length_app, length_pbits in Hl by apply Hnode. unfold w in Hl.
      rewrite length_take, length_octet_bits in Hl. lia. }
    split.
    + intros [(v & -> & Hv)|(a' & o & Ho & Hrt)]; [|by eauto 8].
      apply lookup_delete_Some in Hv as [Hv1 Hv2]. split; [by eauto|].
      intros E. by apply app_inv_head in E.
    + intros [[(v & -> & Hv)|H] Hu]; [|by right]. left. exists v. split; [done|].
      apply lookup_delete_Some. split; [congruence|done].
Qed.

Section delete.
Variables (v6 : bool) (p : IpPrefix) (route : nat).
Hypotheses (Hp : wf_prefix p) (Hf : is_ipv6 (addr p) = v6).

(** Replacing the child at the octet of [p] by one without [p]. *)
Lemma remove_in_child root t a c c' :
  wf_tree v6 root t -> is_u8 a -> children t !! Z.to_nat a = Some (Some c) ->
  (pbits (prefix t) ++ octet_bits a) `prefix_of` pbits p -> (bits (prefix t) + 8 < bits p)%nat ->
  route_removed v6 false c c' (pbits p) ->
  route_removed v6 root t (upd_child t (Z.to_nat a) (Some c') (child_refs t)) (pbits p).
Proof.
  intros Hwf Ha Hc Hpre Hlen (Hc' & Hcp & Hcr).
  destruct (child_bits _ _ _ _ _ Hwf Hc) as (Hcw & Hcb & _ & Hcbits).
  destruct (wf_tree_prefix _ _ _ Hwf) as (Htp & _). split_and!; [|done|].
  - apply (wf_upd_child _ _ _ _ (Some c)); [done..| |].
    + rewrite (upd_refs _ _ _ _ _ _ Hwf Hc). simpl. lia.
    + intros c2 [= <-]. split; [|done]. unfold child_below in *. by rewrite Hcp.
  - intros u r. rewrite (has_route_upd_child _ _ _ _ _ _ _ Hc), (has_route_split _ _ _ _ _ Hc).
    cbn [opt_route]. rewrite Hcr.
    assert (forall w, local_route t w r -> pbits (prefix t) ++ w <> pbits p) as Hloc.
    { intros w Hl E. apply local_route_length in Hl. apply (f_equal length) in E.
      rewrite length_app, !length_pbits in E by done. lia. }
    assert (forall a' o, a' <> Z.to_nat a -> children t !! a' = Some o -> opt_route o u r -> u <> pbits p)
      as Hoth.
    { intros a' [c2|] Hne Hc2 Hr2 ->; [|done]. apply Hne. exact (child_on_path _ _ _ _ _ _ _ _ Hwf Ha Hpre Hc2 Hr2). }
    split.
    + intros [(w & -> & Hl)|[(a' & o & Hne & Ho & Hr)|Hr]]; [|by eauto 9|tauto].
      split; [by eauto|by apply Hloc].
    + tauto.
Qed.

Lemma delete_loop_spec fuel : forall root t,
  wf_tree v6 root t -> has_route t (pbits p) route -> (bits (prefix t) < bits p)%nat ->
  (family_bits v6 <= bits (prefix t) + 8 * fuel)%nat ->
  exists t' path, delete_loop fuel p (bits (prefix t) / 8) (bits p - bits (prefix t)) t =
      Ret (Some (t', path, route)) /\
    route_removed v6 root t t' (pbits p) /\ valid_path t' path.
Proof.
  induction fuel as [|fuel IH]; intros root t Hwf Hrt Hlt Hfuel;
    destruct (wf_tree_prefix _ _ _ Hwf) as (Htp & Htf & _ & [k Hk] & Hmax); [lia|].
  destruct (has_route_prefix _ _ _ _ _ Hwf Hrt) as [Hpre _].
  assert (family_bits v6 <= 128)%nat as H128 by (unfold family_bits; destruct v6; lia).
  assert (bit_len (addr p) = family_bits v6) as Hfl by (unfold bit_len, family_bits; by rewrite Hf).
  assert (bits (prefix t) / 8 = k)%nat as -> by (rewrite Hk, Nat.mul_comm; apply Nat.div_mul; lia).
  pose proof (prefix_of_take _ _ Hpre) as HP. rewrite length_pbits, Hk in HP by done.
  cbn [delete_loop]. rewrite !(idx_octets16 p k), !run_bind_Ret by (done || lia).
  set (a := byte_at (octets16 p) k).
  assert (is_u8 a) as Ha by (unfold a; apply byte_at_u8, wf_octets16, Hp).
  destruct (idx_children _ _ _ _ Hwf Ha) as (o & Ho & Ei). rewrite Ei, run_bind_Ret.
  destruct (Nat.ltb_spec 8 (bits p - bits (prefix t))) as [Hgt|Hle].
  - assert ((pbits (prefix t) ++ octet_bits a) `prefix_of` pbits p) as Hpa.
    { rewrite <- HP. unfold a. rewrite pbits_octet by (done || lia). apply prefix_take. }
    assert (opt_route o (pbits p) route) as Hro.
    { apply has_route_iff in Hrt as [(w & E & Hl)|(a' & [c|] & Hc & Hr)]; [exfalso| |done].
      - apply local_route_length in Hl. apply (f_equal length) in E.
        rewrite length_app, !length_pbits in E by done. lia.
      - assert (a' = Z.to_nat a) as -> by exact (child_on_path _ _ _ _ _ _ _ _ Hwf Ha Hpa Hc Hr). by simplify_eq. }
    destruct o as [c|]; [|done]. cbn [opt_route] in Hro.
    destruct (child_bits _ _ _ _ _ Hwf Ho) as (Hcw & Hcb & _ & Hcbits).
    destruct (has_route_prefix _ _ _ _ _ Hcw Hro) as [_ Hclt]. specialize (Hclt eq_refl).
    rewrite length_pbits in Hclt by done.
    destruct (Nat.ltb_spec (bits p) (bits (prefix c))); [lia|].
    destruct (IH false c) as (c' & path & -> & Hrem & Hpath); [done..|lia|].
    rewrite run_bind_Ret, (put_child_ok _ _ _ _ Ho), run_bind_Ret. eexists _, _. split; [done|].
    split; [by apply (remove_in_child root t a c); [..|lia|]|].
    split; [done|]. exists c'. split; [|done]. cbn [upd_child children].
    apply list_lookup_insert_eq. by apply lookup_lt_Some in Ho.
  - assert (prefix_strictly_contains (prefix t) p = true) as ->.
    { apply prefix_strictly_contains_spec; [done|done|congruence|done]. }
    cbn [negb]. destruct (wf_tree_inv _ _ _ Hwf) as (b & Hnode & _).
    pose proof (no_rep _ _ _ _ Hnode) as Hr.
    pose proof (pbits_last p k Hp ltac:(lia) ltac:(lia)) as Elast. rewrite HP, <- Hk in Elast. fold a in Elast.
    destruct (stride_delete_tree v6 root t b a (bits p - bits (prefix t)) route) as (t' & -> & _ & Hrem).
    { done. } { done. } { done. } { lia. }
    { apply has_route_iff in Hrt as [(w & E & Hl)|(a' & [c|] & Hc & Hrc)]; [| |done].
      - rewrite <- Elast in E. apply app_inv_head in E. rewrite E. by apply (local_route_rep t b).
      - destruct (route_in_child _ _ _ _ _ _ _ Hwf Hc Hrc) as [_ Hl].
        rewrite length_pbits in Hl by done. lia. }
    rewrite run_bind_Ret. eexists _, []. split; [done|]. by rewrite Elast in Hrem.
Qed.

End delete.

(** ** Removing strides that became redundant *)

(** [t'] holds the routes of [t]. *)
Definition same_routes (v6 root : bool) (t t' : StrideTable) : Prop :=
  wf_tree v6 root t' /\ prefix t' = prefix t /\ forall u r, has_route t' u r <-> has_route t u r.

Lemma first_child_spec (cs : list (option StrideTable)) :
  occupied cs = 1%nat ->
  exists i c, first_child cs = Some c /\ cs !! i = Some (Some c) /\
    forall j o, cs !! j = Some o -> j <> i -> o = None.
Proof.
  induction cs as [|[c|] cs IH]; simpl; intros H; [lia| |].
  - exists 0%nat, c. split_and!; [done..|]. intros [|j] o Hj Hne; [done|]. simpl in Hj.
    apply (occupied_zero cs j); [lia|done].
  - destruct (IH H) as (i & c & E1 & E2 & E3). exists (S i), c. split_and!; [done..|].
    intros [|j] o Hj Hne; simpl in Hj; [congruence|]. apply (E3 j o Hj). congruence.
Qed.

(** The routes of a stride without local routes are those of its children. *)
Lemma has_route_no_local v6 root t u r :
  wf_tree v6 root t -> route_refs t = 0 ->
  has_route t u r <-> exists a o, children t !! a = Some o /\ opt_route o u r.
Proof.
  intros Hwf H0. destruct (wf_tree_inv _ _ _ Hwf) as (b & Hn & _).
  rewrite (no_routes _ _ _ _ Hn) in H0. assert (b = ∅) as -> by (apply map_size_empty_inv; lia).
  rewrite (has_route_rep t ∅) by apply Hn. split; [|tauto]. intros [(w & _ & Hw)|H]; [|done].
  by rewrite lookup_empty in Hw.
Qed.

(** Replacing a child by a subtree with the same routes. *)
Lemma replace_child v6 root t a c o refs :
  wf_tree v6 root t -> is_u8 a -> children t !! Z.to_nat a = Some (Some c) ->
  refs = child_refs t + Z.b2z (is_some o) - 1 ->
  (forall c', o = Some c' -> wf_tree v6 false c' /\ pbits (prefix c) `prefix_of` pbits (prefix c')) ->
  (forall u r, opt_route o u r <-> has_route c u r) ->
  same_routes v6 root t (upd_child t (Z.to_nat a) o refs).
Proof.
  intros Hwf Ha Hc Hrefs Ho Hr. split_and!; [|done|].
  - apply (wf_upd_child _ _ _ _ (Some c)); [done..| |].
    + rewrite (upd_refs _ _ _ _ _ _ Hwf Hc). simpl. lia.
    + intros c' E. destruct (Ho c' E) as [Hw Hp]. split; [|done].
      destruct (child_bits _ _ _ _ _ Hwf Hc) as (_ & Hb & _). unfold child_below in *. by etrans.
  - intros u r. rewrite (has_route_upd_child _ _ _ _ _ _ _ Hc), (has_route_split _ _ _ _ _ Hc).
    cbn [opt_route]. rewrite Hr. tauto.
Qed.

Lemma clean_empty_strides_spec v6 path : forall root t,
  wf_tree v6 root t -> valid_path t path ->
  exists t', clean_empty_strides t path = Ret t' /\ same_routes v6 root t t'.
Proof.
  induction path as [|a path IH]; intros root t Hwf Hpath.
  { exists t. by split_and!. }
  destruct Hpath as (Ha & c & Hc & Hpath). cbn [clean_empty_strides].
  destruct (child_bits _ _ _ _ _ Hwf Hc) as (Hcw & Hcb & _ & _).
  rewrite (idx_lookup _ _ _ Hc), run_bind_Ret. cbn [expect]. rewrite run_bind_Ret.
  destruct (IH false c Hcw Hpath) as (c' & -> & Hc' & Hcp & Hcr).
  rewrite run_bind_Ret, (put_child_ok _ _ _ _ Hc), run_bind_Ret.
  destruct (replace_child v6 root t a c (Some c') (child_refs t)) as (Hw1 & _ & Hr1);
    [done..|simpl; lia|intros ? [= <-]; by rewrite Hcp|done|].
  set (t1 := upd_child t (Z.to_nat a) (Some c') (child_refs t)) in *.
  assert (children t1 !! Z.to_nat a = Some (Some c')) as Hc1.
  { apply list_lookup_insert_eq. by apply lookup_lt_Some in Hc. }
  pose proof (child_refs_bound _ _ _ Hc') as Hcrb. pose proof (child_refs_bound _ _ _ Hw1) as Hcrb1.
  assert (forall t2, same_routes v6 root t1 t2 -> same_routes v6 root t t2) as Hstep.
  { intros t2 (W & P & R). split_and!; [done|by rewrite P|]. intros u r. by rewrite R, Hr1. }
  destruct (Z.eqb_spec (route_refs c') 0) as [Hz|Hz]; cbn [negb orb].
  2:{ exists t1. split; [done|]. by split_and!. }
  destruct (Z.ltb_spec 1 (child_refs c')) as [H1|H1].
  { exists t1. split; [done|]. by split_and!. }
  pose proof (fun u r => has_route_no_local v6 false c' u r Hc' Hz) as Hloc.
  destruct (wf_tree_inv _ _ _ Hc') as (b & Hn & _). pose proof (no_child_refs _ _ _ _ Hn) as Hcnt.
  destruct (Z.eqb_spec (child_refs c') 0) as [Hc0|Hc0].
  - unfold delete_child. rewrite (idx_lookup _ _ _ Hc1), run_bind_Ret.
    rewrite (put_child_ok _ _ _ _ Hc1), run_bind_Ret. eexists. split; [done|]. apply Hstep.
    assert (1 <= child_refs t1) as Hpos.
    { destruct (wf_tree_inv _ _ _ Hw1) as (b1 & Hn1 & _). rewrite (no_child_refs _ _ _ _ Hn1).
      pose proof (occupied_insert _ _ _ None Hc1). simpl in *. lia. }
    apply (replace_child v6 root t1 a c' None); [done..| |done|].
    + simpl. unfold wrap16. rewrite Z.mod_small by (simpl in *; lia). simpl. lia.
    + intros u r. rewrite Hloc. split; [done|]. intros (j & o & Hj & Ho).
      by rewrite (occupied_zero (children c') j o) in Ho by (done || lia).
  - destruct (first_child_spec (children c')) as (i & g & E1 & E2 & E3); [lia|].
    unfold take_first_child. rewrite E1. cbn [expect]. rewrite run_bind_Ret.
    unfold set_child. rewrite (idx_lookup _ _ _ Hc1), run_bind_Ret.
    rewrite (put_child_ok _ _ _ _ Hc1). eexists. split; [done|]. apply Hstep.
    destruct (child_bits _ _ _ _ _ Hc' E2) as (Hgw & Hgb & _).
    apply (replace_child v6 root t1 a c' (Some g)); [done..|simpl; lia| |].
    + intros ? [= <-]. split; [done|]. etrans; [|exact Hgb]. by apply prefix_app_r.
    + intros u r. rewrite Hloc. cbn [opt_route]. split; [intros H; by exists i, (Some g)|].
      intros (j & o & Hj & Ho). destruct (decide (j = i)) as [->|Hne]; [by simplify_eq|].
      by rewrite (E3 j o Hj Hne) in Ho.
Qed.

(** [Table::delete_from] removes the route. *)
Lemma delete_from_spec v6 t p route :
  root_tree v6 t -> wf_prefix p -> is_ipv6 (addr p) = v6 -> has_route t (pbits p) route ->
  exists t', delete_from t p = Ret (t', Some route) /\ root_tree v6 t' /\
    forall u r, has_route t' u r <-> has_route t u r /\ u <> pbits p.
Proof.
  intros Hroot Hp Hf Hr. pose proof (root_pbits _ _ Hroot) as HP. destruct Hroot as [Hwf H0].
  unfold delete_from. destruct (Nat.eqb_spec (bits p) 0) as [E|E].
  - assert (pbits p = []) as Epn by (unfold pbits; by rewrite E, take_0).
    destruct (wf_tree_inv _ _ _ Hwf) as (b & Hn & _).
    destruct (stride_delete_tree v6 true t b 0 0 route) as (t' & -> & _ & W & P & R);
      [done|apply Hn|unfold is_u8; lia|lia| |].
    { rewrite take_0. rewrite Epn in Hr. apply (has_route_rep t b) in Hr; [|apply Hn].
      destruct Hr as [(w & Ew & Hw)|(a & [c|] & Hc & Hrc)]; [|exfalso|done].
      - rewrite HP in Ew. simpl in Ew. by subst.
      - destruct (route_in_child _ _ _ _ _ _ _ Hwf Hc Hrc) as [_ Hl]. simpl in Hl. lia. }
    exists t'. split_and!; [done|by split; [|rewrite P]|]. intros u r. by rewrite R, HP, take_0, Epn.
  - destruct (delete_loop_spec v6 p route Hp Hf STRIDE_FUEL true t) as (t' & path & Ed & (W & P & R) & Hv).
    { done. } { done. } { lia. } { rewrite H0. unfold family_bits, STRIDE_FUEL. destruct v6; lia. }
    rewrite H0 in Ed. change (0 / 8)%nat with 0%nat in Ed. rewrite Nat.sub_0_r in Ed.
    rewrite Ed, run_bind_Ret.
    destruct (clean_empty_strides_spec v6 path true t' W Hv) as (t2 & -> & W2 & P2 & R2).
    rewrite run_bind_Ret. exists t2. split_and!; [done|split; [done|congruence]|].
    intros u r. by rewrite R2, R.
Qed.
