(* ===== verification/ArtTable.v ===== *)
(** * The allotment routing table: [crates/art/src/lib.rs]

    [Table] keeps one path-compressed tree of strides per address family, a
    map from each installed prefix to its route number, and the values the
    route numbers index. *)

From S2P Require Import Prelude Bytes Bits IpAddr Lpm ArtPrefix PrefixTable Stride ArtTree.

Section table.
Context {V : Type}.

Record Table : Type := {
  t_v4 : StrideTable;
  t_v6 : StrideTable;
  t_routes : gmap IpPrefix nat;
  t_values : list (option V);
  t_free_values : list nat }.

(** [Table::new].  [free_values] is a stack, its top at the head. *)
Definition table_new : Table :=
  {| t_v4 := stride_new {| addr := V4_UNSPECIFIED; bits := 0 |};
     t_v6 := stride_new {| addr := V6_UNSPECIFIED; bits := 0 |};
     t_routes := ∅; t_values := []; t_free_values := [] |}.

(** ** The table operations *)

(** [Table::value]. *)
Definition table_value (t : Table) (route : nat) : run V :=
  o ← idx (t_values t) route; expect o.

(** [find_map] over the matches, most specific first. *)
Fixpoint find_match (t : Table) (a : IpAddr) (ms : list (IpPrefix * nat)) : run (option V) :=
  match ms with
  | [] => Ret None
  | (p, route) :: ms' =>
      if contains p a then v ← table_value t route; Ret (Some v) else find_match t a ms'
  end.

(** [Table::get]. *)
Definition table_get (t : Table) (a : IpAddr) : run (option V) :=
  let root := if is_ipv6 a then t_v6 t else t_v4 t in
  ms ← get_loop STRIDE_FUEL a 0 root [];
  find_match t a ms.

(** [Table::get_prefix]. *)
Definition table_get_prefix (t : Table) (p : IpPrefix) : run (option V) :=
  match t_routes t !! masked p with
  | None => Ret None
  | Some route => v ← table_value t route; Ret (Some v)
  end.

(** [Table::allocate]. *)
Definition table_allocate (t : Table) (v : V) : run (Table * nat) :=
  match t_free_values t with
  | route :: free =>
      o ← idx (t_values t) route;
      _ ← assert_run (negb (is_some o));
      vs ← idx_set (t_values t) route (Some v);
      Ret ({| t_v4 := t_v4 t; t_v6 := t_v6 t; t_routes := t_routes t;
              t_values := vs; t_free_values := free |}, route)
  | [] =>
      Ret ({| t_v4 := t_v4 t; t_v6 := t_v6 t; t_routes := t_routes t;
              t_values := t_values t ++ [Some v]; t_free_values := [] |},
           length (t_values t))
  end.

(** [Table::release]. *)
Definition table_release (t : Table) (route : nat) : run (Table * V) :=
  o ← idx (t_values t) route;
  v ← expect o;
  vs ← idx_set (t_values t) route None;
  Ret ({| t_v4 := t_v4 t; t_v6 := t_v6 t; t_routes := t_routes t;
          t_values := vs; t_free_values := route :: t_free_values t |}, v).

Definition with_strides (t : Table) (s4 s6 : StrideTable) (rs : gmap IpPrefix nat) : Table :=
  {| t_v4 := s4; t_v6 := s6; t_routes := rs;
     t_values := t_values t; t_free_values := t_free_values t |}.

(** [Table::insert]. *)
Definition table_insert (t : Table) (p : IpPrefix) (v : V) : run (Table * option V) :=
  let p := masked p in
  match t_routes t !! p with
  | Some route =>
      prev ← idx (t_values t) route;
      vs ← idx_set (t_values t) route (Some v);
      Ret ({| t_v4 := t_v4 t; t_v6 := t_v6 t; t_routes := t_routes t;
              t_values := vs; t_free_values := t_free_values t |}, prev)
  | None =>
      r ← table_allocate t v;
      let t := r.1 in let route := r.2 in
      if is_ipv6 (addr p) then
        r ← insert_into (t_v6 t) p route;
        _ ← assert_run (bool_decide (r.2 = None));
        Ret (with_strides t (t_v4 t) r.1 (<[p := route]> (t_routes t)), None)
      else
        r ← insert_into (t_v4 t) p route;
        _ ← assert_run (bool_decide (r.2 = None));
        Ret (with_strides t r.1 (t_v6 t) (<[p := route]> (t_routes t)), None)
  end.

(** [Table::delete]. *)
Definition table_delete (t : Table) (p : IpPrefix) : run (Table * option V) :=
  let p := masked p in
  match t_routes t !! p with
  | None => Ret (t, None)
  | Some expected =>
      let rs := delete p (t_routes t) in
      t ← (if is_ipv6 (addr p) then
             r ← delete_from (t_v6 t) p;
             _ ← assert_run (bool_decide (r.2 = Some expected));
             Ret (with_strides t (t_v4 t) r.1 rs)
           else
             r ← delete_from (t_v4 t) p;
             _ ← assert_run (bool_decide (r.2 = Some expected));
             Ret (with_strides t r.1 (t_v6 t) rs));
      r ← table_release t expected;
      Ret (r.1, Some r.2)
  end.

(** [Table::clear]. *)
Definition table_clear (t : Table) : Table := table_new.
(** [Table::len] and [Table::is_empty]. *)
Definition table_len (t : Table) : nat := size (t_routes t).
Definition table_is_empty (t : Table) : bool := (table_len t =? 0)%nat.
(** [Table::num_strides]. *)
Definition table_num_strides (t : Table) : nat := (num_strides (t_v4 t) + num_strides (t_v6 t))%nat.

(** ** The invariant and the abstraction *)

Definition root_of (t : Table) (v6 : bool) : StrideTable := if v6 then t_v6 t else t_v4 t.

(** The routes of the two trees are the installed prefixes; each has a value of
    its own, and the free slots are empty. *)
Record table_ok (t : Table) : Prop := {
  ok_root v6 : root_tree v6 (root_of t v6);
  ok_prefix p r : t_routes t !! p = Some r -> wf_prefix p /\ masked p = p;
  ok_route v6 u r : has_route (root_of t v6) u r <->
    exists p, t_routes t !! p = Some r /\ is_ipv6 (addr p) = v6 /\ pbits p = u;
  ok_inj p q r : t_routes t !! p = Some r -> t_routes t !! q = Some r -> p = q;
  ok_value p r : t_routes t !! p = Some r -> exists v, t_values t !! r = Some (Some v);
  ok_free r : r ∈ t_free_values t -> t_values t !! r = Some None;
  ok_free_nodup : NoDup (t_free_values t) }.

(** The installed prefixes with their values. *)
Definition table_abs (t : Table) : gmap IpPrefix V :=
  omap (fun r => mjoin (t_values t !! r)) (t_routes t).

Lemma table_abs_lookup t p :
  table_abs t !! p = t_routes t !! p ≫= fun r => mjoin (t_values t !! r).
Proof. unfold table_abs. apply lookup_omap. Qed.

Lemma table_abs_Some t p v :
  table_ok t ->
  table_abs t !! p = Some v <-> exists r, t_routes t !! p = Some r /\ t_values t !! r = Some (Some v).
Proof.
  intros Hok. rewrite table_abs_lookup. split.
  - intros H. apply bind_Some in H as (r & Hr & Hv). exists r. split; [done|].
    by destruct (t_values t !! r) as [[]|]; simplify_eq/=.
  - intros (r & -> & Hv). simpl. by rewrite Hv.
Qed.

Lemma table_abs_route t p r :
  table_ok t -> t_routes t !! p = Some r ->
  exists v, t_values t !! r = Some (Some v) /\ table_abs t !! p = Some v.
Proof.
  intros Hok Hr. destruct (ok_value t Hok p r Hr) as [v Hv]. exists v. split; [done|].
  apply table_abs_Some; eauto.
Qed.

(** Masked prefixes with the same family and bit string are equal. *)
Lemma route_prefix_eq t p q r :
  table_ok t -> t_routes t !! q = Some r -> wf_prefix p -> masked p = p ->
  is_ipv6 (addr q) = is_ipv6 (addr p) -> pbits q = pbits p -> q = p.
Proof.
  intros Hok Hq Hp Hm Hf Hb. destruct (ok_prefix t Hok q r Hq) as [Hqw Hqm].
  rewrite <- Hm, <- Hqm. by apply masked_eq.
Qed.

Lemma table_new_ok : table_ok table_new /\ table_abs table_new = ∅.
Proof.
  assert (stride_prefix false {| addr := V4_UNSPECIFIED; bits := 0 |}) as H4.
  { split_and!; [vm_compute; repeat constructor; congruence|done|done|by exists 0%nat|simpl; lia]. }
  assert (stride_prefix true {| addr := V6_UNSPECIFIED; bits := 0 |}) as H6.
  { split_and!; [vm_compute; repeat constructor; congruence|done|done|by exists 0%nat|simpl; lia]. }
  split; [|done]. split; cbn; try done.
  - intros []; (split; [by apply wf_stride_new|done]).
  - intros v6 u r. split; [|by intros (p & Hp & _)].
    intros H. destruct v6; by apply has_route_new in H.
  - intros r Hr. by apply not_elem_of_nil in Hr.
  - constructor.
Qed.

(** ** Lookup *)

Lemma find_match_route t a ms :
  find_match t a ms =
  match find_route a ms with
  | Some r => v ← table_value t r; Ret (Some v)
  | None => Ret None
  end.
Proof. induction ms as [|[p r] ms IH]; simpl; [done|]. by destruct (contains p a). Qed.

Lemma table_get_spec t a :
  table_ok t -> wf_ip a -> exists o, table_get t a = Ret o /\ longest_match (table_abs t) a o.
Proof.
  intros Hok Ha. unfold table_get.
  change (if is_ipv6 a then t_v6 t else t_v4 t) with (root_of t (is_ipv6 a)).
  destruct (ok_root t Hok (is_ipv6 a)) as [Hwf H0].
  destruct (get_loop_spec (is_ipv6 a) STRIDE_FUEL a true (root_of t (is_ipv6 a)) [])
    as (ms & Eg & Hbest); [done..| |simpl; lia|].
  { rewrite H0. unfold family_bits, STRIDE_FUEL. destruct (is_ipv6 a); lia. }
  rewrite H0, app_nil_r in Eg. change (0 / 8)%nat with 0%nat in Eg. rewrite Eg, run_bind_Ret.
  assert (forall p r, t_routes t !! p = Some r -> contains p a = true ->
    has_route (root_of t (is_ipv6 a)) (pbits p) r /\ pbits p `prefix_of` ip_bits a) as Hcont.
  { intros p r Hr Hc. destruct (ok_prefix t Hok p r Hr) as [Hp _]. apply contains_spec in Hc as [Hf Hb];
      [|done..]. split; [apply (ok_route t Hok); eauto|]. rewrite <- Hb. apply prefix_take. }
  rewrite find_match_route. destruct (find_route a ms) as [r|]; simpl in Hbest.
  - destruct Hbest as (u & Hu & Hux & Hmax). apply (ok_route t Hok) in Hu as (p & Hr & Hf & <-).
    destruct (table_abs_route t p r Hok Hr) as (v & Hv & Habs).
    unfold table_value. rewrite (idx_lookup _ _ _ Hv), run_bind_Ret. eexists. split; [reflexivity|].
    destruct (ok_prefix t Hok p r Hr) as [Hp _]. exists p. split_and!; [done| |].
    + rewrite contains_iff by done. by apply bool_decide_eq_true_2.
    + intros p' v' Habs' Hc'. apply table_abs_Some in Habs' as (r' & Hr' & _); [|done].
      destruct (Hcont p' r' Hr' Hc') as [H1 H2]. specialize (Hmax _ _ H1 H2).
      destruct (ok_prefix t Hok p' r' Hr') as [Hp' _]. by rewrite !length_pbits in Hmax.
  - exists None. split; [done|]. intros p v Habs. apply table_abs_Some in Habs as (r & Hr & _); [|done].
    destruct (contains p a) eqn:Ec; [|done]. destruct (Hcont p r Hr Ec) as [H1 H2].
    by destruct (Hbest _ _ H1).
Qed.

Lemma table_get_prefix_spec t p :
  table_ok t -> table_get_prefix t p = Ret (table_abs t !! masked p).
Proof.
  intros Hok. unfold table_get_prefix. destruct (t_routes t !! masked p) as [r|] eqn:E.
  - destruct (table_abs_route t _ r Hok E) as (v & Hv & ->). unfold table_value.
    by rewrite (idx_lookup _ _ _ Hv).
  - by rewrite table_abs_lookup, E.
Qed.

(** ** Insertion *)

(** A slot not used by any route, holding [v]. *)
Definition allocated (t t' : Table) (v : V) (r : nat) : Prop :=
  (forall p, t_routes t !! p <> Some r) /\
  t_v4 t' = t_v4 t /\ t_v6 t' = t_v6 t /\ t_routes t' = t_routes t /\
  t_values t' !! r = Some (Some v) /\
  (forall p r', t_routes t !! p = Some r' -> t_values t' !! r' = t_values t !! r') /\
  (forall r', r' ∈ t_free_values t' -> t_values t' !! r' = Some None) /\
  NoDup (t_free_values t').

Lemma table_allocate_spec t v :
  table_ok t -> exists t' r, table_allocate t v = Ret (t', r) /\ allocated t t' v r.
Proof.
  intros Hok. unfold table_allocate. pose proof (ok_free t Hok) as Hfree.
  pose proof (ok_free_nodup t Hok) as Hnd. destruct (t_free_values t) as [|r free].
  - eexists _, _. split; [reflexivity|].
    assert (forall p r, t_routes t !! p = Some r -> (r < length (t_values t))%nat) as Hlt.
    { intros p r Hr. destruct (ok_value t Hok p r Hr) as [x Hx]. by apply lookup_lt_Some in Hx. }
    split_and!; cbn; try done.
    + intros p Hr. apply Hlt in Hr. lia.
    + by rewrite lookup_app_r, Nat.sub_diag by lia.
    + intros p r Hr. rewrite lookup_app_l; [done|by eapply Hlt].
    + intros r Hr. by apply not_elem_of_nil in Hr.
  - assert (t_values t !! r = Some None) as Hr by (apply Hfree; left).
    inversion_clear Hnd as [|? ? Hnin Hnd'].
    rewrite (idx_lookup _ _ _ Hr), run_bind_Ret. cbn [is_some negb assert_run]. rewrite run_bind_Ret.
    unfold idx_set. rewrite decide_True by (by apply lookup_lt_Some in Hr).
    rewrite run_bind_Ret. eexists _, _. split; [reflexivity|].
    assert (forall p, t_routes t !! p <> Some r) as Hun.
    { intros p Hp. destruct (ok_value t Hok p r Hp) as [x Hx]. congruence. }
    split_and!; cbn; try done.
    + apply lookup_lt_Some in Hr. by apply list_lookup_insert_eq.
    + intros p r' Hr'. rewrite list_lookup_insert_ne; [done|]. intros <-. by destruct (Hun p).
    + intros r' Hr'. rewrite list_lookup_insert_ne; [apply Hfree; by right|]. by intros <-.
Qed.

Definition set_root (t : Table) (v6 : bool) (s : StrideTable) (rs : gmap IpPrefix nat) : Table :=
  if v6 then with_strides t (t_v4 t) s rs else with_strides t s (t_v6 t) rs.

Lemma set_root_fields t v6 s rs :
  t_routes (set_root t v6 s rs) = rs /\ t_values (set_root t v6 s rs) = t_values t /\
  t_free_values (set_root t v6 s rs) = t_free_values t /\
  forall v6', root_of (set_root t v6 s rs) v6' = if Bool.eqb v6 v6' then s else root_of t v6'.
Proof. destruct v6; (split_and!; [done..|by intros []]). Qed.

Lemma table_install t t1 p v r s :
  table_ok t -> allocated t t1 v r -> wf_prefix p -> masked p = p -> t_routes t !! p = None ->
  root_tree (is_ipv6 (addr p)) s ->
  (forall u r', has_route s u r' <->
     has_route (root_of t (is_ipv6 (addr p))) u r' \/ (u = pbits p /\ r' = r)) ->
  let t2 := set_root t1 (is_ipv6 (addr p)) s (<[p := r]> (t_routes t1)) in
  table_ok t2 /\ table_abs t2 = <[p := v]> (table_abs t).
Proof.
  intros Hok (Hun & E4 & E6 & Er & Hv & Hsame & Hfree & Hnd) Hp Hm Hnew Hs Hrt t2.
  destruct (set_root_fields t1 (is_ipv6 (addr p)) s (<[p := r]> (t_routes t1))) as (F1 & F2 & F3 & F4).
  fold t2 in F1, F2, F3, F4. rewrite Er in F1.
  assert (forall v6, root_of t1 v6 = root_of t v6) as Eroot by (intros []; done).
  split.
  - split.
    + intros v6. rewrite F4. destruct (Bool.eqb _ v6) eqn:E; [by apply Bool.eqb_prop in E as <-|].
      rewrite Eroot. by apply Hok.
    + intros q r'. rewrite F1, lookup_insert_Some. intros [[<- <-]|[_ Hq]]; [done|by eapply ok_prefix].
    + intros v6 u r'. rewrite F4, F1. destruct (Bool.eqb _ v6) eqn:E.
      * apply Bool.eqb_prop in E as <-. rewrite Hrt, (ok_route t Hok). split.
        -- intros [(q & Hq & Hf & Hu)|[-> ->]]; [|exists p; by rewrite lookup_insert_eq].
           exists q. rewrite lookup_insert_ne; [done|]. intros ->. congruence.
        -- intros (q & Hq & Hf & Hu). apply lookup_insert_Some in Hq as [[<- <-]|[_ Hq]]; [by right|].
           left. by exists q.
      * apply Bool.eqb_false_iff in E. rewrite Eroot, (ok_route t Hok). split.
        -- intros (q & Hq & Hf & Hu). exists q. rewrite lookup_insert_ne; [done|]. intros ->. congruence.
        -- intros (q & Hq & Hf & Hu). apply lookup_insert_Some in Hq as [[<- <-]|[_ Hq]]; [done|].
           by exists q.
    + intros q q' r'. rewrite F1, !lookup_insert_Some.
      intros [[<- <-]|[_ Hq]] [[<- E]|[_ Hq']]; [done|by destruct (Hun q')|subst; by destruct (Hun q)|].
      by eapply ok_inj.
    + intros q r'. rewrite F1, F2, lookup_insert_Some. intros [[<- <-]|[_ Hq]]; [eauto|].
      rewrite (Hsame q) by done. by eapply ok_value.
    + intros r'. rewrite F2, F3. apply Hfree.
    + by rewrite F3.
  - apply map_eq. intros q. rewrite table_abs_lookup, F1, F2.
    destruct (decide (q = p)) as [->|Hne].
    + rewrite !lookup_insert_eq. simpl. by rewrite Hv.
    + rewrite !lookup_insert_ne, table_abs_lookup by done.
      destruct (t_routes t !! q) as [r'|] eqn:Eq; simpl; [|done]. by rewrite (Hsame q).
Qed.

(** Overwriting the value of an installed prefix. *)
Lemma table_overwrite t p r v :
  table_ok t -> t_routes t !! p = Some r ->
  let t2 := {| t_v4 := t_v4 t; t_v6 := t_v6 t; t_routes := t_routes t;
               t_values := <[r := Some v]> (t_values t); t_free_values := t_free_values t |} in
  table_ok t2 /\ table_abs t2 = <[p := v]> (table_abs t).
Proof.
  intros Hok Hr t2. destruct (ok_value t Hok p r Hr) as [x Hx]. pose proof (lookup_lt_Some _ _ _ Hx) as Hlt.
  split.
  - destruct Hok as [H1 H2 H3 H4 H5 H6 H7]. split; try done.
    + intros q r' Hq. cbn [t2 t_values]. destruct (decide (r' = r)) as [->|Hne].
      * rewrite list_lookup_insert_eq by done. eauto.
      * rewrite list_lookup_insert_ne by done. by eapply H5.
    + intros r' Hr'. cbn [t2 t_values]. rewrite list_lookup_insert_ne; [by apply H6|].
      intros <-. apply H6 in Hr'. congruence.
  - apply map_eq. intros q. rewrite table_abs_lookup. cbn [t2 t_routes t_values].
    destruct (decide (q = p)) as [->|Hne].
    + rewrite Hr. simpl. by rewrite lookup_insert_eq, list_lookup_insert_eq.
    + rewrite lookup_insert_ne, table_abs_lookup by done.
      destruct (t_routes t !! q) as [r'|] eqn:Eq; simpl; [|done].
      rewrite list_lookup_insert_ne; [done|]. intros <-. apply Hne. symmetry. by eapply ok_inj.
Qed.

Lemma table_insert_spec t p v :
  table_ok t -> wf_prefix p ->
  exists t', table_insert t p v = Ret (t', table_abs t !! masked p) /\ table_ok t' /\
    table_abs t' = <[masked p := v]> (table_abs t).
Proof.
  intros Hok Hp. pose proof (wf_masked p Hp) as Hpm. pose proof (masked_idem p Hp) as Hmm.
  unfold table_insert. generalize dependent (masked p). clear p Hp. intros p Hp Hm.
  destruct (t_routes t !! p) as [r|] eqn:Er.
  - destruct (table_abs_route t p r Hok Er) as (x & Hx & ->).
    rewrite (idx_lookup _ _ _ Hx), run_bind_Ret. unfold idx_set.
    rewrite decide_True by (by apply lookup_lt_Some in Hx). rewrite run_bind_Ret.
    eexists. split; [done|]. by apply table_overwrite.
  - assert (table_abs t !! p = None) as -> by (by rewrite table_abs_lookup, Er).
    destruct (table_allocate_spec t v Hok) as (t1 & r & -> & Hal). rewrite run_bind_Ret. cbn [fst snd].
    pose proof Hal as (Hun & E4 & E6 & Ert & _).
    destruct (insert_into_spec (is_ipv6 (addr p)) (root_of t (is_ipv6 (addr p))) p r)
      as (s & Es & Hs & Hsr); [by apply Hok|done..| |].
    { split.
      - intros u Hu. apply (ok_route t Hok) in Hu as (q & Hq & _). by destruct (Hun q).
      - intros r' Hu. apply (ok_route t Hok) in Hu as (q & Hq & Hf & Hb).
        rewrite (route_prefix_eq t p q r') in Hq by done. congruence. }
    destruct (table_install t t1 p v r s) as [Hok2 Habs2]; [done..|].
    unfold set_root in Hok2, Habs2. unfold root_of in Es. destruct (is_ipv6 (addr p)).
    + rewrite E6, Es, run_bind_Ret. cbn [fst snd]. rewrite bool_decide_eq_true_2 by done.
      eexists. split; [reflexivity|]. done.
    + rewrite E4, Es, run_bind_Ret. cbn [fst snd]. rewrite bool_decide_eq_true_2 by done.
      eexists. split; [reflexivity|]. done.
Qed.

(** ** Deletion *)

(** The table without [p], its slot released. *)
Lemma table_uninstall t p r s :
  table_ok t -> t_routes t !! p = Some r ->
  root_tree (is_ipv6 (addr p)) s ->
  (forall u r', has_route s u r' <->
     has_route (root_of t (is_ipv6 (addr p))) u r' /\ u <> pbits p) ->
  let t1 := set_root t (is_ipv6 (addr p)) s (delete p (t_routes t)) in
  let t2 := {| t_v4 := t_v4 t1; t_v6 := t_v6 t1; t_routes := t_routes t1;
               t_values := <[r := None]> (t_values t1); t_free_values := r :: t_free_values t1 |} in
  table_ok t2 /\ table_abs t2 = delete p (table_abs t).
Proof.
  intros Hok Hr Hs Hrt t1 t2.
  destruct (set_root_fields t (is_ipv6 (addr p)) s (delete p (t_routes t))) as (F1 & F2 & F3 & F4).
  fold t1 in F1, F2, F3, F4. destruct (ok_prefix t Hok p r Hr) as [Hp Hm].
  destruct (ok_value t Hok p r Hr) as [x Hx]. pose proof (lookup_lt_Some _ _ _ Hx) as Hlt.
  assert (forall v6, root_of t2 v6 = root_of t1 v6) as Eroot by (intros []; done).
  assert (forall q r', q <> p -> t_routes t !! q = Some r' -> r' <> r) as Hother.
  { intros q r' Hne Hq ->. apply Hne. by eapply ok_inj. }
  split.
  - split.
    + intros v6. rewrite Eroot, F4. destruct (Bool.eqb _ v6) eqn:E; [by apply Bool.eqb_prop in E as <-|].
      by apply Hok.
    + intros q r'. cbn [t2 t_routes]. rewrite F1, lookup_delete_Some. intros [_ Hq]. by eapply ok_prefix.
    + intros v6 u r'. rewrite Eroot, F4. cbn [t2 t_routes]. rewrite F1. destruct (Bool.eqb _ v6) eqn:E.
      * apply Bool.eqb_prop in E as <-. rewrite Hrt, (ok_route t Hok). split.
        -- intros [(q & Hq & Hf & Hu) Hne]. exists q. rewrite lookup_delete_ne; [done|].
           intros ->. congruence.
        -- intros (q & Hq & Hf & Hu). apply lookup_delete_Some in Hq as [Hne Hq].
           split; [by exists q|]. intros ->. apply Hne. symmetry. by eapply route_prefix_eq.
      * apply Bool.eqb_false_iff in E. rewrite (ok_route t Hok). split.
        -- intros (q & Hq & Hf & Hu). exists q. rewrite lookup_delete_ne; [done|]. intros ->. congruence.
        -- intros (q & Hq & Hf & Hu). apply lookup_delete_Some in Hq as [Hne Hq]. by exists q.
    + intros q q' r'. cbn [t2 t_routes]. rewrite F1, !lookup_delete_Some. intros [_ ?] [_ ?]. by eapply ok_inj.
    + intros q r'. cbn [t2 t_routes t_values]. rewrite F1, F2, lookup_delete_Some. intros [Hne Hq].
      rewrite list_lookup_insert_ne; [by eapply ok_value|]. intros ->. by eapply Hother.
    + intros r'. cbn [t2 t_values t_free_values]. rewrite F2, F3. intros Hin.
      apply elem_of_cons in Hin as [->|Hin]; [by apply list_lookup_insert_eq|].
      apply (ok_free t Hok) in Hin. rewrite list_lookup_insert_ne; [done|]. intros ->. congruence.
    + cbn [t2 t_free_values]. rewrite F3. constructor; [|by apply Hok].
      intros Hin. apply (ok_free t Hok) in Hin. congruence.
  - apply map_eq. intros q. rewrite table_abs_lookup. cbn [t2 t_routes t_values]. rewrite F1, F2.
    destruct (decide (q = p)) as [->|Hne]; [by rewrite !lookup_delete_eq|].
    rewrite !lookup_delete_ne, table_abs_lookup by done.
    destruct (t_routes t !! q) as [r'|] eqn:Eq; simpl; [|done].
    rewrite list_lookup_insert_ne; [done|]. intros ->. by eapply Hother.
Qed.

Lemma table_delete_spec t p :
  table_ok t -> wf_prefix p ->
  exists t', table_delete t p = Ret (t', table_abs t !! masked p) /\ table_ok t' /\
    table_abs t' = delete (masked p) (table_abs t).
Proof.
  intros Hok Hp. unfold table_delete. pose proof (wf_masked p Hp) as Hpm.
  generalize dependent (masked p). clear p Hp. intros p Hp.
  destruct (t_routes t !! p) as [r|] eqn:Er.
  2:{ assert (table_abs t !! p = None) as E by (by rewrite table_abs_lookup, Er).
      exists t. rewrite E. split_and!; [done..|]. by rewrite delete_id. }
  destruct (table_abs_route t p r Hok Er) as (x & Hx & ->).
  destruct (delete_from_spec (is_ipv6 (addr p)) (root_of t (is_ipv6 (addr p))) p r)
    as (s & Es & Hs & Hsr); [by apply Hok|done..| |].
  { apply (ok_route t Hok). eauto. }
  destruct (table_uninstall t p r s) as [Hok2 Habs2]; [done..|].
  match goal with |- context [mbind ?f (if _ then _ else _)] =>
    assert ((if is_ipv6 (addr p) then
             r1 ← delete_from (t_v6 t) p;
             _ ← assert_run (bool_decide (r1.2 = Some r));
             Ret (with_strides t (t_v4 t) r1.1 (delete p (t_routes t)))
           else
             r1 ← delete_from (t_v4 t) p;
             _ ← assert_run (bool_decide (r1.2 = Some r));
             Ret (with_strides t r1.1 (t_v6 t) (delete p (t_routes t)))) =
      Ret (set_root t (is_ipv6 (addr p)) s (delete p (t_routes t)))) as ->
  end.
  { unfold root_of in Es. unfold set_root.
    destruct (is_ipv6 (addr p)); rewrite Es, run_bind_Ret; cbn [fst snd];
      by rewrite bool_decide_eq_true_2. }
  rewrite run_bind_Ret. unfold table_release.
  destruct (set_root_fields t (is_ipv6 (addr p)) s (delete p (t_routes t))) as (_ & F2 & _).
  rewrite <- F2 in Hx. rewrite (idx_lookup _ _ _ Hx), run_bind_Ret. cbn [expect]. rewrite run_bind_Ret.
  unfold idx_set. rewrite decide_True by (by apply lookup_lt_Some in Hx).
  rewrite !run_bind_Ret. eexists. split; [reflexivity|]. done.
Qed.

Lemma table_len_spec t : table_ok t -> table_len t = size (table_abs t).
Proof.
  intros Hok. unfold table_len. rewrite <- !size_dom. f_equal.
  apply set_eq. intros p. rewrite !elem_of_dom. split.
  - intros [r Hr]. destruct (table_abs_route t p r Hok Hr) as (v & _ & Hv). eauto.
  - intros [v Hv]. apply table_abs_Some in Hv as (r & Hr & _); eauto.
Qed.

End table.
Arguments Table : clear implicits.

(** The routing table implements the interface. *)
#[global] Program Instance art_prefix_table (V : Type) : PrefixTable V (Table V) := {|
  pt_new := table_new; pt_insert := table_insert; pt_delete := table_delete; pt_get := table_get;
  pt_ok := table_ok; pt_abs := table_abs |}.
Next Obligation. intros V. apply table_new_ok. Qed.
Next Obligation. intros V t p v. apply table_insert_spec. Qed.
Next Obligation. intros V t p. apply table_delete_spec. Qed.
Next Obligation. intros V t a. apply table_get_spec. Qed.

(** ** Histories

    A sequence of calls on a table, with their results, against the same
    sequence on a finite map. *)

Inductive table_op (V : Type) : Type :=
| OpInsert (p : IpPrefix) (v : V)
| OpDelete (p : IpPrefix)
| OpGetPrefix (p : IpPrefix)
| OpClear.
Arguments OpInsert {V}.
Arguments OpDelete {V}.
Arguments OpGetPrefix {V}.
Arguments OpClear {V}.

Definition op_wf {V} (o : table_op V) : Prop :=
  match o with
  | OpInsert p _ | OpDelete p | OpGetPrefix p => wf_prefix p
  | OpClear => True
  end.

#[global] Instance op_wf_dec {V} (o : table_op V) : Decision (op_wf o).
Proof. destruct o; apply _. Defined.

Section history.
Context {V : Type}.

Definition table_step (t : Table V) (o : table_op V) : run (Table V * option V) :=
  match o with
  | OpInsert p v => table_insert t p v
  | OpDelete p => table_delete t p
  | OpGetPrefix p => v ← table_get_prefix t p; Ret (t, v)
  | OpClear => Ret (table_clear t, None)
  end.

Fixpoint run_table (t : Table V) (ops : list (table_op V)) : run (Table V * list (option V)) :=
  match ops with
  | [] => Ret (t, [])
  | o :: ops => r ← table_step t o; r' ← run_table r.1 ops; Ret (r'.1, r.2 :: r'.2)
  end.

Definition map_step (m : gmap IpPrefix V) (o : table_op V) : gmap IpPrefix V * option V :=
  match o with
  | OpInsert p v => (<[masked p := v]> m, m !! masked p)
  | OpDelete p => (delete (masked p) m, m !! masked p)
  | OpGetPrefix p => (m, m !! masked p)
  | OpClear => (∅, None)
  end.

Fixpoint run_map (m : gmap IpPrefix V) (ops : list (table_op V)) : gmap IpPrefix V * list (option V) :=
  match ops with
  | [] => (m, [])
  | o :: ops => let r := map_step m o in let r' := run_map r.1 ops in (r'.1, r.2 :: r'.2)
  end.

Lemma table_step_spec t o :
  table_ok t -> op_wf o ->
  exists t', table_step t o = Ret (t', (map_step (table_abs t) o).2) /\ table_ok t' /\
    table_abs t' = (map_step (table_abs t) o).1.
Proof.
  intros Hok Ho. destruct o as [p v|p|p|]; cbn.
  - by apply table_insert_spec.
  - by apply table_delete_spec.
  - rewrite table_get_prefix_spec by done. eauto.
  - eexists. split; [done|]. apply table_new_ok.
Qed.

Lemma run_table_spec ops : forall t,
  table_ok t -> Forall op_wf ops ->
  exists t', run_table t ops = Ret (t', (run_map (table_abs t) ops).2) /\ table_ok t' /\
    table_abs t' = (run_map (table_abs t) ops).1.
Proof.
  induction ops as [|o ops IH]; intros t Hok Hw; cbn; [eauto|].
  inversion_clear Hw as [|? ? Ho Hops].
  destruct (table_step_spec t o Hok Ho) as (t1 & -> & Hok1 & <-). rewrite run_bind_Ret. cbn [fst snd].
  destruct (IH t1 Hok1 Hops) as (t2 & -> & Hok2 & <-). rewrite run_bind_Ret. eauto.
Qed.

(** C2. The routing table refines a finite map with longest-prefix match: after
    any sequence of insertions, deletions, exact lookups and clears starting
    from an empty table, no call has panicked, every call returned what the
    same call on a map from masked prefixes to values returns, [len] is the
    size of that map, and [get] returns the value of the longest installed
    prefix containing the address, or [None] when none contains it. *)
Theorem art_table_refines_map (ops : list (table_op V)) :
  Forall op_wf ops ->
  exists t, run_table table_new ops = Ret (t, (run_map ∅ ops).2) /\
    table_len t = size (run_map ∅ ops).1 /\
    forall a, wf_ip a -> exists o, table_get t a = Ret o /\ longest_match (run_map ∅ ops).1 a o.
Proof.
  intros Hw. destruct (table_new_ok (V := V)) as [Hok Habs].
  destruct (run_table_spec ops table_new Hok Hw) as (t & Et & Ht & Ea). rewrite Habs in Et, Ea.
  exists t. rewrite <- Ea. split_and!; [done|by apply table_len_spec|].
  intros a Ha. by apply table_get_spec.
Qed.

End history.

Example table_example :
  let p1 := {| addr := V4 [10; 0; 0; 0]; bits := 8 |} in
  let p2 := {| addr := V4 [10; 1; 2; 0]; bits := 24 |} in
  let p3 := {| addr := V4 [10; 2; 3; 0]; bits := 24 |} in
  (r1 ← table_insert table_new p1 100%nat;
   r2 ← table_insert r1.1 p2 200%nat;
   r3 ← table_insert r2.1 p3 300%nat;
   a ← table_get r3.1 (V4 [10; 1; 2; 9]);
   b ← table_get r3.1 (V4 [10; 1; 9; 9]);
   r4 ← table_delete r3.1 p2;
   c ← table_get r4.1 (V4 [10; 1; 2; 9]);
   d ← table_get r4.1 (V4 [10; 2; 3; 9]);
   Ret (a, b, c, d, r4.2, table_num_strides r3.1, table_num_strides r4.1))
  = Ret (Some 200%nat, Some 100%nat, Some 100%nat, Some 300%nat, Some 200%nat, 5%nat, 3%nat).
Proof. vm_compute. reflexivity. Qed.

Lemma art_table_refines_map_witness :
  let ops := [OpInsert {| addr := V4 [10; 0; 0; 0]; bits := 8 |} 1%nat;
              OpInsert {| addr := V4 [10; 1; 2; 77]; bits := 24 |} 2%nat;
              OpInsert {| addr := V4 [10; 2; 3; 0]; bits := 24 |} 3%nat;
              OpDelete {| addr := V4 [10; 1; 2; 0]; bits := 24 |};
              OpGetPrefix {| addr := V4 [10; 2; 3; 0]; bits := 24 |}] in
  Forall op_wf ops /\
  exists t, run_table table_new ops = Ret (t, [None; None; None; Some 2%nat; Some 3%nat]) /\
    table_len t = 2%nat /\
    forall a, wf_ip a -> exists o, table_get t a = Ret o /\ longest_match (run_map ∅ ops).1 a o.
Proof.
  intros ops. assert (Forall op_wf ops) as Hw.
  { apply (bool_decide_unpack (Forall op_wf ops)). vm_compute. exact I. }
  split; [exact Hw|]. exact (art_table_refines_map ops Hw).
Defined.
