(* ===== verification/IpSet.v ===== *)
(** * Address-set predicates: [crates/ipset/src/lib.rs]

    [new_contains_ip_func] picks one of seven representations of a list of
    prefixes.  Whichever it picks, the predicate is membership in some prefix
    of the list.  The table representation is reasoned about through the
    [PrefixTable] interface and instantiated with the routing table. *)

From S2P Require Import Prelude Bytes Bits IpAddr ArtPrefix PrefixTable Stride ArtTree ArtTable.

Section ipset.
Context {T : Type} `{PrefixTable unit T}.

Inductive Strategy : Type :=
| Empty
| OnePrefix (p : IpPrefix)
| Linear (ps : list IpPrefix)
| Tbl (t : T)
| OneIp (a : IpAddr)
| TwoIp (a b : IpAddr)
| IpMap (s : gset IpAddr).

(** [is_single_ip]. *)
Definition is_single_ip (p : IpPrefix) : bool :=
  (bits p =? if is_ipv4 (addr p) then 32 else 128)%nat.

(** [Strategy::contains]. *)
Definition strategy_contains (s : Strategy) (a : IpAddr) : run bool :=
  match s with
  | Empty => Ret false
  | OnePrefix p => Ret (contains p a)
  | Linear ps => Ret (existsb (fun p => contains p a) ps)
  | Tbl t => o ← pt_get t a; Ret (match o with Some _ => true | None => false end)
  | OneIp f => Ret (bool_decide (a = f))
  | TwoIp f s => Ret (bool_decide (a = f) || bool_decide (a = s))
  | IpMap s => Ret (bool_decide (a ∈ s))
  end.

(** The loop that fills the table. *)
Fixpoint insert_all (t : T) (ps : list IpPrefix) : run T :=
  match ps with
  | [] => Ret t
  | p :: ps => r ← pt_insert t p tt; insert_all r.1 ps
  end.

(** [false_contains_ip_func]. *)
Definition false_contains_ip_func : Strategy := Empty.

(** [new_contains_ip_func]. *)
Definition new_contains_ip_func (ps : list IpPrefix) : run Strategy :=
  if (length ps =? 0)%nat then Ret Empty
  else if existsb (fun p => negb (is_single_ip p)) ps then
    match ps with
    | [p] => Ret (OnePrefix p)
    | _ =>
        if (length ps <=? 6)%nat then Ret (Linear ps)
        else t ← insert_all pt_new ps; Ret (Tbl t)
    end
  else
    match ps with
    | [p] => Ret (OneIp (addr p))
    | [p; q] => Ret (TwoIp (addr p) (addr q))
    | _ => Ret (IpMap (list_to_set (map addr ps)))
    end.

Lemma single_ip_contains p a :
  wf_prefix p -> wf_ip a -> is_single_ip p = true -> contains p a = bool_decide (a = addr p).
Proof.
  intros Hp Ha Hs. assert (bits p = bit_len (addr p)) as Hb.
  { unfold is_single_ip, bit_len, is_ipv6 in *. apply Nat.eqb_eq in Hs.
    by destruct (is_ipv4 (addr p)). }
  apply Bool.eq_iff_eq_true. rewrite contains_spec, bool_decide_eq_true by done.
  unfold pbits. rewrite Hb, (take_ge (ip_bits (addr p))).
  2:{ rewrite length_ip_bits, bit_len_addr_len by apply Hp. done. }
  split; [|intros ->; split; [done|]].
  - intros [Hf E]. apply ip_bits_inj; [done|apply Hp|by apply is_ipv4_ipv6|].
    rewrite take_ge in E; [done|]. rewrite length_ip_bits by done.
    rewrite bit_len_addr_len. apply is_ipv4_ipv6 in Hf. unfold addr_len. by rewrite Hf.
  - apply take_ge. rewrite length_ip_bits, bit_len_addr_len by done. done.
Qed.

(** The keys of the table built from [ps] are the masked prefixes of [ps]. *)
Lemma insert_all_spec ps : forall t,
  pt_ok t -> Forall wf_prefix ps ->
  exists t', insert_all t ps = Ret t' /\ pt_ok t' /\
    forall p, is_Some (pt_abs t' !! p) <-> is_Some (pt_abs t !! p) \/ p ∈ map masked ps.
Proof.
  induction ps as [|q ps IH]; intros t Ht Hw; simpl.
  { exists t. split_and!; [done..|]. intros p. rewrite elem_of_nil. tauto. }
  inversion_clear Hw as [|? ? Hq Hps].
  destruct (pt_insert_ok t q tt Ht Hq) as (t1 & -> & Ht1 & Ha1). rewrite run_bind_Ret. cbn [fst].
  destruct (IH t1 Ht1 Hps) as (t2 & -> & Ht2 & Ha2). exists t2. split_and!; [done..|].
  intros p. rewrite Ha2, Ha1, lookup_insert_is_Some', elem_of_cons. split; intros; intuition congruence.
Qed.

Lemma contains_masked p a :
  wf_prefix p -> wf_ip a -> contains (masked p) a = contains p a.
Proof.
  intros Hp Ha. apply Bool.eq_iff_eq_true. rewrite !contains_spec by auto with wf.
  by rewrite masked_family, masked_bits, pbits_masked.
Qed.

(** A longest match exists exactly when some prefix contains the address. *)
Lemma table_contains t ps a :
  pt_ok t -> Forall wf_prefix ps -> wf_ip a ->
  (forall p, is_Some (pt_abs t !! p) <-> p ∈ map masked ps) ->
  strategy_contains (Tbl t) a = Ret (existsb (fun p => contains p a) ps).
Proof.
  intros Ht Hps Ha Habs. simpl. destruct (pt_get_ok t a Ht Ha) as (o & -> & Ho). rewrite run_bind_Ret.
  rewrite Forall_forall in Hps. f_equal. symmetry. destruct o as [v|]; simpl in Ho.
  - destruct Ho as (p & Hp & Hc & _). apply existsb_exists.
    assert (p ∈ map masked ps) as Hin by (apply Habs; eauto).
    apply list_elem_of_fmap in Hin as (q & -> & Hq). apply list_elem_of_In in Hq as Hq'.
    exists q. split; [done|]. rewrite <- contains_masked; [done|by apply Hps|done].
  - apply Bool.not_true_iff_false. intros Hex. apply existsb_exists in Hex as (q & Hq & Hc).
    apply list_elem_of_In in Hq as Hq'.
    assert (is_Some (pt_abs t !! masked q)) as [v Hv].
    { apply Habs, list_elem_of_fmap. eauto. }
    specialize (Ho _ _ Hv). rewrite contains_masked in Ho by (done || by apply Hps). congruence.
Qed.

Lemma existsb_single ps a :
  Forall wf_prefix ps -> wf_ip a -> Forall (fun p => is_single_ip p = true) ps ->
  existsb (fun p => contains p a) ps = bool_decide (a ∈ map addr ps).
Proof.
  intros Hw Ha Hs. induction ps as [|p ps IH]; simpl; [done|].
  inversion_clear Hw. inversion_clear Hs. rewrite IH, single_ip_contains by done.
  apply Bool.eq_iff_eq_true. rewrite orb_true_iff, !bool_decide_eq_true, elem_of_cons. done.
Qed.

Lemma new_contains_ip_func_spec ps a :
  Forall wf_prefix ps -> wf_ip a ->
  (s ← new_contains_ip_func ps; strategy_contains s a) = Ret (existsb (fun p => contains p a) ps).
Proof.
  intros Hw Ha. unfold new_contains_ip_func.
  destruct (Nat.eqb_spec (length ps) 0) as [E|E]; [by destruct ps|].
  destruct (existsb (fun p => negb (is_single_ip p)) ps) eqn:Hex.
  - destruct ps as [|p [|q ps]]; [done|by rewrite run_bind_Ret; simpl; rewrite orb_false_r|].
    set (l := p :: q :: ps) in *. destruct (Nat.leb_spec (length l) 6); [done|].
    destruct (insert_all_spec l pt_new) as (t & -> & Ht & Habs); [apply pt_new_ok|done|].
    rewrite !run_bind_Ret. apply table_contains; [done..|]. intros r. rewrite Habs.
    destruct pt_new_ok as [_ ->]. rewrite lookup_empty. split; [|by right].
    intros [[]|]; done.
  - assert (Forall (fun p => is_single_ip p = true) ps) as Hs.
    { apply Forall_forall. intros p Hp. destruct (is_single_ip p) eqn:Es; [done|].
      assert (existsb (fun p => negb (is_single_ip p)) ps = true); [|congruence].
      apply existsb_exists. exists p. apply list_elem_of_In in Hp as Hp'. by rewrite Es. }
    rewrite existsb_single by done. destruct ps as [|p [|q [|r ps]]]; [done|..]; rewrite run_bind_Ret.
    + simpl. f_equal. apply bool_decide_ext. rewrite elem_of_cons, elem_of_nil. tauto.
    + simpl. f_equal. apply Bool.eq_iff_eq_true.
      rewrite orb_true_iff, !bool_decide_eq_true, !elem_of_cons, elem_of_nil. tauto.
    + cbn [strategy_contains]. f_equal. apply bool_decide_ext. by rewrite elem_of_list_to_set.
Qed.

End ipset.
Arguments Strategy : clear implicits.

(** The predicate [new_contains_ip_func] builds, whichever of its seven
    representations it picks (the routing table included), never panics and
    reports exactly whether some prefix of the list contains the address. *)
Theorem contains_ip_func_correct (ps : list IpPrefix) (a : IpAddr) :
  Forall wf_prefix ps -> wf_ip a ->
  exists s : Strategy (Table unit), new_contains_ip_func ps = Ret s /\
    strategy_contains s a = Ret (existsb (fun p => contains p a) ps).
Proof.
  intros Hw Ha. pose proof (new_contains_ip_func_spec (T := Table unit) ps a Hw Ha) as E.
  apply run_bind_inv in E as (s & Es & Hs). eauto.
Qed.

Lemma contains_ip_func_correct_witness :
  let net a b c d n := {| addr := V4 [a; b; c; d]; bits := n |} in
  let ps := [net 10 0 0 0 8%nat; net 10 1 0 0 16%nat; net 100 64 0 0 10%nat; net 192 168 1 7 32%nat;
             net 172 16 0 0 12%nat; net 1 2 3 4 32%nat; net 8 8 8 0 24%nat] in
  let a := V4 [100; 100; 7; 9] in
  (Forall wf_prefix ps /\ wf_ip a) /\
  exists s : Strategy (Table unit), new_contains_ip_func ps = Ret s /\ strategy_contains s a = Ret true.
Proof.
  intros net ps a.
  assert (Forall wf_prefix ps) as Hps
    by (apply (bool_decide_unpack (Forall wf_prefix ps)); vm_compute; exact I).
  assert (wf_ip a) as Ha by (apply (bool_decide_unpack (wf_ip a)); vm_compute; exact I).
  split; [exact (conj Hps Ha)|]. exact (contains_ip_func_correct ps a Hps Ha).
Defined.
