(* ===== verification/FlowTrack.v ===== *)
(** * Flow tuples and the LRU flow cache: [crates/flowtrack/src/lib.rs]

    [Tuple] packs a flow with both addresses as sixteen octets.  [Cache] is an
    LRU cache: a hash map from tuples to slots of a vector whose occupied slots
    form a doubly linked list, and a stack of free slots.  The invariant
    [cache_rep] ties the three together and to the list of entries from most
    to least recently used, and every operation is proved to implement its
    counterpart on that list. *)

From S2P Require Import Prelude Bytes IpAddr.

(** ** Tuples *)

(** [mapped_octets]. *)
Definition mapped_octets (a : IpAddr) : list Z :=
  match a with
  | V4 o => to_ipv6_mapped o
  | V6 o => o
  end.

(** [unmapped_addr]. *)
Definition unmapped_addr (o : list Z) : IpAddr :=
  match to_ipv4_mapped o with
  | Some o4 => V4 o4
  | None => V6 o
  end.

Record Tuple : Type := {
  tu_src : list Z; tu_dst : list Z; tu_src_port : Z; tu_dst_port : Z; tu_proto : Z }.

#[global] Instance Tuple_eq_dec : EqDecision Tuple.
Proof. solve_decision. Defined.
#[global] Instance Tuple_countable : Countable Tuple.
Proof.
  refine (inj_countable' (fun t => (tu_src t, tu_dst t, tu_src_port t, tu_dst_port t, tu_proto t))
    (fun '(s, d, sp, dp, p) =>
       {| tu_src := s; tu_dst := d; tu_src_port := sp; tu_dst_port := dp; tu_proto := p |}) _).
  by intros [].
Defined.

(** [Tuple::new]. *)
Definition tuple_new (proto : Z) (src dst : SocketAddr) : Tuple :=
  {| tu_src := mapped_octets (ip src); tu_dst := mapped_octets (ip dst);
     tu_src_port := port src; tu_dst_port := port dst; tu_proto := proto |}.

(** [Tuple::src_addr] and [Tuple::dst_addr]. *)
Definition src_addr (t : Tuple) : IpAddr := unmapped_addr (tu_src t).
Definition dst_addr (t : Tuple) : IpAddr := unmapped_addr (tu_dst t).

(** ** The cache *)

Section cache.
Context {V : Type}.

Record Node : Type := { n_key : Tuple; n_value : V; n_prev : option nat; n_next : option nat }.

Record Cache : Type := {
  c_max_entries : nat;
  c_entries : gmap Tuple nat;
  c_nodes : list (option Node);
  c_free : list nat;
  c_front : option nat;
  c_back : option nat }.

(** [Cache::default]; callers set [max_entries].  [free] is a stack, its top
    at the head. *)
Definition cache_default (max : nat) : Cache :=
  {| c_max_entries := max; c_entries := ∅; c_nodes := []; c_free := [];
     c_front := None; c_back := None |}.

(** Field updates. *)
Definition set_nodes (c : Cache) (ns : list (option Node)) : Cache :=
  {| c_max_entries := c_max_entries c; c_entries := c_entries c; c_nodes := ns;
     c_free := c_free c; c_front := c_front c; c_back := c_back c |}.
Definition set_front (c : Cache) (f : option nat) : Cache :=
  {| c_max_entries := c_max_entries c; c_entries := c_entries c; c_nodes := c_nodes c;
     c_free := c_free c; c_front := f; c_back := c_back c |}.
Definition set_back (c : Cache) (b : option nat) : Cache :=
  {| c_max_entries := c_max_entries c; c_entries := c_entries c; c_nodes := c_nodes c;
     c_free := c_free c; c_front := c_front c; c_back := b |}.
Definition set_entries (c : Cache) (m : gmap Tuple nat) : Cache :=
  {| c_max_entries := c_max_entries c; c_entries := m; c_nodes := c_nodes c;
     c_free := c_free c; c_front := c_front c; c_back := c_back c |}.
Definition set_free (c : Cache) (f : list nat) : Cache :=
  {| c_max_entries := c_max_entries c; c_entries := c_entries c; c_nodes := c_nodes c;
     c_free := f; c_front := c_front c; c_back := c_back c |}.
Definition set_prev (n : Node) (p : option nat) : Node :=
  {| n_key := n_key n; n_value := n_value n; n_prev := p; n_next := n_next n |}.
Definition set_next (n : Node) (p : option nat) : Node :=
  {| n_key := n_key n; n_value := n_value n; n_prev := n_prev n; n_next := p |}.
Definition set_value (n : Node) (v : V) : Node :=
  {| n_key := n_key n; n_value := v; n_prev := n_prev n; n_next := n_next n |}.

(** [nodes[index].as_ref().expect(..)] and an update through [as_mut]. *)
Definition node_at (c : Cache) (i : nat) : run Node := o ← idx (c_nodes c) i; expect o.
Definition upd_node (c : Cache) (i : nat) (f : Node -> Node) : run Cache :=
  n ← node_at c i; ns ← idx_set (c_nodes c) i (Some (f n)); Ret (set_nodes c ns).

(** [Cache::len]. *)
Definition cache_len (c : Cache) : nat := size (c_entries c).

(** [Cache::allocate_node]. *)
Definition allocate_node (c : Cache) (k : Tuple) (v : V) : run (Cache * nat) :=
  let node := {| n_key := k; n_value := v; n_prev := None; n_next := None |} in
  match c_free c with
  | i :: free =>
      ns ← idx_set (c_nodes c) i (Some node);
      Ret (set_free (set_nodes c ns) free, i)
  | [] => Ret (set_nodes c (c_nodes c ++ [Some node]), length (c_nodes c))
  end.

(** [Cache::push_front]. *)
Definition push_front (c : Cache) (i : nat) : run Cache :=
  let old_front := c_front c in
  c ← upd_node c i (fun n => set_next (set_prev n None) old_front);
  c ← match old_front with
      | Some f => upd_node c f (fun n => set_prev n (Some i))
      | None => Ret (set_back c (Some i))
      end;
  Ret (set_front c (Some i)).

(** [Cache::unlink]. *)
Definition unlink (c : Cache) (i : nat) : run Cache :=
  n ← node_at c i;
  let prev := n_prev n in
  let next := n_next n in
  c ← match prev with
      | Some p => upd_node c p (fun n => set_next n next)
      | None => Ret (set_front c next)
      end;
  match next with
  | Some x => upd_node c x (fun n => set_prev n prev)
  | None => Ret (set_back c prev)
  end.

(** [Cache::move_to_front]. *)
Definition move_to_front (c : Cache) (i : nat) : run Cache :=
  if bool_decide (c_front c = Some i) then Ret c
  else c ← unlink c i; push_front c i.

(** [Cache::remove_index]. *)
Definition remove_index (c : Cache) (i : nat) : run Cache :=
  n ← node_at c i;
  c ← unlink c i;
  let c := set_entries c (delete (n_key n) (c_entries c)) in
  ns ← idx_set (c_nodes c) i None;
  let c := set_nodes c ns in
  Ret (set_free c (i :: c_free c)).

(** [Cache::remove_oldest]. *)
Definition remove_oldest (c : Cache) : run Cache :=
  match c_back c with
  | Some i => remove_index c i
  | None => Ret c
  end.

(** [Cache::remove]. *)
Definition cache_remove (c : Cache) (k : Tuple) : run Cache :=
  match c_entries c !! k with
  | Some i => remove_index c i
  | None => Ret c
  end.

(** [Cache::get]. *)
Definition cache_get (c : Cache) (k : Tuple) : run (Cache * option V) :=
  match c_entries c !! k with
  | None => Ret (c, None)
  | Some i => c ← move_to_front c i; n ← node_at c i; Ret (c, Some (n_value n))
  end.

(** [Cache::get_mut], the caller replacing the value it borrows by its image
    under [f]. *)
Definition cache_get_mut (c : Cache) (k : Tuple) (f : V -> V) : run (Cache * option V) :=
  match c_entries c !! k with
  | None => Ret (c, None)
  | Some i =>
      c ← move_to_front c i;
      n ← node_at c i;
      c ← upd_node c i (fun n => set_value n (f (n_value n)));
      Ret (c, Some (n_value n))
  end.

(** [Cache::add]. *)
Definition cache_add (c : Cache) (k : Tuple) (v : V) : run Cache :=
  match c_entries c !! k with
  | Some i =>
      c ← upd_node c i (fun n => set_value n v);
      move_to_front c i
  | None =>
      r ← allocate_node c k v;
      let c := set_entries r.1 (<[k := r.2]> (c_entries r.1)) in
      c ← push_front c r.2;
      if negb (c_max_entries c =? 0)%nat && (c_max_entries c <? cache_len c)%nat
      then remove_oldest c else Ret c
  end.

(** ** Linked segments *)

Definition hd_or (o : list nat) (nxt : option nat) : option nat :=
  match o with [] => nxt | i :: _ => Some i end.
Fixpoint last_or (prv : option nat) (o : list nat) : option nat :=
  match o with [] => prv | i :: o' => last_or (Some i) o' end.

(** The slots [o] hold the entries [l], linked from [prv] to [nxt]. *)
Fixpoint chain (ns : list (option Node)) (prv : option nat) (o : list nat) (nxt : option nat)
    (l : list (Tuple * V)) : Prop :=
  match o, l with
  | [], [] => True
  | i :: o', (k, v) :: l' =>
      ns !! i = Some (Some {| n_key := k; n_value := v; n_prev := prv; n_next := hd_or o' nxt |}) /\
      chain ns (Some i) o' nxt l'
  | _, _ => False
  end.

Lemma last_or_app prv o1 o2 : last_or prv (o1 ++ o2) = last_or (last_or prv o1) o2.
Proof. revert prv. induction o1 as [|i o1 IH]; intros prv; simpl; [done|apply IH]. Qed.

Lemma hd_or_app o1 o2 nxt : hd_or (o1 ++ o2) nxt = hd_or o1 (hd_or o2 nxt).
Proof. by destruct o1. Qed.

Lemma chain_app ns prv o1 o2 nxt l1 l2 :
  length o1 = length l1 ->
  chain ns prv (o1 ++ o2) nxt (l1 ++ l2) <->
  chain ns prv o1 (hd_or o2 nxt) l1 /\ chain ns (last_or prv o1) o2 nxt l2.
Proof.
  revert prv l1. induction o1 as [|i o1 IH]; intros prv [|[k v] l1] Hl; simpl in Hl; try done.
  - simpl. tauto.
  - simpl. rewrite IH by lia. rewrite hd_or_app. tauto.
Qed.

Lemma chain_length ns prv o nxt l : chain ns prv o nxt l -> length o = length l.
Proof.
  revert prv l. induction o as [|i o IH]; intros prv [|[k v] l]; simpl; try done.
  intros [_ H]. f_equal. eauto.
Qed.

Lemma chain_frame ns ns' prv o nxt l :
  (forall i, i ∈ o -> ns' !! i = ns !! i) -> chain ns prv o nxt l -> chain ns' prv o nxt l.
Proof.
  revert prv l. induction o as [|i o IH]; intros prv [|[k v] l] Hs; simpl; try done.
  intros [H1 H2]. split; [by rewrite Hs by left|]. apply IH; [|done]. intros j Hj. apply Hs. by right.
Qed.

Lemma chain_insert ns i x prv o nxt l :
  i ∉ o -> chain ns prv o nxt l -> chain (<[i := x]> ns) prv o nxt l.
Proof. intros Hi. apply chain_frame. intros j Hj. apply list_lookup_insert_ne. by intros ->. Qed.

(** The slots of a segment are occupied. *)
Lemma chain_lookup ns prv o nxt l i :
  chain ns prv o nxt l -> i ∈ o -> exists n, ns !! i = Some (Some n).
Proof.
  revert prv l. induction o as [|j o IH]; intros prv [|[k v] l] H Hi; simpl in H; try done.
  - by apply elem_of_nil in Hi.
  - apply elem_of_cons in Hi as [->|Hi]; [destruct H; eauto|]. destruct H as [_ H]. eauto.
Qed.

(** Redirecting the first slot's back link. *)
Lemma chain_set_prev ns prv prv' j o nxt l :
  chain ns prv (j :: o) nxt l -> j ∉ o ->
  exists n, ns !! j = Some (Some n) /\ chain (<[j := Some (set_prev n prv')]> ns) prv' (j :: o) nxt l.
Proof.
  intros H Hj. destruct l as [|[k v] l]; [done|]. destruct H as [H1 H2]. eexists. split; [exact H1|].
  split; [|by apply chain_insert]. by rewrite list_lookup_insert_eq by (by apply lookup_lt_Some in H1).
Qed.

(** Redirecting the last slot's forward link. *)
Lemma chain_set_next ns prv j o nxt nxt' l :
  chain ns prv (o ++ [j]) nxt l -> j ∉ o ->
  exists n, ns !! j = Some (Some n) /\ chain (<[j := Some (set_next n nxt')]> ns) prv (o ++ [j]) nxt' l.
Proof.
  intros H Hj. pose proof (chain_length _ _ _ _ _ H) as Hl. rewrite length_app in Hl. simpl in Hl.
  destruct l as [|[k v] l _] using rev_ind; [simpl in Hl; lia|].
  rewrite length_app in Hl. simpl in Hl. apply chain_app in H as [H1 H2]; [|lia].
  simpl in H2. destruct H2 as [H2 _]. eexists. split; [exact H2|].
  apply chain_app; [lia|]. split; [by apply chain_insert|]. simpl. split; [|done].
  by rewrite list_lookup_insert_eq by (by apply lookup_lt_Some in H2).
Qed.

(** The slots [o] of the cache form the list of the entries [l]. *)
Record linked (c : Cache) (o : list nat) (l : list (Tuple * V)) : Prop := {
  lk_chain : chain (c_nodes c) None o None l;
  lk_front : c_front c = hd_or o None;
  lk_back : c_back c = last_or None o }.

(** Only links and [front]/[back] differ: the slots outside [o] are untouched. *)
Record relinked (c c' : Cache) (o : list nat) : Prop := {
  rl_max : c_max_entries c' = c_max_entries c;
  rl_entries : c_entries c' = c_entries c;
  rl_free : c_free c' = c_free c;
  rl_nodes : forall j, j ∉ o -> c_nodes c' !! j = c_nodes c !! j }.

Lemma node_at_ok c i n : c_nodes c !! i = Some (Some n) -> node_at c i = Ret n.
Proof. intros H. unfold node_at. by rewrite (idx_lookup _ _ _ H). Qed.

Lemma upd_node_ok c i n f :
  c_nodes c !! i = Some (Some n) ->
  upd_node c i f = Ret (set_nodes c (<[i := Some (f n)]> (c_nodes c))).
Proof.
  intros H. unfold upd_node. rewrite (node_at_ok _ _ _ H), run_bind_Ret. unfold idx_set.
  by rewrite decide_True by (by apply lookup_lt_Some in H).
Qed.

Lemma push_front_spec c i n o l :
  linked c o l -> NoDup o -> i ∉ o -> c_nodes c !! i = Some (Some n) ->
  exists c', push_front c i = Ret c' /\ linked c' (i :: o) ((n_key n, n_value n) :: l) /\
    relinked c c' (i :: o).
Proof.
  intros [Hch Hf Hb] Hnd Hi Hn. pose proof (lookup_lt_Some _ _ _ Hn) as Hlt.
  unfold push_front. rewrite (upd_node_ok _ _ _ _ Hn), run_bind_Ret, Hf.
  set (n1 := set_next (set_prev n None) (hd_or o None)).
  pose proof (chain_insert _ i (Some n1) _ _ _ _ Hi Hch) as Hch1.
  set (ns1 := <[i := Some n1]> (c_nodes c)) in *.
  assert (ns1 !! i = Some (Some n1)) as Hi1 by (by apply list_lookup_insert_eq).
  destruct o as [|f o]; cbn [hd_or] in *.
  - rewrite run_bind_Ret. destruct l; [|done]. eexists. split; [reflexivity|]. split; [by split|].
    split; try done. intros j Hj. cbn. apply list_lookup_insert_ne. intros ->. apply Hj. left.
  - apply list.NoDup_cons in Hnd as [Hfo Hnd].
    destruct (chain_set_prev _ _ (Some i) _ _ _ _ Hch1 Hfo) as (nf & Hnf & Hch2).
    rewrite (upd_node_ok (set_nodes c ns1) f nf) by done. rewrite run_bind_Ret.
    eexists. split; [reflexivity|]. split; [split; [|done|done]|].
    + split; [|exact Hch2]. cbn. rewrite list_lookup_insert_ne; [exact Hi1|]. intros ->. apply Hi. left.
    + split; try done. intros j Hj. cbn. rewrite list_lookup_insert_ne by set_solver.
      apply list_lookup_insert_ne. set_solver.
Qed.

Lemma last_or_snoc prv o j : last_or prv (o ++ [j]) = Some j.
Proof. by rewrite last_or_app. Qed.

Lemma unlink_spec c i k v o1 o2 l1 l2 :
  linked c (o1 ++ i :: o2) (l1 ++ (k, v) :: l2) -> NoDup (o1 ++ i :: o2) -> length o1 = length l1 ->
  exists c', unlink c i = Ret c' /\ linked c' (o1 ++ o2) (l1 ++ l2) /\ relinked c c' (o1 ++ o2).
Proof.
  intros [Hch Hf Hb] Hnd Hl. apply list.NoDup_app in Hnd as (Hnd1 & Hdis & Hnd2).
  apply list.NoDup_cons in Hnd2 as [Hi2 Hnd2].
  apply chain_app in Hch as [H1 [Hn H2]]; [|done]. cbn [hd_or] in H1.
  set (nxt := hd_or o2 None) in *. set (prv := last_or None o1) in *.
  unfold unlink. rewrite (node_at_ok _ _ _ Hn), run_bind_Ret. cbn [n_prev n_next].
  assert (exists c1, match prv with
      | Some p => upd_node c p (fun n => set_next n nxt) | None => Ret (set_front c nxt) end = Ret c1 /\
      chain (c_nodes c1) None o1 nxt l1 /\ chain (c_nodes c1) (Some i) o2 None l2 /\
      c_front c1 = hd_or (o1 ++ o2) None /\ c_back c1 = c_back c /\ relinked c c1 o1)
    as (c1 & -> & Hc1 & Hc2 & Hf1 & Hb1 & Hr1).
  { destruct o1 as [|p o1 _] using rev_ind.
    - exists (set_front c nxt). by split_and!.
    - subst prv. rewrite last_or_snoc. apply list.NoDup_app in Hnd1 as (_ & Hdp & _).
      destruct (chain_set_next _ _ _ _ _ nxt _ H1) as (np & Hnp & Hc1); [set_solver|].
      rewrite (upd_node_ok _ _ _ _ Hnp). eexists. split; [reflexivity|].
      split_and!; [exact Hc1| |cbn; rewrite Hf, !hd_or_app; by destruct o1|done|].
      + apply chain_insert; [|exact H2]. specialize (Hdis p ltac:(set_solver)). set_solver.
      + split; try done. intros j Hj. cbn. rewrite list_lookup_insert_ne; [done|]. set_solver. }
  rewrite run_bind_Ret. destruct Hr1 as [Rm Re Rf Rn]. subst nxt. destruct o2 as [|x o2]; cbn [hd_or].
  - eexists. split; [reflexivity|]. destruct l2; [|done]. rewrite !app_nil_r in *. by split; split.
  - apply list.NoDup_cons in Hnd2 as [Hx2 _].
    destruct (chain_set_prev _ _ prv _ _ _ _ Hc2 Hx2) as (nx & Hnx & Hc3).
    rewrite (upd_node_ok _ _ _ _ Hnx). eexists. split; [reflexivity|].
    assert (x ∉ o1) as Hx1 by (intros Hin; apply (Hdis x Hin); set_solver).
    split; split; try done.
    + cbn [set_nodes c_nodes]. apply chain_app; [done|]. split; [by apply chain_insert|exact Hc3].
    + cbn. by rewrite Hb1, Hb, !last_or_app.
    + intros j Hj. cbn. rewrite list_lookup_insert_ne; [apply Rn; set_solver|set_solver].
Qed.

(** ** The representation invariant *)

(** The cache holds the entries [l], most recently used first, in the slots
    [o]. *)
Record cache_rep (c : Cache) (o : list nat) (l : list (Tuple * V)) : Prop := {
  cr_linked : linked c o l;
  cr_nodup : NoDup o;
  cr_keys : NoDup l.*1;
  cr_entries : c_entries c = list_to_map (zip l.*1 o);
  cr_free : forall i, i ∈ c_free c -> c_nodes c !! i = Some None;
  cr_free_nodup : NoDup (c_free c) }.

Lemma cache_rep_length c o l : cache_rep c o l -> length o = length l.
Proof. intros H. by eapply chain_length, lk_chain, cr_linked. Qed.

Lemma zip_keys (l : list (Tuple * V)) (o : list nat) :
  length o = length l -> (zip l.*1 o).*1 = l.*1.
Proof. intros H. apply fst_zip. rewrite length_fmap. lia. Qed.

(** Looking a key up splits the list at its entry. *)
Lemma entries_split c o l k i :
  cache_rep c o l -> c_entries c !! k = Some i ->
  exists o1 o2 l1 l2 v, o = o1 ++ i :: o2 /\ l = l1 ++ (k, v) :: l2 /\ length o1 = length l1.
Proof.
  intros Hr Hk. pose proof (cache_rep_length _ _ _ Hr) as Hl.
  rewrite (cr_entries _ _ _ Hr) in Hk. apply elem_of_list_to_map_2 in Hk.
  apply list_elem_of_lookup in Hk as [m Hm]. apply lookup_zip_Some in Hm as [Hm1 Hm2].
  apply list_lookup_fmap_Some in Hm1 as ([k' v] & -> & Hlm).
  exists (take m o), (drop (S m) o), (take m l), (drop (S m) l), v.
  split_and!; [by rewrite take_drop_middle..|]. rewrite !length_take. lia.
Qed.

Lemma entries_None c o l k : cache_rep c o l -> c_entries c !! k = None <-> k ∉ l.*1.
Proof.
  intros Hr. pose proof (cache_rep_length _ _ _ Hr) as Hl. rewrite (cr_entries _ _ _ Hr).
  rewrite <- not_elem_of_list_to_map, zip_keys by done. done.
Qed.

Lemma entries_len c o l : cache_rep c o l -> cache_len c = length l.
Proof.
  intros Hr. pose proof (cache_rep_length _ _ _ Hr) as Hl. unfold cache_len.
  rewrite (cr_entries _ _ _ Hr), map_size_list_to_map, length_zip, length_fmap; [lia|].
  rewrite zip_keys by done. apply Hr.
Qed.

(** Moving an entry to the front permutes the key/slot pairs. *)
Lemma zip_middle (k : Tuple) (v : V) i (o1 o2 : list nat) (l1 l2 : list (Tuple * V)) :
  length o1 = length l1 ->
  zip (l1 ++ (k, v) :: l2).*1 (o1 ++ i :: o2) ≡ₚ (k, i) :: zip (l1 ++ l2).*1 (o1 ++ o2).
Proof.
  intros Hl. rewrite !fmap_app, fmap_cons. cbn [fst].
  rewrite !zip_with_app by (by rewrite length_fmap). simpl. by rewrite Permutation_middle.
Qed.

Lemma entries_middle (k : Tuple) (v : V) i o1 o2 (l1 l2 : list (Tuple * V)) :
  length o1 = length l1 -> length o2 = length l2 -> NoDup (l1 ++ (k, v) :: l2).*1 ->
  (list_to_map (zip (l1 ++ (k, v) :: l2).*1 (o1 ++ i :: o2)) : gmap Tuple nat) =
  <[k := i]> (list_to_map (zip (l1 ++ l2).*1 (o1 ++ o2))).
Proof.
  intros Hl Hl2 Hnd.
  trans (list_to_map ((k, i) :: zip (l1 ++ l2).*1 (o1 ++ o2)) : gmap Tuple nat); [|done].
  apply list_to_map_proper.
  - rewrite zip_keys by (rewrite !length_app; simpl; lia). done.
  - by apply zip_middle.
Qed.

Lemma nodup_middle (k : Tuple) (v : V) (l1 l2 : list (Tuple * V)) :
  NoDup (l1 ++ (k, v) :: l2).*1 -> NoDup (l1 ++ l2).*1 /\ k ∉ (l1 ++ l2).*1.
Proof.
  rewrite !fmap_app, fmap_cons. cbn [fst]. rewrite <- Permutation_middle.
  rewrite list.NoDup_cons. tauto.
Qed.

Lemma nodup_middle_nat (i : nat) (o1 o2 : list nat) :
  NoDup (o1 ++ i :: o2) -> NoDup (o1 ++ o2) /\ i ∉ o1 ++ o2.
Proof. rewrite <- Permutation_middle, list.NoDup_cons. tauto. Qed.

Lemma not_elem_middle (i j : nat) (o1 o2 : list nat) :
  j ∉ o1 ++ i :: o2 -> j <> i /\ (j ∉ o1 ++ o2) /\ (j ∉ i :: o1 ++ o2).
Proof. rewrite !not_elem_of_cons, !not_elem_of_app, not_elem_of_cons. tauto. Qed.

(** ** The operations on the slots *)

Lemma middle_node c o1 i o2 l1 k v l2 :
  linked c (o1 ++ i :: o2) (l1 ++ (k, v) :: l2) -> length o1 = length l1 ->
  exists n, c_nodes c !! i = Some (Some n) /\ n_key n = k /\ n_value n = v.
Proof.
  intros [Hch _ _] Hl. apply chain_app in Hch as [_ [Hn _]]; [|done]. eexists. split; [exact Hn|done].
Qed.

Lemma free_not_linked c o l i : cache_rep c o l -> i ∈ c_free c -> i ∉ o.
Proof.
  intros Hr Hf Ho. apply (cr_free _ _ _ Hr) in Hf.
  destruct (chain_lookup _ _ _ _ _ _ (lk_chain _ _ _ (cr_linked _ _ _ Hr)) Ho) as [n Hn]. congruence.
Qed.

Lemma move_to_front_spec c o1 i o2 l1 k v l2 :
  cache_rep c (o1 ++ i :: o2) (l1 ++ (k, v) :: l2) -> length o1 = length l1 ->
  exists c', move_to_front c i = Ret c' /\ c_max_entries c' = c_max_entries c /\
    cache_rep c' (i :: o1 ++ o2) ((k, v) :: l1 ++ l2).
Proof.
  intros Hr Hl. pose proof (cache_rep_length _ _ _ Hr) as Hlen. rewrite !length_app in Hlen. simpl in Hlen.
  pose proof (cr_linked _ _ _ Hr) as Hlk. pose proof (cr_nodup _ _ _ Hr) as Hnd.
  destruct (nodup_middle_nat _ _ _ Hnd) as [Hnd' Hi].
  unfold move_to_front. case_bool_decide as Hfr.
  - rewrite (lk_front _ _ _ Hlk) in Hfr. destruct o1 as [|j o1].
    + destruct l1; [|done]. eauto.
    + exfalso. simpl in Hfr. injection Hfr as ->. apply Hi. simpl. left.
  - destruct (unlink_spec _ _ _ _ _ _ _ _ Hlk Hnd Hl) as (c1 & -> & Hlk1 & [Rm Re Rf Rn]).
    rewrite run_bind_Ret. destruct (middle_node _ _ _ _ _ _ _ _ Hlk Hl) as (n & Hn & <- & <-).
    destruct (push_front_spec c1 i n _ _ Hlk1 Hnd' Hi) as (c2 & -> & Hlk2 & [Sm Se Sf Sn]).
    { by rewrite Rn. }
    exists c2. split_and!; [done|congruence|]. destruct (nodup_middle _ _ _ _ (cr_keys _ _ _ Hr)) as [Hk1 Hk2].
    split; [done|by apply list.NoDup_cons|by apply list.NoDup_cons| | |].
    + rewrite Se, Re, (cr_entries _ _ _ Hr). cbn [zip]. apply entries_middle; [done|lia|apply Hr].
    + intros j Hj. rewrite Sf, Rf in Hj. apply (free_not_linked _ _ _ _ Hr) in Hj as Hjo.
      apply not_elem_middle in Hjo as (_ & Hj1 & Hj2). rewrite Sn, Rn by done. by apply Hr.
    + rewrite Sf, Rf. apply Hr.
Qed.

Lemma remove_index_spec c o1 i o2 l1 k v l2 :
  cache_rep c (o1 ++ i :: o2) (l1 ++ (k, v) :: l2) -> length o1 = length l1 ->
  exists c', remove_index c i = Ret c' /\ c_max_entries c' = c_max_entries c /\
    cache_rep c' (o1 ++ o2) (l1 ++ l2).
Proof.
  intros Hr Hl. pose proof (cache_rep_length _ _ _ Hr) as Hlen. rewrite !length_app in Hlen. simpl in Hlen.
  pose proof (cr_linked _ _ _ Hr) as Hlk. pose proof (cr_nodup _ _ _ Hr) as Hnd.
  destruct (nodup_middle_nat _ _ _ Hnd) as [Hnd' Hi].
  destruct (nodup_middle _ _ _ _ (cr_keys _ _ _ Hr)) as [Hk1 Hk2].
  destruct (middle_node _ _ _ _ _ _ _ _ Hlk Hl) as (n & Hn & Hnk & Hnv).
  destruct (unlink_spec _ _ _ _ _ _ _ _ Hlk Hnd Hl) as (c1 & Eu & [Lc Lf Lb] & [Rm Re Rf Rn]).
  unfold remove_index. rewrite (node_at_ok _ _ _ Hn), run_bind_Ret, Eu, run_bind_Ret, Hnk. cbv zeta.
  pose proof Hn as Hn1. rewrite <- Rn in Hn1 by done. pose proof (lookup_lt_Some _ _ _ Hn1) as Hlt.
  unfold idx_set. cbn [set_entries c_nodes]. rewrite decide_True, run_bind_Ret by done.
  eexists. split; [reflexivity|]. split; [done|]. split; cbn; try done.
  - split; cbn; [|done|done]. by apply chain_insert.
  - rewrite Re, (cr_entries _ _ _ Hr), (entries_middle k v i) by (done || lia || apply Hr).
    apply delete_insert_id, not_elem_of_list_to_map. by rewrite zip_keys by (rewrite !length_app; lia).
  - intros j Hj. rewrite Rf in Hj. apply elem_of_cons in Hj as [->|Hj]; [by apply list_lookup_insert_eq|].
    apply (free_not_linked _ _ _ _ Hr) in Hj as Hjo. apply not_elem_middle in Hjo as (Hji & Hj1 & _).
    rewrite list_lookup_insert_ne, Rn by done. by apply Hr.
  - rewrite Rf. apply list.NoDup_cons. split; [|apply Hr]. intros Hf.
    apply (free_not_linked _ _ _ _ Hr Hf), elem_of_app. right. left.
Qed.

(** ** The specification: a list of entries, most recently used first *)

Definition lru_lookup (l : list (Tuple * V)) (k : Tuple) : option V :=
  (list_to_map l : gmap Tuple V) !! k.
Definition lru_remove (l : list (Tuple * V)) (k : Tuple) : list (Tuple * V) :=
  filter (fun x => x.1 <> k) l.
Definition lru_touch (l : list (Tuple * V)) (k : Tuple) (v : V) : list (Tuple * V) :=
  (k, v) :: lru_remove l k.
Definition lru_add (max : nat) (l : list (Tuple * V)) (k : Tuple) (v : V) : list (Tuple * V) :=
  match lru_lookup l k with
  | Some _ => lru_touch l k v
  | None =>
      let l' := (k, v) :: l in
      if negb (max =? 0)%nat && (max <? length l')%nat then removelast l' else l'
  end.

Lemma filter_absent (l : list (Tuple * V)) k : k ∉ l.*1 -> filter (fun x => x.1 <> k) l = l.
Proof.
  induction l as [|[k' v'] l IH]; intros Hk; [done|]. rewrite fmap_cons, not_elem_of_cons in Hk.
  destruct Hk as [Hne Hk]. rewrite filter_cons_True by (simpl; by intros ->). by rewrite IH.
Qed.

Lemma lru_split l1 k v l2 :
  NoDup (l1 ++ (k, v) :: l2).*1 ->
  lru_lookup (l1 ++ (k, v) :: l2) k = Some v /\ lru_remove (l1 ++ (k, v) :: l2) k = l1 ++ l2.
Proof.
  intros Hnd. destruct (nodup_middle _ _ _ _ Hnd) as [Hnd' Hk]. split.
  - apply elem_of_list_to_map_1; [done|]. apply elem_of_app. right. left.
  - rewrite fmap_app in Hk. unfold lru_remove. rewrite list.filter_app, filter_cons_False by (simpl; tauto).
    apply not_elem_of_app in Hk as [H1 H2]. by rewrite !filter_absent.
Qed.

Lemma lru_absent l k : k ∉ l.*1 -> lru_lookup l k = None /\ lru_remove l k = l.
Proof. intros H. split; [by apply not_elem_of_list_to_map|by apply filter_absent]. Qed.

(** [c] holds [l] and is bounded by [max]. *)
Definition cache_holds (max : nat) (c : Cache) (l : list (Tuple * V)) : Prop :=
  c_max_entries c = max /\ exists o, cache_rep c o l.

Lemma cache_default_holds max : cache_holds max (cache_default max) [].
Proof.
  split; [done|]. exists []. split; try done; [constructor|constructor| |constructor].
  intros i Hi. by apply elem_of_nil in Hi.
Qed.

Lemma remove_oldest_spec max c l :
  cache_holds max c l ->
  exists c', remove_oldest c = Ret c' /\ cache_holds max c' (removelast l).
Proof.
  intros [Hm [o Hr]]. pose proof (cache_rep_length _ _ _ Hr) as Hl. unfold remove_oldest.
  rewrite (lk_back _ _ _ (cr_linked _ _ _ Hr)).
  destruct o as [|i o _] using rev_ind; [destruct l; [|done]; exists c; split; [done|by split; [|exists []]]|].
  rewrite last_or_snoc. rewrite length_app in Hl. simpl in Hl.
  destruct l as [|[k v] l _] using rev_ind; [simpl in Hl; lia|]. rewrite length_app in Hl. simpl in Hl.
  destruct (remove_index_spec _ _ _ _ _ _ _ _ Hr ltac:(lia)) as (c' & -> & Hm' & Hr').
  rewrite !app_nil_r in Hr'. rewrite removelast_last. exists c'. split; [done|].
  split; [congruence|eauto].
Qed.

Lemma cache_remove_spec max c l k :
  cache_holds max c l -> exists c', cache_remove c k = Ret c' /\ cache_holds max c' (lru_remove l k).
Proof.
  intros [Hm [o Hr]]. unfold cache_remove. destruct (c_entries c !! k) as [i|] eqn:E.
  - destruct (entries_split _ _ _ _ _ Hr E) as (o1 & o2 & l1 & l2 & v & -> & -> & Hl).
    destruct (remove_index_spec _ _ _ _ _ _ _ _ Hr Hl) as (c' & -> & Hm' & Hr').
    exists c'. split; [done|]. destruct (lru_split _ _ _ _ (cr_keys _ _ _ Hr)) as [_ ->].
    split; [congruence|eauto].
  - apply (entries_None _ _ _ _ Hr) in E. destruct (lru_absent l k E) as [_ ->].
    exists c. split; [done|]. split; eauto.
Qed.

Lemma cache_get_spec max c l k :
  cache_holds max c l ->
  exists c', cache_get c k = Ret (c', lru_lookup l k) /\
    cache_holds max c' (match lru_lookup l k with Some v => lru_touch l k v | None => l end).
Proof.
  intros [Hm [o Hr]]. unfold cache_get. destruct (c_entries c !! k) as [i|] eqn:E.
  - destruct (entries_split _ _ _ _ _ Hr E) as (o1 & o2 & l1 & l2 & v & -> & -> & Hl).
    destruct (move_to_front_spec _ _ _ _ _ _ _ _ Hr Hl) as (c' & -> & Hm' & Hr').
    destruct (lru_split _ _ _ _ (cr_keys _ _ _ Hr)) as [-> Hrm]. rewrite run_bind_Ret.
    destruct (middle_node c' [] i (o1 ++ o2) [] k v (l1 ++ l2)) as (n & Hn & _ & Hv);
      [apply Hr'|done|].
    rewrite (node_at_ok _ _ _ Hn), run_bind_Ret, Hv. exists c'. split; [done|].
    unfold lru_touch. rewrite Hrm. split; [congruence|eauto].
  - apply (entries_None _ _ _ _ Hr) in E. destruct (lru_absent l k E) as [-> _].
    exists c. split; [done|]. split; eauto.
Qed.

(** Overwriting the value in a slot. *)
Lemma set_value_spec c o1 i o2 l1 k v l2 (f : Node -> Node) w :
  cache_rep c (o1 ++ i :: o2) (l1 ++ (k, v) :: l2) -> length o1 = length l1 ->
  (forall n, n_key n = k -> n_value n = v -> f n = set_value n w) ->
  exists c', upd_node c i f = Ret c' /\ c_max_entries c' = c_max_entries c /\
    cache_rep c' (o1 ++ i :: o2) (l1 ++ (k, w) :: l2).
Proof.
  intros Hr Hl Hf. pose proof (cr_linked _ _ _ Hr) as [Hch Hfr Hb]. pose proof (cr_nodup _ _ _ Hr) as Hnd.
  destruct (nodup_middle_nat _ _ _ Hnd) as [_ Hi]. apply not_elem_of_app in Hi as [Hi1 Hi2].
  apply chain_app in Hch as [H1 [Hn H2]]; [|done]. rewrite (upd_node_ok _ _ _ _ Hn), Hf by done.
  eexists. split; [reflexivity|]. split; [done|]. pose proof (lookup_lt_Some _ _ _ Hn) as Hlt.
  assert ((l1 ++ (k, w) :: l2).*1 = (l1 ++ (k, v) :: l2).*1) as Ek by (by rewrite !fmap_app).
  split; cbn [set_nodes c_nodes c_entries c_free]; rewrite ?Ek; try apply Hr.
  - split; cbn; [|done..]. apply chain_app; [done|]. split; [by apply chain_insert|].
    split; [|by apply chain_insert]. by rewrite list_lookup_insert_eq.
  - intros j Hj. pose proof (free_not_linked _ _ _ _ Hr Hj) as Hjo.
    rewrite list_lookup_insert_ne; [by apply Hr|]. intros ->. apply Hjo, elem_of_app. right. left.
Qed.

Lemma cache_get_mut_spec max c l k f :
  cache_holds max c l ->
  exists c', cache_get_mut c k f = Ret (c', lru_lookup l k) /\
    cache_holds max c' (match lru_lookup l k with Some v => lru_touch l k (f v) | None => l end).
Proof.
  intros [Hm [o Hr]]. unfold cache_get_mut. destruct (c_entries c !! k) as [i|] eqn:E.
  - destruct (entries_split _ _ _ _ _ Hr E) as (o1 & o2 & l1 & l2 & v & -> & -> & Hl).
    destruct (move_to_front_spec _ _ _ _ _ _ _ _ Hr Hl) as (c1 & -> & Hm1 & Hr1).
    destruct (lru_split _ _ _ _ (cr_keys _ _ _ Hr)) as [-> Hrm]. rewrite run_bind_Ret.
    destruct (middle_node c1 [] i (o1 ++ o2) [] k v (l1 ++ l2)) as (n & Hn & _ & Hv);
      [apply Hr1|done|].
    rewrite (node_at_ok _ _ _ Hn), run_bind_Ret, Hv.
    destruct (set_value_spec c1 [] i (o1 ++ o2) [] k v (l1 ++ l2)
      (fun n => set_value n (f (n_value n))) (f v)) as (c2 & -> & Hm2 & Hr2); [done|done| |].
    { by intros n' _ ->. }
    rewrite run_bind_Ret. exists c2. split; [done|]. unfold lru_touch. rewrite Hrm.
    split; [congruence|]. by exists (i :: o1 ++ o2).
  - apply (entries_None _ _ _ _ Hr) in E. destruct (lru_absent l k E) as [-> _].
    exists c. split; [done|]. split; eauto.
Qed.

Lemma allocate_node_spec c o l k v :
  cache_rep c o l ->
  exists c' i n, allocate_node c k v = Ret (c', i) /\ (i ∉ o) /\
    c_nodes c' !! i = Some (Some n) /\ n_key n = k /\ n_value n = v /\
    c_max_entries c' = c_max_entries c /\ c_entries c' = c_entries c /\ linked c' o l /\
    (forall j, j ∈ c_free c' -> j <> i /\ c_nodes c' !! j = Some None) /\ NoDup (c_free c').
Proof.
  intros Hr. pose proof (cr_linked _ _ _ Hr) as [Hch Hf Hb]. pose proof (cr_free _ _ _ Hr) as Hfree.
  pose proof (cr_free_nodup _ _ _ Hr) as Hnd. pose proof (free_not_linked c o l) as Hnl.
  unfold allocate_node. set (n := {| n_key := k; n_value := v; n_prev := None; n_next := None |}).
  destruct (c_free c) as [|i free] eqn:Ef.
  - assert (forall j, j ∈ o -> (j < length (c_nodes c))%nat) as Hlt.
    { intros j Hj. destruct (chain_lookup _ _ _ _ _ _ Hch Hj) as [x Hx]. by apply lookup_lt_Some in Hx. }
    eexists _, (length (c_nodes c)), n. split; [reflexivity|]. cbn [set_nodes c_nodes c_free].
    split_and!; try done.
    + intros Hin. apply Hlt in Hin. lia.
    + by rewrite lookup_app_r, Nat.sub_diag by lia.
    + split; cbn; [|done..]. eapply chain_frame; [|exact Hch]. intros j Hj. apply lookup_app_l. by apply Hlt.
    + rewrite Ef. intros j Hj. by apply elem_of_nil in Hj.
    + by rewrite Ef.
  - assert (c_nodes c !! i = Some None) as Hi by (apply Hfree; left).
    assert (i ∉ o) as Hio by (apply Hnl; [done|left]).
    pose proof (lookup_lt_Some _ _ _ Hi) as Hlt. apply list.NoDup_cons in Hnd as [Hni Hnd].
    unfold idx_set. rewrite decide_True, run_bind_Ret by done.
    eexists _, i, n. split; [reflexivity|]. cbn. split_and!; try done.
    + by apply list_lookup_insert_eq.
    + split; cbn; [by apply chain_insert|done..].
    + intros j Hj. assert (j <> i) by (by intros ->). split; [done|].
      rewrite list_lookup_insert_ne by done. apply Hfree. by right.
Qed.

Lemma cache_add_spec max c l k v :
  cache_holds max c l ->
  exists c', cache_add c k v = Ret c' /\ cache_holds max c' (lru_add max l k v).
Proof.
  intros [Hm [o Hr]]. unfold cache_add, lru_add. destruct (c_entries c !! k) as [i|] eqn:E.
  - destruct (entries_split _ _ _ _ _ Hr E) as (o1 & o2 & l1 & l2 & w & -> & -> & Hl).
    destruct (lru_split _ _ _ _ (cr_keys _ _ _ Hr)) as [-> Hrm].
    destruct (set_value_spec c o1 i o2 l1 k w l2 (fun n => set_value n v) v) as (c1 & -> & Hm1 & Hr1);
      [done..|]. rewrite run_bind_Ret.
    destruct (move_to_front_spec _ _ _ _ _ _ _ _ Hr1 Hl) as (c2 & -> & Hm2 & Hr2).
    exists c2. split; [done|]. unfold lru_touch. rewrite Hrm. split; [congruence|eauto].
  - apply (entries_None _ _ _ _ Hr) in E as Hk. destruct (lru_absent l k Hk) as [-> _].
    destruct (allocate_node_spec c o l k v Hr)
      as (c1 & i & n & -> & Hio & Hn & <- & <- & Hm1 & He1 & Hlk1 & Hfr1 & Hfnd1).
    rewrite run_bind_Ret. cbn [fst snd]. set (c2 := set_entries c1 (<[n_key n := i]> (c_entries c1))).
    destruct (push_front_spec c2 i n o l) as (c3 & -> & Hlk3 & [Rm Re Rf Rn]);
      [by destruct Hlk1; split|apply Hr|done|done|].
    rewrite run_bind_Ret.
    assert (cache_holds max c3 ((n_key n, n_value n) :: l)) as Hh3.
    { split; [by rewrite Rm; simpl; congruence|]. exists (i :: o). split; [done| | | | |].
      - apply list.NoDup_cons. split; [done|apply Hr].
      - apply list.NoDup_cons. split; [done|apply Hr].
      - rewrite Re. cbn. by rewrite He1, (cr_entries _ _ _ Hr).
      - intros j Hj. rewrite Rf in Hj. destruct (Hfr1 j Hj) as [Hne Hnj]. rewrite Rn; [done|].
        rewrite not_elem_of_cons. split; [done|]. intros Hjo.
        destruct (chain_lookup _ _ _ _ _ _ (lk_chain _ _ _ Hlk1) Hjo) as [x Hx]. congruence.
      - by rewrite Rf. }
    pose proof Hh3 as [Hm3 [o3 Hr3]]. rewrite (entries_len _ _ _ Hr3), Hm3.
    destruct (negb _ && _); [by apply remove_oldest_spec|eauto].
Qed.

End cache.
Arguments Cache : clear implicits.
Arguments Node : clear implicits.

(** ** Histories *)

Inductive cache_op (V : Type) : Type :=
| CAdd (k : Tuple) (v : V)
| CGet (k : Tuple)
| CGetMut (k : Tuple) (f : V -> V)
| CRemove (k : Tuple)
| CRemoveOldest.
Arguments CAdd {V}.
Arguments CGet {V}.
Arguments CGetMut {V}.
Arguments CRemove {V}.
Arguments CRemoveOldest {V}.

Section cache_history.
Context {V : Type}.

Definition cache_step (c : Cache V) (o : cache_op V) : run (Cache V * option V) :=
  match o with
  | CAdd k v => c ← cache_add c k v; Ret (c, None)
  | CGet k => cache_get c k
  | CGetMut k f => cache_get_mut c k f
  | CRemove k => c ← cache_remove c k; Ret (c, None)
  | CRemoveOldest => c ← remove_oldest c; Ret (c, None)
  end.

Fixpoint run_cache (c : Cache V) (ops : list (cache_op V)) : run (Cache V * list (option V)) :=
  match ops with
  | [] => Ret (c, [])
  | o :: ops => r ← cache_step c o; r' ← run_cache r.1 ops; Ret (r'.1, r.2 :: r'.2)
  end.

Definition lru_step (max : nat) (l : list (Tuple * V)) (o : cache_op V)
  : list (Tuple * V) * option V :=
  match o with
  | CAdd k v => (lru_add max l k v, None)
  | CGet k => (match lru_lookup l k with Some v => lru_touch l k v | None => l end, lru_lookup l k)
  | CGetMut k f =>
      (match lru_lookup l k with Some v => lru_touch l k (f v) | None => l end, lru_lookup l k)
  | CRemove k => (lru_remove l k, None)
  | CRemoveOldest => (removelast l, None)
  end.

Fixpoint run_lru (max : nat) (l : list (Tuple * V)) (ops : list (cache_op V))
  : list (Tuple * V) * list (option V) :=
  match ops with
  | [] => (l, [])
  | o :: ops => let r := lru_step max l o in let r' := run_lru max r.1 ops in (r'.1, r.2 :: r'.2)
  end.

Lemma cache_step_spec max c l o :
  cache_holds max c l ->
  exists c', cache_step c o = Ret (c', (lru_step max l o).2) /\
    cache_holds max c' (lru_step max l o).1.
Proof.
  intros H. destruct o as [k v|k|k f|k|]; cbn.
  - destruct (cache_add_spec max c l k v H) as (c' & -> & H'). eauto.
  - by apply cache_get_spec.
  - by apply cache_get_mut_spec.
  - destruct (cache_remove_spec max c l k H) as (c' & -> & H'). eauto.
  - destruct (remove_oldest_spec max c l H) as (c' & -> & H'). eauto.
Qed.

Lemma run_cache_spec max ops : forall c l,
  cache_holds max c l ->
  exists c', run_cache c ops = Ret (c', (run_lru max l ops).2) /\
    cache_holds max c' (run_lru max l ops).1.
Proof.
  induction ops as [|o ops IH]; intros c l H; cbn; [eauto|].
  destruct (cache_step_spec max c l o H) as (c1 & -> & H1). rewrite run_bind_Ret. cbn [fst snd].
  destruct (IH c1 _ H1) as (c2 & -> & H2). rewrite run_bind_Ret. eauto.
Qed.

Lemma length_removelast {A} (l : list A) : (length (removelast l) = length l - 1)%nat.
Proof.
  destruct l as [|x l _] using rev_ind; [done|]. rewrite removelast_last, length_app. simpl. lia.
Qed.

Lemma length_lru_remove (l : list (Tuple * V)) k : (length (lru_remove l k) <= length l)%nat.
Proof. apply length_filter. Qed.

(** A key that is present is removed by [lru_remove]. *)
Lemma length_lru_remove_present (l : list (Tuple * V)) k v :
  lru_lookup l k = Some v -> (length (lru_remove l k) < length l)%nat.
Proof.
  intros H. unfold lru_lookup in H. apply elem_of_list_to_map_2 in H. induction l as [|[k' v'] l IH]; [by apply elem_of_nil in H|].
  unfold lru_remove in *. destruct (decide (k' = k)) as [->|Hne].
  - rewrite filter_cons_False by (simpl; tauto). simpl. pose proof (length_lru_remove l k).
    unfold lru_remove in *. lia.
  - rewrite filter_cons_True by done. simpl. apply elem_of_cons in H as [[= <- <-]|H]; [done|].
    specialize (IH H). lia.
Qed.

Lemma lru_step_bound max l o :
  max <> 0%nat -> (length l <= max)%nat -> (length (lru_step max l o).1 <= max)%nat.
Proof.
  intros Hmax Hl. destruct o as [k v|k|k f|k|]; cbn.
  - unfold lru_add. destruct (lru_lookup l k) eqn:E.
    + apply length_lru_remove_present in E. simpl. lia.
    + destruct (Nat.eqb_spec max 0); [done|]. cbn [negb andb].
      destruct (Nat.ltb_spec max (length ((k, v) :: l))); [|done].
      rewrite length_removelast. simpl. lia.
  - destruct (lru_lookup l k) eqn:E; [|done]. apply length_lru_remove_present in E. simpl. lia.
  - destruct (lru_lookup l k) eqn:E; [|done]. apply length_lru_remove_present in E. simpl. lia.
  - pose proof (length_lru_remove l k). lia.
  - rewrite length_removelast. lia.
Qed.

Lemma run_lru_bound max ops : forall l,
  max <> 0%nat -> (length l <= max)%nat -> (length (run_lru max l ops).1 <= max)%nat.
Proof.
  induction ops as [|o ops IH]; intros l Hmax Hl; cbn; [done|]. apply IH; [done|].
  by apply lru_step_bound.
Qed.

(** C14. The flow cache refines an LRU list: any sequence of adds, lookups,
    updates and removals on an empty cache runs without panicking, every call
    returns what the same call on the list of entries in most-recently-used
    order returns, [len] is the length of that list, and a cache with a bound
    never holds more than [max_entries] entries. *)
Theorem flow_cache_refines_lru (max : nat) (ops : list (cache_op V)) :
  exists c, run_cache (cache_default max) ops = Ret (c, (run_lru max [] ops).2) /\
    cache_len c = length (run_lru max [] ops).1 /\
    (max = 0%nat \/ (cache_len c <= max)%nat).
Proof.
  destruct (run_cache_spec max ops _ _ (cache_default_holds max)) as (c & Ec & Hm & o & Hr).
  exists c. split; [done|]. rewrite (entries_len _ _ _ Hr). split; [done|].
  destruct (decide (max = 0%nat)); [by left|right]. apply run_lru_bound; [done|simpl; lia].
Qed.

End cache_history.

(** The address a flow tuple stands for: IPv4-mapped IPv6 addresses are
    identified with the IPv4 addresses they map. *)
Definition unmap (a : IpAddr) : IpAddr :=
  match a with
  | V4 o => V4 o
  | V6 o => match to_ipv4_mapped o with Some o4 => V4 o4 | None => V6 o end
  end.

Lemma unmapped_mapped a : unmapped_addr (mapped_octets a) = unmap a.
Proof.
  destruct a as [o|o]; [|done]. unfold unmapped_addr, mapped_octets.
  by rewrite to_ipv4_mapped_to_ipv6_mapped.
Qed.

Lemma mapped_unmapped o : mapped_octets (unmapped_addr o) = o.
Proof.
  unfold unmapped_addr. destruct (to_ipv4_mapped o) as [o4|] eqn:E; [|done].
  symmetry. by apply to_ipv4_mapped_Some.
Qed.

(** Flow tuples identify flows: the accessors give back the addresses a
    tuple was built from up to unmapping, and two flows have the same tuple
    exactly when protocol, ports and unmapped addresses agree. *)
Theorem tuple_identifies_flow (p p' : Z) (s d s' d' : SocketAddr) :
  src_addr (tuple_new p s d) = unmap (ip s) /\ dst_addr (tuple_new p s d) = unmap (ip d) /\
  (tuple_new p s d = tuple_new p' s' d' <->
   p = p' /\ port s = port s' /\ port d = port d' /\
   unmap (ip s) = unmap (ip s') /\ unmap (ip d) = unmap (ip d')).
Proof.
  split_and!; [apply unmapped_mapped..|]. rewrite <- !unmapped_mapped. split.
  - intros [= E1 E2 E3 E4 E5]. by rewrite E1, E2.
  - intros (-> & E1 & E2 & E3 & E4). apply (f_equal mapped_octets) in E3, E4.
    rewrite !mapped_unmapped in E3, E4. unfold tuple_new. congruence.
Qed.
