(* ===== verification/IpText.v ===== *)
(** * Text forms of addresses and numbers

    The parts of Rust's standard library the parsers of this development rest
    on: [str::split_once], the unsigned [FromStr] implementations, the
    recursive-descent parser behind [IpAddr::from_str] and the [Display]
    implementations of [u8] and [Ipv4Addr].  A [str] is a [string] of bytes. *)

From Stdlib Require Import Ascii.
From S2P Require Import Prelude Bytes Bits IpAddr.

(** [str::split_once] on a character. *)
Fixpoint split_once (c : Ascii.ascii) (s : string) : option (string * string) :=
  match s with
  | EmptyString => None
  | String x s' =>
      if Ascii.eqb x c then Some (EmptyString, s')
      else match split_once c s' with
           | Some (a, b) => Some (String x a, b)
           | None => None
           end
  end.

(** [str::contains] and the number of occurrences of a character. *)
Fixpoint count_char (c : Ascii.ascii) (s : string) : nat :=
  match s with
  | EmptyString => 0
  | String x s' => ((if Ascii.eqb x c then 1 else 0) + count_char c s')%nat
  end.
Definition contains_char (c : Ascii.ascii) (s : string) : bool := negb (count_char c s =? 0)%nat.

(** [str::strip_prefix]. *)
Fixpoint strip_prefix (p s : string) : option string :=
  match p, s with
  | EmptyString, _ => Some s
  | String x p', String y s' => if Ascii.eqb x y then strip_prefix p' s' else None
  | String _ _, EmptyString => None
  end.

(** [char::to_digit]. *)
Definition to_digit (radix : Z) (c : Ascii.ascii) : option Z :=
  let n := Z.of_nat (Ascii.nat_of_ascii c) in
  let d := if (48 <=? n) && (n <=? 57) then n - 48
           else if (97 <=? n) && (n <=? 122) then n - 97 + 10
           else if (65 <=? n) && (n <=? 90) then n - 65 + 10
           else radix in
  if d <? radix then Some d else None.

(** ** Unsigned integers *)

(** The digit loop of [from_str_radix], stopping at the first digit that
    overflows [max]. *)
Fixpoint parse_digits (max : Z) (s : string) (acc : Z) : option Z :=
  match s with
  | EmptyString => Some acc
  | String c s' =>
      match to_digit 10 c with
      | None => None
      | Some d => let acc := acc * 10 + d in if max <? acc then None else parse_digits max s' acc
      end
  end.

(** [FromStr] of an unsigned type with maximum [max]: digits after an optional
    plus sign. *)
Definition parse_unsigned (max : Z) (s : string) : option Z :=
  match s with
  | EmptyString => None
  | String c s' =>
      if Ascii.eqb c "+"%char then (match s' with EmptyString => None | _ => parse_digits max s' 0 end)
      else parse_digits max s 0
  end.
Definition parse_u8 (s : string) : option Z := parse_unsigned 255 s.
Definition parse_u16 (s : string) : option Z := parse_unsigned 65535 s.

(** ** The address parser

    A parser returns its value and the rest of the input, or fails and leaves
    the input to its caller. *)

Definition read_given_char (c : Ascii.ascii) (s : string) : option string :=
  match s with
  | String x s' => if Ascii.eqb x c then Some s' else None
  | EmptyString => None
  end.

(** [read_separator]: the separator before every item but the first. *)
Definition read_separator {A} (sep : Ascii.ascii) (index : nat)
    (inner : string -> option (A * string)) (s : string) : option (A * string) :=
  if (index =? 0)%nat then inner s
  else match read_given_char sep s with Some s' => inner s' | None => None end.

(** The digits of [read_number]: value, count and rest, failing past
    [max_digits]. *)
Fixpoint read_digits (radix : Z) (max_digits : nat) (s : string) (count : nat) (acc : Z)
  : option (Z * nat * string) :=
  match s with
  | EmptyString => Some (acc, count, s)
  | String c s' =>
      match to_digit radix c with
      | None => Some (acc, count, s)
      | Some d =>
          if (max_digits <? S count)%nat then None
          else read_digits radix max_digits s' (S count) (acc * radix + d)
      end
  end.

(** [read_number] with a digit limit, for values up to [max]. *)
Definition read_number (radix : Z) (max_digits : nat) (allow_zero_prefix : bool) (max : Z) (s : string)
  : option (Z * string) :=
  let has_leading_zero := match s with String c _ => Ascii.eqb c "0"%char | EmptyString => false end in
  match read_digits radix max_digits s 0 0 with
  | None => None
  | Some (n, count, rest) =>
      if (count =? 0)%nat then None
      else if negb allow_zero_prefix && has_leading_zero && (1 <? count)%nat then None
      else if n <=? max then Some (n, rest) else None
  end.

(** [read_ipv4_addr]. *)
Fixpoint read_v4_groups (k i : nat) (s : string) : option (list Z * string) :=
  match k with
  | O => Some ([], s)
  | S k' =>
      match read_separator "."%char i (read_number 10 3 false 255) s with
      | None => None
      | Some (x, s') =>
          match read_v4_groups k' (S i) s' with
          | None => None
          | Some (xs, s'') => Some (x :: xs, s'')
          end
      end
  end.
Definition read_ipv4_addr (s : string) : option (list Z * string) := read_v4_groups 4 0 s.

(** [read_groups]: up to [k] more groups, the next one being number [i], and
    whether they end in an embedded IPv4 address. *)
Fixpoint read_groups (k i : nat) (s : string) : list Z * bool * string :=
  match k with
  | O => ([], false, s)
  | S k' =>
      let number :=
        match read_separator ":"%char i (read_number 16 4 true 65535) s with
        | Some (g, s') => let '(gs, v4, s'') := read_groups k' (S i) s' in (g :: gs, v4, s'')
        | None => ([], false, s)
        end in
      if (1 <=? k')%nat then
        match read_separator ":"%char i read_ipv4_addr s with
        | Some (o, s') =>
            ([byte_at o 0 * 256 + byte_at o 1; byte_at o 2 * 256 + byte_at o 3], true, s')
        | None => number
        end
      else number
  end.

(** Eight 16-bit groups as sixteen octets. *)
Definition groups_octets (gs : list Z) : list Z := concat (map (to_be_bytes 2) gs).

(** [read_ipv6_addr]. *)
Definition read_ipv6_addr (s : string) : option (list Z * string) :=
  let '(head, head_ipv4, s) := read_groups 8 0 s in
  if (length head =? 8)%nat then Some (groups_octets head, s)
  else if head_ipv4 : bool then None
  else
    match read_given_char ":"%char s with
    | None => None
    | Some s =>
        match read_given_char ":"%char s with
        | None => None
        | Some s =>
            let limit := (8 - (length head + 1))%nat in
            let '(tail, _, s) := read_groups limit 0 s in
            Some (groups_octets (head ++ replicate (8 - length head - length tail) 0 ++ tail), s)
        end
    end.

(** [read_ip_addr] and [IpAddr::from_str], which requires all input consumed. *)
Definition read_ip_addr (s : string) : option (IpAddr * string) :=
  match read_ipv4_addr s with
  | Some (o, s') => Some (V4 o, s')
  | None => match read_ipv6_addr s with
            | Some (o, s') => Some (V6 o, s')
            | None => None
            end
  end.
Definition parse_ip (s : string) : option IpAddr :=
  match read_ip_addr s with
  | Some (a, EmptyString) => Some a
  | _ => None
  end.

(** ** Display *)

Definition digit (d : Z) : string := String (Ascii.ascii_of_nat (48 + Z.to_nat d)) EmptyString.
(** [u8]. *)
Definition show_u8 (z : Z) : string :=
  if z <? 10 then digit z
  else if z <? 100 then digit (z / 10) +:+ digit (z mod 10)
  else digit (z / 100) +:+ digit (z / 10 mod 10) +:+ digit (z mod 10).
(** [Ipv4Addr]. *)
Definition show_v4 (o : list Z) : string :=
  show_u8 (byte_at o 0) +:+ "."%string +:+ show_u8 (byte_at o 1) +:+ "."%string +:+
  show_u8 (byte_at o 2) +:+ "."%string +:+ show_u8 (byte_at o 3).

Example parse_ip_examples :
  parse_ip "192.168.1.7"%string = Some (V4 [192; 168; 1; 7]) /\
  parse_ip "192.168.01.7"%string = None /\ parse_ip "256.1.1.1"%string = None /\ parse_ip "1.2.3"%string = None /\
  parse_ip "fd7a:115c:a1e0::1"%string = Some (V6 [0xfd; 0x7a; 0x11; 0x5c; 0xa1; 0xe0; 0; 0; 0; 0; 0; 0; 0; 0; 0; 1]) /\
  parse_ip "::ffff:1.2.3.4"%string = Some (V6 (to_ipv6_mapped [1; 2; 3; 4])) /\
  parse_ip "::"%string = Some V6_UNSPECIFIED /\ parse_ip "1::2::3"%string = None /\
  parse_u8 "+24"%string = Some 24 /\ parse_u8 "256"%string = None /\ parse_u8 ""%string = None.
Proof. vm_compute. repeat split. Qed.

(** ** Parsed addresses are well formed *)

Lemma to_digit_bound radix c d : 0 < radix -> to_digit radix c = Some d -> 0 <= d < radix.
Proof.
  unfold to_digit. intros Hr H.
  match type of H with (if ?x <? _ then _ else _) = _ => set (e := x) in * end.
  destruct (Z.ltb_spec e radix) as [Hlt|]; [|done]. injection H as <-. split; [|done].
  unfold e. repeat case_match; repeat match goal with
    | H : (_ && _) = true |- _ => apply andb_true_iff in H as [?%Z.leb_le ?%Z.leb_le] end; lia.
Qed.

Lemma read_digits_nonneg radix m s : forall c acc n k rest,
  0 < radix -> 0 <= acc -> read_digits radix m s c acc = Some (n, k, rest) -> 0 <= n.
Proof.
  induction s as [|x s IH]; intros c acc n k rest Hr Hacc H; simpl in H; [by simplify_eq|].
  destruct (to_digit radix x) as [d|] eqn:Ed; [|by simplify_eq].
  apply to_digit_bound in Ed; [|done]. destruct (m <? S c)%nat; [done|]. apply IH in H; [done|done|nia].
Qed.

Lemma read_number_bound radix m z max s n rest :
  0 < radix -> read_number radix m z max s = Some (n, rest) -> 0 <= n <= max.
Proof.
  unfold read_number. intros Hr H. destruct (read_digits radix m s 0 0) as [[[n' k] r]|] eqn:E; [|done].
  apply read_digits_nonneg in E; [|done|lia]. destruct (k =? 0)%nat; [done|].
  destruct (negb z && _ && _); [done|]. destruct (Z.leb_spec n' max); [|done]. by simplify_eq.
Qed.

Lemma read_separator_inv {A} c i (f : string -> option (A * string)) s x :
  read_separator c i f s = Some x -> exists s', f s' = Some x.
Proof.
  unfold read_separator. destruct (i =? 0)%nat; [eauto|]. destruct (read_given_char c s); [eauto|done].
Qed.

Lemma read_v4_groups_wf k : forall i s xs rest,
  read_v4_groups k i s = Some (xs, rest) -> wf_bytes xs /\ length xs = k.
Proof.
  induction k as [|k IH]; intros i s xs rest H; simpl in H; [simplify_eq; by split; [constructor|]|].
  destruct (read_separator _ _ _ _) as [[x s']|] eqn:E; [|done].
  destruct (read_v4_groups k (S i) s') as [[ys s'']|] eqn:E2; [|done]. simplify_eq.
  apply IH in E2 as [Hw Hl]. apply read_separator_inv in E as [s0 E]. apply read_number_bound in E; [|lia].
  split; [constructor; [unfold is_u8; lia|done]|simpl; lia].
Qed.

Lemma read_groups_length k : forall i s gs v4 rest,
  read_groups k i s = (gs, v4, rest) -> (length gs <= k)%nat.
Proof.
  induction k as [|k IH]; intros i s gs v4 rest H; cbn [read_groups] in H; [by injection H as <- <- <-|].
  assert (forall gs v4 rest,
    match read_separator ":"%char i (read_number 16 4 true 65535) s with
    | Some (g, s') => let '(gs, v4, s'') := read_groups k (S i) s' in (g :: gs, v4, s'')
    | None => ([], false, s)
    end = (gs, v4, rest) -> (length gs <= S k)%nat) as Hnum.
  { intros gs' v4' rest' H'.
    destruct (read_separator ":"%char i (read_number 16 4 true 65535) s) as [[g s']|]; [|injection H' as <- <- <-; simpl; lia].
    destruct (read_groups k (S i) s') as [[ys v] s''] eqn:E. injection H' as <- <- <-. apply IH in E. simpl. lia. }
  destruct (Nat.leb_spec 1 k); [|by eapply Hnum].
  destruct (read_separator ":"%char i read_ipv4_addr s) as [[o s']|]; [injection H as <- <- <-; simpl; lia|by eapply Hnum].
Qed.

Lemma groups_octets_wf gs : wf_bytes (groups_octets gs) /\ length (groups_octets gs) = (2 * length gs)%nat.
Proof.
  unfold groups_octets. induction gs as [|g gs [IH1 IH2]]; cbn [map concat length]; [by split; [constructor|]|].
  split; [apply wf_bytes_app; split; [apply wf_to_be_bytes|done]|].
  rewrite length_app, length_to_be_bytes, IH2. lia.
Qed.

Lemma read_ipv6_addr_wf s o rest :
  read_ipv6_addr s = Some (o, rest) -> wf_bytes o /\ length o = 16%nat.
Proof.
  unfold read_ipv6_addr. destruct (read_groups 8 0 s) as [[head v4] s1] eqn:E1.
  apply read_groups_length in E1. destruct (Nat.eqb_spec (length head) 8) as [E|E].
  { intros [= <- _]. destruct (groups_octets_wf head). split; [done|lia]. }
  destruct v4; [done|]. destruct (read_given_char _ s1) as [s2|]; [|done].
  destruct (read_given_char _ s2) as [s3|]; [|done].
  destruct (read_groups (8 - (length head + 1)) 0 s3) as [[tail v] s4] eqn:E2.
  apply read_groups_length in E2. intros [= <- _].
  destruct (groups_octets_wf (head ++ replicate (8 - length head - length tail) 0 ++ tail)) as [Hw Hl].
  split; [done|]. rewrite Hl, !length_app, length_replicate. lia.
Qed.

Lemma parse_ip_wf s a : parse_ip s = Some a -> wf_ip a.
Proof.
  unfold parse_ip, read_ip_addr. destruct (read_ipv4_addr s) as [[o r]|] eqn:E.
  - destruct r; [|done]. intros [= <-]. apply read_v4_groups_wf in E as [Hw Hl]. by split.
  - destruct (read_ipv6_addr s) as [[o r]|] eqn:E6; [|done]. destruct r; [|done]. intros [= <-].
    apply read_ipv6_addr_wf in E6 as [Hw Hl]. by split.
Qed.

Lemma parse_digits_bound max s : forall acc n,
  0 <= acc <= max -> parse_digits max s acc = Some n -> 0 <= n <= max.
Proof.
  induction s as [|c s IH]; intros acc n Hacc H; simpl in H; [by simplify_eq|].
  destruct (to_digit 10 c) as [d|] eqn:Ed; [|done]. apply to_digit_bound in Ed; [|lia].
  destruct (Z.ltb_spec max (acc * 10 + d)); [done|]. apply IH in H; [done|lia].
Qed.

Lemma parse_unsigned_bound max s n : 0 <= max -> parse_unsigned max s = Some n -> 0 <= n <= max.
Proof.
  intros Hm. unfold parse_unsigned. destruct s as [|c s]; [done|].
  destruct (Ascii.eqb c "+"%char); [destruct s; [done|]|]; intros H;
    apply (parse_digits_bound max) in H; done || lia.
Qed.

(** ** IPv4 round trip *)

(** The rest of the input does not continue a number. *)
Definition no_digit (rest : string) : Prop :=
  match rest with
  | EmptyString => True
  | String c _ => to_digit 10 c = None
  end.

Lemma read_digits_app m s rest : forall c acc n k,
  no_digit rest -> read_digits 10 m s c acc = Some (n, k, EmptyString) ->
  read_digits 10 m (s +:+ rest) c acc = Some (n, k, rest).
Proof.
  induction s as [|x s IH]; intros c acc n k Hr H; simpl in *.
  - simplify_eq. destruct rest as [|y rest]; simpl in *; [done|]. by rewrite Hr.
  - destruct (to_digit 10 x); [|done]. destruct (m <? S c)%nat; [done|]. by apply IH.
Qed.

Lemma read_show_u8 z rest :
  is_u8 z -> no_digit rest -> read_number 10 3 false 255 (show_u8 z +:+ rest) = Some (z, rest).
Proof.
  intros Hz Hr.
  assert (match read_digits 10 3 (show_u8 z) 0 0 with
          | Some (n, k, EmptyString) =>
              (n =? z) && negb (k =? 0)%nat &&
              match show_u8 z with
              | String c _ => negb (Ascii.eqb c "0"%char && (1 <? k)%nat)
              | EmptyString => false
              end
          | _ => false
          end = true) as H.
  { revert z Hz. apply u8_forallb. vm_compute. reflexivity. }
  destruct (read_digits 10 3 (show_u8 z) 0 0) as [[[n k] r]|] eqn:E; [|done].
  destruct r; [|done]. rewrite !andb_true_iff, Z.eqb_eq, negb_true_iff in H.
  destruct H as [[-> Hk] Hz0]. unfold read_number. rewrite (read_digits_app _ _ _ _ _ _ _ Hr E), Hk.
  destruct (show_u8 z) as [|c s] eqn:Es; [done|]. simpl. apply negb_true_iff in Hz0. rewrite Hz0.
  destruct (Z.leb_spec z 255); [done|]. unfold is_u8 in Hz. lia.
Qed.

Lemma append_nil_r (s : string) : s +:+ EmptyString = s.
Proof. induction s as [|c s IH]; [done|]. change (String c (s +:+ EmptyString) = String c s). by rewrite IH. Qed.

Lemma read_v4_group k i z rest :
  is_u8 z -> no_digit rest ->
  read_v4_groups (S k) i (if (i =? 0)%nat then show_u8 z +:+ rest
                          else String "."%char (show_u8 z +:+ rest)) =
  match read_v4_groups k (S i) rest with
  | None => None
  | Some (xs, s'') => Some (z :: xs, s'')
  end.
Proof.
  intros Hz Hr. cbn [read_v4_groups]. unfold read_separator.
  destruct (i =? 0)%nat; [|cbn [read_given_char Ascii.eqb Bool.eqb]]; by rewrite read_show_u8.
Qed.

Lemma parse_show_v4 o : wf_ip (V4 o) -> parse_ip (show_v4 o) = Some (V4 o).
Proof.
  intros [Hw Hl]. cbn in Hw, Hl. destruct o as [|a [|b [|c [|d [|]]]]]; try done.
  inversion_clear Hw as [|? ? Ha Hw1]. inversion_clear Hw1 as [|? ? Hb Hw2].
  inversion_clear Hw2 as [|? ? Hc Hw3]. inversion_clear Hw3 as [|? ? Hd _].
  set (r3 := String "."%char (show_u8 d +:+ EmptyString)).
  set (r2 := String "."%char (show_u8 c +:+ r3)). set (r1 := String "."%char (show_u8 b +:+ r2)).
  assert (show_v4 [a; b; c; d] = show_u8 a +:+ r1) as ->.
  { unfold show_v4, r1, r2, r3. by rewrite append_nil_r. }
  assert (read_ipv4_addr (show_u8 a +:+ r1) = Some ([a; b; c; d], EmptyString)) as E.
  { pose proof (read_v4_group 3 0 a r1 Ha eq_refl) as E0.
    pose proof (read_v4_group 2 1 b r2 Hb eq_refl) as E1.
    pose proof (read_v4_group 1 2 c r3 Hc eq_refl) as E2.
    pose proof (read_v4_group 0 3 d EmptyString Hd I) as E3.
    cbn [Nat.eqb] in E0, E1, E2, E3. fold r3 in E3. fold r2 in E2. fold r1 in E1.
    rewrite E3 in E2. rewrite E2 in E1. rewrite E1 in E0. exact E0. }
  unfold parse_ip, read_ip_addr. by rewrite E.
Qed.
