(* ===== verification/FilterPrefix.v ===== *)
(** * Prefixes of the packet filter: [crates/filter/src/prefix.rs]

    The filter has a prefix type of its own, with containment computed on the
    big-endian integer for IPv4 and octet-wise for IPv6.  Both are proved to be
    equality of leading bits, hence to agree with the routing table's
    containment.  [range_to_prefixes_v4] and [range_to_prefixes_v6] are proved
    to cover exactly the addresses of the range. *)

From S2P Require Import Prelude Bytes Bits IpAddr ArtPrefix.

Record IpPrefix : Type := { p_addr : IpAddr; p_bits : nat }.

#[global] Instance IpPrefix_eq_dec : EqDecision IpPrefix.
Proof. solve_decision. Defined.

(** [v4_contains]. *)
Definition v4_contains (net ip : list Z) (bits : nat) : bool :=
  if (bits =? 0)%nat then true
  else if (32 <? bits)%nat then false
  else
    let shift := Z.of_nat (32 - bits) in
    Z.shiftr (from_be_bytes net) shift =? Z.shiftr (from_be_bytes ip) shift.

(** [v6_contains].  The octet after the full ones exists: it is read only when
    [bits] is below 128. *)
Definition v6_contains (net ip : list Z) (bits : nat) : bool :=
  if (bits =? 0)%nat then true
  else if (128 <? bits)%nat then false
  else
    let full_bytes := (bits / 8)%nat in
    let rem_bits := (bits mod 8)%nat in
    if (0 <? full_bytes)%nat && negb (bool_decide (take full_bytes net = take full_bytes ip)) then false
    else if (rem_bits =? 0)%nat then true
    else
      let mask := mask_shl (8 - rem_bits) in
      Z.land (byte_at net full_bytes) mask =? Z.land (byte_at ip full_bytes) mask.

(** [IpPrefix::contains]. *)
Definition contains (p : IpPrefix) (a : IpAddr) : bool :=
  match p_addr p, a with
  | V4 n, V4 b => v4_contains n b (p_bits p)
  | V6 n, V6 b => v6_contains n b (p_bits p)
  | _, _ => false
  end.

(** [IpPrefix::is_v4]. *)
Definition is_v4 (p : IpPrefix) : bool := is_ipv4 (p_addr p).

(** [is_multicast]. *)
Definition is_multicast (a : IpAddr) : bool :=
  match a with
  | V4 o => 224 <=? byte_at o 0
  | V6 o => byte_at o 0 =? 0xFF
  end.

(** [is_link_local_unicast]. *)
Definition is_link_local_unicast (a : IpAddr) : bool :=
  match a with
  | V4 o => (byte_at o 0 =? 169) && (byte_at o 1 =? 254)
  | V6 o => (byte_at o 0 =? 0xFE) && (Z.land (byte_at o 1) 0xC0 =? 0x80)
  end.

(** [host_prefix]. *)
Definition host_prefix (a : IpAddr) : IpPrefix :=
  {| p_addr := a; p_bits := if is_ipv4 a then 32 else 128 |}.

(** [wildcard_prefixes]. *)
Definition wildcard_prefixes : list IpPrefix :=
  [{| p_addr := V4_UNSPECIFIED; p_bits := 0 |}; {| p_addr := V6_UNSPECIFIED; p_bits := 0 |}].

(** The mask of [is_masked] and [masked_prefix], [MAX << (w - bits)] or 0. *)
Definition net_mask (w bits : nat) : Z :=
  if (bits =? 0)%nat then 0 else Z.shiftl (Z.ones (Z.of_nat w)) (Z.of_nat (w - bits)) mod 2 ^ Z.of_nat w.

(** [is_masked]; the callers have checked [bits] against the family. *)
Definition is_masked (p : IpPrefix) : bool :=
  match p_addr p with
  | V4 o => Z.land (from_be_bytes o) (net_mask 32 (p_bits p)) =? from_be_bytes o
  | V6 o => Z.land (from_be_bytes o) (net_mask 128 (p_bits p)) =? from_be_bytes o
  end.

(** [masked_prefix]. *)
Definition masked_prefix (a : IpAddr) (bits : nat) : IpPrefix :=
  match a with
  | V4 o => {| p_addr := V4 (to_be_bytes 4 (Z.land (from_be_bytes o) (net_mask 32 bits))); p_bits := bits |}
  | V6 o => {| p_addr := V6 (to_be_bytes 16 (Z.land (from_be_bytes o) (net_mask 128 bits))); p_bits := bits |}
  end.

(** ** Ranges *)

(** [trailing_zeros] of a positive integer below [2 ^ w]. *)
Fixpoint trailing_zeros (w : nat) (z : Z) : nat :=
  match w with
  | O => 0
  | S w' => if Z.even z then S (trailing_zeros w' (z / 2)) else 0
  end.

(** One iteration of the range loops at width [w]: the prefix emitted and the
    next address, [None] when the loop breaks.  With overflow checks
    ([checked]) the computation of [remaining] panics when it exceeds the
    width; without them it wraps. *)
Definition range_step (checked : bool) (w : nat) (cur last : Z) : run (nat * option Z) :=
  let modulus := 2 ^ Z.of_nat w in
  let max_align := if cur =? 0 then w else trailing_zeros w cur in
  if checked && (modulus <=? last - cur + 1) then Panic
  else
    let remaining := (last - cur + 1) mod modulus in
    let max_size := if remaining =? 0 then 0%nat else Z.to_nat (Z.log2 remaining) in
    let host_bits := Nat.min max_align max_size in
    let prefix_len := (w - host_bits)%nat in
    let block_size := if (host_bits <? w)%nat then 2 ^ Z.of_nat host_bits else modulus - 1 in
    let next := Z.min (cur + block_size) (modulus - 1) in
    if (block_size =? 0) || (next <=? cur) then Ret (prefix_len, None)
    else Ret (prefix_len, Some next).

(** The loop: the addresses and lengths of the prefixes. *)
Fixpoint range_loop (fuel : nat) (checked : bool) (w : nat) (cur last : Z) : run (list (Z * nat)) :=
  match fuel with
  | O => Panic
  | S fuel =>
      if last <? cur then Ret []
      else
        r ← range_step checked w cur last;
        match r.2 with
        | None => Ret [(cur, r.1)]
        | Some next => rest ← range_loop fuel checked w next last; Ret ((cur, r.1) :: rest)
        end
  end.

(** Alignment grows, then size shrinks: at most two iterations per bit, one for
    a wrapped [remaining] and one after a saturated addition. *)
Definition range_fuel (w : nat) : nat := (2 * w + 5)%nat.

(** [range_to_prefixes_v4]. *)
Definition range_to_prefixes_v4 (checked : bool) (s e : list Z) : run (list IpPrefix) :=
  let cur := from_be_bytes s in
  let last := from_be_bytes e in
  if last <? cur then Ret []
  else
    l ← range_loop (range_fuel 32) checked 32 cur last;
    Ret (map (fun x => {| p_addr := V4 (to_be_bytes 4 x.1); p_bits := x.2 |}) l).

(** [range_to_prefixes_v6]. *)
Definition range_to_prefixes_v6 (checked : bool) (s e : list Z) : run (list IpPrefix) :=
  let cur := from_be_bytes s in
  let last := from_be_bytes e in
  if last <? cur then Ret []
  else
    l ← range_loop (range_fuel 128) checked 128 cur last;
    Ret (map (fun x => {| p_addr := V6 (to_be_bytes 16 x.1); p_bits := x.2 |}) l).

(** ** Containment *)

Definition wf (p : IpPrefix) : Prop := wf_ip (p_addr p) /\ (p_bits p <= bit_len (p_addr p))%nat.

#[global] Instance wf_dec p : Decision (wf p).
Proof. unfold wf. apply _. Defined.

Lemma v4_contains_spec n b k :
  wf_ip (V4 n) -> wf_ip (V4 b) -> (k <= 32)%nat ->
  v4_contains n b k = true <-> take k (bits_of n) = take k (bits_of b).
Proof.
  intros [Hn Hln] [Hb Hlb] Hk. cbn in Hln, Hlb. unfold v4_contains.
  destruct (Nat.eqb_spec k 0) as [->|H0]; [by rewrite !take_0|].
  destruct (Nat.ltb_spec 32 k); [lia|]. rewrite Z.eqb_eq.
  rewrite <- (shiftr_eq_take n b k) by (done || lia). by rewrite Hln.
Qed.

Lemma v6_contains_spec n b k :
  wf_ip (V6 n) -> wf_ip (V6 b) -> (k <= 128)%nat ->
  v6_contains n b k = true <-> take k (bits_of n) = take k (bits_of b).
Proof.
  intros [Hn Hln] [Hb Hlb] Hk. cbn in Hln, Hlb. unfold v6_contains.
  destruct (Nat.eqb_spec k 0) as [->|H0]; [by rewrite !take_0|].
  destruct (Nat.ltb_spec 128 k); [lia|].
  pose proof (Nat.div_mod_eq k 8) as Hdm. pose proof (Nat.mod_upper_bound k 8 ltac:(lia)) as Hr.
  set (f := (k / 8)%nat) in *. set (r := (k mod 8)%nat) in *. clearbody f r. subst k.
  assert (take (8 * f) (bits_of n) = take (8 * f) (bits_of b) <-> take f n = take f b) as Hf.
  { rewrite !take_bits_of. split; [|by intros ->]. apply bits_of_inj; by apply wf_bytes_take. }
  rewrite <- !take_take_drop.
  assert (forall u v, take (8 * f) (bits_of n) ++ u = take (8 * f) (bits_of b) ++ v <->
            take f n = take f b /\ u = v) as Hsplit.
  { intros u v. rewrite <- Hf. split; [|by intros [-> ->]]. apply app_inj_1.
    rewrite !length_take, !length_bits_of. lia. }
  rewrite Hsplit. destruct (bool_decide (take f n = take f b)) eqn:E.
  2:{ apply bool_decide_eq_false in E. split; [|tauto]. destruct (Nat.ltb_spec 0 f); [done|].
      exfalso. apply E. replace f with 0%nat by lia. by rewrite !take_0. }
  apply bool_decide_eq_true in E. cbn [negb]. rewrite andb_false_r.
  destruct (Nat.eqb_spec r 0) as [->|Hr0]; [by rewrite !take_0|].
  rewrite !drop_bits_of, Z.eqb_eq. unfold mask_shl.
  rewrite take_octet_mask_eq by (by apply byte_at_u8 || lia).
  assert (forall l, wf_bytes l -> length l = 16%nat ->
    take r (bits_of (drop f l)) = take r (octet_bits (byte_at l f))) as Hd.
  { intros l _ Hl. destruct (lookup_lt_is_Some_2 l f ltac:(lia)) as [x Hx].
    rewrite (drop_S _ _ _ Hx). cbn [bits_of]. rewrite take_app_le by (rewrite length_octet_bits; lia).
    unfold byte_at. by rewrite (nth_lookup_Some _ _ _ _ Hx). }
  rewrite !Hd by done. tauto.
Qed.

(** Containment is equality of the leading [p_bits] bits. *)
Lemma fcontains_spec p a :
  wf p -> wf_ip a ->
  contains p a = true <->
  is_ipv4 (p_addr p) = is_ipv4 a /\ take (p_bits p) (ip_bits a) = take (p_bits p) (ip_bits (p_addr p)).
Proof.
  intros [Hp Hb] Ha. unfold contains, ip_bits. destruct (p_addr p) as [n|n], a as [b|b]; cbn [octets is_ipv4].
  - rewrite v4_contains_spec by (done || exact Hb). split; [by intros ->|by intros [_ ->]].
  - split; [done|by intros []].
  - split; [done|by intros []].
  - rewrite v6_contains_spec by (done || exact Hb). split; [by intros ->|by intros [_ ->]].
Qed.

(** ** Alignment *)

Definition align (w : nat) (z : Z) : nat := if z =? 0 then w else trailing_zeros w z.

Lemma trailing_zeros_divide w z : (2 ^ Z.of_nat (trailing_zeros w z) | z).
Proof.
  revert z. induction w as [|w IH]; intros z; simpl; [apply Z.divide_1_l|].
  destruct (Z.even z) eqn:E; [|apply Z.divide_1_l].
  apply Z.even_spec in E as [y ->]. rewrite pow2_succ, (Z.mul_comm 2 y), Z.div_mul by lia.
  rewrite (Z.mul_comm y 2). apply Z.mul_divide_mono_l, IH.
Qed.

Lemma trailing_zeros_ge w z k :
  0 < z < 2 ^ Z.of_nat w -> (2 ^ Z.of_nat k | z) -> (k <= trailing_zeros w z)%nat.
Proof.
  revert z k. induction w as [|w IH]; intros z k Hz Hk; [simpl in Hz; lia|].
  destruct k as [|k]; [lia|]. rewrite pow2_succ in *. destruct Hk as [y ->]. simpl.
  replace (y * (2 * 2 ^ Z.of_nat k)) with (2 * (y * 2 ^ Z.of_nat k)) in * by ring.
  rewrite Z.even_mul. simpl. rewrite (Z.mul_comm 2), Z.div_mul by lia.
  apply le_n_S, IH; [lia|]. by exists y.
Qed.

Lemma align_divide w z : (2 ^ Z.of_nat (align w z) | z).
Proof.
  unfold align. destruct (Z.eqb_spec z 0) as [->|]; [apply Z.divide_0_r|apply trailing_zeros_divide].
Qed.

Lemma align_ge w z k :
  0 <= z < 2 ^ Z.of_nat w -> (k <= w)%nat -> (2 ^ Z.of_nat k | z) -> (k <= align w z)%nat.
Proof.
  intros Hz Hk Hd. unfold align. destruct (Z.eqb_spec z 0); [done|]. apply trailing_zeros_ge; [lia|done].
Qed.

Lemma pow2_le m n : (m <= n)%nat -> 2 ^ Z.of_nat m <= 2 ^ Z.of_nat n.
Proof. intros H. apply Z.pow_le_mono_r; lia. Qed.

Lemma pow2_divide m n : (m <= n)%nat -> (2 ^ Z.of_nat m | 2 ^ Z.of_nat n).
Proof.
  intros H. replace n with (m + (n - m))%nat by lia. rewrite Nat2Z.inj_add, Z.pow_add_r by lia.
  apply Z.divide_factor_l.
Qed.

(** Adding its lowest set bit raises the alignment. *)
Lemma align_next w z :
  0 < z -> z + 2 ^ Z.of_nat (align w z) < 2 ^ Z.of_nat w ->
  (S (align w z) <= align w (z + 2 ^ Z.of_nat (align w z)))%nat.
Proof.
  intros Hz Hlt. pose proof (pow2_pos (align w z)) as Hpos.
  assert (align w z < w)%nat as Haw.
  { destruct (Nat.lt_ge_cases (align w z) w) as [|Hge]; [done|]. pose proof (pow2_le _ _ Hge). lia. }
  apply align_ge; [lia|lia|]. destruct (align_divide w z) as [y Hy].
  assert (Z.odd y = true) as Hodd.
  { rewrite <- Z.negb_even. destruct (Z.even y) eqn:E; [|done]. exfalso.
    apply Z.even_spec in E as [x ->].
    assert (S (align w z) <= align w z)%nat; [|lia]. apply align_ge; [lia|lia|].
    exists x. rewrite pow2_succ. rewrite Hy at 1. ring. }
  apply Z.odd_spec in Hodd as [x ->]. exists (x + 1). rewrite pow2_succ. rewrite Hy at 1. ring.
Qed.

(** ** The blocks of a range *)

(** The block [(a, len)] holds the [2 ^ (w - len)] addresses from [a] on. *)
Definition in_block (w : nat) (b : Z * nat) (x : Z) : Prop :=
  b.1 <= x < b.1 + 2 ^ Z.of_nat (w - b.2).

Definition block_ok (w : nat) (b : Z * nat) : Prop :=
  0 <= b.1 < 2 ^ Z.of_nat w /\ (b.2 <= w)%nat /\ (2 ^ Z.of_nat (w - b.2) | b.1).

(** The blocks [l] are aligned and hold exactly the addresses from [cur] to
    [last]. *)
Definition covers (w : nat) (l : list (Z * nat)) (cur last : Z) : Prop :=
  Forall (block_ok w) l /\ forall x, Exists (fun b => in_block w b x) l <-> cur <= x <= last.

(** The step when [remaining] does not wrap. *)
Lemma range_step_nowrap w checked cur last :
  0 <= cur -> cur <= last -> last < 2 ^ Z.of_nat w -> last - cur + 1 < 2 ^ Z.of_nat w ->
  let h := Nat.min (align w cur) (Z.to_nat (Z.log2 (last - cur + 1))) in
  (h < w)%nat /\ (2 ^ Z.of_nat h | cur) /\ 2 ^ Z.of_nat h <= last - cur + 1 /\
  range_step checked w cur last =
    Ret ((w - h)%nat,
         if cur + 2 ^ Z.of_nat h <? 2 ^ Z.of_nat w then Some (cur + 2 ^ Z.of_nat h)
         else if (h =? 0)%nat then None else Some (2 ^ Z.of_nat w - 1)).
Proof.
  intros H0 Hle Hlast Hrem h. set (rem := last - cur + 1) in *.
  assert (2 ^ Z.of_nat h <= rem) as Hh.
  { trans (2 ^ Z.log2 rem); [|apply Z.log2_spec; lia]. apply Z.pow_le_mono_r; [lia|].
    pose proof (Z.log2_nonneg rem). lia. }
  assert (h < w)%nat as Hhw.
  { destruct (Nat.lt_ge_cases h w) as [|Hge]; [done|]. pose proof (pow2_le _ _ Hge). lia. }
  assert (2 ^ Z.of_nat h | cur) as Hdiv.
  { etrans; [|apply (align_divide w cur)]. apply pow2_divide. unfold h. lia. }
  split_and!; [done..|]. unfold range_step. fold (align w cur) rem.
  destruct (Z.leb_spec (2 ^ Z.of_nat w) rem); [lia|]. rewrite andb_false_r.
  rewrite Z.mod_small by lia. destruct (Z.eqb_spec rem 0); [lia|]. fold h.
  destruct (Nat.ltb_spec h w); [|lia]. pose proof (pow2_pos h).
  destruct (Z.eqb_spec (2 ^ Z.of_nat h) 0); [lia|]. cbn [orb].
  destruct (Z.ltb_spec (cur + 2 ^ Z.of_nat h) (2 ^ Z.of_nat w)) as [Hlt|Hge].
  - rewrite Z.min_l by lia. destruct (Z.leb_spec (cur + 2 ^ Z.of_nat h) cur); [lia|done].
  - rewrite Z.min_r by lia. assert (cur + 2 ^ Z.of_nat h = 2 ^ Z.of_nat w) as E by lia.
    destruct (Nat.eqb_spec h 0) as [Eh|Eh].
    + rewrite Eh in E. simpl in E. destruct (Z.leb_spec (2 ^ Z.of_nat w - 1) cur); [done|lia].
    + assert (2 ^ Z.of_nat 1 <= 2 ^ Z.of_nat h) by (apply pow2_le; lia). simpl in *.
      destruct (Z.leb_spec (2 ^ Z.of_nat w - 1) cur); [lia|done].
Qed.

Lemma covers_cons w h cur last next l :
  (h < w)%nat -> 0 <= cur < 2 ^ Z.of_nat w -> (2 ^ Z.of_nat h | cur) ->
  2 ^ Z.of_nat h <= last - cur + 1 ->
  (next <= cur + 2 ^ Z.of_nat h /\ cur <= next) ->
  covers w l next last -> covers w ((cur, (w - h)%nat) :: l) cur last.
Proof.
  intros Hh Hcur Hdiv Hle Hnext [Hok Hc].
  assert (w - (w - h) = h)%nat as Ew by lia. pose proof (pow2_pos h). split.
  - constructor; [|done]. split_and!; cbn; [lia..|lia|]. by rewrite Ew.
  - intros x. rewrite Exists_cons, Hc. unfold in_block. cbn. rewrite Ew. lia.
Qed.

Lemma covers_nil w cur last : last < cur -> covers w [] cur last.
Proof. intros H. split; [done|]. intros x. rewrite Exists_nil. lia. Qed.

(** The fuel the loop needs from [cur] on. *)
Definition range_measure (w : nat) (cur last : Z) : nat :=
  let l := Z.to_nat (Z.log2 (last - cur + 1)) in
  if (l <=? align w cur)%nat then (l + 2)%nat else (2 * w - align w cur + 2)%nat.

Lemma range_measure_pos w cur last : (2 <= range_measure w cur last)%nat.
Proof. unfold range_measure. case_match; lia. Qed.

Lemma log2_lt_pow2 z n : 0 < z < 2 ^ Z.of_nat n -> (Z.to_nat (Z.log2 z) < n)%nat.
Proof.
  intros Hz. pose proof (Z.log2_nonneg z). assert (Z.log2 z < Z.of_nat n); [|lia].
  apply Z.log2_lt_pow2; lia.
Qed.

(** The measure decreases from one block to the next. *)
Lemma range_measure_next w cur last :
  0 <= cur -> last < 2 ^ Z.of_nat w -> last - cur + 1 < 2 ^ Z.of_nat w ->
  let h := Nat.min (align w cur) (Z.to_nat (Z.log2 (last - cur + 1))) in
  cur + 2 ^ Z.of_nat h <= last ->
  (range_measure w (cur + 2 ^ Z.of_nat h) last < range_measure w cur last)%nat.
Proof.
  intros H0 Hlast Hrem h Hle. pose proof (pow2_pos h) as Hpos. set (rem := last - cur + 1) in *.
  unfold range_measure. fold rem.
  set (L := Z.to_nat (Z.log2 rem)) in *. set (T := align w cur) in *.
  replace (last - (cur + 2 ^ Z.of_nat h) + 1) with (rem - 2 ^ Z.of_nat h) by (unfold rem; lia).
  assert (0 < rem - 2 ^ Z.of_nat h) as Hrem' by (unfold rem; lia).
  assert (Z.to_nat (Z.log2 (rem - 2 ^ Z.of_nat h)) < w)%nat as HL'w by (apply log2_lt_pow2; lia).
  assert (L < w)%nat as HLw by (apply log2_lt_pow2; lia).
  destruct (Nat.leb_spec L T) as [HLT|HTL].
  - assert (h = L) as Eh by (unfold h; lia). rewrite Eh in *.
    assert (Z.to_nat (Z.log2 (rem - 2 ^ Z.of_nat L)) < L)%nat as HL'.
    { apply log2_lt_pow2. split; [done|]. pose proof (Z.log2_spec rem ltac:(lia)) as [_ Hs].
      pose proof (Z.log2_nonneg rem). rewrite Z.pow_succ_r in Hs by lia.
      unfold L. rewrite Z2Nat.id by lia. lia. }
    assert (L <= align w (cur + 2 ^ Z.of_nat L))%nat as HT'.
    { apply align_ge; [lia|lia|]. apply Z.divide_add_r; [|done].
      etrans; [|apply (align_divide w cur)]. by apply pow2_divide. }
    destruct (Nat.leb_spec (Z.to_nat (Z.log2 (rem - 2 ^ Z.of_nat L))) (align w (cur + 2 ^ Z.of_nat L)));
      lia.
  - assert (h = T) as Eh by (unfold h; lia). rewrite Eh in *.
    assert (0 < cur) as Hcur.
    { destruct (Z.eq_dec cur 0) as [E|]; [|lia]. exfalso. unfold T, align in HTL. rewrite E in HTL.
      simpl in HTL. lia. }
    pose proof (align_next w cur Hcur ltac:(fold T; lia)) as HT'. fold T in HT'.
    destruct (Nat.leb_spec (Z.to_nat (Z.log2 (rem - 2 ^ Z.of_nat T))) (align w (cur + 2 ^ Z.of_nat T)));
      lia.
Qed.

Lemma range_loop_nowrap w checked last : forall fuel cur,
  (0 < w)%nat -> 0 <= cur -> cur <= last -> last < 2 ^ Z.of_nat w -> last - cur + 1 < 2 ^ Z.of_nat w ->
  (range_measure w cur last <= fuel)%nat ->
  exists l, range_loop fuel checked w cur last = Ret l /\ covers w l cur last.
Proof.
  induction fuel as [|fuel IH]; intros cur Hw H0 Hle Hlast Hrem Hfuel.
  { pose proof (range_measure_pos w cur last). lia. }
  destruct (range_step_nowrap w checked cur last) as (Hh & Hdiv & Hsz & Es); [done..|].
  pose proof (range_measure_next w cur last H0 Hlast Hrem) as Hmeas. cbv zeta in Hmeas.
  set (h := Nat.min (align w cur) (Z.to_nat (Z.log2 (last - cur + 1)))) in *.
  pose proof (pow2_pos h) as Hpos. cbn [range_loop]. destruct (Z.ltb_spec last cur); [lia|].
  rewrite Es, run_bind_Ret. cbn [fst snd].
  assert (1 <= fuel)%nat as Hf1 by (pose proof (range_measure_pos w cur last); lia).
  destruct (Z.ltb_spec (cur + 2 ^ Z.of_nat h) (2 ^ Z.of_nat w)) as [Hlt|Hge].
  - assert (exists l, range_loop fuel checked w (cur + 2 ^ Z.of_nat h) last = Ret l /\
              covers w l (cur + 2 ^ Z.of_nat h) last) as (l & -> & Hl).
    { destruct (Z.le_gt_cases (cur + 2 ^ Z.of_nat h) last) as [Hle2|Hgt].
      - apply IH; [done|lia..| ]. specialize (Hmeas Hle2). lia.
      - destruct fuel as [|fuel]; [lia|]. cbn [range_loop].
        destruct (Z.ltb_spec last (cur + 2 ^ Z.of_nat h)); [|lia].
        exists []. split; [done|by apply covers_nil]. }
    rewrite run_bind_Ret. eexists. split; [done|]. apply (covers_cons w h cur last (cur + 2 ^ Z.of_nat h) l Hh); done || lia.
  - destruct (Nat.eqb_spec h 0) as [Eh|Eh].
    + eexists. split; [done|]. apply (covers_cons w h cur last (cur + 1) [] Hh); try done; try lia.
      apply covers_nil. rewrite Eh in *. simpl in *. lia.
    + assert (last = 2 ^ Z.of_nat w - 1) as Elast by lia. rewrite <- Elast.
      destruct fuel as [|fuel]; [lia|]. cbn [range_loop].
      destruct (Z.ltb_spec last last); [lia|].
      destruct (range_step_nowrap w checked last last) as (_ & Hd2 & Hs2 & Es2); [lia..|].
      replace (last - last + 1) with 1 in * by lia. change (Z.to_nat (Z.log2 1)) with 0%nat in *.
      rewrite Nat.min_0_r in *. rewrite Es2, run_bind_Ret. change (2 ^ Z.of_nat 0) with 1.
      destruct (Z.ltb_spec (last + 1) (2 ^ Z.of_nat w)); [lia|]. cbn [Nat.eqb fst snd]. rewrite run_bind_Ret.
      eexists. split; [done|]. apply (covers_cons w h cur last last [(last, (w - 0)%nat)] Hh); try done; try lia.
      apply (covers_cons w 0 last last (last + 1) []); try done; try lia. apply covers_nil. lia.
Qed.

Lemma range_measure_bound w cur last :
  0 <= cur -> last < 2 ^ Z.of_nat w -> cur <= last -> (range_measure w cur last <= 2 * w + 2)%nat.
Proof.
  intros. unfold range_measure.
  assert (Z.to_nat (Z.log2 (last - cur + 1)) <= w)%nat as HL.
  { pose proof (Z.log2_le_mono (last - cur + 1) (2 ^ Z.of_nat w) ltac:(lia)) as Hm.
    rewrite Z.log2_pow2 in Hm by lia. lia. }
  destruct (Nat.leb_spec (Z.to_nat (Z.log2 (last - cur + 1))) (align w cur)); lia.
Qed.

(** The loop covers the range.  With overflow checks it panics on the full
    range, without them it covers that one too. *)
Lemma range_loop_spec w checked cur last :
  (0 < w)%nat -> 0 <= cur -> cur <= last -> last < 2 ^ Z.of_nat w ->
  if checked && bool_decide (last - cur + 1 = 2 ^ Z.of_nat w)
  then range_loop (range_fuel w) checked w cur last = Panic
  else exists l, range_loop (range_fuel w) checked w cur last = Ret l /\ covers w l cur last.
Proof.
  intros Hw H0 Hle Hlast. pose proof (pow2_pos w) as Hpw.
  destruct (Z.eq_dec (last - cur + 1) (2 ^ Z.of_nat w)) as [E|E].
  2:{ rewrite bool_decide_eq_false_2, andb_false_r by done. apply range_loop_nowrap; [done..|lia|].
      pose proof (range_measure_bound w cur last H0 Hlast Hle). unfold range_fuel. lia. }
  rewrite bool_decide_eq_true_2, andb_true_r by done. assert (cur = 0) as -> by lia.
  assert (range_step checked w 0 last = if checked then Panic else Ret (w, Some 1)) as Es.
  { unfold range_step. rewrite E. rewrite (proj2 (Z.leb_le _ _)) by lia. rewrite andb_true_r.
    destruct checked; [done|]. rewrite Z_mod_same_full. cbn [Z.eqb]. rewrite Nat.min_0_r, Nat.sub_0_r.
    destruct (Nat.ltb_spec 0 w); [|lia]. simpl (2 ^ Z.of_nat 0). simpl (0 + 1).
    assert (2 ^ Z.of_nat 1 <= 2 ^ Z.of_nat w) by (apply pow2_le; lia). simpl (2 ^ Z.of_nat 1) in *.
    rewrite Z.min_l by lia. done. }
  unfold range_fuel. replace (2 * w + 5)%nat with (S (2 * w + 4)) by lia. cbn [range_loop].
  destruct (Z.ltb_spec last 0); [lia|]. rewrite Es. destruct checked; [done|].
  rewrite run_bind_Ret. cbn [fst snd].
  assert (exists l, range_loop (2 * w + 4) false w 1 last = Ret l /\ covers w l 1 last) as (l & -> & Hl).
  { destruct (Z.le_gt_cases 1 last) as [H1|H1].
    - apply range_loop_nowrap; [done|lia..|]. pose proof (range_measure_bound w 1 last). lia.
    - replace (2 * w + 4)%nat with (S (2 * w + 3)) by lia. cbn [range_loop].
      destruct (Z.ltb_spec last 1); [|lia]. exists []. split; [done|by apply covers_nil]. }
  rewrite run_bind_Ret. eexists. split; [done|]. rewrite <- (Nat.sub_0_r w) at 2.
  apply (covers_cons w 0 0 last 1 l Hw); try done; try (simpl; lia). apply Z.divide_0_r.
Qed.

(** ** Blocks as prefixes *)

Lemma block_shift h a x :
  (2 ^ Z.of_nat h | a) ->
  Z.shiftr a (Z.of_nat h) = Z.shiftr x (Z.of_nat h) <-> a <= x < a + 2 ^ Z.of_nat h.
Proof.
  intros [y ->]. rewrite !Z.shiftr_div_pow2 by lia. pose proof (pow2_pos h).
  rewrite Z.div_mul by lia. split.
  - intros ->. pose proof (Z.div_mod x (2 ^ Z.of_nat h) ltac:(lia)).
    pose proof (Z.mod_pos_bound x (2 ^ Z.of_nat h) ltac:(lia)). lia.
  - intros Hx. apply (Z.div_unique x (2 ^ Z.of_nat h) y (x - y * 2 ^ Z.of_nat h)); lia.
Qed.

Lemma pow256_pow2 n : 256 ^ Z.of_nat n = 2 ^ Z.of_nat (8 * n).
Proof. rewrite Nat2Z.inj_mul, Z.pow_mul_r by lia. done. Qed.

(** The prefix of a block contains the addresses of the block. *)
Lemma block_contains (mk : list Z -> IpAddr) n b o :
  (mk = V4 /\ n = 4%nat) \/ (mk = V6 /\ n = 16%nat) ->
  block_ok (8 * n) b -> wf_bytes o -> length o = n ->
  wf {| p_addr := mk (to_be_bytes n b.1); p_bits := b.2 |} /\
  (contains {| p_addr := mk (to_be_bytes n b.1); p_bits := b.2 |} (mk o) = true <->
   in_block (8 * n) b (from_be_bytes o)).
Proof.
  intros Hmk ((Hb0 & Hb1) & Hlen & Hdiv) Ho Hol.
  set (c := to_be_bytes n b.1).
  assert (wf_bytes c /\ length c = n) as [Hc Hcl] by (split; [apply wf_to_be_bytes|apply length_to_be_bytes]).
  assert (wf_ip (mk c) /\ wf_ip (mk o) /\ bit_len (mk c) = (8 * n)%nat /\ octets (mk c) = c /\
    octets (mk o) = o /\ is_ipv4 (mk c) = is_ipv4 (mk o)) as (W1 & W2 & W3 & W4 & W5 & W6).
  { destruct Hmk as [[-> ->]|[-> ->]]; by split_and!. }
  assert (wf {| p_addr := mk c; p_bits := b.2 |}) as Hwf.
  { split; cbn [p_addr p_bits]; [done|by rewrite W3]. }
  split; [done|]. rewrite fcontains_spec by done. cbn [p_addr p_bits].
  unfold ip_bits. rewrite W4, W5. trans (take b.2 (bits_of c) = take b.2 (bits_of o)).
  { split; [by intros [_ ->]|by intros ->]. }
  rewrite <- shiftr_eq_take by (done || congruence || lia). rewrite Hcl.
  unfold c. rewrite from_to_be_bytes_small.
  2:{ rewrite pow256_pow2. lia. }
  unfold in_block. by apply block_shift.
Qed.

(** The prefixes made of covering blocks contain exactly the range. *)
Lemma covers_contains (mk : list Z -> IpAddr) n l cur last o :
  (mk = V4 /\ n = 4%nat) \/ (mk = V6 /\ n = 16%nat) ->
  covers (8 * n) l cur last -> wf_bytes o -> length o = n ->
  let ps := map (fun x => {| p_addr := mk (to_be_bytes n x.1); p_bits := x.2 |}) l in
  Forall wf ps /\
  existsb (fun p => contains p (mk o)) ps =
    (cur <=? from_be_bytes o) && (from_be_bytes o <=? last).
Proof.
  intros Hmk [Hok Hc] Ho Hol ps. split.
  - apply Forall_fmap. revert Hok. apply Forall_impl. intros b Hb.
    by apply (block_contains mk n b o Hmk Hb Ho Hol).
  - apply Bool.eq_iff_eq_true. rewrite andb_true_iff, !Z.leb_le.
    trans (Exists (fun b => in_block (8 * n) b (from_be_bytes o)) l); [|by apply Hc].
    unfold ps. rewrite existsb_map, existsb_elem, list.Exists_exists. rewrite list.Forall_forall in Hok.
    split; intros (b & Hb & H); exists b; (split; [done|]);
      by apply (block_contains mk n b o Hmk (Hok b Hb) Ho Hol).
Qed.

Lemma from_be_bytes_range o n :
  wf_bytes o -> length o = n -> 0 <= from_be_bytes o < 2 ^ Z.of_nat (8 * n).
Proof.
  intros Ho <-. rewrite <- pow256_pow2. by apply from_be_bytes_bound.
Qed.

Lemma range_prefixes_spec (mk : list Z -> IpAddr) n checked s e :
  (mk = V4 /\ n = 4%nat) \/ (mk = V6 /\ n = 16%nat) ->
  wf_bytes s -> length s = n -> wf_bytes e -> length e = n ->
  let cur := from_be_bytes s in
  let last := from_be_bytes e in
  let res :=
    if last <? cur then Ret []
    else l ← range_loop (range_fuel (8 * n)) checked (8 * n) cur last;
         Ret (map (fun x => {| p_addr := mk (to_be_bytes n x.1); p_bits := x.2 |}) l) in
  if checked && bool_decide (cur = 0 /\ last = 2 ^ Z.of_nat (8 * n) - 1) then res = Panic
  else exists ps, res = Ret ps /\ Forall wf ps /\ Forall (fun p => exists o, p_addr p = mk o) ps /\
    forall o, wf_bytes o -> length o = n ->
      existsb (fun p => contains p (mk o)) ps =
      (cur <=? from_be_bytes o) && (from_be_bytes o <=? last).
Proof.
  intros Hmk Hs Hsl He Hel cur last. pose proof (from_be_bytes_range _ _ Hs Hsl) as Rs.
  pose proof (from_be_bytes_range _ _ He Hel) as Re. fold cur in Rs. fold last in Re. cbv zeta.
  assert (0 < 8 * n)%nat as Hw by (destruct Hmk as [[_ ->]|[_ ->]]; lia).
  destruct (Z.ltb_spec last cur) as [Hlt|Hle].
  - rewrite bool_decide_eq_false_2 by (pose proof (pow2_pos (8 * n)); lia). rewrite andb_false_r.
    exists []. split_and!; [done..|]. intros o _ _. simpl.
    destruct (Z.leb_spec cur (from_be_bytes o)), (Z.leb_spec (from_be_bytes o) last); simpl; done || lia.
  - pose proof (range_loop_spec (8 * n) checked cur last Hw ltac:(lia) Hle ltac:(lia)) as Hl.
    rewrite (bool_decide_ext (cur = 0 /\ last = 2 ^ Z.of_nat (8 * n) - 1)
      (last - cur + 1 = 2 ^ Z.of_nat (8 * n))) by lia.
    destruct (checked && _); [by rewrite Hl|]. destruct Hl as (l & -> & Hc). rewrite run_bind_Ret.
    eexists. split; [done|]. split_and!.
    + by apply (covers_contains mk n l cur last s Hmk Hc Hs Hsl).
    + apply Forall_fmap. apply list.Forall_forall. intros x _. cbn. eauto.
    + intros o Ho Hol. by apply (covers_contains mk n l cur last o Hmk Hc Ho Hol).
Qed.

(** Prefixes of one family contain no address of the other. *)
Lemma other_family (mk mk' : list Z -> IpAddr) ps o :
  (forall o1 o2, is_ipv4 (mk o1) <> is_ipv4 (mk' o2)) ->
  Forall (fun p => exists o, p_addr p = mk o) ps ->
  existsb (fun p => contains p (mk' o)) ps = false.
Proof.
  intros Hne Hps. apply Bool.not_true_iff_false. rewrite existsb_elem. intros (p & Hp & Hc).
  rewrite list.Forall_forall in Hps. destruct (Hps p Hp) as [q Eq]. specialize (Hne q o).
  unfold contains in Hc. rewrite Eq in Hc. by destruct (mk q), (mk' o).
Qed.

(** Masking clears the host bits. *)
Lemma land_net_mask w b x :
  (b <= w)%nat -> 0 <= x < 2 ^ Z.of_nat w ->
  Z.land x (net_mask w b) = x - x mod 2 ^ Z.of_nat (w - b).
Proof.
  intros Hb Hx. unfold net_mask. destruct (Nat.eqb_spec b 0) as [->|H0].
  { rewrite Nat.sub_0_r, Z.mod_small, Z.land_0_r by lia. lia. }
  pose proof (pow2_pos (w - b)) as Hpos.
  replace (x - x mod 2 ^ Z.of_nat (w - b)) with (Z.ldiff x (Z.ones (Z.of_nat (w - b)))).
  2:{ rewrite Z.ldiff_ones_r, Z.shiftl_mul_pow2, Z.shiftr_div_pow2 by lia.
      pose proof (Z.div_mod x (2 ^ Z.of_nat (w - b)) ltac:(lia)). lia. }
  rewrite <- Z.land_ones by lia. apply Z.bits_inj'. intros n Hn.
  rewrite Z.ldiff_spec, !Z.land_spec, Z.shiftl_spec, !Z.testbit_ones by lia.
  destruct (Z.testbit x n) eqn:Ht; [|done]. cbn [andb].
  assert (n < Z.of_nat w) as Hnw.
  { destruct (Z.lt_ge_cases n (Z.of_nat w)); [done|]. exfalso.
    assert (Z.testbit x n = false); [|congruence].
    destruct (Z.eq_dec x 0) as [->|]; [apply Z.bits_0|]. apply Z.bits_above_log2; [lia|].
    assert (Z.log2 x < Z.of_nat w) by (apply Z.log2_lt_pow2; lia). lia. }
  repeat match goal with |- context [?a <=? ?c] => destruct (Z.leb_spec a c) end;
  repeat match goal with |- context [?a <? ?c] => destruct (Z.ltb_spec a c) end; simpl; try done; lia.
Qed.

(** The address of a prefix read as an integer. *)
Definition addr_int (p : IpPrefix) : Z := from_be_bytes (octets (p_addr p)).

Lemma is_masked_spec p :
  wf p -> is_masked p = true <-> addr_int p mod 2 ^ Z.of_nat (bit_len (p_addr p) - p_bits p) = 0.
Proof.
  intros [[Hw Hl] Hb]. unfold is_masked, addr_int. unfold bit_len, is_ipv6, addr_len in *.
  destruct (p_addr p) as [o|o]; cbn [octets is_ipv4 negb] in *;
    rewrite Z.eqb_eq, land_net_mask by (done || by apply (from_be_bytes_range _ _ Hw Hl)); lia.
Qed.

(** A host prefix contains its address only. *)
Lemma host_prefix_contains a x :
  wf_ip a -> wf_ip x -> contains (host_prefix a) x = bool_decide (x = a).
Proof.
  intros Ha Hx. apply Bool.eq_iff_eq_true. rewrite bool_decide_eq_true.
  assert (wf (host_prefix a)) as Hw by (split; [done|by destruct a]).
  rewrite fcontains_spec by done. cbn [host_prefix p_addr p_bits].
  pose proof (length_ip_bits a Ha) as La. pose proof (length_ip_bits x Hx) as Lx.
  unfold addr_len in La, Lx. split.
  - intros [Hf E]. rewrite Hf in La. apply ip_bits_inj; [done..|].
    rewrite !take_ge in E by (destruct (is_ipv4 a), (is_ipv4 x); simpl in *; done || lia). done.
  - intros ->. done.
Qed.

(** The wildcard prefixes contain every address. *)
Lemma wildcard_contains x : existsb (fun p => contains p x) wildcard_prefixes = true.
Proof. by destruct x. Qed.

(** [range_to_prefixes_v4] computes prefixes that together contain exactly
    the IPv4 addresses from [start] to [end] (none when [start > end]) and no
    IPv6 address; the loop terminates.  The one exception is the whole address
    space with overflow checks on, where computing its size panics. *)
Theorem range_v4_covers (checked : bool) (s e : list Z) :
  wf_ip (V4 s) -> wf_ip (V4 e) ->
  if checked && bool_decide (from_be_bytes s = 0 /\ from_be_bytes e = 2 ^ 32 - 1)
  then range_to_prefixes_v4 checked s e = Panic
  else exists ps, range_to_prefixes_v4 checked s e = Ret ps /\
    forall a, wf_ip a ->
      existsb (fun p => contains p a) ps =
      match a with
      | V4 o => (from_be_bytes s <=? from_be_bytes o) && (from_be_bytes o <=? from_be_bytes e)
      | V6 _ => false
      end.
Proof.
  intros [Hs Hsl] [He Hel].
  pose proof (range_prefixes_spec V4 4 checked s e (or_introl (conj eq_refl eq_refl)) Hs Hsl He Hel) as H.
  cbv zeta in H. change (2 ^ Z.of_nat (8 * 4)) with (2 ^ 32) in H. unfold range_to_prefixes_v4.
  destruct (checked && _); [exact H|]. destruct H as (ps & E & _ & Hfam & Hin).
  exists ps. split; [exact E|]. intros [o|o] [Ho Hol]; [by apply Hin|by apply (other_family V4 V6)].
Qed.

Lemma range_v4_covers_witness :
  let s := [10; 0; 0; 3] in let e := [10; 0; 1; 130] in
  (wf_ip (V4 s) /\ wf_ip (V4 e)) /\
  exists ps, range_to_prefixes_v4 true s e = Ret ps /\
    forall a, wf_ip a ->
      existsb (fun p => contains p a) ps =
      match a with
      | V4 o => (from_be_bytes s <=? from_be_bytes o) && (from_be_bytes o <=? from_be_bytes e)
      | V6 _ => false
      end.
Proof.
  intros s e.
  assert (wf_ip (V4 s)) as Hs by (apply (bool_decide_unpack (wf_ip (V4 s))); vm_compute; exact I).
  assert (wf_ip (V4 e)) as He by (apply (bool_decide_unpack (wf_ip (V4 e))); vm_compute; exact I).
  split; [exact (conj Hs He)|]. exact (range_v4_covers true s e Hs He).
Defined.

(** [range_to_prefixes_v6] likewise covers exactly the IPv6 addresses of
    the range. *)
Theorem range_v6_covers (checked : bool) (s e : list Z) :
  wf_ip (V6 s) -> wf_ip (V6 e) ->
  if checked && bool_decide (from_be_bytes s = 0 /\ from_be_bytes e = 2 ^ 128 - 1)
  then range_to_prefixes_v6 checked s e = Panic
  else exists ps, range_to_prefixes_v6 checked s e = Ret ps /\
    forall a, wf_ip a ->
      existsb (fun p => contains p a) ps =
      match a with
      | V6 o => (from_be_bytes s <=? from_be_bytes o) && (from_be_bytes o <=? from_be_bytes e)
      | V4 _ => false
      end.
Proof.
  intros [Hs Hsl] [He Hel].
  pose proof (range_prefixes_spec V6 16 checked s e (or_intror (conj eq_refl eq_refl)) Hs Hsl He Hel) as H.
  cbv zeta in H. change (2 ^ Z.of_nat (8 * 16)) with (2 ^ 128) in H. unfold range_to_prefixes_v6.
  destruct (checked && _); [exact H|]. destruct H as (ps & E & _ & Hfam & Hin).
  exists ps. split; [exact E|]. intros [o|o] [Ho Hol]; [by apply (other_family V6 V4)|by apply Hin].
Qed.

Lemma range_v6_covers_witness :
  let s := 0xfd :: replicate 14 0 ++ [9] in let e := 0xfd :: replicate 13 0 ++ [7; 200] in
  (wf_ip (V6 s) /\ wf_ip (V6 e)) /\
  exists ps, range_to_prefixes_v6 false s e = Ret ps /\
    forall a, wf_ip a ->
      existsb (fun p => contains p a) ps =
      match a with
      | V6 o => (from_be_bytes s <=? from_be_bytes o) && (from_be_bytes o <=? from_be_bytes e)
      | V4 _ => false
      end.
Proof.
  intros s e.
  assert (wf_ip (V6 s)) as Hs by (apply (bool_decide_unpack (wf_ip (V6 s))); vm_compute; exact I).
  assert (wf_ip (V6 e)) as He by (apply (bool_decide_unpack (wf_ip (V6 e))); vm_compute; exact I).
  split; [exact (conj Hs He)|]. exact (range_v6_covers false s e Hs He).
Defined.

Lemma fcontains_art p a :
  wf p -> wf_ip a -> contains p a = ArtPrefix.contains {| addr := p_addr p; bits := p_bits p |} a.
Proof.
  intros Hp Ha. apply Bool.eq_iff_eq_true.
  rewrite fcontains_spec, contains_spec by done. unfold pbits. cbn [addr bits].
  by rewrite is_ipv4_ipv6.
Qed.

(** The filter's two containment algorithms (a shift of the big-endian
    integer for IPv4, a masked octet comparison for IPv6) compute the same
    predicate as the routing table's common-prefix-length algorithm. *)
Theorem filter_contains_is_art_contains (p : IpPrefix) (a : IpAddr) :
  wf p -> wf_ip a ->
  contains p a = ArtPrefix.contains {| addr := p_addr p; bits := p_bits p |} a.
Proof. apply fcontains_art. Qed.

Lemma filter_contains_is_art_contains_witness :
  let p := {| p_addr := V6 (0xfd :: replicate 15 0); p_bits := 7 |} in
  let a := V6 (0xfc :: replicate 14 0 ++ [1]) in
  (wf p /\ wf_ip a) /\ ArtPrefix.contains {| addr := p_addr p; bits := p_bits p |} a = true.
Proof.
  intros p a.
  assert (wf p) as Hp by (apply (bool_decide_unpack (wf p)); vm_compute; exact I).
  assert (wf_ip a) as Ha by (apply (bool_decide_unpack (wf_ip a)); vm_compute; exact I).
  split; [exact (conj Hp Ha)|]. rewrite <- (filter_contains_is_art_contains p a Hp Ha).
  vm_compute. reflexivity.
Defined.
