(* ===== verification/FilterMatch.v ===== *)
(** * Compiled rules: [crates/filter/src/match.rs]

    A [Match] admits a packet by protocol, source and destination.  [matches],
    [matches_ips_only] and [matches_proto_and_ips_only_if_all_ports] are the
    three tests the filter applies; the partition by address family is proved
    not to change the first and the third on packets of that family. *)

From S2P Require Import Prelude Bytes IpAddr Packet FilterPrefix.

Record PortRange : Type := { first : Z; last : Z }.
#[global] Instance PortRange_eq_dec : EqDecision PortRange.
Proof. solve_decision. Defined.

Definition PORT_ALL : PortRange := {| first := 0; last := 65535 |}.
(** [PortRange::contains]. *)
Definition port_contains (r : PortRange) (p : Z) : bool := (first r <=? p) && (p <=? last r).

Record NetPortRange : Type := { net : IpPrefix; ports : PortRange }.
Record CapMatch : Type := { cm_dst : IpPrefix; cm_cap : string; cm_values : list string }.
Record Match : Type := {
  ip_proto : list Z;
  srcs : list IpPrefix;
  src_caps : list string;
  dsts : list NetPortRange;
  m_caps : list CapMatch }.

(** [Match::srcs_contains]. *)
Definition srcs_contains (m : Match) (src : IpAddr) : bool := existsb (fun p => contains p src) (srcs m).

Section matching.
Variable has_cap : IpAddr -> string -> bool.

(** The source test of [Matches::matches]: a prefix or a capability. *)
Definition src_ok (m : Match) (src : IpAddr) : bool :=
  negb (negb (srcs_contains m src) && negb (existsb (has_cap src) (src_caps m))).

(** [Matches::matches]. *)
Fixpoint matches (ms : list Match) (q : PacketInfo) : bool :=
  match ms with
  | [] => false
  | m :: ms' =>
      if negb (existsb (Z.eqb (proto q)) (ip_proto m)) then matches ms' q
      else if negb (srcs_contains m (src q)) && negb (existsb (has_cap (src q)) (src_caps m))
      then matches ms' q
      else if existsb (fun d => contains (net d) (dst q) && port_contains (ports d) (dst_port q)) (dsts m)
      then true
      else matches ms' q
  end.

(** [Matches::matches_ips_only]. *)
Definition matches_ips_only (ms : list Match) (q : PacketInfo) : bool :=
  if existsb (fun m => srcs_contains m (src q) && existsb (fun d => contains (net d) (dst q)) (dsts m)) ms
  then true
  else existsb (fun m => existsb (has_cap (src q)) (src_caps m)) ms.
End matching.

(** [Matches::matches_proto_and_ips_only_if_all_ports]. *)
Fixpoint matches_proto_and_ips_only_if_all_ports (ms : list Match) (q : PacketInfo) : bool :=
  match ms with
  | [] => false
  | m :: ms' =>
      if negb (existsb (Z.eqb (proto q)) (ip_proto m)) then matches_proto_and_ips_only_if_all_ports ms' q
      else if negb (srcs_contains m (src q)) then matches_proto_and_ips_only_if_all_ports ms' q
      else if existsb (fun d => bool_decide (ports d = PORT_ALL) && contains (net d) (dst q)) (dsts m)
      then true
      else matches_proto_and_ips_only_if_all_ports ms' q
  end.

(** The match one family of [m] gets in [Matches::partition_by_family]. *)
Definition family_match (v4 : bool) (m : Match) : Match :=
  {| ip_proto := ip_proto m; src_caps := src_caps m;
     srcs := List.filter (fun s => Bool.eqb (is_v4 s) v4) (srcs m);
     dsts := List.filter (fun d => Bool.eqb (is_v4 (net d)) v4) (dsts m);
     m_caps := [] |}.
Definition nonempty {A} (l : list A) : bool := match l with [] => false | _ => true end.
Definition keep_match (m : Match) : bool :=
  (nonempty (srcs m) || nonempty (src_caps m)) && nonempty (dsts m).

(** [Matches::partition_by_family]. *)
Definition partition_by_family (ms : list Match) : list Match * list Match :=
  (List.filter keep_match (map (family_match true) ms),
   List.filter keep_match (map (family_match false) ms)).

(** The match one family of [m] gets in [Matches::partition_caps_by_family]. *)
Definition family_caps (v4 : bool) (m : Match) : Match :=
  {| ip_proto := []; src_caps := []; dsts := []; m_caps := m_caps m;
     srcs := List.filter (fun s => Bool.eqb (is_v4 s) v4) (srcs m) |}.

(** [Matches::partition_caps_by_family]. *)
Definition partition_caps_by_family (ms : list Match) : list Match * list Match :=
  let with_caps := List.filter (fun m => nonempty (m_caps m)) ms in
  (List.filter (fun m => nonempty (srcs m)) (map (family_caps true) with_caps),
   List.filter (fun m => nonempty (srcs m)) (map (family_caps false) with_caps)).

(** ** The tests as quantifiers over rules *)

Definition proto_in (m : Match) (q : PacketInfo) : bool := existsb (Z.eqb (proto q)) (ip_proto m).
Definition dst_port_in (m : Match) (q : PacketInfo) : bool :=
  existsb (fun d => contains (net d) (dst q) && port_contains (ports d) (dst_port q)) (dsts m).
Definition dst_all_ports_in (m : Match) (q : PacketInfo) : bool :=
  existsb (fun d => bool_decide (ports d = PORT_ALL) && contains (net d) (dst q)) (dsts m).

Lemma matches_exists hc ms q :
  matches hc ms q =
  existsb (fun m => proto_in m q && src_ok hc m (src q) && dst_port_in m q) ms.
Proof.
  induction ms as [|m ms IH]; simpl; [done|]. rewrite IH.
  change (existsb (Z.eqb (proto q)) (ip_proto m)) with (proto_in m q). unfold src_ok.
  destruct (proto_in m q); simpl; [|done].
  destruct (negb (srcs_contains m (src q)) && _); simpl; [done|].
  change (existsb _ (dsts m)) with (dst_port_in m q). by destruct (dst_port_in m q).
Qed.

Lemma matches_all_ports_exists ms q :
  matches_proto_and_ips_only_if_all_ports ms q =
  existsb (fun m => proto_in m q && srcs_contains m (src q) && dst_all_ports_in m q) ms.
Proof.
  induction ms as [|m ms IH]; simpl; [done|]. rewrite IH.
  change (existsb (Z.eqb (proto q)) (ip_proto m)) with (proto_in m q).
  destruct (proto_in m q); simpl; [|done]. destruct (srcs_contains m (src q)); simpl; [|done].
  change (existsb _ (dsts m)) with (dst_all_ports_in m q). by destruct (dst_all_ports_in m q).
Qed.

(** ** The partition by family *)

Lemma contains_family p a : contains p a = true -> is_v4 p = is_ipv4 a.
Proof. unfold contains, is_v4. by destruct (p_addr p), a. Qed.

(** Entries of the other family never contain an address of this one. *)
Lemma existsb_filter_family {A} (pfx : A -> IpPrefix) (g : A -> bool) (l : list A) a v4 :
  is_ipv4 a = v4 -> (forall x, g x = true -> contains (pfx x) a = true) ->
  existsb g (List.filter (fun x => Bool.eqb (is_v4 (pfx x)) v4) l) = existsb g l.
Proof.
  intros Ha Hg. induction l as [|x l IH]; simpl; [done|].
  destruct (Bool.eqb (is_v4 (pfx x)) v4) eqn:E; simpl; [by rewrite IH|]. rewrite IH.
  destruct (g x) eqn:Gx; [|done]. apply Hg, contains_family in Gx. rewrite Gx, Ha in E.
  by rewrite Bool.eqb_reflx in E.
Qed.

Lemma nonempty_existsb {A} (g : A -> bool) l : existsb g l = true -> nonempty l = true.
Proof. by destruct l. Qed.

Section family.
Variables (v4 : bool) (q : PacketInfo).
Hypotheses (Hsrc : is_ipv4 (src q) = v4) (Hdst : is_ipv4 (dst q) = v4).

Lemma family_srcs m : srcs_contains (family_match v4 m) (src q) = srcs_contains m (src q).
Proof. unfold srcs_contains. cbn [family_match srcs]. by apply (existsb_filter_family (fun p => p) _ _ (src q)). Qed.

Lemma family_dst_port m : dst_port_in (family_match v4 m) q = dst_port_in m q.
Proof.
  unfold dst_port_in. cbn [family_match dsts]. apply (existsb_filter_family net _ _ (dst q)); [done|].
  intros d. rewrite andb_true_iff. tauto.
Qed.

Lemma family_dst_all m : dst_all_ports_in (family_match v4 m) q = dst_all_ports_in m q.
Proof.
  unfold dst_all_ports_in. cbn [family_match dsts]. apply (existsb_filter_family net _ _ (dst q)); [done|].
  intros d. rewrite andb_true_iff. tauto.
Qed.

(** A rule of the family that matches is kept. *)
Lemma existsb_keep (g : Match -> bool) ms :
  (forall m, g m = true -> keep_match m = true) ->
  existsb g (List.filter keep_match ms) = existsb g ms.
Proof.
  intros Hg. induction ms as [|m ms IH]; simpl; [done|].
  destruct (keep_match m) eqn:E; simpl; [by rewrite IH|]. rewrite IH.
  destruct (g m) eqn:Gm; [|done]. apply Hg in Gm. congruence.
Qed.

Lemma src_ok_nonempty hc m a :
  src_ok hc m a = true -> nonempty (srcs m) || nonempty (src_caps m) = true.
Proof.
  unfold src_ok. rewrite negb_andb, !negb_involutive, !orb_true_iff.
  intros [H|H]; [left|right]; by eapply nonempty_existsb.
Qed.

Lemma family_matches hc ms :
  matches hc (List.filter keep_match (map (family_match v4) ms)) q = matches hc ms q.
Proof.
  rewrite !matches_exists, existsb_keep, existsb_map.
  - apply existsb_ext. intros m. rewrite family_dst_port. unfold src_ok. by rewrite family_srcs.
  - intros m. rewrite !andb_true_iff. intros [[_ Hs] Hd]. apply andb_true_iff. split.
    + by eapply src_ok_nonempty.
    + by eapply nonempty_existsb.
Qed.

Lemma family_matches_all_ports ms :
  matches_proto_and_ips_only_if_all_ports (List.filter keep_match (map (family_match v4) ms)) q =
  matches_proto_and_ips_only_if_all_ports ms q.
Proof.
  rewrite !matches_all_ports_exists, existsb_keep, existsb_map.
  - apply existsb_ext. intros m. by rewrite family_dst_all, family_srcs.
  - intros m. rewrite !andb_true_iff. intros [[_ Hs] Hd]. apply andb_true_iff. split.
    + apply orb_true_iff. left. by eapply nonempty_existsb.
    + by eapply nonempty_existsb.
Qed.

End family.

(** The compiled rules of one family. *)
Definition family_part (v4 : bool) (ms : list Match) : list Match :=
  if v4 then (partition_by_family ms).1 else (partition_by_family ms).2.

(** Compiling rules per address family loses and adds nothing: on a packet
    whose addresses are of that family, the partitioned rules admit by full
    match and by protocol-and-address match exactly when the original rules
    do. *)
Theorem partition_preserves_matching (hc : IpAddr -> string -> bool) (ms : list Match) (q : PacketInfo)
    (v4 : bool) :
  is_ipv4 (src q) = v4 -> is_ipv4 (dst q) = v4 ->
  matches hc (family_part v4 ms) q = matches hc ms q /\
  matches_proto_and_ips_only_if_all_ports (family_part v4 ms) q =
    matches_proto_and_ips_only_if_all_ports ms q.
Proof.
  intros Hs Hd. assert (family_part v4 ms = List.filter keep_match (map (family_match v4) ms)) as ->
    by (by destruct v4).
  split; [by apply family_matches|by apply family_matches_all_ports].
Qed.

Lemma partition_preserves_matching_witness :
  let any4 := {| p_addr := V4_UNSPECIFIED; p_bits := 0 |} in
  let any6 := {| p_addr := V6_UNSPECIFIED; p_bits := 0 |} in
  let m := {| ip_proto := [TCP]; srcs := [any4; any6]; src_caps := [];
              dsts := [{| net := any6; ports := PORT_ALL |}; {| net := any4; ports := {| first := 22; last := 22 |} |}];
              m_caps := [] |} in
  let q := {| version := 4; proto := TCP; src := V4 [100; 64; 0; 1]; dst := V4 [100; 64; 0; 2];
              src_port := 4000; dst_port := 22; tcp_flags := 2; is_tcp_syn := true;
              is_icmp_echo_reply := false; is_icmp_error := false |} in
  (is_ipv4 (src q) = true /\ is_ipv4 (dst q) = true) /\
  matches (fun _ _ => false) (family_part true [m]) q = true /\
  matches_proto_and_ips_only_if_all_ports (family_part true [m]) q = false.
Proof.
  intros any4 any6 m q. split; [split; reflexivity|].
  exact (partition_preserves_matching (fun _ _ => false) [m] q true eq_refl eq_refl).
Defined.

(** For ICMP the capability test is not tied to a destination: a source
    that holds a capability named by any rule passes [matches_ips_only] for
    every destination address. *)
Theorem ips_only_cap_ignores_dst (hc : IpAddr -> string -> bool) (ms : list Match) (m : Match)
    (c : string) (q : PacketInfo) :
  m ∈ ms -> c ∈ src_caps m -> hc (src q) c = true -> matches_ips_only hc ms q = true.
Proof.
  intros Hm Hc Hcap. unfold matches_ips_only. destruct (existsb _ ms); [done|].
  apply existsb_elem. exists m. split; [done|]. apply existsb_elem. eauto.
Qed.

Lemma ips_only_cap_ignores_dst_witness :
  let only_dst := {| p_addr := V4 [10; 0; 0; 1]; p_bits := 32 |} in
  let m := {| ip_proto := [TCP]; srcs := []; src_caps := ["admin"%string];
              dsts := [{| net := only_dst; ports := PORT_ALL |}]; m_caps := [] |} in
  let q := packet_info_default 4 ICMP_V4 (V4 [100; 64; 0; 1]) (V4 [192; 168; 7; 7]) in
  contains only_dst (dst q) = false /\ matches_ips_only (fun _ _ => true) [m] q = true.
Proof.
  intros only_dst m q. split; [reflexivity|].
  apply (ips_only_cap_ignores_dst (fun _ _ => true) [m] m "admin"%string q); [left|left|reflexivity].
Defined.
