(* ===== verification/FilterParse.v ===== *)
(** * Compiling filter rules: [crates/filter/src/parse.rs]

    The control plane sends rules whose sources and destinations are strings:
    a wildcard, a capability, a CIDR, a range or a bare address.  [parse_cidr]
    and [parse_ip_set] parse one of them, [matches_from_filter_rules] compiles a
    list of rules.  Every prefix they produce is proved well formed. *)

From Stdlib Require Import Ascii.
From S2P Require Import Prelude Bytes Bits IpAddr IpText Packet ArtPrefix FilterPrefix FilterMatch.

Inductive ParseError : Type :=
| InvalidCidr (s : string)
| InvalidIp (s : string)
| InvalidPrefixLen (s : string)
| NonNetworkBits (s : string)
| InvalidRange (s : string).

(** [parse_cidr]. *)
Definition parse_cidr (s : string) : result ParseError FilterPrefix.IpPrefix :=
  match split_once "/"%char s with
  | None => Err (InvalidCidr s)
  | Some (ip_str, bits_str) =>
      match parse_ip ip_str with
      | None => Err (InvalidIp ip_str)
      | Some a =>
          match parse_u8 bits_str with
          | None => Err (InvalidPrefixLen bits_str)
          | Some n =>
              let max_bits := if is_ipv4 a then 32 else 128 in
              if max_bits <? n then Err (InvalidPrefixLen bits_str)
              else
                let p := {| p_addr := a; p_bits := Z.to_nat n |} in
                if negb (is_masked p) then Err (NonNetworkBits s) else Ok p
          end
      end
  end.

Inductive IpSetResult : Type :=
| Prefixes (ps : list FilterPrefix.IpPrefix)
| Cap (c : string).

Section parse.
(** Whether arithmetic overflow panics (debug builds) or wraps. *)
Variable checked : bool.

(** [parse_ip_set]. *)
Definition parse_ip_set (arg : string) : run (result ParseError IpSetResult) :=
  if String.eqb arg "*"%string then Ret (Ok (Prefixes wildcard_prefixes))
  else
  match strip_prefix "cap:"%string arg with
  | Some cap => Ret (Ok (Cap cap))
  | None =>
      if contains_char "/"%char arg then
        Ret (p ← parse_cidr arg; Ok (Prefixes [p]))
      else if (count_char "-"%char arg =? 1)%nat then
        r ← expect (split_once "-"%char arg);
        let '(a, b) := r in
        match parse_ip a with
        | None => Ret (Err (InvalidIp a))
        | Some ip1 =>
            match parse_ip b with
            | None => Ret (Err (InvalidIp b))
            | Some ip2 =>
                match ip1, ip2 with
                | V4 s, V4 e =>
                    if from_be_bytes e <? from_be_bytes s then Ret (Err (InvalidRange arg))
                    else
                      pfxs ← range_to_prefixes_v4 checked s e;
                      if negb (nonempty pfxs) then Ret (Err (InvalidRange arg))
                      else Ret (Ok (Prefixes pfxs))
                | V6 s, V6 e =>
                    if from_be_bytes e <? from_be_bytes s then Ret (Err (InvalidRange arg))
                    else
                      pfxs ← range_to_prefixes_v6 checked s e;
                      if negb (nonempty pfxs) then Ret (Err (InvalidRange arg))
                      else Ret (Ok (Prefixes pfxs))
                | _, _ => Ret (Err (InvalidRange arg))
                end
            end
        end
      else
        Ret (a ← ok_or (parse_ip arg) (InvalidIp arg); Ok (Prefixes [host_prefix a]))
  end.

End parse.

(** ** Rules *)

(** [tailcfg::NetPortRange], [tailcfg::CapGrant] and [tailcfg::FilterRule]. *)
Record RuleDst : Type := { d_IP : string; d_Bits : option Z; d_Ports : PortRange }.
Record CapGrant : Type := {
  g_Dsts : list string; g_Caps : list string; g_CapMap : list (string * list string) }.
Record FilterRule : Type := {
  SrcIPs : list string;
  SrcBits : list Z;
  DstPorts : list RuleDst;
  IPProto : list Z;
  CapGrants : list CapGrant }.

(** [filter_allow_all]. *)
Definition filter_allow_all : list FilterRule :=
  [{| SrcIPs := ["*"%string]; SrcBits := [];
      DstPorts := [{| d_IP := "*"%string; d_Bits := None; d_Ports := PORT_ALL |}];
      IPProto := []; CapGrants := [] |}].

Definition DEFAULT_PROTOS : list Z := [TCP; UDP; ICMP_V4; ICMP_V6].

(** [first_err = first_err.or(Some(e))]. *)
Definition record_err (first_err : option ParseError) (e : ParseError) : option ParseError :=
  match first_err with Some e0 => Some e0 | None => Some e end.

Section rules.
Variable checked : bool.
(** The [Debug] rendering of a destination in an error message. *)
Variable debug_dst : RuleDst -> string.

(** [parse_cap_grant]. *)
Fixpoint parse_cap_grant_dsts (g : CapGrant) (ds : list string) : run (list CapMatch) :=
  match ds with
  | [] => Ret []
  | d :: ds' =>
      r ← parse_ip_set checked d;
      rest ← parse_cap_grant_dsts g ds';
      match r with
      | Ok (Prefixes ps) =>
          Ret (flat_map (fun p =>
                 map (fun c => {| cm_dst := p; cm_cap := c; cm_values := [] |}) (g_Caps g) ++
                 map (fun cv => {| cm_dst := p; cm_cap := cv.1; cm_values := cv.2 |}) (g_CapMap g)) ps
               ++ rest)
      | _ => Ret rest
      end
  end.
Definition parse_cap_grant (g : CapGrant) : run (list CapMatch) := parse_cap_grant_dsts g (g_Dsts g).

(** The loop over [r.SrcIPs]. *)
Fixpoint compile_srcs (ss : list string) (srcs : list FilterPrefix.IpPrefix) (caps : list string)
    (err : option ParseError) : run (list FilterPrefix.IpPrefix * list string * option ParseError) :=
  match ss with
  | [] => Ret (srcs, caps, err)
  | s :: ss' =>
      r ← parse_ip_set checked s;
      match r with
      | Ok (Prefixes ps) => compile_srcs ss' (srcs ++ ps) caps err
      | Ok (Cap c) => compile_srcs ss' srcs (caps ++ [c]) err
      | Err e => compile_srcs ss' srcs caps (record_err err e)
      end
  end.

Definition dst_bits_error : ParseError :=
  InvalidCidr "unexpected DstBits; control plane should not send this to this client version"%string.
Definition src_bits_error : ParseError :=
  InvalidCidr "unexpected SrcBits; control plane should not send this to this client version"%string.

(** The loop over [r.DstPorts]; [Err] is the early return. *)
Fixpoint compile_dsts (ds : list RuleDst) (dsts : list NetPortRange) (err : option ParseError)
  : run (result ParseError (list NetPortRange * option ParseError)) :=
  match ds with
  | [] => Ret (Ok (dsts, err))
  | d :: ds' =>
      match d_Bits d with
      | Some _ => Ret (Err dst_bits_error)
      | None =>
          r ← parse_ip_set checked (d_IP d);
          match r with
          | Ok (Prefixes ps) =>
              compile_dsts ds' (dsts ++ map (fun p => {| net := p; ports := d_Ports d |}) ps) err
          | Ok (Cap _) =>
              compile_dsts ds' dsts
                (record_err err (InvalidIp ("unexpected capability in DstPorts: "%string +:+ debug_dst d)))
          | Err e => compile_dsts ds' dsts (record_err err e)
          end
      end
  end.

(** The loop over [r.CapGrant]. *)
Fixpoint compile_caps (gs : list CapGrant) : run (list CapMatch) :=
  match gs with
  | [] => Ret []
  | g :: gs' => c ← parse_cap_grant g; rest ← compile_caps gs'; Ret (c ++ rest)
  end.

(** The protocols of a rule; [*n as u8] after the range check. *)
Definition rule_protos (r : FilterRule) : list Z :=
  match IPProto r with
  | [] => DEFAULT_PROTOS
  | ps => List.filter (fun n => (0 <=? n) && (n <=? 255)) ps
  end.

(** The loop of [matches_from_filter_rules] over the rules. *)
Fixpoint compile_rules (rules : list FilterRule) (ms : list Match) (err : option ParseError)
  : run (result ParseError (list Match * option ParseError)) :=
  match rules with
  | [] => Ret (Ok (ms, err))
  | r :: rules' =>
      if nonempty (SrcBits r) then Ret (Err src_bits_error)
      else
        s ← compile_srcs (SrcIPs r) [] [] err;
        let '(ss, caps, err) := s in
        d ← compile_dsts (DstPorts r) [] err;
        match d with
        | Err e => Ret (Err e)
        | Ok (ds, err) =>
            cms ← compile_caps (CapGrants r);
            let m := {| ip_proto := rule_protos r; srcs := ss; src_caps := caps; dsts := ds; m_caps := cms |} in
            compile_rules rules' (ms ++ [m]) err
        end
  end.

(** [matches_from_filter_rules]. *)
Definition matches_from_filter_rules (rules : list FilterRule) : run (result ParseError (list Match)) :=
  r ← compile_rules rules [] None;
  Ret (match r with
       | Err e => Err e
       | Ok (ms, Some e) => Err e
       | Ok (ms, None) => Ok ms
       end).

End rules.

(** ** Well-formedness of what is parsed *)

Lemma parse_cidr_wf s p : parse_cidr s = Ok p -> FilterPrefix.wf p.
Proof.
  unfold parse_cidr. destruct (split_once _ s) as [[a b]|]; [|done].
  destruct (parse_ip a) as [ip|] eqn:Ea; [|done]. destruct (parse_u8 b) as [n|] eqn:Eb; [|done].
  apply parse_ip_wf in Ea. apply parse_unsigned_bound in Eb; [|lia].
  destruct (Z.ltb_spec (if is_ipv4 ip then 32 else 128) n) as [|Hle]; [done|].
  destruct (is_masked _); [|done]. intros [= <-]. split; [done|]. cbn [p_addr p_bits].
  unfold bit_len, is_ipv6. destruct (is_ipv4 ip); simpl in *; lia.
Qed.

Lemma host_prefix_wf a : wf_ip a -> FilterPrefix.wf (host_prefix a).
Proof. intros Ha. split; [done|]. by destruct a. Qed.

Lemma wildcard_prefixes_wf : Forall FilterPrefix.wf wildcard_prefixes.
Proof. apply (bool_decide_unpack (Forall FilterPrefix.wf wildcard_prefixes)). vm_compute. exact I. Qed.

Lemma split_once_count c s : count_char c s <> 0%nat -> is_Some (split_once c s).
Proof.
  induction s as [|x s IH]; simpl; [done|]. destruct (Ascii.eqb x c); [done|]. intros H.
  destruct (IH H) as [[a b] ->]. done.
Qed.

(** The addresses of a parsed set. *)
Definition set_wf (r : result ParseError IpSetResult) : Prop :=
  match r with Ok (Prefixes ps) => Forall FilterPrefix.wf ps | _ => True end.

Lemma range_prefixes_wf (mk : list Z -> IpAddr) n s e :
  (mk = V4 /\ n = 4%nat) \/ (mk = V6 /\ n = 16%nat) -> wf_ip (mk s) -> wf_ip (mk e) ->
  exists ps, (if (match mk s with V4 _ => true | V6 _ => false end)
              then range_to_prefixes_v4 false s e else range_to_prefixes_v6 false s e) = Ret ps /\
    Forall FilterPrefix.wf ps.
Proof.
  intros Hmk Hs He. destruct Hmk as [[-> ->]|[-> ->]]; destruct Hs as [Hs Hsl], He as [He Hel].
  - destruct (range_prefixes_spec V4 4 false s e (or_introl (conj eq_refl eq_refl)) Hs Hsl He Hel)
      as (ps & E & Hw & _). by exists ps.
  - destruct (range_prefixes_spec V6 16 false s e (or_intror (conj eq_refl eq_refl)) Hs Hsl He Hel)
      as (ps & E & Hw & _). by exists ps.
Qed.

Lemma parse_ip_set_returns arg :
  exists r, parse_ip_set false arg = Ret r /\ set_wf r.
Proof.
  unfold parse_ip_set. destruct (String.eqb arg _).
  { eexists. split; [done|]. apply wildcard_prefixes_wf. }
  destruct (strip_prefix _ arg); [by eexists|].
  destruct (contains_char _ arg).
  { eexists. split; [done|]. destruct (parse_cidr arg) as [p|] eqn:E; [|done]. simpl.
    apply parse_cidr_wf in E. by constructor. }
  destruct (Nat.eqb_spec (count_char "-"%char arg) 1) as [Ec|_].
  - destruct (split_once_count "-"%char arg) as [[a b] ->]; [lia|]. cbn [expect]. rewrite run_bind_Ret.
    destruct (parse_ip a) as [ip1|] eqn:E1; [|by eexists]. destruct (parse_ip b) as [ip2|] eqn:E2; [|by eexists].
    apply parse_ip_wf in E1, E2. destruct ip1 as [s|s], ip2 as [e|e]; [|by eexists..|].
    + destruct (from_be_bytes e <? from_be_bytes s); [by eexists|].
      destruct (range_prefixes_wf V4 4 s e (or_introl (conj eq_refl eq_refl)) E1 E2) as (ps & -> & Hw).
      rewrite run_bind_Ret. destruct (nonempty ps); by eexists.
    + destruct (from_be_bytes e <? from_be_bytes s); [by eexists|].
      destruct (range_prefixes_wf V6 16 s e (or_intror (conj eq_refl eq_refl)) E1 E2) as (ps & -> & Hw).
      rewrite run_bind_Ret. destruct (nonempty ps); by eexists.
  - eexists. split; [done|]. destruct (parse_ip arg) as [a|] eqn:E; [|done]. simpl.
    constructor; [|done]. apply host_prefix_wf. by eapply parse_ip_wf.
Qed.

(** ** Well-formed compiled rules *)

Record match_wf (m : Match) : Prop := {
  mw_srcs : Forall FilterPrefix.wf (srcs m);
  mw_dsts : Forall (fun d => FilterPrefix.wf (net d)) (dsts m);
  mw_caps : Forall (fun c => FilterPrefix.wf (cm_dst c)) (m_caps m) }.

Section compile.
Variable debug_dst : RuleDst -> string.

Lemma compile_srcs_returns ss : forall ps cs err,
  Forall FilterPrefix.wf ps ->
  exists ps' cs' err', compile_srcs false ss ps cs err = Ret (ps', cs', err') /\
    Forall FilterPrefix.wf ps' /\ (is_Some err -> is_Some err').
Proof.
  induction ss as [|s ss IH]; intros ps cs err Hw; simpl; [by eexists _, _, _|].
  destruct (parse_ip_set_returns s) as (r & -> & Hr). rewrite run_bind_Ret.
  destruct r as [[qs|c]|e].
  - apply IH, Forall_app. done.
  - by apply IH.
  - destruct (IH ps cs (record_err err e) Hw) as (ps' & cs' & err' & E & H1 & H2).
    eexists _, _, _. split; [exact E|]. split; [done|]. intros Herr. apply H2. by destruct err.
Qed.

Lemma compile_dsts_returns ds : forall acc err,
  Forall (fun d => FilterPrefix.wf (net d)) acc ->
  exists r, compile_dsts false debug_dst ds acc err = Ret r /\
    match r with
    | Ok (acc', err') => Forall (fun d => FilterPrefix.wf (net d)) acc' /\ (is_Some err -> is_Some err')
    | Err _ => True
    end.
Proof.
  induction ds as [|d ds IH]; intros acc err Hw; simpl; [by eexists|].
  destruct (d_Bits d); [by eexists|].
  destruct (parse_ip_set_returns (d_IP d)) as (r & -> & Hr). rewrite run_bind_Ret.
  assert (forall e, exists r, compile_dsts false debug_dst ds acc (record_err err e) = Ret r /\
    match r with
    | Ok (acc', err') => Forall (fun d => FilterPrefix.wf (net d)) acc' /\ (is_Some err -> is_Some err')
    | Err _ => True
    end) as Herr.
  { intros e. destruct (IH acc (record_err err e) Hw) as ([[acc' err']|e'] & -> & H); [|by eexists].
    eexists. split; [done|]. destruct H as [H1 H2]. split; [done|]. intros Hs. apply H2. by destruct err. }
  destruct r as [[qs|c]|e]; [|by apply Herr..].
  apply IH, Forall_app. split; [done|]. apply Forall_fmap. simpl in Hr. revert Hr. by apply Forall_impl.
Qed.

Lemma parse_cap_grant_returns g :
  exists cs, parse_cap_grant false g = Ret cs /\ Forall (fun c => FilterPrefix.wf (cm_dst c)) cs.
Proof.
  unfold parse_cap_grant. induction (g_Dsts g) as [|d ds (rest & IH & Hrest)]; simpl; [by eexists|].
  destruct (parse_ip_set_returns d) as (r & -> & Hr). rewrite run_bind_Ret, IH, run_bind_Ret.
  destruct r as [[ps|c]|e]; [|by eexists..]. eexists. split; [done|]. apply Forall_app. split; [|done].
  apply list.Forall_forall. intros c Hc. apply list_elem_of_In, in_flat_map in Hc as (p & Hp & Hc).
  simpl in Hr. rewrite list.Forall_forall in Hr. apply list_elem_of_In in Hp. specialize (Hr p Hp).
  apply in_app_or in Hc as [Hc|Hc]; apply in_map_iff in Hc as (x & <- & _); done.
Qed.

Lemma compile_caps_returns gs :
  exists cs, compile_caps false gs = Ret cs /\ Forall (fun c => FilterPrefix.wf (cm_dst c)) cs.
Proof.
  induction gs as [|g gs (rest & IH & Hrest)]; simpl; [by eexists|].
  destruct (parse_cap_grant_returns g) as (cs & -> & Hcs). rewrite run_bind_Ret, IH, run_bind_Ret.
  eexists. split; [done|]. by apply Forall_app.
Qed.

Lemma compile_rules_returns rules : forall ms err,
  Forall match_wf ms ->
  exists r, compile_rules false debug_dst rules ms err = Ret r /\
    match r with
    | Ok (ms', err') => Forall match_wf ms' /\ length ms' = (length ms + length rules)%nat /\
                        (is_Some err -> is_Some err')
    | Err _ => True
    end.
Proof.
  induction rules as [|r rules IH]; intros ms err Hw; simpl.
  { eexists. split; [done|]. split_and!; [done|lia|done]. }
  destruct (nonempty (SrcBits r)); [by eexists|].
  destruct (compile_srcs_returns (SrcIPs r) [] [] err) as (ps & cs & err1 & -> & Hps & Herr1); [done|].
  rewrite run_bind_Ret.
  destruct (compile_dsts_returns (DstPorts r) [] err1) as ([[ds err2]|e] & -> & Hds); [done| |by eexists].
  rewrite run_bind_Ret. destruct Hds as [Hds Herr2].
  destruct (compile_caps_returns (CapGrants r)) as (cms & -> & Hcms). rewrite run_bind_Ret.
  match goal with |- context [compile_rules _ _ _ (ms ++ [?x]) err2] => set (m := x) end.
  destruct (IH (ms ++ [m]) err2) as (res & -> & Hres); [apply Forall_app; by repeat constructor|].
  eexists. split; [done|]. destruct res as [[ms' err']|]; [|done].
  destruct Hres as (H1 & H2 & H3). rewrite length_app in H2. simpl in H2. split_and!; [done|lia|tauto].
Qed.

Lemma matches_from_filter_rules_returns rules :
  exists r, matches_from_filter_rules false debug_dst rules = Ret r /\
    match r with Ok ms => Forall match_wf ms /\ length ms = length rules | Err _ => True end.
Proof.
  unfold matches_from_filter_rules.
  destruct (compile_rules_returns rules [] None) as (r & -> & Hr); [done|]. rewrite run_bind_Ret.
  eexists. split; [done|]. destruct r as [[ms [e|]]|e]; try done. by destruct Hr as (H1 & H2 & _).
Qed.

End compile.

(** ** What an IP-set string denotes *)

(** The addresses a source or destination string stands for, by its form:
    wildcard, CIDR, range or bare address. *)
Definition set_denotes (arg : string) (x : IpAddr) : Prop :=
  if String.eqb arg "*"%string then True
  else if contains_char "/"%char arg then
    exists p, parse_cidr arg = Ok p /\ contains p x = true
  else if (count_char "-"%char arg =? 1)%nat then
    exists a b s e, split_once "-"%char arg = Some (a, b) /\ parse_ip a = Some s /\ parse_ip b = Some e /\
      is_ipv4 s = is_ipv4 x /\ is_ipv4 e = is_ipv4 x /\
      from_be_bytes (octets s) <= from_be_bytes (octets x) <= from_be_bytes (octets e)
  else parse_ip arg = Some x.

Lemma range_denotes (mk : list Z -> IpAddr) n s e ps x :
  (mk = V4 /\ n = 4%nat) \/ (mk = V6 /\ n = 16%nat) -> wf_ip (mk s) -> wf_ip (mk e) -> wf_ip x ->
  (if (match mk s with V4 _ => true | V6 _ => false end)
   then range_to_prefixes_v4 false s e else range_to_prefixes_v6 false s e) = Ret ps ->
  existsb (fun p => contains p x) ps = true <->
  is_ipv4 (mk s) = is_ipv4 x /\ from_be_bytes s <= from_be_bytes (octets x) <= from_be_bytes e.
Proof.
  intros Hmk Hs He Hx E. destruct Hmk as [[-> ->]|[-> ->]]; destruct Hs as [Hs Hsl], He as [He Hel].
  - destruct (range_prefixes_spec V4 4 false s e (or_introl (conj eq_refl eq_refl)) Hs Hsl He Hel)
      as (ps' & E' & _ & Hfam & Hin).
    assert (ps' = ps) as -> by (change (range_to_prefixes_v4 false s e = Ret ps') in E'; simpl in E; congruence).
    destruct x as [o|o]; destruct Hx as [Ho Hol].
    + rewrite (Hin o Ho Hol), andb_true_iff, !Z.leb_le. cbn. tauto.
    + rewrite (other_family V4 V6) by done. split; [done|by intros []].
  - destruct (range_prefixes_spec V6 16 false s e (or_intror (conj eq_refl eq_refl)) Hs Hsl He Hel)
      as (ps' & E' & _ & Hfam & Hin).
    assert (ps' = ps) as -> by (change (range_to_prefixes_v6 false s e = Ret ps') in E'; simpl in E; congruence).
    destruct x as [o|o]; destruct Hx as [Ho Hol].
    + rewrite (other_family V6 V4) by done. split; [done|by intros []].
    + rewrite (Hin o Ho Hol), andb_true_iff, !Z.leb_le. cbn. tauto.
Qed.

(** A string that compiles to prefixes compiles to what it denotes: the
    prefixes are well formed and together contain exactly the addresses of the
    wildcard, CIDR, inclusive range or single address the string spells. *)
Theorem parse_ip_set_denotes (arg : string) (ps : list FilterPrefix.IpPrefix) :
  parse_ip_set false arg = Ret (Ok (Prefixes ps)) ->
  Forall FilterPrefix.wf ps /\
  forall x, wf_ip x -> existsb (fun p => contains p x) ps = true <-> set_denotes arg x.
Proof.
  intros E. split.
  { destruct (parse_ip_set_returns arg) as (r & E' & Hr). rewrite E in E'. injection E' as <-. exact Hr. }
  intros x Hx. unfold parse_ip_set in E. unfold set_denotes. destruct (String.eqb arg _).
  { injection E as <-. by rewrite wildcard_contains. }
  destruct (strip_prefix _ arg); [done|]. destruct (contains_char _ arg).
  { destruct (parse_cidr arg) as [p|]; [|done]. injection E as <-. simpl. rewrite orb_false_r.
    split; [eauto|]. by intros (p' & [= <-] & H). }
  destruct (Nat.eqb_spec (count_char "-"%char arg) 1) as [Ec|_].
  - destruct (split_once "-"%char arg) as [[a b]|] eqn:Es; [|done]. cbn [expect] in E. rewrite run_bind_Ret in E.
    destruct (parse_ip a) as [ip1|] eqn:E1; [|done]. destruct (parse_ip b) as [ip2|] eqn:E2; [|done].
    apply parse_ip_wf in E1 as W1. apply parse_ip_wf in E2 as W2.
    assert (exists mk n s e, ((mk = V4 /\ n = 4%nat) \/ (mk = V6 /\ n = 16%nat)) /\ ip1 = mk s /\ ip2 = mk e /\
      (if (match mk s with V4 _ => true | V6 _ => false end)
       then range_to_prefixes_v4 false s e else range_to_prefixes_v6 false s e) = Ret ps)
      as (mk & n & s & e & Hmk & -> & -> & Er).
    { destruct ip1 as [s|s], ip2 as [e|e]; try done; destruct (_ <? _); try done;
        apply run_bind_inv in E as (l & El & E); destruct (nonempty l); try done; injection E as ->.
      - exists V4, 4%nat, s, e. by split; [left|].
      - exists V6, 16%nat, s, e. by split; [right|]. }
    rewrite (range_denotes mk n s e ps x Hmk W1 W2 Hx Er).
    assert (octets (mk s) = s /\ octets (mk e) = e /\ is_ipv4 (mk s) = is_ipv4 (mk e)) as (O1 & O2 & O3)
      by (destruct Hmk as [[-> _]|[-> _]]; done).
    split.
    + intros [H1 H2]. exists a, b, (mk s), (mk e). rewrite O1, O2. split_and!; try done; [congruence|lia..].
    + intros (a' & b' & s' & e' & [= <- <-] & E1' & E2' & H1 & _ & H2).
      rewrite E1 in E1'. rewrite E2 in E2'. injection E1' as <-. injection E2' as <-.
      rewrite O1, O2 in H2. done.
  - destruct (parse_ip arg) as [a|] eqn:Ea; [|done]. injection E as <-. simpl. rewrite orb_false_r.
    rewrite host_prefix_contains, bool_decide_eq_true by (done || by eapply parse_ip_wf).
    split; [by intros ->|by intros [= ->]].
Qed.

Lemma parse_ip_set_denotes_witness :
  exists ps, parse_ip_set false "10.0.0.250-10.0.1.3"%string = Ret (Ok (Prefixes ps)) /\
    Forall FilterPrefix.wf ps /\
    forall x, wf_ip x ->
      existsb (fun p => contains p x) ps = true <-> set_denotes "10.0.0.250-10.0.1.3"%string x.
Proof.
  eexists. split; [vm_compute; reflexivity|].
  apply (parse_ip_set_denotes "10.0.0.250-10.0.1.3"%string). vm_compute. reflexivity.
Defined.

(** ** CIDR round trip *)

(** [Display] of an IPv4 CIDR. *)
Definition show_cidr4 (o : list Z) (n : nat) : string :=
  show_v4 o +:+ String "/"%char (show_u8 (Z.of_nat n)).

Lemma count_char_append c s1 s2 : count_char c (s1 +:+ s2) = (count_char c s1 + count_char c s2)%nat.
Proof.
  induction s1 as [|x s1 IH]; [done|].
  change (String x s1 +:+ s2) with (String x (s1 +:+ s2)). simpl. rewrite IH. lia.
Qed.

Lemma split_once_append c s1 s2 :
  count_char c s1 = 0%nat -> split_once c (s1 +:+ String c s2) = Some (s1, s2).
Proof.
  induction s1 as [|x s1 IH]; intros H.
  - change (EmptyString +:+ String c s2) with (String c s2). simpl. by rewrite Ascii.eqb_refl.
  - change (String x s1 +:+ String c s2) with (String x (s1 +:+ String c s2)). simpl in *.
    destruct (Ascii.eqb x c); [done|]. by rewrite IH.
Qed.

Lemma show_u8_no_slash z : is_u8 z -> count_char "/"%char (show_u8 z) = 0%nat.
Proof.
  intros Hz. apply Nat.eqb_eq. revert z Hz.
  apply (u8_forallb (fun z => (count_char "/"%char (show_u8 z) =? 0)%nat)). vm_compute. reflexivity.
Qed.

Lemma parse_show_u8 z : is_u8 z -> parse_u8 (show_u8 z) = Some z.
Proof.
  intros Hz. assert (bool_decide (parse_u8 (show_u8 z) = Some z) = true) as H.
  { revert z Hz. apply (u8_forallb (fun z => bool_decide (parse_u8 (show_u8 z) = Some z))).
    vm_compute. reflexivity. }
  by apply bool_decide_eq_true in H.
Qed.

Lemma show_v4_no_slash o : wf_bytes o -> count_char "/"%char (show_v4 o) = 0%nat.
Proof.
  intros Ho. unfold show_v4. rewrite !count_char_append, !show_u8_no_slash by (by apply byte_at_u8). done.
Qed.

(** An IPv4 CIDR written out parses back to the same prefix when its host
    bits are zero, and is rejected as having non-network bits otherwise. *)
Theorem cidr4_roundtrip (o : list Z) (n : nat) :
  wf_ip (V4 o) -> (n <= 32)%nat ->
  parse_cidr (show_cidr4 o n) =
  if from_be_bytes o mod 2 ^ Z.of_nat (32 - n) =? 0
  then Ok {| p_addr := V4 o; p_bits := n |}
  else Err (NonNetworkBits (show_cidr4 o n)).
Proof.
  intros Ho Hn. unfold parse_cidr, show_cidr4 at 1.
  rewrite split_once_append by (apply show_v4_no_slash; apply Ho).
  rewrite parse_show_v4, parse_show_u8 by (done || unfold is_u8; lia). cbn [is_ipv4].
  destruct (Z.ltb_spec 32 (Z.of_nat n)); [lia|]. rewrite Nat2Z.id.
  set (p := {| p_addr := V4 o; p_bits := n |}). assert (FilterPrefix.wf p) as Hp by done.
  assert (is_masked p = true <-> from_be_bytes o mod 2 ^ Z.of_nat (32 - n) = 0) as Hm
    by exact (is_masked_spec p Hp).
  destruct (Z.eqb_spec (from_be_bytes o mod 2 ^ Z.of_nat (32 - n)) 0) as [E|E].
  - by rewrite (proj2 Hm E).
  - destruct (is_masked p); [|done]. exfalso. apply E. by apply Hm.
Qed.

Lemma cidr4_roundtrip_witness :
  (wf_ip (V4 [10; 32; 0; 0]) /\ (11 <= 32)%nat) /\
  show_cidr4 [10; 32; 0; 0] 11 = "10.32.0.0/11"%string /\
  parse_cidr (show_cidr4 [10; 32; 0; 0] 11) = Ok {| p_addr := V4 [10; 32; 0; 0]; p_bits := 11 |}.
Proof.
  assert (wf_ip (V4 [10; 32; 0; 0])) as Hw
    by (apply (bool_decide_unpack (wf_ip (V4 [10; 32; 0; 0]))); vm_compute; exact I).
  assert (11 <= 32)%nat as Hn by lia. split; [exact (conj Hw Hn)|]. split; [vm_compute; reflexivity|].
  rewrite (cidr4_roundtrip [10; 32; 0; 0] 11 Hw Hn). vm_compute. reflexivity.
Defined.

(** ** What compilation computes *)

(** The prefixes and the capability a string of a rule stands for. *)
Definition prefixes_of (s : string) : list FilterPrefix.IpPrefix :=
  match parse_ip_set false s with Ret (Ok (Prefixes ps)) => ps | _ => [] end.
Definition caps_of (s : string) : list string :=
  match parse_ip_set false s with Ret (Ok (Cap c)) => [c] | _ => [] end.

(** A source that parses, a destination that parses to prefixes, a rule of those
    without the fields older clients used. *)
Definition rule_src_ok (s : string) : bool :=
  match parse_ip_set false s with Ret (Ok _) => true | _ => false end.
Definition rule_dst_ok (d : RuleDst) : bool :=
  match d_Bits d, parse_ip_set false (d_IP d) with None, Ret (Ok (Prefixes _)) => true | _, _ => false end.
Definition rule_ok (r : FilterRule) : bool :=
  negb (nonempty (SrcBits r)) && forallb rule_src_ok (SrcIPs r) && forallb rule_dst_ok (DstPorts r).

Definition dsts_of (d : RuleDst) : list NetPortRange :=
  map (fun p => {| net := p; ports := d_Ports d |}) (prefixes_of (d_IP d)).
(** [m] is the rule [r], entry by entry. *)
Definition compiled (r : FilterRule) (m : Match) : Prop :=
  ip_proto m = rule_protos r /\ srcs m = flat_map prefixes_of (SrcIPs r) /\
  src_caps m = flat_map caps_of (SrcIPs r) /\ dsts m = flat_map dsts_of (DstPorts r) /\
  compile_caps false (CapGrants r) = Ret (m_caps m).

(** An accumulated error: none exactly when there was none before and all went well. *)
Definition err_after (err : option ParseError) (ok : bool) (err' : option ParseError) : Prop :=
  err' = None <-> err = None /\ ok = true.

Lemma err_after_record err e ok err' : err_after (record_err err e) ok err' -> err_after err false err'.
Proof. unfold err_after. destruct err, err'; cbn; intuition congruence. Qed.

Lemma compile_srcs_spec ss : forall ps cs err, exists err',
  compile_srcs false ss ps cs err = Ret (ps ++ flat_map prefixes_of ss, cs ++ flat_map caps_of ss, err') /\
  err_after err (forallb rule_src_ok ss) err'.
Proof.
  induction ss as [|s ss IH]; intros ps cs err; cbn [compile_srcs flat_map forallb].
  { exists err. rewrite !app_nil_r. split; [done|]. unfold err_after. tauto. }
  unfold prefixes_of at 1, caps_of at 1, rule_src_ok at 1.
  destruct (parse_ip_set_returns s) as ([[qs|c]|e] & -> & _); rewrite run_bind_Ret; cbn [andb].
  - rewrite app_assoc. apply IH.
  - rewrite (app_assoc cs). apply IH.
  - destruct (IH ps cs (record_err err e)) as (err' & -> & He). exists err'. eauto using err_after_record.
Qed.

Lemma compile_dsts_spec debug_dst ds : forall acc err, exists res,
  compile_dsts false debug_dst ds acc err = Ret res /\
  match res with
  | Ok (acc', err') => acc' = acc ++ flat_map dsts_of ds /\ err_after err (forallb rule_dst_ok ds) err'
  | Err _ => forallb rule_dst_ok ds = false
  end.
Proof.
  induction ds as [|d ds IH]; intros acc err; cbn [compile_dsts flat_map forallb].
  { eexists. split; [done|]. rewrite app_nil_r. split; [done|]. unfold err_after. tauto. }
  unfold dsts_of at 1, prefixes_of at 1, rule_dst_ok at 1 3. destruct (d_Bits d); [by eexists|].
  destruct (parse_ip_set_returns (d_IP d)) as ([[qs|c]|e] & -> & _); rewrite run_bind_Ret; cbn [app andb map].
  - rewrite app_assoc. apply IH.
  - destruct (IH acc (record_err err (InvalidIp ("unexpected capability in DstPorts: "%string +:+ debug_dst d)))) as ([[acc' err']|e] & -> & H);
      eexists; (split; [done|]); [|done]. destruct H. eauto using err_after_record.
  - destruct (IH acc (record_err err e)) as ([[acc' err']|e'] & -> & H); eexists; (split; [done|]); [|done].
    destruct H. eauto using err_after_record.
Qed.

Lemma compile_rules_spec debug_dst rules : forall ms err, exists res,
  compile_rules false debug_dst rules ms err = Ret res /\
  match res with
  | Ok (ms', err') => exists new, ms' = ms ++ new /\ Forall2 compiled rules new /\ err_after err (forallb rule_ok rules) err'
  | Err _ => forallb rule_ok rules = false
  end.
Proof.
  induction rules as [|r rules IH]; intros ms err; cbn [compile_rules forallb].
  { eexists. split; [done|]. exists []. rewrite app_nil_r. split_and!; [done|constructor|]. unfold err_after. tauto. }
  unfold rule_ok at 1 3. destruct (nonempty (SrcBits r)); [by eexists|]. cbn [negb andb].
  destruct (compile_srcs_spec (SrcIPs r) [] [] err) as (err1 & -> & H1). rewrite run_bind_Ret.
  destruct (compile_dsts_spec debug_dst (DstPorts r) [] err1) as ([[acc err2]|e2] & -> & H2); rewrite run_bind_Ret;
    [|eexists; split; [done|]; by rewrite H2, andb_false_r].
  destruct H2 as [-> H2]. destruct (compile_caps_returns (CapGrants r)) as (cms & Ec & _). rewrite Ec, run_bind_Ret.
  match goal with |- context [compile_rules _ _ _ (ms ++ [?x]) err2] => set (m := x) end.
  destruct (IH (ms ++ [m]) err2) as ([[ms' err']|e'] & -> & H3); eexists; (split; [done|]);
    [|by rewrite H3, andb_false_r].
  destruct H3 as (new & -> & Hn & H3). exists (m :: new). rewrite <- app_assoc. split_and!; [done| |].
  - constructor; [|done]. by split_and!.
  - unfold err_after in *. rewrite H3, H2, H1, !andb_true_iff. tauto.
Qed.

(** Compilation is exact and all or nothing: it always returns; when every
    source parses and every destination parses to prefixes the result has one
    well-formed rule per input rule, with that rule's protocols, prefixes,
    capabilities and port ranges in order; otherwise the result is an error and
    no rule at all. *)
Theorem compile_all_or_nothing (debug_dst : RuleDst -> string) (rules : list FilterRule) :
  exists res, matches_from_filter_rules false debug_dst rules = Ret res /\
    match res with
    | Ok ms => forallb rule_ok rules = true /\ Forall2 compiled rules ms /\ Forall match_wf ms
    | Err _ => forallb rule_ok rules = false
    end.
Proof.
  destruct (matches_from_filter_rules_returns debug_dst rules) as (res & E & Hres).
  exists res. split; [done|]. unfold matches_from_filter_rules in E.
  destruct (compile_rules_spec debug_dst rules [] None) as ([[ms err]|e] & Er & H); rewrite Er, run_bind_Ret in E.
  - destruct H as (new & -> & Hn & He). destruct err as [e|]; injection E as <-.
    + apply not_true_iff_false. intros Hok. destruct He as [_ He]. by discriminate He.
    + destruct Hres as [Hw _]. by split_and!; [apply He|..].
  - by injection E as <-.
Qed.
