(* ===== verification/Filter.v ===== *)
(** * The stateful packet filter: [crates/filter/src/lib.rs, state.rs]

    [Filter] holds the compiled rules per family, the local address sets, the
    cache of outbound UDP/SCTP flows and the shields-up switch.  [check_in] and
    [check_in_info] give the verdict on an inbound packet, [update_outbound]
    records an outbound flow.  Its specification and the proofs
    are in [FilterSpec]. *)

From Stdlib Require Import Ascii.
From S2P Require Import Prelude Bytes Bits IpAddr IpText Packet ArtPrefix PrefixTable Stride ArtTree.
From S2P Require Import ArtTable IpSet FlowTrack FilterPrefix FilterMatch FilterParse.

(** ** Flow state: [crates/filter/src/state.rs] *)

Record FlowTuple : Type := {
  ft_proto : Z; ft_src : IpAddr; ft_src_port : Z; ft_dst : IpAddr; ft_dst_port : Z }.

(** [reversed_tuple]. *)
Definition reversed_tuple (p : Z) (s : IpAddr) (sp : Z) (d : IpAddr) (dp : Z) : FlowTuple :=
  {| ft_proto := p; ft_src := d; ft_src_port := dp; ft_dst := s; ft_dst_port := sp |}.

(** [FlowTuple::as_tuple]. *)
Definition as_tuple (t : FlowTuple) : Tuple :=
  tuple_new (ft_proto t) {| ip := ft_src t; port := ft_src_port t |} {| ip := ft_dst t; port := ft_dst_port t |}.

(** [FlowState]. *)
Definition FLOW_MAX : nat := 512.
Definition flow_new : Cache unit := cache_default FLOW_MAX.
Definition flow_get (c : Cache unit) (t : FlowTuple) : run (Cache unit * bool) :=
  r ← cache_get c (as_tuple t); Ret (r.1, match r.2 with Some _ => true | None => false end).
Definition flow_add (c : Cache unit) (t : FlowTuple) : run (Cache unit) := cache_add c (as_tuple t) tt.
Definition flow_len (c : Cache unit) : nat := cache_len c.
Definition flow_is_empty (c : Cache unit) : bool := (cache_len c =? 0)%nat.

(** ** Data *)

Inductive Response : Type := Accept | Drop | DropSilently.
(** [Response::is_drop]. *)
Definition is_drop (r : Response) : bool := match r with Accept => false | _ => true end.
Inductive Verdict : Type := VAccept | NoVerdict.
Inductive PreResult : Type := PreAccept | PreDrop | PreContinue.
(** The error carries the parse error whose text the code renders. *)
Inductive FilterError : Type := ParseFailed (e : ParseError).

Record LocalIpSet : Type := { l_prefixes : list ArtPrefix.IpPrefix; l_contains : Strategy (Table unit) }.

(** [LocalIpSet::new]. *)
Definition local_new (ps : list ArtPrefix.IpPrefix) : run LocalIpSet :=
  c ← new_contains_ip_func ps; Ret {| l_prefixes := ps; l_contains := c |}.
(** [LocalIpSet::contains]. *)
Definition local_contains (l : LocalIpSet) (a : IpAddr) : run bool := strategy_contains (l_contains l) a.
(** [LocalIpSet::extend]. *)
Definition local_extend (l : LocalIpSet) (ps : list ArtPrefix.IpPrefix) : run LocalIpSet :=
  local_new (l_prefixes l ++ ps).

(** [has_cap]. *)
Definition has_cap (holders : gmap IpAddr (gset string)) (s : IpAddr) (cap : string) : bool :=
  if String.eqb cap EmptyString then false
  else match holders !! s with
       | Some caps => bool_decide (cap ∈ caps)
       | None => false
       end.

(** The loop of [partition_local_ips]. *)
Fixpoint split_local_ips (ips : list IpAddr)
  : run (list ArtPrefix.IpPrefix * list ArtPrefix.IpPrefix) :=
  match ips with
  | [] => Ret ([], [])
  | a :: ips' =>
      p ← expect (ArtPrefix.new a (if is_ipv4 a then 32 else 128));
      r ← split_local_ips ips';
      Ret (if is_ipv4 a then (p :: r.1, r.2) else (r.1, p :: r.2))
  end.
(** [partition_local_ips]. *)
Definition partition_local_ips (ips : list IpAddr) : run (LocalIpSet * LocalIpSet) :=
  r ← split_local_ips ips;
  l4 ← local_new r.1;
  l6 ← local_new r.2;
  Ret (l4, l6).

(** [pre]. *)
Definition pre (q : PacketInfo) : PreResult :=
  if proto q =? UNKNOWN then PreDrop
  else if is_multicast (dst q) then PreDrop
  else if is_link_local_unicast (dst q) then PreDrop
  else if proto q =? FRAGMENT then PreAccept
  else PreContinue.

(** [parse_cidr_prefix]. *)
Definition parse_cidr_prefix (cidr : string) : option FilterPrefix.IpPrefix :=
  match split_once "/"%char cidr with
  | None => None
  | Some (net_str, bits_str) =>
      match parse_ip net_str with
      | None => None
      | Some a =>
          match parse_u8 bits_str with
          | None => None
          | Some n =>
              let max := match a with V4 _ => 32 | V6 _ => 128 end in
              if max <? n then None else Some {| p_addr := a; p_bits := Z.to_nat n |}
          end
      end
  end.

(** A call of the connection counter: protocol, source, destination, packets,
    bytes and direction. *)
Record CounterCall : Type := {
  cc_proto : Z; cc_src : IpAddr * Z; cc_dst : IpAddr * Z; cc_packets : Z; cc_bytes : Z; cc_recv : bool }.

Section filter.
(** The digest of the filter's inputs and its zero value. *)
Context {Sum : Type} `{EqDecision Sum}.
Variable sum_default : Sum.
Variable filter_inputs_hash : list FilterRule -> list IpAddr -> gmap IpAddr (gset string) -> Sum.
Variable debug_dst : RuleDst -> string.
Variable checked : bool.

Record Filter : Type := {
  matches4 : list Match;
  matches6 : list Match;
  local4 : LocalIpSet;
  local6 : LocalIpSet;
  state : Cache unit;
  shields_up : bool;
  cap_holders : gmap IpAddr (gset string);
  cap4 : list Match;
  cap6 : list Match;
  connection_counter : bool;
  input_hash : Sum }.

Definition set_state (f : Filter) (s : Cache unit) : Filter :=
  {| matches4 := matches4 f; matches6 := matches6 f; local4 := local4 f; local6 := local6 f;
     state := s; shields_up := shields_up f; cap_holders := cap_holders f; cap4 := cap4 f;
     cap6 := cap6 f; connection_counter := connection_counter f; input_hash := input_hash f |}.
Definition set_locals (f : Filter) (l4 l6 : LocalIpSet) : Filter :=
  {| matches4 := matches4 f; matches6 := matches6 f; local4 := l4; local6 := l6;
     state := state f; shields_up := shields_up f; cap_holders := cap_holders f; cap4 := cap4 f;
     cap6 := cap6 f; connection_counter := connection_counter f; input_hash := input_hash f |}.
Definition set_hash (f : Filter) (h : Sum) : Filter :=
  {| matches4 := matches4 f; matches6 := matches6 f; local4 := local4 f; local6 := local6 f;
     state := state f; shields_up := shields_up f; cap_holders := cap_holders f; cap4 := cap4 f;
     cap6 := cap6 f; connection_counter := connection_counter f; input_hash := h |}.

(** [Filter::set_shields_up]. *)
Definition set_shields_up (f : Filter) (on : bool) : Filter :=
  {| matches4 := matches4 f; matches6 := matches6 f; local4 := local4 f; local6 := local6 f;
     state := state f; shields_up := on; cap_holders := cap_holders f; cap4 := cap4 f;
     cap6 := cap6 f; connection_counter := connection_counter f; input_hash := input_hash f |}.
(** [Filter::set_connection_counter]; a counter is installed or not. *)
Definition set_connection_counter (f : Filter) (c : bool) : Filter :=
  {| matches4 := matches4 f; matches6 := matches6 f; local4 := local4 f; local6 := local6 f;
     state := state f; shields_up := shields_up f; cap_holders := cap_holders f; cap4 := cap4 f;
     cap6 := cap6 f; connection_counter := c; input_hash := input_hash f |}.

(** [Filter::new]. *)
Definition filter_new (rules : list FilterRule) (local_ips : list IpAddr)
    (holders : gmap IpAddr (gset string)) : run (result FilterError Filter) :=
  r ← matches_from_filter_rules checked debug_dst rules;
  match r with
  | Err e => Ret (Err (ParseFailed e))
  | Ok all_matches =>
      let m := partition_by_family all_matches in
      let c := partition_caps_by_family all_matches in
      l ← partition_local_ips local_ips;
      Ret (Ok {| matches4 := m.1; matches6 := m.2; local4 := l.1; local6 := l.2;
                 state := flow_new; shields_up := false; cap_holders := holders;
                 cap4 := c.1; cap6 := c.2; connection_counter := false;
                 input_hash := filter_inputs_hash rules local_ips holders |})
  end.

(** [Filter::allow_none]. *)
Definition allow_none : run Filter :=
  l4 ← local_new []; l6 ← local_new [];
  Ret {| matches4 := []; matches6 := []; local4 := l4; local6 := l6; state := flow_new;
         shields_up := false; cap_holders := ∅; cap4 := []; cap6 := [];
         connection_counter := false; input_hash := sum_default |}.

(** [Filter::allow_all]. *)
Definition allow_all : run Filter :=
  r ← filter_new filter_allow_all [V4_UNSPECIFIED; V6_UNSPECIFIED] ∅;
  w4 ← expect (ArtPrefix.new V4_UNSPECIFIED 0);
  w6 ← expect (ArtPrefix.new V6_UNSPECIFIED 0);
  l4 ← local_new [w4];
  l6 ← local_new [w6];
  let f := match r with
           | Ok f => f
           | Err _ =>
               {| matches4 := []; matches6 := []; local4 := l4; local6 := l6; state := flow_new;
                  shields_up := false; cap_holders := ∅; cap4 := []; cap6 := [];
                  connection_counter := false; input_hash := sum_default |}
           end in
  Ret (set_hash (set_locals f l4 l6) sum_default).

(** [Filter::is_inputs_unchanged]. *)
Definition is_inputs_unchanged (f : Filter) (rules : list FilterRule) (local_ips : list IpAddr)
    (holders : gmap IpAddr (gset string)) : bool :=
  negb (bool_decide (input_hash f = sum_default)) &&
  bool_decide (input_hash f = filter_inputs_hash rules local_ips holders).

(** [Filter::share_state_with]: the new filter with the old one's flows, and the
    old one with none. *)
Definition share_state_with (f old : Filter) : Filter * Filter :=
  (set_state f (state old), set_state old flow_new).

(** [Filter::rebuild_if_changed]. *)
Definition rebuild_if_changed (f : Filter) (rules : list FilterRule) (local_ips : list IpAddr)
    (holders : gmap IpAddr (gset string)) : run (Filter * result FilterError bool) :=
  if is_inputs_unchanged f rules local_ips holders then Ret (f, Ok false)
  else
    r ← filter_new rules local_ips holders;
    match r with
    | Err e => Ret (f, Err e)
    | Ok new_filter =>
        let new_filter := (share_state_with new_filter f).1 in
        let new_filter := set_shields_up new_filter (shields_up f) in
        let new_filter := set_connection_counter new_filter (connection_counter f) in
        Ret (new_filter, Ok true)
    end.

(** The inner loop of [Filter::caps_with_values]. *)
Fixpoint collect_caps (cms : list CapMatch) (d : IpAddr) (out : gmap string (list string))
  : gmap string (list string) :=
  match cms with
  | [] => out
  | cm :: cms' =>
      if String.eqb (cm_cap cm) EmptyString then collect_caps cms' d out
      else if contains (cm_dst cm) d then
        collect_caps cms' d
          (match out !! cm_cap cm with
           | Some prev => <[cm_cap cm := prev ++ cm_values cm]> out
           | None => <[cm_cap cm := cm_values cm]> out
           end)
      else collect_caps cms' d out
  end.
Fixpoint collect_matches (ms : list Match) (s d : IpAddr) (out : gmap string (list string))
  : gmap string (list string) :=
  match ms with
  | [] => out
  | m :: ms' =>
      if negb (existsb (fun p => contains p s) (srcs m)) then collect_matches ms' s d out
      else collect_matches ms' s d (collect_caps (m_caps m) d out)
  end.
(** [Filter::caps_with_values]. *)
Definition caps_with_values (f : Filter) (s d : IpAddr) : gmap string (list string) :=
  collect_matches (if is_ipv4 s then cap4 f else cap6 f) s d ∅.

(** The loop of [Filter::add_local_cidrs]. *)
Fixpoint split_cidrs (cidrs : list string) : list ArtPrefix.IpPrefix * list ArtPrefix.IpPrefix :=
  match cidrs with
  | [] => ([], [])
  | c :: cidrs' =>
      let r := split_cidrs cidrs' in
      match parse_cidr_prefix c with
      | None => r
      | Some fp =>
          match ArtPrefix.new (p_addr fp) (p_bits fp) with
          | None => r
          | Some p => if is_ipv4 (addr p) then (p :: r.1, r.2) else (r.1, p :: r.2)
          end
      end
  end.
(** [Filter::add_local_cidrs]. *)
Definition add_local_cidrs (f : Filter) (cidrs : list string) : run Filter :=
  let r := split_cidrs cidrs in
  l4 ← local_extend (local4 f) r.1;
  l6 ← local_extend (local6 f) r.2;
  Ret (set_locals f l4 l6).

(** [is_keepalive]. *)
Definition is_keepalive (buf : list Z) : bool := (length buf =? 0)%nat.

(** The body [Filter::run_in4] and [Filter::run_in6] share, with the family's
    ICMP protocol, local set and rules. *)
Definition run_in (icmp : Z) (loc : LocalIpSet) (ms : list Match) (f : Filter) (q : PacketInfo)
  : run (Filter * Verdict) :=
  is_local ← local_contains loc (dst q);
  if negb is_local then Ret (f, NoVerdict)
  else
    let hc := has_cap (cap_holders f) in
    let shielded := shields_up f in
    if proto q =? icmp then
      if is_icmp_echo_reply q || is_icmp_error q then Ret (f, VAccept)
      else if negb shielded && matches_ips_only hc ms q then Ret (f, VAccept)
      else Ret (f, NoVerdict)
    else if proto q =? TCP then
      if negb (is_tcp_syn q) then Ret (f, VAccept)
      else if negb shielded && matches hc ms q then Ret (f, VAccept)
      else Ret (f, NoVerdict)
    else if (proto q =? UDP) || (proto q =? SCTP) then
      let t := {| ft_proto := proto q; ft_src := src q; ft_src_port := src_port q;
                  ft_dst := dst q; ft_dst_port := dst_port q |} in
      r ← flow_get (state f) t;
      let f := set_state f r.1 in
      if r.2 : bool then Ret (f, VAccept)
      else if negb shielded && matches hc ms q then Ret (f, VAccept)
      else Ret (f, NoVerdict)
    else if proto q =? TSMP then Ret (f, VAccept)
    else if negb shielded && matches_proto_and_ips_only_if_all_ports ms q then Ret (f, VAccept)
    else Ret (f, NoVerdict).

(** [Filter::run_in4] and [Filter::run_in6]. *)
Definition run_in4 (f : Filter) (q : PacketInfo) : run (Filter * Verdict) :=
  run_in ICMP_V4 (local4 f) (matches4 f) f q.
Definition run_in6 (f : Filter) (q : PacketInfo) : run (Filter * Verdict) :=
  run_in ICMP_V6 (local6 f) (matches6 f) f q.

(** [Filter::check_in_info]. *)
Definition check_in_info (f : Filter) (q : PacketInfo) : run (Filter * Response) :=
  match pre q with
  | PreAccept => Ret (f, Accept)
  | PreDrop => Ret (f, Drop)
  | PreContinue =>
      r ← (if version q =? 4 then run_in4 f q else run_in6 f q);
      Ret (r.1, match r.2 with VAccept => Accept | NoVerdict => Drop end)
  end.

(** [Filter::check_in]. *)
Definition check_in (f : Filter) (buf : list Z) : run (Filter * Response) :=
  if (length buf =? 0)%nat then Ret (f, Accept)
  else
    info ← parse_packet buf;
    match info with
    | None => Ret (f, Drop)
    | Some q => check_in_info f q
    end.

(** [Filter::check]. *)
Definition check (f : Filter) (s d : IpAddr) (p dp : Z) : run (Filter * Response) :=
  check_in_info f
    {| version := if is_ipv4 s then 4 else 6; proto := p; src := s; dst := d; src_port := 0;
       dst_port := dp; tcp_flags := if p =? TCP then 0x02 else 0; is_tcp_syn := p =? TCP;
       is_icmp_echo_reply := false; is_icmp_error := false |}.

(** [Filter::update_outbound_info]. *)
Definition update_outbound_info (f : Filter) (q : PacketInfo) : run Filter :=
  if (proto q =? UDP) || (proto q =? SCTP) then
    s ← flow_add (state f) (reversed_tuple (proto q) (src q) (src_port q) (dst q) (dst_port q));
    Ret (set_state f s)
  else Ret f.

(** [Filter::update_outbound], with the call of the connection counter. *)
Definition update_outbound (f : Filter) (buf : list Z) : run (Filter * option CounterCall) :=
  info ← parse_packet buf;
  match info with
  | None => Ret (f, None)
  | Some q =>
      f ← update_outbound_info f q;
      Ret (f, if connection_counter f
              then Some {| cc_proto := proto q; cc_src := (src q, src_port q); cc_dst := (dst q, dst_port q);
                           cc_packets := 1; cc_bytes := Z.of_nat (length buf); cc_recv := false |}
              else None)
  end.

End filter.
Arguments Filter : clear implicits.
