(* ===== verification/FilterSpec.v ===== *)
(** * Correctness of the packet filter

    [Policy] is the abstract filter: the compiled rules, the local prefixes, the
    recorded flows in most-recently-used order, the capability holders and the
    shields-up switch.  [admits] is the verdict the policy gives; [filter_rep]
    relates the code's filter to a policy.  Every operation of [Filter] is shown
    to preserve the relation and to return the policy's answer. *)

From S2P Require Import Prelude Bytes Bits IpAddr IpText Packet ArtPrefix PrefixTable Stride ArtTree.
From S2P Require Import ArtTable IpSet FlowTrack FilterPrefix FilterMatch FilterParse Filter.

(** ** The abstract filter *)

Record Policy : Type := {
  rules : list Match;
  locals : list ArtPrefix.IpPrefix;
  flows : list (Tuple * unit);
  holders : gmap IpAddr (gset string);
  shielded : bool }.

Definition with_flows (P : Policy) (l : list (Tuple * unit)) : Policy :=
  {| rules := rules P; locals := locals P; flows := l; holders := holders P; shielded := shielded P |}.
Definition with_shields (P : Policy) (b : bool) : Policy :=
  {| rules := rules P; locals := locals P; flows := flows P; holders := holders P; shielded := b |}.
Definition with_locals (P : Policy) (l : list ArtPrefix.IpPrefix) : Policy :=
  {| rules := rules P; locals := l; flows := flows P; holders := holders P; shielded := shielded P |}.

(** The flow an inbound packet belongs to, and the one an outbound packet opens. *)
Definition inbound_flow (q : PacketInfo) : Tuple :=
  tuple_new (proto q) {| ip := src q; port := src_port q |} {| ip := dst q; port := dst_port q |}.
Definition outbound_flow (q : PacketInfo) : Tuple :=
  tuple_new (proto q) {| ip := dst q; port := dst_port q |} {| ip := src q; port := src_port q |}.
Definition known_flow (P : Policy) (q : PacketInfo) : bool :=
  bool_decide (inbound_flow q ∈ (flows P).*1).

Definition icmp_of (q : PacketInfo) : Z := if version q =? 4 then ICMP_V4 else ICMP_V6.
Definition is_datagram (q : PacketInfo) : bool := (proto q =? UDP) || (proto q =? SCTP).

(** Packets whose destination is dropped before any rule is looked at. *)
Definition unroutable (q : PacketInfo) : bool :=
  (proto q =? UNKNOWN) || is_multicast (dst q) || is_link_local_unicast (dst q).
Definition is_local (P : Policy) (q : PacketInfo) : bool :=
  existsb (fun p => ArtPrefix.contains p (dst q)) (locals P).

(** Traffic that belongs to something this node started. *)
Definition established (P : Policy) (q : PacketInfo) : bool :=
  (proto q =? icmp_of q) && (is_icmp_echo_reply q || is_icmp_error q)
  || (proto q =? TCP) && negb (is_tcp_syn q)
  || is_datagram q && known_flow P q
  || (proto q =? TSMP).

(** New traffic that a rule admits. *)
Definition permitted (P : Policy) (q : PacketInfo) : bool :=
  if proto q =? icmp_of q then
    matches_ips_only (has_cap (holders P)) (family_part (version q =? 4) (rules P)) q
  else if (proto q =? TCP) || is_datagram q then matches (has_cap (holders P)) (rules P) q
  else matches_proto_and_ips_only_if_all_ports (rules P) q.

Definition admits (P : Policy) (q : PacketInfo) : bool :=
  negb (unroutable q) &&
  ((proto q =? FRAGMENT) ||
   (is_local P q && (established P q || (negb (shielded P) && permitted P q)))).

(** Looking a flow up makes it the most recently used. *)
Definition touched (P : Policy) (q : PacketInfo) : Policy :=
  if negb (unroutable q) && is_local P q && is_datagram q && known_flow P q
  then with_flows P (lru_touch (flows P) (inbound_flow q) tt) else P.

Definition opened (P : Policy) (q : PacketInfo) : Policy :=
  if is_datagram q then with_flows P (lru_add FLOW_MAX (flows P) (outbound_flow q) tt) else P.

(** ** Packets *)

Record info_ok (q : PacketInfo) : Prop := {
  io_src : wf_ip (src q);
  io_dst : wf_ip (dst q);
  io_fam_src : is_ipv4 (src q) = (version q =? 4);
  io_fam_dst : is_ipv4 (dst q) = (version q =? 4);
  io_port : 0 <= dst_port q <= 65535 }.

Lemma wf_slice_v4 buf n : wf_bytes buf -> (n + 4 <= length buf)%nat -> wf_ip (V4 (take 4 (drop n buf))).
Proof.
  intros Hw Hl. split; [by apply Forall_take, Forall_drop|]. cbn. rewrite length_take, length_drop. lia.
Qed.
Lemma wf_slice_v6 buf n : wf_bytes buf -> (n + 16 <= length buf)%nat -> wf_ip (V6 (take 16 (drop n buf))).
Proof.
  intros Hw Hl. split; [by apply Forall_take, Forall_drop|]. cbn. rewrite length_take, length_drop. lia.
Qed.

Lemma transport_port p t : wf_bytes t -> 0 <= (transport_fields p t).1.2 <= 65535.
Proof.
  intros Hw. assert (0 <= from_be_bytes [byte_at t 2; byte_at t 3] < 65536) as Hb.
  { apply (from_be_bytes_bound [byte_at t 2; byte_at t 3]). repeat constructor; by apply byte_at_u8. }
  unfold transport_fields. destruct (p =? TCP); [destruct (_ <=? _)%nat|destruct (_ && _)]; cbn [fst snd]; lia.
Qed.

Lemma parse_packet_ok buf :
  wf_bytes buf -> exists o, parse_packet buf = Ret o /\ forall q, o = Some q -> info_ok q.
Proof.
  intros Hw. destruct (packet_cases buf) as (p & o & _ & E & Hc). exists o. split; [done|].
  intros q ->. inversion Hc; subst; split; try done; try (apply transport_port; auto with wf);
    try (apply wf_slice_v6; [done|lia]);
    match goal with H : v4_complete _ |- _ => destruct H as (? & ? & ?) end; (apply wf_slice_v4; [done|lia]).
Qed.

(** ** The relation between a filter and a policy *)

Definition local_ok (l : LocalIpSet) : Prop :=
  new_contains_ip_func (l_prefixes l) = Ret (l_contains l) /\ Forall wf_prefix (l_prefixes l).

Lemma local_new_ok ps :
  Forall wf_prefix ps -> exists l, local_new ps = Ret l /\ local_ok l /\ l_prefixes l = ps.
Proof.
  intros Hw. unfold local_new.
  pose proof (new_contains_ip_func_spec (T := Table unit) ps V4_UNSPECIFIED Hw) as E.
  assert (wf_ip V4_UNSPECIFIED) as Hz by (apply (bool_decide_unpack _); vm_compute; exact I).
  apply E, run_bind_inv in Hz as (c & Ec & _). rewrite Ec, run_bind_Ret. eexists. split; [done|].
  split; [|done]. by split.
Qed.

Lemma local_contains_ok l a :
  local_ok l -> wf_ip a ->
  local_contains l a = Ret (existsb (fun p => ArtPrefix.contains p a) (l_prefixes l)).
Proof.
  intros [E Hw] Ha. pose proof (new_contains_ip_func_spec (T := Table unit) _ a Hw Ha) as H.
  by rewrite E, run_bind_Ret in H.
Qed.

Lemma known_flow_lookup P q :
  lru_lookup (flows P) (inbound_flow q) = if known_flow P q then Some tt else None.
Proof.
  unfold known_flow. case_bool_decide as H.
  - destruct (lru_lookup (flows P) (inbound_flow q)) as [[]|] eqn:E; [done|].
    unfold lru_lookup in E. by apply not_elem_of_list_to_map in E.
  - by apply lru_absent.
Qed.

Section filter_correct.
Context {Sum : Type} `{EqDecision Sum}.
Variable sum_default : Sum.
Variable filter_inputs_hash : list FilterRule -> list IpAddr -> gmap IpAddr (gset string) -> Sum.
Variable debug_dst : RuleDst -> string.

Record filter_rep (f : Filter Sum) (P : Policy) : Prop := {
  fr_matches4 : matches4 f = family_part true (rules P);
  fr_matches6 : matches6 f = family_part false (rules P);
  fr_local4 : local_ok (local4 f);
  fr_local6 : local_ok (local6 f);
  fr_locals : forall a,
    existsb (fun p => ArtPrefix.contains p a) (l_prefixes (if is_ipv4 a then local4 f else local6 f)) =
    existsb (fun p => ArtPrefix.contains p a) (locals P);
  fr_state : cache_holds FLOW_MAX (state f) (flows P);
  fr_holders : cap_holders f = holders P;
  fr_shields : shields_up f = shielded P;
  fr_cap4 : cap4 f = (partition_caps_by_family (rules P)).1;
  fr_cap6 : cap6 f = (partition_caps_by_family (rules P)).2 }.

Lemma filter_rep_state f P c l :
  filter_rep f P -> cache_holds FLOW_MAX c l -> filter_rep (set_state f c) (with_flows P l).
Proof. by intros [] ?. Qed.

Lemma filter_rep_shields f P b : filter_rep f P -> filter_rep (set_shields_up f b) (with_shields P b).
Proof. by intros []. Qed.

(** ** Inbound packets *)

(** The decisions [run_in] takes after the destination is known to be local. *)
Definition decision (P : Policy) (q : PacketInfo) : Verdict :=
  if established P q || (negb (shielded P) && permitted P q) then VAccept else NoVerdict.

Lemma flow_get_ok f P q :
  filter_rep f P ->
  exists c, flow_get (state f) {| ft_proto := proto q; ft_src := src q; ft_src_port := src_port q;
                                  ft_dst := dst q; ft_dst_port := dst_port q |} = Ret (c, known_flow P q) /\
    filter_rep (set_state f c)
      (if known_flow P q then with_flows P (lru_touch (flows P) (inbound_flow q) tt) else P).
Proof.
  intros Hr. unfold flow_get.
  destruct (cache_get_spec FLOW_MAX (state f) (flows P) (inbound_flow q)) as (c & E & Hc); [by destruct Hr|].
  change (as_tuple _) with (inbound_flow q). rewrite E, run_bind_Ret. cbn [fst snd].
  rewrite known_flow_lookup in *. exists c. destruct (known_flow P q); (split; [done|]).
  - by apply filter_rep_state.
  - destruct P. exact (filter_rep_state f _ c _ Hr Hc).
Qed.

Lemma set_state_same (f : Filter Sum) : set_state f (state f) = f.
Proof. by destruct f. Qed.

(** The rules of the packet's family decide as all the rules do. *)
Lemma family_rules P q :
  info_ok q ->
  let ms := family_part (version q =? 4) (rules P) in
  matches (has_cap (holders P)) ms q = matches (has_cap (holders P)) (rules P) q /\
  matches_proto_and_ips_only_if_all_ports ms q = matches_proto_and_ips_only_if_all_ports (rules P) q.
Proof.
  intros [_ _ Hs Hd _]. cbv zeta. unfold family_part, partition_by_family.
  destruct (version q =? 4); cbn [fst snd];
    (split; [by apply family_matches|by apply family_matches_all_ports]).
Qed.

Lemma run_in_spec f P q loc :
  filter_rep f P -> info_ok q -> local_ok loc -> negb (unroutable q) = true ->
  existsb (fun p => ArtPrefix.contains p (dst q)) (l_prefixes loc) = is_local P q ->
  exists c, run_in (icmp_of q) loc (family_part (version q =? 4) (rules P)) f q =
      Ret (set_state f c, if is_local P q then decision P q else NoVerdict) /\
    filter_rep (set_state f c) (touched P q).
Proof.
  intros Hr Hq Hloc Hun Hmem. unfold run_in. rewrite (local_contains_ok _ _ Hloc (io_dst _ Hq)), run_bind_Ret, Hmem.
  unfold touched. rewrite Hun. destruct (is_local P q); cbn [negb andb]; [|by exists (state f); rewrite set_state_same].
  rewrite (fr_shields _ _ Hr), (fr_holders _ _ Hr).
  destruct (family_rules P q Hq) as [E1 E2]. rewrite E1, E2. unfold decision, established, permitted.
  destruct (Z.eqb_spec (proto q) (icmp_of q)) as [Hi|Hi].
  { assert (proto q <> TCP /\ proto q <> UDP /\ proto q <> SCTP /\ proto q <> TSMP) as (H1 & H2 & H3 & H4).
    { rewrite Hi. unfold icmp_of. by destruct (version q =? 4). }
    unfold is_datagram. apply Z.eqb_neq in H1, H2, H3, H4. rewrite H1, H2, H3, H4. cbn [andb orb].
    exists (state f). rewrite set_state_same, !orb_false_r. destruct (_ || _); [done|]. cbn [orb]. by destruct (_ && _). }
  cbn [andb orb]. destruct (Z.eqb_spec (proto q) TCP) as [Ht|Ht].
  { exists (state f). rewrite set_state_same. unfold is_datagram. rewrite Ht. change (TCP =? TSMP) with false. cbn [andb orb].
    change ((TCP =? UDP) || (TCP =? SCTP)) with false. cbn [andb orb]. rewrite !orb_false_r.
    destruct (is_tcp_syn q); cbn [negb orb]; [|done]. by destruct (_ && _). }
  cbn [andb orb]. change ((proto q =? UDP) || (proto q =? SCTP)) with (is_datagram q).
  destruct (is_datagram q) eqn:Hd; cbn [andb orb].
  { destruct (flow_get_ok f P q Hr) as (c & -> & Hc). rewrite run_bind_Ret. cbn [fst snd].
    exists c. assert ((proto q =? TSMP) = false) as ->.
    { unfold is_datagram in Hd. rewrite orb_true_iff, !Z.eqb_eq in Hd. by destruct Hd as [-> | ->]. }
    destruct (known_flow P q); cbn [orb]; [done|]. by destruct (_ && _). }
  exists (state f). rewrite set_state_same. destruct (proto q =? TSMP); cbn [orb]; [done|]. by destruct (_ && _).
Qed.

Lemma check_in_info_spec f P q :
  filter_rep f P -> info_ok q ->
  exists c, check_in_info f q = Ret (set_state f c, if admits P q then Accept else Drop) /\
    filter_rep (set_state f c) (touched P q).
Proof.
  intros Hr Hq. unfold check_in_info, pre, admits.
  destruct (unroutable q) eqn:Hun.
  { assert (touched P q = P) as E by (unfold touched; by rewrite Hun).
    unfold unroutable in Hun. destruct (proto q =? UNKNOWN), (is_multicast (dst q)), (is_link_local_unicast (dst q));
      try done; exists (state f); rewrite set_state_same, E; done. }
  pose proof Hun as Hun'. unfold unroutable in Hun'. rewrite !orb_false_iff in Hun'.
  destruct Hun' as [[-> ->] ->]. cbn [negb andb]. destruct (Z.eqb_spec (proto q) FRAGMENT) as [Hf|Hf]; cbn [orb].
  { exists (state f). rewrite set_state_same. split; [done|]. unfold touched, is_datagram. rewrite Hf. by rewrite andb_false_r. }
  assert (exists c, (if version q =? 4 then run_in4 f q else run_in6 f q) =
      Ret (set_state f c, if is_local P q then decision P q else NoVerdict) /\
    filter_rep (set_state f c) (touched P q)) as (c & -> & Hc).
  { unfold run_in4, run_in6. rewrite (fr_matches4 _ _ Hr), (fr_matches6 _ _ Hr).
    pose proof (fr_locals _ _ Hr (dst q)) as Hl. rewrite (io_fam_dst _ Hq) in Hl.
    pose proof (run_in_spec f P q) as H. unfold icmp_of in H.
    destruct (version q =? 4); apply H; try done; try apply Hr; by rewrite Hun. }
  rewrite run_bind_Ret. exists c. split; [|done]. cbn [fst snd]. unfold decision.
  destruct (is_local P q); cbn [andb]; [|done]. by destruct (established P q || _).
Qed.

(** ** Outbound packets *)

Lemma update_outbound_info_spec f P q :
  filter_rep f P -> exists c, update_outbound_info f q = Ret (set_state f c) /\ filter_rep (set_state f c) (opened P q).
Proof.
  intros Hr. unfold update_outbound_info, opened, is_datagram, flow_add.
  destruct (_ || _); [|by exists (state f); rewrite set_state_same].
  destruct (cache_add_spec FLOW_MAX (state f) (flows P) (outbound_flow q) tt) as (c & E & Hc); [by destruct Hr|].
  change (as_tuple _) with (outbound_flow q). rewrite E, run_bind_Ret. eexists. split; [done|].
  by apply filter_rep_state.
Qed.

(** ** Local addresses *)

(** The prefix of one address. *)
Definition host (a : IpAddr) : ArtPrefix.IpPrefix := {| addr := a; bits := bit_len a |}.
Definition in_family (v4 : bool) (p : ArtPrefix.IpPrefix) : bool := Bool.eqb (is_ipv4 (addr p)) v4.

Lemma existsb_in_family ps a :
  existsb (fun p => ArtPrefix.contains p a) (List.filter (in_family (is_ipv4 a)) ps) =
  existsb (fun p => ArtPrefix.contains p a) ps.
Proof.
  induction ps as [|p ps IH]; simpl; [done|]. unfold in_family at 1.
  destruct (Bool.eqb (is_ipv4 (addr p)) (is_ipv4 a)) eqn:E; simpl; rewrite IH; [done|].
  assert (ArtPrefix.contains p a = false) as ->; [|done]. unfold ArtPrefix.contains, is_ipv6.
  by destruct (is_ipv4 (addr p)), (is_ipv4 a).
Qed.

Lemma wf_in_family v4 ps : Forall wf_prefix ps -> Forall wf_prefix (List.filter (in_family v4) ps).
Proof.
  induction 1 as [|p ps Hp _ IH]; simpl; [done|]. destruct (in_family v4 p); [by constructor|done].
Qed.

Lemma split_local_ips_eq ips :
  split_local_ips ips =
  Ret (List.filter (in_family true) (map host ips), List.filter (in_family false) (map host ips)).
Proof.
  induction ips as [|a ips IH]; cbn [split_local_ips map List.filter]; [done|].
  rewrite IH. unfold in_family at 2 4, host at 2 5. cbn [addr].
  assert (ArtPrefix.new a (if is_ipv4 a then 32 else 128) = Some (host a)) as -> by (by destruct a).
  by destruct a.
Qed.

(** The prefixes of the entries that parse. *)
Definition cidr_prefixes (cidrs : list string) : list ArtPrefix.IpPrefix :=
  omap (fun c => fp ← parse_cidr_prefix c; ArtPrefix.new (p_addr fp) (p_bits fp)) cidrs.

Lemma split_cidrs_eq cidrs :
  split_cidrs cidrs =
  (List.filter (in_family true) (cidr_prefixes cidrs), List.filter (in_family false) (cidr_prefixes cidrs)).
Proof.
  unfold cidr_prefixes. induction cidrs as [|c cidrs IH]; [done|]. cbn [split_cidrs omap list_omap]. rewrite IH.
  destruct (parse_cidr_prefix c) as [fp|]; [|done]. cbn [mbind option_bind].
  destruct (ArtPrefix.new (p_addr fp) (p_bits fp)) as [p|]; [|done]. cbn [List.filter]. unfold in_family.
  by destruct (is_ipv4 (addr p)).
Qed.

Lemma cidr_prefixes_wf cidrs : Forall wf_prefix (cidr_prefixes cidrs).
Proof.
  apply list.Forall_forall. intros p (c & _ & E)%list_elem_of_omap.
  destruct (parse_cidr_prefix c) as [fp|] eqn:Ep; [|done]. cbn [mbind option_bind] in E. unfold ArtPrefix.new in E.
  destruct (Nat.leb_spec (p_bits fp) (bit_len (p_addr fp))) as [Hb|]; [|done].
  injection E as <-. split; [|done]. cbn [addr]. unfold parse_cidr_prefix in Ep.
  destruct (split_once _ c) as [[n b]|]; [|done]. destruct (parse_ip n) as [a|] eqn:Ea; [|done].
  destruct (parse_u8 b); [|done]. destruct (_ <? _); [done|]. injection Ep as <-. by apply (parse_ip_wf n).
Qed.

Lemma host_wf ips : Forall wf_ip ips -> Forall wf_prefix (map host ips).
Proof. induction 1; simpl; constructor; [|done]. by split. Qed.

Lemma partition_local_ips_spec ips :
  Forall wf_ip ips ->
  exists l4 l6, partition_local_ips ips = Ret (l4, l6) /\ local_ok l4 /\ local_ok l6 /\
    l_prefixes l4 = List.filter (in_family true) (map host ips) /\
    l_prefixes l6 = List.filter (in_family false) (map host ips).
Proof.
  intros Hw%host_wf. unfold partition_local_ips. rewrite split_local_ips_eq, run_bind_Ret. cbn [fst snd].
  destruct (local_new_ok _ (wf_in_family true _ Hw)) as (l4 & -> & ? & ?). rewrite run_bind_Ret.
  destruct (local_new_ok _ (wf_in_family false _ Hw)) as (l6 & -> & ? & ?). rewrite run_bind_Ret.
  by exists l4, l6.
Qed.

Lemma add_local_cidrs_spec f P cidrs :
  filter_rep f P ->
  exists l4 l6, add_local_cidrs f cidrs = Ret (set_locals f l4 l6) /\
    filter_rep (set_locals f l4 l6) (with_locals P (locals P ++ cidr_prefixes cidrs)).
Proof.
  intros Hr. unfold add_local_cidrs, local_extend. rewrite split_cidrs_eq. cbn [fst snd].
  pose proof (cidr_prefixes_wf cidrs) as Hw.
  destruct (local_new_ok (l_prefixes (local4 f) ++ List.filter (in_family true) (cidr_prefixes cidrs)))
    as (l4 & -> & H4 & E4); [apply Forall_app; split; [apply Hr|by apply wf_in_family]|].
  destruct (local_new_ok (l_prefixes (local6 f) ++ List.filter (in_family false) (cidr_prefixes cidrs)))
    as (l6 & -> & H6 & E6); [apply Forall_app; split; [apply Hr|by apply wf_in_family]|].
  rewrite !run_bind_Ret. exists l4, l6. split; [done|]. destruct Hr as [? ? ? ? Hl ? ? ? ? ?].
  split; try done. intros a. cbn [set_locals local4 local6 with_locals locals].
  rewrite existsb_app, <- Hl, <- (existsb_in_family (cidr_prefixes cidrs)).
  destruct (is_ipv4 a); by rewrite ?E4, ?E6, existsb_app.
Qed.

(** ** Construction and rebuilding *)

(** The policy of freshly compiled rules. *)
Definition policy_new (ms : list Match) (ips : list IpAddr) (hs : gmap IpAddr (gset string)) : Policy :=
  {| rules := ms; locals := map host ips; flows := []; holders := hs; shielded := false |}.

Lemma filter_new_spec rs ips hs :
  Forall wf_ip ips ->
  exists r, matches_from_filter_rules false debug_dst rs = Ret r /\
    match r with
    | Err e => filter_new filter_inputs_hash debug_dst false rs ips hs = Ret (Err (ParseFailed e))
    | Ok ms => exists f, filter_new filter_inputs_hash debug_dst false rs ips hs = Ret (Ok f) /\
                 filter_rep f (policy_new ms ips hs) /\ input_hash f = filter_inputs_hash rs ips hs
    end.
Proof.
  intros Hw. unfold filter_new. destruct (matches_from_filter_rules_returns debug_dst rs) as (r & -> & _).
  exists r. split; [done|]. rewrite run_bind_Ret. destruct r as [ms|e]; [|done]. cbv zeta.
  destruct (partition_local_ips_spec ips Hw) as (l4 & l6 & -> & H4 & H6 & E4 & E6). rewrite run_bind_Ret.
  eexists. split; [done|]. split; [|done]. split; try done.
  - intros a. cbn [local4 local6 policy_new locals fst snd]. rewrite <- (existsb_in_family (map host ips)).
    destruct (is_ipv4 a); by rewrite ?E4, ?E6.
  - apply cache_default_holds.
Qed.

Lemma filter_rep_share f f' P P' :
  filter_rep f P -> filter_rep f' P' ->
  filter_rep (set_connection_counter (set_shields_up (share_state_with f f').1 (shields_up f')) (connection_counter f'))
    (with_shields (with_flows P (flows P')) (shielded P')).
Proof. intros [] []. by split. Qed.

(** ** Histories *)

Inductive filter_op : Type :=
| Inbound (buf : list Z)
| Outbound (buf : list Z)
| Shields (on : bool)
| AddCidrs (cidrs : list string)
| Rebuild (rs : list FilterRule) (ips : list IpAddr) (hs : gmap IpAddr (gset string)).

(** What the caller sees of one operation. *)
Inductive filter_out : Type :=
| Said (r : Response)
| Quiet
| Rebuilt (r : result FilterError bool).

Definition op_ok (o : filter_op) : Prop :=
  match o with
  | Inbound buf | Outbound buf => wf_bytes buf
  | Rebuild _ ips _ => Forall wf_ip ips
  | _ => True
  end.

Definition filter_step (f : Filter Sum) (o : filter_op) : run (Filter Sum * filter_out) :=
  match o with
  | Inbound buf => r ← check_in f buf; Ret (r.1, Said r.2)
  | Outbound buf => r ← update_outbound f buf; Ret (r.1, Quiet)
  | Shields on => Ret (set_shields_up f on, Quiet)
  | AddCidrs cidrs => f ← add_local_cidrs f cidrs; Ret (f, Quiet)
  | Rebuild rs ips hs =>
      r ← rebuild_if_changed sum_default filter_inputs_hash debug_dst false f rs ips hs;
      Ret (r.1, Rebuilt r.2)
  end.

(** The same on a policy and the digest of its inputs. *)
Definition policy_step (P : Policy * Sum) (o : filter_op) : run (Policy * Sum * filter_out) :=
  match o with
  | Inbound buf =>
      info ← parse_packet buf;
      match info with
      | None => Ret (P, Said (if (length buf =? 0)%nat then Accept else Drop))
      | Some q => Ret ((touched P.1 q, P.2), Said (if admits P.1 q then Accept else Drop))
      end
  | Outbound buf =>
      info ← parse_packet buf;
      match info with None => Ret (P, Quiet) | Some q => Ret ((opened P.1 q, P.2), Quiet) end
  | Shields on => Ret ((with_shields P.1 on, P.2), Quiet)
  | AddCidrs cidrs => Ret ((with_locals P.1 (locals P.1 ++ cidr_prefixes cidrs), P.2), Quiet)
  | Rebuild rs ips hs =>
      let h := filter_inputs_hash rs ips hs in
      if negb (bool_decide (P.2 = sum_default)) && bool_decide (P.2 = h) then Ret (P, Rebuilt (Ok false))
      else
        r ← matches_from_filter_rules false debug_dst rs;
        match r with
        | Err e => Ret (P, Rebuilt (Err (ParseFailed e)))
        | Ok ms =>
            Ret ((with_shields (with_flows (policy_new ms ips hs) (flows P.1)) (shielded P.1), h),
                 Rebuilt (Ok true))
        end
  end.

Fixpoint run_filter (f : Filter Sum) (ops : list filter_op) : run (Filter Sum * list filter_out) :=
  match ops with
  | [] => Ret (f, [])
  | o :: ops => r ← filter_step f o; r' ← run_filter r.1 ops; Ret (r'.1, r.2 :: r'.2)
  end.
Fixpoint run_policy (P : Policy * Sum) (ops : list filter_op) : run (Policy * Sum * list filter_out) :=
  match ops with
  | [] => Ret (P, [])
  | o :: ops => r ← policy_step P o; r' ← run_policy r.1 ops; Ret (r'.1, r.2 :: r'.2)
  end.

(** A filter that implements a policy built from inputs with a given digest. *)
Definition implements (f : Filter Sum) (P : Policy * Sum) : Prop :=
  filter_rep f P.1 /\ input_hash f = P.2.

Lemma rebuild_spec f P rs ips hs :
  implements f P -> Forall wf_ip ips ->
  exists f' P' o, filter_step f (Rebuild rs ips hs) = Ret (f', o) /\
    policy_step P (Rebuild rs ips hs) = Ret (P', o) /\ implements f' P'.
Proof.
  intros [Hr Hh] Hw. cbn [filter_step policy_step]. unfold rebuild_if_changed, is_inputs_unchanged.
  rewrite Hh. destruct (_ && _); [by exists f, P, (Rebuilt (Ok false))|].
  destruct (filter_new_spec rs ips hs Hw) as (r & -> & Hn). rewrite run_bind_Ret.
  destruct r as [ms|e]; [|rewrite Hn, run_bind_Ret; by exists f, P, (Rebuilt (Err (ParseFailed e)))].
  destruct Hn as (f' & -> & Hf' & Eh). rewrite run_bind_Ret. do 3 eexists. do 2 (split; [done|]).
  split; [by apply filter_rep_share|done].
Qed.

Lemma filter_step_spec f P o :
  implements f P -> op_ok o ->
  exists f' P' out, filter_step f o = Ret (f', out) /\ policy_step P o = Ret (P', out) /\ implements f' P'.
Proof.
  intros Hi Ho. pose proof Hi as [Hr Hh]. destruct o as [buf|buf|on|cidrs|rs ips hs]; cbn [op_ok] in Ho.
  - cbn [filter_step policy_step]. unfold check_in.
    destruct (parse_packet_ok buf Ho) as (info & E & Hq). rewrite E. destruct (Nat.eqb_spec (length buf) 0) as [E0|E0].
    { apply nil_length_inv in E0 as ->. injection E as <-. by exists f, P, (Said Accept). }
    rewrite !run_bind_Ret. destruct info as [q|]; [|by exists f, P, (Said Drop)].
    destruct (check_in_info_spec f P.1 q Hr (Hq q eq_refl)) as (c & -> & Hc). rewrite run_bind_Ret.
    by do 3 eexists.
  - cbn [filter_step policy_step]. unfold update_outbound.
    destruct (parse_packet_ok buf Ho) as (info & -> & _). rewrite !run_bind_Ret.
    destruct info as [q|]; [|by exists f, P, Quiet].
    destruct (update_outbound_info_spec f P.1 q Hr) as (c & -> & Hc). rewrite !run_bind_Ret.
    by do 3 eexists.
  - do 3 eexists. do 2 (split; [done|]). split; [by apply filter_rep_shields|done].
  - cbn [filter_step policy_step]. destruct (add_local_cidrs_spec f P.1 cidrs Hr) as (l4 & l6 & -> & Hf').
    rewrite run_bind_Ret. by do 3 eexists.
  - by apply rebuild_spec.
Qed.

Lemma run_filter_spec ops : forall f P,
  implements f P -> Forall op_ok ops ->
  exists f' P' outs, run_filter f ops = Ret (f', outs) /\ run_policy P ops = Ret (P', outs) /\ implements f' P'.
Proof.
  induction ops as [|o ops IH]; intros f P Hi Ho; cbn [run_filter run_policy]; [by exists f, P, []|].
  inversion_clear Ho. destruct (filter_step_spec f P o Hi) as (f1 & P1 & out & -> & -> & H1); [done|].
  rewrite !run_bind_Ret. cbn [fst snd]. destruct (IH f1 P1 H1) as (f2 & P2 & outs & -> & -> & H2); [done|].
  rewrite !run_bind_Ret. by do 3 eexists.
Qed.

(** ** Recorded flows stay recorded *)

(** [k] is among the [n] most recently used. *)
Definition recent (n : nat) (l : list (Tuple * unit)) (k : Tuple) : Prop := k ∈ (take n l).*1.

Lemma recent_mono n m l k : recent n l k -> (n <= m)%nat -> recent m l k.
Proof.
  unfold recent. rewrite !list_elem_of_fmap. intros (y & -> & Hy) Hm. exists y. split; [done|].
  apply elem_of_take in Hy as (i & Hi & Hlt). apply elem_of_take. exists i. split; [done|lia].
Qed.

Lemma recent_remove n l k k' : recent n l k -> k <> k' -> recent n (lru_remove l k') k.
Proof.
  unfold recent, lru_remove. revert n. induction l as [|x l IH]; intros [|n] H Hne; try by apply elem_of_nil in H.
  cbn [take fmap list_fmap] in H. destruct (decide (x.1 = k')) as [E|E].
  - rewrite filter_cons_False by tauto. apply elem_of_cons in H as [->|H]; [done|].
    apply (recent_mono n); [by apply IH|lia].
  - rewrite filter_cons_True by done. cbn [take fmap list_fmap]. apply elem_of_cons.
    apply elem_of_cons in H as [->|H]; [by left|right]. by apply IH.
Qed.

Lemma recent_cons n l k x : recent n l k -> recent (S n) (x :: l) k.
Proof. intros H. unfold recent. cbn [take fmap list_fmap]. by right. Qed.

Lemma recent_removelast n l k : recent n l k -> (n < length l)%nat -> recent n (removelast l) k.
Proof.
  unfold recent. destruct l as [|x l _] using rev_ind; [done|]. rewrite removelast_last, length_app. simpl.
  intros H Hn. by rewrite take_app_le in H by lia.
Qed.

Lemma recent_touch n l k k' : recent n l k -> recent (S n) (lru_touch l k' tt) k.
Proof.
  intros H. destruct (decide (k = k')) as [<-|Hne]; [unfold recent; left|].
  by apply recent_cons, recent_remove.
Qed.

Lemma recent_add n l k k' :
  recent n l k -> (S n <= FLOW_MAX)%nat -> recent (S n) (lru_add FLOW_MAX l k' tt) k.
Proof.
  intros H Hn. unfold lru_add. destruct (lru_lookup l k') as [[]|]; [by apply recent_touch|]. cbv zeta.
  destruct (_ && _) eqn:E; [|by apply recent_cons]. rewrite andb_true_iff, Nat.ltb_lt in E.
  destruct E as [_ E]. apply recent_removelast; [by apply recent_cons|lia].
Qed.

Lemma recent_here k l : recent 1 (lru_add FLOW_MAX l k tt) k.
Proof.
  unfold lru_add, recent. destruct (lru_lookup l k) as [[]|]; [left|]. cbv zeta.
  destruct (_ && _) eqn:E; [|left]. rewrite andb_true_iff, Nat.ltb_lt in E.
  destruct l; [unfold FLOW_MAX in E; cbn [length] in E; lia|left].
Qed.

Lemma policy_step_recent n P o P' out k :
  policy_step P o = Ret (P', out) -> recent n (flows P.1) k -> (S n <= FLOW_MAX)%nat ->
  recent (S n) (flows P'.1) k.
Proof.
  intros E H Hn. assert (recent (S n) (flows P.1) k) as Hs by (apply (recent_mono n); [done|lia]).
  destruct o as [buf|buf|on|cidrs|rs ips hs]; cbn [policy_step] in E.
  - apply run_bind_inv in E as (info & _ & E). destruct info as [q|]; injection E as <- _; [|done].
    cbn [fst]. unfold touched. destruct (_ && _); [|done]. by apply recent_touch.
  - apply run_bind_inv in E as (info & _ & E). destruct info as [q|]; injection E as <- _; [|done].
    cbn [fst]. unfold opened. destruct (is_datagram q); [|done]. by apply recent_add.
  - by injection E as <- _.
  - by injection E as <- _.
  - destruct (_ && _); [by injection E as <- _|]. apply run_bind_inv in E as ([ms|e] & _ & E); by injection E as <- _.
Qed.

Lemma run_policy_recent ops : forall n P P' outs k,
  run_policy P ops = Ret (P', outs) -> recent n (flows P.1) k -> (n + length ops <= FLOW_MAX)%nat ->
  recent (n + length ops) (flows P'.1) k.
Proof.
  induction ops as [|o ops IH]; intros n P P' outs k E H Hn; cbn [run_policy length] in *.
  - injection E as <- _. by rewrite Nat.add_0_r.
  - apply run_bind_inv in E as ([P1 o1] & E1 & E). apply run_bind_inv in E as ([P2 os2] & E2 & E).
    injection E as <- _. pose proof (policy_step_recent n P o P1 o1 k E1 H ltac:(lia)) as H1.
    replace (n + S (length ops))%nat with (S n + length ops)%nat by lia. eapply IH; [exact E2|done|lia].
Qed.

Lemma recent_known n P q : recent n (flows P) (inbound_flow q) -> known_flow P q = true.
Proof.
  unfold recent, known_flow. rewrite bool_decide_eq_true, !list_elem_of_fmap. intros (y & -> & Hy).
  exists y. split; [done|]. by apply subseteq_take in Hy.
Qed.

(** ** Capability grants *)

(** The grants of rules that apply from [s] to [d] under the name [cap]. *)
Definition grants (ms : list Match) (s d : IpAddr) (cap : string) : list CapMatch :=
  List.filter (fun cm => String.eqb (cm_cap cm) cap && contains (cm_dst cm) d)
    (concat (map m_caps (List.filter (fun m => srcs_contains m s) ms))).
Definition grant_values (l : list CapMatch) : option (list string) :=
  match l with [] => None | _ => Some (concat (map cm_values l)) end.
Definition app_values (o : option (list string)) (l : list CapMatch) : option (list string) :=
  match o, l with
  | o, [] => o
  | None, l => grant_values l
  | Some v, l => Some (v ++ concat (map cm_values l))
  end.

Lemma app_values_app o l1 l2 : app_values (app_values o l1) l2 = app_values o (l1 ++ l2).
Proof.
  destruct o as [v|], l1 as [|x l1], l2 as [|y l2]; cbn [app_values grant_values app]; rewrite ?app_nil_r; try done.
  - change (x :: l1 ++ y :: l2) with ((x :: l1) ++ y :: l2). by rewrite map_app, concat_app, app_assoc.
  - change (x :: l1 ++ y :: l2) with ((x :: l1) ++ y :: l2). by rewrite map_app, concat_app.
Qed.

Lemma collect_caps_spec cms d cap : forall out,
  cap <> EmptyString ->
  collect_caps cms d out !! cap =
  app_values (out !! cap) (List.filter (fun cm => String.eqb (cm_cap cm) cap && contains (cm_dst cm) d) cms).
Proof.
  induction cms as [|cm cms IH]; intros out Hc; cbn [collect_caps List.filter]; [by destruct (out !! cap)|].
  destruct (String.eqb_spec (cm_cap cm) EmptyString) as [E|E].
  { rewrite IH by done. destruct (String.eqb_spec (cm_cap cm) cap); [congruence|done]. }
  destruct (contains (cm_dst cm) d); [|by rewrite IH, andb_false_r].
  rewrite IH, andb_true_r by done. destruct (String.eqb_spec (cm_cap cm) cap) as [->|Hne].
  - change (cm :: List.filter ?g cms) with ([cm] ++ List.filter g cms). rewrite <- app_values_app. f_equal.
    destruct (out !! cap) eqn:Eo; rewrite lookup_insert_eq; cbn; by rewrite app_nil_r.
  - f_equal. by destruct (out !! cm_cap cm); rewrite lookup_insert_ne.
Qed.

Lemma collect_matches_spec ms s d cap : forall out,
  cap <> EmptyString ->
  collect_matches ms s d out !! cap = app_values (out !! cap) (grants ms s d cap).
Proof.
  unfold grants. induction ms as [|m ms IH]; intros out Hc; cbn [collect_matches List.filter]; [by destruct (out !! cap)|].
  change (existsb _ (srcs m)) with (srcs_contains m s). destruct (srcs_contains m s); cbn [negb]; [|by apply IH].
  rewrite IH, collect_caps_spec, app_values_app by done. cbn [map concat]. by rewrite List.filter_app.
Qed.

(** Splitting the grants by family keeps the ones of the source's family. *)
Lemma grants_family ms s d cap v4 :
  is_ipv4 s = v4 ->
  grants (List.filter (fun m => nonempty (srcs m))
    (map (family_caps v4) (List.filter (fun m => nonempty (m_caps m)) ms))) s d cap = grants ms s d cap.
Proof.
  intros Hs. unfold grants. f_equal. induction ms as [|m ms IH]; simpl; [done|].
  assert (srcs_contains (family_caps v4 m) s = srcs_contains m s) as E
    by (by apply (existsb_filter_family (fun p => p) _ _ s)).
  destruct (m_caps m) as [|c cs] eqn:Ec; cbn [nonempty].
  { rewrite IH. destruct (srcs_contains m s); [|done]. simpl. by rewrite Ec. }
  cbn [map List.filter]. destruct (nonempty (srcs (family_caps v4 m))) eqn:En; cbn [List.filter].
  - rewrite E. destruct (srcs_contains m s); [|done]. cbn [map concat]. by rewrite IH.
  - rewrite IH. destruct (srcs_contains m s) eqn:Em; [|done]. apply nonempty_existsb in E. congruence.
Qed.

(** ** The preset filters *)

(** Every address is local to the wildcard sets. *)
Lemma any_contains (a b : IpAddr) :
  wf_ip a -> wf_ip b -> is_ipv4 a = is_ipv4 b -> ArtPrefix.contains {| addr := a; bits := 0 |} b = true.
Proof.
  intros Ha Hb Hf. apply contains_spec; [split; [done|simpl; lia]|done|]. unfold is_ipv6, pbits. simpl.
  rewrite Hf. by destruct b.
Qed.

Definition any4 : ArtPrefix.IpPrefix := {| addr := V4_UNSPECIFIED; bits := 0 |}.
Definition any6 : ArtPrefix.IpPrefix := {| addr := V6_UNSPECIFIED; bits := 0 |}.

Lemma wf_any : Forall wf_prefix [any4] /\ Forall wf_prefix [any6] /\ Forall wf_ip [V4_UNSPECIFIED; V6_UNSPECIFIED].
Proof. apply (bool_decide_unpack _). vm_compute. exact I. Qed.

Definition allow_all_policy (ms : list Match) : Policy :=
  {| rules := ms; locals := [any4; any6]; flows := []; holders := ∅; shielded := false |}.

Lemma allow_all_rep ms :
  matches_from_filter_rules false debug_dst filter_allow_all = Ret (Ok ms) ->
  exists f, allow_all sum_default filter_inputs_hash debug_dst false = Ret f /\
    filter_rep f (allow_all_policy ms).
Proof.
  intros E. unfold allow_all. destruct wf_any as (W4 & W6 & Wl).
  destruct (filter_new_spec filter_allow_all _ ∅ Wl) as (r & Er & Hr). rewrite E in Er. injection Er as <-.
  destruct Hr as (f & -> & Hf & _). rewrite run_bind_Ret.
  change (ArtPrefix.new V4_UNSPECIFIED 0) with (Some any4). change (ArtPrefix.new V6_UNSPECIFIED 0) with (Some any6).
  cbn [expect]. rewrite !run_bind_Ret. destruct (local_new_ok _ W4) as (l4 & -> & H4 & E4).
  destruct (local_new_ok _ W6) as (l6 & -> & H6 & E6). rewrite !run_bind_Ret. cbv zeta.
  eexists. split; [done|]. destruct Hf. split; try done. intros a. cbn [set_hash set_locals local4 local6].
  destruct a; rewrite ?E4, ?E6; cbn [is_ipv4 existsb allow_all_policy locals].
  - rewrite E4. cbn [existsb]. change (ArtPrefix.contains any6 (V4 octets)) with false. by rewrite !orb_false_r.
  - rewrite E6. cbn [existsb]. change (ArtPrefix.contains any4 (V6 octets)) with false. by rewrite !orb_false_r.
Qed.

Lemma allow_none_rep :
  exists f, allow_none sum_default = Ret f /\
    filter_rep f {| rules := []; locals := []; flows := []; holders := ∅; shielded := false |}.
Proof.
  unfold allow_none. destruct (local_new_ok []) as (l & -> & Hl & El); [done|]. rewrite !run_bind_Ret.
  eexists. split; [done|]. split; try done; [|apply cache_default_holds].
  intros a. cbn [local4 local6]. destruct (is_ipv4 a); by rewrite El.
Qed.

Definition any_filter4 : FilterPrefix.IpPrefix := {| p_addr := V4_UNSPECIFIED; p_bits := 0 |}.
Definition any_filter6 : FilterPrefix.IpPrefix := {| p_addr := V6_UNSPECIFIED; p_bits := 0 |}.
Definition allow_all_match : Match :=
  {| ip_proto := DEFAULT_PROTOS; srcs := [any_filter4; any_filter6]; src_caps := [];
     dsts := [{| net := any_filter4; ports := PORT_ALL |}; {| net := any_filter6; ports := PORT_ALL |}];
     m_caps := [] |}.

Lemma allow_all_compiles :
  matches_from_filter_rules false debug_dst filter_allow_all = Ret (Ok [allow_all_match]).
Proof. reflexivity. Qed.

Lemma allow_all_permitted q :
  info_ok q ->
  permitted (allow_all_policy [allow_all_match]) q =
  (proto q =? icmp_of q) || bool_decide (proto q ∈ DEFAULT_PROTOS).
Proof.
  intros Hq. unfold permitted. destruct (Z.eqb_spec (proto q) (icmp_of q)) as [Hi|Hi]; cbn [orb].
  { unfold matches_ips_only. destruct Hq as [_ _ Hs Hd _]. destruct (version q =? 4); cbn;
      destruct (src q), (dst q); done. }
  assert (proto_in allow_all_match q = bool_decide (proto q ∈ DEFAULT_PROTOS)) as Ep.
  { apply Bool.eq_iff_eq_true. unfold proto_in. rewrite existsb_elem, bool_decide_eq_true.
    split; [intros (x & Hx & ->%Z.eqb_eq); done|intros H; exists (proto q); by rewrite Z.eqb_refl]. }
  cbn [allow_all_policy rules holders]. destruct (_ || _).
  - rewrite matches_exists. cbn [existsb]. rewrite orb_false_r, Ep.
    assert (src_ok (has_cap ∅) allow_all_match (src q) = true) as -> by (by destruct (src q)).
    assert (dst_port_in allow_all_match q = true) as ->; [|by rewrite !andb_true_r].
    unfold dst_port_in. destruct Hq as [_ _ _ _ Hp]. cbn. unfold port_contains. cbn [first last PORT_ALL].
    assert ((0 <=? dst_port q) && (dst_port q <=? 65535) = true) as -> by (rewrite andb_true_iff, !Z.leb_le; lia).
    by destruct (dst q).
  - rewrite matches_all_ports_exists. cbn [existsb]. rewrite orb_false_r, Ep.
    assert (srcs_contains allow_all_match (src q) = true) as -> by (by destruct (src q)).
    assert (dst_all_ports_in allow_all_match q = true) as -> by (unfold dst_all_ports_in; destruct (dst q); reflexivity). by rewrite !andb_true_r.
Qed.

Lemma allow_all_protocols q ms :
  (proto q =? FRAGMENT) ||
  (established (allow_all_policy ms) q || ((proto q =? icmp_of q) || bool_decide (proto q ∈ DEFAULT_PROTOS))) =
  bool_decide (proto q ∈ [TCP; UDP; ICMP_V4; ICMP_V6; TSMP; FRAGMENT]).
Proof.
  assert (known_flow (allow_all_policy ms) q = false) as Hk by (apply bool_decide_eq_false, not_elem_of_nil).
  assert (proto q = icmp_of q -> proto q = ICMP_V4 \/ proto q = ICMP_V6) as Hi
    by (unfold icmp_of; destruct (_ =? _); auto).
  apply Bool.eq_iff_eq_true. unfold established, DEFAULT_PROTOS. rewrite Hk, andb_false_r, orb_false_r.
  rewrite !orb_true_iff, !andb_true_iff, !bool_decide_eq_true, !Z.eqb_eq, !elem_of_cons, elem_of_nil. tauto.
Qed.

(** ** The properties *)

(** C1. The filter refines the policy.  A filter built from any rules, run
    through any sequence of inbound packets, outbound packets, shields-up
    switches, added subnets and rebuilds, never panics; every verdict and every
    rebuild result is the one the abstract policy gives, where the verdict is
    [admits]: rules over all families, a linear scan of the local prefixes, and
    the list of recorded flows. *)
Theorem filter_refines_policy (rs : list FilterRule) (ips : list IpAddr) (hs : gmap IpAddr (gset string))
    (f : Filter Sum) (ops : list filter_op) :
  Forall wf_ip ips -> Forall op_ok ops ->
  filter_new filter_inputs_hash debug_dst false rs ips hs = Ret (Ok f) ->
  exists ms f' P' outs,
    matches_from_filter_rules false debug_dst rs = Ret (Ok ms) /\
    run_filter f ops = Ret (f', outs) /\
    run_policy (policy_new ms ips hs, filter_inputs_hash rs ips hs) ops = Ret (P', outs).
Proof.
  intros Hips Hops Hf. destruct (filter_new_spec rs ips hs Hips) as (r & Er & Hr).
  rewrite Hf in Hr. destruct r as [ms|]; [|done]. destruct Hr as (f0 & [= <-] & Hrep & Hh).
  destruct (run_filter_spec ops f (policy_new ms ips hs, filter_inputs_hash rs ips hs)) as (f' & P' & outs & E1 & E2 & _);
    [by split|done|]. by exists ms, f', P', outs.
Qed.

(** C34. Shields up: whatever the rules, an inbound packet is accepted only if it
    is empty, a fragment, or addressed to this node and part of something it
    started (a TCP segment that does not open a connection, a UDP or SCTP flow
    recorded by an outbound packet, an ICMP reply or error, TSMP). *)
Theorem shields_up_admits_only_established (f : Filter Sum) (P : Policy) (buf : list Z) :
  filter_rep f P -> shields_up f = true -> wf_bytes buf ->
  exists f' r, check_in f buf = Ret (f', r) /\
    (r = Accept <->
     buf = [] \/
     exists q, parse_packet buf = Ret (Some q) /\ unroutable q = false /\
       (proto q = FRAGMENT \/ is_local P q = true /\ established P q = true)).
Proof.
  intros Hr Hs Hw. destruct (filter_step_spec f (P, input_hash f) (Inbound buf)) as (f' & P' & o & E1 & E2 & _); [done..|].
  cbn [filter_step policy_step] in E1, E2. apply run_bind_inv in E1 as ([f1 r] & E & [= -> <-]).
  exists f', r. split; [done|]. apply run_bind_inv in E2 as (info & Ei & E2). rewrite Ei.
  destruct info as [q|]; cbn [fst] in E2.
  - injection E2 as _ <-. assert (buf <> []) as Hne by (intros ->; done).
    unfold admits. rewrite <- (fr_shields _ _ Hr), Hs. cbn [negb andb]. rewrite orb_false_r.
    destruct (unroutable q) eqn:Hu; cbn [negb andb].
    { split; [done|]. intros [?|(q' & [= <-] & ? & _)]; congruence. }
    destruct (_ || _) eqn:Ea.
    + split; [|done]. intros _. right. exists q. do 2 (split; [done|]).
      by rewrite orb_true_iff, andb_true_iff, Z.eqb_eq in Ea.
    + split; [done|]. intros [?|(q' & [= <-] & _ & H)]; [done|]. exfalso.
      rewrite <- Z.eqb_eq, <- andb_true_iff, <- orb_true_iff in H. congruence.
  - injection E2 as _ <-. destruct (Nat.eqb_spec (length buf) 0) as [E0|E0].
    + split; [|done]. intros _. left. by apply nil_length_inv.
    + split; [done|]. intros [->|(q & ? & _)]; done.
Qed.

(** [r] goes back along the path of [q]. *)
Definition replies (q r : PacketInfo) : Prop :=
  proto r = proto q /\ src r = dst q /\ dst r = src q /\ src_port r = dst_port q /\ dst_port r = src_port q.

(** C35. Return traffic gets in: after an outbound UDP or SCTP packet, the reply
    is accepted as long as its destination is local, whatever the rules, with
    shields up, and across any operations in between that are fewer than the
    cache's 512 entries, rule rebuilds included. *)
Theorem reply_admitted (f : Filter Sum) (P : Policy * Sum) (out reply : list Z) (q r : PacketInfo)
    (ops : list filter_op) :
  implements f P -> wf_bytes out -> wf_bytes reply -> Forall op_ok ops -> (length ops < FLOW_MAX)%nat ->
  parse_packet out = Ret (Some q) -> is_datagram q = true ->
  parse_packet reply = Ret (Some r) -> replies q r -> unroutable r = false ->
  exists f' P' outs,
    run_filter f (Outbound out :: ops) = Ret (f', outs) /\
    run_policy P (Outbound out :: ops) = Ret (P', outs) /\
    (is_local P'.1 r = true -> exists f'', check_in f' reply = Ret (f'', Accept)).
Proof.
  intros Hi Ho Hre Hops Hlen Eq Hd Er (R1 & R2 & R3 & R4 & R5) Hu.
  destruct (run_filter_spec (Outbound out :: ops) f P Hi) as (f' & P' & outs & E1 & E2 & [Hr _]); [by constructor|].
  exists f', P', outs. do 2 (split; [done|]). intros Hl.
  assert (known_flow P'.1 r = true) as Hk.
  { cbn [run_policy policy_step] in E2. rewrite Eq, !run_bind_Ret in E2. cbn [fst snd] in E2.
    apply run_bind_inv in E2 as ([P2 o2] & E2 & [= <- _]). cbn [fst snd].
    apply (recent_known (1 + length ops)), (run_policy_recent ops _ _ _ _ _ E2); [|lia].
    cbn [fst]. unfold opened. rewrite Hd. unfold inbound_flow. rewrite R1, R2, R3, R4, R5. apply recent_here. }
  assert (admits P'.1 r = true) as Ha.
  { unfold admits, established. unfold is_datagram in *. rewrite R1, Hd, Hu, Hl, Hk. cbn [negb andb].
    by rewrite !orb_true_r. }
  unfold check_in. destruct (parse_packet_ok reply Hre) as (info & Ei & Hq). rewrite Er in *. injection Ei as <-.
  destruct (check_in_info_spec f' P'.1 r Hr (Hq r eq_refl)) as (c & Ec & _). rewrite Ha in Ec.
  assert ((length reply =? 0)%nat = false) as -> by (by destruct reply). rewrite run_bind_Ret. eauto.
Qed.

(** [caps_with_values] returns, for each capability, the values of every
    grant whose rule has the source and whose destination has the address, in
    rule order and over all the rules the filter was compiled from; a capability
    without a grant is absent. *)
Theorem caps_with_values_collects (f : Filter Sum) (P : Policy) (s d : IpAddr) (cap : string) :
  filter_rep f P -> cap <> EmptyString ->
  caps_with_values f s d !! cap = grant_values (grants (rules P) s d cap).
Proof.
  intros Hr Hc. unfold caps_with_values. rewrite collect_matches_spec, lookup_empty by done.
  rewrite (fr_cap4 _ _ Hr), (fr_cap6 _ _ Hr). unfold partition_caps_by_family. cbv zeta. cbn [fst snd].
  assert (forall l, app_values None l = grant_values l) as -> by (by intros []).
  destruct (is_ipv4 s) eqn:E; by rewrite grants_family.
Qed.

(** The filter for tests and for nodes without rules accepts, of the packets
    it can parse and route, exactly TCP, UDP, ICMP of either version, TSMP and
    fragments; any other protocol, SCTP among them, is dropped. *)
Theorem allow_all_verdict :
  exists f, allow_all sum_default filter_inputs_hash debug_dst false = Ret f /\
    forall buf q, wf_bytes buf -> parse_packet buf = Ret (Some q) ->
    exists f', check_in f buf =
      Ret (f', if negb (unroutable q) &&
                  bool_decide (proto q ∈ [TCP; UDP; ICMP_V4; ICMP_V6; TSMP; FRAGMENT])
               then Accept else Drop).
Proof.
  destruct (allow_all_rep _ allow_all_compiles) as (f & Ef & Hr). exists f. split; [done|]. intros buf q Hw E.
  destruct (parse_packet_ok buf Hw) as (o & Eo & Hq). rewrite E in Eo. injection Eo as <-. specialize (Hq q eq_refl).
  unfold check_in. rewrite E. assert ((length buf =? 0)%nat = false) as -> by (by destruct buf).
  rewrite run_bind_Ret. destruct (check_in_info_spec f _ q Hr Hq) as (c & -> & _). exists (set_state f c). do 2 f_equal.
  unfold admits. destruct (unroutable q); cbn [negb andb]; [done|].
  assert (is_local (allow_all_policy [allow_all_match]) q = true) as ->.
  { unfold is_local. cbn [existsb allow_all_policy locals]. destruct wf_any as (W4 & W6 & _).
    inversion_clear W4 as [|? ? [W _] _]. inversion_clear W6 as [|? ? [W' _] _]. rewrite !orb_true_iff.
    pose proof (io_dst _ Hq) as Hd. destruct (dst q) eqn:Ed; [left|right; left]; by apply any_contains. }
  cbn [andb negb]. rewrite (allow_all_permitted q Hq). cbn [allow_all_policy shielded negb andb].
  by rewrite allow_all_protocols.
Qed.

End filter_correct.

(** ** Instances *)

(** An IPv4 UDP or TCP packet without options or payload. *)
Definition example_packet (p : Z) (s d : list Z) (sp dp flags : Z) : list Z :=
  [69; 0; 0; 40; 0; 0; 0; 0; 64; p; 0; 0] ++ s ++ d ++ to_be_bytes 2 sp ++ to_be_bytes 2 dp ++
  replicate 9 0 ++ [flags] ++ replicate 6 0.
Definition example_rules : list FilterRule :=
  [{| SrcIPs := ["100.64.0.0/10"%string]; SrcBits := [];
      DstPorts := [{| d_IP := "100.64.0.2"%string; d_Bits := None; d_Ports := {| first := 22; last := 22 |} |}];
      IPProto := [];
      CapGrants := [{| g_Dsts := ["100.64.0.2/32"%string]; g_Caps := ["read"%string];
                       g_CapMap := [("write"%string, ["a"%string; "b"%string])] |}] |}].
Definition example_hash : list FilterRule -> list IpAddr -> gmap IpAddr (gset string) -> nat :=
  fun rs ips _ => (1 + length rs + length ips)%nat.
Definition example_me : list Z := [100; 64; 0; 2].
Definition example_ssh (s : list Z) : filter_op := Inbound (example_packet TCP s example_me 4000 22 2).
Definition example_ops : list filter_op :=
  [example_ssh [100; 64; 0; 9]; example_ssh [8; 8; 8; 8]; Shields true; example_ssh [100; 64; 0; 9];
   Outbound (example_packet UDP example_me [8; 8; 8; 8] 5000 53 0);
   Rebuild example_rules [V4 example_me] ∅; Rebuild [] [V4 example_me] ∅;
   Inbound (example_packet UDP [8; 8; 8; 8] example_me 53 5000 0)].
Definition example_outs : list filter_out :=
  [Said Accept; Said Drop; Quiet; Said Drop; Quiet; Rebuilt (Ok false); Rebuilt (Ok true); Said Accept].

Lemma example_ops_ok : Forall wf_ip [V4 example_me] /\ Forall op_ok example_ops.
Proof.
  split; [apply (bool_decide_unpack _); vm_compute; exact I|].
  repeat constructor; vm_compute; intuition congruence.
Qed.

Lemma filter_refines_policy_witness :
  exists f : Filter nat,
    filter_new example_hash (fun _ => EmptyString) false example_rules [V4 example_me] ∅ = Ret (Ok f) /\
    exists f', run_filter 0%nat example_hash (fun _ => EmptyString) f example_ops = Ret (f', example_outs).
Proof.
  destruct example_ops_ok as [Hips Hops].
  destruct (filter_new example_hash (fun _ => EmptyString) false example_rules [V4 example_me] ∅)
    as [[f|]|] eqn:E; [|vm_compute in E; discriminate E..]. exists f. split; [reflexivity|].
  destruct (filter_refines_policy 0%nat example_hash (fun _ => EmptyString) _ _ _ f example_ops Hips Hops E)
    as (ms & f' & P' & outs & Em & Ef & Ep).
  exists f'. rewrite Ef. f_equal. f_equal. vm_compute in Em. injection Em as <-.
  vm_compute in Ep. injection Ep as _ <-. reflexivity.
Defined.

Lemma shields_up_admits_only_established_witness :
  exists (f : Filter nat) P,
    filter_rep f P /\ shields_up f = true /\
    exists f', check_in f (example_packet TCP [8; 8; 8; 8] example_me 4000 22 2) = Ret (f', Drop).
Proof.
  destruct (allow_all_rep 0%nat example_hash (fun _ => EmptyString) _ (allow_all_compiles (fun _ => EmptyString)))
    as (f & Ef & Hr).
  exists (set_shields_up f true), (with_shields (allow_all_policy [allow_all_match]) true).
  assert (filter_rep (set_shields_up f true) (with_shields (allow_all_policy [allow_all_match]) true)) as Hr'
    by (by apply filter_rep_shields).
  split; [exact Hr'|]. split; [reflexivity|].
  destruct (shields_up_admits_only_established 0%nat example_hash (fun _ => EmptyString) (set_shields_up f true) _
    (example_packet TCP [8; 8; 8; 8] example_me 4000 22 2) Hr' eq_refl) as (f' & r & E & Hacc).
  { apply (bool_decide_unpack _); vm_compute; exact I. }
  exists f'. rewrite E. f_equal. f_equal.
  destruct r; [exfalso|reflexivity|].
  - destruct (proj1 Hacc eq_refl) as [H|(q & Hq & _ & H)]; [discriminate H|].
    vm_compute in Hq. injection Hq as <-. destruct H as [H|[_ H]]; vm_compute in H; discriminate H.
  - exfalso. vm_compute in Ef. injection Ef as <-. vm_compute in E. discriminate E.
Defined.

Lemma reply_admitted_witness :
  exists f f'' : Filter nat, exists f' outs,
    allow_none 0%nat = Ret f /\
    run_filter 0%nat example_hash (fun _ => EmptyString) f
      [Outbound (example_packet UDP example_me [8; 8; 8; 8] 5000 53 0); Shields true;
       AddCidrs ["100.64.0.0/16"%string]] = Ret (f', outs) /\
    check_in f' (example_packet UDP [8; 8; 8; 8] example_me 53 5000 0) = Ret (f'', Accept).
Proof.
  destruct (allow_none_rep (Sum := nat) 0%nat) as (f & Ef & Hr).
  destruct (reply_admitted 0%nat example_hash (fun _ => EmptyString) f
    ({| rules := []; locals := []; flows := []; holders := ∅; shielded := false |}, input_hash f)
    (example_packet UDP example_me [8; 8; 8; 8] 5000 53 0)
    (example_packet UDP [8; 8; 8; 8] example_me 53 5000 0)
    {| version := 4; proto := UDP; src := V4 example_me; dst := V4 [8; 8; 8; 8]; src_port := 5000; dst_port := 53;
       tcp_flags := 0; is_tcp_syn := false; is_icmp_echo_reply := false; is_icmp_error := false |}
    {| version := 4; proto := UDP; src := V4 [8; 8; 8; 8]; dst := V4 example_me; src_port := 53; dst_port := 5000;
       tcp_flags := 0; is_tcp_syn := false; is_icmp_echo_reply := false; is_icmp_error := false |}
    [Shields true; AddCidrs ["100.64.0.0/16"%string]]) as (f' & P' & outs & E1 & E2 & H);
    [split; [exact Hr|reflexivity]|apply (bool_decide_unpack _); vm_compute; exact I..
    |repeat constructor|apply Nat.ltb_lt; reflexivity|reflexivity|reflexivity|reflexivity|repeat split|reflexivity|].
  destruct H as (f'' & H).
  { vm_compute in E2. injection E2 as <- _. reflexivity. }
  exists f, f'', f', outs. split; [exact Ef|]. split; [exact E1|exact H].
Defined.

Lemma caps_with_values_collects_witness :
  exists f : Filter nat,
    filter_new example_hash (fun _ => EmptyString) false example_rules [V4 example_me] ∅ = Ret (Ok f) /\
    caps_with_values f (V4 [100; 64; 0; 9]) (V4 example_me) !! "write"%string = Some ["a"%string; "b"%string] /\
    caps_with_values f (V4 [9; 9; 9; 9]) (V4 example_me) !! "write"%string = None.
Proof.
  destruct example_ops_ok as [Hips _].
  destruct (filter_new_spec example_hash (fun _ => EmptyString) example_rules _ ∅ Hips) as (r & Er & Hr).
  vm_compute in Er. injection Er as <-. destruct Hr as (f & Ef & Hrep & _). exists f. split; [exact Ef|].
  split; erewrite (caps_with_values_collects f); [|exact Hrep|discriminate| |exact Hrep|discriminate]; reflexivity.
Defined.
