(* ===== verification/Keys.v ===== *)
(** * Curve25519 keys: [crates/key]

    Keys are their 32 raw bytes.  The NaCl box of the [crypto_box] crate, the
    derivation of public keys and the [hex] crate are parameters of the model;
    [BoxLaws] and [HexLaws] state what their documentation promises.  Random
    nonces are arguments. *)

From Stdlib Require Import Ascii.
From S2P Require Import Prelude Bytes Bits IpText.

Definition KEY_LEN : nat := 32.
Definition NONCE_LEN : nat := 24.

Inductive KeyError : Type := Encrypt | InvalidHex | MissingPrefix (p : string) | InvalidLength | ZeroKey.

Definition NODE_PUB_PREFIX : string := "nodekey:".
Definition MACHINE_PUB_PREFIX : string := "mkey:".
Definition DISCO_PUB_PREFIX : string := "discokey:".
Definition PRIV_PREFIX : string := "privkey:".

(** [is_zero] of every key type. *)
Definition is_zero (k : list Z) : bool := forallb (fun b => b =? 0) k.

(** [clamp25519]. *)
Definition clamp25519 (b : list Z) : run (list Z) :=
  b0 ← idx b 0; b ← idx_set b 0 (Z.land b0 0xf8);
  b31 ← idx b 31; idx_set b 31 (Z.lor (Z.land b31 0x7f) 0x40).

(** [ct_eq]. *)
Fixpoint ct_diff (diff : Z) (a b : list Z) : Z :=
  match a, b with
  | x :: a, y :: b => ct_diff (Z.lor diff (Z.lxor x y)) a b
  | _, _ => diff
  end.
Definition ct_eq (a b : list Z) : bool :=
  if negb (length a =? length b)%nat then false else ct_diff 0 a b =? 0.

(** ** Text forms *)

Class Hex : Type := { hex_encode : list Z -> string; hex_decode_to_slice : string -> option (list Z) }.
(** [hex::encode] writes two digits per byte and [hex::decode_to_slice] reads them back. *)
Class HexLaws `{Hex} : Prop := {
  hex_length : forall b, String.length (hex_encode b) = (2 * length b)%nat;
  hex_decode_encode : forall b, wf_bytes b -> hex_decode_to_slice (hex_encode b) = Some b }.

Section text.
Context `{HexLaws}.

(** [append_hex_key]. *)
Definition append_hex_key (prefix : string) (bytes : list Z) : string := prefix +:+ hex_encode bytes.

(** [parse_typed_hex] into an array of [n] bytes. *)
Definition parse_typed_hex (input prefix : string) (n : nat) : result KeyError (list Z) :=
  rest ← ok_or (strip_prefix prefix input) (MissingPrefix prefix);
  if negb (String.length rest =? n * 2)%nat then Err InvalidLength
  else ok_or (hex_decode_to_slice rest) InvalidHex.

(** [marshal_text] and [from_str] of a key type with the given prefix. *)
Definition marshal_text (prefix : string) (k : list Z) : string := append_hex_key prefix k.
Definition from_str (prefix s : string) : result KeyError (list Z) := parse_typed_hex s prefix KEY_LEN.

End text.

(** ** NaCl box *)

Class BoxCrypto : Type := {
  salsa_box : Type;
  box_new : list Z -> list Z -> salsa_box;
  box_encrypt : salsa_box -> list Z -> list Z -> option (list Z);
  box_decrypt : salsa_box -> list Z -> list Z -> option (list Z);
  derive_public : list Z -> list Z }.

(** A box made with [(pub b, a)] is opened by the one made with [(pub a, b)];
    cleartexts and public keys are bytes, the latter 32 of them. *)
Class BoxLaws `{BoxCrypto} : Prop := {
  box_open_sealed : forall a b nonce m ct,
    wf_bytes m ->
    box_encrypt (box_new (derive_public b) a) nonce m = Some ct ->
    box_decrypt (box_new (derive_public a) b) nonce ct = Some m;
  box_decrypt_bytes : forall b nonce ct m, box_decrypt b nonce ct = Some m -> wf_bytes m;
  derive_public_bytes : forall a, wf_bytes (derive_public a);
  derive_public_length : forall a, length (derive_public a) = KEY_LEN }.

(** A box is its cleartext with an authenticator of at most 16 bytes. *)
Class BoxOverhead `{BoxCrypto} : Prop := {
  box_encrypt_length : forall b nonce m ct,
    box_encrypt b nonce m = Some ct -> (length ct <= length m + 16)%nat }.

Section crypto.
Context `{BoxCrypto}.

(** [boxcrypto::salsa]. *)
Definition salsa (my_sk peer_pk : list Z) : salsa_box := box_new peer_pk my_sk.
(** [boxcrypto::seal]. *)
Definition box_seal (my_sk peer_pk nonce cleartext : list Z) : result KeyError (list Z) :=
  ct ← ok_or (box_encrypt (salsa my_sk peer_pk) nonce cleartext) Encrypt;
  Ok (nonce ++ ct).
(** [boxcrypto::open]. *)
Definition box_open (my_sk peer_pk ciphertext : list Z) : option (list Z) :=
  if (length ciphertext <? NONCE_LEN)%nat then None
  else box_decrypt (salsa my_sk peer_pk) (take NONCE_LEN ciphertext) (drop NONCE_LEN ciphertext).

(** [public] of a private key. *)
Definition key_public (k : list Z) : run (list Z) :=
  _ ← assert_run (negb (is_zero k)); Ret (derive_public k).

(** [seal_to] and [open_from] of [NodePrivate] and [MachinePrivate]. *)
Definition seal_to (k peer nonce cleartext : list Z) : result KeyError (list Z) :=
  if is_zero k || is_zero peer then Err ZeroKey else box_seal k peer nonce cleartext.
Definition open_from (k peer ciphertext : list Z) : option (list Z) :=
  if is_zero k || is_zero peer then None else box_open k peer ciphertext.

(** [DiscoPrivate::shared] and [MachinePrivate::shared_key]: a precomputed box,
    none for a zero key. *)
Definition shared (k peer : list Z) : option salsa_box :=
  if is_zero k || is_zero peer then None else Some (box_new peer k).
(** [DiscoShared::seal] and [MachinePrecomputedSharedKey::seal]. *)
Definition shared_seal (s : option salsa_box) (nonce cleartext : list Z) : result KeyError (list Z) :=
  b ← ok_or s ZeroKey;
  ct ← ok_or (box_encrypt b nonce cleartext) Encrypt;
  Ok (nonce ++ ct).
(** [DiscoShared::open] and [MachinePrecomputedSharedKey::open]. *)
Definition shared_open (s : option salsa_box) (ciphertext : list Z) : option (list Z) :=
  b ← s;
  if (length ciphertext <? NONCE_LEN)%nat then None
  else box_decrypt b (take NONCE_LEN ciphertext) (drop NONCE_LEN ciphertext).

End crypto.

(** ** Properties *)

Lemma is_zero_repeat k : is_zero k = true -> k = replicate (length k) 0.
Proof.
  induction k as [|x k IH]; simpl; [done|]. rewrite andb_true_iff, Z.eqb_eq. intros [-> H]. by rewrite <- IH.
Qed.

Lemma lor_zero a b : 0 <= a -> 0 <= b -> Z.lor a b = 0 -> a = 0 /\ b = 0.
Proof. intros Ha Hb. by rewrite Z.lor_eq_0_iff. Qed.

Lemma ct_diff_spec a : forall b d,
  length a = length b -> 0 <= d -> wf_bytes a -> wf_bytes b -> ct_diff d a b = 0 <-> d = 0 /\ a = b.
Proof.
  induction a as [|x a IH]; intros [|y b] d Hl Hd Ha Hb; try done; cbn [ct_diff]; [tauto|].
  inversion_clear Ha as [|? ? [Hx _]]. inversion_clear Hb as [|? ? [Hy _]]. simpl in Hl.
  rewrite IH; [|lia| |done|done].
  - rewrite Z.lor_eq_0_iff, Z.lxor_eq_0_iff. split; [intros [[-> ->] ->]|intros [-> [= -> ->]]]; done.
  - apply Z.lor_nonneg. split; [done|]. apply Z.lxor_nonneg. tauto.
Qed.

Lemma idx_set_ok {A} (b : list A) i x : (i < length b)%nat -> idx_set b i x = Ret (<[i := x]> b).
Proof. intros H. unfold idx_set. by rewrite decide_True. Qed.

Lemma clamp25519_eq b :
  length b = KEY_LEN ->
  clamp25519 b = Ret (<[31%nat := Z.lor (Z.land (byte_at b 31) 0x7f) 0x40]> (<[0%nat := Z.land (byte_at b 0) 0xf8]> b)).
Proof.
  unfold KEY_LEN. intros Hl. unfold clamp25519. rewrite (idx_byte_at b 0), run_bind_Ret by lia.
  rewrite idx_set_ok, run_bind_Ret by lia.
  rewrite (idx_lookup _ 31 (byte_at b 31)), run_bind_Ret.
  - apply idx_set_ok. rewrite length_insert. lia.
  - rewrite list_lookup_insert_ne by done. destruct (lookup_lt_is_Some_2 b 31 ltac:(lia)) as [z Hz].
    rewrite Hz. unfold byte_at. by rewrite (nth_lookup_Some _ _ _ _ Hz).
Qed.

(** Clamping the two bytes, checked on every byte value. *)
Definition clamp_low_ok (x : Z) : bool :=
  let y := Z.land x 0xf8 in bool_decide (is_u8 y /\ y mod 8 = 0 /\ Z.land y 0xf8 = y).
Definition clamp_high_ok (x : Z) : bool :=
  let y := Z.lor (Z.land x 0x7f) 0x40 in bool_decide ((64 <= y < 128) /\ Z.lor (Z.land y 0x7f) 0x40 = y).

Lemma clamp_bytes x : is_u8 x -> clamp_low_ok x = true /\ clamp_high_ok x = true.
Proof. intros Hx. split; (apply u8_forallb; [vm_compute; reflexivity|done]). Qed.

Lemma byte_at_insert b i j x :
  (i < length b)%nat -> byte_at (<[i := x]> b) j = if decide (i = j) then x else byte_at b j.
Proof.
  intros Hi. unfold byte_at. rewrite !nth_lookup. case_decide as E; [subst j; by rewrite list_lookup_insert_eq|].
  by rewrite list_lookup_insert_ne.
Qed.

(** Clamping any 32 bytes gives a Curve25519 scalar: a multiple of eight with
    bit 254 set and bit 255 clear, unchanged elsewhere, and clamping again does
    nothing. *)
Theorem clamp_valid (b : list Z) :
  wf_bytes b -> length b = KEY_LEN ->
  exists c, clamp25519 b = Ret c /\ length c = KEY_LEN /\ wf_bytes c /\
    byte_at c 0 mod 8 = 0 /\ 64 <= byte_at c 31 < 128 /\
    (forall i, (0 < i < 31)%nat -> byte_at c i = byte_at b i) /\ clamp25519 c = Ret c.
Proof.
  intros Hw Hl. rewrite clamp25519_eq by done. eexists. split; [done|].
  assert (length b = 32%nat) as Hl' by done.
  destruct (clamp_bytes _ (byte_at_u8 b 0 Hw)) as [H0 _]. destruct (clamp_bytes _ (byte_at_u8 b 31 Hw)) as [_ H31].
  apply bool_decide_eq_true in H0 as (U0 & M0 & I0), H31 as (U31 & I31).
  assert (forall x y i, byte_at (<[31%nat := x]> (<[0%nat := y]> b)) i =
    if decide (31%nat = i) then x else if decide (0%nat = i) then y else byte_at b i) as Hb.
  { intros x y i. by rewrite !byte_at_insert by (rewrite ?length_insert; lia). }
  split; [by rewrite !length_insert|].
  split; [apply Forall_insert; [apply Forall_insert; done|unfold is_u8; lia]|].
  split; [by rewrite Hb|]. split; [by rewrite Hb|].
  split; [intros i Hi; by rewrite Hb, !decide_False by lia|].
  rewrite clamp25519_eq by (by rewrite !length_insert). f_equal.
  rewrite !Hb, (decide_False (P := 31%nat = 0%nat)), !decide_True, I0, I31 by done.
  rewrite (list_insert_insert_ne _ 0 31) by done.
  by rewrite !list_insert_insert_eq.
Qed.

Lemma clamp_valid_witness :
  let b := replicate 32 255 in
  (wf_bytes b /\ length b = KEY_LEN) /\ exists c, clamp25519 b = Ret c /\ clamp25519 c = Ret c.
Proof.
  intros b. assert (wf_bytes b) as Hw by (apply (bool_decide_unpack _); vm_compute; exact I).
  split; [split; [exact Hw|reflexivity]|].
  destruct (clamp_valid b Hw eq_refl) as (c & Hc & _ & _ & _ & _ & _ & Hc'). exists c. split; [exact Hc|exact Hc'].
Defined.

(** The constant-time comparison decides equality. *)
Theorem ct_eq_correct (a b : list Z) : wf_bytes a -> wf_bytes b -> ct_eq a b = bool_decide (a = b).
Proof.
  intros Ha Hb. unfold ct_eq. destruct (Nat.eqb_spec (length a) (length b)) as [E|E]; cbn [negb].
  - apply Bool.eq_iff_eq_true. rewrite Z.eqb_eq, bool_decide_eq_true, ct_diff_spec by done. tauto.
  - symmetry. apply bool_decide_eq_false. by intros ->.
Qed.

Lemma ct_eq_correct_witness :
  (wf_bytes [1; 2] /\ wf_bytes [1; 3]) /\ ct_eq [1; 2] [1; 3] = false.
Proof.
  assert (wf_bytes [1; 2] /\ wf_bytes [1; 3]) as [H1 H2] by (apply (bool_decide_unpack _); vm_compute; exact I).
  split; [split; assumption|]. rewrite (ct_eq_correct [1; 2] [1; 3] H1 H2). reflexivity.
Defined.

(** ** Text forms *)

Lemma strip_prefix_app p s : strip_prefix p (p +:+ s) = Some s.
Proof.
  induction p as [|c p IH]; [done|]. change (String c p +:+ s) with (String c (p +:+ s)). cbn [strip_prefix].
  by rewrite Ascii.eqb_refl.
Qed.

Definition key_prefixes : list string := [NODE_PUB_PREFIX; MACHINE_PUB_PREFIX; DISCO_PUB_PREFIX; PRIV_PREFIX].

(** No prefix of a key type is an initial segment of another type's texts. *)
Lemma strip_other p q s : p ∈ key_prefixes -> q ∈ key_prefixes -> p <> q -> strip_prefix q (p +:+ s) = None.
Proof.
  unfold key_prefixes. rewrite !elem_of_cons, !elem_of_nil.
  intros [->|[->|[->|[->|[]]]]] [->|[->|[->|[->|[]]]]] Hne; done.
Qed.

(** Key texts are typed: a key printed with its type's prefix reads back as
    the same key, and is rejected, naming the expected prefix, by the parser of
    every other key type. *)
Theorem key_text_typed `{HexLaws} (p q : string) (k : list Z) :
  p ∈ key_prefixes -> q ∈ key_prefixes -> wf_bytes k -> length k = KEY_LEN ->
  from_str q (marshal_text p k) = if decide (p = q) then Ok k else Err (MissingPrefix q).
Proof.
  intros Hp Hq Hw Hl. unfold from_str, marshal_text, append_hex_key, parse_typed_hex. case_decide as E.
  - subst q. rewrite strip_prefix_app. cbn [ok_or mbind result_bind].
    rewrite hex_length, Hl, hex_decode_encode by done. reflexivity.
  - by rewrite strip_other.
Qed.

(** A hex codec: digits of each byte in base 16. *)
Definition nibble_char (n : Z) : ascii := ascii_of_nat (Z.to_nat (if n <? 10 then 48 + n else 87 + n)).
Definition nibble_val (c : ascii) : Z := let n := Z.of_nat (nat_of_ascii c) in if n <? 87 then n - 48 else n - 87.
Fixpoint demo_encode (b : list Z) : string :=
  match b with
  | [] => EmptyString
  | x :: b => String (nibble_char (x / 16)) (String (nibble_char (x mod 16)) (demo_encode b))
  end.
Fixpoint demo_decode (s : string) : option (list Z) :=
  match s with
  | EmptyString => Some []
  | String h (String l s) => r ← demo_decode s; Some ((nibble_val h * 16 + nibble_val l) :: r)
  | String _ EmptyString => None
  end.
#[local] Instance demo_hex : Hex := {| hex_encode := demo_encode; hex_decode_to_slice := demo_decode |}.

#[local] Instance demo_hex_laws : HexLaws.
Proof.
  split; intros b; cbn.
  - induction b as [|x b IH]; cbn; [done|]. rewrite IH. lia.
  - induction 1 as [|x b Hx _ IH]; cbn; [done|]. rewrite IH. cbn. do 2 f_equal.
    apply Z.eqb_eq. revert x Hx. apply u8_forallb. vm_compute. reflexivity.
Qed.

Lemma key_text_typed_witness :
  let k := replicate 32 171 in
  from_str NODE_PUB_PREFIX (marshal_text NODE_PUB_PREFIX k) = Ok k /\
  from_str MACHINE_PUB_PREFIX (marshal_text NODE_PUB_PREFIX k) = Err (MissingPrefix MACHINE_PUB_PREFIX).
Proof.
  intros k. assert (wf_bytes k) as Hw by (apply (bool_decide_unpack _); vm_compute; exact I).
  split.
  - rewrite (key_text_typed NODE_PUB_PREFIX NODE_PUB_PREFIX k); [reflexivity|left|left|exact Hw|reflexivity].
  - rewrite (key_text_typed NODE_PUB_PREFIX MACHINE_PUB_PREFIX k); [reflexivity|left|right; left|exact Hw|reflexivity].
Defined.

(** ** Sealed boxes *)

Lemma seal_to_inv `{BoxCrypto} a pk nonce m ct :
  seal_to a pk nonce m = Ok ct ->
  is_zero a = false /\ is_zero pk = false /\
  exists c, box_encrypt (box_new pk a) nonce m = Some c /\ ct = nonce ++ c.
Proof.
  unfold seal_to, box_seal, salsa. destruct (is_zero a); [done|]. destruct (is_zero pk); [done|]. cbn [orb].
  destruct (box_encrypt _ _ _) as [c|] eqn:E; [|done]. cbn [ok_or mbind result_bind]. intros [= <-]. eauto.
Qed.

Lemma open_sealed `{BoxLaws} a b nonce m ct :
  length nonce = NONCE_LEN -> wf_bytes m -> is_zero (derive_public a) = false -> is_zero b = false ->
  seal_to a (derive_public b) nonce m = Ok ct -> open_from b (derive_public a) ct = Some m.
Proof.
  intros Hn Hm Ha Hb Hs. apply seal_to_inv in Hs as (_ & _ & c & E & ->).
  unfold open_from, box_open, salsa. rewrite Ha, Hb. cbn [orb].
  rewrite length_app, Hn, (proj2 (Nat.ltb_ge _ _)) by lia.
  rewrite take_app_length', drop_app_length' by done. by apply (box_open_sealed _ _ _ _ _ Hm E).
Qed.

Lemma seal_to_length `{BoxOverhead} a pk nonce m ct :
  seal_to a pk nonce m = Ok ct -> (length nonce <= length ct <= length nonce + length m + 16)%nat.
Proof.
  intros Hs. apply seal_to_inv in Hs as (_ & _ & c & E & ->). apply box_encrypt_length in E. rewrite length_app. lia.
Qed.

(** What one key seals for another, the other opens: a box made by [seal_to]
    or with the precomputed key is the same bytes, and [open_from] and the
    precomputed key of the receiver both give the cleartext back; with a zero
    key on either side nothing is sealed or opened. *)
Theorem sealed_opens `{BoxLaws} (a b nonce m ct : list Z) :
  length nonce = NONCE_LEN -> wf_bytes m ->
  is_zero (derive_public a) = false -> is_zero b = false ->
  seal_to a (derive_public b) nonce m = Ok ct ->
  open_from b (derive_public a) ct = Some m /\
  shared_seal (shared a (derive_public b)) nonce m = Ok ct /\
  shared_open (shared b (derive_public a)) ct = Some m /\
  is_zero a = false /\ open_from (replicate 32 0) (derive_public a) ct = None.
Proof.
  intros Hn Hm Ha Hb Hs. pose proof (open_sealed _ _ _ _ _ Hn Hm Ha Hb Hs) as Ho. rewrite Ho.
  apply seal_to_inv in Hs as (Za & Zb & c & E & ->).
  unfold open_from in *. rewrite Ha, Hb in Ho. cbn [orb] in Ho. unfold box_open, salsa in Ho.
  unfold shared, shared_open, shared_seal. rewrite Ha, Hb, Zb, Za. cbn [orb mbind option_bind result_bind ok_or].
  by rewrite E, Ho.
Qed.

(** A cipher with the laws: the key is a sum both sides compute. *)
Definition sum_list (l : list Z) : Z := foldr Z.add 0 l.
#[local] Instance demo_box : BoxCrypto :=
  {| salsa_box := Z;
     box_new := fun pk sk => (sum_list pk + sum_list sk) mod 256;
     box_encrypt := fun k _ m => Some (map (fun x => (x + k) mod 256) m);
     box_decrypt := fun k _ c => Some (map (fun x => (x - k) mod 256) c);
     derive_public := fun a => sum_list a mod 256 :: replicate 31 0 |}.

#[local] Instance demo_box_laws : BoxLaws.
Proof.
  assert (forall (f : Z -> Z) l, wf_bytes (map (fun x => f x mod 256) l)) as Hw.
  { intros f l. induction l; cbn; constructor; [|done]. unfold is_u8. apply Z.mod_pos_bound. lia. }
  split; [| |intros a; constructor; [unfold is_u8; apply Z.mod_pos_bound; lia|by apply wf_bytes_replicate0]|done].
  - intros a b nonce m ct Hm [= <-]. cbn. f_equal. rewrite map_map.
    rewrite <- (map_id m) at 2. apply map_ext_in. intros x Hx. rewrite !Z.add_0_r.
    unfold wf_bytes in Hm. rewrite Forall_forall in Hm. apply Hm in Hx. unfold is_u8 in Hx.
    rewrite !(Zplus_mod_idemp_l (sum_list _)), (Z.add_comm (sum_list b)).
    rewrite Zminus_mod_idemp_l. replace (x + _ - _) with x by lia. by apply Z.mod_small.
  - intros b nonce ct m [= <-]. apply (Hw (fun x => x - b)).
Qed.

Lemma sealed_opens_witness :
  let a := replicate 32 3 in let b := replicate 32 5 in let n := replicate 24 7 in
  exists ct, seal_to a (derive_public b) n [1; 2; 3] = Ok ct /\ open_from b (derive_public a) ct = Some [1; 2; 3].
Proof.
  intros a b n. eexists. split; [reflexivity|].
  refine (proj1 (sealed_opens a b n [1; 2; 3] _ _ _ _ _ _));
    [reflexivity|apply (bool_decide_unpack _); vm_compute; exact I|reflexivity..].
Defined.
