(* ===== verification/Disco.v ===== *)
(** * Discovery messages: [crates/disco]

    The disco codec: [wire.rs]'s endpoints, the nine message types of
    [message.rs] with their [marshal] and [parse], and the packet envelope of
    [lib.rs].  Marshalling writes into a zeroed buffer slice by slice as the code
    does; [wire] is the layout it is proved to produce.  Durations are
    nanoseconds. *)

From S2P Require Import Prelude Bytes IpAddr Keys.

(** ** Endpoints: [wire.rs] *)

Definition EP_LENGTH : nat := 18.

Record AddrPort : Type := { ap_ip : IpAddr; ap_port : Z }.

(** [AddrPort::as16]. *)
Definition as16 (a : AddrPort) : list Z :=
  match ap_ip a with V4 o => to_ipv6_mapped o | V6 o => o end.
(** [map_from_16]. *)
Definition map_from_16 (b : list Z) : IpAddr :=
  match to_ipv4_mapped b with Some v4 => V4 v4 | None => V6 b end.
(** [AddrPort::from16]. *)
Definition from16 (b : list Z) (port : Z) : AddrPort := {| ap_ip := map_from_16 b; ap_port := port |}.

(** [AddrPort::encode_to] on the slice it is given. *)
Definition ap_encode_to (a : AddrPort) (buf : list Z) : run (list Z) :=
  _ ← assert_run (length buf =? EP_LENGTH)%nat;
  buf ← copy_to buf 0 16 (as16 a);
  copy_to buf 16 (length buf) (to_be_bytes 2 (ap_port a)).
(** [AddrPort::decode_from]. *)
Definition ap_decode_from (buf : list Z) : run AddrPort :=
  _ ← assert_run (length buf =? EP_LENGTH)%nat;
  ip16 ← slice buf 0 16;
  p ← idx_range buf 16 2;
  Ret (from16 ip16 (from_be_bytes p)).

(** ** Messages: [message.rs] *)

Definition MESSAGE_HEADER_LEN : nat := 2.
Definition V0 : Z := 0.
Definition TYPE_PING : Z := 0x01.
Definition TYPE_PONG : Z := 0x02.
Definition TYPE_CALL_ME_MAYBE : Z := 0x03.
Definition TYPE_BIND_UDP_RELAY_ENDPOINT : Z := 0x04.
Definition TYPE_BIND_UDP_RELAY_ENDPOINT_CHALLENGE : Z := 0x05.
Definition TYPE_BIND_UDP_RELAY_ENDPOINT_ANSWER : Z := 0x06.
Definition TYPE_CALL_ME_MAYBE_VIA : Z := 0x07.
Definition TYPE_ALLOCATE_UDP_RELAY_ENDPOINT_REQUEST : Z := 0x08.
Definition TYPE_ALLOCATE_UDP_RELAY_ENDPOINT_RESPONSE : Z := 0x09.
Definition PONG_LEN : nat := 30.
Definition BIND_UDP_RELAY_ENDPOINT_COMMON_LEN : nat := 72.
Definition BIND_UDP_RELAY_CHALLENGE_LEN : nat := 32.
Definition ALLOCATE_UDP_RELAY_ENDPOINT_REQUEST_LEN : nat := 68.
Definition UDP_RELAY_ENDPOINT_LEN_MINUS_ADDRPORTS : nat := 124.

Inductive DiscoError : Type := Short | UnknownType (t : Z).

Record Ping : Type := { ping_tx_id : list Z; node_key : list Z; padding : nat }.
Record Pong : Type := { pong_tx_id : list Z; pong_src : AddrPort }.
Record BindUdpRelayEndpointCommon : Type := {
  b_vni : Z; b_generation : Z; remote_key : list Z; challenge : list Z }.
Record UdpRelayEndpoint : Type := {
  server_disco : list Z;
  client_disco : list Z * list Z;
  lamport_id : Z;
  e_vni : Z;
  bind_lifetime : Z;
  steady_state_lifetime : Z;
  addr_ports : list AddrPort }.

Inductive Message : Type :=
| MPing (m : Ping)
| MPong (m : Pong)
| MCallMeMaybe (my_number : list AddrPort)
| MBind (m : BindUdpRelayEndpointCommon)
| MBindChallenge (m : BindUdpRelayEndpointCommon)
| MBindAnswer (m : BindUdpRelayEndpointCommon)
| MCallMeMaybeVia (m : UdpRelayEndpoint)
| MAllocateRequest (cd : list Z * list Z) (generation : Z)
| MAllocateResponse (generation : Z) (m : UdpRelayEndpoint).

Definition zero_key : list Z := replicate KEY_LEN 0.
Definition zero_disco_pair : list Z * list Z := (zero_key, zero_key).

(** The first two bytes of every message. *)
Definition start (typ : Z) (data_len : nat) : run (list Z) :=
  let out := replicate (MESSAGE_HEADER_LEN + data_len) 0 in
  out ← idx_set out 0 typ; idx_set out 1 V0.

(** [Ping::marshal]. *)
Definition ping_marshal (m : Ping) : run (list Z) :=
  let has_key := negb (is_zero (node_key m)) in
  let data_len := (12 + (if has_key then KEY_LEN else 0) + padding m)%nat in
  out ← start TYPE_PING data_len;
  let off := MESSAGE_HEADER_LEN in
  out ← copy_to out off (off + 12) (ping_tx_id m);
  if has_key then copy_to out (off + 12) (off + 12 + KEY_LEN) (node_key m) else Ret out.

(** [parse_ping]. *)
Definition parse_ping (ver : Z) (body : list Z) : run (result DiscoError Message) :=
  if (length body <? 12)%nat then Ret (Err Short)
  else
    tx_id ← slice body 0 12;
    rest ← slice_from body 12;
    if (KEY_LEN <=? length rest)%nat then
      k ← slice rest 0 KEY_LEN;
      Ret (Ok (MPing {| ping_tx_id := tx_id; node_key := k; padding := length rest - KEY_LEN |}))
    else Ret (Ok (MPing {| ping_tx_id := tx_id; node_key := zero_key; padding := length rest |})).

(** [Pong::marshal] and [parse_pong]. *)
Definition pong_marshal (m : Pong) : run (list Z) :=
  out ← start TYPE_PONG PONG_LEN;
  let off := MESSAGE_HEADER_LEN in
  out ← copy_to out off (off + 12) (pong_tx_id m);
  on_slice out (off + 12) (off + 12 + EP_LENGTH) (ap_encode_to (pong_src m)).
Definition parse_pong (ver : Z) (body : list Z) : run (result DiscoError Message) :=
  if (length body <? PONG_LEN)%nat then Ret (Err Short)
  else
    tx_id ← slice body 0 12;
    ep ← slice body 12 (12 + EP_LENGTH);
    src ← ap_decode_from ep;
    Ret (Ok (MPong {| pong_tx_id := tx_id; pong_src := src |})).

(** The loop that writes endpoints from [off] on. *)
Fixpoint encode_eps (eps : list AddrPort) (out : list Z) (off : nat) : run (list Z) :=
  match eps with
  | [] => Ret out
  | ep :: eps =>
      out ← on_slice out off (off + EP_LENGTH) (ap_encode_to ep);
      encode_eps eps out (off + EP_LENGTH)
  end.
(** The loop that reads endpoints while [off < body.len()]. *)
Fixpoint decode_eps (fuel : nat) (body : list Z) (off : nat) : run (list AddrPort) :=
  match fuel with
  | O => Panic
  | S fuel =>
      if (off <? length body)%nat then
        s ← slice body off (off + EP_LENGTH);
        ep ← ap_decode_from s;
        eps ← decode_eps fuel body (off + EP_LENGTH);
        Ret (ep :: eps)
      else Ret []
  end.

(** [CallMeMaybe::marshal] and [parse_call_me_maybe]. *)
Definition call_me_maybe_marshal (my_number : list AddrPort) : run (list Z) :=
  out ← start TYPE_CALL_ME_MAYBE (EP_LENGTH * length my_number);
  encode_eps my_number out MESSAGE_HEADER_LEN.
Definition parse_call_me_maybe (ver : Z) (body : list Z) : run (result DiscoError Message) :=
  if negb (length body mod EP_LENGTH =? 0)%nat || negb (ver =? 0) || (length body =? 0)%nat
  then Ret (Ok (MCallMeMaybe []))
  else
    eps ← decode_eps (S (length body)) body 0;
    Ret (Ok (MCallMeMaybe eps)).

(** [BindUdpRelayEndpointCommon::encode_to] and [decode_from]. *)
Definition bind_encode_to (m : BindUdpRelayEndpointCommon) (buf : list Z) : run (list Z) :=
  _ ← assert_run (length buf =? BIND_UDP_RELAY_ENDPOINT_COMMON_LEN)%nat;
  buf ← copy_to buf 0 4 (to_be_bytes 4 (b_vni m));
  buf ← copy_to buf 4 8 (to_be_bytes 4 (b_generation m));
  buf ← copy_to buf 8 (8 + KEY_LEN) (remote_key m);
  copy_to buf (8 + KEY_LEN) (length buf) (challenge m).
Definition bind_decode_from (body : list Z) : run (result DiscoError BindUdpRelayEndpointCommon) :=
  if (length body <? BIND_UDP_RELAY_ENDPOINT_COMMON_LEN)%nat then Ret (Err Short)
  else
    vni ← idx_range body 0 4;
    generation ← idx_range body 4 4;
    rk ← slice body 8 (8 + KEY_LEN);
    ch ← slice body (8 + KEY_LEN) (8 + KEY_LEN + BIND_UDP_RELAY_CHALLENGE_LEN);
    Ret (Ok {| b_vni := from_be_bytes vni; b_generation := from_be_bytes generation;
               remote_key := rk; challenge := ch |}).

(** The [marshal] and parser that [bind_relay_msg!] defines for a type byte. *)
Definition bind_marshal (typ : Z) (m : BindUdpRelayEndpointCommon) : run (list Z) :=
  out ← start typ BIND_UDP_RELAY_ENDPOINT_COMMON_LEN;
  on_slice out MESSAGE_HEADER_LEN (length out) (bind_encode_to m).
Definition parse_bind (make : BindUdpRelayEndpointCommon -> Message) (ver : Z) (body : list Z)
  : run (result DiscoError Message) :=
  r ← bind_decode_from body;
  Ret (common ← r; Ok (make common)).

(** [Duration::as_nanos() as u64]. *)
Definition nanos_u64 (d : Z) : Z := d mod 2 ^ 64.

(** [UdpRelayEndpoint::encode_to]. *)
Definition endpoint_encode_to (e : UdpRelayEndpoint) (buf : list Z) : run (list Z) :=
  buf ← copy_to buf 0 KEY_LEN (server_disco e);
  buf ← copy_to buf 32 (32 + KEY_LEN) (client_disco e).1;
  buf ← copy_to buf 64 (64 + KEY_LEN) (client_disco e).2;
  buf ← copy_to buf 96 (96 + 8) (to_be_bytes 8 (lamport_id e));
  buf ← copy_to buf 104 (104 + 4) (to_be_bytes 4 (e_vni e));
  buf ← copy_to buf 108 (108 + 8) (to_be_bytes 8 (nanos_u64 (bind_lifetime e)));
  buf ← copy_to buf 116 (116 + 8) (to_be_bytes 8 (nanos_u64 (steady_state_lifetime e)));
  encode_eps (addr_ports e) buf 124.
(** [UdpRelayEndpoint::total_len]. *)
Definition total_len (e : UdpRelayEndpoint) : nat :=
  UDP_RELAY_ENDPOINT_LEN_MINUS_ADDRPORTS + EP_LENGTH * length (addr_ports e).
(** [UdpRelayEndpoint::decode_from]. *)
Definition endpoint_decode_from (body : list Z) : run (result DiscoError UdpRelayEndpoint) :=
  if (length body <? UDP_RELAY_ENDPOINT_LEN_MINUS_ADDRPORTS + EP_LENGTH)%nat
     || negb ((length body - UDP_RELAY_ENDPOINT_LEN_MINUS_ADDRPORTS) mod EP_LENGTH =? 0)%nat
  then Ret (Err Short)
  else
    sd ← slice body 0 KEY_LEN;
    c0 ← slice body 32 (32 + KEY_LEN);
    c1 ← slice body 64 (64 + KEY_LEN);
    lam ← idx_range body 96 8;
    vni ← idx_range body 104 4;
    bind_ns ← idx_range body 108 8;
    steady_ns ← idx_range body 116 8;
    remaining ← slice_from body 124;
    eps ← decode_eps (S (length remaining)) remaining 0;
    Ret (Ok {| server_disco := sd; client_disco := (c0, c1); lamport_id := from_be_bytes lam;
               e_vni := from_be_bytes vni; bind_lifetime := from_be_bytes bind_ns;
               steady_state_lifetime := from_be_bytes steady_ns; addr_ports := eps |}).

Definition zero_endpoint : UdpRelayEndpoint :=
  {| server_disco := zero_key; client_disco := zero_disco_pair; lamport_id := 0; e_vni := 0;
     bind_lifetime := 0; steady_state_lifetime := 0; addr_ports := [] |}.

(** [CallMeMaybeVia::marshal] and [parse_call_me_maybe_via]. *)
Definition via_marshal (e : UdpRelayEndpoint) : run (list Z) :=
  out ← start TYPE_CALL_ME_MAYBE_VIA (total_len e);
  on_slice out MESSAGE_HEADER_LEN (length out) (endpoint_encode_to e).
Definition parse_call_me_maybe_via (ver : Z) (body : list Z) : run (result DiscoError Message) :=
  if negb (ver =? 0) then Ret (Ok (MCallMeMaybeVia zero_endpoint))
  else r ← endpoint_decode_from body; Ret (e ← r; Ok (MCallMeMaybeVia e)).

(** [AllocateUdpRelayEndpointRequest::marshal] and its parser. *)
Definition request_marshal (cd : list Z * list Z) (generation : Z) : run (list Z) :=
  out ← start TYPE_ALLOCATE_UDP_RELAY_ENDPOINT_REQUEST ALLOCATE_UDP_RELAY_ENDPOINT_REQUEST_LEN;
  out ← copy_to out 2 (2 + KEY_LEN) cd.1;
  out ← copy_to out 34 (34 + KEY_LEN) cd.2;
  copy_to out 66 (66 + 4) (to_be_bytes 4 generation).
Definition parse_allocate_request (ver : Z) (body : list Z) : run (result DiscoError Message) :=
  if negb (ver =? 0) then Ret (Ok (MAllocateRequest zero_disco_pair 0))
  else if (length body <? ALLOCATE_UDP_RELAY_ENDPOINT_REQUEST_LEN)%nat then Ret (Err Short)
  else
    c0 ← slice body 0 KEY_LEN;
    c1 ← slice body 32 (32 + KEY_LEN);
    generation ← idx_range body 64 4;
    Ret (Ok (MAllocateRequest (c0, c1) (from_be_bytes generation))).

(** [AllocateUdpRelayEndpointResponse::marshal] and its parser. *)
Definition response_marshal (generation : Z) (e : UdpRelayEndpoint) : run (list Z) :=
  out ← start TYPE_ALLOCATE_UDP_RELAY_ENDPOINT_RESPONSE (4 + total_len e);
  let off := MESSAGE_HEADER_LEN in
  out ← copy_to out off (off + 4) (to_be_bytes 4 generation);
  on_slice out (off + 4) (length out) (endpoint_encode_to e).
Definition parse_allocate_response (ver : Z) (body : list Z) : run (result DiscoError Message) :=
  if negb (ver =? 0) then Ret (Ok (MAllocateResponse 0 zero_endpoint))
  else if (length body <? 4)%nat then Ret (Err Short)
  else
    generation ← idx_range body 0 4;
    rest ← slice_from body 4;
    r ← endpoint_decode_from rest;
    Ret (e ← r; Ok (MAllocateResponse (from_be_bytes generation) e)).

(** [Message::marshal]. *)
Definition marshal (m : Message) : run (list Z) :=
  match m with
  | MPing m => ping_marshal m
  | MPong m => pong_marshal m
  | MCallMeMaybe l => call_me_maybe_marshal l
  | MBind m => bind_marshal TYPE_BIND_UDP_RELAY_ENDPOINT m
  | MBindChallenge m => bind_marshal TYPE_BIND_UDP_RELAY_ENDPOINT_CHALLENGE m
  | MBindAnswer m => bind_marshal TYPE_BIND_UDP_RELAY_ENDPOINT_ANSWER m
  | MCallMeMaybeVia e => via_marshal e
  | MAllocateRequest cd g => request_marshal cd g
  | MAllocateResponse g e => response_marshal g e
  end.

(** [Message::parse]. *)
Definition parse (payload : list Z) : run (result DiscoError Message) :=
  if (length payload <? MESSAGE_HEADER_LEN)%nat then Ret (Err Short)
  else
    typ ← idx payload 0;
    ver ← idx payload 1;
    body ← slice_from payload 2;
    if typ =? TYPE_PING then parse_ping ver body
    else if typ =? TYPE_PONG then parse_pong ver body
    else if typ =? TYPE_CALL_ME_MAYBE then parse_call_me_maybe ver body
    else if typ =? TYPE_BIND_UDP_RELAY_ENDPOINT then parse_bind MBind ver body
    else if typ =? TYPE_BIND_UDP_RELAY_ENDPOINT_CHALLENGE then parse_bind MBindChallenge ver body
    else if typ =? TYPE_BIND_UDP_RELAY_ENDPOINT_ANSWER then parse_bind MBindAnswer ver body
    else if typ =? TYPE_CALL_ME_MAYBE_VIA then parse_call_me_maybe_via ver body
    else if typ =? TYPE_ALLOCATE_UDP_RELAY_ENDPOINT_REQUEST then parse_allocate_request ver body
    else if typ =? TYPE_ALLOCATE_UDP_RELAY_ENDPOINT_RESPONSE then parse_allocate_response ver body
    else Ret (Err (UnknownType typ)).

(** ** The envelope: [lib.rs] *)

Definition MAGIC : list Z := [0x54; 0x53; 0xf0; 0x9f; 0x92; 0xac].

(** [looks_like_disco_wrapper]. *)
Definition looks_like_disco_wrapper (p : list Z) : bool :=
  (length MAGIC + KEY_LEN + NONCE_LEN <=? length p)%nat && bool_decide (take (length MAGIC) p = MAGIC).

(** [source]. *)
Definition source (p : list Z) : run (option (list Z)) :=
  if negb (looks_like_disco_wrapper p) then Ret None
  else src ← slice p (length MAGIC) (length MAGIC + KEY_LEN); Ret (Some src).

Section envelope.
Context `{BoxCrypto}.

(** [seal_packet]; the nonce is drawn in [DiscoShared::seal]. *)
Definition seal_packet (sender peer nonce payload : list Z) : run (result KeyError (list Z)) :=
  if is_zero sender || is_zero peer then Ret (Err ZeroKey)
  else
    match shared_seal (shared sender peer) nonce payload with
    | Err e => Ret (Err e)
    | Ok sealed =>
        sender_pub ← key_public sender;
        Ret (Ok (MAGIC ++ sender_pub ++ sealed))
    end.

(** [open_packet]. *)
Definition open_packet (receiver packet : list Z) : run (option (list Z * list Z)) :=
  if negb (looks_like_disco_wrapper packet) then Ret None
  else
    s ← source packet;
    match s with
    | None => Ret None
    | Some sender_pub =>
        ct ← slice_from packet (length MAGIC + KEY_LEN);
        Ret (pt ← shared_open (shared receiver sender_pub) ct; Some (sender_pub, pt))
    end.

End envelope.

(** ** The layout of messages *)

Definition ep_bytes (a : AddrPort) : list Z := as16 a ++ to_be_bytes 2 (ap_port a).
Definition eps_bytes (l : list AddrPort) : list Z := concat (map ep_bytes l).
Definition bind_bytes (m : BindUdpRelayEndpointCommon) : list Z :=
  to_be_bytes 4 (b_vni m) ++ to_be_bytes 4 (b_generation m) ++ remote_key m ++ challenge m.
Definition endpoint_bytes (e : UdpRelayEndpoint) : list Z :=
  server_disco e ++ (client_disco e).1 ++ (client_disco e).2 ++ to_be_bytes 8 (lamport_id e) ++
  to_be_bytes 4 (e_vni e) ++ to_be_bytes 8 (nanos_u64 (bind_lifetime e)) ++
  to_be_bytes 8 (nanos_u64 (steady_state_lifetime e)) ++ eps_bytes (addr_ports e).

Definition type_of (m : Message) : Z :=
  match m with
  | MPing _ => TYPE_PING
  | MPong _ => TYPE_PONG
  | MCallMeMaybe _ => TYPE_CALL_ME_MAYBE
  | MBind _ => TYPE_BIND_UDP_RELAY_ENDPOINT
  | MBindChallenge _ => TYPE_BIND_UDP_RELAY_ENDPOINT_CHALLENGE
  | MBindAnswer _ => TYPE_BIND_UDP_RELAY_ENDPOINT_ANSWER
  | MCallMeMaybeVia _ => TYPE_CALL_ME_MAYBE_VIA
  | MAllocateRequest _ _ => TYPE_ALLOCATE_UDP_RELAY_ENDPOINT_REQUEST
  | MAllocateResponse _ _ => TYPE_ALLOCATE_UDP_RELAY_ENDPOINT_RESPONSE
  end.
Definition body_of (m : Message) : list Z :=
  match m with
  | MPing m => ping_tx_id m ++ (if is_zero (node_key m) then [] else node_key m) ++ replicate (padding m) 0
  | MPong m => pong_tx_id m ++ ep_bytes (pong_src m)
  | MCallMeMaybe l => eps_bytes l
  | MBind m | MBindChallenge m | MBindAnswer m => bind_bytes m
  | MCallMeMaybeVia e => endpoint_bytes e
  | MAllocateRequest cd g => cd.1 ++ cd.2 ++ to_be_bytes 4 g
  | MAllocateResponse g e => to_be_bytes 4 g ++ endpoint_bytes e
  end.
Definition wire (m : Message) : list Z := [type_of m; V0] ++ body_of m.

(** ** Well-formed messages: the field types of the code *)

Definition is_bytes (n : nat) (l : list Z) : Prop := wf_bytes l /\ length l = n.
Record ap_ok (a : AddrPort) : Prop := { ao_ip : wf_ip (ap_ip a); ao_port : is_u16 (ap_port a) }.
Record bind_ok (m : BindUdpRelayEndpointCommon) : Prop := {
  bo_vni : is_u32 (b_vni m); bo_gen : is_u32 (b_generation m);
  bo_key : is_bytes 32 (remote_key m); bo_challenge : is_bytes 32 (challenge m) }.
Record endpoint_ok (e : UdpRelayEndpoint) : Prop := {
  eo_server : is_bytes 32 (server_disco e);
  eo_c0 : is_bytes 32 (client_disco e).1;
  eo_c1 : is_bytes 32 (client_disco e).2;
  eo_lamport : is_u64 (lamport_id e);
  eo_vni : is_u32 (e_vni e);
  eo_bind : 0 <= bind_lifetime e;
  eo_steady : 0 <= steady_state_lifetime e;
  eo_eps : Forall ap_ok (addr_ports e) }.
Definition msg_ok (m : Message) : Prop :=
  match m with
  | MPing m => is_bytes 12 (ping_tx_id m) /\ is_bytes 32 (node_key m)
  | MPong m => is_bytes 12 (pong_tx_id m) /\ ap_ok (pong_src m)
  | MCallMeMaybe l => Forall ap_ok l
  | MBind m | MBindChallenge m | MBindAnswer m => bind_ok m
  | MCallMeMaybeVia e => endpoint_ok e
  | MAllocateRequest cd g => is_bytes 32 cd.1 /\ is_bytes 32 cd.2 /\ is_u32 g
  | MAllocateResponse g e => is_u32 g /\ endpoint_ok e
  end.

(** ** Marshalling produces the layout *)

Lemma length_as16 a : wf_ip (ap_ip a) -> length (as16 a) = 16%nat.
Proof. intros [_ Hl]. unfold as16. destruct (ap_ip a); cbn in *; [|done]. by rewrite Hl. Qed.

Lemma length_ep_bytes a : wf_ip (ap_ip a) -> length (ep_bytes a) = EP_LENGTH.
Proof. intros H. unfold ep_bytes. by rewrite length_app, length_as16, length_to_be_bytes. Qed.

Lemma length_eps_bytes l : Forall ap_ok l -> length (eps_bytes l) = (EP_LENGTH * length l)%nat.
Proof.
  induction 1 as [|a l [Ha _] _ IH]; [done|]. unfold eps_bytes in *. cbn [map concat].
  rewrite length_app, length_ep_bytes, IH by done. cbn [length]. lia.
Qed.

(** [fill] performs the next write of a marshaller on a partly filled buffer. *)
Ltac fill_len :=
  cbv [MESSAGE_HEADER_LEN KEY_LEN EP_LENGTH PONG_LEN BIND_UDP_RELAY_ENDPOINT_COMMON_LEN] in *;
  rewrite ?length_filled, ?length_app, ?length_to_be_bytes, ?length_replicate; cbn [length] in *; lia.
Ltac fill := rewrite copy_filled by fill_len; rewrite ?run_bind_Ret.

Lemma ap_encode_spec a : wf_ip (ap_ip a) -> ap_encode_to a (replicate EP_LENGTH 0) = Ret (ep_bytes a).
Proof.
  intros Ha. pose proof (length_as16 a Ha) as Hl. unfold ap_encode_to. rewrite length_replicate, Nat.eqb_refl.
  cbn [assert_run]. rewrite run_bind_Ret, filled_start. fill. fill.
  rewrite length_to_be_bytes, Hl. apply f_equal. unfold ep_bytes. apply filled_full.
Qed.

Lemma encode_eps_spec l : forall w k off,
  Forall ap_ok l -> off = length w -> (EP_LENGTH * length l <= k)%nat ->
  encode_eps l (filled w k) off = Ret (filled (w ++ eps_bytes l) (k - EP_LENGTH * length l)).
Proof.
  induction l as [|a l IH]; intros w k off Hl Hoff Hk; cbn [encode_eps].
  - cbn [length]. by rewrite Nat.mul_0_r, Nat.sub_0_r, app_nil_r.
  - inversion_clear Hl as [|? ? [Ha _]]. cbn [length] in Hk. pose proof (length_ep_bytes a Ha) as Hb.
    rewrite (on_slice_filled _ _ _ _ EP_LENGTH _ (ep_bytes a)); [|done|done|lia|done|by apply ap_encode_spec].
    rewrite run_bind_Ret, IH; [|done|rewrite length_app; lia|lia].
    unfold eps_bytes. cbn [map concat length]. rewrite <- app_assoc. do 2 f_equal. lia.
Qed.

Lemma start_spec typ n : start typ n = Ret (filled [typ; V0] n).
Proof.
  unfold start. rewrite filled_start, (set_filled [] _ 0), run_bind_Ret by (cbn; lia).
  rewrite set_filled by (cbn; lia). by cbn [app Nat.add MESSAGE_HEADER_LEN Nat.sub]; rewrite Nat.sub_0_r.
Qed.

Lemma ping_marshal_spec m : msg_ok (MPing m) -> ping_marshal m = Ret (wire (MPing m)).
Proof.
  intros [[_ Ht] [_ Hk]]. unfold ping_marshal, wire. cbn [body_of type_of]. cbv zeta.
  destruct (is_zero (node_key m)); cbn [negb]; rewrite start_spec, run_bind_Ret; fill.
  - rewrite Ht. unfold filled. rewrite <- app_assoc. do 4 f_equal. cbn [app]. f_equal. lia.
  - fill. rewrite Ht, Hk. unfold filled. rewrite <- !app_assoc. do 6 f_equal. cbv [KEY_LEN]. lia.
Qed.

Lemma pong_marshal_spec m : msg_ok (MPong m) -> pong_marshal m = Ret (wire (MPong m)).
Proof.
  intros [[_ Ht] [Ha _]]. pose proof (length_ep_bytes _ Ha). unfold pong_marshal, wire. cbv zeta.
  rewrite start_spec, run_bind_Ret. fill. rewrite Ht.
  rewrite (on_slice_filled _ _ _ _ EP_LENGTH _ (ep_bytes (pong_src m)));
    [|fill_len|done|cbv; lia|done|by apply ap_encode_spec].
  cbn [body_of type_of]. change (PONG_LEN - 12 - EP_LENGTH)%nat with 0%nat. by rewrite filled_full, <- app_assoc.
Qed.

Lemma call_me_maybe_marshal_spec l : msg_ok (MCallMeMaybe l) -> call_me_maybe_marshal l = Ret (wire (MCallMeMaybe l)).
Proof.
  intros Hl. unfold call_me_maybe_marshal. rewrite start_spec, run_bind_Ret, encode_eps_spec by done.
  by rewrite Nat.sub_diag, filled_full.
Qed.

Lemma bind_encode_spec m :
  bind_ok m -> bind_encode_to m (replicate BIND_UDP_RELAY_ENDPOINT_COMMON_LEN 0) = Ret (bind_bytes m).
Proof.
  intros [_ _ [_ Hk] [_ Hc]]. unfold bind_encode_to. rewrite length_replicate, Nat.eqb_refl. cbn [assert_run].
  rewrite run_bind_Ret, filled_start. fill. fill. fill. fill. rewrite !length_to_be_bytes, Hk, Hc.
  change (_ - 4 - 4 - 32 - 32)%nat with 0%nat. unfold bind_bytes. by rewrite filled_full, <- !app_assoc.
Qed.

Lemma bind_marshal_spec typ m :
  bind_ok m -> bind_marshal typ m = Ret ([typ; V0] ++ bind_bytes m).
Proof.
  intros Hm. unfold bind_marshal. rewrite start_spec, run_bind_Ret.
  assert (length (bind_bytes m) = BIND_UDP_RELAY_ENDPOINT_COMMON_LEN) as Hl.
  { destruct Hm as [_ _ [_ Hk] [_ Hc]]. unfold bind_bytes. fill_len. }
  rewrite (on_slice_filled _ _ _ _ BIND_UDP_RELAY_ENDPOINT_COMMON_LEN _ (bind_bytes m));
    [|done|fill_len|done|done|by apply bind_encode_spec].
  by rewrite Nat.sub_diag, filled_full.
Qed.

Lemma length_endpoint_bytes e : endpoint_ok e -> length (endpoint_bytes e) = total_len e.
Proof.
  intros [[_ H1] [_ H2] [_ H3] _ _ _ _ H4]. unfold endpoint_bytes, total_len.
  rewrite !length_app, !length_to_be_bytes, H1, H2, H3, length_eps_bytes by done. cbv [UDP_RELAY_ENDPOINT_LEN_MINUS_ADDRPORTS]. lia.
Qed.

Lemma endpoint_encode_spec e :
  endpoint_ok e -> endpoint_encode_to e (replicate (total_len e) 0) = Ret (endpoint_bytes e).
Proof.
  intros [[_ H1] [_ H2] [_ H3] _ _ _ _ H4]. unfold endpoint_encode_to, total_len, UDP_RELAY_ENDPOINT_LEN_MINUS_ADDRPORTS.
  rewrite filled_start. do 7 fill. rewrite encode_eps_spec; [|done|fill_len|].
  - rewrite !length_to_be_bytes, H1, H2, H3. unfold endpoint_bytes. rewrite <- !app_assoc.
    match goal with |- Ret (filled _ ?k) = _ => replace k with 0%nat by lia end. by rewrite filled_full.
  - rewrite !length_to_be_bytes, H1, H2, H3. lia.
Qed.

Lemma via_marshal_spec e : endpoint_ok e -> via_marshal e = Ret (wire (MCallMeMaybeVia e)).
Proof.
  intros He. unfold via_marshal. rewrite start_spec, run_bind_Ret.
  rewrite (on_slice_filled _ _ _ _ (total_len e) _ (endpoint_bytes e));
    [|done|fill_len|done|by apply length_endpoint_bytes|by apply endpoint_encode_spec].
  by rewrite Nat.sub_diag, filled_full.
Qed.

Lemma request_marshal_spec cd g : msg_ok (MAllocateRequest cd g) -> request_marshal cd g = Ret (wire (MAllocateRequest cd g)).
Proof.
  intros ([_ H1] & [_ H2] & _). unfold request_marshal. rewrite start_spec, run_bind_Ret.
  unfold ALLOCATE_UDP_RELAY_ENDPOINT_REQUEST_LEN. do 3 fill. rewrite length_to_be_bytes, H1, H2.
  change (68 - 32 - 32 - 4)%nat with 0%nat. by rewrite filled_full, <- !app_assoc.
Qed.

Lemma response_marshal_spec g e : endpoint_ok e -> response_marshal g e = Ret (wire (MAllocateResponse g e)).
Proof.
  intros He. unfold response_marshal. cbv zeta. rewrite start_spec, run_bind_Ret. fill.
  rewrite length_to_be_bytes. replace (4 + total_len e - 4)%nat with (total_len e) by lia.
  rewrite (on_slice_filled _ _ _ _ (total_len e) _ (endpoint_bytes e));
    [|fill_len|fill_len|done|by apply length_endpoint_bytes|by apply endpoint_encode_spec].
  by rewrite Nat.sub_diag, filled_full, <- app_assoc.
Qed.

Lemma marshal_wire m : msg_ok m -> marshal m = Ret (wire m).
Proof.
  destruct m; cbn [marshal]; intros Hm.
  - by apply ping_marshal_spec.
  - by apply pong_marshal_spec.
  - by apply call_me_maybe_marshal_spec.
  - by apply bind_marshal_spec.
  - by apply bind_marshal_spec.
  - by apply bind_marshal_spec.
  - by apply via_marshal_spec.
  - by apply request_marshal_spec.
  - destruct Hm. by apply response_marshal_spec.
Qed.

(** ** Parsing the layout *)

(** The address a peer reads: an IPv4-mapped IPv6 address is the IPv4 one. *)
Definition unmapped (a : IpAddr) : IpAddr :=
  match a with
  | V4 o => V4 o
  | V6 o => if decide (take 12 o = replicate 10 0 ++ [255; 255]) then V4 (drop 12 o) else V6 o
  end.
Definition unmapped_ap (a : AddrPort) : AddrPort := {| ap_ip := unmapped (ap_ip a); ap_port := ap_port a |}.
Definition received_endpoint (e : UdpRelayEndpoint) : UdpRelayEndpoint :=
  {| server_disco := server_disco e; client_disco := client_disco e; lamport_id := lamport_id e;
     e_vni := e_vni e; bind_lifetime := bind_lifetime e mod 2 ^ 64;
     steady_state_lifetime := steady_state_lifetime e mod 2 ^ 64;
     addr_ports := map unmapped_ap (addr_ports e) |}.

(** What the receiver of [m] sees: mapped addresses are unmapped, lifetimes lose
    the bits above 64, 32 bytes of padding after no key are the absent key, and an
    endpoint without addresses is refused. *)
Definition received (m : Message) : result DiscoError Message :=
  match m with
  | MPing p =>
      Ok (MPing (if is_zero (node_key p) && (32 <=? padding p)%nat
                 then {| ping_tx_id := ping_tx_id p; node_key := node_key p; padding := padding p - 32 |}
                 else p))
  | MPong p => Ok (MPong {| pong_tx_id := pong_tx_id p; pong_src := unmapped_ap (pong_src p) |})
  | MCallMeMaybe l => Ok (MCallMeMaybe (map unmapped_ap l))
  | MBind _ | MBindChallenge _ | MBindAnswer _ | MAllocateRequest _ _ => Ok m
  | MCallMeMaybeVia e =>
      if (length (addr_ports e) =? 0)%nat then Err Short else Ok (MCallMeMaybeVia (received_endpoint e))
  | MAllocateResponse g e =>
      if (length (addr_ports e) =? 0)%nat then Err Short else Ok (MAllocateResponse g (received_endpoint e))
  end.

Lemma map_from_as16 a : map_from_16 (as16 a) = unmapped (ap_ip a).
Proof. unfold as16, map_from_16, unmapped. destruct (ap_ip a) as [o|o]; [done|]. unfold to_ipv4_mapped. by case_decide. Qed.

Lemma from_be_u16 z : is_u16 z -> from_be_bytes (to_be_bytes 2 z) = z.
Proof. intros H. by apply from_to_be_bytes_small. Qed.
Lemma from_be_u32 z : is_u32 z -> from_be_bytes (to_be_bytes 4 z) = z.
Proof. intros H. by apply from_to_be_bytes_small. Qed.
Lemma from_be_u64 z : is_u64 z -> from_be_bytes (to_be_bytes 8 z) = z.
Proof. intros H. by apply from_to_be_bytes_small. Qed.

(** [field_at] evaluates a read of a concatenation whose parts have known lengths. *)
Ltac part_len := first [eassumption | apply length_to_be_bytes].
Ltac field_at :=
  repeat (erewrite field_skip; [|part_len|lia]; cbn [Nat.sub]);
  first [rewrite field_here by part_len | rewrite field_end by part_len].

Lemma ap_decode_spec a : ap_ok a -> ap_decode_from (ep_bytes a) = Ret (unmapped_ap a).
Proof.
  intros [Ha Hp]. pose proof (length_as16 a Ha) as Hl. pose proof (length_ep_bytes a Ha) as Hb.
  unfold ap_decode_from. rewrite Hb, Nat.eqb_refl. cbn [assert_run]. rewrite run_bind_Ret.
  rewrite slice_field, run_bind_Ret by (rewrite Hb; cbv; lia).
  rewrite idx_range_field, run_bind_Ret by (rewrite Hb; cbv; lia). unfold ep_bytes. cbn [Nat.sub]. field_at. field_at.
  unfold from16, unmapped_ap. by rewrite map_from_as16, from_be_u16.
Qed.

Lemma decode_eps_spec l : forall fuel pre,
  Forall ap_ok l -> (length l < fuel)%nat ->
  decode_eps fuel (pre ++ eps_bytes l) (length pre) = Ret (map unmapped_ap l).
Proof.
  induction l as [|a l IH]; intros fuel pre Hl Hf; (destruct fuel as [|fuel]; [lia|]); cbn [decode_eps].
  - unfold eps_bytes. cbn [map concat]. by rewrite app_nil_r, Nat.ltb_irrefl.
  - inversion_clear Hl as [|? ? Ha Hl']. cbn [length] in Hf. pose proof (length_ep_bytes a (ao_ip _ Ha)) as Hb.
    unfold eps_bytes. cbn [map concat]. fold (eps_bytes l).
    rewrite (proj2 (Nat.ltb_lt _ _)) by (rewrite !length_app, Hb; cbv [EP_LENGTH]; lia).
    rewrite slice_field, run_bind_Ret by (rewrite !length_app, Hb; lia).
    rewrite (field_skip _ _ _ _ (length pre)) by done. replace (length pre + EP_LENGTH - length pre)%nat with EP_LENGTH by lia.
    rewrite Nat.sub_diag, field_here by done. rewrite ap_decode_spec, run_bind_Ret by done.
    specialize (IH fuel (pre ++ ep_bytes a) Hl' ltac:(lia)). rewrite length_app, Hb, <- app_assoc in IH.
    by rewrite IH, run_bind_Ret.
Qed.

Lemma parse_ping_spec p :
  msg_ok (MPing p) -> parse_ping V0 (body_of (MPing p)) = Ret (received (MPing p)).
Proof.
  destruct p as [tx key pad]. cbn [msg_ok body_of received ping_tx_id node_key padding].
  intros [[_ Ht] [_ Hk]]. unfold parse_ping.
  set (rest := (if is_zero key then [] else key) ++ replicate pad 0).
  rewrite (proj2 (Nat.ltb_ge _ _)) by (rewrite length_app, Ht; lia).
  rewrite slice_field, run_bind_Ret by (rewrite length_app, Ht; lia). cbn [Nat.sub]. field_at.
  rewrite slice_from_ok, run_bind_Ret by (rewrite length_app, Ht; lia).
  rewrite drop_app_ge, Ht by lia. cbn [Nat.sub]. rewrite drop_0. subst rest.
  destruct (is_zero key) eqn:Hz; cbn [app andb].
  - apply is_zero_repeat in Hz. rewrite Hk in Hz. subst key. rewrite length_replicate.
    change KEY_LEN with 32%nat. destruct (32 <=? pad)%nat eqn:E; [|done].
    apply Nat.leb_le in E. rewrite slice_field, run_bind_Ret by (rewrite length_replicate; lia).
    unfold field. by rewrite drop_0, take_replicate, Nat.sub_0_r, Nat.min_l.
  - change KEY_LEN with 32%nat. rewrite length_app, Hk, length_replicate.
    rewrite (proj2 (Nat.leb_le _ _)) by lia.
    rewrite slice_field, run_bind_Ret by (rewrite length_app, Hk; lia). cbn [Nat.sub]. field_at.
    do 4 f_equal. lia.
Qed.

Lemma parse_pong_spec p :
  msg_ok (MPong p) -> parse_pong V0 (body_of (MPong p)) = Ret (received (MPong p)).
Proof.
  intros [[_ Ht] Ha]. pose proof (length_ep_bytes _ (ao_ip _ Ha)) as Hb. cbn [body_of]. unfold parse_pong.
  assert (length (pong_tx_id p ++ ep_bytes (pong_src p)) = PONG_LEN) as Hl by (by rewrite length_app, Ht, Hb).
  rewrite Hl, Nat.ltb_irrefl. rewrite !slice_field, !run_bind_Ret by (rewrite Hl; cbv; lia). cbn [Nat.sub]. field_at.
  change (12 + EP_LENGTH - 12)%nat with EP_LENGTH. field_at. by rewrite ap_decode_spec.
Qed.

Lemma parse_call_me_maybe_spec l :
  Forall ap_ok l -> parse_call_me_maybe V0 (eps_bytes l) = Ret (received (MCallMeMaybe l)).
Proof.
  intros Hl. unfold parse_call_me_maybe. rewrite length_eps_bytes, (Nat.mul_comm EP_LENGTH), Nat.Div0.mod_mul by done.
  change (V0 =? 0) with true. cbn [negb Nat.eqb orb]. destruct l as [|a l]; [done|].
  rewrite (proj2 (Nat.eqb_neq _ _)) by (cbv [EP_LENGTH length]; lia).
  rewrite (decode_eps_spec (a :: l) _ []); [done|done|]. cbv [EP_LENGTH]. lia.
Qed.

Lemma bind_decode_spec m : bind_ok m -> bind_decode_from (bind_bytes m) = Ret (Ok m).
Proof.
  intros [Hv Hg [_ Hk] [_ Hc]]. unfold bind_decode_from.
  assert (length (bind_bytes m) = 72%nat) as Hl by (unfold bind_bytes; fill_len). rewrite Hl, Nat.ltb_irrefl.
  rewrite !idx_range_field, !slice_field, !run_bind_Ret by (rewrite Hl; cbv; lia). unfold bind_bytes.
  change (8 + KEY_LEN - 8)%nat with 32%nat. change (8 + KEY_LEN)%nat with 40%nat.
  change (40 + _ - 40)%nat with 32%nat. do 4 field_at.
  rewrite !from_be_u32 by done. by destruct m.
Qed.

Lemma from_nanos d : from_be_bytes (to_be_bytes 8 (nanos_u64 d)) = d mod 2 ^ 64.
Proof. apply from_be_u64. unfold is_u64, nanos_u64. apply Z.mod_pos_bound. lia. Qed.

Lemma endpoint_decode_spec e :
  endpoint_ok e ->
  endpoint_decode_from (endpoint_bytes e) =
  Ret (if (length (addr_ports e) =? 0)%nat then Err Short else Ok (received_endpoint e)).
Proof.
  intros He. pose proof (length_endpoint_bytes e He) as Hl.
  destruct He as [[_ H1] [_ H2] [_ H3] Hla Hv _ _ H4]. unfold endpoint_decode_from. rewrite Hl.
  unfold total_len, UDP_RELAY_ENDPOINT_LEN_MINUS_ADDRPORTS in *.
  replace (124 + EP_LENGTH * length (addr_ports e) - 124)%nat with (length (addr_ports e) * EP_LENGTH)%nat by lia.
  rewrite Nat.Div0.mod_mul. cbn [Nat.eqb negb]. rewrite orb_false_r.
  destruct (Nat.eqb_spec (length (addr_ports e)) 0) as [E0|E0].
  { rewrite E0. done. }
  rewrite (proj2 (Nat.ltb_ge _ _)) by (cbv [EP_LENGTH]; lia).
  rewrite !idx_range_field, !slice_field, !run_bind_Ret by (rewrite Hl; cbv [KEY_LEN]; lia).
  rewrite slice_from_ok, run_bind_Ret by (rewrite Hl; lia).
  assert (drop 124 (endpoint_bytes e) = eps_bytes (addr_ports e)) as Hd.
  { unfold endpoint_bytes. rewrite !app_assoc. apply drop_app_length'. rewrite !length_app, !length_to_be_bytes. lia. }
  rewrite Hd, (decode_eps_spec (addr_ports e) _ []), run_bind_Ret; [|done|].
  - unfold endpoint_bytes. change (32 + KEY_LEN - 32)%nat with 32%nat. change (64 + KEY_LEN - 64)%nat with 32%nat.
    change (KEY_LEN - 0)%nat with 32%nat. do 7 field_at.
    rewrite from_be_u32, from_be_u64, !from_nanos by done. unfold received_endpoint. by destruct (client_disco e).
  - rewrite length_eps_bytes by done. cbv [EP_LENGTH]. lia.
Qed.

Lemma parse_request_spec cd g :
  msg_ok (MAllocateRequest cd g) -> parse_allocate_request V0 (body_of (MAllocateRequest cd g)) = Ret (Ok (MAllocateRequest cd g)).
Proof.
  intros ([_ H1] & [_ H2] & Hg). cbn [body_of]. unfold parse_allocate_request. change (V0 =? 0) with true. cbn [negb].
  assert (length (cd.1 ++ cd.2 ++ to_be_bytes 4 g) = 68%nat) as Hl by fill_len. rewrite Hl, Nat.ltb_irrefl.
  rewrite !idx_range_field, !slice_field, !run_bind_Ret by (rewrite Hl; cbv [KEY_LEN]; lia).
  change (32 + KEY_LEN - 32)%nat with 32%nat. change (KEY_LEN - 0)%nat with 32%nat. do 3 field_at.
  rewrite from_be_u32 by done. by destruct cd.
Qed.

Lemma parse_bind_spec make m : bind_ok m -> parse_bind make V0 (bind_bytes m) = Ret (Ok (make m)).
Proof. intros Hm. unfold parse_bind. by rewrite bind_decode_spec. Qed.

Lemma parse_via_spec e :
  endpoint_ok e -> parse_call_me_maybe_via V0 (endpoint_bytes e) = Ret (received (MCallMeMaybeVia e)).
Proof.
  intros He. unfold parse_call_me_maybe_via. change (V0 =? 0) with true. cbn [negb received].
  rewrite endpoint_decode_spec by done. by destruct (_ =? 0)%nat.
Qed.

Lemma parse_response_spec g e :
  is_u32 g -> endpoint_ok e ->
  parse_allocate_response V0 (to_be_bytes 4 g ++ endpoint_bytes e) = Ret (received (MAllocateResponse g e)).
Proof.
  intros Hg He. unfold parse_allocate_response. change (V0 =? 0) with true. cbn [negb received].
  rewrite (proj2 (Nat.ltb_ge _ _)) by (rewrite length_app, length_to_be_bytes; lia).
  rewrite idx_range_field, run_bind_Ret by (rewrite length_app, length_to_be_bytes; lia). field_at.
  rewrite slice_from_ok, run_bind_Ret by (rewrite length_app, length_to_be_bytes; lia).
  rewrite drop_app_length' by (by rewrite length_to_be_bytes). rewrite endpoint_decode_spec, run_bind_Ret by done.
  rewrite from_be_u32 by done. by destruct (_ =? 0)%nat.
Qed.

Lemma parse_wire m : msg_ok m -> parse (wire m) = Ret (received m).
Proof.
  intros Hm. unfold parse, wire. rewrite (proj2 (Nat.ltb_ge _ _)) by (unfold MESSAGE_HEADER_LEN; cbn; lia).
  rewrite (idx_lookup _ 0 (type_of m)), (idx_lookup _ 1 V0), !run_bind_Ret by done.
  rewrite slice_from_ok, run_bind_Ret by (cbn; lia). cbn [app drop].
  destruct m as [m|m|l|m|m|m|e|cd g|g e]; cbn [type_of].
  - by apply parse_ping_spec.
  - by apply parse_pong_spec.
  - by apply parse_call_me_maybe_spec.
  - by apply (parse_bind_spec MBind).
  - by apply (parse_bind_spec MBindChallenge).
  - by apply (parse_bind_spec MBindAnswer).
  - by apply parse_via_spec.
  - by apply parse_request_spec.
  - destruct Hm. by apply parse_response_spec.
Qed.

(** ** Parsing arbitrary bytes *)

(** The result of a parser: it returns, a message it returns is well formed, and
    it fails only for a short body. *)
Definition parses_ok {A} (ok : A -> Prop) (m : run (result DiscoError A)) : Prop :=
  exists r, m = Ret r /\ match r with Ok a => ok a | Err e => e = Short end.

Lemma field_bytes b i n : wf_bytes b -> (i + n <= length b)%nat -> is_bytes n (field b i n).
Proof. intros Hw Hl. split; [by apply Forall_take, Forall_drop|by apply length_field]. Qed.

Lemma field_int b i n : wf_bytes b -> (i + n <= length b)%nat -> 0 <= from_be_bytes (field b i n) < 256 ^ Z.of_nat n.
Proof.
  intros Hw Hl. destruct (field_bytes b i n Hw Hl) as [H1 H2]. apply from_be_bytes_bound in H1. by rewrite H2 in H1.
Qed.

Lemma zero_key_bytes : is_bytes 32 zero_key.
Proof. split; [by apply wf_bytes_replicate0|done]. Qed.

Lemma zero_endpoint_ok : endpoint_ok zero_endpoint.
Proof. split; try apply zero_key_bytes; try done; constructor. Qed.

(** [read_field] performs the next read of a body of known length. *)
Ltac read_len := cbv [KEY_LEN EP_LENGTH BIND_UDP_RELAY_CHALLENGE_LEN] in *; lia.
Ltac read_field :=
  first [rewrite slice_field by read_len | rewrite idx_range_field by read_len
        | rewrite slice_from_ok by read_len]; rewrite ?run_bind_Ret.

Lemma map_from_16_wf b : is_bytes 16 b -> wf_ip (map_from_16 b).
Proof.
  intros [Hw Hl]. unfold map_from_16, to_ipv4_mapped. case_decide; [|done]. split; [by apply Forall_drop|].
  cbn. by rewrite length_drop, Hl.
Qed.

Lemma ap_decode_ok b : is_bytes EP_LENGTH b -> exists a, ap_decode_from b = Ret a /\ ap_ok a.
Proof.
  intros [Hw Hl]. unfold ap_decode_from. rewrite Hl, Nat.eqb_refl. cbn [assert_run]. rewrite run_bind_Ret.
  do 2 read_field. eexists. split; [done|]. split; cbn [ap_ip ap_port from16].
  - apply map_from_16_wf, field_bytes; [done|read_len].
  - apply field_int; [done|read_len].
Qed.

Lemma decode_eps_ok n : forall fuel body off,
  wf_bytes body -> length body = (off + EP_LENGTH * n)%nat -> (n < fuel)%nat ->
  exists l, decode_eps fuel body off = Ret l /\ Forall ap_ok l /\ length l = n.
Proof.
  induction n as [|n IH]; intros [|fuel] body off Hw Hl Hf; try lia; cbn [decode_eps].
  - rewrite (proj2 (Nat.ltb_ge _ _)) by lia. exists []. by split_and!.
  - rewrite (proj2 (Nat.ltb_lt _ _)) by (cbv [EP_LENGTH] in *; lia).
    rewrite slice_field, run_bind_Ret by lia. replace (off + EP_LENGTH - off)%nat with EP_LENGTH by lia.
    destruct (ap_decode_ok (field body off EP_LENGTH)) as (a & -> & Ha); [apply field_bytes; [done|lia]|].
    rewrite run_bind_Ret. destruct (IH fuel body (off + EP_LENGTH)%nat) as (l & -> & Hok & Hn); [done|lia|lia|].
    rewrite run_bind_Ret. exists (a :: l). split_and!; [done|by constructor|cbn; lia].
Qed.

Lemma mod_count len : (len mod EP_LENGTH = 0)%nat -> len = (EP_LENGTH * (len / EP_LENGTH))%nat.
Proof. intros H. pose proof (Nat.div_mod_eq len EP_LENGTH). lia. Qed.

Lemma parse_ping_ok v b : wf_bytes b -> parses_ok msg_ok (parse_ping v b).
Proof.
  intros Hw. unfold parse_ping. destruct (Nat.ltb_spec (length b) 12); [by eexists|]. do 2 read_field.
  assert (wf_bytes (drop 12 b)) as Hd by (by apply Forall_drop). assert (is_bytes 12 (field b 0 12)) by (by apply field_bytes).
  destruct (Nat.leb_spec KEY_LEN (length (drop 12 b))).
  - read_field. eexists. split; [done|]. split; [done|]. apply field_bytes; [done|read_len].
  - eexists. split; [done|]. split; [done|]. apply zero_key_bytes.
Qed.

Lemma parse_pong_ok v b : wf_bytes b -> parses_ok msg_ok (parse_pong v b).
Proof.
  intros Hw. unfold parse_pong. destruct (Nat.ltb_spec (length b) PONG_LEN) as [|Hl]; [by eexists|].
  unfold PONG_LEN in Hl. do 2 read_field.
  destruct (ap_decode_ok (field b 12 (12 + EP_LENGTH - 12))) as (a & -> & Ha); [apply field_bytes; [done|read_len]|].
  eexists. split; [done|]. split; [|done]. apply field_bytes; [done|lia].
Qed.

Lemma parse_call_me_maybe_ok v b : wf_bytes b -> parses_ok msg_ok (parse_call_me_maybe v b).
Proof.
  intros Hw. unfold parse_call_me_maybe. destruct (Nat.eqb_spec (length b mod EP_LENGTH) 0) as [E|E]; cbn [negb orb];
    [|eexists; split; [done|constructor]].
  destruct (_ || _); [eexists; split; [done|constructor]|]. apply mod_count in E.
  destruct (decode_eps_ok (length b / EP_LENGTH) (S (length b)) b 0 Hw E) as (l & -> & Hl & _).
  - cbv [EP_LENGTH] in *. lia.
  - by eexists.
Qed.

Lemma bind_decode_ok b : wf_bytes b -> parses_ok bind_ok (bind_decode_from b).
Proof.
  intros Hw. unfold bind_decode_from. destruct (Nat.ltb_spec (length b) BIND_UDP_RELAY_ENDPOINT_COMMON_LEN) as [|Hl]; [by eexists|].
  unfold BIND_UDP_RELAY_ENDPOINT_COMMON_LEN in Hl. do 4 read_field. eexists. split; [done|].
  split; cbn [b_vni b_generation remote_key challenge];
    first [apply field_int; [done|lia] | apply field_bytes; [done|read_len]].
Qed.

Lemma parse_bind_ok make v b :
  wf_bytes b -> (forall m, bind_ok m -> msg_ok (make m)) -> parses_ok msg_ok (parse_bind make v b).
Proof.
  intros Hw Hm. unfold parse_bind. destruct (bind_decode_ok b Hw) as (r & -> & Hr). rewrite run_bind_Ret.
  eexists. split; [done|]. destruct r; cbn; auto.
Qed.

Lemma endpoint_decode_ok b : wf_bytes b -> parses_ok endpoint_ok (endpoint_decode_from b).
Proof.
  intros Hw. unfold endpoint_decode_from. cbv [UDP_RELAY_ENDPOINT_LEN_MINUS_ADDRPORTS].
  destruct (Nat.ltb_spec (length b) (124 + EP_LENGTH)) as [|Hl]; cbn [orb]; [by eexists|].
  destruct (Nat.eqb_spec ((length b - 124) mod EP_LENGTH) 0) as [E|E]; cbn [negb]; [|by eexists].
  apply mod_count in E. do 8 read_field.
  destruct (decode_eps_ok ((length b - 124) / EP_LENGTH) (S (length (drop 124 b))) (drop 124 b) 0)
    as (l & -> & Hok & _); [by apply Forall_drop|rewrite length_drop; lia|
    rewrite length_drop; cbv [EP_LENGTH] in *; lia|].
  eexists. split; [done|].
  split; cbn [server_disco client_disco fst snd lamport_id e_vni bind_lifetime steady_state_lifetime addr_ports];
    first [done | apply field_bytes; [done|read_len] | apply field_int; [done|read_len]].
Qed.

Lemma parse_via_ok v b : wf_bytes b -> parses_ok msg_ok (parse_call_me_maybe_via v b).
Proof.
  intros Hw. unfold parse_call_me_maybe_via. destruct (negb _); [eexists; split; [done|apply zero_endpoint_ok]|].
  destruct (endpoint_decode_ok b Hw) as (r & -> & Hr). eexists. split; [done|]. by destruct r.
Qed.

Lemma parse_request_ok v b : wf_bytes b -> parses_ok msg_ok (parse_allocate_request v b).
Proof.
  intros Hw. unfold parse_allocate_request.
  destruct (negb _); [eexists; split; [done|split_and!; [apply zero_key_bytes..|done]]|].
  destruct (Nat.ltb_spec (length b) ALLOCATE_UDP_RELAY_ENDPOINT_REQUEST_LEN) as [|Hl]; [by eexists|].
  unfold ALLOCATE_UDP_RELAY_ENDPOINT_REQUEST_LEN in Hl. do 3 read_field. eexists. split; [done|].
  cbn [msg_ok fst snd]. split_and!; first [apply field_bytes; [done|read_len] | apply field_int; [done|read_len]].
Qed.

Lemma parse_response_ok v b : wf_bytes b -> parses_ok msg_ok (parse_allocate_response v b).
Proof.
  intros Hw. unfold parse_allocate_response.
  destruct (negb _); [eexists; split; [done|split; [done|apply zero_endpoint_ok]]|].
  destruct (Nat.ltb_spec (length b) 4) as [|Hl]; [by eexists|]. do 2 read_field.
  destruct (endpoint_decode_ok (drop 4 b)) as (r & -> & Hr); [by apply Forall_drop|].
  eexists. split; [done|]. destruct r; [|done]. split; [|done]. apply field_int; [done|lia].
Qed.

Lemma parse_any payload :
  wf_bytes payload ->
  exists r, parse payload = Ret r /\
    match r with
    | Ok m => msg_ok m
    | Err Short => True
    | Err (UnknownType t) => byte_at payload 0 = t /\ (t < 1 \/ 9 < t)
    end.
Proof.
  intros Hw. unfold parse. destruct (Nat.ltb_spec (length payload) MESSAGE_HEADER_LEN) as [|Hl]; [by eexists|].
  unfold MESSAGE_HEADER_LEN in Hl. rewrite !idx_byte_at, !run_bind_Ret by lia. read_field.
  set (b := drop 2 payload). assert (wf_bytes b) as Hb by (by apply Forall_drop).
  set (t := byte_at payload 0). set (v := byte_at payload 1).
  assert (forall m, parses_ok msg_ok m ->
    exists r, m = Ret r /\ match r with Ok m => msg_ok m | Err Short => True
      | Err (UnknownType u) => t = u /\ (u < 1 \/ 9 < u) end) as Hpick.
  { intros m (r & -> & Hr). exists r. split; [done|]. destruct r; [done|by subst]. }
  repeat match goal with |- context [if t =? ?c then _ else _] => destruct (Z.eqb_spec t c); [apply Hpick|] end.
  - by apply parse_ping_ok.
  - by apply parse_pong_ok.
  - by apply parse_call_me_maybe_ok.
  - by apply parse_bind_ok.
  - by apply parse_bind_ok.
  - by apply parse_bind_ok.
  - by apply parse_via_ok.
  - by apply parse_request_ok.
  - by apply parse_response_ok.
  - eexists. split; [done|]. split; [done|].
    assert (is_u8 t) as Ht by (by apply byte_at_u8). unfold is_u8 in Ht.
    unfold TYPE_PING, TYPE_PONG, TYPE_CALL_ME_MAYBE, TYPE_BIND_UDP_RELAY_ENDPOINT,
      TYPE_BIND_UDP_RELAY_ENDPOINT_CHALLENGE, TYPE_BIND_UDP_RELAY_ENDPOINT_ANSWER, TYPE_CALL_ME_MAYBE_VIA,
      TYPE_ALLOCATE_UDP_RELAY_ENDPOINT_REQUEST, TYPE_ALLOCATE_UDP_RELAY_ENDPOINT_RESPONSE in *. lia.
Qed.

Lemma bind_wire_wf typ m : is_u8 typ -> bind_ok m -> wf_bytes ([typ; V0] ++ bind_bytes m).
Proof.
  intros Ht [_ _ [Hk _] [Hc _]]. repeat (constructor; [done|]). unfold bind_bytes.
  repeat (apply wf_bytes_app; split); auto using wf_to_be_bytes.
Qed.

(** ** Properties *)

(** C32. Disco messages survive the wire: marshalling any message never panics,
    produces exactly its layout, and parsing those bytes gives the message the
    sender meant, up to [received]: IPv4-mapped addresses come back as IPv4,
    lifetimes modulo 2^64 nanoseconds, 32 bytes of padding of a ping without a
    key are taken for the key, and a relay endpoint without addresses is
    rejected. *)
Theorem disco_roundtrip (m : Message) :
  msg_ok m -> exists b, marshal m = Ret b /\ b = wire m /\ parse b = Ret (received m).
Proof. intros Hm. exists (wire m). rewrite marshal_wire, parse_wire by done. done. Qed.

Lemma disco_roundtrip_witness :
  let m := MPong {| pong_tx_id := replicate 12 7; pong_src := {| ap_ip := V4 [1; 2; 3; 4]; ap_port := 567 |} |} in
  exists b, marshal m = Ret b /\ parse b = Ret (Ok m).
Proof.
  intros m. destruct (disco_roundtrip m) as (b & Hb & _ & Hp).
  - split; [|split]; apply (bool_decide_unpack _); vm_compute; exact I.
  - exists b. split; [exact Hb|exact Hp].
Defined.

(** Parsing is total: any received bytes are parsed without a panic, to a
    message whose every field is in range, to an error for a short body, or to
    an error naming the unknown type byte. *)
Theorem disco_parse_total (payload : list Z) :
  wf_bytes payload ->
  exists r, parse payload = Ret r /\
    match r with
    | Ok m => msg_ok m
    | Err Short => True
    | Err (UnknownType t) => byte_at payload 0 = t /\ (t < 1 \/ 9 < t)
    end.
Proof. apply parse_any. Qed.

Lemma disco_parse_total_witness :
  wf_bytes [2; 0; 1; 2; 3] /\ parse [2; 0; 1; 2; 3] = Ret (Err Short).
Proof.
  assert (wf_bytes [2; 0; 1; 2; 3]) as Hw by (apply (bool_decide_unpack _); vm_compute; exact I).
  split; [exact Hw|]. destruct (disco_parse_total _ Hw) as (r & Hr & _). rewrite Hr. exact (eq_sym Hr).
Defined.

Lemma looks_like_sealed pub nonce ct :
  length pub = KEY_LEN -> length nonce = NONCE_LEN -> looks_like_disco_wrapper (MAGIC ++ pub ++ nonce ++ ct) = true.
Proof.
  intros Hp Hn. unfold looks_like_disco_wrapper. apply andb_true_iff. split; [|by apply bool_decide_eq_true].
  apply Nat.leb_le. rewrite !length_app. lia.
Qed.

Lemma seal_packet_inv `{BoxLaws} sender receiver nonce payload packet :
  length nonce = NONCE_LEN -> wf_bytes payload ->
  is_zero receiver = false -> is_zero (derive_public sender) = false ->
  seal_packet sender (derive_public receiver) nonce payload = Ret (Ok packet) ->
  is_zero sender = false /\ looks_like_disco_wrapper packet = true /\
  source packet = Ret (Some (derive_public sender)) /\
  (length MAGIC + KEY_LEN <= length packet)%nat /\
  shared_open (shared receiver (derive_public sender)) (drop (length MAGIC + KEY_LEN) packet) = Some payload.
Proof.
  intros Hn Hm Hr Hp. unfold seal_packet, key_public. destruct (is_zero sender) eqn:Hs; [done|].
  destruct (is_zero (derive_public receiver)) eqn:Hpr; [done|]. cbn [orb negb assert_run].
  unfold shared, shared_seal. rewrite Hs, Hpr. cbn [orb ok_or mbind result_bind].
  destruct (box_encrypt _ _ _) as [ct|] eqn:E; [|done]. cbn [ok_or mbind result_bind run_bind]. intros Hpk.
  assert (packet = MAGIC ++ derive_public sender ++ nonce ++ ct) as -> by congruence. clear Hpk.
  pose proof (derive_public_length sender) as Hl.
  assert (looks_like_disco_wrapper (MAGIC ++ derive_public sender ++ nonce ++ ct) = true) as Hw
    by (by apply looks_like_sealed).
  assert (source (MAGIC ++ derive_public sender ++ nonce ++ ct) = Ret (Some (derive_public sender))) as Hsrc.
  { unfold source. rewrite Hw. cbn [negb]. rewrite slice_field, run_bind_Ret by (rewrite !length_app; lia).
    rewrite (field_skip MAGIC _ _ _ (length MAGIC)) by done. rewrite Nat.sub_diag, field_here; [done|]. lia. }
  split_and!; [done..|rewrite !length_app; lia|].
  rewrite app_assoc, drop_app_length' by (rewrite length_app; lia).
  unfold shared. rewrite Hr, Hp. cbn [orb]. unfold shared_open. cbn [mbind option_bind].
  rewrite length_app, Hn, (proj2 (Nat.ltb_ge _ _)) by lia.
  rewrite take_app_length', drop_app_length' by done. by rewrite (box_open_sealed _ _ _ _ _ Hm E).
Qed.

Lemma open_packet_eq `{BoxCrypto} receiver packet pub payload :
  looks_like_disco_wrapper packet = true -> source packet = Ret (Some pub) ->
  (length MAGIC + KEY_LEN <= length packet)%nat ->
  shared_open (shared receiver pub) (drop (length MAGIC + KEY_LEN) packet) = Some payload ->
  open_packet receiver packet = Ret (Some (pub, payload)).
Proof.
  intros Hw Hs Hl Ho. unfold open_packet. rewrite Hw, Hs. cbn [negb]. rewrite run_bind_Ret.
  rewrite slice_from_ok, run_bind_Ret by done. by rewrite Ho.
Qed.

(** A sealed disco packet opens: whenever [seal_packet] produces a packet, it
    has the wrapper's shape, [source] names the sender's public key, and the
    addressee opens it to the sender's key and the payload; nothing is sealed
    with a zero key. *)
Theorem disco_packet_opens `{BoxLaws} (sender receiver nonce payload packet : list Z) :
  length nonce = NONCE_LEN -> wf_bytes payload ->
  is_zero receiver = false -> is_zero (derive_public sender) = false ->
  seal_packet sender (derive_public receiver) nonce payload = Ret (Ok packet) ->
  is_zero sender = false /\ looks_like_disco_wrapper packet = true /\
  source packet = Ret (Some (derive_public sender)) /\
  open_packet receiver packet = Ret (Some (derive_public sender, payload)).
Proof.
  intros Hn Hm Hr Hp Hs. destruct (seal_packet_inv _ _ _ _ _ Hn Hm Hr Hp Hs) as (Hz & Hw & Hsrc & Hl & Ho).
  split_and!; [done..|]. by apply open_packet_eq.
Qed.

(** The cipher of [Keys] with the laws. *)
#[local] Existing Instance demo_box.
#[local] Existing Instance demo_box_laws.

Lemma disco_packet_opens_witness :
  let a := replicate 32 3 in let b := replicate 32 5 in
  exists packet, seal_packet a (derive_public b) (replicate 24 7) [1; 0] = Ret (Ok packet) /\
    open_packet b packet = Ret (Some (derive_public a, [1; 0])).
Proof.
  intros a b. eexists. split; [reflexivity|].
  refine (proj2 (proj2 (proj2 (disco_packet_opens a b (replicate 24 7) [1; 0] _ _ _ _ _ _))));
    [reflexivity|apply (bool_decide_unpack _); vm_compute; exact I|reflexivity..].
Defined.
