(* ===== verification/Geneve.v ===== *)
(** * Geneve headers: [crates/udprelay/src/geneve.rs]

    The fixed eight-byte header that frames relayed packets, and its round
    trip. *)

From S2P Require Import Prelude Bytes Bits.

Definition GENEVE_FIXED_HEADER_LENGTH : nat := 8.
Definition GENEVE_PROTOCOL_DISCO : Z := 0x7A11.
Definition GENEVE_PROTOCOL_WIREGUARD : Z := 0x7A12.
Definition MIN_VNI : Z := 1.
Definition MAX_VNI : Z := 0x00FFFFFF.

Record GeneveHeader : Type := { g_version : Z; control : bool; protocol : Z; g_vni : Z }.
(** The kinds of [io::Error] the codec returns. *)
Inductive GeneveError : Type := UnexpectedEof | InvalidInput.

(** [GeneveHeader::new]. *)
Definition geneve_new (vni p : Z) (c : bool) : GeneveHeader :=
  {| g_version := 0; control := c; protocol := p; g_vni := vni |}.

(** [GeneveHeader::encode_to]: the buffer with the header in its first bytes. *)
Definition geneve_encode_to (h : GeneveHeader) (buf : list Z) : run (result GeneveError (list Z)) :=
  if (length buf <? GENEVE_FIXED_HEADER_LENGTH)%nat then Ret (Err UnexpectedEof)
  else if MAX_VNI <? g_vni h then Ret (Err InvalidInput)
  else
    buf ← idx_set buf 0 (Z.shiftl (g_version h) 6 mod 2 ^ 8);
    buf ← idx_set buf 1 (if control h then 0x80 else 0x00);
    buf ← copy_to buf 2 4 (to_be_bytes 2 (protocol h));
    let vni_shifted := Z.shiftl (g_vni h) 8 mod 2 ^ 32 in
    buf ← copy_to buf 4 8 (to_be_bytes 4 vni_shifted);
    Ret (Ok buf).

(** [GeneveHeader::encode]. *)
Definition geneve_encode (h : GeneveHeader) : run (list Z) :=
  r ← geneve_encode_to h (replicate GENEVE_FIXED_HEADER_LENGTH 0);
  match r with Ok buf => Ret buf | Err _ => Panic end.

(** [GeneveHeader::decode]. *)
Definition geneve_decode (buf : list Z) : run (result GeneveError (GeneveHeader * list Z)) :=
  if (length buf <? GENEVE_FIXED_HEADER_LENGTH)%nat then Ret (Err UnexpectedEof)
  else
    b0 ← idx buf 0;
    b1 ← idx buf 1;
    p ← idx_range buf 2 2;
    v ← idx_range buf 4 3;
    rest ← slice_from buf GENEVE_FIXED_HEADER_LENGTH;
    Ret (Ok ({| g_version := Z.shiftr b0 6; control := negb (Z.land b1 0x80 =? 0);
                protocol := from_be_bytes p; g_vni := from_be_bytes (0 :: v) |}, rest)).

(** [encode_geneve], [encode_geneve_control] and [decode_geneve]. *)
Definition encode_geneve (vni : Z) (payload : list Z) : run (list Z) :=
  h ← geneve_encode (geneve_new vni GENEVE_PROTOCOL_WIREGUARD false); Ret (h ++ payload).
Definition encode_geneve_control (vni : Z) (payload : list Z) : run (list Z) :=
  h ← geneve_encode (geneve_new vni GENEVE_PROTOCOL_DISCO true); Ret (h ++ payload).
Definition decode_geneve (data : list Z) : run (option (Z * list Z)) :=
  r ← geneve_decode data;
  Ret (match r with Ok (h, payload) => Some (g_vni h, payload) | Err _ => None end).

(** ** Properties *)

Definition geneve_ok (h : GeneveHeader) : Prop :=
  0 <= g_version h < 4 /\ is_u16 (protocol h) /\ 0 <= g_vni h <= MAX_VNI.
Definition geneve_bytes (h : GeneveHeader) : list Z :=
  [g_version h * 64; if control h then 0x80 else 0] ++ to_be_bytes 2 (protocol h) ++
  to_be_bytes 3 (g_vni h) ++ [0].

Lemma shifted_vni_bytes v : 0 <= v <= MAX_VNI -> to_be_bytes 4 (Z.shiftl v 8 mod 2 ^ 32) = to_be_bytes 3 v ++ [0].
Proof.
  intros Hv. unfold MAX_VNI in Hv. assert (Z.shiftl v 8 mod 2 ^ 32 = v * 256) as ->.
  { rewrite Z.shiftl_mul_pow2 by lia. apply Z.mod_small. lia. }
  apply to_be_bytes_shift.
Qed.

Lemma geneve_encode_spec h : geneve_ok h -> geneve_encode h = Ret (geneve_bytes h).
Proof.
  intros (Hv & Hp & Hn). unfold geneve_encode, geneve_encode_to, GENEVE_FIXED_HEADER_LENGTH.
  rewrite length_replicate. change (8 <? 8)%nat with false. cbv iota.
  rewrite (proj2 (Z.ltb_ge _ _)) by lia. rewrite filled_start.
  rewrite set_filled, run_bind_Ret by (cbn; lia). rewrite set_filled, run_bind_Ret by (cbn; lia).
  rewrite copy_filled, run_bind_Ret by (rewrite ?length_to_be_bytes; cbn; lia). cbv zeta.
  rewrite copy_filled, run_bind_Ret by (rewrite ?length_app, ?length_to_be_bytes; cbn; lia).
  rewrite !length_to_be_bytes, shifted_vni_bytes by done.
  change (8 - 1 - 1 - 2 - 4)%nat with 0%nat. rewrite run_bind_Ret, filled_full.
  unfold geneve_bytes. rewrite Z.shiftl_mul_pow2, Z.mod_small by lia. by rewrite <- app_assoc.
Qed.

Lemma geneve_decode_spec h payload :
  geneve_ok h -> geneve_decode (geneve_bytes h ++ payload) = Ret (Ok (h, payload)).
Proof.
  intros (Hv & Hp & Hn). unfold geneve_decode.
  assert (length (geneve_bytes h) = 8%nat) as Hl by (unfold geneve_bytes; by rewrite !length_app, !length_to_be_bytes).
  rewrite (proj2 (Nat.ltb_ge _ _)) by (rewrite length_app, Hl; cbv [GENEVE_FIXED_HEADER_LENGTH]; lia).
  rewrite (idx_lookup _ 0 (g_version h * 64)), (idx_lookup _ 1 (if control h then 0x80 else 0)), !run_bind_Ret by done.
  rewrite !idx_range_field, !run_bind_Ret by (rewrite length_app, Hl; lia).
  rewrite slice_from_ok, run_bind_Ret by (rewrite length_app, Hl; cbv [GENEVE_FIXED_HEADER_LENGTH]; lia).
  rewrite drop_app_length' by done. unfold geneve_bytes. rewrite <- !app_assoc.
  rewrite (field_skip [_; _] _ 2 _ 2), (field_skip [_; _] _ 4 _ 2) by (done || lia). cbn [Nat.sub].
  rewrite field_here by apply length_to_be_bytes.
  rewrite (field_skip _ _ 2 _ 2) by (lia || apply length_to_be_bytes). cbn [Nat.sub].
  rewrite field_here by apply length_to_be_bytes. cbn [from_be_bytes]. rewrite Z.mul_0_l, Z.add_0_l.
  rewrite !from_to_be_bytes_small by (unfold MAX_VNI, is_u16 in *; lia).
  assert (Z.shiftr (g_version h * 64) 6 = g_version h) as ->
    by (rewrite Z.shiftr_div_pow2 by lia; by apply Z.div_mul).
  destruct h as [v [] p n]; done.
Qed.

Lemma geneve_new_ok vni p c : 0 <= vni <= MAX_VNI -> is_u16 p -> geneve_ok (geneve_new vni p c).
Proof. intros Hv Hp. split; [cbn; lia|by split]. Qed.

Lemma protocols_u16 : is_u16 GENEVE_PROTOCOL_DISCO /\ is_u16 GENEVE_PROTOCOL_WIREGUARD.
Proof. unfold is_u16, GENEVE_PROTOCOL_DISCO, GENEVE_PROTOCOL_WIREGUARD. lia. Qed.

Lemma encode_control_spec vni payload :
  0 <= vni <= MAX_VNI ->
  encode_geneve_control vni payload = Ret (geneve_bytes (geneve_new vni GENEVE_PROTOCOL_DISCO true) ++ payload).
Proof. intros Hv. unfold encode_geneve_control. rewrite geneve_encode_spec; [done|]. apply geneve_new_ok; [done|apply protocols_u16]. Qed.

(** Geneve framing round-trips: a header whose fields fit the format is
    written in eight bytes and read back with the payload, both by the codec and
    through [encode_geneve]/[decode_geneve]; a header whose network identifier
    does not fit in 24 bits makes [encode] panic. *)
Theorem geneve_roundtrip (h : GeneveHeader) (payload : list Z) :
  geneve_ok h ->
  (exists b, geneve_encode h = Ret b /\ length b = 8%nat /\ geneve_decode (b ++ payload) = Ret (Ok (h, payload))) /\
  (exists f, encode_geneve (g_vni h) payload = Ret f /\ decode_geneve f = Ret (Some (g_vni h, payload))) /\
  (forall v, MAX_VNI < v -> encode_geneve v payload = Panic).
Proof.
  intros Hh. split_and!.
  - exists (geneve_bytes h). rewrite geneve_encode_spec, geneve_decode_spec by done. split_and!; [done| |done].
    unfold geneve_bytes. by rewrite !length_app, !length_to_be_bytes.
  - destruct Hh as (_ & _ & Hn). unfold encode_geneve, decode_geneve.
    assert (geneve_ok (geneve_new (g_vni h) GENEVE_PROTOCOL_WIREGUARD false)) as Hok
      by (apply geneve_new_ok; [done|apply protocols_u16]).
    rewrite geneve_encode_spec, run_bind_Ret by done. eexists. split; [done|]. by rewrite geneve_decode_spec.
  - intros v Hv. unfold encode_geneve, geneve_encode, geneve_encode_to. rewrite length_replicate.
    change (GENEVE_FIXED_HEADER_LENGTH <? GENEVE_FIXED_HEADER_LENGTH)%nat with false. cbv iota.
    cbn [geneve_new g_vni]. by rewrite (proj2 (Z.ltb_lt _ _)).
Qed.

Lemma geneve_roundtrip_witness :
  let h := {| g_version := 0; control := true; protocol := GENEVE_PROTOCOL_DISCO; g_vni := 0x123456 |} in
  exists b, geneve_encode h = Ret b /\ length b = 8%nat /\ geneve_decode (b ++ [1; 2]) = Ret (Ok (h, [1; 2])).
Proof.
  intros h. refine (proj1 (geneve_roundtrip h [1; 2] _)).
  split; [|split]; [split; [discriminate|reflexivity]|split; [discriminate|reflexivity]|split; discriminate].
Defined.
