(* ===== verification/Relay.v ===== *)
(** * The UDP relay server: [crates/udprelay/src/server.rs, mac.rs, endpoint.rs]

    The server allocates relay endpoints for pairs of clients, runs the three-way
    bind handshake over sealed disco messages, and forwards packets between the
    two bound addresses.  The code shares each endpoint between two maps through
    [Arc<RelayEndpoint>]: here the endpoints live in [heap] and the maps hold
    their positions in it.  A packet is handled in the steps between which the
    code releases its locks: [start_packet] (decode and look up), [get_mac_secrets]
    and the endpoint's handler.  Instants and durations are nanoseconds;
    [Instant::duration_since] saturates at zero.  Socket, tasks and the delivery
    gate are not modelled; random bytes are arguments, and integers wrap at their
    width, as they do in release builds. *)

From S2P Require Import Prelude Bytes IpAddr Keys Disco Geneve.

Definition MAC_SIZE : nat := 32.

#[global] Instance SocketAddr_countable : Countable SocketAddr.
Proof. refine (inj_countable' (fun a => (ip a, port a)) (fun p => {| ip := p.1; port := p.2 |}) _). by intros []. Defined.

(** Arrays of two, indexed by [false] for 0 and [true] for 1. *)
Definition sel {A} (i : bool) (p : A * A) : A := if i then p.2 else p.1.
Definition upd {A} (i : bool) (p : A * A) (x : A) : A * A := if i then (p.1, x) else (x, p.2).

(** [Instant::duration_since]. *)
Definition duration_since (now earlier : Z) : Z := Z.max 0 (now - earlier).

(** ** Message authentication: [mac.rs] *)

(** Keyed BLAKE2s-256 of the [blake2] crate. *)
Class Blake2s : Type := { blake2s_mac : list Z -> list Z -> list Z }.
Class Blake2sLaws `{Blake2s} : Prop := { blake2s_bytes : forall k x, is_bytes MAC_SIZE (blake2s_mac k x) }.

(** [encode_addr_port_to]: the bytes it appends. *)
Definition addr_port_bytes (a : SocketAddr) : list Z :=
  (match ip a with V4 o => to_ipv6_mapped o | V6 o => o end) ++ to_be_bytes 2 (port a).

Section mac.
Context `{Blake2s}.

(** [compute_mac]. *)
Definition compute_mac (key : list Z) (vni generation : Z) (rk : list Z) (src : SocketAddr) : list Z :=
  let input := to_be_bytes 4 vni ++ to_be_bytes 4 generation ++ rk ++ addr_port_bytes src in
  blake2s_mac key input.
(** [compute_mac_from_bind_msg]. *)
Definition compute_mac_from_bind_msg (key : list Z) (src : SocketAddr) (m : BindUdpRelayEndpointCommon) : list Z :=
  compute_mac key (b_vni m) (b_generation m) (remote_key m) src.
(** [verify_mac]. *)
Definition verify_mac (expected candidate : list Z) : bool := bool_decide (expected = candidate).
End mac.

(** ** Endpoints *)

Record EndpointInner : Type := {
  ep_closed : bool;
  in_progress_generation : Z * Z;
  bound_addr_ports : option SocketAddr * option SocketAddr;
  last_seen : Z * Z;
  packets_rx : Z * Z;
  bytes_rx : Z * Z }.

(** [EndpointInner::new]. *)
Definition inner_new (now : Z) : EndpointInner :=
  {| ep_closed := false; in_progress_generation := (0, 0); bound_addr_ports := (None, None);
     last_seen := (now, now); packets_rx := (0, 0); bytes_rx := (0, 0) |}.

(** [EndpointInner::is_bound]. *)
Definition is_bound (e : EndpointInner) : bool :=
  is_some (bound_addr_ports e).1 && is_some (bound_addr_ports e).2.

(** [EndpointInner::is_expired]. *)
Definition is_expired (e : EndpointInner) (now bind_life steady_life allocated_at : Z) : bool :=
  if negb (is_bound e) then bind_life <? duration_since now allocated_at
  else (steady_life <? duration_since now (last_seen e).1) || (steady_life <? duration_since now (last_seen e).2).

Definition close_inner (e : EndpointInner) : EndpointInner :=
  {| ep_closed := true; in_progress_generation := in_progress_generation e; bound_addr_ports := bound_addr_ports e;
     last_seen := last_seen e; packets_rx := packets_rx e; bytes_rx := bytes_rx e |}.
Definition set_generation (e : EndpointInner) (i : bool) (g : Z) : EndpointInner :=
  {| ep_closed := ep_closed e; in_progress_generation := upd i (in_progress_generation e) g;
     bound_addr_ports := bound_addr_ports e; last_seen := last_seen e; packets_rx := packets_rx e;
     bytes_rx := bytes_rx e |}.
(** The updates of a verified answer. *)
Definition bind_inner (e : EndpointInner) (i : bool) (from : SocketAddr) (now : Z) : EndpointInner :=
  {| ep_closed := ep_closed e; in_progress_generation := upd i (in_progress_generation e) 0;
     bound_addr_ports := upd i (bound_addr_ports e) (Some from); last_seen := upd i (last_seen e) now;
     packets_rx := packets_rx e; bytes_rx := bytes_rx e |}.
(** The updates of a data packet of [n] bytes. *)
Definition count_inner (e : EndpointInner) (i : bool) (n now : Z) : EndpointInner :=
  {| ep_closed := ep_closed e; in_progress_generation := in_progress_generation e;
     bound_addr_ports := bound_addr_ports e; last_seen := upd i (last_seen e) now;
     packets_rx := upd i (packets_rx e) (wrap64 (sel i (packets_rx e) + 1));
     bytes_rx := upd i (bytes_rx e) (wrap64 (sel i (bytes_rx e) + n)) |}.

Definition reply : Type := option (list Z * SocketAddr).

Section server.
Context `{BoxCrypto} `{Blake2s}.

Record RelayEndpoint : Type := {
  disco_pub_keys : list Z * list Z;
  disco_shared_secrets : option salsa_box * option salsa_box;
  r_lamport_id : Z;
  r_vni : Z;
  allocated_at : Z;
  inner : EndpointInner }.

Definition set_inner (e : RelayEndpoint) (i : EndpointInner) : RelayEndpoint :=
  {| disco_pub_keys := disco_pub_keys e; disco_shared_secrets := disco_shared_secrets e;
     r_lamport_id := r_lamport_id e; r_vni := r_vni e; allocated_at := allocated_at e; inner := i |}.

(** [RelayEndpoint::new]. *)
Definition relay_new (keys : list Z * list Z) (lamport vni now : Z) (server_private : list Z) : RelayEndpoint :=
  {| disco_pub_keys := keys;
     disco_shared_secrets := (shared server_private keys.1, shared server_private keys.2);
     r_lamport_id := lamport; r_vni := vni; allocated_at := now; inner := inner_new now |}.

(** The loop over [mac_secrets] that verifies an answer. *)
Fixpoint answer_verified (secrets : list (list Z)) (from : SocketAddr) (m : BindUdpRelayEndpointCommon) : bool :=
  match secrets with
  | [] => false
  | s :: secrets =>
      if verify_mac (compute_mac_from_bind_msg s from m) (challenge m) then true
      else answer_verified secrets from m
  end.

(** [RelayEndpoint::handle_disco_control_msg]. *)
Definition handle_disco_control_msg (e : RelayEndpoint) (from : SocketAddr) (i : bool) (msg : Message)
    (server_disco : list Z) (secrets : list (list Z)) (now : Z) (nonce : list Z)
  : run (EndpointInner * reply) :=
  let ep := inner e in
  let other := negb i in
  if ep_closed ep then Ret (ep, None)
  else
    match msg with
    | MBind m =>
        if negb (b_vni m =? r_vni e) then Ret (ep, None)
        else if negb (bool_decide (remote_key m = sel other (disco_pub_keys e))) then Ret (ep, None)
        else if b_generation m =? 0 then Ret (ep, None)
        else
          let ep := set_generation ep i (b_generation m) in
          let common := {| b_vni := r_vni e; b_generation := b_generation m;
                           remote_key := sel other (disco_pub_keys e); challenge := replicate 32 0 |} in
          secret ← idx secrets 0;
          let mac := compute_mac_from_bind_msg secret from common in
          marshaled ← marshal (MBindChallenge {| b_vni := b_vni common; b_generation := b_generation common;
                                                 remote_key := remote_key common; challenge := mac |});
          match shared_seal (sel i (disco_shared_secrets e)) nonce marshaled with
          | Err _ => Ret (ep, None)
          | Ok sealed =>
              r ← encode_geneve_control (r_vni e) (MAGIC ++ server_disco ++ sealed);
              Ret (ep, Some (r, from))
          end
    | MBindAnswer m =>
        if negb (b_vni m =? r_vni e) then Ret (ep, None)
        else if negb (bool_decide (remote_key m = sel other (disco_pub_keys e))) then Ret (ep, None)
        else
          let generation := sel i (in_progress_generation ep) in
          if (generation =? 0) || negb (generation =? b_generation m) then Ret (ep, None)
          else if answer_verified secrets from m then Ret (bind_inner ep i from now, None)
          else Ret (ep, None)
    | _ => Ret (ep, None)
    end.

(** [RelayEndpoint::handle_sealed_disco_control_msg]. *)
Definition handle_sealed_disco_control_msg (e : RelayEndpoint) (from : SocketAddr) (envelope server_disco : list Z)
    (secrets : list (list Z)) (now : Z) (nonce : list Z) : run (EndpointInner * reply) :=
  s ← source envelope;
  match s with
  | None => Ret (inner e, None)
  | Some sender_pub =>
      let index := if bool_decide (sender_pub = (disco_pub_keys e).1) then Some false
                   else if bool_decide (sender_pub = (disco_pub_keys e).2) then Some true
                   else None in
      match index with
      | None => Ret (inner e, None)
      | Some i =>
          ct ← slice_from envelope (length MAGIC + KEY_LEN);
          match shared_open (sel i (disco_shared_secrets e)) ct with
          | None => Ret (inner e, None)
          | Some plaintext =>
              r ← parse plaintext;
              match r with
              | Err _ => Ret (inner e, None)
              | Ok msg => handle_disco_control_msg e from i msg server_disco secrets now nonce
              end
          end
      end
  end.

(** [RelayEndpoint::handle_data_packet]. *)
Definition handle_data_packet (e : RelayEndpoint) (from : SocketAddr) (full_packet : list Z) (now : Z)
  : run (EndpointInner * reply) :=
  let ep := inner e in
  if negb (is_bound ep) || ep_closed ep then Ret (ep, None)
  else
    let index := if bool_decide (Some from = (bound_addr_ports ep).1) then Some false
                 else if bool_decide (Some from = (bound_addr_ports ep).2) then Some true
                 else None in
    match index with
    | None => Ret (ep, None)
    | Some i =>
        let ep := count_inner ep i (Z.of_nat (length full_packet)) now in
        dest ← expect (sel (negb i) (bound_addr_ports ep));
        Ret (ep, Some (full_packet, dest))
    end.

(** ** The server *)

Inductive UdprelayError : Type := ServerClosed | ServerNotReady | VniExhausted | ClientEqualsServer.

Record ServerEndpoint : Type := {
  se_server_disco : list Z; se_client_disco : list Z * list Z; se_lamport_id : Z;
  se_addr_ports : list SocketAddr; se_vni : Z; se_bind_lifetime : Z; se_steady_state_lifetime : Z }.

(** The fields of [ServerInner] that never change. *)
Record ServerConfig : Type := {
  disco_private : list Z;
  disco_public : list Z;
  c_bind_lifetime : Z;
  c_steady_state_lifetime : Z;
  mac_secret_rotation_interval : Z;
  min_vni : Z;
  max_vni : Z }.

(** [ServerState], the [closed] flag of [ServerInner] and the endpoints. *)
Record ServerState : Type := {
  mac_secrets : list (list Z);
  mac_secret_rotated_at : option Z;
  s_lamport_id : Z;
  next_vni : Z;
  endpoints_by_vni : gmap Z nat;
  endpoints_by_disco : gmap (list Z * list Z) nat;
  server_closed : bool;
  static_addr_ports : list SocketAddr;
  dynamic_addr_ports : list SocketAddr;
  closed : bool;
  heap : list RelayEndpoint }.

Definition set_secrets (s : ServerState) (m : list (list Z)) (t : option Z) : ServerState :=
  {| mac_secrets := m; mac_secret_rotated_at := t; s_lamport_id := s_lamport_id s; next_vni := next_vni s;
     endpoints_by_vni := endpoints_by_vni s; endpoints_by_disco := endpoints_by_disco s;
     server_closed := server_closed s; static_addr_ports := static_addr_ports s;
     dynamic_addr_ports := dynamic_addr_ports s; closed := closed s; heap := heap s |}.
Definition set_next_vni (s : ServerState) (v : Z) : ServerState :=
  {| mac_secrets := mac_secrets s; mac_secret_rotated_at := mac_secret_rotated_at s; s_lamport_id := s_lamport_id s;
     next_vni := v; endpoints_by_vni := endpoints_by_vni s; endpoints_by_disco := endpoints_by_disco s;
     server_closed := server_closed s; static_addr_ports := static_addr_ports s;
     dynamic_addr_ports := dynamic_addr_ports s; closed := closed s; heap := heap s |}.
Definition set_endpoints (s : ServerState) (v : gmap Z nat) (d : gmap (list Z * list Z) nat)
    (h : list RelayEndpoint) : ServerState :=
  {| mac_secrets := mac_secrets s; mac_secret_rotated_at := mac_secret_rotated_at s; s_lamport_id := s_lamport_id s;
     next_vni := next_vni s; endpoints_by_vni := v; endpoints_by_disco := d;
     server_closed := server_closed s; static_addr_ports := static_addr_ports s;
     dynamic_addr_ports := dynamic_addr_ports s; closed := closed s; heap := h |}.
Definition set_lamport (s : ServerState) (l : Z) : ServerState :=
  {| mac_secrets := mac_secrets s; mac_secret_rotated_at := mac_secret_rotated_at s; s_lamport_id := l;
     next_vni := next_vni s; endpoints_by_vni := endpoints_by_vni s; endpoints_by_disco := endpoints_by_disco s;
     server_closed := server_closed s; static_addr_ports := static_addr_ports s;
     dynamic_addr_ports := dynamic_addr_ports s; closed := closed s; heap := heap s |}.
Definition set_flags (s : ServerState) (sc c : bool) : ServerState :=
  {| mac_secrets := mac_secrets s; mac_secret_rotated_at := mac_secret_rotated_at s; s_lamport_id := s_lamport_id s;
     next_vni := next_vni s; endpoints_by_vni := endpoints_by_vni s; endpoints_by_disco := endpoints_by_disco s;
     server_closed := sc; static_addr_ports := static_addr_ports s;
     dynamic_addr_ports := dynamic_addr_ports s; closed := c; heap := heap s |}.

(** The state [Server::new] starts from. *)
Definition server_init (cfg : ServerConfig) (advertised : SocketAddr) : ServerState :=
  {| mac_secrets := []; mac_secret_rotated_at := None; s_lamport_id := 0; next_vni := min_vni cfg;
     endpoints_by_vni := ∅; endpoints_by_disco := ∅; server_closed := false;
     static_addr_ports := [advertised]; dynamic_addr_ports := []; closed := false; heap := [] |}.

(** [Server::set_static_addr_ports]. *)
Definition set_static_addr_ports (s : ServerState) (ps : list SocketAddr) : ServerState :=
  {| mac_secrets := mac_secrets s; mac_secret_rotated_at := mac_secret_rotated_at s; s_lamport_id := s_lamport_id s;
     next_vni := next_vni s; endpoints_by_vni := endpoints_by_vni s; endpoints_by_disco := endpoints_by_disco s;
     server_closed := server_closed s; static_addr_ports := ps;
     dynamic_addr_ports := dynamic_addr_ports s; closed := closed s; heap := heap s |}.

(** The derived order of [DiscoPublic]: lexicographic on the bytes. *)
Fixpoint bytes_leb (a b : list Z) : bool :=
  match a, b with
  | [], _ => true
  | _ :: _, [] => false
  | x :: a, y :: b => if x <? y then true else if y <? x then false else bytes_leb a b
  end.
(** [sorted_pair]. *)
Definition sorted_pair (a b : list Z) : list Z * list Z := if bytes_leb a b then (a, b) else (b, a).

(** The loop of [get_next_vni]. *)
Fixpoint vni_loop (fuel : nat) (s : ServerState) (min_v max_v : Z) : ServerState * result UdprelayError Z :=
  match fuel with
  | O => (s, Err VniExhausted)
  | S fuel =>
      let vni := next_vni s in
      let s := set_next_vni s (if vni =? max_v then min_v else wrap32 (vni + 1)) in
      match endpoints_by_vni s !! vni with
      | None => (s, Ok vni)
      | Some _ => vni_loop fuel s min_v max_v
      end
  end.
(** [get_next_vni]. *)
Definition get_next_vni (s : ServerState) (min_v max_v : Z) : ServerState * result UdprelayError Z :=
  let total := wrap32 (max_v - min_v + 1) in
  vni_loop (Z.to_nat total) s min_v max_v.

(** [get_all_addr_ports]. *)
Definition get_all_addr_ports (s : ServerState) : list SocketAddr := static_addr_ports s ++ dynamic_addr_ports s.

(** What [allocate_endpoint] returns for an allocation. *)
Definition server_endpoint (cfg : ServerConfig) (s : ServerState) (pair : list Z * list Z) (lamport vni : Z)
  : ServerEndpoint :=
  {| se_server_disco := disco_public cfg; se_client_disco := pair; se_lamport_id := lamport;
     se_addr_ports := get_all_addr_ports s; se_vni := vni; se_bind_lifetime := c_bind_lifetime cfg;
     se_steady_state_lifetime := c_steady_state_lifetime cfg |}.

(** [ServerInner::allocate_endpoint]. *)
Definition allocate_endpoint (cfg : ServerConfig) (s : ServerState) (now : Z) (disco_a disco_b : list Z)
  : run (ServerState * result UdprelayError ServerEndpoint) :=
  if server_closed s || closed s then Ret (s, Err ServerClosed)
  else if (length (static_addr_ports s) =? 0)%nat && (length (dynamic_addr_ports s) =? 0)%nat
  then Ret (s, Err ServerNotReady)
  else if bool_decide (disco_a = disco_public cfg) || bool_decide (disco_b = disco_public cfg)
  then Ret (s, Err ClientEqualsServer)
  else
    let pair := sorted_pair disco_a disco_b in
    match endpoints_by_disco s !! pair with
    | Some i =>
        existing ← idx (heap s) i;
        Ret (s, Ok (server_endpoint cfg s pair (r_lamport_id existing) (r_vni existing)))
    | None =>
        let r := get_next_vni s (min_vni cfg) (max_vni cfg) in
        let s := r.1 in
        match r.2 with
        | Err e => Ret (s, Err e)
        | Ok vni =>
            let lamport := wrap64 (s_lamport_id s + 1) in
            let s := set_lamport s lamport in
            let endpoint := relay_new pair lamport vni now (disco_private cfg) in
            let i := length (heap s) in
            let s := set_endpoints s (<[vni := i]> (endpoints_by_vni s)) (<[pair := i]> (endpoints_by_disco s))
                       (heap s ++ [endpoint]) in
            Ret (s, Ok (server_endpoint cfg s pair lamport vni))
        end
    end.

(** [ServerInner::maybe_rotate_mac_secret] with the fresh random secret. *)
Definition maybe_rotate_mac_secret (s : ServerState) (now interval : Z) (fresh : list Z) : run ServerState :=
  let recent := match mac_secret_rotated_at s with
                | Some last => duration_since now last <? interval
                | None => false
                end in
  if recent then Ret s
  else
    secrets ←
      (if (length (mac_secrets s) =? 0)%nat then Ret (mac_secrets s ++ [fresh])
       else
         old ← idx (mac_secrets s) 0;
         secrets ← (if (length (mac_secrets s) <? 2)%nat then Ret (mac_secrets s ++ [old])
                    else idx_set (mac_secrets s) 1 old);
         idx_set secrets 0 fresh);
    Ret (set_secrets s secrets (Some now)).

(** [ServerInner::get_mac_secrets]. *)
Definition get_mac_secrets (cfg : ServerConfig) (s : ServerState) (now : Z) (fresh : list Z)
  : run (ServerState * list (list Z)) :=
  s ← maybe_rotate_mac_secret s now (mac_secret_rotation_interval cfg) fresh;
  Ret (s, mac_secrets s).

(** A packet between the steps of [handle_packet]. *)
Inductive pending : Type :=
| PData (from : SocketAddr) (buf : list Z) (i : nat)
| PControl (from : SocketAddr) (payload : list Z) (i : nat)
| PSecrets (from : SocketAddr) (payload : list Z) (i : nat) (secrets : list (list Z)).

(** [ServerInner::handle_packet] up to the release of the state lock. *)
Definition start_packet (s : ServerState) (from : SocketAddr) (buf : list Z) : run (option pending) :=
  r ← geneve_decode buf;
  match r with
  | Err _ => Ret None
  | Ok (gh, payload) =>
      match endpoints_by_vni s !! g_vni gh with
      | None => Ret None
      | Some i =>
          if control gh then
            if negb (protocol gh =? GENEVE_PROTOCOL_DISCO) then Ret None
            else Ret (Some (PControl from payload i))
          else Ret (Some (PData from buf i))
      end
  end.

(** The next step of [ServerInner::handle_packet]: the secrets, or the endpoint's
    handler under the endpoint's lock. *)
Definition continue_packet (cfg : ServerConfig) (s : ServerState) (now : Z) (fresh nonce : list Z) (p : pending)
  : run (ServerState * option pending * reply) :=
  match p with
  | PControl from payload i =>
      r ← get_mac_secrets cfg s now fresh;
      Ret (r.1, Some (PSecrets from payload i r.2), None)
  | PSecrets from payload i secrets =>
      e ← idx (heap s) i;
      r ← handle_sealed_disco_control_msg e from payload (disco_public cfg) secrets now nonce;
      Ret (set_endpoints s (endpoints_by_vni s) (endpoints_by_disco s) (<[i := set_inner e r.1]> (heap s)), None, r.2)
  | PData from buf i =>
      e ← idx (heap s) i;
      r ← handle_data_packet e from buf now;
      Ret (set_endpoints s (endpoints_by_vni s) (endpoints_by_disco s) (<[i := set_inner e r.1]> (heap s)), None, r.2)
  end.

(** [ServerInner::handle_packet]. *)
Definition handle_packet (cfg : ServerConfig) (s : ServerState) (now : Z) (fresh nonce : list Z)
    (from : SocketAddr) (buf : list Z) : run (ServerState * reply) :=
  p ← start_packet s from buf;
  match p with
  | None => Ret (s, None)
  | Some p =>
      r ← continue_packet cfg s now fresh nonce p;
      match r with
      | (s, None, o) => Ret (s, o)
      | (s, Some p, _) => r ← continue_packet cfg s now fresh nonce p; Ret (r.1.1, r.2)
      end
  end.

(** The endpoints a garbage collection finds expired, with their pairs. *)
Definition expired (cfg : ServerConfig) (s : ServerState) (now : Z) : list (list Z * list Z * nat) :=
  List.filter
    (fun x => match heap s !! x.2 with
              | Some e => is_expired (inner e) now (c_bind_lifetime cfg) (c_steady_state_lifetime cfg) (allocated_at e)
              | None => false
              end)
    (map_to_list (endpoints_by_disco s)).
Definition close_at (h : list RelayEndpoint) (i : nat) : list RelayEndpoint :=
  alter (fun e => set_inner e (close_inner (inner e))) i h.
(** [ServerInner::run_gc_once]. *)
Definition run_gc_once (cfg : ServerConfig) (s : ServerState) (now : Z) : ServerState :=
  let to_remove := expired cfg s now in
  let h := foldl (fun h x => close_at h x.2) (heap s) to_remove in
  foldl (fun s x =>
           match h !! x.2 with
           | Some e => set_endpoints s (delete (r_vni e) (endpoints_by_vni s)) (delete x.1 (endpoints_by_disco s)) h
           | None => s
           end)
    (set_endpoints s (endpoints_by_vni s) (endpoints_by_disco s) h) to_remove.

(** Marking every endpoint of [endpoints_by_vni] closed. *)
Definition close_all (s : ServerState) : list RelayEndpoint :=
  foldl (fun h x => close_at h x.2) (heap s) (map_to_list (endpoints_by_vni s)).

(** [Server::disable_and_drain]. *)
Definition disable_and_drain (s : ServerState) : ServerState :=
  let s := set_flags s true (closed s) in
  let s := set_endpoints s ∅ ∅ (close_all s) in
  set_secrets s [] None.
(** [Server::enable]. *)
Definition enable (s : ServerState) : ServerState := if closed s then s else set_flags s false (closed s).
(** [Server::close]. *)
Definition close (s : ServerState) : ServerState :=
  let s := set_flags s true true in
  let s := set_endpoints s ∅ ∅ (close_all s) in
  set_secrets s [] (mac_secret_rotated_at s).

(** [Server::is_enabled] and [Server::endpoint_count]. *)
Definition is_enabled (s : ServerState) : bool := negb (closed s) && negb (server_closed s).
Definition endpoint_count (s : ServerState) : nat := size (endpoints_by_vni s).

End server.
Arguments RelayEndpoint {_}.
Arguments ServerState {_}.
