(* ===== verification/RelaySpec.v ===== *)
(** * Correctness of the UDP relay server

    [relay_inv] ties the two maps, the endpoints and the secrets together; every
    operation of the server, and every step of a packet in flight, is shown to
    preserve it and to return.  On top of it: allocation, the bind handshake end
    to end, what a bind proves about the peer, and silence after a drain. *)

From S2P Require Import Prelude Bytes IpAddr Keys Disco Geneve Relay.

Section relay.
Context {BC : BoxCrypto} {BL : BoxLaws} {B2 : Blake2s} {B2L : Blake2sLaws}.

Record config_ok (cfg : ServerConfig) : Prop := {
  co_min : 1 <= min_vni cfg;
  co_range : min_vni cfg <= max_vni cfg;
  co_max : max_vni cfg <= MAX_VNI;
  co_public : disco_public cfg = derive_public (disco_private cfg) }.

Record endpoint_wf (cfg : ServerConfig) (i : nat) (e : RelayEndpoint) : Prop := {
  ew_vni : min_vni cfg <= r_vni e <= max_vni cfg;
  ew_k0 : is_bytes 32 (disco_pub_keys e).1;
  ew_k1 : is_bytes 32 (disco_pub_keys e).2;
  ew_s0 : (disco_shared_secrets e).1 = shared (disco_private cfg) (disco_pub_keys e).1;
  ew_s1 : (disco_shared_secrets e).2 = shared (disco_private cfg) (disco_pub_keys e).2;
  ew_lamport : r_lamport_id e = wrap64 (Z.of_nat i + 1) }.

Record relay_inv (cfg : ServerConfig) (s : ServerState) : Prop := {
  ri_vni : forall v i, endpoints_by_vni s !! v = Some i ->
    exists e, heap s !! i = Some e /\ r_vni e = v /\ endpoints_by_disco s !! disco_pub_keys e = Some i /\
      ep_closed (inner e) = false;
  ri_disco : forall k i, endpoints_by_disco s !! k = Some i ->
    exists e, heap s !! i = Some e /\ disco_pub_keys e = k /\ endpoints_by_vni s !! r_vni e = Some i;
  ri_gone : forall i e, heap s !! i = Some e ->
    endpoints_by_vni s !! r_vni e = Some i \/ ep_closed (inner e) = true;
  ri_wf : forall i e, heap s !! i = Some e -> endpoint_wf cfg i e;
  ri_next : min_vni cfg <= next_vni s <= max_vni cfg;
  ri_lamport : s_lamport_id s = wrap64 (Z.of_nat (length (heap s)));
  ri_secrets : mac_secrets s = [] -> mac_secret_rotated_at s = None \/ closed s = true;
  ri_closed : closed s = true -> server_closed s = true;
  ri_drained : server_closed s = true -> endpoints_by_vni s = ∅ /\ endpoints_by_disco s = ∅ }.

Definition pending_index (p : pending) : nat :=
  match p with PData _ _ i => i | PControl _ _ i => i | PSecrets _ _ i _ => i end.

(** A packet in flight refers to an endpoint, and holds secrets unless the server
    has been closed. *)
Definition pending_ok (s : ServerState) (p : pending) : Prop :=
  (pending_index p < length (heap s))%nat /\
  match p with PSecrets _ _ _ [] => closed s = true | _ => True end.

(** ** Allocation *)

(** The [k]-th network identifier the loop looks at. *)
Definition vni_at (cfg : ServerConfig) (v : Z) (k : nat) : Z :=
  min_vni cfg + (v - min_vni cfg + Z.of_nat k) mod (max_vni cfg - min_vni cfg + 1).

Lemma vni_at_0 cfg v : min_vni cfg <= v <= max_vni cfg -> vni_at cfg v 0 = v.
Proof. intros Hv. unfold vni_at. rewrite Z.mod_small by lia. lia. Qed.

Lemma vni_at_S cfg v k :
  min_vni cfg <= v <= max_vni cfg ->
  vni_at cfg (if v =? max_vni cfg then min_vni cfg else v + 1) k = vni_at cfg v (S k).
Proof.
  intros Hv. unfold vni_at. f_equal. destruct (Z.eqb_spec v (max_vni cfg)) as [->|Hne].
  - replace (max_vni cfg - min_vni cfg + Z.of_nat (S k))
      with (Z.of_nat k + 1 * (max_vni cfg - min_vni cfg + 1)) by lia.
    rewrite Z.mod_add by lia. f_equal. lia.
  - f_equal. lia.
Qed.

(** Every identifier of the range is looked at. *)
Lemma vni_at_covers cfg v w :
  min_vni cfg <= v <= max_vni cfg -> min_vni cfg <= w <= max_vni cfg ->
  exists k, (k < Z.to_nat (max_vni cfg - min_vni cfg + 1))%nat /\ vni_at cfg v k = w.
Proof.
  intros Hv Hw. set (t := max_vni cfg - min_vni cfg + 1).
  exists (Z.to_nat ((w - v) mod t)). assert (0 <= (w - v) mod t < t) as Hb by (apply Z.mod_pos_bound; lia).
  split; [lia|]. unfold vni_at. fold t. rewrite Z2Nat.id, Zplus_mod_idemp_r by lia.
  replace (v - min_vni cfg + (w - v)) with (w - min_vni cfg) by lia. rewrite Z.mod_small by lia. lia.
Qed.

Lemma vni_loop_spec cfg fuel : config_ok cfg -> forall s,
  min_vni cfg <= next_vni s <= max_vni cfg ->
  exists v, min_vni cfg <= v <= max_vni cfg /\
    (vni_loop fuel s (min_vni cfg) (max_vni cfg)).1 = set_next_vni s v /\
    match (vni_loop fuel s (min_vni cfg) (max_vni cfg)).2 with
    | Ok w => endpoints_by_vni s !! w = None /\ min_vni cfg <= w <= max_vni cfg
    | Err e => e = VniExhausted /\
        forall k, (k < fuel)%nat -> is_Some (endpoints_by_vni s !! vni_at cfg (next_vni s) k)
    end.
Proof.
  intros Hc. induction fuel as [|fuel IH]; intros s Hn; cbn [vni_loop].
  { exists (next_vni s). split; [done|]. split; [by destruct s|]. split; [done|intros; lia]. }
  set (v := if next_vni s =? max_vni cfg then min_vni cfg else wrap32 (next_vni s + 1)).
  assert (v = if next_vni s =? max_vni cfg then min_vni cfg else next_vni s + 1) as Ev.
  { subst v. destruct Hc. unfold MAX_VNI, wrap32 in *. destruct (Z.eqb_spec (next_vni s) (max_vni cfg)); [done|].
    apply Z.mod_small. lia. }
  clearbody v. subst v. set (v := if _ =? _ then _ else _).
  assert (min_vni cfg <= v <= max_vni cfg) as Hv.
  { subst v. destruct (Z.eqb_spec (next_vni s) (max_vni cfg)); lia. }
  cbn [set_next_vni endpoints_by_vni]. destruct (endpoints_by_vni s !! next_vni s) as [i|] eqn:E.
  - destruct (IH (set_next_vni s v) Hv) as (w & Hw & E1 & E2). exists w. split; [done|].
    split; [by rewrite E1|]. destruct (vni_loop _ _ _ _).2 as [u|e]; [done|]. destruct E2 as [-> E2].
    split; [done|]. intros [|k] Hk; [by rewrite vni_at_0, E by done|].
    rewrite <- vni_at_S by done. apply (E2 k). lia.
  - exists v. split; [done|]. split; [done|]. split; [done|lia].
Qed.

Lemma get_next_vni_spec cfg s :
  config_ok cfg -> min_vni cfg <= next_vni s <= max_vni cfg ->
  exists v r, get_next_vni s (min_vni cfg) (max_vni cfg) = (set_next_vni s v, r) /\
    min_vni cfg <= v <= max_vni cfg /\
    match r with
    | Ok w => endpoints_by_vni s !! w = None /\ min_vni cfg <= w <= max_vni cfg
    | Err e => e = VniExhausted /\
        forall w, min_vni cfg <= w <= max_vni cfg -> is_Some (endpoints_by_vni s !! w)
    end.
Proof.
  intros Hc Hn. unfold get_next_vni. cbv zeta.
  assert (wrap32 (max_vni cfg - min_vni cfg + 1) = max_vni cfg - min_vni cfg + 1) as ->.
  { destruct Hc. unfold MAX_VNI, wrap32 in *. apply Z.mod_small. lia. }
  destruct (vni_loop_spec cfg (Z.to_nat (max_vni cfg - min_vni cfg + 1)) Hc s Hn) as (v & Hv & E1 & E2).
  destruct (vni_loop _ _ _ _) as [s' r] eqn:E. cbn [fst snd] in *. subst s'. exists v, r. split; [done|].
  split; [done|]. destruct r; [done|]. destruct E2 as [-> E2]. split; [done|]. intros w Hw.
  destruct (vni_at_covers cfg (next_vni s) w Hn Hw) as (k & Hk & <-). by apply E2.
Qed.

Lemma bytes_leb_total a : forall b, bytes_leb a b = true \/ bytes_leb b a = true.
Proof.
  induction a as [|x a IH]; intros [|y b]; cbn; auto. destruct (Z.ltb_spec x y), (Z.ltb_spec y x); auto; lia.
Qed.
Lemma bytes_leb_antisym a : forall b, bytes_leb a b = true -> bytes_leb b a = true -> a = b.
Proof.
  induction a as [|x a IH]; intros [|y b]; cbn; try done.
  destruct (Z.ltb_spec x y), (Z.ltb_spec y x); try done; try lia. intros H1 H2. f_equal; [lia|by apply IH].
Qed.

(** The order of the two clients does not matter. *)
Lemma sorted_pair_comm a b : sorted_pair a b = sorted_pair b a.
Proof.
  unfold sorted_pair. destruct (bytes_leb a b) eqn:E1, (bytes_leb b a) eqn:E2; try done.
  - by rewrite (bytes_leb_antisym a b).
  - destruct (bytes_leb_total a b); congruence.
Qed.

Lemma sorted_pair_bytes n a b :
  is_bytes n a -> is_bytes n b -> is_bytes n (sorted_pair a b).1 /\ is_bytes n (sorted_pair a b).2.
Proof. intros Ha Hb. unfold sorted_pair. by destruct (bytes_leb a b). Qed.

Lemma inv_next cfg s v : relay_inv cfg s -> min_vni cfg <= v <= max_vni cfg -> relay_inv cfg (set_next_vni s v).
Proof. by intros [] Hv. Qed.

(** What one call of [allocate_endpoint] may do. *)
Definition alloc_outcome (cfg : ServerConfig) (s s' : ServerState) (a b : list Z)
    (r : result UdprelayError ServerEndpoint) : Prop :=
  match r with
  | Ok ep =>
      exists i e, endpoints_by_disco s' !! sorted_pair a b = Some i /\ endpoints_by_vni s' !! se_vni ep = Some i /\
        heap s' !! i = Some e /\ ep_closed (inner e) = false /\
        ep = server_endpoint cfg s' (sorted_pair a b) (r_lamport_id e) (r_vni e) /\
        (endpoints_by_disco s !! sorted_pair a b = None -> endpoints_by_vni s !! se_vni ep = None)
  | Err ServerClosed => is_enabled s = false
  | Err ServerNotReady => get_all_addr_ports s = []
  | Err ClientEqualsServer => a = disco_public cfg \/ b = disco_public cfg
  | Err VniExhausted =>
      endpoints_by_disco s !! sorted_pair a b = None /\
      forall v, min_vni cfg <= v <= max_vni cfg -> is_Some (endpoints_by_vni s !! v)
  end.

Lemma wrap64_succ z : wrap64 (wrap64 z + 1) = wrap64 (z + 1).
Proof. unfold wrap64. by rewrite Zplus_mod_idemp_l. Qed.

(** Recording a fresh endpoint keeps the invariant. *)
Lemma inv_fresh cfg s pair vni now :
  relay_inv cfg s -> server_closed s = false -> endpoints_by_vni s !! vni = None ->
  endpoints_by_disco s !! pair = None -> min_vni cfg <= vni <= max_vni cfg ->
  is_bytes 32 pair.1 -> is_bytes 32 pair.2 ->
  relay_inv cfg (set_endpoints (set_lamport s (wrap64 (s_lamport_id s + 1)))
    (<[vni := length (heap s)]> (endpoints_by_vni s)) (<[pair := length (heap s)]> (endpoints_by_disco s))
    (heap s ++ [relay_new pair (wrap64 (s_lamport_id s + 1)) vni now (disco_private cfg)])).
Proof.
  intros [Hv Hd Hg Hw Hn Hl Hs Hc Hdr] Hsc Fv Fd Hr K0 K1.
  set (e := relay_new pair (wrap64 (s_lamport_id s + 1)) vni now (disco_private cfg)).
  assert ((heap s ++ [e]) !! length (heap s) = Some e) as Hnew by (apply list_lookup_middle; done).
  assert (forall i x, heap s !! i = Some x -> (heap s ++ [e]) !! i = Some x) as Hold
    by (intros i x Hx; by apply lookup_app_l_Some).
  split; cbn [set_endpoints set_lamport mac_secrets mac_secret_rotated_at s_lamport_id next_vni endpoints_by_vni
    endpoints_by_disco server_closed closed heap]; try done.
  - intros v i. rewrite lookup_insert_Some. intros [[<- <-]|[Hne E]].
    + exists e. split_and!; [done..|by rewrite lookup_insert_eq|done].
    + destruct (Hv v i E) as (x & Hx & Ex & Dx & Cx). exists x. split_and!; [by apply Hold|done| |done].
      rewrite lookup_insert_ne; [done|]. intros Ek. congruence.
  - intros k i. rewrite lookup_insert_Some. intros [[<- <-]|[Hne E]].
    + exists e. split_and!; [done..|by rewrite lookup_insert_eq].
    + destruct (Hd k i E) as (x & Hx & Ex & Dx). exists x. split_and!; [by apply Hold|done|].
      rewrite lookup_insert_ne; [done|]. intros Ek. congruence.
  - intros i x [Hx|[Hi Hx]]%lookup_app_Some.
    + destruct (Hg i x Hx) as [E|E]; [left|by right]. rewrite lookup_insert_ne; [done|]. intros Ek. congruence.
    + left. apply list_lookup_singleton_Some in Hx as [Hz <-]. cbn [relay_new r_vni e].
      rewrite lookup_insert_eq. f_equal. lia.
  - intros i x [Hx|[Hi Hx]]%lookup_app_Some; [by apply Hw|].
    apply list_lookup_singleton_Some in Hx as [Hz <-]. split; cbn; try done.
    rewrite Hl, wrap64_succ. do 2 f_equal. lia.
  - rewrite length_app, Hl, wrap64_succ. cbn [length]. f_equal. lia.
  - rewrite Hsc. done.
Qed.

Lemma allocate_spec cfg s now a b :
  config_ok cfg -> relay_inv cfg s -> is_bytes 32 a -> is_bytes 32 b ->
  exists s' r, allocate_endpoint cfg s now a b = Ret (s', r) /\ relay_inv cfg s' /\
    heap s `prefix_of` heap s' /\ closed s' = closed s /\ server_closed s' = server_closed s /\
    (server_closed s = true -> s' = s) /\ alloc_outcome cfg s s' a b r.
Proof.
  intros Hc Hi Ha Hb. unfold allocate_endpoint. destruct (server_closed s || closed s) eqn:Ecl.
  { exists s, (Err ServerClosed). split_and!; try done. cbn. unfold is_enabled.
    destruct (closed s), (server_closed s); done. }
  apply orb_false_iff in Ecl as [Esc Ecl].
  destruct (_ && _) eqn:Ep.
  { exists s, (Err ServerNotReady). split_and!; try done. cbn. rewrite andb_true_iff, !Nat.eqb_eq in Ep.
    destruct Ep as [E1 E2]. apply nil_length_inv in E1, E2. unfold get_all_addr_ports. by rewrite E1, E2. }
  destruct (_ || _) eqn:Ek.
  { exists s, (Err ClientEqualsServer). split_and!; try done. cbn. rewrite orb_true_iff, !bool_decide_eq_true in Ek. tauto. }
  destruct (endpoints_by_disco s !! sorted_pair a b) as [i|] eqn:Ed.
  { destruct (ri_disco _ _ Hi _ _ Ed) as (e & He & Hk & Hv). rewrite (idx_lookup _ _ _ He), run_bind_Ret.
    destruct (ri_vni _ _ Hi _ _ Hv) as (e' & He' & _ & _ & Hop). rewrite He in He'. injection He' as <-.
    do 2 eexists. split_and!; try done. exists i, e. split_and!; try done. intros; congruence. }
  destruct (get_next_vni_spec cfg s Hc (ri_next _ _ Hi)) as (v & r & -> & Hv & Hr). cbn [fst snd].
  pose proof (inv_next cfg s v Hi Hv) as Hi'. destruct r as [vni|err].
  - destruct Hr as [Fv Hvr]. do 2 eexists. split; [done|].
    destruct (sorted_pair_bytes 32 a b Ha Hb) as [K0 K1].
    split; [by apply (inv_fresh cfg (set_next_vni s v))|]. cbn [set_endpoints set_lamport set_next_vni heap closed server_closed].
    split; [by apply prefix_app_r|]. split; [done|]. split; [done|]. split; [by rewrite Esc|].
    exists (length (heap s)). eexists. split; [apply lookup_insert_eq|]. split; [apply lookup_insert_eq|].
    split; [by apply list_lookup_middle|]. by split_and!.
  - destruct Hr as [-> Hall]. exists (set_next_vni s v), (Err VniExhausted). split_and!; try done.
    intros Hx. congruence.
Qed.

(** ** Updates of endpoints *)

Lemma inv_inner cfg s i e x :
  relay_inv cfg s -> heap s !! i = Some e -> ep_closed x = ep_closed (inner e) ->
  relay_inv cfg (set_endpoints s (endpoints_by_vni s) (endpoints_by_disco s) (<[i := set_inner e x]> (heap s))).
Proof.
  intros [Hv Hd Hg Hw Hn Hl Hs Hc Hdr] He Hx.
  assert (forall j y, <[i := set_inner e x]> (heap s) !! j = Some y <->
    (j = i /\ y = set_inner e x) \/ (j <> i /\ heap s !! j = Some y)) as Hlk.
  { intros j y. destruct (decide (j = i)) as [->|Hne].
    - rewrite list_lookup_insert_eq by (by eapply lookup_lt_Some). split; [intros [= <-]; auto|].
      by intros [[_ ->]|[? _]].
    - rewrite list_lookup_insert_ne by done. split; [auto|]. by intros [[? _]|[_ ?]]. }
  split; cbn [set_endpoints mac_secrets mac_secret_rotated_at s_lamport_id next_vni endpoints_by_vni
    endpoints_by_disco server_closed closed heap]; try done.
  - intros v j E. destruct (Hv v j E) as (y & Hy & E1 & E2 & E3). destruct (decide (j = i)) as [->|Hne].
    + rewrite He in Hy. injection Hy as <-. exists (set_inner e x). rewrite Hlk. split; [by left|]. split_and!; try done.
      cbn. by rewrite Hx.
    + exists y. rewrite Hlk. split; [by right|done].
  - intros k j E. destruct (Hd k j E) as (y & Hy & E1 & E2). destruct (decide (j = i)) as [->|Hne].
    + rewrite He in Hy. injection Hy as <-. exists (set_inner e x). rewrite Hlk. split; [by left|done].
    + exists y. rewrite Hlk. split; [by right|done].
  - intros j y [[-> ->]|[Hne Hy]]%Hlk; [|by apply Hg]. cbn. rewrite Hx. by apply Hg.
  - intros j y [[-> ->]|[Hne Hy]]%Hlk; [|by apply Hw]. destruct (Hw i e He). by split.
  - by rewrite length_insert.
Qed.

Definition closed_endpoint (e : RelayEndpoint) : RelayEndpoint := set_inner e (close_inner (inner e)).

(** Closing the endpoints of [R] and dropping them from both maps. *)
Lemma inv_revoke cfg s (R : list nat) V D h :
  relay_inv cfg s -> length h = length (heap s) ->
  (forall i, h !! i = (fun e => if decide (i ∈ R) then closed_endpoint e else e) <$> heap s !! i) ->
  (forall v i, V !! v = Some i <-> endpoints_by_vni s !! v = Some i /\ (i ∉ R)) ->
  (forall k i, D !! k = Some i <-> endpoints_by_disco s !! k = Some i /\ (i ∉ R)) ->
  relay_inv cfg (set_endpoints s V D h).
Proof.
  intros [Hv Hd Hg Hw Hn Hl Hs Hc Hdr] Hlen Hh HV HD.
  split; cbn [set_endpoints mac_secrets mac_secret_rotated_at s_lamport_id next_vni endpoints_by_vni
    endpoints_by_disco server_closed closed heap]; try done.
  - intros v i [E Hni]%HV. destruct (Hv v i E) as (e & He & E1 & E2 & E3). exists e.
    rewrite Hh, He. cbn. rewrite decide_False by done. split_and!; try done. by apply HD.
  - intros k i [E Hni]%HD. destruct (Hd k i E) as (e & He & E1 & E2). exists e.
    rewrite Hh, He. cbn. rewrite decide_False by done. split_and!; try done. by apply HV.
  - intros i e. rewrite Hh. intros (x & Hx & ->)%fmap_Some. destruct (decide (i ∈ R)) as [Hin|Hin]; [by right|].
    destruct (Hg i x Hx); [left|by right]. by apply HV.
  - intros i e. rewrite Hh. intros (x & Hx & ->)%fmap_Some. destruct (Hw i x Hx). by destruct (decide (i ∈ R)).
  - by rewrite Hlen.
  - intros Hsc. destruct (Hdr Hsc) as [EV ED]. split; apply map_empty; intros x.
    + destruct (V !! x) as [i|] eqn:E; [|done]. apply HV in E as [E _]. by rewrite EV, lookup_empty in E.
    + destruct (D !! x) as [i|] eqn:E; [|done]. apply HD in E as [E _]. by rewrite ED, lookup_empty in E.
Qed.

Lemma close_at_lookup h i j :
  close_at h i !! j = (fun e => if decide (j = i) then closed_endpoint e else e) <$> h !! j.
Proof.
  unfold close_at. destruct (decide (j = i)) as [->|Hne].
  - rewrite list_lookup_alter_eq. by destruct (h !! i).
  - rewrite list_lookup_alter_ne by done. by destruct (h !! j).
Qed.

Lemma close_fold {K} (l : list (K * nat)) : forall h j,
  foldl (fun h x => close_at h x.2) h l !! j =
    (fun e => if decide (j ∈ l.*2) then closed_endpoint e else e) <$> h !! j.
Proof.
  induction l as [|[k i] l IH]; intros h j; cbn [foldl fmap list_fmap].
  { destruct (h !! j); [|done]. cbn. by rewrite decide_False by apply not_elem_of_nil. }
  rewrite IH, close_at_lookup. destruct (h !! j) as [e|]; [|done]. cbn [fmap option_fmap option_map fst snd].
  f_equal. destruct (decide (j = i)) as [->|Hne].
  - rewrite (decide_True (P := i ∈ i :: l.*2)) by left. by destruct (decide (i ∈ l.*2)).
  - destruct (decide (j ∈ l.*2)) as [Hin|Hin]; [by rewrite decide_True by by right|].
    rewrite decide_False; [done|]. by intros [?|?]%elem_of_cons.
Qed.

Lemma close_fold_length {K} (l : list (K * nat)) : forall h, length (foldl (fun h x => close_at h x.2) h l) = length h.
Proof.
  induction l as [|x l IH]; intros h; cbn [foldl]; [done|]. rewrite IH. apply length_alter.
Qed.

Lemma close_all_length s : length (close_all s) = length (heap s).
Proof. apply close_fold_length. Qed.

(** ** Draining, closing, enabling *)

Lemma all_live_closed cfg s i e :
  relay_inv cfg s -> close_all s !! i = Some e -> ep_closed (inner e) = true.
Proof.
  intros Hi. unfold close_all. rewrite close_fold. intros (x & Hx & ->)%fmap_Some.
  destruct (decide (i ∈ (map_to_list (endpoints_by_vni s)).*2)) as [Hin|Hin]; [done|].
  destruct (ri_gone _ _ Hi i x Hx) as [E|E]; [|done]. exfalso. apply Hin, list_elem_of_fmap.
  exists (r_vni x, i). split; [done|]. by apply elem_of_map_to_list.
Qed.

Lemma inv_drain cfg s (sc c : bool) t :
  relay_inv cfg s -> (c = true -> sc = true) -> (t = None \/ c = true) ->
  relay_inv cfg (set_secrets (set_endpoints (set_flags s sc c) ∅ ∅ (close_all s)) [] t).
Proof.
  intros Hi Hc Ht. assert (forall i e, close_all s !! i = Some e -> endpoint_wf cfg i e) as Hwf.
  { intros i e. unfold close_all. rewrite close_fold. intros (x & Hx & ->)%fmap_Some.
    destruct (ri_wf _ _ Hi i x Hx). by destruct (decide _). }
  assert (length (close_all s) = length (heap s)) as Hl by apply close_fold_length.
  pose proof (all_live_closed cfg s) as Hcl. pose proof Hi as [? ? ? ? Hn Hla ? ? ?].
  split; cbn [set_secrets set_endpoints set_flags mac_secrets mac_secret_rotated_at s_lamport_id next_vni
    endpoints_by_vni endpoints_by_disco server_closed closed heap]; try done.
  - intros i e Hie. right. by apply (Hcl i e).
  - by rewrite Hl.
Qed.

(** ** Garbage collection *)

Lemma delete_fold {K} `{Countable K} {X} (f : X -> K) (l : list X) : forall (m : gmap K nat) k i,
  foldl (fun m x => delete (f x) m) m l !! k = Some i <-> m !! k = Some i /\ (k ∉ f <$> l).
Proof.
  induction l as [|x l IH]; intros m k i; cbn [foldl fmap list_fmap].
  { split; [intros E; split; [done|apply not_elem_of_nil]|tauto]. }
  rewrite IH, lookup_delete_Some, not_elem_of_cons. split; [intros [[? ?] ?]|intros [? [? ?]]]; split_and!; done || congruence.
Qed.

Lemma gc_fold (h : list RelayEndpoint) (f : list Z * list Z * nat -> Z) l : forall s V D,
  (forall x, x ∈ l -> exists e, h !! x.2 = Some e /\ r_vni e = f x) ->
  foldl (fun s x =>
           match h !! x.2 with
           | Some e => set_endpoints s (delete (r_vni e) (endpoints_by_vni s)) (delete x.1 (endpoints_by_disco s)) h
           | None => s
           end) (set_endpoints s V D h) l =
  set_endpoints s (foldl (fun m x => delete (f x) m) V l) (foldl (fun m x => delete x.1 m) D l) h.
Proof.
  induction l as [|x l IH]; intros s V D Hl; cbn [foldl]; [done|].
  destruct (Hl x) as (e & -> & <-); [left|]. cbn [set_endpoints endpoints_by_vni endpoints_by_disco].
  apply (IH s). intros y Hy. apply Hl. by right.
Qed.

Lemma expired_live cfg s now x : x ∈ expired cfg s now -> endpoints_by_disco s !! x.1 = Some x.2.
Proof.
  unfold expired. intros Hx%list_elem_of_In%filter_In. destruct Hx as [Hx _].
  apply list_elem_of_In in Hx. destruct x. by apply elem_of_map_to_list.
Qed.

(** The expired pairs, identifiers and endpoints are the same ones. *)
Lemma expired_vni cfg s (l : list (list Z * list Z * nat)) v i :
  relay_inv cfg s -> (forall x, x ∈ l -> endpoints_by_disco s !! x.1 = Some x.2) ->
  endpoints_by_vni s !! v = Some i ->
  v ∈ (fun x => match heap s !! x.2 with Some e => r_vni e | None => 0 end) <$> l <-> i ∈ l.*2.
Proof.
  intros Hi Hl E. rewrite !list_elem_of_fmap. split.
  - intros (x & -> & Hx). destruct (ri_disco _ _ Hi _ _ (Hl x Hx)) as (e & He & _ & Hv). rewrite He in E.
    exists x. split; [congruence|done].
  - intros (x & -> & Hx). exists x. split; [|done]. destruct (ri_vni _ _ Hi _ _ E) as (e & He & Hv & _). by rewrite He.
Qed.

Lemma expired_pair cfg s (l : list (list Z * list Z * nat)) k i :
  relay_inv cfg s -> (forall x, x ∈ l -> endpoints_by_disco s !! x.1 = Some x.2) ->
  endpoints_by_disco s !! k = Some i -> k ∈ l.*1 <-> i ∈ l.*2.
Proof.
  intros Hi Hl E. rewrite !list_elem_of_fmap. split.
  - intros (x & -> & Hx). exists x. split; [|done]. pose proof (Hl x Hx). congruence.
  - intros (x & -> & Hx). exists x. split; [|done]. destruct (ri_disco _ _ Hi _ _ E) as (e & He & Hk & _).
    destruct (ri_disco _ _ Hi _ _ (Hl x Hx)) as (e' & He' & Hk' & _). congruence.
Qed.

Lemma gc_spec cfg s now :
  relay_inv cfg s ->
  relay_inv cfg (run_gc_once cfg s now) /\ length (heap (run_gc_once cfg s now)) = length (heap s) /\
  closed (run_gc_once cfg s now) = closed s /\ server_closed (run_gc_once cfg s now) = server_closed s /\
  (forall i e, heap (run_gc_once cfg s now) !! i = Some e ->
     exists e0, heap s !! i = Some e0 /\ (e = e0 \/ e = closed_endpoint e0)).
Proof.
  intros Hi. unfold run_gc_once. set (l := expired cfg s now). set (h := foldl _ (heap s) l).
  assert (forall i, h !! i = (fun e => if decide (i ∈ l.*2) then closed_endpoint e else e) <$> heap s !! i) as Hh
    by (intros i; apply close_fold).
  assert (length h = length (heap s)) as Hlen by apply close_fold_length.
  set (f := fun x : list Z * list Z * nat => match heap s !! x.2 with Some e => r_vni e | None => 0 end).
  assert (forall x, x ∈ l -> endpoints_by_disco s !! x.1 = Some x.2) as Hl by apply expired_live.
  cbv zeta. rewrite (gc_fold h f).
  2: { intros x Hx. destruct (ri_disco _ _ Hi _ _ (Hl x Hx)) as (e & He & _ & _). unfold f. rewrite Hh, He. cbn.
       destruct (decide _); eauto. }
  cbn [heap closed server_closed set_endpoints]. split_and!; try done.
  - apply (inv_revoke cfg s l.*2); [done|done|done| |].
    + intros v i. rewrite delete_fold. split; intros [E Hn]; (split; [done|]); contradict Hn;
        by apply (expired_vni cfg s l v i Hi Hl E).
    + intros k i. rewrite delete_fold. split; intros [E Hn]; (split; [done|]); contradict Hn;
        by apply (expired_pair cfg s l k i Hi Hl E).
  - intros i e. rewrite Hh. intros (x & Hx & ->)%fmap_Some. exists x. split; [done|].
    destruct (decide _); auto.
Qed.

(** ** Secrets *)

Lemma get_mac_secrets_spec cfg s now fresh :
  relay_inv cfg s ->
  exists s', get_mac_secrets cfg s now fresh = Ret (s', mac_secrets s') /\ relay_inv cfg s' /\
    heap s' = heap s /\ closed s' = closed s /\ server_closed s' = server_closed s /\
    (mac_secrets s' = [] -> closed s' = true).
Proof.
  intros Hi. unfold get_mac_secrets, maybe_rotate_mac_secret.
  destruct (match mac_secret_rotated_at s with
            | Some last => duration_since now last <? mac_secret_rotation_interval cfg | None => false end) eqn:Er.
  { exists s. split_and!; try done. intros E. destruct (ri_secrets _ _ Hi E) as [E'|E']; [|done]. by rewrite E' in Er. }
  assert (exists m, (if (length (mac_secrets s) =? 0)%nat then Ret (mac_secrets s ++ [fresh])
     else old ← idx (mac_secrets s) 0;
          secrets ← (if (length (mac_secrets s) <? 2)%nat then Ret (mac_secrets s ++ [old])
                     else idx_set (mac_secrets s) 1 old);
          idx_set secrets 0 fresh) = Ret m /\ m <> []) as (m & -> & Hm).
  { destruct (mac_secrets s) as [|x [|y l]]; cbn; by eexists. }
  rewrite !run_bind_Ret. eexists. split; [done|]. destruct Hi. by split_and!.
Qed.


(** ** The endpoint's handlers *)

Lemma source_returns b : returns (source b).
Proof.
  unfold source. destruct (looks_like_disco_wrapper b) eqn:E; cbn [negb]; [|by eexists].
  apply andb_true_iff in E as [E _]. apply Nat.leb_le in E. rewrite slice_ok by lia. by eexists.
Qed.

Lemma source_length b k : source b = Ret (Some k) -> (length MAGIC + KEY_LEN <= length b)%nat.
Proof.
  unfold source. destruct (looks_like_disco_wrapper b) eqn:E; cbn [negb]; [|done].
  apply andb_true_iff in E as [E _]. apply Nat.leb_le in E. lia.
Qed.

Lemma sel_keys cfg i e j : endpoint_wf cfg i e -> is_bytes 32 (sel j (disco_pub_keys e)).
Proof. intros []. by destruct j. Qed.

Lemma bind_ok_challenge cfg i e g m j :
  config_ok cfg -> endpoint_wf cfg i e -> is_u32 g -> is_bytes 32 m ->
  bind_ok {| b_vni := r_vni e; b_generation := g; remote_key := sel j (disco_pub_keys e); challenge := m |}.
Proof.
  intros Hc He Hg Hm. split; cbn; try done; [|by eapply sel_keys].
  destruct He as [Hv _ _ _ _ _], Hc. unfold is_u32, MAX_VNI in *. lia.
Qed.

Lemma handle_control_ok cfg i e from j msg secrets now nonce :
  config_ok cfg -> endpoint_wf cfg i e -> msg_ok msg -> (secrets = [] -> ep_closed (inner e) = true) ->
  exists x o, handle_disco_control_msg e from j msg (disco_public cfg) secrets now nonce = Ret (x, o) /\
    ep_closed x = ep_closed (inner e) /\ (ep_closed (inner e) = true -> o = None).
Proof.
  intros Hc He Hm Hs. unfold handle_disco_control_msg. destruct (ep_closed (inner e)) eqn:Ecl; [by do 2 eexists|].
  destruct secrets as [|s0 secrets]; [by specialize (Hs eq_refl)|].
  destruct msg as [m|m|m|m|m|m|m|m|m]; try (by do 2 eexists).
  - destruct (negb (_ =? _)); [by do 2 eexists|]. destruct (negb (bool_decide _)); [by do 2 eexists|].
    destruct (_ =? 0); [by do 2 eexists|]. cbv zeta. change (idx (s0 :: secrets) 0) with (Ret s0). rewrite run_bind_Ret.
    rewrite marshal_wire, run_bind_Ret by (eapply bind_ok_challenge; [done..|apply Hm|apply blake2s_bytes]).
    destruct (shared_seal _ _ _) as [sealed|err]; [|by do 2 eexists].
    rewrite encode_control_spec by (destruct He as [Hv _ _ _ _ _], Hc; lia). by do 2 eexists.
  - destruct (negb (_ =? _)); [by do 2 eexists|]. destruct (negb (bool_decide _)); [by do 2 eexists|].
    cbv zeta. destruct (_ || _); [by do 2 eexists|]. destruct (answer_verified _ _ _); by do 2 eexists.
Qed.

Lemma shared_open_bytes o b m : shared_open o b = Some m -> wf_bytes m.
Proof.
  unfold shared_open. destruct o as [x|]; [|done]. cbn [mbind option_bind].
  destruct (length b <? NONCE_LEN)%nat; [done|]. apply box_decrypt_bytes.
Qed.

Lemma handle_sealed_ok cfg i e from env secrets now nonce :
  config_ok cfg -> endpoint_wf cfg i e -> (secrets = [] -> ep_closed (inner e) = true) ->
  exists x o, handle_sealed_disco_control_msg e from env (disco_public cfg) secrets now nonce = Ret (x, o) /\
    ep_closed x = ep_closed (inner e) /\ (ep_closed (inner e) = true -> o = None).
Proof.
  intros Hc He Hs. unfold handle_sealed_disco_control_msg. destruct (source_returns env) as [src Es]. rewrite Es, run_bind_Ret.
  destruct src as [k|]; [|by do 2 eexists]. cbv zeta. apply source_length in Es.
  destruct (if bool_decide (k = (disco_pub_keys e).1) then Some false
            else if bool_decide (k = (disco_pub_keys e).2) then Some true else None) as [j|]; [|by do 2 eexists].
  rewrite slice_from_ok, run_bind_Ret by done. destruct (shared_open _ _) as [pt|] eqn:Eo; [|by do 2 eexists].
  apply shared_open_bytes, parse_any in Eo as (r & -> & Hr). rewrite run_bind_Ret.
  destruct r as [msg|]; [|by do 2 eexists]. by eapply handle_control_ok.
Qed.

Lemma handle_data_ok e from buf now :
  exists x o, handle_data_packet e from buf now = Ret (x, o) /\
    ep_closed x = ep_closed (inner e) /\ (ep_closed (inner e) = true -> o = None).
Proof.
  unfold handle_data_packet. cbv zeta. destruct (is_bound (inner e)) eqn:Hb; cbn [negb orb]; [|by do 2 eexists].
  destruct (ep_closed (inner e)) eqn:Ecl; [by do 2 eexists|]. unfold is_bound in Hb. apply andb_true_iff in Hb as [B0 B1].
  destruct (bool_decide _); [|destruct (bool_decide _); [|by do 2 eexists]]; cbn [sel negb count_inner bound_addr_ports].
  - destruct (bound_addr_ports (inner e)).2; [|done]. by do 2 eexists.
  - destruct (bound_addr_ports (inner e)).1; [|done]. by do 2 eexists.
Qed.

Lemma answer_verified_spec secrets from m :
  answer_verified secrets from m = true <->
  exists s, s ∈ secrets /\ challenge m = compute_mac_from_bind_msg s from m.
Proof.
  induction secrets as [|s l IH]; cbn [answer_verified].
  { split; [done|]. by intros (s & Hs%elem_of_nil & _). }
  unfold verify_mac at 1. case_bool_decide as E.
  - split; [|done]. intros _. exists s. split; [left|done].
  - rewrite IH. split; intros (x & Hx & Hm); exists x; (split; [|done]); [by right|].
    apply elem_of_cons in Hx as [->|Hx]; [congruence|done].
Qed.

(** ** Interleavings

    The server and the packets in flight.  An operation is a call of the server's
    interface, the arrival of a packet, or one step of a packet in flight. *)

Record world : Type := { srv : ServerState; flight : list pending }.

Inductive relay_op : Type :=
| OAllocate (now : Z) (a b : list Z)
| OPacket (from : SocketAddr) (buf : list Z)
| OContinue (k : nat) (now : Z) (fresh nonce : list Z)
| OGc (now : Z)
| ODrain
| OEnable
| OClose
| OStatic (ps : list SocketAddr).

Inductive relay_out : Type :=
| Allocated (r : result UdprelayError ServerEndpoint)
| Sent (buf : list Z) (to : SocketAddr)
| Nothing.

Definition out_of (r : reply) : relay_out := match r with Some (b, to) => Sent b to | None => Nothing end.

(** The packet in flight at [k] takes its next step. *)
Definition set_flight (w : world) (s : ServerState) (k : nat) (p : option pending) : world :=
  {| srv := s; flight := match p with Some p => <[k := p]> (flight w) | None => delete k (flight w) end |}.

Definition relay_exec (cfg : ServerConfig) (w : world) (o : relay_op) : run (world * relay_out) :=
  match o with
  | OAllocate now a b =>
      r ← allocate_endpoint cfg (srv w) now a b; Ret ({| srv := r.1; flight := flight w |}, Allocated r.2)
  | OPacket from buf =>
      if server_closed (srv w) then Ret (w, Nothing)
      else
        p ← start_packet (srv w) from buf;
        Ret ({| srv := srv w; flight := flight w ++ match p with Some p => [p] | None => [] end |}, Nothing)
  | OContinue k now fresh nonce =>
      match flight w !! k with
      | None => Ret (w, Nothing)
      | Some p =>
          r ← continue_packet cfg (srv w) now fresh nonce p;
          Ret (set_flight w r.1.1 k r.1.2, out_of r.2)
      end
  | OGc now => Ret ({| srv := run_gc_once cfg (srv w) now; flight := flight w |}, Nothing)
  | ODrain => Ret ({| srv := disable_and_drain (srv w); flight := flight w |}, Nothing)
  | OEnable => Ret ({| srv := enable (srv w); flight := flight w |}, Nothing)
  | OClose => Ret ({| srv := close (srv w); flight := flight w |}, Nothing)
  | OStatic ps => Ret ({| srv := set_static_addr_ports (srv w) ps; flight := flight w |}, Nothing)
  end.

Definition relay_op_ok (o : relay_op) : Prop :=
  match o with OAllocate _ a b => is_bytes 32 a /\ is_bytes 32 b | _ => True end.

Fixpoint run_relay (cfg : ServerConfig) (w : world) (ops : list relay_op) : run (world * list relay_out) :=
  match ops with
  | [] => Ret (w, [])
  | o :: ops => r ← relay_exec cfg w o; r' ← run_relay cfg r.1 ops; Ret (r'.1, r.2 :: r'.2)
  end.

Definition world_ok (cfg : ServerConfig) (w : world) : Prop :=
  relay_inv cfg (srv w) /\ Forall (pending_ok (srv w)) (flight w).

Lemma pending_mono s s' l :
  (length (heap s) <= length (heap s'))%nat -> (closed s = true -> closed s' = true) ->
  Forall (pending_ok s) l -> Forall (pending_ok s') l.
Proof.
  intros Hl Hc. apply Forall_impl. intros p [Hi Hp]. split; [lia|]. destruct p as [| |f b i [|]]; auto.
Qed.

(** When the server is closed, so is every endpoint. *)
Lemma closed_endpoints cfg s i e :
  relay_inv cfg s -> server_closed s = true -> heap s !! i = Some e -> ep_closed (inner e) = true.
Proof.
  intros Hi Hsc He. destruct (ri_gone _ _ Hi i e He) as [E|E]; [|done].
  destruct (ri_drained _ _ Hi Hsc) as [E' _]. by rewrite E', lookup_empty in E.
Qed.

Lemma start_packet_ok cfg s from buf :
  relay_inv cfg s -> exists p, start_packet s from buf = Ret p /\ Forall (pending_ok s) (match p with Some p => [p] | None => [] end).
Proof.
  intros Hi. unfold start_packet, geneve_decode. destruct (Nat.ltb_spec (length buf) GENEVE_FIXED_HEADER_LENGTH) as [|Hl].
  { by exists None. }
  unfold GENEVE_FIXED_HEADER_LENGTH in *. rewrite !idx_byte_at, !run_bind_Ret by lia.
  rewrite !idx_range_field, !run_bind_Ret, slice_from_ok, !run_bind_Ret by lia. cbn [g_vni control protocol].
  destruct (endpoints_by_vni s !! _) as [i|] eqn:E; [|by exists None].
  destruct (ri_vni _ _ Hi _ _ E) as (e & He & _). apply lookup_lt_Some in He.
  destruct (negb (_ =? 0)); [destruct (negb _)|]; eexists; (split; [done|]); repeat constructor; done.
Qed.

Lemma continue_packet_ok cfg s now fresh nonce p :
  config_ok cfg -> relay_inv cfg s -> pending_ok s p ->
  exists s' p' o, continue_packet cfg s now fresh nonce p = Ret (s', p', o) /\ relay_inv cfg s' /\
    length (heap s') = length (heap s) /\ closed s' = closed s /\ server_closed s' = server_closed s /\
    Forall (pending_ok s') (match p' with Some p => [p] | None => [] end) /\ (server_closed s = true -> o = None).
Proof.
  intros Hc Hi [Hidx Hp]. destruct p as [from buf i|from b i|from b i secrets]; cbn [continue_packet pending_index] in *.
  - destruct (lookup_lt_is_Some_2 _ _ Hidx) as [e He]. rewrite (idx_lookup _ _ _ He), run_bind_Ret.
    destruct (handle_data_ok e from buf now) as (x & o & -> & Hx & Ho). rewrite run_bind_Ret.
    do 3 eexists. split; [done|]. split; [by apply inv_inner|].
    split_and!; try done; [apply length_insert|]. intros Hsc. by apply Ho, (closed_endpoints cfg s i e).
  - destruct (get_mac_secrets_spec cfg s now fresh Hi) as (s' & -> & Hi' & Hh & Hcl & Hsc & Hsec). rewrite run_bind_Ret.
    do 3 eexists. split; [done|]. cbn [fst snd]. split_and!; try done; [by rewrite Hh|].
    constructor; [|done]. split; cbn [pending_index]; [by rewrite Hh|]. destruct (mac_secrets s') eqn:E; [|done]. by apply Hsec.
  - destruct (lookup_lt_is_Some_2 _ _ Hidx) as [e He]. rewrite (idx_lookup _ _ _ He), run_bind_Ret.
    destruct (handle_sealed_ok cfg i e from b secrets now nonce) as (x & o & -> & Hx & Ho); [done|by eapply ri_wf| |].
    { intros ->. apply (closed_endpoints cfg s i e); [done|by apply (ri_closed _ _ Hi)|done]. }
    rewrite run_bind_Ret. do 3 eexists. split; [done|]. split; [by apply inv_inner|].
    split_and!; try done; [apply length_insert|]. intros Hsc. by apply Ho, (closed_endpoints cfg s i e).
Qed.

Definition is_sent (o : relay_out) : bool := match o with Sent _ _ => true | _ => false end.
Definition is_enable (o : relay_op) : bool := match o with OEnable => true | _ => false end.

Lemma drained_closed s : server_closed (disable_and_drain s) = true /\ server_closed (close s) = true.
Proof. done. Qed.

Lemma relay_exec_ok cfg w o :
  config_ok cfg -> world_ok cfg w -> relay_op_ok o ->
  exists w' out, relay_exec cfg w o = Ret (w', out) /\ world_ok cfg w' /\
    (server_closed (srv w) = true -> is_enable o = false ->
     server_closed (srv w') = true /\ is_sent out = false).
Proof.
  intros Hc [Hi Hf] Ho. destruct o as [now a b|from buf|k now fresh nonce|now| | | |ps]; cbn [relay_exec].
  - destruct Ho as [Ha Hb]. destruct (allocate_spec cfg (srv w) now a b Hc Hi Ha Hb)
      as (s' & r & -> & Hi' & Hpre & Hcl & Hsc & _). rewrite run_bind_Ret. do 2 eexists. split; [done|]. cbn [fst snd srv].
    split; [|by rewrite Hsc]. split; [done|]. revert Hf. apply pending_mono; cbn [srv]; [by apply prefix_length|by rewrite Hcl].
  - destruct (server_closed (srv w)) eqn:Esc; [by exists w, Nothing|].
    destruct (start_packet_ok cfg (srv w) from buf Hi) as (p & -> & Hp). rewrite run_bind_Ret.
    do 2 eexists. split; [done|]. split; [|done]. split; [done|]. by apply Forall_app.
  - destruct (flight w !! k) as [p|] eqn:Ek; [|by exists w, Nothing].
    assert (pending_ok (srv w) p) as Hp by (by eapply Forall_lookup_1).
    destruct (continue_packet_ok cfg (srv w) now fresh nonce p Hc Hi Hp)
      as (s' & p' & r & -> & Hi' & Hl & Hcl & Hsc & Hp' & Hr). rewrite run_bind_Ret. do 2 eexists. split; [done|].
    cbn [fst snd set_flight srv]. split; [|intros Hs _; rewrite Hsc; split; [done|by rewrite (Hr Hs)]].
    assert (Forall (pending_ok s') (flight w)) as Hf' by (revert Hf; apply pending_mono; [lia|by rewrite Hcl]).
    split; [done|]. cbn [flight set_flight]. destruct p' as [p'|]; [|by apply Forall_delete].
    apply Forall_insert; [done|by inversion Hp'].
  - destruct (gc_spec cfg (srv w) now Hi) as (Hi' & Hl & Hcl & Hsc & _). do 2 eexists. split; [done|]. cbn [srv].
    split; [|by rewrite Hsc]. split; [done|]. revert Hf. apply pending_mono; cbn [srv]; [lia|by rewrite Hcl].
  - do 2 eexists. split; [done|]. split; [|done]. split; [by apply (inv_drain cfg (srv w) true (closed (srv w)) None); auto|].
    revert Hf. apply pending_mono; [|done].
    change (length (heap (srv w)) <= length (close_all (srv w)))%nat. by rewrite close_all_length.
  - do 2 eexists. split; [done|]. split; [|done]. unfold enable. destruct (closed (srv w)) eqn:Ec; [by split|].
    split; [|by revert Hf; apply pending_mono; cbn; rewrite ?Ec]. destruct Hi as [? ? ? ? ? ? Hs ? ?]. split; cbn; try done.
    intros E. destruct (Hs E); [by left|congruence].
  - do 2 eexists. split; [done|]. split; [|done].
    split; [by apply (inv_drain cfg (srv w) true true (mac_secret_rotated_at (srv w))); auto|].
    revert Hf. apply pending_mono; [|done].
    change (length (heap (srv w)) <= length (close_all (srv w)))%nat. by rewrite close_all_length.
  - do 2 eexists. split; [done|]. split; [|done]. destruct Hi. by split.
Qed.

Lemma run_relay_ok cfg ops : forall w,
  config_ok cfg -> world_ok cfg w -> Forall relay_op_ok ops ->
  exists w' outs, run_relay cfg w ops = Ret (w', outs) /\ world_ok cfg w' /\
    (server_closed (srv w) = true -> Forall (fun o => is_enable o = false) ops ->
     Forall (fun o => is_sent o = false) outs).
Proof.
  induction ops as [|o ops IH]; intros w Hc Hw Hops; cbn [run_relay]; [by do 2 eexists|].
  inversion_clear Hops as [|? ? Ho Hops'].
  destruct (relay_exec_ok cfg w o Hc Hw Ho) as (w1 & out & -> & Hw1 & H1). rewrite run_bind_Ret. cbn [fst snd].
  destruct (IH w1 Hc Hw1 Hops') as (w2 & outs & -> & Hw2 & H2). rewrite run_bind_Ret.
  do 2 eexists. split; [done|]. split; [done|]. intros Hsc Hen. inversion_clear Hen as [|? ? He Hen'].
  destruct (H1 Hsc He) as [Hsc1 Hs]. constructor; auto.
Qed.

Lemma run_relay_app cfg ops ops' : forall w,
  run_relay cfg w (ops ++ ops') =
  (r ← run_relay cfg w ops; r' ← run_relay cfg r.1 ops'; Ret (r'.1, r.2 ++ r'.2)).
Proof.
  induction ops as [|o ops IH]; intros w; cbn [run_relay app].
  - rewrite run_bind_Ret. cbn [fst snd app]. by destruct (run_relay cfg w ops') as [[]|].
  - destruct (relay_exec cfg w o) as [[w1 out]|]; [|done]. rewrite !run_bind_Ret. cbn [fst snd]. rewrite IH.
    destruct (run_relay cfg w1 ops) as [[w2 outs]|]; [|done]. rewrite !run_bind_Ret. cbn [fst snd].
    by destruct (run_relay cfg w2 ops') as [[]|].
Qed.

Definition world_init (cfg : ServerConfig) (advertised : SocketAddr) : world :=
  {| srv := server_init cfg advertised; flight := [] |}.

Lemma world_init_ok cfg a : config_ok cfg -> world_ok cfg (world_init cfg a).
Proof. intros []. split; [|constructor]. split; cbn; try done; auto. Qed.

(** ** Properties *)

(** C3. The relay server never panics and stays consistent: for any
    interleaving of allocations, packets arriving and being processed step by
    step, garbage collections, drains and closes, every operation returns and the
    final state satisfies [relay_inv]: the two maps index the same live
    endpoints, no two of which share an identifier or a key pair, everything
    dropped from the maps is closed, and identifiers stay in range. *)
Theorem relay_safe (cfg : ServerConfig) (advertised : SocketAddr) (ops : list relay_op) :
  config_ok cfg -> Forall relay_op_ok ops ->
  exists w outs, run_relay cfg (world_init cfg advertised) ops = Ret (w, outs) /\ relay_inv cfg (srv w).
Proof.
  intros Hc Hops. destruct (run_relay_ok cfg ops (world_init cfg advertised) Hc) as (w & outs & E & [Hi _] & _);
    [by apply world_init_ok|done|]. eauto.
Qed.


Lemma allocate_guards cfg s now a b s' ep :
  config_ok cfg -> relay_inv cfg s -> allocate_endpoint cfg s now a b = Ret (s', Ok ep) ->
  (server_closed s' || closed s') = false /\
  ((length (static_addr_ports s') =? 0)%nat && (length (dynamic_addr_ports s') =? 0)%nat) = false /\
  (bool_decide (a = disco_public cfg) || bool_decide (b = disco_public cfg)) = false.
Proof.
  intros Hc Hi. unfold allocate_endpoint. destruct (server_closed s || closed s) eqn:E1; [done|].
  destruct (_ && _) eqn:E2; [done|]. destruct (bool_decide _ || _) eqn:E3; [done|].
  destruct (endpoints_by_disco s !! _) as [i|].
  - intros E. apply run_bind_inv in E as (e & _ & [= <- _]). done.
  - destruct (get_next_vni_spec cfg s Hc (ri_next _ _ Hi)) as (v & r & -> & _ & _). cbn [fst snd].
    destruct r as [vni|]; [|done]. intros [= <- _]. done.
Qed.

(** Allocation: each outcome has its reason.  A returned endpoint is live in
    both maps, with a network identifier nobody else held; asking again, in
    either order of the two clients, returns the same endpoint; [VniExhausted]
    is returned only when every identifier of the range is taken. *)
Theorem allocation_outcomes (cfg : ServerConfig) (s : ServerState) (now now' : Z) (a b : list Z) :
  config_ok cfg -> relay_inv cfg s -> is_bytes 32 a -> is_bytes 32 b ->
  exists s' r, allocate_endpoint cfg s now a b = Ret (s', r) /\ relay_inv cfg s' /\
    alloc_outcome cfg s s' a b r /\
    forall ep, r = Ok ep -> allocate_endpoint cfg s' now' b a = Ret (s', Ok ep).
Proof.
  intros Hc Hi Ha Hb. destruct (allocate_spec cfg s now a b Hc Hi Ha Hb) as (s' & r & E & Hi' & _ & _ & _ & _ & Ho).
  exists s', r. split_and!; [done..|]. intros ep ->. destruct (allocate_guards cfg s now a b s' ep Hc Hi E) as (G1 & G2 & G3).
  destruct Ho as (i & e & Hd & _ & He & _ & -> & _). unfold allocate_endpoint.
  rewrite G1, G2, orb_comm, G3. rewrite (sorted_pair_comm b a), Hd. by rewrite (idx_lookup _ _ _ He).
Qed.

(** The handler left the endpoint as it was. *)
Ltac unchanged H := injection H as <- _; done.

(** C22. An address is bound only on proof: if handling a sealed message changes
    the bound addresses of an endpoint, the message was sealed with the shared key
    of one of its two clients, it is an answer for this endpoint, this peer and
    the generation in progress, its challenge is a MAC of the sender's address
    under one of the server's secrets, and only that client's address changes, to
    the address the message came from. *)
Theorem bind_requires_proof (e : RelayEndpoint) (from : SocketAddr) (env pub : list Z) (secrets : list (list Z))
    (now : Z) (nonce : list Z) (x : EndpointInner) (o : reply) :
  handle_sealed_disco_control_msg e from env pub secrets now nonce = Ret (x, o) ->
  bound_addr_ports x <> bound_addr_ports (inner e) ->
  exists i m pt secret,
    ep_closed (inner e) = false /\
    source env = Ret (Some (sel i (disco_pub_keys e))) /\
    shared_open (sel i (disco_shared_secrets e)) (drop (length MAGIC + KEY_LEN) env) = Some pt /\
    parse pt = Ret (Ok (MBindAnswer m)) /\
    b_vni m = r_vni e /\ remote_key m = sel (negb i) (disco_pub_keys e) /\
    b_generation m = sel i (in_progress_generation (inner e)) /\ b_generation m <> 0 /\
    secret ∈ secrets /\ challenge m = compute_mac secret (r_vni e) (b_generation m) (remote_key m) from /\
    bound_addr_ports x = upd i (bound_addr_ports (inner e)) (Some from).
Proof.
  unfold handle_sealed_disco_control_msg. intros Hh Hne.
  apply run_bind_inv in Hh as (src & Es & Hh). destruct src as [k|]; [|unchanged Hh]. cbv zeta in Hh.
  assert (forall j, (if bool_decide (k = (disco_pub_keys e).1) then Some false
    else if bool_decide (k = (disco_pub_keys e).2) then Some true else None) = Some j -> k = sel j (disco_pub_keys e)) as Hk.
  { intros j. case_bool_decide as E1; [by intros [= <-]|]. case_bool_decide as E2; [by intros [= <-]|done]. }
  destruct (if bool_decide (k = (disco_pub_keys e).1) then Some false
    else if bool_decide (k = (disco_pub_keys e).2) then Some true else None) as [i|]; [|unchanged Hh].
  specialize (Hk i eq_refl). subst k. rewrite slice_from_ok, run_bind_Ret in Hh by (by eapply source_length).
  destruct (shared_open _ _) as [pt|] eqn:Eo; [|unchanged Hh].
  apply run_bind_inv in Hh as (r & Ep & Hh). destruct r as [msg|]; [|unchanged Hh].
  unfold handle_disco_control_msg in Hh. cbv zeta in Hh. destruct (ep_closed (inner e)) eqn:Ecl; [unchanged Hh|].
  destruct msg as [m|m|m|m|m|m|m|m|m]; try (unchanged Hh).
  - exfalso. apply Hne. clear Hne. destruct (negb _); [unchanged Hh|].
    destruct (negb _); [unchanged Hh|]. destruct (_ =? 0); [unchanged Hh|].
    apply run_bind_inv in Hh as (s0 & _ & Hh). apply run_bind_inv in Hh as (mb & _ & Hh).
    destruct (shared_seal _ _ _); [|unchanged Hh]. by apply run_bind_inv in Hh as (rb & _ & [= <- _]).
  - destruct (Z.eqb_spec (b_vni m) (r_vni e)) as [Ev|]; cbn [negb] in Hh; [|unchanged Hh].
    case_bool_decide as Erk; cbn [negb] in Hh; [|unchanged Hh].
    destruct (Z.eqb_spec (sel i (in_progress_generation (inner e))) 0) as [|Eg]; cbn [orb] in Hh; [unchanged Hh|].
    destruct (Z.eqb_spec (sel i (in_progress_generation (inner e))) (b_generation m)) as [Egm|];
      cbn [negb] in Hh; [|unchanged Hh].
    destruct (answer_verified secrets from m) eqn:Ea; [|unchanged Hh]. injection Hh as <- _.
    apply answer_verified_spec in Ea as (secret & Hin & Hmac). exists i, m, pt, secret.
    unfold compute_mac_from_bind_msg in Hmac. rewrite Ev in Hmac. split_and!; try done; congruence.
Qed.

(** ** The bind handshake *)

Section handshake.
Variables (cfg : ServerConfig) (n : nat) (e : RelayEndpoint) (i : bool) (k : list Z) (gen : Z).
Hypotheses (Hc : config_ok cfg) (He : endpoint_wf cfg n e) (Hkey : derive_public k = sel i (disco_pub_keys e))
  (Hdistinct : (disco_pub_keys e).1 <> (disco_pub_keys e).2)
  (Zk : is_zero k = false) (Zpk : is_zero (derive_public k) = false)
  (Zs : is_zero (disco_private cfg) = false) (Zps : is_zero (disco_public cfg) = false)
  (Hgen : 0 < gen < 2 ^ 32)
  (Henc : forall b nonce m, is_Some (box_encrypt b nonce m)).

(** What the client and the server exchange. *)
Definition bind_common (c : list Z) : BindUdpRelayEndpointCommon :=
  {| b_vni := r_vni e; b_generation := gen; remote_key := sel (negb i) (disco_pub_keys e); challenge := c |}.

Lemma bind_common_ok c : is_bytes 32 c -> bind_ok (bind_common c).
Proof. intros Hb. eapply bind_ok_challenge; [done..| |done]. unfold is_u32. lia. Qed.

Lemma client_seals nonce pt : exists env, seal_packet k (disco_public cfg) nonce pt = Ret (Ok env).
Proof.
  unfold seal_packet, key_public, shared, shared_seal. rewrite Zk, Zps. cbn [orb ok_or mbind result_bind negb assert_run].
  destruct (Henc (box_new (disco_public cfg) k) nonce pt) as [ct ->]. by eexists.
Qed.

(** The server opens what the client seals and finds the client's index. *)
Lemma server_opens x from nonce env pt msg secrets now nonce' :
  length nonce = NONCE_LEN -> wf_bytes pt -> parse pt = Ret (Ok msg) ->
  seal_packet k (disco_public cfg) nonce pt = Ret (Ok env) ->
  handle_sealed_disco_control_msg (set_inner e x) from env (disco_public cfg) secrets now nonce' =
  handle_disco_control_msg (set_inner e x) from i msg (disco_public cfg) secrets now nonce'.
Proof.
  intros Hn Hw Hp Hs. rewrite (co_public _ Hc) in Hs at 1.
  destruct (seal_packet_inv _ _ _ _ _ Hn Hw Zs Zpk Hs) as (_ & _ & Hsrc & Hl & Ho).
  unfold handle_sealed_disco_control_msg. rewrite Hsrc, run_bind_Ret. cbv zeta. cbn [set_inner disco_pub_keys disco_shared_secrets].
  assert ((if bool_decide (derive_public k = (disco_pub_keys e).1) then Some false
    else if bool_decide (derive_public k = (disco_pub_keys e).2) then Some true else None) = Some i) as ->.
  { rewrite Hkey. destruct i; cbn [sel]; [|by rewrite bool_decide_true]. by rewrite bool_decide_false, bool_decide_true. }
  rewrite slice_from_ok, run_bind_Ret by done.
  assert (sel i (disco_shared_secrets e) = shared (disco_private cfg) (derive_public k)) as ->
    by (rewrite Hkey; destruct He; by destruct i).
  by rewrite Ho, Hp, run_bind_Ret.
Qed.

(** The client opens what the server seals. *)
Lemma client_opens nonce pt env :
  length nonce = NONCE_LEN -> wf_bytes pt ->
  seal_packet (disco_private cfg) (derive_public k) nonce pt = Ret (Ok env) ->
  open_packet k env = Ret (Some (derive_public (disco_private cfg), pt)).
Proof.
  intros Hn Hw Hs. pose proof Zps as Zps'. rewrite (co_public _ Hc) in Zps'.
  destruct (seal_packet_inv _ _ _ _ _ Hn Hw Zk Zps' Hs) as (_ & Hlk & Hsrc & Hl & Ho). by apply open_packet_eq.
Qed.

Lemma handle_bind x from c s0 secrets now nonce :
  ep_closed x = false -> length nonce = NONCE_LEN -> is_bytes 32 c ->
  exists rb env mac,
    mac = compute_mac s0 (r_vni e) gen (sel (negb i) (disco_pub_keys e)) from /\
    handle_disco_control_msg (set_inner e x) from i (MBind (bind_common c)) (disco_public cfg) (s0 :: secrets) now nonce =
      Ret (set_generation x i gen, Some (rb, from)) /\
    geneve_decode rb = Ret (Ok (geneve_new (r_vni e) GENEVE_PROTOCOL_DISCO true, env)) /\
    open_packet k env = Ret (Some (disco_public cfg, wire (MBindChallenge (bind_common mac)))).
Proof.
  intros Ecl Hn Hb. set (mac := compute_mac s0 (r_vni e) gen (sel (negb i) (disco_pub_keys e)) from).
  assert (bind_ok (bind_common mac)) as Hok by (apply bind_common_ok, blake2s_bytes).
  assert (0 <= r_vni e <= MAX_VNI) as Hv by (destruct He as [Hv _ _ _ _ _], Hc; lia).
  unfold handle_disco_control_msg. cbn [set_inner inner bind_common b_vni b_generation remote_key r_vni disco_pub_keys
    disco_shared_secrets]. cbv zeta. rewrite Ecl, Z.eqb_refl, bool_decide_true, (proj2 (Z.eqb_neq gen 0)) by (done || lia). cbn [negb].
  change (idx (s0 :: secrets) 0) with (Ret s0). rewrite run_bind_Ret. cbn [compute_mac_from_bind_msg b_vni b_generation remote_key].
  unfold compute_mac_from_bind_msg. cbn [b_vni b_generation remote_key challenge]. fold mac. fold (bind_common mac).
  rewrite marshal_wire, run_bind_Ret by done.
  assert (sel i (disco_shared_secrets e) = shared (disco_private cfg) (derive_public k)) as ->
    by (rewrite Hkey; destruct He; by destruct i).
  destruct (shared_seal (shared (disco_private cfg) (derive_public k)) nonce (wire (MBindChallenge (bind_common mac))))
    as [sealed|err] eqn:Es.
  - rewrite encode_control_spec, run_bind_Ret by done. do 3 eexists. split; [done|]. split; [done|]. split.
    + apply geneve_decode_spec, geneve_new_ok; [done|apply protocols_u16].
    + rewrite (co_public _ Hc). apply (client_opens nonce); [done|by apply (bind_wire_wf TYPE_BIND_UDP_RELAY_ENDPOINT_CHALLENGE)|].
      unfold seal_packet, key_public. by rewrite Zs, Zpk, Es.
  - exfalso. unfold shared_seal, shared in Es. rewrite Zs, Zpk in Es. cbn [orb ok_or mbind result_bind] in Es.
    destruct (Henc (box_new (derive_public k) (disco_private cfg)) nonce (wire (MBindChallenge (bind_common mac)))) as [ct Ect].
    by rewrite Ect in Es.
Qed.

Lemma handle_answer x from c s0 secrets now nonce :
  ep_closed x = false -> s0 ∈ secrets ->
  c = compute_mac s0 (r_vni e) gen (sel (negb i) (disco_pub_keys e)) from ->
  sel i (in_progress_generation x) = gen ->
  handle_disco_control_msg (set_inner e x) from i (MBindAnswer (bind_common c)) (disco_public cfg) secrets now nonce =
    Ret (bind_inner x i from now, None).
Proof.
  intros Ecl Hin -> Hg. unfold handle_disco_control_msg. cbv zeta.
  cbn [set_inner inner bind_common b_vni b_generation remote_key r_vni disco_pub_keys].
  rewrite Ecl, Z.eqb_refl, bool_decide_true by done. cbn [negb]. rewrite Hg, Z.eqb_refl, (proj2 (Z.eqb_neq gen 0)) by lia.
  cbn [orb negb]. rewrite (proj2 (answer_verified_spec secrets from _)); [done|]. by exists s0.
Qed.

(** C25. The handshake completes: for an open endpoint and either of its clients,
    the server answers the client's bind with a challenge that the client can
    open, and the answer carrying it back from the same address binds that
    address, also when the server's secret has been rotated in between but is
    still kept. *)
Theorem handshake_binds (from : SocketAddr) (c n1 n2 n3 s0 : list Z) (secrets secrets' : list (list Z)) (now now' : Z) :
  ep_closed (inner e) = false -> is_bytes 32 c ->
  length n1 = NONCE_LEN -> length n2 = NONCE_LEN -> length n3 = NONCE_LEN -> s0 ∈ secrets' ->
  exists env1 ep1 rb env2 mac env3 ep2,
    seal_packet k (disco_public cfg) n1 (wire (MBind (bind_common c))) = Ret (Ok env1) /\
    handle_sealed_disco_control_msg e from env1 (disco_public cfg) (s0 :: secrets) now n2 = Ret (ep1, Some (rb, from)) /\
    geneve_decode rb = Ret (Ok (geneve_new (r_vni e) GENEVE_PROTOCOL_DISCO true, env2)) /\
    open_packet k env2 = Ret (Some (disco_public cfg, wire (MBindChallenge (bind_common mac)))) /\
    seal_packet k (disco_public cfg) n3 (wire (MBindAnswer (bind_common mac))) = Ret (Ok env3) /\
    handle_sealed_disco_control_msg (set_inner e ep1) from env3 (disco_public cfg) secrets' now' n2 = Ret (ep2, None) /\
    sel i (bound_addr_ports ep2) = Some from.
Proof.
  intros Ecl Hb L1 L2 L3 Hin. destruct (client_seals n1 (wire (MBind (bind_common c)))) as [env1 E1].
  destruct (handle_bind (inner e) from c s0 secrets now n2 Ecl L2 Hb) as (rb & env2 & mac & Hmac & Hh & Hg & Ho).
  destruct (client_seals n3 (wire (MBindAnswer (bind_common mac)))) as [env3 E3].
  assert (is_bytes 32 mac) as Hm by (rewrite Hmac; apply blake2s_bytes).
  pose proof (bind_common_ok c Hb) as Hok1. pose proof (bind_common_ok mac Hm) as Hok3.
  exists env1, (set_generation (inner e) i gen), rb, env2, mac, env3, (bind_inner (set_generation (inner e) i gen) i from now').
  split; [done|]. split.
  { assert (set_inner e (inner e) = e) as Ee by (by destruct e).
    assert (wf_bytes (wire (MBind (bind_common c)))) as Hw by (by apply (bind_wire_wf TYPE_BIND_UDP_RELAY_ENDPOINT)).
    pose proof (server_opens (inner e) from n1 env1 _ (MBind (bind_common c)) (s0 :: secrets) now n2 L1 Hw
      (parse_wire (MBind (bind_common c)) Hok1) E1) as Hopen.
    by rewrite Hh, Ee in Hopen. }
  split; [done|]. split; [done|]. split; [done|]. split.
  - rewrite (server_opens _ from n3 env3 (wire (MBindAnswer (bind_common mac))) (MBindAnswer (bind_common mac))); [|done| | |done].
    + apply (handle_answer _ from mac s0); [done|done|done|by destruct i].
    + by apply (bind_wire_wf TYPE_BIND_UDP_RELAY_ENDPOINT_ANSWER).
    + by rewrite parse_wire.
  - by destruct i.
Qed.

End handshake.

(** Data travels only between the two bound addresses: an open, fully bound
    endpoint sends a packet that comes from one of them, unchanged, to the other;
    in every other case nothing is sent, and the bindings never change. *)
Theorem data_forwarded (e : RelayEndpoint) (from : SocketAddr) (buf : list Z) (now : Z) :
  exists x o, handle_data_packet e from buf now = Ret (x, o) /\
    bound_addr_ports x = bound_addr_ports (inner e) /\
    forall b to, o = Some (b, to) <->
      b = buf /\ ep_closed (inner e) = false /\
      exists i, sel i (bound_addr_ports (inner e)) = Some from /\
        sel (negb i) (bound_addr_ports (inner e)) = Some to /\
        (i = true -> (bound_addr_ports (inner e)).1 <> Some from).
Proof.
  unfold handle_data_packet, is_bound. cbv zeta. destruct (inner e) as [cl g [b0 b1] ls pk by_]. cbn [bound_addr_ports ep_closed fst snd].
  destruct b0 as [a0|], b1 as [a1|]; cbn [is_some andb negb orb].
  2-4: do 2 eexists; (split; [done|]); (split; [done|]); intros b to; (split; [done|]);
       intros (_ & _ & [] & H1 & H2 & _); cbn in *; done.
  destruct cl; [do 2 eexists; do 2 (split; [done|]); intros b to; split; [done|by intros (_ & ? & _)]|].
  case_bool_decide as E0; [injection E0 as <-|case_bool_decide as E1; [injection E1 as <-|]];
    cbn [count_inner bound_addr_ports sel negb fst snd expect]; rewrite ?run_bind_Ret;
    do 2 eexists; do 2 (split; [done|]); intros b to.
  - split; [intros [= <- <-]; do 2 (split; [done|]); by exists false|].
    intros (-> & _ & [] & H1 & H2 & H3); cbn in *; [by specialize (H3 eq_refl)|congruence].
  - split; [intros [= <- <-]; do 2 (split; [done|]); exists true; split_and!; [done..|congruence]|].
    intros (-> & _ & [] & H1 & H2 & H3); cbn in *; congruence.
  - split; [done|]. intros (-> & _ & [] & H1 & H2 & H3); cbn in *; congruence.
Qed.

End relay.

(** ** Instances *)

#[local] Existing Instance demo_box.
#[local] Existing Instance demo_box_laws.
#[local] Instance demo_blake : Blake2s := {| blake2s_mac := fun k x => replicate 32 ((sum_list k + sum_list x) mod 256) |}.

#[local] Instance demo_blake_laws : Blake2sLaws.
Proof.
  split. intros k x. split; [|done]. apply Forall_replicate. unfold is_u8. apply Z.mod_pos_bound. lia.
Qed.

Definition demo_config : ServerConfig :=
  {| disco_private := replicate 32 3; disco_public := derive_public (replicate 32 3); c_bind_lifetime := 30;
     c_steady_state_lifetime := 300; mac_secret_rotation_interval := 120; min_vni := 1; max_vni := 2 |}.
Definition demo_addr (x : Z) : SocketAddr := {| ip := V4 [127; 0; 0; x]; port := 7 |}.
Definition demo_a : list Z := derive_public (replicate 32 5).
Definition demo_b : list Z := derive_public (replicate 32 6).
(** One allocation, a data packet in flight, a collection and a drain. *)
Definition demo_ops : list relay_op :=
  [OAllocate 0 demo_a demo_b; OPacket (demo_addr 9) [0; 0; 122; 18; 0; 0; 1; 0; 42]; OGc 10].

Lemma demo_config_ok : config_ok demo_config.
Proof. by split. Qed.
Lemma demo_keys : is_bytes 32 demo_a /\ is_bytes 32 demo_b.
Proof. split; (split; [apply (bool_decide_unpack _); vm_compute; exact I|reflexivity]). Qed.
Lemma demo_ops_ok : Forall relay_op_ok demo_ops.
Proof. constructor; [exact demo_keys|]. repeat constructor. Qed.

Lemma relay_safe_witness :
  exists w outs, run_relay demo_config (world_init demo_config (demo_addr 1)) demo_ops = Ret (w, outs) /\
    relay_inv demo_config (srv w).
Proof. exact (relay_safe demo_config (demo_addr 1) demo_ops demo_config_ok demo_ops_ok). Defined.


Lemma allocation_outcomes_witness :
  exists s' ep, allocate_endpoint demo_config (server_init demo_config (demo_addr 1)) 0 demo_b demo_a = Ret (s', Ok ep) /\
    allocate_endpoint demo_config s' 5 demo_a demo_b = Ret (s', Ok ep) /\ se_vni ep = 1.
Proof.
  destruct demo_keys as [Ka Kb].
  destruct (allocation_outcomes demo_config (server_init demo_config (demo_addr 1)) 0 5 demo_b demo_a
    demo_config_ok (proj1 (world_init_ok demo_config (demo_addr 1) demo_config_ok)) Kb Ka) as (s' & r & E & _ & _ & H).
  assert (match allocate_endpoint demo_config (server_init demo_config (demo_addr 1)) 0 demo_b demo_a with
          | Ret (_, Ok ep) => se_vni ep =? 1 | _ => false end = true) as Hv by (vm_compute; reflexivity).
  rewrite E in Hv. exists s'. destruct r as [ep|err]; [|discriminate Hv]. exists ep. split; [exact E|].
  split; [exact (H ep eq_refl)|]. apply Z.eqb_eq. exact Hv.
Defined.

(** An endpoint of the two demo clients. *)
Definition demo_endpoint : RelayEndpoint :=
  relay_new (sorted_pair demo_a demo_b) 1 1 0 (disco_private demo_config).

Lemma demo_endpoint_wf : endpoint_wf demo_config 0 demo_endpoint.
Proof.
  destruct demo_keys as [Ka Kb]. destruct (sorted_pair_bytes 32 _ _ Ka Kb) as [H0 H1].
  split; try done; try (exact H0); exact H1.
Qed.

Lemma handshake_binds_witness :
  exists env1 ep1 rb env2 mac env3 ep2,
    let common := bind_common demo_endpoint false 77 in
    seal_packet (replicate 32 5) (disco_public demo_config) (replicate 24 1) (wire (MBind (common (replicate 32 0)))) =
      Ret (Ok env1) /\
    handle_sealed_disco_control_msg demo_endpoint (demo_addr 9) env1 (disco_public demo_config) [replicate 32 8] 5
      (replicate 24 2) = Ret (ep1, Some (rb, demo_addr 9)) /\
    geneve_decode rb = Ret (Ok (geneve_new 1 GENEVE_PROTOCOL_DISCO true, env2)) /\
    open_packet (replicate 32 5) env2 = Ret (Some (disco_public demo_config, wire (MBindChallenge (common mac)))) /\
    seal_packet (replicate 32 5) (disco_public demo_config) (replicate 24 3) (wire (MBindAnswer (common mac))) =
      Ret (Ok env3) /\
    handle_sealed_disco_control_msg (set_inner demo_endpoint ep1) (demo_addr 9) env3 (disco_public demo_config)
      [replicate 32 9; replicate 32 8] 6 (replicate 24 2) = Ret (ep2, None) /\
    (bound_addr_ports ep2).1 = Some (demo_addr 9).
Proof.
  refine (handshake_binds demo_config 0 demo_endpoint false (replicate 32 5) 77 demo_config_ok demo_endpoint_wf
    _ _ _ _ _ _ _ _ (demo_addr 9) (replicate 32 0) (replicate 24 1) (replicate 24 2) (replicate 24 3) (replicate 32 8)
    [] [replicate 32 9; replicate 32 8] 5 6 _ _ _ _ _ _).
  - vm_compute. reflexivity.
  - vm_compute. discriminate.
  - reflexivity.
  - reflexivity.
  - reflexivity.
  - reflexivity.
  - split; reflexivity.
  - intros b nonce m. eexists. reflexivity.
  - reflexivity.
  - split; [apply (bool_decide_unpack _); vm_compute; exact I|reflexivity].
  - reflexivity.
  - reflexivity.
  - reflexivity.
  - right. left.
Defined.

(** The endpoint with the first client's handshake in progress. *)
Definition demo_started : RelayEndpoint := set_inner demo_endpoint (set_generation (inner demo_endpoint) false 77).

Lemma demo_answer :
  exists env x,
    handle_sealed_disco_control_msg demo_started (demo_addr 9) env (disco_public demo_config) [replicate 32 8] 6
      [] = Ret (x, None) /\ bound_addr_ports x = (Some (demo_addr 9), None).
Proof.
  assert (derive_public (replicate 32 5) = sel false (disco_pub_keys demo_endpoint)) as Hk by (vm_compute; reflexivity).
  assert ((disco_pub_keys demo_endpoint).1 <> (disco_pub_keys demo_endpoint).2) as Hd by (vm_compute; discriminate).
  pose (c := compute_mac (replicate 32 8) 1 77 (disco_pub_keys demo_endpoint).2 (demo_addr 9)).
  assert (is_bytes 32 c) as Hc by apply blake2s_bytes.
  assert (0 < 77 < 2 ^ 32) as Hg by lia.
  pose proof (bind_common_ok demo_config 0 demo_endpoint false 77 demo_config_ok demo_endpoint_wf Hg c Hc) as Hok.
  destruct (client_seals demo_config (replicate 32 5) eq_refl eq_refl ltac:(by eexists) (replicate 24 3)
    (wire (MBindAnswer (bind_common demo_endpoint false 77 c)))) as [env E].
  exists env, (bind_inner (set_generation (inner demo_endpoint) false 77) false (demo_addr 9) 6). split; [|reflexivity].
  unfold demo_started. rewrite (server_opens demo_config 0 demo_endpoint false (replicate 32 5) demo_config_ok demo_endpoint_wf Hk Hd
    eq_refl eq_refl _ (demo_addr 9) (replicate 24 3) env _ (MBindAnswer (bind_common demo_endpoint false 77 c)) _ _ _
    eq_refl (bind_wire_wf TYPE_BIND_UDP_RELAY_ENDPOINT_ANSWER _ ltac:(done) Hok) (parse_wire (MBindAnswer (bind_common demo_endpoint false 77 c)) Hok) E).
  apply (handle_answer demo_config demo_endpoint false 77 Hg _ (demo_addr 9) c (replicate 32 8));
    [reflexivity|left|reflexivity|reflexivity].
Qed.

Lemma bind_requires_proof_witness :
  exists env i m pt secret,
    shared_open (sel i (disco_shared_secrets demo_started)) (drop (length MAGIC + KEY_LEN) env) = Some pt /\
    parse pt = Ret (Ok (MBindAnswer m)) /\
    challenge m = compute_mac secret (r_vni demo_started) (b_generation m) (remote_key m) (demo_addr 9).
Proof.
  destruct demo_answer as (env & x & E & Hx).
  destruct (bind_requires_proof demo_started (demo_addr 9) env _ _ _ _ x None E)
    as (i & m & pt & secret & _ & _ & Ho & Hp & _ & _ & _ & _ & _ & Hc & _).
  - rewrite Hx. discriminate.
  - exists env, i, m, pt, secret. split; [exact Ho|]. split; [exact Hp|exact Hc].
Defined.
