(* ===== verification/Checksum.v ===== *)
(** * The Internet checksum: [crates/tun/src/offload.rs]

    The code sums a buffer in native 64-bit words over four independent lanes
    with end-around carries, and converts at the boundaries so that the result
    is in network byte order on either kind of machine.  It is proved equal to
    the two-bytes-at-a-time sum of RFC 1071.  One's-complement sums are congruent
    modulo 65535, and zero only when every summand is: [carries] states both. *)

From Stdlib Require Import Morphisms.
From S2P Require Import Prelude Bytes.

(** ** Native-endian integers *)

Section native.
(** Whether the target is little-endian. *)
Variable little : bool.

Definition from_ne_bytes (l : list Z) : Z := from_be_bytes (if little then rev l else l).
Definition to_ne_bytes (n : nat) (z : Z) : list Z :=
  if little then rev (to_be_bytes n z) else to_be_bytes n z.

(** ** The code *)

(** [add_word]: addition with an end-around carry. *)
Definition add_word (sum word : Z) : Z :=
  let next := wrap64 (sum + word) in
  let first_carry := if 2 ^ 64 <=? sum + word then 1 else 0 in
  wrap64 (next + first_carry).

(** [native_u64]. *)
Definition native_u64 (data : list Z) : Z := from_ne_bytes (take 8 data).

(** The loop over 32-byte stripes, with its four lanes. *)
Fixpoint stripe_loop (fuel : nat) (data : list Z) (l0 l1 l2 l3 : Z) : list Z * list Z :=
  match fuel with
  | O => ([l0; l1; l2; l3], data)
  | S fuel =>
      if (32 <=? length data)%nat then
        stripe_loop fuel (drop 32 data)
          (add_word l0 (native_u64 data)) (add_word l1 (native_u64 (drop 8 data)))
          (add_word l2 (native_u64 (drop 16 data))) (add_word l3 (native_u64 (drop 24 data)))
      else ([l0; l1; l2; l3], data)
  end.

(** The loop over 8-byte words. *)
Fixpoint word_loop (fuel : nat) (data : list Z) (sum : Z) : Z * list Z :=
  match fuel with
  | O => (sum, data)
  | S fuel =>
      if (8 <=? length data)%nat then word_loop fuel (drop 8 data) (add_word sum (native_u64 data))
      else (sum, data)
  end.

(** The tail of [n] bytes, when there is one. *)
Definition tail_word (n : nat) (p : Z * list Z) : Z * list Z :=
  let '(sum, data) := p in
  if (n <=? length data)%nat then (add_word sum (from_ne_bytes (take n data)), drop n data) else (sum, data).

(** [checksum_accumulate]; every slice is guarded by the length test before it. *)
Definition checksum_accumulate (data : list Z) (sum : Z) : Z :=
  let '(lanes, data) := stripe_loop (length data) data 0 0 0 0 in
  let sum := foldl add_word sum lanes in
  let '(sum, data) := tail_word 2 (tail_word 4 (word_loop (length data) data sum)) in
  match data with
  | [byte] => add_word sum (from_ne_bytes [byte; 0])
  | _ => sum
  end.

(** [checksum_initial]. *)
Definition checksum_initial (initial : Z) : Z := from_be_bytes (to_ne_bytes 8 initial).

(** The [while] loop of [checksum_fold]. *)
Fixpoint fold_loop (fuel : nat) (sum : Z) : Z :=
  match fuel with
  | O => sum
  | S fuel =>
      if Z.shiftr sum 16 =? 0 then sum
      else fold_loop fuel (Z.land sum 0xffff + Z.shiftr sum 16)
  end.
(** [checksum_fold]. *)
Definition checksum_fold (sum : Z) : Z := wrap16 (fold_loop 6 (from_ne_bytes (to_be_bytes 8 sum))).

(** [checksum]. *)
Definition checksum (data : list Z) (initial : Z) : Z :=
  checksum_fold (checksum_accumulate data (checksum_initial initial)).

(** [pseudo]. *)
Definition pseudo (protocol : Z) (src dst : list Z) (len : Z) : Z :=
  let sum := checksum_accumulate src (checksum_initial 0) in
  let sum := checksum_accumulate dst sum in
  let sum := checksum_accumulate [0; protocol] sum in
  checksum_fold (checksum_accumulate (to_be_bytes 2 len) sum).

End native.

(** [!x] on [u16]. *)
Definition not16 (x : Z) : Z := 65535 - x.

(** ** The reference *)

(** The sum of the big-endian 16-bit words of a buffer, an odd last byte being
    the high half of a word. *)
Fixpoint be_sum (l : list Z) : Z :=
  match l with
  | a :: b :: l => a * 256 + b + be_sum l
  | [a] => a * 256
  | [] => 0
  end.

(** [scalar_checksum] of the tests, on [u32]. *)
Definition scalar_checksum (data : list Z) (initial : Z) : Z :=
  wrap16 (fold_loop 6 (wrap32 (initial + be_sum data))).

(** The representative of a sum in one's-complement arithmetic. *)
Definition ones_sum (n : Z) : Z := if n =? 0 then 0 else (n - 1) mod 65535 + 1.

(** ** Congruence modulo 65535 *)

Definition cong (a b : Z) : Prop := a mod 65535 = b mod 65535.
Infix "≈" := cong (at level 70).

#[global] Instance cong_equiv : Equivalence cong.
Proof. split; unfold cong; [done|by intros ? ? ->|by intros ? ? ? -> ->]. Qed.
#[global] Instance cong_add : Proper (cong ==> cong ==> cong) Z.add.
Proof. unfold cong. intros a b H c d H'. by rewrite Zplus_mod, H, H', <- Zplus_mod. Qed.
#[global] Instance cong_mul : Proper (cong ==> cong ==> cong) Z.mul.
Proof. unfold cong. intros a b H c d H'. by rewrite Zmult_mod, H, H', <- Zmult_mod. Qed.

Lemma cong_multiple a b k : a = b + k * 65535 -> a ≈ b.
Proof. intros ->. unfold cong. by rewrite Z.mod_add. Qed.

Lemma cong_65536 a : 65536 * a ≈ a.
Proof. apply (cong_multiple _ _ a). lia. Qed.

(** [s] is [n] up to end-around carries. *)
Definition carries (s n : Z) : Prop := 0 <= s < 2 ^ 64 /\ 0 <= n /\ s ≈ n /\ (s = 0 <-> n = 0).

Lemma ones_sum_unique r n :
  0 <= r < 65536 -> 0 <= n -> r ≈ n -> (r = 0 <-> n = 0) -> r = ones_sum n.
Proof.
  intros Hr Hn Hc Hz. unfold ones_sum, cong in *. destruct (Z.eqb_spec n 0) as [->|Hn0]; [by apply Hz|].
  assert (r <> 0) by tauto. clear Hz. Z.div_mod_to_equations. lia.
Qed.

Lemma ones_sum_spec n : 0 <= n -> 0 <= ones_sum n < 65536 /\ ones_sum n ≈ n /\ (ones_sum n = 0 <-> n = 0).
Proof.
  intros Hn. unfold ones_sum, cong. destruct (Z.eqb_spec n 0) as [->|Hn0]; [done|].
  Z.div_mod_to_equations. lia.
Qed.

Lemma ones_sum_cong n m : 0 <= n -> 0 <= m -> n ≈ m -> (n = 0 <-> m = 0) -> ones_sum n = ones_sum m.
Proof.
  intros Hn Hm Hc Hz. destruct (ones_sum_spec n Hn) as (B & C & Z0).
  apply ones_sum_unique; [done|done|by rewrite C|tauto].
Qed.

(** A one's-complement sum completed by its complement is all ones. *)
Lemma ones_sum_complement n : 0 <= n -> ones_sum (n + not16 (ones_sum n)) = 65535.
Proof.
  intros Hn. destruct (ones_sum_spec n Hn) as (B & C & Z0). unfold cong in *. unfold not16, ones_sum at 1.
  destruct (Z.eqb_spec (n + (65535 - ones_sum n)) 0); [lia|]. Z.div_mod_to_equations. lia.
Qed.

Lemma carries_add s w n m : carries s n -> carries w m -> carries (add_word s w) (n + m).
Proof.
  intros (Hs & Hn & Cs & Zs) (Hw & Hm & Cw & Zw). unfold add_word, wrap64.
  destruct (Z.leb_spec (2 ^ 64) (s + w)) as [H|H].
  - replace ((s + w) mod 2 ^ 64) with (s + w - 2 ^ 64) by (apply Zmod_unique with 1; lia).
    rewrite Z.mod_small by lia. split; [lia|]. split; [lia|]. split; [|lia].
    rewrite <- Cs, <- Cw. apply (cong_multiple _ _ (-281479271743489)). lia.
  - rewrite !(Z.mod_small (s + w)), Z.add_0_r, Z.mod_small by lia.
    split; [lia|]. split; [lia|]. split; [by rewrite <- Cs, <- Cw|lia].
Qed.

(** ** Sums of words *)

Lemma wf_bytes_cons a l : wf_bytes (a :: l) -> is_u8 a /\ wf_bytes l.
Proof. intros H. by inversion H. Qed.

Ltac wf_cons :=
  repeat match goal with H : wf_bytes (_ :: _) |- _ => apply wf_bytes_cons in H as [? ?] end; unfold is_u8 in *.

Lemma pair_ind {A} (P : list A -> Prop) :
  P [] -> (forall a, P [a]) -> (forall a b l, P l -> P (a :: b :: l)) -> forall l, P l.
Proof.
  intros H0 H1 H2. fix IH 1. intros [|a [|b l]]; [done|done|]. apply H2, IH.
Qed.

Lemma be_sum_nonneg l : wf_bytes l -> 0 <= be_sum l.
Proof.
  induction l as [|a|a b l IH] using pair_ind; cbn [be_sum]; intros H; [lia|..]; wf_cons; [lia|].
  specialize (IH ltac:(done)). lia.
Qed.

Lemma be_sum_app l1 l2 : Nat.Even (length l1) -> be_sum (l1 ++ l2) = be_sum l1 + be_sum l2.
Proof.
  induction l1 as [|a|a b l IH] using pair_ind; cbn [be_sum app length]; intros [k Hk]; [done|lia|].
  rewrite IH; [lia|]. exists (k - 1)%nat. lia.
Qed.

Lemma pow256_even k : 256 ^ Z.of_nat (2 * k) ≈ 1.
Proof.
  rewrite Nat2Z.inj_mul, Z.pow_mul_r by lia. change (256 ^ Z.of_nat 2) with 65536.
  induction k as [|k IH]; [done|]. rewrite Nat2Z.inj_succ, Z.pow_succ_r by lia. by rewrite cong_65536.
Qed.

(** A big-endian number is congruent to the sum of its words. *)
Lemma from_be_cong l : Nat.Even (length l) -> from_be_bytes l ≈ be_sum l.
Proof.
  induction l as [|a|a b l IH] using pair_ind; cbn [be_sum from_be_bytes length]; intros [k Hk]; [done|lia|].
  assert (length l = 2 * (k - 1))%nat as E by lia. specialize (IH (ex_intro _ _ E)).
  change (a * 256 ^ Z.of_nat (S (length l)) + (b * 256 ^ Z.of_nat (length l) + from_be_bytes l) ≈ a * 256 + b + be_sum l).
  rewrite IH, pow256_succ, E, pow256_even. apply (cong_multiple _ _ 0). lia.
Qed.

Lemma from_be_bytes_snoc2 l a b : from_be_bytes (l ++ [a; b]) = 65536 * from_be_bytes l + (a * 256 + b).
Proof.
  induction l as [|x l IH]; cbn [app from_be_bytes]; [cbn; lia|]. rewrite IH, length_app. cbn [length].
  rewrite Nat.add_comm. change (2 + length l)%nat with (S (S (length l))). rewrite !pow256_succ. lia.
Qed.

(** The byte order of a native word, as a factor. *)
Definition endian (little : bool) : Z := if little then 256 else 1.

Lemma endian_square little : endian little * endian little ≈ 1.
Proof. by destruct little. Qed.

Lemma from_ne_cong little l : Nat.Even (length l) -> from_ne_bytes little l ≈ endian little * be_sum l.
Proof.
  intros He. destruct little; unfold from_ne_bytes, endian; [|rewrite Z.mul_1_l; by apply from_be_cong].
  induction l as [|a|a b l IH] using pair_ind; cbn [be_sum rev length] in *; destruct He as [k Hk]; [done|lia|].
  rewrite <- app_assoc. cbn [app]. rewrite from_be_bytes_snoc2, cong_65536, IH by (exists (k - 1)%nat; lia).
  apply (cong_multiple _ _ (- a)). lia.
Qed.

Lemma from_be_zero l : wf_bytes l -> from_be_bytes l = 0 <-> Forall (eq 0) l.
Proof.
  induction l as [|a l IH]; cbn [from_be_bytes]; intros H; [by split; [constructor|]|].
  apply wf_bytes_cons in H as [Ha Hl]. pose proof (from_be_bytes_bound l Hl). pose proof (pow256_pos (length l)).
  rewrite list.Forall_cons, <- IH by done. unfold is_u8 in Ha. nia.
Qed.

Lemma be_sum_zero l : wf_bytes l -> be_sum l = 0 <-> Forall (eq 0) l.
Proof.
  induction l as [|a|a b l IH] using pair_ind; cbn [be_sum]; intros H; wf_cons.
  - by split; [constructor|].
  - rewrite list.Forall_cons, list.Forall_nil. lia.
  - rewrite !list.Forall_cons, <- IH by done. pose proof (be_sum_nonneg l ltac:(done)). lia.
Qed.

Lemma from_ne_zero little l : wf_bytes l -> from_ne_bytes little l = 0 <-> be_sum l = 0.
Proof.
  intros H. rewrite be_sum_zero by done. unfold from_ne_bytes. destruct little; [|by apply from_be_zero].
  rewrite from_be_zero by (by apply Forall_rev). split; intros Hr; [rewrite <- (rev_involutive l)|]; by apply Forall_rev.
Qed.

(** Multiples of the byte-order factor. *)
Lemma endian_pos little : 0 < endian little.
Proof. by destruct little. Qed.

Lemma from_ne_bound little l : wf_bytes l -> 0 <= from_ne_bytes little l < 256 ^ Z.of_nat (length l).
Proof.
  intros Hl. unfold from_ne_bytes. destruct little; [|by apply from_be_bytes_bound].
  rewrite <- (length_rev l). apply from_be_bytes_bound. by apply Forall_rev.
Qed.

(** A native word carries the sum of its 16-bit words. *)
Lemma carries_native little l :
  wf_bytes l -> Nat.Even (length l) -> (length l <= 8)%nat ->
  carries (from_ne_bytes little l) (endian little * be_sum l).
Proof.
  intros Hl He Hn. pose proof (from_ne_bound little l Hl) as Hb.
  assert (256 ^ Z.of_nat (length l) <= 256 ^ 8) by (apply Z.pow_le_mono_r; lia).
  pose proof (endian_pos little). pose proof (be_sum_nonneg l Hl). pose proof (from_ne_zero little l Hl).
  split; [lia|]. split; [nia|]. split; [by apply from_ne_cong|nia].
Qed.

(** ** The accumulator *)

Section accumulate.
Variable little : bool.

(** What is still to be summed of [data], in native byte order. *)
#[local] Abbreviation todo data := (endian little * be_sum data).

Lemma todo_split n data :
  Nat.Even n -> (n <= length data)%nat -> todo data = todo (take n data) + todo (drop n data).
Proof.
  intros He Hn. rewrite <- (take_drop n data) at 1. rewrite be_sum_app; [lia|]. by rewrite length_take_le.
Qed.

(** Adding the first [n] bytes of [data] as one word. *)
Lemma carries_word n data s m :
  wf_bytes data -> carries s m -> Nat.Even n -> (n <= 8)%nat -> (n <= length data)%nat ->
  exists m', carries (add_word s (from_ne_bytes little (take n data))) m' /\
    m' + todo (drop n data) = m + todo data.
Proof.
  intros Hw Hs He H8 Hn. exists (m + todo (take n data)). split; [|rewrite (todo_split n data) by done; lia].
  apply carries_add; [done|]. apply carries_native; rewrite ?length_take_le by done; auto with wf.
Qed.

Lemma stripe_loop_spec fuel : forall data l0 l1 l2 l3 m0 m1 m2 m3,
  wf_bytes data -> carries l0 m0 -> carries l1 m1 -> carries l2 m2 -> carries l3 m3 ->
  exists k0 k1 k2 k3 n0 n1 n2 n3 rest,
    stripe_loop little fuel data l0 l1 l2 l3 = ([k0; k1; k2; k3], rest) /\ wf_bytes rest /\
    carries k0 n0 /\ carries k1 n1 /\ carries k2 n2 /\ carries k3 n3 /\
    n0 + n1 + n2 + n3 + todo rest = m0 + m1 + m2 + m3 + todo data.
Proof.
  induction fuel as [|fuel IH]; intros data l0 l1 l2 l3 m0 m1 m2 m3 Hw H0 H1 H2 H3; cbn [stripe_loop].
  { exists l0, l1, l2, l3, m0, m1, m2, m3, data. by split_and!. }
  destruct (Nat.leb_spec 32 (length data)) as [Hl|_].
  2: { exists l0, l1, l2, l3, m0, m1, m2, m3, data. by split_and!. }
  assert (Nat.Even 8) as He by by exists 4%nat.
  destruct (carries_word 8 data l0 m0) as (p0 & P0 & E0); [done..|lia|lia|].
  destruct (carries_word 8 (drop 8 data) l1 m1) as (p1 & P1 & E1); [by auto with wf|done..|lia|rewrite length_drop; lia|].
  destruct (carries_word 8 (drop 16 data) l2 m2) as (p2 & P2 & E2); [by auto with wf|done..|lia|rewrite length_drop; lia|].
  destruct (carries_word 8 (drop 24 data) l3 m3) as (p3 & P3 & E3); [by auto with wf|done..|lia|rewrite length_drop; lia|].
  rewrite !drop_drop in *. cbn [Nat.add] in *.
  destruct (IH (drop 32 data) _ _ _ _ p0 p1 p2 p3 ltac:(auto with wf) P0 P1 P2 P3)
    as (k0 & k1 & k2 & k3 & n0 & n1 & n2 & n3 & rest & E & Hr & Q0 & Q1 & Q2 & Q3 & S).
  exists k0, k1, k2, k3, n0, n1, n2, n3, rest. split_and!; [done..|]. lia.
Qed.

Lemma word_loop_spec fuel : forall data s m,
  wf_bytes data -> carries s m -> (length data <= fuel)%nat ->
  exists s' m' rest, word_loop little fuel data s = (s', rest) /\ wf_bytes rest /\ (length rest < 8)%nat /\
    carries s' m' /\ m' + todo rest = m + todo data.
Proof.
  induction fuel as [|fuel IH]; intros data s m Hw Hs Hf; cbn [word_loop].
  { exists s, m, data. split_and!; try done. lia. }
  destruct (Nat.leb_spec 8 (length data)) as [Hl|Hl]; [|exists s, m, data; by split_and!].
  destruct (carries_word 8 data s m) as (p & P & E); [done..|by exists 4%nat|lia|lia|].
  destruct (IH (drop 8 data) _ p ltac:(auto with wf) P) as (s' & m' & rest & E' & Hr & Hl' & Hc & S);
    [rewrite length_drop; lia|]. exists s', m', rest. split_and!; [done..|lia].
Qed.

Lemma tail_word_spec n s m data :
  wf_bytes data -> carries s m -> Nat.Even n -> (n <= 8)%nat -> (length data < n + n)%nat ->
  exists s' m' rest, tail_word little n (s, data) = (s', rest) /\ wf_bytes rest /\ (length rest < n)%nat /\
    carries s' m' /\ m' + todo rest = m + todo data.
Proof.
  intros Hw Hs He H8 Hl. unfold tail_word. destruct (Nat.leb_spec n (length data)).
  - destruct (carries_word n data s m) as (p & P & E); [done..|].
    exists (add_word s (from_ne_bytes little (take n data))), p, (drop n data). split_and!; [done|by auto with wf| |done|done].
    rewrite length_drop. lia.
  - exists s, m, data. by split_and!.
Qed.

Lemma carries_byte b : is_u8 b -> carries (from_ne_bytes little [b; 0]) (todo [b]).
Proof.
  intros Hb. replace (be_sum [b]) with (be_sum [b; 0]) by (cbn; lia).
  apply carries_native; [|by exists 1%nat|cbn; lia]. repeat constructor; [apply Hb..|]; unfold is_u8; lia.
Qed.

(** The accumulator adds the buffer's words in native byte order. *)
Lemma accumulate_spec data s m :
  wf_bytes data -> carries s m -> carries (checksum_accumulate little data s) (m + todo data).
Proof.
  intros Hw Hs. unfold checksum_accumulate.
  assert (carries 0 0) as C0 by (unfold carries, cong; repeat split; done || lia).
  destruct (stripe_loop_spec (length data) data 0 0 0 0 0 0 0 0 Hw C0 C0 C0 C0)
    as (k0 & k1 & k2 & k3 & n0 & n1 & n2 & n3 & rest & -> & Hr & Q0 & Q1 & Q2 & Q3 & E).
  cbn [foldl]. pose proof (carries_add _ _ _ _ (carries_add _ _ _ _ (carries_add _ _ _ _ (carries_add _ _ _ _ Hs Q0) Q1) Q2) Q3) as Hs'.
  destruct (word_loop_spec (length rest) rest _ _ Hr Hs' ltac:(lia)) as (s1 & m1 & r1 & -> & W1 & L1 & C1 & E1).
  destruct (tail_word_spec 4 s1 m1 r1) as (s2 & m2 & r2 & -> & W2 & L2 & C2 & E2); [done..|by exists 2%nat|lia|lia|].
  destruct (tail_word_spec 2 s2 m2 r2) as (s3 & m3 & r3 & -> & W3 & L3 & C3 & E3); [done..|by exists 1%nat|lia|lia|].
  destruct r3 as [|b [|b' r3]]; [| |cbn in L3; lia].
  - replace (m + todo data) with m3; [done|]. cbn [be_sum] in *. lia.
  - replace (m + todo data) with (m3 + todo [b]) by lia. apply carries_add; [done|]. apply carries_byte. by inversion W3.
Qed.

End accumulate.

(** ** Folding *)

Lemma fold_step s :
  0 <= s -> let t := Z.land s 0xffff + Z.shiftr s 16 in
  t = s mod 65536 + s / 65536 /\ 0 <= t /\ t ≈ s /\ (t = 0 <-> s = 0).
Proof.
  intros Hs t. assert (t = s mod 65536 + s / 65536) as ->.
  { subst t. change 0xffff with (Z.ones 16). by rewrite Z.land_ones, Z.shiftr_div_pow2 by lia. }
  assert (s = 65536 * (s / 65536) + s mod 65536) as E by (apply Z.div_mod; lia).
  pose proof (Z.mod_pos_bound s 65536 ltac:(lia)). pose proof (Z.div_pos s 65536 Hs ltac:(lia)).
  split; [done|]. split; [lia|]. split; [|lia]. apply (cong_multiple _ _ (- (s / 65536))). lia.
Qed.

(** Each turn of the loop lowers the bound [b]; at 65537 one more turn ends it. *)
Lemma fold_loop_turn fuel b s :
  0 <= s < b -> 65537 <= b ->
  (forall t, 0 <= t < 65536 + (b - 1) / 65536 -> t ≈ s -> (t = 0 <-> s = 0) ->
     (b = 65537 -> t < 65536) -> fold_loop fuel t = ones_sum s) ->
  fold_loop (S fuel) s = ones_sum s.
Proof.
  intros Hs Hb IH. cbn [fold_loop]. rewrite Z.shiftr_div_pow2 by lia. change (2 ^ 16) with 65536.
  destruct (Z.eqb_spec (s / 65536) 0) as [E|E].
  - apply ones_sum_unique; [|lia|done|done]. apply Z.div_small_iff in E; lia.
  - destruct (fold_step s ltac:(lia)) as (Et & H0 & Hc & Hz). cbv zeta in *. rewrite Z.shiftr_div_pow2 in * by lia.
    change (2 ^ 16) with 65536 in *. apply IH; [|done|done|]; rewrite Et.
    + pose proof (Z.mod_pos_bound s 65536 ltac:(lia)). pose proof (Z.div_le_mono s (b - 1) 65536 ltac:(lia) ltac:(lia)). lia.
    + intros ->. assert (s = 65536) as -> by (Z.div_mod_to_equations; lia). done.
Qed.

Lemma fold_loop_spec s : 0 <= s < 2 ^ 64 -> fold_loop 6 s = ones_sum s.
Proof.
  intros Hs. apply (fold_loop_turn _ (2 ^ 64)); [done|done|]. change (65536 + (2 ^ 64 - 1) / 65536) with (2 ^ 48 + 65535).
  intros t1 H1 C1 Z1 _. rewrite (ones_sum_cong s t1) by (lia || done).
  apply (fold_loop_turn _ (2 ^ 48 + 65535)); [done|done|]. change (65536 + (2 ^ 48 + 65535 - 1) / 65536) with (2 ^ 32 + 65536).
  intros t2 H2 C2 Z2 _. rewrite (ones_sum_cong t1 t2) by (lia || done).
  apply (fold_loop_turn _ (2 ^ 32 + 65536)); [done|done|]. change (65536 + (2 ^ 32 + 65536 - 1) / 65536) with 131072.
  intros t3 H3 C3 Z3 _. rewrite (ones_sum_cong t2 t3) by (lia || done).
  apply (fold_loop_turn _ 131072); [done|done|]. change (65536 + (131072 - 1) / 65536) with 65537.
  intros t4 H4 C4 Z4 _. rewrite (ones_sum_cong t3 t4) by (lia || done).
  apply (fold_loop_turn _ 65537); [done|done|]. intros t5 H5 C5 Z5 L5. rewrite (ones_sum_cong t4 t5) by (lia || done).
  specialize (L5 eq_refl). cbn [fold_loop]. rewrite Z.shiftr_div_pow2, Z.div_small by lia. cbn [Z.eqb].
  apply ones_sum_unique; [lia|lia|done|done].
Qed.

Lemma wrap16_ones_sum n : 0 <= n -> wrap16 (ones_sum n) = ones_sum n.
Proof. intros Hn. apply Z.mod_small. by apply ones_sum_spec. Qed.

Lemma carries_fold little s n :
  carries s n -> checksum_fold little s = ones_sum (endian little * n).
Proof.
  intros (Hs & Hn & Cs & Zs). unfold checksum_fold. pose proof (endian_pos little).
  destruct (carries_native little (to_be_bytes 8 s)) as (Hb & Hb2 & Cb & Zb); [auto with wf|..];
    rewrite ?length_to_be_bytes; [by exists 4%nat|lia|].
  rewrite fold_loop_spec, wrap16_ones_sum by lia. apply ones_sum_cong; [lia|nia|..].
  - rewrite Cb, <- from_be_cong by (rewrite length_to_be_bytes; by exists 4%nat).
    by rewrite from_to_be_bytes_small, Cs.
  - rewrite from_ne_zero by auto with wf. rewrite be_sum_zero, <- from_be_zero by auto with wf.
    rewrite from_to_be_bytes_small by done. rewrite Zs. nia.
Qed.

Lemma carries_initial little i : is_u16 i -> carries (checksum_initial little i) (endian little * i).
Proof.
  intros Hi. unfold is_u16 in Hi. assert (checksum_initial little i = from_ne_bytes little (to_be_bytes 8 i)) as ->
    by (by destruct little).
  destruct (carries_native little (to_be_bytes 8 i)) as (B & N & C & Zc); [auto with wf|..];
    rewrite ?length_to_be_bytes; [by exists 4%nat|lia|]. pose proof (endian_pos little).
  split; [done|]. split; [nia|]. split.
  - rewrite C, <- from_be_cong by (rewrite length_to_be_bytes; by exists 4%nat). by rewrite from_to_be_bytes_small by lia.
  - rewrite from_ne_zero by auto with wf. rewrite be_sum_zero, <- from_be_zero by auto with wf.
    rewrite from_to_be_bytes_small by lia. nia.
Qed.

(** Undoing the byte order. *)
Lemma ones_sum_endian little n : 0 <= n -> ones_sum (endian little * (endian little * n)) = ones_sum n.
Proof.
  intros Hn. pose proof (endian_pos little). apply ones_sum_cong; [nia|done| |nia].
  by rewrite Z.mul_assoc, endian_square, Z.mul_1_l.
Qed.

Lemma checksum_spec little data i :
  wf_bytes data -> is_u16 i -> checksum little data i = ones_sum (i + be_sum data).
Proof.
  intros Hw Hi. unfold checksum. pose proof (be_sum_nonneg data Hw). unfold is_u16 in Hi.
  rewrite (carries_fold little _ _ (accumulate_spec little data _ _ Hw (carries_initial little i Hi))).
  rewrite <- Z.mul_add_distr_l. apply ones_sum_endian. lia.
Qed.

Lemma pseudo_spec little p src dst len :
  is_u8 p -> wf_bytes src -> wf_bytes dst -> is_u16 len ->
  pseudo little p src dst len = ones_sum (be_sum src + be_sum dst + p + len).
Proof.
  intros Hp Hs Hd Hl. unfold pseudo. pose proof (be_sum_nonneg src Hs). pose proof (be_sum_nonneg dst Hd).
  unfold is_u8, is_u16 in *. assert (wf_bytes [0; p]) as Wp by (repeat constructor; unfold is_u8; lia).
  rewrite (carries_fold little _ _ (accumulate_spec little _ _ _ (wf_to_be_bytes 2 len)
    (accumulate_spec little _ _ _ Wp (accumulate_spec little _ _ _ Hd (accumulate_spec little _ _ _ Hs
      (carries_initial little 0 ltac:(unfold is_u16; lia))))))).
  rewrite <- !Z.mul_add_distr_l, ones_sum_endian.
  - f_equal. cbn [be_sum to_be_bytes]. change (256 ^ Z.of_nat 1) with 256. change (256 ^ Z.of_nat 0) with 1.
    Z.div_mod_to_equations. lia.
  - pose proof (be_sum_nonneg _ (wf_to_be_bytes 2 len)). pose proof (be_sum_nonneg _ Wp). lia.
Qed.

Lemma be_sum_bound l : wf_bytes l -> 2 * be_sum l <= 65535 * (Z.of_nat (length l) + 1).
Proof.
  induction l as [|a|a b l IH] using pair_ind; cbn [be_sum length]; intros H; wf_cons; [lia|lia|].
  specialize (IH ltac:(done)). lia.
Qed.

(** C36. The word-parallel checksum is the Internet checksum, on machines of either
    byte order: for every buffer it returns the one's-complement sum of the
    initial value and the buffer's 16-bit words in network order, which is what
    the two-bytes-at-a-time reference of the tests computes as long as that does
    not overflow; and the pseudo-header sum, accumulated piece by piece without
    folding, is the checksum of the pseudo-header. *)
Theorem checksum_correct (little : bool) (data : list Z) (initial : Z) :
  wf_bytes data -> is_u16 initial ->
  checksum little data initial = ones_sum (initial + be_sum data) /\
  (Z.of_nat (length data) <= 131068 -> checksum little data initial = scalar_checksum data initial) /\
  forall p src dst len, is_u8 p -> wf_bytes src -> wf_bytes dst -> is_u16 len ->
    Nat.Even (length src) -> Nat.Even (length dst) ->
    pseudo little p src dst len = checksum little (src ++ dst ++ [0; p] ++ to_be_bytes 2 len) 0.
Proof.
  intros Hw Hi. rewrite checksum_spec by done. split; [done|]. split.
  - intros Hl. pose proof (be_sum_bound data Hw). pose proof (be_sum_nonneg data Hw). unfold is_u16 in Hi.
    unfold scalar_checksum, wrap32. rewrite Z.mod_small by lia. by rewrite fold_loop_spec, wrap16_ones_sum by lia.
  - intros p src dst len Hp Hs Hd Hl Es Ed. assert (wf_bytes [0; p]) as Wp by (unfold is_u8 in *; repeat constructor; lia).
    rewrite pseudo_spec by done. rewrite checksum_spec; [|by rewrite !wf_bytes_app; auto using wf_to_be_bytes|done].
    rewrite !be_sum_app by done. f_equal. cbn [be_sum to_be_bytes app]. unfold is_u16 in Hl.
    change (256 ^ Z.of_nat 1) with 256. change (256 ^ Z.of_nat 0) with 1. Z.div_mod_to_equations. lia.
Qed.

Lemma checksum_correct_witness :
  let data := [69; 0; 0; 60; 28; 70; 64; 0; 64; 6; 0; 0; 172; 16; 10; 99; 172; 16; 10; 12; 1; 2; 3; 4; 5; 6; 7; 8; 9; 10; 11; 12; 13] in
  wf_bytes data /\ checksum true data 7 = scalar_checksum data 7 /\ checksum true data 7 = checksum false data 7.
Proof.
  intros data. assert (wf_bytes data) as Hw by (apply (bool_decide_unpack (wf_bytes data)); vm_compute; exact I).
  assert (is_u16 7) as Hi by (unfold is_u16; lia). split; [exact Hw|].
  destruct (checksum_correct true data 7 Hw Hi) as (_ & Es & _). split; [apply Es; vm_compute; discriminate|].
  vm_compute. reflexivity.
Defined.
