(* ===== verification/Gso.v ===== *)
(** * Splitting virtio-net frames: [crates/tun/src/offload.rs], [lib.rs]

    A read from the device may return one large frame that stands for many
    packets.  [split_virtio] cuts it into a reusable batch and completes lengths,
    sequence numbers, flags and checksums.  Code that writes into a buffer and can
    fail half-way is in the monad [st]: it returns the state as it was left.
    Lengths of buffers are at most [isize::MAX] and the other operands of the
    checked additions at most 2^24, so [add] is plain addition. *)

From S2P Require Import Prelude Bytes Checksum.

(** ** Stateful code that can fail or panic *)

Definition st (S A : Type) : Type := S -> run (S * result string A).

#[global] Instance st_ret {S} : MRet (st S) := fun A a s => Ret (s, Ok a).
#[global] Instance st_bind {S} : MBind (st S) := fun A B f m s =>
  match m s with
  | Ret (s, Ok a) => f a s
  | Ret (s, Err e) => Ret (s, Err e)
  | Panic => Panic
  end.
Definition st_get {S} : st S S := fun s => Ret (s, Ok s).
Definition st_put {S} (s : S) : st S unit := fun _ => Ret (s, Ok tt).
Definition st_lift {S A} (r : result string A) : st S A := fun s => Ret (s, r).
Definition st_run {S A} (m : run A) : st S A := fun s => a ← m; Ret (s, Ok a).
Definition st_fail {S A} (e : string) : st S A := fun s => Ret (s, Err e).

(** [usize::div_ceil]. *)
Definition div_ceil (a b : nat) : nat := (a / b + if a mod b =? 0 then 0 else 1)%nat.
(** [u16::try_from]. *)
Definition u16_try_from (n : nat) (e : string) : result string Z :=
  if Z.of_nat n <=? 65535 then Ok (Z.of_nat n) else Err e.

(** ** Constants and data *)

Definition VIRTIO_NET_HDR_LEN : nat := 10.
Definition VIRTIO_NET_HDR_F_NEEDS_CSUM : Z := 1.
Definition GSO_NONE : Z := 0.
Definition GSO_TCPV4 : Z := 1.
Definition GSO_UDP_L4 : Z := 3.
Definition GSO_TCPV6 : Z := 4.
Definition MAX_PACKETS : nat := 128.

Record VirtioHdr : Type := {
  v_flags : Z; gso_type : Z; hdr_len : Z; v_gso_size : Z; csum_start : Z; csum_offset : Z }.

(** The slots of a batch outlive it: only the first [b_len] are packets of it. *)
Record TunPacketBatch : Type := { b_packets : list (list Z); b_len : nat }.
Definition batch_new : TunPacketBatch := {| b_packets := []; b_len := 0 |}.
(** [TunPacketBatch::clear] and [TunPacketBatch::set_len]. *)
Definition set_len (b : TunPacketBatch) (n : nat) : TunPacketBatch := {| b_packets := b_packets b; b_len := n |}.
Definition batch_clear (b : TunPacketBatch) : TunPacketBatch := set_len b 0.
(** [TunPacketBatch::packets]. *)
Definition batch_packets (b : TunPacketBatch) : run (list (list Z)) := slice (b_packets b) 0 (b_len b).

(** [TunPacketBatch::packet_mut], and [f] run on the packet it returns. *)
Definition on_packet {A} (index : nat) (f : st (list Z) A) : st TunPacketBatch A := fun b =>
  if (MAX_PACKETS <=? index)%nat then Ret (b, Err "too many TUN packets"%string)
  else
    let ps := b_packets b ++ replicate (S index - length (b_packets b)) [] in
    out ← idx ps index;
    r ← f out;
    Ret ({| b_packets := <[index := r.1]> ps; b_len := b_len b |}, r.2).

(** [TunPacketBatch::push_packet]. *)
Definition push_packet (packet : list Z) : st TunPacketBatch unit :=
  b ← st_get;
  _ ← on_packet (b_len b) (st_put packet);
  b' ← st_get;
  st_put (set_len b' (b_len b + 1)).

(** ** Checked accesses *)

Definition get_range {A} (data : list A) (i j : nat) : option (list A) :=
  if ((i <=? j) && (j <=? length data))%nat then Some (field data i (j - i)) else None.
(** [range]. *)
Definition range (data : list Z) (offset len : nat) : result string (list Z) :=
  ok_or (get_range data offset (offset + len)) "short packet"%string.
(** [be16] and [be32]. *)
Definition be16 (data : list Z) (offset : nat) : result string Z :=
  b ← range data offset 2; mret (from_be_bytes b).
Definition be32 (data : list Z) (offset : nat) : result string Z :=
  b ← range data offset 4; mret (from_be_bytes b).
Definition put_bytes (offset : nat) (bytes : list Z) : st (list Z) unit :=
  data ← st_get;
  match get_range data offset (offset + length bytes) with
  | Some _ => st_put (splice data offset bytes)
  | None => st_fail "short packet"%string
  end.
(** [put16] and [put32]. *)
Definition put16 (offset : nat) (value : Z) : st (list Z) unit := put_bytes offset (to_be_bytes 2 value).
Definition put32 (offset : nat) (value : Z) : st (list Z) unit := put_bytes offset (to_be_bytes 4 value).

Section split.
Variable little : bool.

(** [virtio_header]. *)
Definition virtio_header (raw : list Z) : run (result string VirtioHdr) :=
  if (length raw <? VIRTIO_NET_HDR_LEN)%nat then Ret (Err "short virtio header"%string)
  else
    fl ← idx raw 0; ty ← idx raw 1;
    hl ← idx_range raw 2 2; gs ← idx_range raw 4 2; cs ← idx_range raw 6 2; co ← idx_range raw 8 2;
    Ret (Ok {| v_flags := fl; gso_type := ty; hdr_len := from_ne_bytes little hl; v_gso_size := from_ne_bytes little gs;
               csum_start := from_ne_bytes little cs; csum_offset := from_ne_bytes little co |}).

(** The checksum [copy_single] completes in place. *)
Definition complete_checksum (cs csum_at : nat) : st (list Z) unit :=
  out ← st_get;
  initial ← st_lift (be16 out csum_at);
  _ ← put16 csum_at 0;
  out ← st_get;
  n ← st_run (sub_usize (length out) cs);
  data ← st_lift (range out cs n);
  put16 csum_at (not16 (checksum little data initial)).

(** [copy_single]. *)
Definition copy_single (input : list Z) (flags : Z) (cs csum_at : nat) : st TunPacketBatch unit :=
  _ ← on_packet 0
        (_ ← st_put input;
         if negb (Z.land flags VIRTIO_NET_HDR_F_NEEDS_CSUM =? 0) then complete_checksum cs csum_at else mret tt);
  b ← st_get;
  st_put (set_len b 1).

(** [split_none]. *)
Definition split_none (input : list Z) (header : VirtioHdr) (cs csum_at : nat) : st TunPacketBatch unit :=
  if (length input <? Z.to_nat (hdr_len header))%nat || (length input <? cs)%nat
  then st_fail "invalid header length"%string
  else copy_single input (v_flags header) cs csum_at.

(** The IP header of one segment of [split_gso]. *)
Definition segment_ip (version base_id : Z) (ip_header_len total index : nat) (total_u16 : Z) : st (list Z) unit :=
  if version =? 4 then
    _ ← put16 2 total_u16;
    _ ← put16 4 (wrap16 (base_id + wrap16 (Z.of_nat index)));
    _ ← put16 10 0;
    out ← st_get;
    h ← st_lift (range out 0 ip_header_len);
    put16 10 (not16 (checksum little h 0))
  else
    n ← st_lift (if (total <? ip_header_len)%nat then Err "IPv6 bounds"%string else Ok (total - ip_header_len)%nat);
    v ← st_lift (u16_try_from n "segment too large"%string);
    put16 4 v.

(** The transport header of one segment of [split_gso], up to the checksum. *)
Definition segment_transport (tcp : bool) (cs index count : nat) (sequence gso transport_u16 : Z) : st (list Z) unit :=
  if tcp then
    _ ← put32 (cs + 4) (wrap32 (sequence + wrap32 (gso * wrap32 (Z.of_nat index))));
    if (index + 1 <? count)%nat then
      out ← st_get;
      match out !! (cs + 13)%nat with
      | None => st_fail "short TCP header"%string
      | Some f => st_put (<[(cs + 13)%nat := Z.land f 0xF6]> out)
      end
    else mret tt
  else put16 (cs + 4) transport_u16.

(** What [split_gso] knows of the frame. *)
Record Gso : Type := {
  input : list Z; cs : nat; csum_at : nat; header_len : nat; g_version : Z; ip_header_len : nat;
  address_offset : nat; address_len : nat; tcp : bool; g_gso_size : Z; sequence : Z; base_id : Z; count : nat }.

(** The packet [index] of [split_gso], written into its slot. *)
Definition segment_packet (g : Gso) (index : nat) (data : list Z) (transport_len : nat) (total_u16 transport_u16 : Z)
  : st (list Z) unit :=
  _ ← st_put [];
  h ← st_lift (range (input g) 0 (header_len g));
  _ ← st_put (h ++ data);
  _ ← segment_ip (g_version g) (base_id g) (ip_header_len g) (header_len g + length data) index total_u16;
  _ ← segment_transport (tcp g) (cs g) index (count g) (sequence g) (g_gso_size g) transport_u16;
  _ ← put16 (csum_at g) 0;
  source ← st_lift (range (input g) (address_offset g) (address_len g));
  destination ← st_lift (range (input g) (address_offset g + address_len g) (address_len g));
  out ← st_get;
  body ← st_lift (range out (cs g) transport_len);
  put16 (csum_at g)
    (not16 (checksum little body (pseudo little (if tcp g then 6 else 17) source destination transport_u16))).

(** The body of the loop of [split_gso]. *)
Definition segment (g : Gso) (index : nat) : st TunPacketBatch unit :=
  let gso_size := Z.to_nat (g_gso_size g) in
  let data_start := (header_len g + index * gso_size)%nat in
  let data_end := Nat.min (data_start + gso_size) (length (input g)) in
  data ← st_lift (ok_or (get_range (input g) data_start data_end) "segment bounds"%string);
  let total := (header_len g + length data)%nat in
  transport_len ← st_lift (if (total <? cs g)%nat then Err "transport bounds"%string else Ok (total - cs g)%nat);
  total_u16 ← st_lift (u16_try_from total "segment too large"%string);
  transport_u16 ← st_lift (u16_try_from transport_len "segment too large"%string);
  on_packet index (segment_packet g index data transport_len total_u16 transport_u16).

Fixpoint segment_loop (g : Gso) (indices : list nat) : st TunPacketBatch unit :=
  match indices with
  | [] => mret tt
  | i :: indices => _ ← segment g i; segment_loop g indices
  end.

Definition is_tcp_gso (ty : Z) : bool := (ty =? GSO_TCPV4) || (ty =? GSO_TCPV6).

(** The addresses and the length of the IP header, checked against the frame's type. *)
Definition ip_layout (input : list Z) (first ty : Z) (cs : nat) : result string (nat * nat * nat) :=
  let version := Z.shiftr first 4 in
  if version =? 4 then
    if negb ((ty =? GSO_TCPV4) || (ty =? GSO_UDP_L4)) then Err "IP/GSO mismatch"%string
    else
      let ihl := (Z.to_nat (Z.land first 0x0f) * 4)%nat in
      if ((ihl <? 20) || (60 <? ihl) || (length input <? ihl))%nat then Err "invalid IPv4 header length"%string
      else Ok (ihl, 12%nat, 4%nat)
  else if version =? 6 then
    if negb ((ty =? GSO_TCPV6) || (ty =? GSO_UDP_L4)) then Err "IP/GSO mismatch"%string
    else if (length input <? 40)%nat then Err "short IPv6"%string
    else if (cs <? 40)%nat then Err "invalid IPv6 transport offset"%string
    else Ok (40%nat, 8%nat, 16%nat)
  else Err "IP/GSO mismatch"%string.

(** [split_gso]. *)
Definition split_gso (input : list Z) (header : VirtioHdr) (cs csum_at header_len transport_header_len : nat)
  : st TunPacketBatch unit :=
  first ← st_lift (ok_or (input !! 0%nat) "empty packet"%string);
  let version := Z.shiftr first 4 in
  layout ← st_lift (ip_layout input first (gso_type header) cs);
  let '(ip_header_len, address_offset, address_len) := layout in
  let tcp := is_tcp_gso (gso_type header) in
  let expected_checksum := (cs + if tcp then 16 else 6)%nat in
  if ((version =? 4) && negb (cs =? ip_header_len)%nat) || negb (csum_at =? expected_checksum)%nat
     || (cs + transport_header_len <? csum_at + 2)%nat
  then st_fail "invalid transport checksum offset"%string
  else if tcp && (transport_header_len <? 20)%nat then st_fail "short TCP"%string
  else
    payload_len ← st_run (sub_usize (length input) header_len);
    let gso_size := Z.to_nat (v_gso_size header) in
    if (payload_len <? gso_size)%nat then copy_single input (v_flags header) cs csum_at
    else
      let count := div_ceil payload_len gso_size in
      if (count =? 0)%nat then st_fail "empty GSO payload"%string
      else if (MAX_PACKETS <? count)%nat then st_fail "too many GSO segments"%string
      else
        sequence ← st_lift (if tcp then be32 input (cs + 4) else Ok 0);
        base_id ← st_lift (if version =? 4 then be16 input 4 else Ok 0);
        _ ← segment_loop
              {| input := input; cs := cs; csum_at := csum_at; header_len := header_len; g_version := version;
                 ip_header_len := ip_header_len; address_offset := address_offset; address_len := address_len;
                 tcp := tcp; g_gso_size := v_gso_size header; sequence := sequence; base_id := base_id;
                 count := count |} (seq 0 count);
        b ← st_get;
        st_put (set_len b count).

(** The length of the transport header of a GSO frame. *)
Definition transport_header (input : list Z) (ty : Z) (cs : nat) : result string nat :=
  if ty =? GSO_UDP_L4 then Ok 8%nat
  else
    byte ← ok_or (input !! (cs + 12)%nat) "short TCP header"%string;
    let len := (Z.to_nat (Z.shiftr byte 4) * 4)%nat in
    if ((len <? 20) || (60 <? len))%nat then Err "invalid TCP header length"%string else Ok len.

(** [split_virtio_inner] once the header is read. *)
Definition split_input (header : VirtioHdr) (input : list Z) : st TunPacketBatch unit :=
  let ty := gso_type header in
  if negb ((ty =? GSO_NONE) || (ty =? GSO_TCPV4) || (ty =? GSO_UDP_L4) || (ty =? GSO_TCPV6))
  then st_fail "unsupported virtio GSO type"%string
  else if negb (ty =? GSO_NONE) && (v_gso_size header =? 0) then st_fail "zero GSO size"%string
  else
    let cs := Z.to_nat (csum_start header) in
    let csum_at := (cs + Z.to_nat (csum_offset header))%nat in
    if (length input <? csum_at + 2)%nat then st_fail "checksum offset out of bounds"%string
    else if ty =? GSO_NONE then split_none input header cs csum_at
    else
      transport_header_len ← st_lift (transport_header input ty cs);
      let header_len := (cs + transport_header_len)%nat in
      if (length input <? header_len)%nat then st_fail "packet shorter than headers"%string
      else split_gso input header cs csum_at header_len transport_header_len.

(** [split_virtio_inner]. *)
Definition split_virtio_inner (raw : list Z) : st TunPacketBatch unit :=
  h ← st_run (virtio_header raw);
  header ← st_lift h;
  input ← st_lift (ok_or (get_range raw VIRTIO_NET_HDR_LEN (length raw)) "short virtio frame"%string);
  split_input header input.

(** [split_virtio]: the batch as it is left, and the result. *)
Definition split_virtio (raw : list Z) (batch : TunPacketBatch) : run (TunPacketBatch * result string unit) :=
  r ← split_virtio_inner raw (batch_clear batch);
  match r with
  | (b, Ok tt) => Ret (b, Ok tt)
  | (b, Err e) => Ret (batch_clear b, Err e)
  end.

End split.
