(* ===== verification/GsoSpec.v ===== *)
(** * Correctness of the frame splitter

    [is_segment] says what the [i]-th packet cut from a frame must be: its share
    of the payload behind the frame's headers, with lengths, identification,
    sequence number and flags of its own and valid checksums.  [split_virtio]
    returns such packets, or an error and an empty batch. *)

From S2P Require Import Prelude Bytes Checksum Gso.

(** Side conditions on positions. *)
Ltac positions := cbv beta; cbn [length to_be_bytes]; intros; lia.

(** ** Steps of [st] *)

Lemma st_bind_ok {S A B} (m : st S A) (f : A -> st S B) s s' a :
  m s = Ret (s', Ok a) -> (m ≫= f) s = f a s'.
Proof. intros H. unfold mbind, st_bind. by rewrite H. Qed.

Lemma st_bind_err {S A B} (m : st S A) (f : A -> st S B) s s' e :
  m s = Ret (s', Err e) -> (m ≫= f) s = Ret (s', Err e).
Proof. intros H. unfold mbind, st_bind. by rewrite H. Qed.

Lemma st_bind_lift {S A B} (r : result string A) (f : A -> st S B) s :
  (st_lift r ≫= f) s = match r with Ok a => f a s | Err e => Ret (s, Err e) end.
Proof. by destruct r. Qed.

Lemma st_bind_get {S B} (f : S -> st S B) s : (st_get ≫= f) s = f s s.
Proof. done. Qed.
Lemma st_bind_put {S B} (f : unit -> st S B) s s' : (st_put s' ≫= f) s = f tt s'.
Proof. done. Qed.
Lemma st_bind_run {S A B} (m : run A) a (f : A -> st S B) s : m = Ret a -> (st_run m ≫= f) s = f a s.
Proof. by intros ->. Qed.

(** ** Checked accesses in range *)

Lemma get_range_ok {A} (l : list A) i n : (i + n <= length l)%nat -> get_range l i (i + n) = Some (field l i n).
Proof.
  intros H. unfold get_range. rewrite (proj2 (Nat.leb_le _ _)), (proj2 (Nat.leb_le _ _)) by lia. cbn [andb].
  by rewrite Nat.add_comm, Nat.add_sub.
Qed.

Lemma range_ok l i n : (i + n <= length l)%nat -> range l i n = Ok (field l i n).
Proof. intros H. unfold range. by rewrite get_range_ok. Qed.

Lemma be16_ok l i : (i + 2 <= length l)%nat -> be16 l i = Ok (from_be_bytes (field l i 2)).
Proof. intros H. unfold be16. by rewrite range_ok. Qed.
Lemma be32_ok l i : (i + 4 <= length l)%nat -> be32 l i = Ok (from_be_bytes (field l i 4)).
Proof. intros H. unfold be32. by rewrite range_ok. Qed.

Lemma put_bytes_ok i x l : (i + length x <= length l)%nat -> put_bytes i x l = Ret (splice l i x, Ok tt).
Proof. intros H. unfold put_bytes. rewrite st_bind_get. by rewrite get_range_ok. Qed.

Lemma put16_ok i v l : (i + 2 <= length l)%nat -> put16 i v l = Ret (splice l i (to_be_bytes 2 v), Ok tt).
Proof. apply (put_bytes_ok i (to_be_bytes 2 v)). Qed.
Lemma put32_ok i v l : (i + 4 <= length l)%nat -> put32 i v l = Ret (splice l i (to_be_bytes 4 v), Ok tt).
Proof. apply (put_bytes_ok i (to_be_bytes 4 v)). Qed.

Lemma field_all {A} (l : list A) i : field l i (length l - i) = drop i l.
Proof. unfold field. apply take_ge. by rewrite length_drop. Qed.

Lemma wf_field l i n : wf_bytes l -> wf_bytes (field l i n).
Proof. unfold field. auto with wf. Qed.
#[export] Hint Resolve wf_field : wf.

(** ** Completing a checksum *)

Lemma be_sum_splice l i v :
  wf_bytes l -> Nat.Even i -> (i + 2 <= length l)%nat -> field l i 2 = [0; 0] -> is_u16 v ->
  be_sum (splice l i (to_be_bytes 2 v)) = be_sum l + v.
Proof.
  intros Hl He Hi H0 Hv. unfold splice. change (length (to_be_bytes 2 v)) with 2%nat.
  rewrite be_sum_app by (by rewrite length_take_le by lia). rewrite be_sum_app by (by exists 1%nat).
  rewrite <- (take_drop i l) at 3. rewrite (be_sum_app (take i l)) by (by rewrite length_take_le by lia).
  rewrite <- (take_drop 2 (drop i l)), drop_drop. fold (field l i 2). rewrite H0, (be_sum_app [0; 0]) by (by exists 1%nat).
  cbn [be_sum to_be_bytes]. change (256 ^ Z.of_nat 1) with 256. change (256 ^ Z.of_nat 0) with 1.
  unfold is_u16 in Hv. Z.div_mod_to_equations. lia.
Qed.

Section spec.
Variable little : bool.

Lemma checksum_u16 l i : wf_bytes l -> is_u16 i -> is_u16 (checksum little l i).
Proof.
  intros Hl Hi. rewrite checksum_spec by done. pose proof (be_sum_nonneg l Hl). unfold is_u16 in *.
  apply ones_sum_spec. lia.
Qed.

Lemma not16_u16 v : is_u16 v -> is_u16 (not16 v).
Proof. unfold is_u16, not16. lia. Qed.

(** Storing the complement makes the sum all ones. *)
Lemma checksum_complete l i seed :
  wf_bytes l -> Nat.Even i -> (i + 2 <= length l)%nat -> field l i 2 = [0; 0] -> is_u16 seed ->
  checksum little (splice l i (to_be_bytes 2 (not16 (checksum little l seed)))) seed = 65535.
Proof.
  intros Hl He Hi H0 Hs. pose proof (checksum_u16 l seed Hl Hs) as Hc. pose proof (be_sum_nonneg l Hl).
  rewrite checksum_spec by (auto with wf). rewrite be_sum_splice by (auto using not16_u16).
  rewrite checksum_spec, Z.add_assoc by done. apply ones_sum_complement. unfold is_u16 in Hs. lia.
Qed.

(** Writing zeros and then the checksum at [i], summing from [c] on. *)
Lemma checksum_field l c i seed n :
  wf_bytes l -> (c <= i)%nat -> Nat.Even (i - c) -> (i + 2 <= c + n)%nat -> (c + n <= length l)%nat -> is_u16 seed ->
  let z := splice l i (to_be_bytes 2 0) in
  let q := splice z i (to_be_bytes 2 (not16 (checksum little (field z c n) seed))) in
  same_except (fun k => (i <= k < i + 2)%nat) q l /\ wf_bytes q /\ checksum little (field q c n) seed = 65535.
Proof.
  intros Hl Hc He Hi Hn Hs z q. assert (length z = length l) as Lz by (apply length_splice; cbn; lia).
  assert (wf_bytes z) as Wz by (subst z; auto with wf). split; [|split; [subst q; auto with wf|]].
  - apply (same_except_trans (fun k => (i <= k < i + 2)%nat) (fun k => (i <= k < i + 2)%nat) _ _ z); [| |tauto];
      apply (same_except_splice _ i (to_be_bytes 2 _)); cbn; lia.
  - assert (field q c n = splice (field z c n) (i - c) (to_be_bytes 2 (not16 (checksum little (field z c n) seed)))) as ->.
    { unfold field, q. rewrite drop_splice by (cbn; lia). rewrite take_splice; [done|cbn; lia|]. rewrite length_drop. lia. }
    apply checksum_complete; [auto with wf|done|rewrite length_field; lia| |done].
    unfold field at 1. unfold field. rewrite skipn_firstn_comm, take_take, drop_drop, Nat.min_l by lia.
    replace (c + (i - c))%nat with i by lia. apply (field_splice l i (to_be_bytes 2 0)). cbn. lia.
Qed.

(** ** One segment *)

(** What [split_gso] has established before the loop. *)
Record gso_ok (g : Gso) : Prop := {
  go_wf : wf_bytes (input g);
  go_header : (header_len g <= length (input g))%nat;
  go_transport : (cs g + (if tcp g then 20 else 8) <= header_len g)%nat;
  go_csum : csum_at g = (cs g + if tcp g then 16 else 6)%nat;
  go_v4 : g_version g = 4 -> ip_header_len g = cs g /\ (20 <= cs g)%nat /\ Nat.Even (cs g) /\
            address_offset g = 12%nat /\ address_len g = 4%nat;
  go_v6 : g_version g <> 4 -> ip_header_len g = 40%nat /\ (40 <= cs g)%nat /\
            address_offset g = 8%nat /\ address_len g = 16%nat;
  go_size : 0 < g_gso_size g < 65536;
  go_sequence : is_u32 (sequence g);
  go_base_id : is_u16 (base_id g) }.

Definition payload_of (g : Gso) (i : nat) : list Z :=
  let gso := Z.to_nat (g_gso_size g) in field (input g) (header_len g + i * gso) gso.

(** The positions a segment does not share with the frame. *)
Definition rewritten (g : Gso) (k : nat) : Prop :=
  ((if (g_version g =? 4)%Z then 2 <= k < 6 \/ 10 <= k < 12 else 4 <= k < 6) \/
   (if tcp g then cs g + 4 <= k < cs g + 8 \/ k = cs g + 13 else cs g + 4 <= k < cs g + 6) \/
   csum_at g <= k < csum_at g + 2)%nat.

Definition protocol_of (g : Gso) : Z := if tcp g then 6 else 17.

(** [q] is the [i]-th packet of the frame. *)
Record is_segment (g : Gso) (i : nat) (q : list Z) : Prop := {
  seg_wf : wf_bytes q;
  seg_length : length q = (header_len g + length (payload_of g i))%nat;
  seg_bound : Z.of_nat (length q) <= 65535;
  seg_payload : drop (header_len g) q = payload_of g i;
  seg_kept k : (k < header_len g)%nat -> ~ rewritten g k -> q !! k = input g !! k;
  seg_ip : if g_version g =? 4
           then field q 2 2 = to_be_bytes 2 (Z.of_nat (length q)) /\
                field q 4 2 = to_be_bytes 2 (base_id g + Z.of_nat i) /\
                checksum little (take (ip_header_len g) q) 0 = 65535
           else field q 4 2 = to_be_bytes 2 (Z.of_nat (length q) - 40);
  seg_transport : if tcp g
           then field q (cs g + 4) 4 = to_be_bytes 4 (sequence g + g_gso_size g * Z.of_nat i) /\
                q !! (cs g + 13)%nat =
                  (fun f => if (i + 1 <? count g)%nat then Z.land f 0xF6 else f) <$> input g !! (cs g + 13)%nat
           else field q (cs g + 4) 2 = to_be_bytes 2 (Z.of_nat (length q - cs g));
  seg_checksum : checksum little (drop (cs g) q)
      (pseudo little (protocol_of g) (field q (address_offset g) (address_len g))
         (field q (address_offset g + address_len g) (address_len g)) (Z.of_nat (length q - cs g))) = 65535 }.

Lemma to_be_bytes_wrap16 z : to_be_bytes 2 (wrap16 z) = to_be_bytes 2 z.
Proof. apply (to_be_bytes_mod 2 z 2). lia. Qed.
Lemma to_be_bytes_wrap32 z : to_be_bytes 4 (wrap32 z) = to_be_bytes 4 z.
Proof. apply (to_be_bytes_mod 4 z 4). lia. Qed.

Lemma segment_ip4_spec base_id ihl total i v out :
  wf_bytes out -> (20 <= ihl <= length out)%nat ->
  exists q, segment_ip little 4 base_id ihl total i v out = Ret (q, Ok tt) /\ wf_bytes q /\
    same_except (fun k => (2 <= k < 6 \/ 10 <= k < 12)%nat) q out /\
    field q 2 2 = to_be_bytes 2 v /\ field q 4 2 = to_be_bytes 2 (base_id + Z.of_nat i) /\
    checksum little (take ihl q) 0 = 65535.
Proof.
  intros Hw Hi. unfold segment_ip. cbn [Z.eqb Pos.eqb].
  set (o1 := splice out 2 (to_be_bytes 2 v)). assert (length o1 = length out) as L1 by (apply length_splice; cbn; lia).
  rewrite (st_bind_ok _ _ _ o1 tt) by (apply put16_ok; lia).
  set (o2 := splice o1 4 (to_be_bytes 2 (wrap16 (base_id + wrap16 (Z.of_nat i))))).
  assert (length o2 = length out) as L2 by (unfold o2; rewrite length_splice; cbn; lia).
  rewrite (st_bind_ok _ _ _ o2 tt) by (apply put16_ok; lia).
  destruct (checksum_field o2 0 10 0 ihl) as (S & W & C); [subst o2 o1; auto with wf|lia|by exists 5%nat|lia|lia|done|].
  set (z := splice o2 10 (to_be_bytes 2 0)) in *. assert (length z = length out) as Lz by (unfold z; rewrite length_splice; cbn; lia).
  rewrite (st_bind_ok _ _ _ z tt) by (apply put16_ok; lia). rewrite st_bind_get, st_bind_lift, range_ok by lia.
  rewrite put16_ok by lia. eexists. split; [done|]. split; [done|].
  assert (same_except (fun k => (2 <= k < 4)%nat) o1 out) as S1 by (apply (same_except_splice out 2 (to_be_bytes 2 v)); cbn; lia).
  assert (same_except (fun k => (4 <= k < 6)%nat) o2 o1) as S2 by (apply (same_except_splice o1 4 (to_be_bytes 2 _)); cbn; lia).
  split; [|split; [|split]].
  - apply (same_except_trans _ _ _ _ _ _ S (same_except_trans _ _ (fun k => (2 <= k < 6)%nat) _ _ _ S2 S1 ltac:(positions))). positions.
  - rewrite (field_same _ _ _ _ _ S), (field_same _ _ _ _ _ S2) by positions. apply (field_splice out 2 (to_be_bytes 2 v)). cbn; lia.
  - rewrite (field_same _ _ _ _ _ S) by positions. unfold o2. rewrite (field_splice o1 4 (to_be_bytes 2 _)) by (cbn; lia).
    rewrite to_be_bytes_wrap16. rewrite <- to_be_bytes_wrap16. unfold wrap16. rewrite Zplus_mod_idemp_r. apply to_be_bytes_wrap16.
  - unfold field in C. by rewrite drop_0 in C.
Qed.

Lemma segment_ip6_spec ver base_id total i v out :
  ver <> 4 -> wf_bytes out -> (40 <= total)%nat -> Z.of_nat total <= 65535 -> (40 <= length out)%nat ->
  exists q, segment_ip little ver base_id 40 total i v out = Ret (q, Ok tt) /\ wf_bytes q /\
    same_except (fun k => (4 <= k < 6)%nat) q out /\ field q 4 2 = to_be_bytes 2 (Z.of_nat total - 40).
Proof.
  intros Hv Hw Ht Hb Hl. unfold segment_ip. destruct (Z.eqb_spec ver 4) as [|_]; [done|].
  destruct (Nat.ltb_spec total 40); [lia|]. rewrite st_bind_lift. unfold u16_try_from.
  destruct (Z.leb_spec (Z.of_nat (total - 40)) 65535); [|lia]. rewrite st_bind_lift, put16_ok by lia.
  eexists. split; [done|]. split; [auto with wf|]. split.
  - apply (same_except_splice out 4 (to_be_bytes 2 _)). positions.
  - rewrite (field_splice out 4 (to_be_bytes 2 _)) by positions. f_equal. lia.
Qed.

Lemma land_F6_u8 f : is_u8 f -> is_u8 (Z.land f 0xF6).
Proof.
  intros Hf. unfold is_u8 in *. split; [apply Z.land_nonneg; lia|].
  destruct (Z.eq_dec (Z.land f 0xF6) 0) as [->|]; [lia|].
  apply Z.log2_lt_cancel. change (Z.log2 256) with 8. pose proof (Z.log2_land f 0xF6 ltac:(lia) ltac:(lia)).
  change (Z.log2 0xF6) with 7 in *. lia.
Qed.

Lemma segment_transport_spec (t : bool) c i n seq gso tu out :
  wf_bytes out -> (c + (if t then 20 else 8) <= length out)%nat ->
  exists q, segment_transport t c i n seq gso tu out = Ret (q, Ok tt) /\ wf_bytes q /\
    same_except (fun k => if t then (c + 4 <= k < c + 8 \/ k = c + 13)%nat else (c + 4 <= k < c + 6)%nat) q out /\
    if t then field q (c + 4) 4 = to_be_bytes 4 (seq + gso * Z.of_nat i) /\
              q !! (c + 13)%nat = (fun f => if (i + 1 <? n)%nat then Z.land f 0xF6 else f) <$> out !! (c + 13)%nat
    else field q (c + 4) 2 = to_be_bytes 2 tu.
Proof.
  intros Hw Hl. unfold segment_transport. destruct t.
  2: { rewrite put16_ok by lia. eexists. split; [done|]. split; [auto with wf|].
       split; [|apply (field_splice out (c + 4) (to_be_bytes 2 _)); positions].
       eapply same_except_mono; [apply (same_except_splice out (c + 4) (to_be_bytes 2 _))|]; positions. }
  set (o1 := splice out (c + 4) (to_be_bytes 4 (wrap32 (seq + wrap32 (gso * wrap32 (Z.of_nat i)))))). assert (length o1 = length out) as L1 by (apply length_splice; positions).
  rewrite (st_bind_ok _ _ _ o1 tt) by (apply put32_ok; lia).
  assert (same_except (fun k => (c + 4 <= k < c + 8)%nat) o1 out) as S1.
  { eapply same_except_mono; [apply (same_except_splice out (c + 4) (to_be_bytes 4 _))|]; positions. }
  assert (field o1 (c + 4) 4 = to_be_bytes 4 (seq + gso * Z.of_nat i)) as F1.
  { unfold o1. rewrite (field_splice out (c + 4) (to_be_bytes 4 _)) by positions. rewrite to_be_bytes_wrap32.
    rewrite <- to_be_bytes_wrap32, <- (to_be_bytes_wrap32 (seq + _ * _)). f_equal. unfold wrap32.
    rewrite Zplus_mod_idemp_r, <- Zplus_mod_idemp_r, Zmult_mod_idemp_r, Zplus_mod_idemp_r. done. }
  assert (o1 !! (c + 13)%nat = out !! (c + 13)%nat) as E13 by (apply S1; lia).
  assert (wf_bytes o1) as W1 by (subst o1; auto with wf).
  destruct (i + 1 <? n)%nat.
  - rewrite st_bind_get. destruct (lookup_lt_is_Some_2 out (c + 13) ltac:(lia)) as [f Ef].
    rewrite E13, Ef. eexists. split; [done|].
    pose proof (same_except_insert o1 (c + 13) (Z.land f 0xF6)) as S2. split; [|split; [|split]].
    + apply Forall_insert; [done|]. apply land_F6_u8. eapply Forall_lookup_1; [|exact Ef]. done.
    + apply (same_except_trans _ _ _ _ _ _ S2 S1). positions.
    + rewrite (field_same _ _ _ _ _ S2) by positions. done.
    + rewrite list_lookup_insert_eq by lia. done.
  - exists o1. split; [done|]. split; [done|]. split; [|split; [done|]].
    + apply (same_except_trans _ _ _ _ _ _ (same_except_refl (fun _ => False) o1) S1). positions.
    + rewrite E13. by destruct (out !! (c + 13)%nat).
Qed.

Lemma payload_range g i :
  (header_len g + i * Z.to_nat (g_gso_size g) <= length (input g))%nat ->
  let start := (header_len g + i * Z.to_nat (g_gso_size g))%nat in
  get_range (input g) start (Nat.min (start + Z.to_nat (g_gso_size g)) (length (input g))) = Some (payload_of g i).
Proof.
  intros H start. unfold get_range. rewrite (proj2 (Nat.leb_le _ _)), (proj2 (Nat.leb_le _ _)) by lia. cbn [andb].
  f_equal. unfold payload_of, field. fold start. apply list_eq. intros k.
  destruct (decide (k < Nat.min (start + Z.to_nat (g_gso_size g)) (length (input g)) - start)%nat).
  - by rewrite !lookup_take_lt by lia.
  - rewrite lookup_take_ge by lia. symmetry. destruct (decide (k < Z.to_nat (g_gso_size g))%nat); [|by apply lookup_take_ge; lia].
    rewrite lookup_take_lt, lookup_drop by done. apply lookup_ge_None_2. lia.
Qed.

(** The IP header, whichever the version. *)
Lemma segment_ip_spec g i total out :
  gso_ok g -> wf_bytes out -> length out = total -> (header_len g <= total)%nat -> Z.of_nat total <= 65535 ->
  exists q, segment_ip little (g_version g) (base_id g) (ip_header_len g) total i (Z.of_nat total) out = Ret (q, Ok tt) /\
    wf_bytes q /\
    same_except (fun k => if g_version g =? 4 then (2 <= k < 6 \/ 10 <= k < 12)%nat else (4 <= k < 6)%nat) q out /\
    if g_version g =? 4
    then field q 2 2 = to_be_bytes 2 (Z.of_nat total) /\ field q 4 2 = to_be_bytes 2 (base_id g + Z.of_nat i) /\
         checksum little (take (ip_header_len g) q) 0 = 65535
    else field q 4 2 = to_be_bytes 2 (Z.of_nat total - 40).
Proof.
  intros Hg Hw Hl Ht Hb. pose proof (go_transport _ Hg).
  destruct (Z.eqb_spec (g_version g) 4) as [E|E].
  - destruct (go_v4 _ Hg E) as (E1 & H20 & _). rewrite E. apply segment_ip4_spec; [done|]. destruct (tcp g); lia.
  - destruct (go_v6 _ Hg E) as (E1 & H40 & _). rewrite E1. apply segment_ip6_spec; [done|done|..]; destruct (tcp g); lia.
Qed.

Lemma payload_of_length g i : (length (payload_of g i) <= Z.to_nat (g_gso_size g))%nat.
Proof. unfold payload_of, field. rewrite length_take. lia. Qed.

(** The headers of the frame followed by the segment's payload. *)
Definition raw_segment (g : Gso) (i : nat) : list Z := take (header_len g) (input g) ++ payload_of g i.

Lemma raw_segment_ok g i : gso_ok g ->
  length (raw_segment g i) = (header_len g + length (payload_of g i))%nat /\ wf_bytes (raw_segment g i) /\
  forall k, (k < header_len g)%nat -> raw_segment g i !! k = input g !! k.
Proof.
  intros Hg. pose proof (go_header _ Hg). unfold raw_segment. rewrite length_app, length_take_le by done.
  split; [done|]. split.
  - rewrite wf_bytes_app. unfold payload_of. pose proof (go_wf _ Hg). auto with wf.
  - intros k Hk. rewrite lookup_app_l by (rewrite length_take_le; lia). by apply lookup_take_lt.
Qed.

(** The addresses lie in the part of the header no segment rewrites. *)
Lemma address_bounds g : gso_ok g ->
  (address_offset g + 2 * address_len g <= cs g)%nat /\
  forall k, (address_offset g <= k < address_offset g + 2 * address_len g)%nat -> ~ rewritten g k.
Proof.
  intros Hg. pose proof (go_csum _ Hg). unfold rewritten. destruct (Z.eqb_spec (g_version g) 4) as [E|E].
  - destruct (go_v4 _ Hg E) as (_ & ? & _ & -> & ->). split; [lia|]. destruct (tcp g); lia.
  - destruct (go_v6 _ Hg E) as (_ & ? & -> & ->). split; [lia|]. destruct (tcp g); lia.
Qed.

Lemma protocol_u8 g : is_u8 (protocol_of g).
Proof. unfold protocol_of, is_u8. destruct (tcp g); lia. Qed.

Lemma pseudo_u16 p s d n : is_u8 p -> wf_bytes s -> wf_bytes d -> is_u16 n -> is_u16 (pseudo little p s d n).
Proof.
  intros Hp Hs Hd Hn. rewrite pseudo_spec by done. pose proof (be_sum_nonneg s Hs). pose proof (be_sum_nonneg d Hd).
  unfold is_u16, is_u8 in *. apply ones_sum_spec. lia.
Qed.

Definition ip_rewritten (g : Gso) (k : nat) : Prop :=
  if g_version g =? 4 then (2 <= k < 6 \/ 10 <= k < 12)%nat else (4 <= k < 6)%nat.
Definition transport_rewritten (g : Gso) (k : nat) : Prop :=
  if tcp g then (cs g + 4 <= k < cs g + 8 \/ k = cs g + 13)%nat else (cs g + 4 <= k < cs g + 6)%nat.

(** The stages of a segment: with its IP header, its transport header and its checksum. *)
Record stages (g : Gso) (i : nat) (q1 q2 q : list Z) : Prop := {
  sg_ip : same_except (ip_rewritten g) q1 (raw_segment g i);
  sg_transport : same_except (transport_rewritten g) q2 q1;
  sg_checksum : same_except (fun k => csum_at g <= k < csum_at g + 2)%nat q q2;
  sg_wf : wf_bytes q;
  sg_ip_fields : if g_version g =? 4
    then field q1 2 2 = to_be_bytes 2 (Z.of_nat (length q)) /\ field q1 4 2 = to_be_bytes 2 (base_id g + Z.of_nat i) /\
         checksum little (take (ip_header_len g) q1) 0 = 65535
    else field q1 4 2 = to_be_bytes 2 (Z.of_nat (length q) - 40);
  sg_transport_fields : if tcp g
    then field q2 (cs g + 4) 4 = to_be_bytes 4 (sequence g + g_gso_size g * Z.of_nat i) /\
         q2 !! (cs g + 13)%nat = (fun f => if (i + 1 <? count g)%nat then Z.land f 0xF6 else f) <$> q1 !! (cs g + 13)%nat
    else field q2 (cs g + 4) 2 = to_be_bytes 2 (Z.of_nat (length q - cs g));
  sg_sum : checksum little (field q (cs g) (length q - cs g))
      (pseudo little (protocol_of g) (field (input g) (address_offset g) (address_len g))
         (field (input g) (address_offset g + address_len g) (address_len g)) (Z.of_nat (length q - cs g))) = 65535 }.

Lemma header_bounds g : gso_ok g -> (cs g + 8 <= header_len g /\ csum_at g + 2 <= header_len g /\ cs g <= csum_at g)%nat.
Proof. intros Hg. pose proof (go_transport _ Hg). pose proof (go_csum _ Hg). destruct (tcp g); lia. Qed.

Lemma segment_packet_run g i slot :
  gso_ok g -> Z.of_nat (header_len g + length (payload_of g i)) <= 65535 ->
  let total := (header_len g + length (payload_of g i))%nat in
  exists q1 q2 q, segment_packet little g i (payload_of g i) (total - cs g) (Z.of_nat total) (Z.of_nat (total - cs g)) slot
      = Ret (q, Ok tt) /\ stages g i q1 q2 q.
Proof.
  intros Hg Hb total. pose proof (go_header _ Hg). pose proof (go_transport _ Hg). pose proof (go_csum _ Hg) as Hcs.
  destruct (raw_segment_ok g i Hg) as (Lr & Wr & Kr). destruct (address_bounds g Hg) as [Ha _]. fold total in Lr.
  destruct (header_bounds g Hg) as (Hh1 & Hh2 & Hh3). pose proof (go_wf _ Hg) as Hwf.
  unfold segment_packet. rewrite st_bind_put, st_bind_lift, range_ok by lia.
  unfold field at 1. rewrite drop_0, st_bind_put. fold (raw_segment g i).
  destruct (segment_ip_spec g i total (raw_segment g i)) as (q1 & E1 & W1 & S1 & F1); [done..|lia|done|].
  fold total. rewrite (st_bind_ok _ _ _ _ _ E1). pose proof (proj1 S1) as L1.
  destruct (segment_transport_spec (tcp g) (cs g) i (count g) (sequence g) (g_gso_size g) (Z.of_nat (total - cs g)) q1)
    as (q2 & E2 & W2 & S2 & F2); [done|destruct (tcp g); lia|]. rewrite (st_bind_ok _ _ _ _ _ E2). pose proof (proj1 S2) as L2.
  rewrite (st_bind_ok _ _ _ _ _ (put16_ok (csum_at g) 0 q2 ltac:(lia))).
  rewrite st_bind_lift, range_ok by lia. rewrite st_bind_lift, range_ok by lia.
  rewrite st_bind_get, st_bind_lift, range_ok by (rewrite length_splice; cbn; lia). fold (protocol_of g).
  rewrite put16_ok by (rewrite length_splice; cbn; lia).
  set (seed := pseudo little (protocol_of g) _ _ _).
  assert (is_u16 seed) as Hseed by (apply pseudo_u16; [apply protocol_u8|auto with wf|auto with wf|unfold is_u16; lia]).
  destruct (checksum_field q2 (cs g) (csum_at g) seed (total - cs g) W2 Hh3) as (S3 & W3 & C3);
    [rewrite Hcs, Nat.add_comm, Nat.add_sub; destruct (tcp g); [by exists 8%nat|by exists 3%nat]|lia|lia|done|].
  set (q := splice (splice q2 _ _) _ _) in *. pose proof (proj1 S3) as L3.
  assert (length q = total) as L by congruence. exists q1, q2, q. split; [done|]. by split; rewrite ?L.
Qed.

(** Fields of the header that no stage rewrites. *)
Lemma kept_field g i q j n :
  gso_ok g -> same_except (rewritten g) q (raw_segment g i) -> (j + n <= header_len g)%nat ->
  (forall k, (j <= k < j + n)%nat -> ~ rewritten g k) -> field q j n = field (input g) j n.
Proof.
  intros Hg S Hj Hk. pose proof (go_header _ Hg). rewrite (field_same _ _ _ _ _ S) by done. unfold raw_segment, field.
  rewrite drop_app_le, take_app_le, skipn_firstn_comm, take_take by (rewrite ?length_drop, length_take_le; lia). f_equal. lia.
Qed.

Lemma rewritten_below g k : gso_ok g -> rewritten g k -> (k < header_len g)%nat.
Proof.
  intros Hg. pose proof (go_transport _ Hg). pose proof (go_csum _ Hg). unfold rewritten.
  destruct (Z.eqb_spec (g_version g) 4) as [E|E].
  - destruct (go_v4 _ Hg E) as (_ & ? & _). destruct (tcp g); lia.
  - destruct (go_v6 _ Hg E) as (_ & ? & _). destruct (tcp g); lia.
Qed.

(** The IP header ends before the transport header. *)
Lemma ip_before_transport g k : gso_ok g -> (cs g <= k)%nat -> ~ ip_rewritten g k.
Proof.
  intros Hg Hk. unfold ip_rewritten. destruct (Z.eqb_spec (g_version g) 4) as [E|E].
  - destruct (go_v4 _ Hg E) as (_ & ? & _). lia.
  - destruct (go_v6 _ Hg E) as (_ & ? & _). lia.
Qed.

Lemma stages_raw g i q1 q2 q : stages g i q1 q2 q -> same_except (rewritten g) q (raw_segment g i).
Proof.
  intros [S1 S2 S3 _ _ _ _]. eapply same_except_trans; [exact S3| |].
  - exact (same_except_trans _ _ (fun k => transport_rewritten g k \/ ip_rewritten g k) _ _ _ S2 S1 ltac:(auto)).
  - unfold rewritten, ip_rewritten, transport_rewritten. intros k. destruct (_ =? _), (tcp g); lia.
Qed.

Lemma stages_segment g i q1 q2 q :
  gso_ok g -> Z.of_nat (header_len g + length (payload_of g i)) <= 65535 -> stages g i q1 q2 q -> is_segment g i q.
Proof.
  intros Hg Hb St. pose proof (stages_raw _ _ _ _ _ St) as S. destruct St as [S1 S2 S3 W F1 F2 C].
  destruct (raw_segment_ok g i Hg) as (Lr & _ & Kr). destruct (address_bounds g Hg) as [Ha Hna].
  destruct (header_bounds g Hg) as (Hh1 & Hh2 & Hh3). pose proof (proj1 S) as Lq. pose proof (go_header _ Hg) as Hhd.
  pose proof (go_csum _ Hg) as Hcs. pose proof (go_transport _ Hg) as Htr.
  assert (forall k, ip_rewritten g k -> (k < cs g)%nat) as Hip.
  { intros k Hk. destruct (decide (k < cs g)%nat); [done|]. exfalso. apply (ip_before_transport g k); [done|lia|done]. }
  assert (forall k, transport_rewritten g k -> (cs g <= k < csum_at g)%nat) as Htp.
  { unfold transport_rewritten. intros k. destruct (tcp g); lia. }
  split; [done|lia|lia|..].
  - rewrite <- (field_all q), (field_same _ _ _ _ _ S) by (intros k ? Hk; apply (rewritten_below g k Hg) in Hk; lia).
    rewrite Lq, field_all. unfold raw_segment. by rewrite drop_app_ge, length_take_le, Nat.sub_diag, drop_0 by (rewrite ?length_take_le; lia).
  - intros k Hk Hn. rewrite (proj2 S) by done. by apply Kr.
  - assert (forall j n, (j + n <= cs g)%nat -> field q j n = field q1 j n) as K.
    { intros j n Hj. rewrite (field_same _ _ _ _ _ S3) by lia. apply (field_same _ _ _ _ _ S2). intros k Hk Ht. apply Htp in Ht. lia. }
    destruct (Z.eqb_spec (g_version g) 4) as [E|E].
    + destruct (go_v4 _ Hg E) as (Ei & ? & _). rewrite !K by lia. destruct F1 as (? & ? & Hc). split_and!; [done..|].
      pose proof (K 0%nat (ip_header_len g) ltac:(lia)) as K0. unfold field in K0. rewrite !drop_0 in K0. by rewrite K0.
    + destruct (go_v6 _ Hg E) as (_ & ? & _). by rewrite K by lia.
  - destruct (tcp g) eqn:Et; rewrite (field_same _ _ _ _ _ S3) by lia; [|done]. destruct F2 as [F2 F13]. split; [done|].
    rewrite (proj2 S3) by lia. rewrite F13, (proj2 S1), Kr by (try apply ip_before_transport; done || lia). done.
  - rewrite <- field_all, (kept_field g i q (address_offset g) (address_len g)) by (done || lia || (intros; apply Hna; lia)).
    by rewrite (kept_field g i q (address_offset g + address_len g) (address_len g)) by (done || lia || (intros; apply Hna; lia)).
Qed.

(** The slots of a batch once [on_packet] has made room. *)
Definition slots (b : TunPacketBatch) (i : nat) : list (list Z) :=
  b_packets b ++ replicate (S i - length (b_packets b)) [].

Lemma on_packet_ok {A} i (f : st (list Z) A) b q a :
  (i < MAX_PACKETS)%nat -> (forall slot, f slot = Ret (q, a)) ->
  on_packet i f b = Ret ({| b_packets := <[i := q]> (slots b i); b_len := b_len b |}, a).
Proof.
  intros Hi Hf. unfold on_packet. rewrite (proj2 (Nat.leb_gt _ _)) by done. fold (slots b i).
  destruct (lookup_lt_is_Some_2 (slots b i) i) as [x Hx]; [unfold slots; rewrite length_app, length_replicate; lia|].
  by rewrite (idx_lookup _ _ _ Hx), run_bind_Ret, Hf.
Qed.

Lemma slots_insert b i q :
  <[i := q]> (slots b i) !! i = Some q /\
  forall j x, j <> i -> b_packets b !! j = Some x -> <[i := q]> (slots b i) !! j = Some x.
Proof.
  split.
  - apply list_lookup_insert_eq. unfold slots. rewrite length_app, length_replicate. lia.
  - intros j x Hj Hx. rewrite list_lookup_insert_ne by done. unfold slots. by apply lookup_app_l_Some.
Qed.

(** A turn of the loop: the segment in its slot, or an error. *)
Lemma segment_spec g i b :
  gso_ok g -> (i < MAX_PACKETS)%nat -> (header_len g + i * Z.to_nat (g_gso_size g) <= length (input g))%nat ->
  exists b' r, segment little g i b = Ret (b', r) /\ b_len b' = b_len b /\
    match r with
    | Err _ => 65535 < Z.of_nat (header_len g + length (payload_of g i))
    | Ok _ => (exists q, b_packets b' !! i = Some q /\ is_segment g i q) /\
              forall j x, j <> i -> b_packets b !! j = Some x -> b_packets b' !! j = Some x
    end.
Proof.
  intros Hg Hi Hp. unfold segment. cbv zeta. rewrite st_bind_lift, payload_range by done. cbn [ok_or].
  destruct (header_bounds g Hg) as (H1 & _). rewrite st_bind_lift, (proj2 (Nat.ltb_ge _ _)) by lia.
  rewrite st_bind_lift. unfold u16_try_from. destruct (Z.leb_spec (Z.of_nat (header_len g + length (payload_of g i))) 65535) as [Hb|Hb].
  2: { do 2 eexists. split; [done|]. split; [done|lia]. }
  rewrite st_bind_lift, (proj2 (Z.leb_le _ _)) by lia.
  destruct (segment_packet_run g i [] Hg Hb) as (q1 & q2 & q & E & St).
  rewrite (on_packet_ok i _ b q (Ok tt)) by (done || (intros slot; exact E)).
  destruct (slots_insert b i q) as [I1 I2]. do 2 eexists. split; [done|]. split; [done|]. split; [|exact I2].
  exists q. split; [exact I1|]. by eapply stages_segment.
Qed.

Lemma segment_loop_spec g n : forall i b,
  gso_ok g -> (i + n <= MAX_PACKETS)%nat ->
  (forall j, (i <= j < i + n)%nat -> (header_len g + j * Z.to_nat (g_gso_size g) <= length (input g))%nat) ->
  exists b' r, segment_loop little g (seq i n) b = Ret (b', r) /\ b_len b' = b_len b /\
    match r with
    | Err _ => exists j, (i <= j < i + n)%nat /\ 65535 < Z.of_nat (header_len g + length (payload_of g j))
    | Ok _ => (forall j, (i <= j < i + n)%nat -> exists q, b_packets b' !! j = Some q /\ is_segment g j q) /\
              forall j x, (j < i)%nat -> b_packets b !! j = Some x -> b_packets b' !! j = Some x
    end.
Proof.
  induction n as [|n IH]; intros i b Hg Hi Hp; cbn [seq segment_loop].
  { exists b, (Ok tt). split_and!; [done|done|lia|done]. }
  destruct (segment_spec g i b Hg ltac:(lia) (Hp i ltac:(lia))) as (b1 & [[]|e] & E & Lb & H1).
  2: { rewrite (st_bind_err _ _ _ _ _ E). exists b1, (Err e). split_and!; [done..|]. exists i. split; [lia|done]. }
  rewrite (st_bind_ok _ _ _ _ _ E). destruct H1 as [(q & Hq & Sq) K1].
  destruct (IH (S i) b1 Hg ltac:(lia)) as (b2 & r & E2 & Lb2 & H2); [intros; apply Hp; lia|].
  exists b2, r. split; [done|]. split; [congruence|]. destruct r as [u|e].
  - destruct H2 as [H2 K2]. split.
    + intros j Hj. destruct (decide (j = i)) as [->|]; [|apply H2; lia]. exists q. split; [apply K2; [lia|done]|done].
    + intros j x Hj Hx. apply K2; [lia|]. apply K1; [lia|done].
  - destruct H2 as (j & Hj & Hb). exists j. split; [lia|done].
Qed.

(** ** A frame that stays one packet *)

(** The packet of a frame that is not cut: the frame, with its partial checksum
    completed when the header asks for it. *)
Definition whole_packet (flags : Z) (input : list Z) (cs csum_at : nat) : list Z :=
  if Z.land flags VIRTIO_NET_HDR_F_NEEDS_CSUM =? 0 then input
  else
    let seed := from_be_bytes (field input csum_at 2) in
    let zeroed := splice input csum_at (to_be_bytes 2 0) in
    splice zeroed csum_at (to_be_bytes 2 (not16 (checksum little (drop cs zeroed) seed))).

Lemma complete_checksum_spec input cs csum_at :
  (cs <= csum_at)%nat -> (csum_at + 2 <= length input)%nat ->
  complete_checksum little cs csum_at input = Ret (whole_packet 1 input cs csum_at, Ok tt).
Proof.
  intros Hc Hl. unfold complete_checksum. rewrite st_bind_get, st_bind_lift, be16_ok by lia.
  rewrite (st_bind_ok _ _ _ _ _ (put16_ok csum_at 0 input ltac:(lia))), st_bind_get.
  assert (length (splice input csum_at (to_be_bytes 2 0)) = length input) as L by (apply length_splice; cbn; lia).
  rewrite (st_bind_run _ (length input - cs)%nat) by (unfold sub_usize; rewrite L, (proj2 (Nat.leb_le _ _)) by lia; done).
  rewrite st_bind_lift, range_ok by lia. rewrite put16_ok by lia. rewrite <- L at 1. by rewrite field_all.
Qed.

Lemma copy_single_spec input flags cs csum_at b :
  (cs <= csum_at)%nat -> (csum_at + 2 <= length input)%nat ->
  exists b', copy_single little input flags cs csum_at b = Ret (b', Ok tt) /\ b_len b' = 1%nat /\
    b_packets b' !! 0%nat = Some (whole_packet flags input cs csum_at).
Proof.
  intros Hc Hl. unfold copy_single.
  match goal with |- context [on_packet 0 ?f] =>
    assert (forall slot, f slot = Ret (whole_packet flags input cs csum_at, Ok tt)) as Hf end.
  { intros slot. rewrite st_bind_put. unfold whole_packet. destruct (_ =? 0); cbn [negb]; [done|].
    by rewrite complete_checksum_spec. }
  rewrite (st_bind_ok _ _ _ _ _ (on_packet_ok 0 _ b _ (Ok tt) ltac:(unfold MAX_PACKETS; lia) Hf)).
  rewrite st_bind_get. eexists. split; [done|]. split; [done|]. exact (proj1 (slots_insert b 0 _)).
Qed.

(** ** The frame as a whole *)

(** The view of a frame that is cut, from its header and the length of its
    transport header. *)
Definition frame_gso (h : VirtioHdr) (input : list Z) (thl : nat) : Gso :=
  let cs := Z.to_nat (csum_start h) in
  let version := Z.shiftr (byte_at input 0) 4 in
  let tcp := is_tcp_gso (gso_type h) in
  let v4 := version =? 4 in
  {| input := input; cs := cs; csum_at := (cs + Z.to_nat (csum_offset h))%nat; header_len := (cs + thl)%nat;
     g_version := version;
     ip_header_len := if v4 then (Z.to_nat (Z.land (byte_at input 0) 0x0f) * 4)%nat else 40%nat;
     address_offset := if v4 then 12%nat else 8%nat; address_len := if v4 then 4%nat else 16%nat;
     tcp := tcp; g_gso_size := v_gso_size h;
     sequence := if tcp then from_be_bytes (field input (cs + 4) 4) else 0;
     base_id := if v4 then from_be_bytes (field input 4 2) else 0;
     count := div_ceil (length input - (cs + thl)) (Z.to_nat (v_gso_size h)) |}.

(** The packets a frame stands for. *)
Inductive frame_split (raw : list Z) : list (list Z) -> Prop :=
| split_one h :
    virtio_header little raw = Ret (Ok h) ->
    frame_split raw [whole_packet (v_flags h) (drop VIRTIO_NET_HDR_LEN raw) (Z.to_nat (csum_start h))
                       (Z.to_nat (csum_start h) + Z.to_nat (csum_offset h))]
| split_many h thl ps :
    virtio_header little raw = Ret (Ok h) ->
    let g := frame_gso h (drop VIRTIO_NET_HDR_LEN raw) thl in
    transport_header (input g) (gso_type h) (cs g) = Ok thl -> gso_ok g ->
    length ps = count g -> (forall i q, ps !! i = Some q -> is_segment g i q) ->
    concat (drop (header_len g) <$> ps) = drop (header_len g) (input g) ->
    frame_split raw ps.

Lemma div_ceil_bounds a b : (0 < b)%nat -> (a <= div_ceil a b * b /\ forall i, i < div_ceil a b -> i * b < a \/ a = 0)%nat.
Proof.
  intros Hb. unfold div_ceil. pose proof (Nat.div_mod_eq a b) as E. pose proof (Nat.mod_upper_bound a b ltac:(lia)).
  destruct (Nat.eqb_spec (a mod b) 0) as [E0|E0]; split; [nia|intros i Hi; nia|nia|intros i Hi].
  assert (i <= a / b)%nat by lia. nia.
Qed.

(** Cut into pieces of [n], a list is the concatenation of the pieces. *)
Lemma concat_pieces {A} (n : nat) : forall k (l : list A), (0 < n)%nat -> (length l <= k * n)%nat ->
  concat ((fun i => field l (i * n) n) <$> seq 0 k) = l.
Proof.
  induction k as [|k IH]; intros l Hn Hl; [by destruct l; [|cbn in Hl; lia]|].
  cbn [seq fmap list_fmap concat]. etrans; [|exact (take_drop n l)]. f_equal.
  etrans; [|apply (IH (drop n l))]; [|done|rewrite length_drop; lia]. f_equal. rewrite <- fmap_S_seq, <- list_fmap_compose.
  apply list_fmap_ext. intros _ i _. unfold field. cbn [compose]. by rewrite drop_drop.
Qed.

Lemma field_value_bound l i n : wf_bytes l -> 0 <= from_be_bytes (field l i n) < 256 ^ Z.of_nat n.
Proof.
  intros Hl. pose proof (from_be_bytes_bound (field l i n) ltac:(auto with wf)) as B.
  assert (length (field l i n) <= n)%nat by (unfold field; rewrite length_take; lia).
  assert (256 ^ Z.of_nat (length (field l i n)) <= 256 ^ Z.of_nat n) by (apply Z.pow_le_mono_r; lia). lia.
Qed.

Section frame.
Variables (h : VirtioHdr) (inp : list Z) (thl : nat).
Let g := frame_gso h inp thl.
Hypothesis Hwf : wf_bytes inp.
Hypothesis Hsize : 0 < v_gso_size h < 65536.
Hypothesis Htype : gso_type h = GSO_TCPV4 \/ gso_type h = GSO_UDP_L4 \/ gso_type h = GSO_TCPV6.
Hypothesis Hthl : transport_header inp (gso_type h) (cs g) = Ok thl.
Hypothesis Hhead : (header_len g <= length inp)%nat.

(** The checks of [split_gso] on the layout of the frame. *)
Definition layout_checked : bool :=
  match ip_layout inp (byte_at inp 0) (gso_type h) (cs g) with
  | Ok (n, _, _) =>
      negb (((g_version g =? 4) && negb (cs g =? n)%nat) || negb (csum_at g =? cs g + if tcp g then 16 else 6)%nat
            || (cs g + thl <? csum_at g + 2)%nat) && negb (tcp g && (thl <? 20)%nat)
  | Err _ => false
  end.

Lemma transport_len : (if tcp g then (20 <= thl <= 60)%nat else thl = 8%nat).
Proof.
  unfold transport_header in Hthl. cbn [frame_gso tcp g] in *. unfold is_tcp_gso.
  destruct Htype as [E|[E|E]]; rewrite E in *; cbn [Z.eqb Pos.eqb orb GSO_TCPV4 GSO_UDP_L4 GSO_TCPV6] in *; [|congruence|];
    (destruct (inp !! _) as [byte|]; [|done]; cbn [ok_or] in Hthl;
     unfold mbind, result_bind in Hthl; revert Hthl;
     destruct (Nat.ltb_spec (Z.to_nat (Z.shiftr byte 4) * 4) 20), (Nat.ltb_spec 60 (Z.to_nat (Z.shiftr byte 4) * 4)); cbn [orb];
     intros Hx; [discriminate Hx..|]; injection Hx as <-; lia).
Qed.

Lemma layout_address n ao al :
  ip_layout inp (byte_at inp 0) (gso_type h) (cs g) = Ok (n, ao, al) ->
  n = ip_header_len g /\ ao = address_offset g /\ al = address_len g /\
  (g_version g = 4 -> (20 <= n)%nat /\ Nat.Even n) /\ (g_version g <> 4 -> (40 <= cs g)%nat).
Proof.
  unfold ip_layout. cbn [frame_gso ip_header_len address_offset address_len g_version g].
  destruct (Z.eqb_spec (Z.shiftr (byte_at inp 0) 4) 4) as [E4|E4].
  - destruct (negb _); [done|]. set (ihl := (_ * 4)%nat).
    destruct (Nat.ltb_spec ihl 20), (Nat.ltb_spec 60 ihl), (Nat.ltb_spec (length inp) ihl); cbn [orb]; try done.
    intros [= <- <- <-]. split_and!; [done..| |done]. intros _. split; [done|]. exists (Z.to_nat (Z.land (byte_at inp 0) 15) * 2)%nat. lia.
  - destruct (Z.eqb_spec (Z.shiftr (byte_at inp 0) 4) 6); [|done]. destruct (negb _); [done|]. destruct (length inp <? 40)%nat; [done|].
    destruct (Nat.ltb_spec (cs g) 40); [done|]. intros [= <- <- <-]. by split_and!.
Qed.

Lemma layout_gso_ok : layout_checked = true -> gso_ok g.
Proof.
  unfold layout_checked. destruct (ip_layout _ _ _ _) as [[[n ao] al]|] eqn:E; [|done]. intros Hc.
  apply andb_true_iff in Hc as [Hc _]. apply negb_true_iff in Hc. rewrite !orb_false_iff in Hc. destruct Hc as [[C1 C2] C3].
  destruct (layout_address _ _ _ E) as (E1 & E2 & E3 & H4 & H6). pose proof transport_len as Ht.
  apply negb_false_iff, Nat.eqb_eq in C2. split.
  - done.
  - done.
  - change (header_len g) with (cs g + thl)%nat. destruct (tcp g); lia.
  - done.
  - intros Ev. rewrite Ev in C1. cbn [andb] in C1. apply negb_false_iff, Nat.eqb_eq in C1. destruct (H4 Ev) as [H20 He].
    split; [congruence|]. rewrite C1. split_and!; [done..| |]; cbn [address_offset address_len frame_gso g g_version] in *; by rewrite Ev.
  - intros Ev. cbn [ip_header_len address_offset address_len frame_gso g g_version] in *. rewrite (proj2 (Z.eqb_neq _ 4)) by done.
    split_and!; auto.
  - done.
  - cbn [sequence frame_gso g]. destruct (is_tcp_gso _); [|done]. by apply (field_value_bound inp _ 4).
  - cbn [base_id frame_gso g]. destruct (_ =? 4); [|done]. by apply (field_value_bound inp _ 2).
Qed.

Lemma first_byte : inp !! 0%nat = Some (byte_at inp 0).
Proof.
  pose proof transport_len. change (header_len g) with (cs g + thl)%nat in Hhead.
  destruct inp as [|x l]; [|done]. cbn in Hhead. destruct (tcp g); lia.
Qed.

Lemma split_gso_unchecked b :
  layout_checked = false -> exists e, split_gso little inp h (cs g) (csum_at g) (header_len g) thl b = Ret (b, Err e).
Proof.
  unfold layout_checked, split_gso. rewrite first_byte. cbn [ok_or]. rewrite st_bind_lift. cbv zeta. rewrite st_bind_lift.
  destruct (ip_layout _ _ _ _) as [[[n ao] al]|e]; [|by eexists].
  change (is_tcp_gso (gso_type h)) with (tcp g). change (Z.shiftr (byte_at inp 0) 4) with (g_version g).
  destruct (_ || _); cbn [negb andb]; [by eexists|]. destruct (tcp g && _); [by eexists|done].
Qed.

Lemma split_gso_checked b :
  layout_checked = true ->
  split_gso little inp h (cs g) (csum_at g) (header_len g) thl b =
  if (length inp - header_len g <? Z.to_nat (v_gso_size h))%nat
  then copy_single little inp (v_flags h) (cs g) (csum_at g) b
  else if (count g =? 0)%nat then Ret (b, Err "empty GSO payload"%string)
  else if (MAX_PACKETS <? count g)%nat then Ret (b, Err "too many GSO segments"%string)
  else (segment_loop little g (seq 0 (count g)) ≫= fun _ => b ← st_get; st_put (set_len b (count g))) b.
Proof.
  intros Hc. pose proof (layout_gso_ok Hc) as Hg. revert Hc.
  unfold layout_checked, split_gso. rewrite first_byte. cbn [ok_or]. rewrite st_bind_lift. cbv zeta. rewrite st_bind_lift.
  destruct (ip_layout _ _ _ _) as [[[n ao] al]|e] eqn:El; [|done]. destruct (layout_address _ _ _ El) as (-> & -> & -> & _).
  change (is_tcp_gso (gso_type h)) with (tcp g). change (Z.shiftr (byte_at inp 0) 4) with (g_version g).
  destruct (_ || _); cbn [negb andb]; [done|]. destruct (tcp g && _); [done|]. intros _.
  rewrite (st_bind_run _ (length inp - header_len g)%nat) by (unfold sub_usize; by rewrite (proj2 (Nat.leb_le _ _))).
  destruct (_ <? _)%nat; [done|]. change (div_ceil (length inp - header_len g) (Z.to_nat (v_gso_size h))) with (count g).
  destruct (_ =? 0)%nat; [done|]. destruct (MAX_PACKETS <? _)%nat; [done|].
  destruct (header_bounds _ Hg) as (H1 & _). rewrite !st_bind_lift.
  assert ((if tcp g then be32 inp (cs g + 4) else Ok 0) = Ok (sequence g)) as ->.
  { unfold g at 3. cbn [sequence frame_gso]. change (is_tcp_gso (gso_type h)) with (tcp g).
    destruct (tcp g); [|done]. rewrite be32_ok by lia. done. }
  rewrite st_bind_lift. assert ((if g_version g =? 4 then be16 inp 4 else Ok 0) = Ok (base_id g)) as ->.
  { unfold g at 2. cbn [base_id frame_gso]. change (Z.shiftr (byte_at inp 0) 4) with (g_version g).
    destruct (Z.eqb_spec (g_version g) 4) as [E|]; [|done]. destruct (go_v4 _ Hg E) as (_ & ? & _). rewrite be16_ok by lia. done. }
  done.
Qed.

(** All the payload of the frame is in its segments. *)
Lemma segments_payload ps :
  length ps = count g -> (forall i q, ps !! i = Some q -> is_segment g i q) ->
  concat (drop (header_len g) <$> ps) = drop (header_len g) inp.
Proof.
  intros Hl Hp. assert (drop (header_len g) <$> ps = payload_of g <$> seq 0 (count g)) as ->.
  { apply list_eq. intros i. rewrite !list_lookup_fmap. destruct (ps !! i) as [q|] eqn:E; cbn [fmap option_fmap option_map].
    - apply lookup_lt_Some in E as Hi. rewrite lookup_seq_lt by lia. cbn [fmap option_fmap option_map]. by rewrite (seg_payload _ _ _ (Hp i q E)).
    - apply lookup_ge_None in E. rewrite lookup_seq_ge by lia. done. }
  etrans; [|apply (concat_pieces (Z.to_nat (v_gso_size h)) (count g) (drop (header_len g) inp)); [lia|]].
  - f_equal. apply list_fmap_ext. intros _ i _. unfold payload_of, field. rewrite drop_drop. done.
  - rewrite length_drop. apply div_ceil_bounds. lia.
Qed.

Lemma split_gso_spec b :
  layout_checked = true -> (csum_at g + 2 <= length inp)%nat ->
  exists b' r, split_gso little inp h (cs g) (csum_at g) (header_len g) thl b = Ret (b', r) /\
    match r with
    | Ok _ => b_len b' = 1%nat /\ b_packets b' !! 0%nat = Some (whole_packet (v_flags h) inp (cs g) (csum_at g)) \/
              b_len b' = count g /\ forall i, (i < count g)%nat -> exists q, b_packets b' !! i = Some q /\ is_segment g i q
    | Err _ => True
    end.
Proof.
  intros Hc Hcs. pose proof (layout_gso_ok Hc) as Hg. rewrite split_gso_checked by done.
  destruct (header_bounds _ Hg) as (_ & _ & H3). destruct (Nat.ltb_spec (length inp - header_len g) (Z.to_nat (v_gso_size h))) as [Hp|Hp].
  { destruct (copy_single_spec inp (v_flags h) (cs g) (csum_at g) b H3 Hcs) as (b' & E & L & K). exists b', (Ok tt). auto. }
  destruct (_ =? 0)%nat; [by do 2 eexists|]. destruct (Nat.ltb_spec MAX_PACKETS (count g)); [by do 2 eexists|].
  destruct (segment_loop_spec g (count g) 0 b Hg ltac:(lia)) as (b1 & [[]|e] & E & _ & H1).
  - intros j [_ Hj]. destruct (div_ceil_bounds (length inp - header_len g) (Z.to_nat (v_gso_size h)) ltac:(lia)) as [_ Hd].
    specialize (Hd j Hj). cbn [input frame_gso g g_gso_size] in *. lia.
  - rewrite (st_bind_ok _ _ _ _ _ E), st_bind_get. exists (set_len b1 (count g)), (Ok tt). split; [done|]. right. split; [done|].
    intros i Hi. apply H1. lia.
  - rewrite (st_bind_err _ _ _ _ _ E). by do 2 eexists.
Qed.

(** A frame whose segments are few and small enough is cut. *)
Lemma split_gso_success b :
  layout_checked = true -> (Z.to_nat (v_gso_size h) <= length inp - header_len g)%nat -> (0 < count g <= MAX_PACKETS)%nat ->
  Z.of_nat (header_len g) + v_gso_size h <= 65535 ->
  exists b', split_gso little inp h (cs g) (csum_at g) (header_len g) thl b = Ret (b', Ok tt) /\
    b_len b' = count g /\ forall i, (i < count g)%nat -> exists q, b_packets b' !! i = Some q /\ is_segment g i q.
Proof.
  intros Hc Hp [Hn1 Hn2] Hb. pose proof (layout_gso_ok Hc) as Hg. rewrite split_gso_checked by done.
  rewrite (proj2 (Nat.ltb_ge _ _)), (proj2 (Nat.eqb_neq _ _)), (proj2 (Nat.ltb_ge _ _)) by lia.
  destruct (segment_loop_spec g (count g) 0 b Hg ltac:(lia)) as (b1 & [[]|e] & E & _ & H1).
  - intros j [_ Hj]. destruct (div_ceil_bounds (length inp - header_len g) (Z.to_nat (v_gso_size h)) ltac:(lia)) as [_ Hd].
    specialize (Hd j Hj). cbn [input frame_gso g g_gso_size] in *. lia.
  - rewrite (st_bind_ok _ _ _ _ _ E), st_bind_get. exists (set_len b1 (count g)). split; [done|]. split; [done|].
    intros i Hi. apply H1. lia.
  - destruct H1 as (j & _ & Hj). pose proof (payload_of_length g j). cbn [g_gso_size frame_gso g] in *. lia.
Qed.

End frame.

(** The packets of a batch whose slots are known. *)
Lemma batch_collect b n (P : nat -> list Z -> Prop) :
  b_len b = n -> (forall i, (i < n)%nat -> exists q, b_packets b !! i = Some q /\ P i q) ->
  exists ps, batch_packets b = Ret ps /\ length ps = n /\ forall i q, ps !! i = Some q -> P i q.
Proof.
  intros Hl Hp. assert (n <= length (b_packets b))%nat as Hn.
  { destruct n as [|n]; [lia|]. destruct (Hp n ltac:(lia)) as (q & Hq & _). by apply lookup_lt_Some in Hq. }
  exists (take n (b_packets b)). unfold batch_packets. rewrite Hl, slice_ok, Nat.sub_0_r, drop_0 by lia.
  split; [done|]. split; [by apply length_take_le|]. intros i q Hi. apply lookup_take_Some in Hi as [Hi Hlt].
  destruct (Hp i Hlt) as (q' & Hq' & HP). congruence.
Qed.

Lemma virtio_header_ok raw :
  (10 <= length raw)%nat -> wf_bytes raw -> exists h, virtio_header little raw = Ret (Ok h) /\
    is_u16 (v_gso_size h).
Proof.
  intros Hl Hw. unfold virtio_header. destruct (Nat.ltb_spec (length raw) VIRTIO_NET_HDR_LEN) as [H|_]; [unfold VIRTIO_NET_HDR_LEN in H; lia|].
  run_steps. eexists. split; [done|]. cbn [v_gso_size]. fold (field raw 4 2). unfold is_u16.
  pose proof (from_ne_bound little (field raw 4 2) ltac:(auto with wf)) as B. rewrite length_field in B by lia. exact B.
Qed.

Lemma split_inner_eq raw h b :
  (10 <= length raw)%nat -> virtio_header little raw = Ret (Ok h) ->
  split_virtio_inner little raw b = split_input little h (drop VIRTIO_NET_HDR_LEN raw) b.
Proof.
  intros Hl Eh. unfold split_virtio_inner. rewrite (st_bind_run _ _ _ _ Eh), st_bind_lift, st_bind_lift.
  pose proof (get_range_ok raw VIRTIO_NET_HDR_LEN (length raw - VIRTIO_NET_HDR_LEN) ltac:(unfold VIRTIO_NET_HDR_LEN; lia)) as E.
  rewrite field_all in E. replace (VIRTIO_NET_HDR_LEN + _)%nat with (length raw) in E by (unfold VIRTIO_NET_HDR_LEN; lia).
  by rewrite E.
Qed.

(** The code returns an error. *)
Ltac fails := do 2 eexists; split; [reflexivity|discriminate].

Lemma split_input_spec raw h b :
  wf_bytes raw -> virtio_header little raw = Ret (Ok h) -> is_u16 (v_gso_size h) ->
  exists b' r, split_input little h (drop VIRTIO_NET_HDR_LEN raw) b = Ret (b', r) /\
    (r = Ok tt -> exists ps, batch_packets b' = Ret ps /\ frame_split raw ps).
Proof.
  intros Hw Eh Hs. set (inp := drop VIRTIO_NET_HDR_LEN raw). assert (wf_bytes inp) as Hi by (subst inp; auto with wf).
  assert (forall b', b_len b' = 1%nat ->
    b_packets b' !! 0%nat = Some (whole_packet (v_flags h) inp (Z.to_nat (csum_start h)) (Z.to_nat (csum_start h) + Z.to_nat (csum_offset h))) ->
    exists ps, batch_packets b' = Ret ps /\ frame_split raw ps) as Hone.
  { intros b' L K. eexists. split; [|by apply split_one]. unfold batch_packets. destruct (b_packets b') as [|x l] eqn:E; [done|].
    injection K as ->. by rewrite L, slice_ok by (cbn; lia). }
  unfold split_input. destruct (negb _) eqn:Ety; [fails|]. destruct (negb (gso_type h =? GSO_NONE) && _) eqn:Ez; [fails|].
  cbv zeta. destruct (Nat.ltb_spec (length inp) (Z.to_nat (csum_start h) + Z.to_nat (csum_offset h) + 2)) as [|Hcs]; [fails|].
  destruct (Z.eqb_spec (gso_type h) GSO_NONE) as [En|En].
  { unfold split_none. destruct ((length inp <? Z.to_nat (hdr_len h))%nat || _); [fails|].
    destruct (copy_single_spec inp (v_flags h) (Z.to_nat (csum_start h)) (Z.to_nat (csum_start h) + Z.to_nat (csum_offset h)) b) as (b' & E & L & K);
      [lia|lia|]. exists b', (Ok tt). split; [done|]. intros _. by apply Hone. }
  rewrite st_bind_lift. destruct (transport_header inp (gso_type h) (Z.to_nat (csum_start h))) as [thl|e] eqn:Et; [|fails].
  destruct (Nat.ltb_spec (length inp) (Z.to_nat (csum_start h) + thl)) as [|Hh]; [fails|].
  assert (0 < v_gso_size h < 65536) as Hsz by (unfold is_u16 in Hs; destruct (Z.eqb_spec (v_gso_size h) 0); [done|lia]).
  assert (gso_type h = GSO_TCPV4 \/ gso_type h = GSO_UDP_L4 \/ gso_type h = GSO_TCPV6) as Hty.
  { apply negb_false_iff in Ety. rewrite !orb_true_iff, !Z.eqb_eq in Ety.
    destruct Ety as [[[|]|]|]; [done|auto..]. }
  destruct (layout_checked h inp thl) eqn:El.
  2: { edestruct (split_gso_unchecked h inp thl) as [e E]; [done..|]. exists b, (Err e). split; [exact E|done]. }
  edestruct (split_gso_spec h inp thl) as (b' & r & E & Hr); [done..|]. exists b', r. split; [exact E|].
  intros ->. destruct Hr as [[L K]|[L K]]; [by apply Hone|]. destruct (batch_collect b' _ _ L K) as (ps & Eb & Lp & Hp).
  exists ps. split; [done|]. apply (split_many raw h thl ps); [done|exact Et| |done|done|].
  - by apply (layout_gso_ok h inp thl).
  - by apply (segments_payload h inp thl).
Qed.

Lemma split_virtio_segments raw h thl batch :
  let inp := drop VIRTIO_NET_HDR_LEN raw in let g := frame_gso h inp thl in
  wf_bytes raw -> (10 <= length raw)%nat -> virtio_header little raw = Ret (Ok h) -> 0 < v_gso_size h < 65536 ->
  gso_type h = GSO_TCPV4 \/ gso_type h = GSO_UDP_L4 \/ gso_type h = GSO_TCPV6 ->
  transport_header inp (gso_type h) (cs g) = Ok thl -> (header_len g <= length inp)%nat -> layout_checked h inp thl = true ->
  (Z.to_nat (v_gso_size h) <= length inp - header_len g)%nat -> (0 < count g <= MAX_PACKETS)%nat ->
  Z.of_nat (header_len g) + v_gso_size h <= 65535 ->
  exists b qs, split_virtio little raw batch = Ret (b, Ok tt) /\ batch_packets b = Ret qs /\ length qs = count g /\
    forall i q, qs !! i = Some q -> is_segment g i q.
Proof.
  intros inp g Hw Hl Eh Hsz Hty Et Hh Hlay Hp Hc Hb. assert (wf_bytes inp) as Hi by (subst inp; auto with wf).
  pose proof (layout_gso_ok h inp thl Hi Hsz Hty Et Hh Hlay) as Hg. fold g in Hg. destruct (header_bounds _ Hg) as (_ & Hcs & _).
  edestruct (split_gso_success h inp thl) as (b' & E & L & K); [done..|].
  destruct (batch_collect b' _ _ L K) as (qs & Eb & Lq & Hq). exists b', qs. split; [|done].
  unfold split_virtio. rewrite (split_inner_eq raw h) by done. fold inp. unfold split_input.
  assert ((gso_type h =? GSO_NONE) = false) as -> by (apply Z.eqb_neq; destruct Hty as [->|[->| ->]]; done).
  assert (((gso_type h =? GSO_TCPV4) || (gso_type h =? GSO_UDP_L4) || (gso_type h =? GSO_TCPV6)) = true) as Ety
    by (rewrite !orb_true_iff, !Z.eqb_eq; tauto).
  cbn [orb]. rewrite Ety. cbn [negb andb]. rewrite (proj2 (Z.eqb_neq _ 0)) by lia. cbv zeta.
  rewrite (proj2 (Nat.ltb_ge _ _)) by (change (csum_at g + 2 <= length inp)%nat; lia).
  rewrite st_bind_lift. change (Z.to_nat (csum_start h)) with (cs g). rewrite Et.
  rewrite (proj2 (Nat.ltb_ge _ _)) by (change (header_len g <= length inp)%nat; done).
  change (cs g + Z.to_nat (csum_offset h))%nat with (csum_at g). change (cs g + thl)%nat with (header_len g).
  by rewrite E, run_bind_Ret.
Qed.

(** C13. Splitting a frame always returns.  On an error the batch is empty.  On
    success the packets are the frame itself, its checksum completed if it asks
    for that, or the segments of the frame: their payloads concatenate to the
    frame's payload, each has the frame's headers with its own lengths,
    identification, sequence number and flags, and its IP and transport
    checksums are valid. *)
Theorem split_virtio_correct (raw : list Z) (batch : TunPacketBatch) :
  wf_bytes raw ->
  exists b r, split_virtio little raw batch = Ret (b, r) /\
    match r with
    | Ok _ => exists ps, batch_packets b = Ret ps /\ frame_split raw ps
    | Err _ => batch_packets b = Ret []
    end.
Proof.
  intros Hw. unfold split_virtio. set (b0 := batch_clear batch).
  assert (exists b r, split_virtio_inner little raw b0 = Ret (b, r) /\
    (r = Ok tt -> exists ps, batch_packets b = Ret ps /\ frame_split raw ps)) as (b & [[]|e] & -> & H).
  - destruct (decide (10 <= length raw)%nat) as [Hl|Hl].
    + destruct (virtio_header_ok raw Hl Hw) as (h & Eh & Hs). rewrite (split_inner_eq raw h) by done. by apply split_input_spec.
    + unfold split_virtio_inner, virtio_header. rewrite (proj2 (Nat.ltb_lt _ _)) by (unfold VIRTIO_NET_HDR_LEN; lia). fails.
  - exists b, (Ok tt). auto.
  - exists (batch_clear b), (Err e). split; [done|]. unfold batch_packets. by rewrite slice_ok by (cbn; lia).
Qed.

End spec.

(** A frame of 10 payload bytes to be cut every 4. *)
Definition example_frame : list Z :=
  [1; 1; 40; 0; 4; 0; 20; 0; 16; 0] ++
  [69; 0; 0; 50; 0; 7; 64; 0; 64; 6; 0; 0; 10; 0; 0; 1; 10; 0; 0; 2] ++
  [0; 80; 1; 187; 0; 0; 0; 100; 0; 0; 0; 9; 80; 24; 2; 0; 0; 0; 0; 0] ++ [1; 2; 3; 4; 5; 6; 7; 8; 9; 10].

Lemma split_virtio_correct_witness :
  (exists b ps, split_virtio true example_frame batch_new = Ret (b, Ok tt) /\ batch_packets b = Ret ps /\
    frame_split true example_frame ps) /\
  (split_virtio true example_frame batch_new ≫= fun r => batch_packets r.1 ≫= fun ps => Ret (map length ps)) = Ret [44; 44; 42]%nat.
Proof.
  split; [|by vm_compute].
  destruct (split_virtio_correct true example_frame batch_new ltac:(apply (bool_decide_unpack _); by vm_compute)) as (b & r & E & H).
  assert ((split_virtio true example_frame batch_new ≫= fun r => Ret r.2) = Ret (Ok tt)) as E' by (by vm_compute).
  rewrite E in E'. injection E' as ->. destruct H as (ps & H1 & H2). by exists b, ps.
Defined.
