(* ===== verification/Gro.v ===== *)
(** * Coalescing TCP segments: [crates/tun/src/offload.rs], [linux.rs]

    A batch of packets on its way to the device is planned as a list of outputs:
    an output is one packet, or several segments of one TCP flow to be written as
    one frame.  Segments are joined by packet index; the head packet of a frame is
    then rewritten to account for its fragments.

    The iteration order of the hash table of flows is unspecified: [values] lists
    the entries of a table in some order. *)

From S2P Require Import Prelude Bytes Checksum Gso.

Definition MAX_GRO_IOVECS : nat := 1024.
Definition TCP : Z := 6.
Definition TCP_ACK : Z := 0x10.
Definition TCP_PSH : Z := 0x08.

(** Additions and subtractions on [u16]: they panic when they overflow. *)
Definition add_u16 (a b : Z) : run Z := if a + b <=? 65535 then Ret (a + b) else Panic.
Definition sub_u16 (a b : Z) : run Z := if b <=? a then Ret (a - b) else Panic.
(** [Vec::pop]: the last element and the rest. *)
Definition vec_pop {A} (l : list A) : option (A * list A) :=
  match rev l with [] => None | x :: r => Some (x, rev r) end.
(** [Vec::remove]. *)
Definition vec_remove {A} (l : list A) (i : nat) : run (list A) :=
  if decide (i < length l)%nat then Ret (delete i l) else Panic.

(** ** Data *)

Record PayloadFragment : Type := { f_packet : nat; f_start : nat; f_end : nat }.
Record GroOutput : Type := { o_header : list Z; o_head : nat; o_fragments : list PayloadFragment }.

(** [GroOutput::iovec_count]. *)
Definition iovec_count (o : GroOutput) : nat := (2 + length (o_fragments o))%nat.

Record TcpFlowKey : Type := {
  k_src : list Z; k_dst : list Z; k_src_port : Z; k_dst_port : Z; k_ack : Z; k_v6 : bool }.

#[global] Instance TcpFlowKey_eq_dec : EqDecision TcpFlowKey.
Proof. solve_decision. Defined.
#[global] Instance TcpFlowKey_countable : Countable TcpFlowKey.
Proof.
  apply (inj_countable' (fun k => (k_src k, k_dst k, k_src_port k, k_dst_port k, k_ack k, k_v6 k))
           (fun '(s, d, sp, dp, a, v) => Build_TcpFlowKey s d sp dp a v)).
  by intros [].
Defined.

Record TcpMeta : Type := {
  m_key : TcpFlowKey; m_ip_len : nat; m_tcp_len : nat; m_payload : nat; m_seq : Z; m_psh : bool }.

Record TcpItem : Type := {
  i_key : TcpFlowKey; i_output : nat; sent_seq : Z; payload_len : Z; i_gso_size : Z;
  i_ip_len : Z; i_tcp_len : Z; i_psh : bool }.

Inductive Coalesce : Type := Prepend | No | Append.

#[global] Instance Coalesce_eq_dec : EqDecision Coalesce.
Proof. solve_decision. Defined.

Record TcpGroState : Type := {
  flows : gmap TcpFlowKey (list TcpItem);
  item_pool : list (list TcpItem);
  outputs : list GroOutput;
  output_pool : list GroOutput }.

Definition gro_default : TcpGroState := {| flows := ∅; item_pool := []; outputs := []; output_pool := [] |}.

(** ** Reading a TCP packet *)

(** The version match of [tcp_meta]: [Some v6] for a packet it goes on with. *)
Definition tcp_version (packet : list Z) : run (option bool) :=
  b0 ← idx packet 0;
  is4 ← (if (Z.shiftr b0 4 =? 4) && (Z.land b0 0x0f =? 5) then b9 ← idx packet 9; Ret (b9 =? TCP) else Ret false);
  if (is4 : bool) then
    len ← slice packet 2 4; b6 ← idx packet 6; b7 ← idx packet 7;
    Ret (if negb (from_be_bytes len =? Z.of_nat (length packet)) || negb (Z.land b6 0x20 =? 0)
            || negb (wrap8 (Z.shiftl b6 3) =? 0) || negb (b7 =? 0)
         then None else Some false)
  else
    is6 ← (if (Z.shiftr b0 4 =? 6) && (60 <=? length packet)%nat then b6 ← idx packet 6; Ret (b6 =? TCP) else Ret false);
    if (is6 : bool) then
      len ← slice packet 4 6; n ← sub_usize (length packet) 40;
      Ret (if negb (from_be_bytes len =? Z.of_nat n) then None else Some true)
    else Ret None.

(** The position and size of the addresses. *)
Definition address_at (v6 : bool) : nat * nat := if v6 then (8, 16)%nat else (12, 4)%nat.

(** The key, sequence number and sizes of a segment whose flags are known. *)
Definition tcp_segment (packet : list Z) (v6 : bool) (ip_len tcp_len payload : nat) (flags : Z) : run TcpMeta :=
  let (address, size) := address_at v6 in
  s ← slice packet address (address + size); src ← copy_to (replicate 16 0) 0 size s;
  d ← slice packet (address + size) (address + 2 * size); dst ← copy_to (replicate 16 0) 0 size d;
  sp ← slice packet ip_len (ip_len + 2); dp ← slice packet (ip_len + 2) (ip_len + 4);
  ack ← slice packet (ip_len + 8) (ip_len + 12); sq ← slice packet (ip_len + 4) (ip_len + 8);
  Ret {| m_key := {| k_src := src; k_dst := dst; k_src_port := from_be_bytes sp; k_dst_port := from_be_bytes dp;
                     k_ack := from_be_bytes ack; k_v6 := v6 |};
         m_ip_len := ip_len; m_tcp_len := tcp_len; m_payload := payload; m_seq := from_be_bytes sq;
         m_psh := negb (Z.land flags TCP_PSH =? 0) |}.

(** [tcp_meta]. *)
Definition tcp_meta (packet : list Z) : run (option TcpMeta) :=
  if (65535 <? Z.of_nat (length packet)) || (length packet <? 40)%nat then Ret None
  else
    version ← tcp_version packet;
    match (version : option bool) with
    | None => Ret None
    | Some v6 =>
        let ip_len := if v6 then 40%nat else 20%nat in
        match packet !! (ip_len + 12)%nat with
        | None => Ret None
        | Some b =>
            let tcp_len := (Z.to_nat (Z.shiftr b 4) * 4)%nat in
            if negb ((20 <=? tcp_len) && (tcp_len <=? 60))%nat || (length packet <? ip_len + tcp_len)%nat then Ret None
            else
              match packet !! (ip_len + 13)%nat with
              | None => Ret None
              | Some flags =>
                  if negb (flags =? TCP_ACK) && negb (flags =? Z.lor TCP_ACK TCP_PSH) then Ret None
                  else
                    n ← sub_usize (length packet) ip_len; payload ← sub_usize n tcp_len;
                    if (payload =? 0)%nat then Ret None
                    else m ← tcp_segment packet v6 ip_len tcp_len payload flags; Ret (Some m)
              end
        end
    end.

(** [ip_headers_match]. *)
Definition ip_headers_match (packet head : list Z) (v6 : bool) : run bool :=
  if v6 then
    p0 ← idx packet 0; h0 ← idx head 0; p1 ← idx packet 1; h1 ← idx head 1; p7 ← idx packet 7; h7 ← idx head 7;
    Ret ((p0 =? h0) && (Z.shiftr p1 4 =? Z.shiftr h1 4) && (p7 =? h7))
  else
    p1 ← idx packet 1; h1 ← idx head 1; p6 ← idx packet 6; h6 ← idx head 6; p8 ← idx packet 8; h8 ← idx head 8;
    Ret ((p1 =? h1) && (Z.shiftr p6 5 =? Z.shiftr h6 5) && (p8 =? h8)).

Section gro.
Variable little : bool.
Variable values : gmap TcpFlowKey (list TcpItem) -> list (list TcpItem).

(** [tcp_checksum_valid]. *)
Definition tcp_checksum_valid (packet : list Z) (ip_len : nat) (v6 : bool) : run bool :=
  let (address, size) := address_at v6 in
  let length_ := Z.of_nat (length packet - ip_len) in
  if 65535 <? length_ then Ret false
  else
    s ← slice packet address (address + size); d ← slice packet (address + size) (address + 2 * size);
    body ← slice_from packet ip_len;
    Ret (not16 (checksum little body (pseudo little TCP s d length_)) =? 0).

(** ** Planning *)

(** [TcpGroState::reset]. *)
Definition reset (s : TcpGroState) : TcpGroState :=
  {| flows := ∅;
     item_pool := item_pool s ++ map (fun _ => []) (values (flows s));
     outputs := [];
     output_pool := output_pool s ++
       map (fun o => {| o_header := o_header o; o_head := o_head o; o_fragments := [] |}) (outputs s) |}.

(** [TcpGroState::push_scalar]: a recycled output has all of its fields overwritten. *)
Definition push_scalar (outputs output_pool : list GroOutput) (packet : nat) : list GroOutput * list GroOutput :=
  (outputs ++ [{| o_header := replicate VIRTIO_NET_HDR_LEN 0; o_head := packet; o_fragments := [] |}],
   match vec_pop output_pool with Some (_, pool) => pool | None => output_pool end).

(** [TcpGroState::item]. *)
Definition item (meta : TcpMeta) (output : nat) : TcpItem :=
  {| i_key := m_key meta; i_output := output; sent_seq := m_seq meta;
     payload_len := wrap16 (Z.of_nat (m_payload meta)); i_gso_size := wrap16 (Z.of_nat (m_payload meta));
     i_ip_len := wrap8 (Z.of_nat (m_ip_len meta)); i_tcp_len := wrap8 (Z.of_nat (m_tcp_len meta)); i_psh := m_psh meta |}.

(** [TcpGroState::output_is_single]. *)
Definition output_is_single (outputs : list GroOutput) (output : nat) : run bool :=
  o ← idx outputs output; Ret (match o_fragments o with [] => true | _ => false end).

(** The sequence numbers' part of [can_coalesce]. *)
Definition coalesce_mode (meta : TcpMeta) (item : TcpItem) (iovecs : nat) : Coalesce :=
  let payload := Z.of_nat (m_payload meta) in
  if m_seq meta =? wrap32 (sent_seq item + payload_len item) then
    if i_psh item || negb (payload_len item mod i_gso_size item =? 0) || (i_gso_size item <? payload) then No else Append
  else if wrap32 (m_seq meta + wrap32 payload) =? sent_seq item then
    if m_psh meta || (payload <? i_gso_size item) || ((i_gso_size item <? payload) && (2 <? iovecs)%nat) then No else Prepend
  else No.

(** [TcpGroState::can_coalesce]. *)
Definition can_coalesce (outputs : list GroOutput) (packet : list Z) (meta : TcpMeta) (item : TcpItem)
    (packets : list (list Z)) : run Coalesce :=
  output ← idx outputs (i_output item);
  if (MAX_GRO_IOVECS <=? iovec_count output)%nat then Ret No
  else
    head ← idx packets (o_head output);
    if negb (Z.of_nat (m_tcp_len meta) =? i_tcp_len item) then Ret No
    else
      same ← ip_headers_match packet head (k_v6 (m_key meta));
      if negb same || (65535 <? Z.of_nat (m_ip_len meta + m_tcp_len meta) + payload_len item + Z.of_nat (m_payload meta))
      then Ret No
      else
        options ← (if (20 <? m_tcp_len meta)%nat then
                     p ← slice packet (m_ip_len meta + 20) (m_ip_len meta + m_tcp_len meta);
                     h ← slice head (Z.to_nat (i_ip_len item) + 20) (Z.to_nat (i_ip_len item) + Z.to_nat (i_tcp_len item));
                     Ret (bool_decide (p = h))
                   else Ret true);
        Ret (if negb options then No else coalesce_mode meta item (iovec_count output)).

(** [TcpGroState::merge], for a [mode] other than [No]. *)
Definition merge (outputs : list GroOutput) (packet : nat) (meta : TcpMeta) (item : TcpItem) (mode : Coalesce)
    (packets : list (list Z)) : run (list GroOutput * TcpItem) :=
  output ← idx outputs (i_output item);
  r ← (if decide (mode = Prepend) then
         old ← idx packets (o_head output);
         Ret ({| o_header := o_header output; o_head := packet;
                 o_fragments := {| f_packet := o_head output;
                                   f_start := (Z.to_nat (i_ip_len item) + Z.to_nat (i_tcp_len item))%nat;
                                   f_end := length old |} :: o_fragments output |}, (m_seq meta, i_psh item))
       else
         Ret ({| o_header := o_header output; o_head := o_head output;
                 o_fragments := o_fragments output ++
                   [{| f_packet := packet; f_start := (m_ip_len meta + m_tcp_len meta)%nat;
                       f_end := (m_ip_len meta + m_tcp_len meta + m_payload meta)%nat |}] |},
              (sent_seq item, if m_psh meta then true else i_psh item)));
  let '(output, (sq, psh)) := r in
  outputs ← idx_set outputs (i_output item) output;
  len ← add_u16 (payload_len item) (wrap16 (Z.of_nat (m_payload meta)));
  Ret (outputs, {| i_key := i_key item; i_output := i_output item; sent_seq := sq; payload_len := len;
                   i_gso_size := Z.max (i_gso_size item) (wrap16 (Z.of_nat (m_payload meta)));
                   i_ip_len := i_ip_len item; i_tcp_len := i_tcp_len item; i_psh := psh |}).

(** The loop of [tcp_gro] over [item_index], from [k - 1] down to 0, and the code after it. *)
Fixpoint coalesce_loop (packet : nat) (meta : TcpMeta) (packets : list (list Z)) (k : nat) (items : list TcpItem)
    (outputs output_pool : list GroOutput) : run (list TcpItem * (list GroOutput * list GroOutput)) :=
  match k with
  | O => Ret (items ++ [item meta (length outputs)], push_scalar outputs output_pool packet)
  | S item_index =>
      it ← idx items item_index;
      p ← idx packets packet;
      mode ← can_coalesce outputs p meta it packets;
      if decide (mode = No) then coalesce_loop packet meta packets item_index items outputs output_pool
      else
        single ← output_is_single outputs (i_output it);
        corrupt ← (if (single : bool) then
                     o ← idx outputs (i_output it); head ← idx packets (o_head o);
                     v ← tcp_checksum_valid head (Z.to_nat (i_ip_len it)) (k_v6 (i_key it)); Ret (negb v)
                   else Ret false);
        if (corrupt : bool) then
          items ← vec_remove items item_index;
          coalesce_loop packet meta packets item_index items outputs output_pool
        else
          v ← tcp_checksum_valid p (m_ip_len meta) (k_v6 (m_key meta));
          if negb v then Ret (items, push_scalar outputs output_pool packet)
          else
            r ← merge outputs packet meta it mode packets;
            items ← idx_set items item_index r.2;
            Ret (items, (r.1, output_pool))
  end.

(** [TcpGroState::tcp_gro]. *)
Definition tcp_gro (s : TcpGroState) (packet : nat) (meta : TcpMeta) (packets : list (list Z)) : run TcpGroState :=
  match flows s !! m_key meta with
  | None =>
      let '(os, op) := push_scalar (outputs s) (output_pool s) packet in
      Ret {| flows := <[m_key meta := [item meta (length (outputs s))]]> (flows s);
             item_pool := match vec_pop (item_pool s) with Some (_, pool) => pool | None => item_pool s end;
             outputs := os; output_pool := op |}
  | Some items =>
      r ← coalesce_loop packet meta packets (length items) items (outputs s) (output_pool s);
      let '(items, (os, op)) := r in
      Ret {| flows := <[m_key meta := items]> (flows s); item_pool := item_pool s; outputs := os; output_pool := op |}
  end.

(** The loop of [plan] over [index]. *)
Fixpoint plan_loop (s : TcpGroState) (packets : list (list Z)) (indices : list nat) : run TcpGroState :=
  match indices with
  | [] => Ret s
  | index :: indices =>
      p ← idx packets index;
      meta ← tcp_meta p;
      match (meta : option TcpMeta) with
      | None =>
          let '(os, op) := push_scalar (outputs s) (output_pool s) index in
          plan_loop {| flows := flows s; item_pool := item_pool s; outputs := os; output_pool := op |} packets indices
      | Some m => s ← tcp_gro s index m packets; plan_loop s packets indices
      end
  end.

(** ** Accounting *)

(** [vnet_tcp_header]. *)
Definition vnet_tcp_header (item : TcpItem) : run (list Z) :=
  headers ← add_u16 (i_ip_len item) (i_tcp_len item);
  Ret ([VIRTIO_NET_HDR_F_NEEDS_CSUM; if k_v6 (i_key item) then GSO_TCPV6 else GSO_TCPV4]
       ++ to_ne_bytes little 2 headers ++ to_ne_bytes little 2 (i_gso_size item)
       ++ to_ne_bytes little 2 (i_ip_len item) ++ to_ne_bytes little 2 16).

(** The IP header of a head packet with its new length. *)
Definition account_ip (item : TcpItem) (total : Z) (packet : list Z) : run (list Z) :=
  if k_v6 (i_key item) then
    n ← sub_u16 total (i_ip_len item); copy_to packet 4 6 (to_be_bytes 2 n)
  else
    packet ← copy_to packet 2 4 (to_be_bytes 2 total);
    packet ← copy_to packet 10 12 [0; 0];
    header ← slice packet 0 (Z.to_nat (i_ip_len item));
    copy_to packet 10 12 (to_be_bytes 2 (not16 (checksum little header 0))).

(** The partial transport checksum of a head packet. *)
Definition account_seed (item : TcpItem) (total : Z) (packet : list Z) : run (list Z) :=
  let (address, size) := address_at (k_v6 (i_key item)) in
  s ← slice packet address (address + size); d ← slice packet (address + size) (address + 2 * size);
  n ← sub_u16 total (i_ip_len item);
  let seed := checksum little [] (pseudo little TCP s d n) in
  let checksum_at := (Z.to_nat (i_ip_len item) + 16)%nat in
  copy_to packet checksum_at (checksum_at + 2) (to_be_bytes 2 seed).

(** The body of the loop of [apply_accounting]. *)
Definition account (item : TcpItem) (outputs : list GroOutput) (packets : list (list Z))
  : run (list GroOutput * list (list Z)) :=
  output ← idx outputs (i_output item);
  match o_fragments output with
  | [] => Ret (outputs, packets)
  | _ =>
      headers ← add_u16 (i_ip_len item) (i_tcp_len item); total ← add_u16 headers (payload_len item);
      packet ← idx packets (o_head output);
      packet ← (if i_psh item then
                  let at_ := (Z.to_nat (i_ip_len item) + 13)%nat in
                  f ← idx packet at_; idx_set packet at_ (Z.lor f TCP_PSH)
                else Ret packet);
      header ← vnet_tcp_header item;
      outputs ← idx_set outputs (i_output item)
                  {| o_header := header; o_head := o_head output; o_fragments := o_fragments output |};
      packet ← account_ip item total packet;
      packet ← account_seed item total packet;
      packets ← idx_set packets (o_head output) packet;
      Ret (outputs, packets)
  end.

Fixpoint account_loop (items : list TcpItem) (outputs : list GroOutput) (packets : list (list Z))
  : run (list GroOutput * list (list Z)) :=
  match items with
  | [] => Ret (outputs, packets)
  | item :: items => r ← account item outputs packets; account_loop items r.1 r.2
  end.

(** [TcpGroState::apply_accounting]. *)
Definition apply_accounting (s : TcpGroState) (packets : list (list Z)) : run (TcpGroState * list (list Z)) :=
  r ← account_loop (concat (values (flows s))) (outputs s) packets;
  Ret ({| flows := flows s; item_pool := item_pool s; outputs := r.1; output_pool := output_pool s |}, r.2).

(** [TcpGroState::plan]: the state and the packets as they are left. *)
Definition plan (s : TcpGroState) (packets : list (list Z)) : run (TcpGroState * list (list Z)) :=
  s ← plan_loop (reset s) packets (seq 0 (length packets));
  apply_accounting s packets.

(** ** Writing an output *)

Definition SSIZE_MAX : Z := 2 ^ 63 - 1.

(** [vnet_write_len]. *)
Definition vnet_write_len (packet_len : nat) : result string Z :=
  let total := Z.of_nat VIRTIO_NET_HDR_LEN + Z.of_nat packet_len in
  if 2 ^ 64 <=? total then Err "VNET frame length overflow"%string
  else if SSIZE_MAX <? total then Err "VNET frame length exceeds ssize_t"%string
  else Ok total.

(** The fragments of [gro_write_iovecs] and the length of the frame. *)
Fixpoint write_fragments (packets : list (list Z)) (fragments : list PayloadFragment) (total : Z)
  : result string (list (list Z) * Z) :=
  match fragments with
  | [] => Ok ([], total)
  | f :: fragments =>
      packet ← ok_or (packets !! f_packet f) "GRO fragment packet index out of bounds"%string;
      bytes ← ok_or (get_range packet (f_start f) (f_end f)) "GRO fragment range out of bounds"%string;
      let total := total + Z.of_nat (length bytes) in
      if 2 ^ 64 <=? total then Err "VNET frame length overflow"%string
      else if SSIZE_MAX <? total then Err "VNET frame length exceeds ssize_t"%string
      else r ← write_fragments packets fragments total; Ok (bytes :: r.1, r.2)
  end.

(** [gro_write_iovecs]: the memory the vectors point to, and its length. *)
Definition gro_write_iovecs (slots : nat) (output : GroOutput) (packets : list (list Z))
  : result string (list (list Z) * Z) :=
  let count := iovec_count output in
  if ((MAX_GRO_IOVECS <? count) || (slots <? count))%nat then Err "too many VNET iovecs"%string
  else if 2 ^ 31 - 1 <? Z.of_nat count then Err "iov count exceeds C int"%string
  else
    head ← ok_or (packets !! o_head output) "GRO head packet index out of bounds"%string;
    total ← vnet_write_len (length head);
    r ← write_fragments packets (o_fragments output) total;
    Ok (o_header output :: head :: r.1, r.2).

End gro.
