(* ===== verification/GroSpec.v ===== *)
(** * Correctness of TCP coalescing

    [segment_of p m] says what [tcp_meta] reads.  A plan distributes the packets
    over its outputs, each exactly once; the packets of an output with fragments
    are consecutive segments of one flow with valid checksums.  Cut by
    [split_virtio], the frame written for such an output gives back segments with
    the sequence numbers, flags, options and payloads that went in. *)

From S2P Require Import Prelude Bytes Checksum Gso GsoSpec Gro.

(** ** What a TCP segment is *)

Definition ip_len_of (v6 : bool) : nat := if v6 then 40 else 20.

Definition version_ok (v6 : bool) (p : list Z) : Prop :=
  if v6 then
    Z.shiftr (byte_at p 0) 4 = 6 /\ (60 <= length p)%nat /\ byte_at p 6 = TCP /\
    from_be_bytes (field p 4 2) = Z.of_nat (length p - 40)
  else
    Z.shiftr (byte_at p 0) 4 = 4 /\ Z.land (byte_at p 0) 0x0f = 5 /\ byte_at p 9 = TCP /\
    from_be_bytes (field p 2 2) = Z.of_nat (length p) /\
    Z.land (byte_at p 6) 0x20 = 0 /\ wrap8 (Z.shiftl (byte_at p 6) 3) = 0 /\ byte_at p 7 = 0.

(** The flow of a packet. *)
Definition key_of (v6 : bool) (p : list Z) : TcpFlowKey :=
  let '(address, size) := address_at v6 in
  let ip_len := ip_len_of v6 in
  {| k_src := field p address size ++ replicate (16 - size) 0;
     k_dst := field p (address + size) size ++ replicate (16 - size) 0;
     k_src_port := from_be_bytes (field p ip_len 2); k_dst_port := from_be_bytes (field p (ip_len + 2) 2);
     k_ack := from_be_bytes (field p (ip_len + 8) 4); k_v6 := v6 |}.

Record segment_of (p : list Z) (m : TcpMeta) : Prop := {
  so_max : Z.of_nat (length p) <= 65535;
  so_version : version_ok (k_v6 (m_key m)) p;
  so_ip_len : m_ip_len m = ip_len_of (k_v6 (m_key m));
  so_tcp_len : m_tcp_len m = (Z.to_nat (Z.shiftr (byte_at p (m_ip_len m + 12)) 4) * 4)%nat;
  so_tcp_len_ok : (20 <= m_tcp_len m <= 60)%nat;
  so_length : length p = (m_ip_len m + m_tcp_len m + m_payload m)%nat;
  so_payload : (0 < m_payload m)%nat;
  so_flags : byte_at p (m_ip_len m + 13) = if m_psh m then Z.lor TCP_ACK TCP_PSH else TCP_ACK;
  so_key : m_key m = key_of (k_v6 (m_key m)) p;
  so_seq : m_seq m = from_be_bytes (field p (m_ip_len m + 4) 4) }.

(** The bytes two segments of a frame must have in common: the type of service,
    fragmentation bits and hop limit, and the TCP options. *)
Definition likeness (v6 : bool) (tcp_len : nat) (p : list Z) : list Z * list Z :=
  (if v6 then [byte_at p 0; Z.shiftr (byte_at p 1) 4; byte_at p 7]
   else [byte_at p 1; Z.shiftr (byte_at p 6) 5; byte_at p 8],
   field p (ip_len_of v6 + 20) (tcp_len - 20)).

Lemma lookup_byte_at (p : list Z) i : (i < length p)%nat -> p !! i = Some (byte_at p i).
Proof. intros H. apply idx_byte_at in H. unfold idx, expect in H. by destruct (p !! i); simplify_eq/=. Qed.

(** An optional answer against the conditions it stands for. *)
Ltac settle :=
  split; [intros [=]; subst; split_and?; first [done|lia]|intros; destruct_and?; first [done|congruence|lia]].

(** [tcp_version] without the checks of the indices. *)
Lemma tcp_version_spec p :
  (40 <= length p)%nat -> exists o, tcp_version p = Ret o /\ forall v6, o = Some v6 <-> version_ok v6 p.
Proof.
  intros Hl. unfold tcp_version. rewrite (idx_byte_at p 0), run_bind_Ret by lia.
  destruct (Z.eqb_spec (Z.shiftr (byte_at p 0) 4) 4) as [E4|E4];
    [destruct (Z.eqb_spec (Z.land (byte_at p 0) 15) 5) as [E5|E5]|]; cbn [andb].
  1: rewrite (idx_byte_at p 9), run_bind_Ret, run_bind_Ret by lia; destruct (Z.eqb_spec (byte_at p 9) TCP) as [E9|E9].
  { rewrite slice_field, run_bind_Ret by lia. rewrite (idx_byte_at p 6), (idx_byte_at p 7), !run_bind_Ret by lia.
    eexists. split; [done|]. intros v6. unfold version_ok. cbn [Nat.sub].
    destruct (Z.eqb_spec (from_be_bytes (field p 2 2)) (Z.of_nat (length p))), (Z.eqb_spec (Z.land (byte_at p 6) 32) 0),
      (Z.eqb_spec (wrap8 (Z.shiftl (byte_at p 6) 3)) 0), (Z.eqb_spec (byte_at p 7) 0); cbn [negb orb];
      destruct v6; settle. }
  all: rewrite ?run_bind_Ret; destruct (Z.eqb_spec (Z.shiftr (byte_at p 0) 4) 6) as [E6|E6];
    [destruct (Nat.leb_spec 60 (length p)) as [E60|E60]|]; cbn [andb]; rewrite ?run_bind_Ret.
  all: try (exists None; split; [done|]; unfold version_ok; intros []; settle).
  all: try congruence.
  rewrite (idx_byte_at p 6), !run_bind_Ret by lia. destruct (Z.eqb_spec (byte_at p 6) TCP) as [Et|Et].
  2: exists None; split; [done|]; unfold version_ok; intros []; settle.
  rewrite slice_field, run_bind_Ret by lia. unfold sub_usize. rewrite (proj2 (Nat.leb_le _ _)), run_bind_Ret by lia.
  eexists. split; [done|]. intros v6. unfold version_ok. cbn [Nat.sub].
  destruct (Z.eqb_spec (from_be_bytes (field p 4 2)) (Z.of_nat (length p - 40))); cbn [negb]; destruct v6; settle.
Qed.

Lemma copy_prefix (x : list Z) n : length x = n -> (n <= 16)%nat -> copy_to (replicate 16 0) 0 n x = Ret (x ++ replicate (16 - n) 0).
Proof.
  intros Hx Hn. unfold copy_to. rewrite decide_True by (rewrite length_replicate; lia).
  by rewrite take_0, drop_replicate.
Qed.

Lemma tcp_segment_spec p v6 tcp_len payload flags :
  (ip_len_of v6 + 20 <= length p)%nat ->
  tcp_segment p v6 (ip_len_of v6) tcp_len payload flags =
  Ret {| m_key := key_of v6 p; m_ip_len := ip_len_of v6; m_tcp_len := tcp_len; m_payload := payload;
         m_seq := from_be_bytes (field p (ip_len_of v6 + 4) 4); m_psh := negb (Z.land flags TCP_PSH =? 0) |}.
Proof.
  intros Hl. unfold tcp_segment, key_of.
  assert (exists address size, address_at v6 = (address, size) /\ (address + 2 * size = ip_len_of v6 /\ size <= 16)%nat)
    as (address & size & -> & Ha & Hs) by (destruct v6; cbn; eauto with lia).
  cbv beta iota zeta. rewrite !slice_field by lia.
  do 2 (rewrite run_bind_Ret, copy_prefix, run_bind_Ret by (rewrite ?length_field; lia)). rewrite !run_bind_Ret.
  repeat f_equal; lia.
Qed.

(** A packet has one reading. *)
Lemma segment_of_version p m1 m2 :
  segment_of p m1 -> segment_of p m2 -> k_v6 (m_key m1) = k_v6 (m_key m2).
Proof.
  intros H1 H2. apply so_version in H1, H2. unfold version_ok in *.
  destruct (k_v6 (m_key m1)), (k_v6 (m_key m2)); [done|..|done]; destruct_and?; congruence.
Qed.

Lemma segment_of_inj p m1 m2 : segment_of p m1 -> segment_of p m2 -> m1 = m2.
Proof.
  intros H1 H2. pose proof (segment_of_version _ _ _ H1 H2) as Ev.
  destruct H1 as [_ _ I1 T1 _ L1 _ F1 K1 S1], H2 as [_ _ I2 T2 _ L2 _ F2 K2 S2].
  assert (m_ip_len m1 = m_ip_len m2) as Ei by congruence. assert (m_tcp_len m1 = m_tcp_len m2) as Et by congruence.
  assert (m_payload m1 = m_payload m2) as Ep by lia. assert (m_key m1 = m_key m2) as Ek by congruence.
  assert (m_seq m1 = m_seq m2) as Es by congruence.
  assert (m_psh m1 = m_psh m2) as Eh by (rewrite Ei in F1; rewrite F1 in F2; by destruct (m_psh m1), (m_psh m2)).
  destruct m1, m2. cbn in *. congruence.
Qed.

Lemma meta_answer p m : segment_of p m -> forall m', Some m = Some m' <-> segment_of p m'.
Proof. intros H m'. split; [congruence|]. intros H'. by rewrite (segment_of_inj p m m'). Qed.

Lemma tcp_meta_spec p :
  exists o, tcp_meta p = Ret o /\ forall m, o = Some m <-> segment_of p m.
Proof.
  unfold tcp_meta. destruct (Z.ltb_spec 65535 (Z.of_nat (length p))) as [Hmax|Hmax];
    [|destruct (Nat.ltb_spec (length p) 40) as [Hmin|Hmin]]; cbn [orb].
  1-2: exists None; split; [done|]; intros m; split; [done|]; intros [? _ Hi _ ? ? ? _ _ _]; exfalso;
    unfold ip_len_of in Hi; destruct (k_v6 _); lia.
  destruct (tcp_version_spec p Hmin) as (o & -> & Ho). rewrite run_bind_Ret.
  destruct o as [v6|].
  2: { exists None. split; [done|]. intros m. split; [done|]. intros H. by apply so_version, Ho in H. }
  assert (forall m, segment_of p m -> k_v6 (m_key m) = v6) as Hv.
  { intros m H. apply so_version, Ho in H. congruence. }
  pose proof (proj1 (Ho v6) eq_refl) as Hver. fold (ip_len_of v6). set (ip := ip_len_of v6).
  assert (ip + 20 <= length p)%nat as Hip by (unfold ip, version_ok, ip_len_of in *; destruct v6; lia).
  rewrite (lookup_byte_at p (ip + 12)), (lookup_byte_at p (ip + 13)) by lia. cbv zeta.
  set (tl := (Z.to_nat _ * 4)%nat).
  assert (forall m, segment_of p m -> m_ip_len m = ip /\ m_tcp_len m = tl) as Hm.
  { intros m H. pose proof (so_ip_len _ _ H) as Ei. rewrite (Hv m H) in Ei. split; [done|]. rewrite (so_tcp_len _ _ H), Ei. done. }
  destruct (Nat.leb_spec 20 tl) as [H20|H20], (Nat.leb_spec tl 60) as [H60|H60], (Nat.ltb_spec (length p) (ip + tl)) as [Ht|Ht];
    cbn [andb orb negb].
  1,3-8: exists None; split; [done|]; intros m; split; [done|]; intros H; destruct (Hm m H); destruct H; lia.
  destruct (negb _ && _) eqn:Ef.
  { exists None. split; [done|]. intros m. split; [done|]. intros H. destruct (Hm m H) as [Ei _]. pose proof (so_flags _ _ H) as F.
    rewrite Ei in F. rewrite F in Ef. by destruct (m_psh m). }
  assert (byte_at p (ip + 13) = if negb (Z.land (byte_at p (ip + 13)) TCP_PSH =? 0) then Z.lor TCP_ACK TCP_PSH else TCP_ACK) as Hf.
  { apply andb_false_iff in Ef as [Ef|Ef]; apply negb_false_iff, Z.eqb_eq in Ef; by rewrite Ef. }
  unfold sub_usize. rewrite (proj2 (Nat.leb_le _ _)), run_bind_Ret, (proj2 (Nat.leb_le _ _)), run_bind_Ret by lia.
  destruct (Nat.eqb_spec (length p - ip - tl) 0) as [E0|E0].
  { exists None. split; [done|]. intros m. split; [done|]. intros H. destruct (Hm m H). destruct H. lia. }
  unfold ip at 1. rewrite tcp_segment_spec, run_bind_Ret by (fold ip; lia). eexists. split; [done|]. apply meta_answer.
  assert (k_v6 (key_of v6 p) = v6) as Ek by (by destruct v6).
  split; cbn [m_key m_ip_len m_tcp_len m_payload m_seq m_psh]; rewrite ?Ek; fold ip; first [done|lia].
Qed.

Lemma segment_min p m : segment_of p m -> (ip_len_of (k_v6 (m_key m)) + 20 < length p)%nat /\ (40 < length p)%nat.
Proof. intros [_ _ Hi _ ? ? ? _ _ _]. unfold ip_len_of in *. destruct (k_v6 _); lia. Qed.

(** ** The tests on one pair of packets *)

Lemma ip_headers_match_spec p q v6 tl tl' :
  (40 <= length p)%nat -> (40 <= length q)%nat ->
  ip_headers_match p q v6 = Ret (bool_decide ((likeness v6 tl p).1 = (likeness v6 tl' q).1)).
Proof.
  intros Hp Hq. unfold ip_headers_match, likeness. destruct v6; run_steps; cbn [fst]; f_equal;
    repeat match goal with |- context [?a =? ?b] => destruct (Z.eqb_spec a b) end; cbn [andb];
    symmetry; first [apply bool_decide_eq_true_2; congruence|apply bool_decide_eq_false_2; congruence].
Qed.

Section spec.
Variable little : bool.

(** The TCP checksum of a packet is right. *)
Definition checksum_ok (v6 : bool) (p : list Z) : bool :=
  let '(address, size) := address_at v6 in
  checksum little (drop (ip_len_of v6) p)
    (pseudo little TCP (field p address size) (field p (address + size) size) (Z.of_nat (length p - ip_len_of v6))) =? 65535.

Lemma tcp_checksum_valid_spec p v6 :
  (ip_len_of v6 <= length p)%nat -> Z.of_nat (length p) <= 65535 ->
  tcp_checksum_valid little p (ip_len_of v6) v6 = Ret (checksum_ok v6 p).
Proof.
  intros Hl Hm. unfold tcp_checksum_valid, checksum_ok.
  assert (exists address size, address_at v6 = (address, size) /\ (address + 2 * size <= ip_len_of v6)%nat)
    as (address & size & -> & Ha) by (destruct v6; cbn; eauto with lia).
  cbv beta iota zeta. rewrite (proj2 (Z.ltb_ge _ _)) by lia. rewrite !slice_field, slice_from_ok, !run_bind_Ret by lia.
  f_equal. replace (address + 2 * size - (address + size))%nat with size by lia. replace (address + size - address)%nat with size by lia.
  unfold not16. destruct (Z.eqb_spec (checksum little (drop (ip_len_of v6) p) (pseudo little TCP (field p address size) (field p (address + size) size) (Z.of_nat (length p - ip_len_of v6)))) 65535) as [E|E]; [by rewrite E|].
  apply Z.eqb_neq. lia.
Qed.

(** ** The segments of an output *)

(** A packet of the batch and what [tcp_meta] read in it. *)
Record Seg : Type := { s_index : nat; s_packet : list Z; s_meta : TcpMeta }.

Definition fragment_of (s : Seg) : PayloadFragment :=
  {| f_packet := s_index s; f_start := (m_ip_len (s_meta s) + m_tcp_len (s_meta s))%nat; f_end := length (s_packet s) |}.

(** The output that lists the segments [s :: ss]. *)
Definition output_of (header : list Z) (s : Seg) (ss : list Seg) : GroOutput :=
  {| o_header := header; o_head := s_index s; o_fragments := map fragment_of ss |}.

Definition members (o : GroOutput) : list nat := o_head o :: map f_packet (o_fragments o).

Definition no_header : list Z := replicate VIRTIO_NET_HDR_LEN 0.

(** A segment that fits the item of a flow. *)
Record fits (packets : list (list Z)) (it : TcpItem) (head s : Seg) : Prop := {
  ft_packet : packets !! s_index s = Some (s_packet s);
  ft_segment : segment_of (s_packet s) (s_meta s);
  ft_key : m_key (s_meta s) = i_key it;
  ft_tcp_len : Z.of_nat (m_tcp_len (s_meta s)) = i_tcp_len it;
  ft_alike : likeness (k_v6 (i_key it)) (Z.to_nat (i_tcp_len it)) (s_packet s) =
             likeness (k_v6 (i_key it)) (Z.to_nat (i_tcp_len it)) (s_packet head) }.

(** [ss] are consecutive segments, all of [i_gso_size] bytes but the last. *)
Record in_order (it : TcpItem) (ss : list Seg) : Prop := {
  io_gso : 0 < i_gso_size it;
  io_count : i_gso_size it * (Z.of_nat (length ss) - 1) < payload_len it <= i_gso_size it * Z.of_nat (length ss);
  io_at k s : ss !! k = Some s ->
    m_seq (s_meta s) = wrap32 (sent_seq it + i_gso_size it * Z.of_nat k) /\
    Z.of_nat (m_payload (s_meta s)) = Z.min (i_gso_size it) (payload_len it - i_gso_size it * Z.of_nat k) /\
    m_psh (s_meta s) = (S k =? length ss)%nat && i_psh it }.

(** What holds of an item and the segments [s :: ss] of its output. *)
Record frame_of (packets : list (list Z)) (it : TcpItem) (s : Seg) (ss : list Seg) : Prop := {
  fr_fits s' : s' ∈ s :: ss -> fits packets it s s';
  fr_ip_len : i_ip_len it = Z.of_nat (ip_len_of (k_v6 (i_key it)));
  fr_order : in_order it (s :: ss);
  fr_checked s' : ss <> [] -> s' ∈ s :: ss -> checksum_ok (k_v6 (i_key it)) (s_packet s') = true;
  fr_iovecs : (2 + length ss <= MAX_GRO_IOVECS)%nat;
  fr_total : i_ip_len it + i_tcp_len it + payload_len it <= 65535 }.

Lemma wrap32_u32 z : is_u32 (wrap32 z).
Proof. unfold is_u32, wrap32. apply Z.mod_pos_bound. lia. Qed.
Lemma wrap32_small z : is_u32 z -> wrap32 z = z.
Proof. apply Z.mod_small. Qed.
Lemma wrap32_add a b : wrap32 (wrap32 a + b) = wrap32 (a + b).
Proof. apply Zplus_mod_idemp_l. Qed.
Lemma wrap32_add_r a b : wrap32 (a + wrap32 b) = wrap32 (a + b).
Proof. apply Zplus_mod_idemp_r. Qed.

Lemma segment_small p m : segment_of p m ->
  wrap16 (Z.of_nat (m_payload m)) = Z.of_nat (m_payload m) /\ wrap8 (Z.of_nat (m_ip_len m)) = Z.of_nat (m_ip_len m) /\
  wrap8 (Z.of_nat (m_tcp_len m)) = Z.of_nat (m_tcp_len m) /\ (wf_bytes p -> is_u32 (m_seq m)).
Proof.
  intros H. pose proof (segment_min p m H). destruct H as [Hmax _ Hi _ Ht Hl _ _ _ Hs]. unfold wrap16, wrap8.
  split_and!; [apply Z.mod_small..|]; [lia| |lia|].
  - rewrite Hi. unfold ip_len_of. destruct (k_v6 _); lia.
  - intros Hw. rewrite Hs. by apply (field_value_bound p _ 4).
Qed.

(** A segment alone. *)
Lemma frame_single packets s output :
  packets !! s_index s = Some (s_packet s) -> segment_of (s_packet s) (s_meta s) -> wf_bytes (s_packet s) ->
  frame_of packets (item (s_meta s) output) s [].
Proof.
  intros Hp Hs Hw. destruct (segment_small _ _ Hs) as (E1 & E2 & E3 & Hq). specialize (Hq Hw).
  pose proof (so_payload _ _ Hs). pose proof (so_length _ _ Hs). pose proof (so_max _ _ Hs).
  split; cbn [item i_key i_ip_len i_tcp_len payload_len i_gso_size sent_seq i_psh]; rewrite ?E1, ?E2, ?E3.
  - intros s' ->%list_elem_of_singleton. by split.
  - by rewrite (so_ip_len _ _ Hs).
  - split; cbn [item payload_len i_gso_size sent_seq i_psh length]; rewrite ?E1; [lia|lia|].
    intros [|k] s' Hk; [|done]. injection Hk as <-. split_and!; [|lia|done].
    rewrite Z.mul_0_r, Z.add_0_r. symmetry. by apply wrap32_small.
  - done.
  - unfold MAX_GRO_IOVECS. cbn. lia.
  - lia.
Qed.

(** ** Joining a segment *)

(** The item [merge] returns. *)
Definition merged (it : TcpItem) (m : TcpMeta) (mode : Coalesce) : TcpItem :=
  let payload := Z.of_nat (m_payload m) in
  {| i_key := i_key it; i_output := i_output it;
     sent_seq := if decide (mode = Prepend) then m_seq m else sent_seq it;
     payload_len := payload_len it + payload; i_gso_size := Z.max (i_gso_size it) payload;
     i_ip_len := i_ip_len it; i_tcp_len := i_tcp_len it;
     i_psh := if decide (mode = Prepend) then i_psh it else m_psh m || i_psh it |}.

Lemma mode_append m it n :
  coalesce_mode m it n = Append ->
  m_seq m = wrap32 (sent_seq it + payload_len it) /\ i_psh it = false /\
  payload_len it mod i_gso_size it = 0 /\ Z.of_nat (m_payload m) <= i_gso_size it.
Proof.
  unfold coalesce_mode. destruct (Z.eqb_spec (m_seq m) (wrap32 (sent_seq it + payload_len it))) as [E|E].
  - destruct (i_psh it), (Z.eqb_spec (payload_len it mod i_gso_size it) 0), (Z.ltb_spec (i_gso_size it) (Z.of_nat (m_payload m)));
      cbn [orb negb]; intros [=]. by split_and!.
  - destruct (_ =? _); [|done]. by destruct (_ || _).
Qed.

Lemma mode_prepend m it n :
  coalesce_mode m it n = Prepend ->
  wrap32 (m_seq m + Z.of_nat (m_payload m)) = sent_seq it /\ m_psh m = false /\
  (Z.of_nat (m_payload m) = i_gso_size it \/ i_gso_size it < Z.of_nat (m_payload m) /\ (n <= 2)%nat).
Proof.
  unfold coalesce_mode. destruct (_ =? _); [by destruct (_ || _)|]. rewrite wrap32_add_r.
  destruct (Z.eqb_spec (wrap32 (m_seq m + Z.of_nat (m_payload m))) (sent_seq it)); [|done].
  destruct (m_psh m), (Z.ltb_spec (Z.of_nat (m_payload m)) (i_gso_size it)), (Z.ltb_spec (i_gso_size it) (Z.of_nat (m_payload m))),
    (Nat.ltb_spec 2 n); cbn [orb andb]; intros [=]; split_and!; auto; lia.
Qed.

Lemma order_append it ss s n :
  in_order it ss -> coalesce_mode (s_meta s) it n = Append -> (0 < m_payload (s_meta s))%nat ->
  in_order (merged it (s_meta s) Append) (ss ++ [s]).
Proof.
  intros [Hg Hc Ha] Hm Hp. destruct (mode_append _ _ _ Hm) as (Es & Eh & Ed & Hle).
  assert (payload_len it = i_gso_size it * Z.of_nat (length ss)) as El.
  { apply Z.mod_divide in Ed as [q Eq]; [|lia]. rewrite Eq, (Z.mul_comm q) in Hc. rewrite Eq, (Z.mul_comm q). f_equal.
    rewrite <- Z.mul_lt_mono_pos_l, <- Z.mul_le_mono_pos_l in Hc by lia. lia. }
  assert (Z.max (i_gso_size it) (Z.of_nat (m_payload (s_meta s))) = i_gso_size it) as Em by lia.
  unfold merged. rewrite Em. split; cbn [payload_len i_gso_size sent_seq i_psh]; rewrite ?length_app; cbn [length]; [done|nia|].
  rewrite Eh, orb_false_r. intros k s' [Hk|[Hk Hs]]%lookup_app_Some.
  - apply lookup_lt_Some in Hk as Hlt. destruct (Ha k s' Hk) as (A1 & A2 & A3). split_and!; [done|nia|].
    rewrite A3, Eh, andb_false_r. by rewrite (proj2 (Nat.eqb_neq _ _)) by lia.
  - assert (k = length ss) as -> by (apply lookup_lt_Some in Hs; cbn in Hs; lia).
    rewrite Nat.sub_diag in Hs. injection Hs as <-. rewrite (proj2 (Nat.eqb_eq _ _)) by lia. split_and!; [by rewrite <- El|nia|done].
Qed.

Lemma order_prepend it ss s n :
  in_order it ss -> ss <> [] -> coalesce_mode (s_meta s) it n = Prepend -> (n = 1 + length ss)%nat -> is_u32 (m_seq (s_meta s)) ->
  in_order (merged it (s_meta s) Prepend) (s :: ss).
Proof.
  intros [Hg Hc Ha] Hne Hm Hn Hu. destruct (mode_prepend _ _ _ Hm) as (Es & Eh & Hsz).
  assert (Z.max (i_gso_size it) (Z.of_nat (m_payload (s_meta s))) = Z.of_nat (m_payload (s_meta s))) as Em by lia.
  assert (i_gso_size it = Z.of_nat (m_payload (s_meta s)) \/
          i_gso_size it < Z.of_nat (m_payload (s_meta s)) /\ length ss = 1%nat) as Hcase.
  { destruct Hsz as [|[? ?]]; [auto|]. right. split; [done|]. destruct ss; [done|cbn in *; lia]. }
  unfold merged. rewrite Em, !decide_True by done. split; cbn [payload_len i_gso_size sent_seq i_psh length].
  - lia.
  - rewrite Nat2Z.inj_succ. destruct Hcase as [E|[? E1]]; [rewrite <- E; lia|]. rewrite E1 in *. lia.
  - intros [|k] s' Hk; cbn [lookup list_lookup] in Hk.
    + injection Hk as <-. split_and!.
      * rewrite Z.mul_0_r, Z.add_0_r. symmetry. by apply wrap32_small.
      * assert (0 < payload_len it) by (destruct ss; [done|cbn [length] in Hc; nia]). lia.
      * rewrite Eh. rewrite (proj2 (Nat.eqb_neq _ _)); [done|]. destruct ss; [done|cbn; lia].
    + apply lookup_lt_Some in Hk as Hlt. destruct (Ha k s' Hk) as (A1 & A2 & A3). split_and!; [| |exact A3].
      * rewrite A1, <- Es, wrap32_add, Nat2Z.inj_succ, Z.mul_succ_r. apply (f_equal wrap32). destruct Hcase as [E|[? E1]]; [rewrite <- E; lia|].
        assert (k = 0)%nat as -> by lia. lia.
      * rewrite A2, Nat2Z.inj_succ, Z.mul_succ_r. destruct Hcase as [E|[? E1]]; [rewrite <- E; lia|]. assert (k = 0)%nat as -> by lia. rewrite E1 in *. lia.
Qed.

(** What [can_coalesce] has established when it answers [mode]. *)
Record joins (it : TcpItem) (head : Seg) (n : nat) (s : Seg) (mode : Coalesce) : Prop := {
  jn_iovecs : (n < MAX_GRO_IOVECS)%nat;
  jn_tcp_len : Z.of_nat (m_tcp_len (s_meta s)) = i_tcp_len it;
  jn_alike : likeness (k_v6 (i_key it)) (Z.to_nat (i_tcp_len it)) (s_packet s) =
             likeness (k_v6 (i_key it)) (Z.to_nat (i_tcp_len it)) (s_packet head);
  jn_total : i_ip_len it + i_tcp_len it + (payload_len it + Z.of_nat (m_payload (s_meta s))) <= 65535;
  jn_mode : coalesce_mode (s_meta s) it n = mode }.

Lemma fits_head packets it s ss : frame_of packets it s ss -> fits packets it s s.
Proof. intros H. apply (fr_fits _ _ _ _ H). left. Qed.

Lemma can_coalesce_spec packets outs it header s0 ss s :
  outs !! i_output it = Some (output_of header s0 ss) -> frame_of packets it s0 ss ->
  segment_of (s_packet s) (s_meta s) -> m_key (s_meta s) = i_key it ->
  exists mode, can_coalesce outs (s_packet s) (s_meta s) it packets = Ret mode /\
    (mode <> No -> joins it s0 (2 + length ss) s mode).
Proof.
  intros Ho Hf Hs Hk. destruct (fits_head _ _ _ _ Hf) as [P0 S0 K0 T0 _]. unfold can_coalesce.
  rewrite (idx_lookup _ _ _ Ho), run_bind_Ret. unfold iovec_count. cbn [output_of o_fragments o_head]. rewrite length_map.
  destruct (Nat.leb_spec MAX_GRO_IOVECS (2 + length ss)) as [|Hio]; [by eexists|].
  rewrite (idx_lookup _ _ _ P0), run_bind_Ret. destruct (Z.eqb_spec (Z.of_nat (m_tcp_len (s_meta s))) (i_tcp_len it)) as [Et|]; [|by eexists].
  cbn [negb]. destruct (segment_min _ _ Hs) as [L1 L2], (segment_min _ _ S0) as [L3 L4].
  rewrite (ip_headers_match_spec _ _ _ (Z.to_nat (i_tcp_len it)) (Z.to_nat (i_tcp_len it))), run_bind_Ret by lia. rewrite Hk.
  case_bool_decide as Hl; [|by eexists]. cbn [negb orb].
  destruct (Z.ltb_spec 65535 (Z.of_nat (m_ip_len (s_meta s) + m_tcp_len (s_meta s)) + payload_len it + Z.of_nat (m_payload (s_meta s)))) as [|Hb]; [by eexists|].
  pose proof (so_ip_len _ _ Hs) as Ei. rewrite Hk in Ei. pose proof (fr_ip_len _ _ _ _ Hf) as Ej.
  pose proof (so_length _ _ Hs) as Ls. pose proof (so_length _ _ S0) as L0. pose proof (so_ip_len _ _ S0) as E0. rewrite K0 in E0.
  assert (i_ip_len it + i_tcp_len it + (payload_len it + Z.of_nat (m_payload (s_meta s))) <= 65535) as Hb' by lia.
  rewrite Ei, Ej, Nat2Z.id. set (ip := ip_len_of (k_v6 (i_key it))) in *. set (tl := m_tcp_len (s_meta s)) in *.
  assert (Z.to_nat (i_tcp_len it) = tl) as Etl by lia.
  assert (forall x y : list Z, bool_decide (x = y) = true -> field (s_packet s) (ip + 20) (tl - 20) = x ->
    field (s_packet s0) (ip + 20) (tl - 20) = y -> joins it s0 (2 + length ss) s (coalesce_mode (s_meta s) it (2 + length ss))) as Hj.
  { intros x y Exy%bool_decide_eq_true E1 E2. split; [done|done| |done|done]. apply injective_projections; [exact Hl|].
    cbn [likeness snd]. rewrite Etl. fold ip. congruence. }
  destruct (Nat.ltb_spec 20 tl) as [H20|H20].
  - rewrite !slice_field, !run_bind_Ret by lia. eexists. split; [done|]. rewrite Etl. case_bool_decide as Eo; cbn [negb]; [|done]. intros _.
    replace (ip + tl - (ip + 20))%nat with (tl - 20)%nat in Eo by lia. eapply Hj; [by apply bool_decide_eq_true_2, Eo|done|done].
  - rewrite run_bind_Ret. eexists. split; [done|]. cbn [negb]. intros _. apply (Hj [] []); [done|..];
      unfold field; by replace (tl - 20)%nat with 0%nat by lia.
Qed.

(** The segments after joining one. *)
Lemma frame_join packets it s0 ss s mode :
  frame_of packets it s0 ss -> packets !! s_index s = Some (s_packet s) -> segment_of (s_packet s) (s_meta s) ->
  wf_bytes (s_packet s) -> m_key (s_meta s) = i_key it -> joins it s0 (2 + length ss) s mode -> mode <> No ->
  checksum_ok (k_v6 (i_key it)) (s_packet s) = true -> checksum_ok (k_v6 (i_key it)) (s_packet s0) = true ->
  if decide (mode = Prepend) then frame_of packets (merged it (s_meta s) mode) s (s0 :: ss)
  else frame_of packets (merged it (s_meta s) mode) s0 (ss ++ [s]).
Proof.
  intros [Ff Fi Fo Fc Fv Ft] Hp Hs Hw Hk [Ji Jt Ja Jl Jm] Hn Cs C0.
  assert (forall s', s' ∈ s0 :: ss -> checksum_ok (k_v6 (i_key it)) (s_packet s') = true) as Hall.
  { intros s' Hs'. destruct ss as [|s1 ss]; [|by apply Fc]. apply list_elem_of_singleton in Hs' as ->. done. }
  destruct (segment_small _ _ Hs) as (_ & _ & _ & Hu). specialize (Hu Hw). pose proof (so_payload _ _ Hs) as Hpl.
  destruct mode; [rewrite decide_True by done|done|rewrite decide_False by done].
  - split; cbn [merged i_key i_ip_len i_tcp_len payload_len]; [|done| | |cbn in *; lia|lia].
    + assert (forall s', s' ∈ s0 :: ss -> fits packets it s s') as Hf'.
      { intros s' Hs'. destruct (Ff s' Hs') as [? ? ? ? A]. split; [done..|]. congruence. }
      intros s' [->|Hs']%elem_of_cons; [by split|]. by destruct (Hf' s' Hs') as [? ? ? ? ?]; split.
    + eapply order_prepend; [done|done|exact Jm|cbn; lia|done].
    + intros s' _ [->|Hs']%elem_of_cons; [exact Cs|exact (Hall s' Hs')].
  - split; cbn [merged i_key i_ip_len i_tcp_len payload_len]; [|done| | |rewrite length_app; cbn in *; lia|lia].
    + rewrite app_comm_cons. intros s' [Hs'| ->%list_elem_of_singleton]%elem_of_app; [|by split].
      by destruct (Ff s' Hs') as [? ? ? ? ?]; split.
    + rewrite app_comm_cons. eapply order_append; [done|exact Jm|done].
    + rewrite app_comm_cons. intros s' _ [Hs'| ->%list_elem_of_singleton]%elem_of_app; [exact (Hall s' Hs')|exact Cs].
Qed.

Lemma merge_spec packets outs it header s0 ss s mode :
  outs !! i_output it = Some (output_of header s0 ss) -> frame_of packets it s0 ss ->
  segment_of (s_packet s) (s_meta s) -> m_key (s_meta s) = i_key it -> joins it s0 (2 + length ss) s mode -> mode <> No ->
  merge outs (s_index s) (s_meta s) it mode packets =
  Ret (<[i_output it := if decide (mode = Prepend) then output_of header s (s0 :: ss) else output_of header s0 (ss ++ [s])]> outs,
       merged it (s_meta s) mode).
Proof.
  intros Ho Hf Hs Hk Hj Hn. destruct (fits_head _ _ _ _ Hf) as [P0 S0 K0 T0 _]. unfold merge.
  rewrite (idx_lookup _ _ _ Ho), run_bind_Ret. cbn [output_of o_head o_header o_fragments].
  destruct (segment_small _ _ Hs) as (-> & _ & _ & _). pose proof (jn_total _ _ _ _ _ Hj) as Hb. apply lookup_lt_Some in Ho as Hlt.
  pose proof (fr_ip_len _ _ _ _ Hf) as Ei. pose proof (so_ip_len _ _ S0) as E0. rewrite K0 in E0.
  assert (0 <= i_tcp_len it) as Ht0 by lia. unfold add_u16, idx_set.
  assert ((payload_len it + Z.of_nat (m_payload (s_meta s)) <=? 65535) = true) as -> by (apply Z.leb_le; lia).
  destruct (decide (mode = Prepend)) as [Em|Em].
  - rewrite (idx_lookup _ _ _ P0), run_bind_Ret, run_bind_Ret, decide_True, !run_bind_Ret by done.
    unfold merged. rewrite !decide_True by done. do 3 f_equal. unfold output_of. f_equal. cbn [map]. f_equal. unfold fragment_of. f_equal. lia.
  - rewrite run_bind_Ret, decide_True, !run_bind_Ret by done. unfold merged. rewrite !decide_False by done.
    apply (f_equal Ret), (f_equal2 pair); [|by destruct (m_psh _)]. f_equal. unfold output_of. f_equal.
    rewrite map_app. cbn [map]. do 2 f_equal. unfold fragment_of. f_equal. by rewrite (so_length _ _ Hs).
Qed.

(** ** The state of a plan *)

(** The item at position [i] of the list of flow [k]. *)
Definition item_at (fl : gmap TcpFlowKey (list TcpItem)) (k : TcpFlowKey) (i : nat) (it : TcpItem) : Prop :=
  exists items, fl !! k = Some items /\ items !! i = Some it.

(** [n] packets have been planned. *)
Record gro_inv (packets : list (list Z)) (n : nat) (fl : gmap TcpFlowKey (list TcpItem)) (outs : list GroOutput) : Prop := {
  gi_items k i it : item_at fl k i it -> i_key it = k /\
    exists s ss, outs !! i_output it = Some (output_of no_header s ss) /\ frame_of packets it s ss;
  gi_distinct k1 i1 it1 k2 i2 it2 : item_at fl k1 i1 it1 -> item_at fl k2 i2 it2 -> i_output it1 = i_output it2 ->
    k1 = k2 /\ i1 = i2;
  gi_owned i o : outs !! i = Some o -> o_fragments o <> [] -> exists k j it, item_at fl k j it /\ i_output it = i;
  gi_header i o : outs !! i = Some o -> o_header o = no_header;
  gi_members : concat (members <$> outs) ≡ₚ seq 0 n }.

Lemma item_at_insert fl key items k i it :
  item_at (<[key := items]> fl) k i it <-> k = key /\ items !! i = Some it \/ k <> key /\ item_at fl k i it.
Proof.
  unfold item_at. destruct (decide (k = key)) as [->|Hk].
  - rewrite lookup_insert_eq. split; [intros (l & [= <-] & Hi); auto|intros [[_ Hi]|[? _]]; [by exists items|done]].
  - rewrite lookup_insert_ne by done. split; [intros H; right; auto|by intros [[? _]|[_ H]]].
Qed.

Definition scalar (n : nat) : GroOutput := {| o_header := no_header; o_head := n; o_fragments := [] |}.

Lemma members_snoc outs n : concat (members <$> outs) ≡ₚ seq 0 n -> concat (members <$> (outs ++ [scalar n])) ≡ₚ seq 0 (S n).
Proof. intros H. rewrite fmap_app, concat_app, seq_S, H. done. Qed.

(** A packet of its own. *)
Lemma inv_scalar packets n fl outs : gro_inv packets n fl outs -> gro_inv packets (S n) fl (outs ++ [scalar n]).
Proof.
  intros [I D O H M]. split; [|done| | |by apply members_snoc].
  - intros k i it Hi. destruct (I k i it Hi) as (Ek & s & ss & Ho & Hf). split; [done|]. exists s, ss.
    split; [by apply lookup_app_l_Some|done].
  - intros i o [Hi|[_ Hi]]%lookup_app_Some Hf; [eauto|]. apply list_lookup_singleton_Some in Hi as [_ <-]. done.
  - intros i o [Hi|[_ Hi]]%lookup_app_Some; [eauto|]. apply list_lookup_singleton_Some in Hi as [_ <-]. done.
Qed.

Lemma output_in_range packets n fl outs k i it :
  gro_inv packets n fl outs -> item_at fl k i it -> (i_output it < length outs)%nat.
Proof. intros Hg Hi. destruct (gi_items _ _ _ _ Hg k i it Hi) as (_ & s & ss & Ho & _). by eapply lookup_lt_Some. Qed.

(** A packet of its own that later ones may join. *)
Lemma inv_add packets fl outs s key items :
  gro_inv packets (s_index s) fl outs -> default [] (fl !! key) = items -> m_key (s_meta s) = key ->
  packets !! s_index s = Some (s_packet s) -> segment_of (s_packet s) (s_meta s) -> wf_bytes (s_packet s) ->
  gro_inv packets (S (s_index s)) (<[key := items ++ [item (s_meta s) (length outs)]]> fl) (outs ++ [scalar (s_index s)]).
Proof.
  intros Hg Hitems Hk Hp Hs Hw. pose proof (inv_scalar _ _ _ _ Hg) as [I D O H M].
  assert (forall k i it, item_at (<[key := items ++ [item (s_meta s) (length outs)]]> fl) k i it ->
    item_at fl k i it \/ k = key /\ i = length items /\ it = item (s_meta s) (length outs)) as Hold.
  { intros k i it [[-> [Hi|[Hi E]]%lookup_app_Some]|[_ Hi]]%item_at_insert; [left|right|by left].
    - subst items. destruct (fl !! key) as [l|] eqn:E; [by exists l|done].
    - apply list_lookup_singleton_Some in E as [E <-]. split_and!; [done|lia|done]. }
  assert (forall k i it, item_at fl k i it -> i_output it <> length outs) as Hnew.
  { intros k i it Hi. pose proof (output_in_range _ _ _ _ _ _ _ Hg Hi). lia. }
  split; [..|done|done].
  - intros k i it [Hi|(-> & -> & ->)]%Hold; [by apply (I k i)|]. split; [done|]. exists s, [].
    split; [by apply list_lookup_middle|by apply frame_single].
  - intros k1 i1 it1 k2 i2 it2 [H1|(-> & -> & ->)]%Hold [H2|(-> & -> & ->)]%Hold; cbn [item i_output]; [by apply D|..|done].
    + intros E. by apply Hnew in H1.
    + intros E. by apply Hnew in H2.
  - intros i o Hi Hf. destruct (O i o Hi Hf) as (k & j & it & (l & Hl & Hj) & Hit). exists k, j, it. split; [|done].
    apply item_at_insert. destruct (decide (k = key)) as [->|]; [left|right; split; [done|by exists l]].
    split; [done|]. rewrite Hl in Hitems. cbn in Hitems. subst items. by apply lookup_app_l_Some.
Qed.

(** An item whose packet stays alone is dropped. *)
Lemma inv_remove packets n fl outs key items i it s :
  gro_inv packets n (<[key := items]> fl) outs -> items !! i = Some it ->
  outs !! i_output it = Some (output_of no_header s []) ->
  gro_inv packets n (<[key := delete i items]> fl) outs.
Proof.
  intros [I D O H M] Hi Ho. set (up := fun j => if decide (j < i)%nat then j else S j).
  assert (forall k j it', item_at (<[key := delete i items]> fl) k j it' ->
    item_at (<[key := items]> fl) k (if decide (k = key) then up j else j) it') as Hold.
  { intros k j it' [[-> Hj]|[Hk Hj]]%item_at_insert; apply item_at_insert.
    - left. split; [done|]. rewrite decide_True by done. unfold up. destruct (decide (j < i)%nat).
      + by rewrite list_lookup_delete_lt in Hj by done.
      + by rewrite list_lookup_delete_ge in Hj by lia.
    - right. by rewrite decide_False by done. }
  split; [..|done|done].
  - intros k j it' Hj%Hold. exact (I _ _ _ Hj).
  - intros k1 i1 it1 k2 i2 it2 H1%Hold H2%Hold E. destruct (D _ _ _ _ _ _ H1 H2 E) as [-> Ei]. split; [done|].
    destruct (decide (k2 = key)); [|done]. unfold up in Ei. repeat destruct (decide _); lia.
  - intros j o Hj Hf. destruct (O j o Hj Hf) as (k & a & it' & Ha & E). apply item_at_insert in Ha as [[-> Ha]|[Hk Ha]].
    + assert (a <> i) as Hne.
      { intros ->. rewrite Hi in Ha. injection Ha as <-. rewrite E in Ho. rewrite Hj in Ho. injection Ho as ->. done. }
      exists key, (if decide (a < i)%nat then a else (a - 1)%nat), it'. split; [|done]. apply item_at_insert. left. split; [done|].
      destruct (decide (a < i)%nat); [by rewrite list_lookup_delete_lt|]. rewrite list_lookup_delete_ge by lia. rewrite <- Ha. f_equal. lia.
    + exists k, a, it'. split; [|done]. apply item_at_insert. by right.
Qed.

(** A packet joins the output of an item. *)
Lemma inv_join packets n fl outs key items i it it' s ss o' s' ss' :
  gro_inv packets n (<[key := items]> fl) outs -> items !! i = Some it ->
  outs !! i_output it = Some (output_of no_header s ss) ->
  o' = output_of no_header s' ss' -> frame_of packets it' s' ss' -> i_output it' = i_output it -> i_key it' = i_key it ->
  members o' ≡ₚ n :: members (output_of no_header s ss) ->
  gro_inv packets (S n) (<[key := <[i := it']> items]> fl) (<[i_output it := o']> outs).
Proof.
  intros Hg Hi Ho -> Hf' Eo Ek Hm. destruct Hg as [I D O H M].
  assert (item_at (<[key := items]> fl) key i it) as Hit by (apply item_at_insert; auto).
  assert (forall k j x, item_at (<[key := <[i := it']> items]> fl) k j x ->
    k = key /\ j = i /\ x = it' \/ item_at (<[key := items]> fl) k j x /\ i_output x <> i_output it) as Hold.
  { intros k j x [[-> Hj]|[Hk Hj]]%item_at_insert.
    - apply list_lookup_insert_Some in Hj as [(-> & -> & _)|[Hne Hj]]; [by left|]. right.
      assert (item_at (<[key := items]> fl) key j x) as Hx by (apply item_at_insert; auto). split; [done|].
      intros E. destruct (D _ _ _ _ _ _ Hx Hit E). done.
    - right. assert (item_at (<[key := items]> fl) k j x) as Hx by (apply item_at_insert; auto). split; [done|].
      intros E. destruct (D _ _ _ _ _ _ Hx Hit E). done. }
  split.
  - intros k j x [(-> & -> & ->)|[Hx Hne]]%Hold.
    + split; [rewrite Ek; exact (proj1 (I _ _ _ Hit))|]. exists s', ss'. split; [|done].
      rewrite Eo. apply list_lookup_insert_eq. by eapply lookup_lt_Some.
    + destruct (I _ _ _ Hx) as (Ex & a & b & Ha & Hb). split; [done|]. exists a, b. split; [|done].
      by rewrite list_lookup_insert_ne.
  - intros k1 i1 it1 k2 i2 it2 [(-> & -> & ->)|[H1 N1]]%Hold [(-> & -> & ->)|[H2 N2]]%Hold; rewrite ?Eo; [done|congruence|congruence|].
    by apply D.
  - intros j o Hj Hne. destruct (decide (j = i_output it)) as [->|Hji].
    + exists key, i, it'. split; [|done]. apply item_at_insert. left. split; [done|].
      apply list_lookup_insert_eq. by eapply lookup_lt_Some.
    + rewrite list_lookup_insert_ne in Hj by done. destruct (O j o Hj Hne) as (k & a & x & Hx & Ex). exists k, a, x. split; [|done].
      apply item_at_insert in Hx as [[-> Hx]|[Hk Hx]]; apply item_at_insert; [left|by right]. split; [done|].
      rewrite list_lookup_insert_ne; [done|]. intros <-. rewrite Hi in Hx. injection Hx as <-. congruence.
  - intros j o Hj. apply list_lookup_insert_Some in Hj as [(_ & <- & _)|[_ Hj]]; [done|by eapply H].
  - pose proof (take_drop_middle outs _ _ Ho) as E. apply (f_equal (fun l => concat (members <$> l))) in E.
    rewrite seq_S, <- M, <- E, insert_take_drop by (by eapply lookup_lt_Some).
    rewrite !fmap_app, !fmap_cons, !concat_app. cbn [concat]. rewrite Hm. solve_Permutation.
Qed.

Lemma push_scalar_spec outs pool n : exists pool', push_scalar outs pool n = (outs ++ [scalar n], pool').
Proof. by eexists. Qed.

Section plan.
Variable packets : list (list Z).
Hypothesis Hpackets : Forall wf_bytes packets.

Lemma packet_wf s : packets !! s_index s = Some (s_packet s) -> wf_bytes (s_packet s).
Proof. by apply Forall_lookup_1. Qed.

Lemma segment_checksum s : segment_of (s_packet s) (s_meta s) ->
  tcp_checksum_valid little (s_packet s) (ip_len_of (k_v6 (m_key (s_meta s)))) (k_v6 (m_key (s_meta s))) =
  Ret (checksum_ok (k_v6 (m_key (s_meta s))) (s_packet s)).
Proof.
  intros Hs. destruct (segment_min _ _ Hs) as [? _]. apply tcp_checksum_valid_spec; [lia|exact (so_max _ _ Hs)].
Qed.

(** The test of the head before a packet joins it. *)
Lemma head_check outs it s0 ss :
  outs !! i_output it = Some (output_of no_header s0 ss) -> frame_of packets it s0 ss ->
  exists single corrupt, output_is_single outs (i_output it) = Ret single /\
    (if (single : bool) then
       o ← idx outs (i_output it); head ← idx packets (o_head o);
       v ← tcp_checksum_valid little head (Z.to_nat (i_ip_len it)) (k_v6 (i_key it)); Ret (negb v)
     else Ret false) = Ret corrupt /\
    (corrupt = true -> ss = []) /\ (corrupt = false -> checksum_ok (k_v6 (i_key it)) (s_packet s0) = true).
Proof.
  intros Ho Hf. unfold output_is_single. rewrite (idx_lookup _ _ _ Ho), !run_bind_Ret. cbn [output_of o_fragments o_head].
  destruct (fits_head _ _ _ _ Hf) as [P0 S0 K0 T0 _]. rewrite (idx_lookup _ _ _ P0), !run_bind_Ret.
  rewrite (fr_ip_len _ _ _ _ Hf), Nat2Z.id, <- K0, segment_checksum, run_bind_Ret by done. rewrite K0.
  destruct ss as [|s1 ss]; do 2 eexists; (split; [done|]); (split; [done|]).
  - split; [done|]. apply negb_false_iff.
  - split; [done|]. intros _. apply (fr_checked _ _ _ _ Hf); [done|left].
Qed.

Lemma coalesce_loop_spec fl s pool :
  packets !! s_index s = Some (s_packet s) -> segment_of (s_packet s) (s_meta s) ->
  forall k items outs,
  gro_inv packets (s_index s) (<[m_key (s_meta s) := items]> fl) outs -> (k <= length items)%nat ->
  exists items' outs' pool',
    coalesce_loop little (s_index s) (s_meta s) packets k items outs pool = Ret (items', (outs', pool')) /\
    gro_inv packets (S (s_index s)) (<[m_key (s_meta s) := items']> fl) outs'.
Proof.
  intros Hp Hs. pose proof (packet_wf s Hp) as Hw. set (key := m_key (s_meta s)).
  induction k as [|k IH]; intros items outs Hg Hk; cbn [coalesce_loop].
  { do 3 eexists. split; [done|]. pose proof (inv_add packets _ outs s key items Hg) as Ha.
    rewrite insert_insert_eq in Ha. apply Ha; [by rewrite lookup_insert_eq|done..]. }
  destruct (lookup_lt_is_Some_2 items k ltac:(lia)) as [it Hit]. rewrite (idx_lookup _ _ _ Hit), run_bind_Ret.
  rewrite (idx_lookup _ _ _ Hp), run_bind_Ret.
  destruct (gi_items _ _ _ _ Hg key k it) as (Ek & s0 & ss & Ho & Hf); [apply item_at_insert; auto|].
  destruct (can_coalesce_spec packets outs it no_header s0 ss s Ho Hf Hs (eq_sym Ek)) as (mode & -> & Hj). rewrite run_bind_Ret.
  destruct (decide (mode = No)) as [|Hmode]; [apply IH; [done|lia]|]. specialize (Hj Hmode).
  destruct (head_check outs it s0 ss Ho Hf) as (single & corrupt & -> & Ec & Hc & Hv). rewrite run_bind_Ret, Ec, run_bind_Ret.
  destruct corrupt.
  { rewrite (Hc eq_refl) in Ho. unfold vec_remove. rewrite decide_True, run_bind_Ret by lia. apply IH; [by eapply inv_remove|].
    rewrite length_delete by (by exists it). lia. }
  rewrite (so_ip_len _ _ Hs), segment_checksum, run_bind_Ret by done.
  destruct (checksum_ok _ (s_packet s)) eqn:Cs; cbn [negb].
  2: { do 3 eexists. split; [done|]. by apply inv_scalar. }
  rewrite (merge_spec packets outs it no_header s0 ss s mode), run_bind_Ret by done. unfold idx_set.
  rewrite (decide_True (P := (k < length items)%nat)), run_bind_Ret by lia. do 3 eexists. split; [done|]. fold key in Cs. rewrite <- Ek in Cs.
  pose proof (frame_join packets it s0 ss s mode Hf Hp Hs Hw (eq_sym Ek) Hj Hmode Cs (Hv eq_refl)) as Hf'. cbn [fst snd].
  destruct (decide (mode = Prepend)).
  - eapply (inv_join packets _ fl outs key items k it _ s0 ss); done.
  - eapply (inv_join packets _ fl outs key items k it _ s0 ss); try done. unfold members. cbn [output_of o_head o_fragments].
    rewrite !map_app. cbn [map fragment_of f_packet]. solve_Permutation.
Qed.

Lemma tcp_gro_spec st s :
  gro_inv packets (s_index s) (flows st) (outputs st) ->
  packets !! s_index s = Some (s_packet s) -> segment_of (s_packet s) (s_meta s) ->
  exists st', tcp_gro little st (s_index s) (s_meta s) packets = Ret st' /\
    gro_inv packets (S (s_index s)) (flows st') (outputs st').
Proof.
  intros Hg Hp Hs. unfold tcp_gro. destruct (flows st !! m_key (s_meta s)) as [items|] eqn:E.
  - destruct (coalesce_loop_spec (flows st) s (output_pool st) Hp Hs (length items) items (outputs st)) as (items' & os & op & -> & H').
    + by rewrite insert_id.
    + done.
    + rewrite run_bind_Ret. by eexists.
  - destruct (push_scalar_spec (outputs st) (output_pool st) (s_index s)) as [op ->]. eexists. split; [done|]. cbn [flows outputs].
    apply (inv_add packets (flows st) (outputs st) s _ []); [done|by rewrite E|done|done|done|by apply packet_wf].
Qed.

Lemma plan_loop_spec k : forall n st,
  gro_inv packets n (flows st) (outputs st) -> (n + k = length packets)%nat ->
  exists st', plan_loop little st packets (seq n k) = Ret st' /\ gro_inv packets (n + k) (flows st') (outputs st').
Proof.
  induction k as [|k IH]; intros n st Hg Hn; cbn [seq plan_loop]; [exists st; by rewrite Nat.add_0_r|].
  destruct (lookup_lt_is_Some_2 packets n ltac:(lia)) as [p Hp]. rewrite (idx_lookup _ _ _ Hp), run_bind_Ret.
  destruct (tcp_meta_spec p) as (o & -> & Ho). rewrite run_bind_Ret. rewrite Nat.add_succ_r. destruct o as [m|].
  - destruct (tcp_gro_spec st {| s_index := n; s_packet := p; s_meta := m |} Hg Hp) as (st' & E & Hg'); [by apply Ho|].
    cbn [s_index s_meta] in *. rewrite E, run_bind_Ret. apply (IH (S n) st' Hg'). lia.
  - apply (IH (S n)); [|lia]. by apply inv_scalar.
Qed.

Lemma inv_start : gro_inv packets 0 ∅ [].
Proof. split; [by intros k i it (l & Hl & _)|by intros k1 i1 it1 k2 i2 it2 (l & Hl & _)|done..]. Qed.

(** ** Accounting *)

(** The head packet of a frame of [total] bytes, once it accounts for its fragments. *)
Record accounted (it : TcpItem) (p p' : list Z) : Prop := {
  ac_wf : wf_bytes p';
  ac_kept : same_except (fun k =>
      (if k_v6 (i_key it) then 4 <= k < 6 else 2 <= k < 4 \/ 10 <= k < 12) \/
      k = ip_len_of (k_v6 (i_key it)) + 13 \/
      ip_len_of (k_v6 (i_key it)) + 16 <= k < ip_len_of (k_v6 (i_key it)) + 18)%nat p' p;
  ac_flags : byte_at p' (ip_len_of (k_v6 (i_key it)) + 13) =
      if i_psh it then Z.lor (byte_at p (ip_len_of (k_v6 (i_key it)) + 13)) TCP_PSH
      else byte_at p (ip_len_of (k_v6 (i_key it)) + 13);
  ac_length : let total := i_ip_len it + i_tcp_len it + payload_len it in
      if k_v6 (i_key it) then field p' 4 2 = to_be_bytes 2 (total - 40)
      else field p' 2 2 = to_be_bytes 2 total /\ checksum little (take 20 p') 0 = 65535;
  ac_seed : let '(address, size) := address_at (k_v6 (i_key it)) in
      field p' (ip_len_of (k_v6 (i_key it)) + 16) 2 =
      to_be_bytes 2 (checksum little [] (pseudo little TCP (field p address size) (field p (address + size) size)
                       (i_tcp_len it + payload_len it))) }.

Lemma copy_to_splice (b : list Z) i j x :
  j = (i + length x)%nat -> (j <= length b)%nat -> copy_to b i j x = Ret (splice b i x).
Proof. intros -> Hl. unfold copy_to. by rewrite decide_True by lia. Qed.

(** What [apply_accounting] writes in an output. *)
Definition account_header (it : TcpItem) : list Z :=
  [VIRTIO_NET_HDR_F_NEEDS_CSUM; if k_v6 (i_key it) then GSO_TCPV6 else GSO_TCPV4]
  ++ to_ne_bytes little 2 (i_ip_len it + i_tcp_len it) ++ to_ne_bytes little 2 (i_gso_size it)
  ++ to_ne_bytes little 2 (i_ip_len it) ++ to_ne_bytes little 2 16.

(** The sizes of an item whose output has more than one packet. *)
Record sized (it : TcpItem) (p : list Z) : Prop := {
  sz_ip : i_ip_len it = Z.of_nat (ip_len_of (k_v6 (i_key it)));
  sz_tcp : 20 <= i_tcp_len it <= 60;
  sz_payload : 0 < payload_len it;
  sz_total : i_ip_len it + i_tcp_len it + payload_len it <= 65535;
  sz_packet : (ip_len_of (k_v6 (i_key it)) + 20 < length p)%nat;
  sz_wf : wf_bytes p }.

Lemma lor_psh_u8 f : is_u8 f -> is_u8 (Z.lor f TCP_PSH).
Proof.
  unfold is_u8. intros Hf. split; [apply Z.lor_nonneg; unfold TCP_PSH; lia|].
  destruct (Z.eq_dec (Z.lor f TCP_PSH) 0) as [->|Hn]; [lia|].
  apply Z.log2_lt_cancel. change (Z.log2 256) with 8. rewrite Z.log2_lor by (unfold TCP_PSH; lia).
  change (Z.log2 TCP_PSH) with 3. assert (Z.log2 f <= Z.log2 255) by (apply Z.log2_le_mono; lia). change (Z.log2 255) with 7 in *. lia.
Qed.

Lemma account_ip_spec it p :
  sized it p ->
  exists q, account_ip little it (i_ip_len it + i_tcp_len it + payload_len it) p = Ret q /\ wf_bytes q /\
    same_except (fun k => if k_v6 (i_key it) then (4 <= k < 6)%nat else (2 <= k < 4 \/ 10 <= k < 12)%nat) q p /\
    if k_v6 (i_key it) then field q 4 2 = to_be_bytes 2 (i_ip_len it + i_tcp_len it + payload_len it - 40)
    else field q 2 2 = to_be_bytes 2 (i_ip_len it + i_tcp_len it + payload_len it) /\ checksum little (take 20 q) 0 = 65535.
Proof.
  intros [Ei Ht Hpl _ Hl Hw]. unfold account_ip. set (total := i_ip_len it + i_tcp_len it + payload_len it).
  destruct (k_v6 (i_key it)); cbn [ip_len_of] in *.
  - unfold sub_u16. rewrite (proj2 (Z.leb_le _ _)), run_bind_Ret by lia. rewrite copy_to_splice by (cbn; lia). eexists. split; [done|].
    split; [auto with wf|]. split; [apply (same_except_splice p 4 (to_be_bytes 2 _)); positions|].
    rewrite (field_splice p 4 (to_be_bytes 2 _)) by positions. f_equal. lia.
  - rewrite copy_to_splice, run_bind_Ret by (cbn; lia). set (q1 := splice p 2 (to_be_bytes 2 total)).
    assert (length q1 = length p) as L1 by (apply length_splice; positions).
    rewrite copy_to_splice, run_bind_Ret by (cbn; lia). change [0; 0] with (to_be_bytes 2 0).
    destruct (checksum_field little q1 0 10 0 20) as (S & W & C); [subst q1; auto with wf|lia|by exists 5%nat|lia|lia|done|].
    set (z := splice q1 10 (to_be_bytes 2 0)) in *. assert (length z = length p) as Lz by (unfold z; rewrite length_splice; positions).
    rewrite Ei. change (Z.to_nat (Z.of_nat 20)) with 20%nat. rewrite slice_field, run_bind_Ret by lia. change (20 - 0)%nat with 20%nat.
    rewrite copy_to_splice by (cbn; lia). eexists. split; [done|]. split; [done|].
    assert (same_except (fun k => (2 <= k < 4)%nat) q1 p) as S1 by (apply (same_except_splice p 2 (to_be_bytes 2 _)); positions).
    split; [|split].
    + apply (same_except_trans _ _ _ _ _ _ S S1). positions.
    + rewrite (field_same _ _ _ _ _ S) by positions. apply (field_splice p 2 (to_be_bytes 2 _)). positions.
    + unfold field in C. by rewrite drop_0 in C.
Qed.

Lemma account_seed_spec it p :
  sized it p ->
  exists q, account_seed little it (i_ip_len it + i_tcp_len it + payload_len it) p = Ret q /\ wf_bytes q /\
    same_except (fun k => ip_len_of (k_v6 (i_key it)) + 16 <= k < ip_len_of (k_v6 (i_key it)) + 18)%nat q p /\
    let '(address, size) := address_at (k_v6 (i_key it)) in
    field q (ip_len_of (k_v6 (i_key it)) + 16) 2 =
    to_be_bytes 2 (checksum little [] (pseudo little TCP (field p address size) (field p (address + size) size)
                     (i_tcp_len it + payload_len it))).
Proof.
  intros [Ei Ht Hpl _ Hl Hw]. unfold account_seed. set (v6 := k_v6 (i_key it)) in *.
  assert (exists address size, address_at v6 = (address, size) /\ (address + 2 * size <= ip_len_of v6)%nat)
    as (address & size & -> & Ha) by (destruct v6; cbn; eauto with lia).
  cbv beta iota zeta. rewrite !slice_field, !run_bind_Ret by lia. unfold sub_u16.
  rewrite (proj2 (Z.leb_le _ _)), run_bind_Ret by lia. rewrite Ei, Nat2Z.id, copy_to_splice by (cbn; lia).
  eexists. split; [done|]. split; [auto with wf|]. split.
  - eapply same_except_mono; [apply (same_except_splice p _ (to_be_bytes 2 _))|]; positions.
  - rewrite (field_splice p _ (to_be_bytes 2 _)) by positions. do 2 f_equal. f_equal; [f_equal; lia|f_equal; lia|lia].
Qed.

(** The PSH flag of the head. *)
Definition with_psh (it : TcpItem) (p : list Z) : list Z :=
  let at_ := (ip_len_of (k_v6 (i_key it)) + 13)%nat in
  if i_psh it then <[at_ := Z.lor (byte_at p at_) TCP_PSH]> p else p.

Lemma with_psh_spec it p : sized it p ->
  sized it (with_psh it p) /\ same_except (fun k => k = ip_len_of (k_v6 (i_key it)) + 13)%nat (with_psh it p) p /\
  byte_at (with_psh it p) (ip_len_of (k_v6 (i_key it)) + 13) =
    if i_psh it then Z.lor (byte_at p (ip_len_of (k_v6 (i_key it)) + 13)) TCP_PSH else byte_at p (ip_len_of (k_v6 (i_key it)) + 13).
Proof.
  intros Hs. pose proof Hs as [Ei Ht Hp Hto Hl Hw]. unfold with_psh. destruct (i_psh it); [|by split; [|split]].
  split; [|split; [apply same_except_insert|]].
  - split; [done..|by rewrite length_insert|]. apply Forall_insert; [done|]. apply lor_psh_u8. auto with wf.
  - unfold byte_at at 1. erewrite nth_lookup_Some; [done|]. apply list_lookup_insert_eq. lia.
Qed.

Lemma account_spec it outs pks o p :
  outs !! i_output it = Some o -> pks !! o_head o = Some p -> sized it p -> o_fragments o <> [] ->
  exists p', accounted it p p' /\
    account little it outs pks =
    Ret (<[i_output it := {| o_header := account_header it; o_head := o_head o; o_fragments := o_fragments o |}]> outs,
         <[o_head o := p']> pks).
Proof.
  intros Ho Hp Hs Hf. pose proof Hs as [Ei Ht Hpl Hto Hl Hw]. destruct (with_psh_spec it p Hs) as (S1 & K1 & F1).
  destruct (account_ip_spec it _ S1) as (q2 & E2 & W2 & K2 & F2).
  assert (sized it q2) as S2 by (destruct S1; split; try done; by rewrite (proj1 K2)).
  destruct (account_seed_spec it _ S2) as (q3 & E3 & W3 & K3 & F3). exists q3. split.
  - clear E2 E3. split; [done|..].
    + eapply same_except_trans; [exact K3|exact (same_except_trans _ _ (fun k => _ \/ _) _ _ _ K2 K1 (fun k H => H))|].
      cbv beta. intros k. tauto.
    + rewrite <- F1. unfold byte_at. rewrite !nth_lookup. rewrite (proj2 K3), (proj2 K2); [done|destruct (k_v6 _); cbn; lia|lia].
    + cbv zeta. destruct (k_v6 (i_key it)); cbn [ip_len_of] in *; [by rewrite (field_same _ _ _ _ _ K3) by positions|].
      rewrite (field_same _ _ _ _ _ K3) by positions. destruct F2 as [? C]. split; [done|].
      pose proof (field_same _ _ _ 0 20 K3 ltac:(positions)) as E. unfold field in E. rewrite !drop_0 in E. by rewrite E.
    + revert F3. destruct (k_v6 (i_key it)); cbn [address_at ip_len_of] in *; intros ->.
      * by rewrite !(field_same _ _ _ _ _ K2), !(field_same _ _ _ _ _ K1) by positions.
      * by rewrite !(field_same _ _ _ _ _ K2), !(field_same _ _ _ _ _ K1) by positions.
  - unfold account, vnet_tcp_header. rewrite (idx_lookup _ _ _ Ho), run_bind_Ret. destruct (o_fragments o) eqn:Ef; [done|]. rewrite <- Ef.
    unfold add_u16. rewrite (proj2 (Z.leb_le _ _)), run_bind_Ret, (proj2 (Z.leb_le _ _)), run_bind_Ret by lia.
    rewrite (idx_lookup _ _ _ Hp), run_bind_Ret.
    assert ((if i_psh it then idx p (Z.to_nat (i_ip_len it) + 13) ≫= fun f => idx_set p (Z.to_nat (i_ip_len it) + 13) (Z.lor f TCP_PSH)
             else Ret p) = Ret (with_psh it p)) as ->.
    { unfold with_psh. rewrite Ei, Nat2Z.id. destruct (i_psh it); [|done]. rewrite idx_byte_at, run_bind_Ret by lia.
      unfold idx_set. by rewrite decide_True by lia. }
    unfold idx_set. rewrite !run_bind_Ret, (decide_True (P := (i_output it < length outs)%nat)), run_bind_Ret by (by eapply lookup_lt_Some).
    rewrite E2, run_bind_Ret, E3, run_bind_Ret, decide_True, run_bind_Ret by (by eapply lookup_lt_Some). done.
Qed.

(** No packet heads two outputs. *)
Definition heads_distinct (outs : list GroOutput) : Prop :=
  forall i j oi oj, outs !! i = Some oi -> outs !! j = Some oj -> o_head oi = o_head oj -> i = j.

Definition ready (outs : list GroOutput) (pks : list (list Z)) (it : TcpItem) : Prop :=
  exists o p, outs !! i_output it = Some o /\ pks !! o_head o = Some p /\ (o_fragments o <> [] -> sized it p).

(** The output and the head packet of an item after accounting. *)
Definition settled (it : TcpItem) (o o' : GroOutput) (p p' : list Z) : Prop :=
  o_fragments o = [] /\ o' = o /\ p' = p \/
  o_fragments o <> [] /\ o' = {| o_header := account_header it; o_head := o_head o; o_fragments := o_fragments o |} /\ accounted it p p'.

Lemma settled_head it o o' p p' : settled it o o' p p' -> o_head o' = o_head o.
Proof. by intros [(_ & -> & _)|(_ & -> & _)]. Qed.

Lemma account_step it outs pks o p :
  outs !! i_output it = Some o -> pks !! o_head o = Some p -> (o_fragments o <> [] -> sized it p) ->
  exists o' p', settled it o o' p p' /\ account little it outs pks = Ret (<[i_output it := o']> outs, <[o_head o := p']> pks).
Proof.
  intros Ho Hp Hs. destruct (decide (length (o_fragments o) = 0)%nat) as [Hf|Hf].
  - apply nil_length_inv in Hf. exists o, p. split; [by left|]. rewrite !list_insert_id by done.
    unfold account. by rewrite (idx_lookup _ _ _ Ho), run_bind_Ret, Hf.
  - assert (o_fragments o <> []) as Hn by (intros E; by rewrite E in Hf).
    destruct (account_spec it outs pks o p Ho Hp (Hs Hn) Hn) as (p' & Ha & E). do 2 eexists. split; [right|exact E]. done.
Qed.

Lemma account_loop_spec items : forall outs pks,
  NoDup (i_output <$> items) -> heads_distinct outs -> Forall (ready outs pks) items ->
  exists outs' pks', account_loop little items outs pks = Ret (outs', pks') /\
    (forall i, i ∉ i_output <$> items -> outs' !! i = outs !! i) /\
    (forall j, (forall it o, it ∈ items -> outs !! i_output it = Some o -> o_head o <> j) -> pks' !! j = pks !! j) /\
    (forall it o p, it ∈ items -> outs !! i_output it = Some o -> pks !! o_head o = Some p ->
      exists o' p', outs' !! i_output it = Some o' /\ pks' !! o_head o = Some p' /\ settled it o o' p p').
Proof.
  induction items as [|it items IH]; intros outs pks Hnd Hd Hr; cbn [account_loop].
  { exists outs, pks. split_and!; [done..|]. intros it o p Hin. by apply not_elem_of_nil in Hin. }
  rewrite fmap_cons, list.NoDup_cons in Hnd. destruct Hnd as [Hni Hnd]. apply list.Forall_cons in Hr as [(o & p & Ho & Hp & Hs) Hr].
  destruct (account_step it outs pks o p Ho Hp Hs) as (o1 & p1 & Hset & ->). rewrite run_bind_Ret. cbn [fst snd].
  set (outs1 := <[i_output it := o1]> outs). set (pks1 := <[o_head o := p1]> pks).
  assert (forall i x, outs1 !! i = Some x -> exists y, outs !! i = Some y /\ o_head x = o_head y) as Hback.
  { intros i x Hx. apply list_lookup_insert_Some in Hx as [(<- & <- & _)|[_ Hx]]; [|eauto]. exists o. split; [done|by eapply settled_head]. }
  assert (forall it', it' ∈ items -> i_output it' <> i_output it) as Hne.
  { intros it' Hin E. apply Hni. rewrite <- E. by apply list_elem_of_fmap_2. }
  assert (forall it' o', it' ∈ items -> outs !! i_output it' = Some o' -> outs1 !! i_output it' = Some o' /\ pks1 !! o_head o' = pks !! o_head o') as Hkeep.
  { intros it' o' Hin Ho'. specialize (Hne it' Hin). unfold outs1, pks1. rewrite !list_lookup_insert_ne; [done| |done].
    intros E. apply Hne. by eapply Hd. }
  destruct (IH outs1 pks1 Hnd) as (outs' & pks' & -> & R1 & R2 & R3).
  - intros i j oi oj Hi Hj E. destruct (Hback i oi Hi) as (yi & Hyi & Ei), (Hback j oj Hj) as (yj & Hyj & Ej). eapply Hd; [done..|congruence].
  - rewrite list.Forall_forall in Hr |- *. intros it' Hin. destruct (Hr it' Hin) as (o' & p' & Ho' & Hp' & Hs').
    destruct (Hkeep it' o' Hin Ho') as [K1 K2]. exists o', p'. by rewrite K2.
  - exists outs', pks'. split; [done|]. split_and!.
    + intros i Hi. rewrite fmap_cons, not_elem_of_cons in Hi. destruct Hi as [Hi1 Hi2]. rewrite R1 by done. by apply list_lookup_insert_ne.
    + intros j Hj. rewrite R2.
      * apply list_lookup_insert_ne. apply (Hj it o); [left|done].
      * intros it' o' Hin Ho' E. destruct (Hback _ _ Ho') as (y & Hy & Ey). apply (Hj it' y); [by right|done|congruence].
    + intros it' o' p' [->|Hin]%elem_of_cons Ho' Hp'.
      * rewrite Ho in Ho'. injection Ho' as <-. rewrite Hp in Hp'. injection Hp' as <-. exists o1, p1. split_and!; [..|done].
        -- rewrite R1 by done. apply list_lookup_insert_eq. by eapply lookup_lt_Some.
        -- rewrite R2; [apply list_lookup_insert_eq; by eapply lookup_lt_Some|].
           intros it' o' Hin Ho' E. destruct (Hback _ _ Ho') as (y & Hy & Ey). apply (Hne it' Hin). eapply Hd; [done..|congruence].
      * destruct (Hkeep it' o' Hin Ho') as [K1 K2]. apply R3; [done|done|by rewrite K2].
Qed.

(** ** The plan *)

Lemma concat_distinct {A} (ls : list (list A)) i j l1 l2 x :
  NoDup (concat ls) -> ls !! i = Some l1 -> ls !! j = Some l2 -> x ∈ l1 -> x ∈ l2 -> i = j.
Proof.
  revert i j. induction ls as [|l ls IH]; intros i j Hnd Hi Hj H1 H2; [done|]. cbn [concat] in Hnd.
  apply list.NoDup_app in Hnd as (_ & Hdis & Hnd).
  assert (forall k l', ls !! k = Some l' -> x ∈ l' -> x ∈ concat ls) as Hin.
  { intros k l' Hk Hx. apply list_elem_of_In, in_concat. exists l'. rewrite <- !list_elem_of_In. split; [by eapply list_elem_of_lookup_2|done]. }
  destruct i as [|i], j as [|j]; cbn [lookup list_lookup] in Hi, Hj; [done|..].
  - injection Hi as ->. exfalso. by apply (Hdis x H1), (Hin j l2).
  - injection Hj as ->. exfalso. by apply (Hdis x H2), (Hin i l1).
  - f_equal. by eapply IH.
Qed.

Lemma NoDup_concat_lookup {A} (ls : list (list A)) i l : NoDup (concat ls) -> ls !! i = Some l -> NoDup l.
Proof.
  revert i. induction ls as [|l' ls IH]; intros [|i] Hnd Hi; [done..| |]; apply list.NoDup_app in Hnd as (H1 & _ & H2).
  - by injection Hi as <-.
  - by eapply IH.
Qed.

Section members.
Context (n : nat) (outs : list GroOutput) (Hm : concat (members <$> outs) ≡ₚ seq 0 n).

Lemma members_NoDup : NoDup (concat (members <$> outs)).
Proof. rewrite Hm. apply NoDup_seq. Qed.

Lemma member_once i j oi oj x : outs !! i = Some oi -> outs !! j = Some oj -> x ∈ members oi -> x ∈ members oj -> i = j.
Proof. intros Hi Hj. eapply concat_distinct; [apply members_NoDup|by rewrite list_lookup_fmap, ?Hi, ?Hj..]. Qed.

Lemma members_heads : heads_distinct outs.
Proof. intros i j oi oj Hi Hj E. eapply member_once; [done|done|left|rewrite E; left]. Qed.

Lemma fragment_not_head i j oi oj x :
  outs !! i = Some oi -> outs !! j = Some oj -> x ∈ f_packet <$> o_fragments oi -> o_head oj <> x.
Proof.
  intros Hi Hj Hx E. assert (i = j) as -> by (eapply member_once; [done|done|by right|rewrite <- E; left]).
  rewrite Hi in Hj. injection Hj as <-.
  assert (NoDup (members oi)) as Hnd by (eapply NoDup_concat_lookup; [apply members_NoDup|by rewrite list_lookup_fmap, Hi]).
  apply list.NoDup_cons in Hnd as [Hn _]. by rewrite E in Hn.
Qed.
End members.

Variable values : gmap TcpFlowKey (list TcpItem) -> list (list TcpItem).
Hypothesis values_all : forall m, values m ≡ₚ (map_to_list m).*2.

Lemma elem_of_values fl it : it ∈ concat (values fl) <-> exists k i, item_at fl k i it.
Proof.
  rewrite list_elem_of_In, in_concat. setoid_rewrite <- list_elem_of_In. setoid_rewrite values_all. split.
  - intros (l & ([k l'] & -> & Hk%elem_of_map_to_list)%list_elem_of_fmap & Hit). apply list_elem_of_lookup in Hit as [i Hi].
    by exists k, i, l'.
  - intros (k & i & l & Hk & Hi). exists l. split; [|by eapply list_elem_of_lookup_2].
    apply list_elem_of_fmap. exists (k, l). split; [done|]. by apply elem_of_map_to_list.
Qed.

Lemma values_NoDup packets' n fl outs : gro_inv packets' n fl outs -> NoDup (i_output <$> concat (values fl)).
Proof.
  intros [_ D _ _ _]. rewrite values_all. pose proof (NoDup_fst_map_to_list fl) as Hk.
  assert (forall k l, (k, l) ∈ map_to_list fl -> fl !! k = Some l) as Hin by (intros k l; apply elem_of_map_to_list).
  induction (map_to_list fl) as [|[k l] kls IH]; [constructor|]. rewrite !fmap_cons in *. cbn [fst snd concat] in *.
  apply list.NoDup_cons in Hk as [Hk Hnd]. rewrite fmap_app. apply list.NoDup_app. split_and!.
  - apply NoDup_alt. intros i j x Hi Hj. rewrite list_lookup_fmap in Hi, Hj.
    destruct (l !! i) as [it1|] eqn:E1; [|done]. destruct (l !! j) as [it2|] eqn:E2; [|done].
    assert (fl !! k = Some l) as Hl by (apply Hin; left).
    eapply (D k i it1 k j it2); [by exists l|by exists l|]. simplify_eq/=. congruence.
  - intros x (it1 & -> & [i H1]%list_elem_of_lookup)%list_elem_of_fmap (it2 & E & H2)%list_elem_of_fmap.
    apply list_elem_of_In, in_concat in H2 as (l2 & Hl2 & Hit2). apply list_elem_of_In in Hl2, Hit2.
    apply list_elem_of_fmap in Hl2 as ([k2 l2'] & -> & Hl2). apply list_elem_of_lookup in Hit2 as [j H2]. cbn [snd] in *.
    assert (item_at fl k i it1) as A1 by (exists l; split; [apply Hin; left|done]).
    assert (item_at fl k2 j it2) as A2 by (exists l2'; split; [apply Hin; by right|done]).
    destruct (D _ _ _ _ _ _ A1 A2 E) as [-> _]. apply Hk. apply list_elem_of_fmap. by exists (k2, l2').
  - apply IH; [done|]. intros k' l' H. apply Hin. by right.
Qed.

(** What a plan delivers for an output. *)
Inductive output_planned (packets' : list (list Z)) (o : GroOutput) : Prop :=
| planned_scalar :
    o_header o = no_header -> o_fragments o = [] -> packets' !! o_head o = packets !! o_head o -> output_planned packets' o
| planned_frame it s ss p' :
    ss <> [] -> frame_of packets it s ss -> o = output_of (account_header it) s ss ->
    packets' !! s_index s = Some p' -> accounted it (s_packet s) p' ->
    (forall s', s' ∈ ss -> packets' !! s_index s' = Some (s_packet s')) -> output_planned packets' o.

Lemma frame_sized it s ss : frame_of packets it s ss -> sized it (s_packet s).
Proof.
  intros Hf. destruct (fits_head _ _ _ _ Hf) as [P S K T _]. pose proof (segment_min _ _ S) as [Hl _]. rewrite K in Hl.
  pose proof (so_tcp_len_ok _ _ S). destruct (fr_order _ _ _ _ Hf) as [Hg Hc _]. cbn [length] in Hc.
  split; [exact (fr_ip_len _ _ _ _ Hf)|lia|nia|exact (fr_total _ _ _ _ Hf)|done|by apply packet_wf].
Qed.

Lemma inv_ready n fl outs it : gro_inv packets n fl outs -> it ∈ concat (values fl) -> ready outs packets it.
Proof.
  intros Hg (k & i & Hi)%elem_of_values. destruct (gi_items _ _ _ _ Hg k i it Hi) as (_ & s & ss & Ho & Hf).
  exists (output_of no_header s ss), (s_packet s). split; [done|]. split; [exact (ft_packet _ _ _ _ (fits_head _ _ _ _ Hf))|].
  intros _. by eapply frame_sized.
Qed.

(** The output of an item. *)
Lemma owned_planned n fl outs (outs' : list GroOutput) (pks' : list (list Z)) it o :
  gro_inv packets n fl outs -> it ∈ concat (values fl) ->
  (forall j, (forall it o, it ∈ concat (values fl) -> outs !! i_output it = Some o -> o_head o <> j) -> pks' !! j = packets !! j) ->
  (forall it o p, it ∈ concat (values fl) -> outs !! i_output it = Some o -> packets !! o_head o = Some p ->
      exists o' p', outs' !! i_output it = Some o' /\ pks' !! o_head o = Some p' /\ settled it o o' p p') ->
  outs' !! i_output it = Some o -> output_planned pks' o.
Proof.
  intros Hg Hit R2 R3 Hi. pose proof Hit as (k & j & Hat)%elem_of_values.
  destruct (gi_items _ _ _ _ Hg k j it Hat) as (_ & s & ss & Ho & Hf). pose proof (ft_packet _ _ _ _ (fits_head _ _ _ _ Hf)) as Hp.
  destruct (R3 it _ _ Hit Ho Hp) as (o' & p' & Ho' & Hp' & Hs). rewrite Hi in Ho'. injection Ho' as <-.
  cbn [output_of o_head o_fragments] in *. destruct Hs as [(Ef & -> & ->)|(Ef & -> & Ha)].
  - apply planned_scalar; [done|done|]. cbn [output_of o_head]. by rewrite Hp', Hp.
  - eapply (planned_frame _ _ it s ss p'); [by intros ->|done|done|done|done|]. intros s' Hs'.
    rewrite R2; [exact (ft_packet _ _ _ _ (fr_fits _ _ _ _ Hf s' (list_elem_of_further _ _ _ Hs')))|].
    intros it' o' _ Ho'. eapply (fragment_not_head n outs); [exact (gi_members _ _ _ _ Hg)|exact Ho|exact Ho'|].
    cbn [output_of o_fragments]. apply list_elem_of_fmap. exists (fragment_of s'). split; [done|]. by apply (list_elem_of_fmap_2 fragment_of).
Qed.

Lemma plan_spec st :
  exists st' packets', plan little values st packets = Ret (st', packets') /\
    concat (members <$> outputs st') ≡ₚ seq 0 (length packets) /\
    forall i o, outputs st' !! i = Some o -> output_planned packets' o.
Proof.
  unfold plan. destruct (plan_loop_spec (length packets) 0 (reset values st) inv_start eq_refl) as (st1 & -> & Hg).
  rewrite run_bind_Ret. unfold apply_accounting. pose proof (members_heads _ _ (gi_members _ _ _ _ Hg)) as Hd.
  destruct (account_loop_spec (concat (values (flows st1))) (outputs st1) packets) as (outs' & pks' & -> & R1 & R2 & R3).
  - by eapply values_NoDup.
  - done.
  - apply list.Forall_forall. intros it Hit. by eapply inv_ready.
  - rewrite run_bind_Ret. do 2 eexists. split; [done|]. cbn [outputs fst snd].
    assert (forall i, members <$> outs' !! i = members <$> outputs st1 !! i) as Em.
    { intros i. destruct (decide (i ∈ i_output <$> concat (values (flows st1)))) as [(it & -> & Hit)%list_elem_of_fmap|Hn]; [|by rewrite R1].
      destruct (inv_ready _ _ _ _ Hg Hit) as (o & p & Ho & Hp & _). destruct (R3 it o p Hit Ho Hp) as (o' & p' & Ho' & _ & Hs).
      rewrite Ho, Ho'. cbn. f_equal. by destruct Hs as [(_ & -> & _)|(_ & -> & _)]. }
    split.
    + rewrite <- (gi_members _ _ _ _ Hg). apply reflexive_eq. f_equal. apply list_eq. intros i. by rewrite !list_lookup_fmap.
    + intros i o Hi. destruct (decide (i ∈ i_output <$> concat (values (flows st1)))) as [(it & -> & Hit)%list_elem_of_fmap|Hn].
      * by eapply owned_planned.
      * rewrite R1 in Hi by done. apply planned_scalar.
        -- by eapply gi_header.
        -- destruct (o_fragments o) eqn:Ef; [done|]. exfalso. destruct (gi_owned _ _ _ _ Hg i o Hi) as (k & j & it & Hit & <-); [by rewrite Ef|].
           apply Hn, list_elem_of_fmap_2, elem_of_values. eauto.
        -- apply R2. intros it o' Hit Ho' E. apply Hn. rewrite <- (Hd _ _ _ _ Ho' Hi E). by apply list_elem_of_fmap_2.
Qed.

(** C12. Planning a batch always returns.  Every packet of the batch is in exactly
    one output, as its head or as one of its fragments.  An output without
    fragments is the packet as it came, behind an empty header.  The packets of an
    output with fragments are TCP segments of one flow whose checksums are all
    valid, so that joining segments never hides a corrupt one. *)
Theorem plan_correct (st : TcpGroState) :
  exists st' packets', plan little values st packets = Ret (st', packets') /\
    concat (members <$> outputs st') ≡ₚ seq 0 (length packets) /\
    forall o, o ∈ outputs st' ->
      (o_fragments o = [] -> o_header o = no_header /\ packets' !! o_head o = packets !! o_head o) /\
      (o_fragments o <> [] -> exists key, forall j, j ∈ members o -> exists p m,
          packets !! j = Some p /\ tcp_meta p = Ret (Some m) /\ m_key m = key /\
          tcp_checksum_valid little p (m_ip_len m) (k_v6 key) = Ret true).
Proof.
  destruct (plan_spec st) as (st' & packets' & E & Hm & Ho). exists st', packets'. split; [done|]. split; [done|].
  intros o [i Hi]%list_elem_of_lookup. destruct (Ho i o Hi) as [Hh Hf Hp|it s ss p' Hne Hf -> Hp Ha Hs]; [done|]. split.
  - cbn. by destruct ss.
  - intros _. exists (i_key it). intros j Hj.
    assert (exists s', s' ∈ s :: ss /\ s_index s' = j) as (s' & Hin & <-).
    { unfold members in Hj. cbn [output_of o_head o_fragments] in Hj. rewrite map_map in Hj.
      apply elem_of_cons in Hj as [->|Hj]; [exists s; split; [left|done]|]. apply list_elem_of_fmap in Hj as (s' & -> & Hs').
      exists s'. split; [by right|done]. }
    destruct (fr_fits _ _ _ _ Hf s' Hin) as [Hp' Hs' Hk _ _]. exists (s_packet s'), (s_meta s'). split_and!; [done| |done|].
    + destruct (tcp_meta_spec (s_packet s')) as (om & -> & Hom). by rewrite (proj2 (Hom _) Hs').
    + rewrite (so_ip_len _ _ Hs'), <- Hk, segment_checksum, Hk by done. by rewrite (fr_checked _ _ _ _ Hf s').
Qed.

End plan.
End spec.
