(* ===== verification/GroTrip.v ===== *)
(** * Coalescing and splitting are inverse

    The frame written for an output is its header, its head packet and the
    payloads of its fragments.  [split_virtio] cuts that frame into the segments
    that were joined. *)

From S2P Require Import Prelude Bytes Checksum Gso GsoSpec Gro GroSpec.

(** ** Pieces of equal size *)

(** All pieces have [g] elements, but the last may have fewer. *)
Definition pieces {A} (g : nat) (ls : list (list A)) : Prop :=
  forall k l, ls !! k = Some l -> if (S k =? length ls)%nat then (length l <= g)%nat else length l = g.

Lemma pieces_tail {A} g (l : list A) ls : pieces g (l :: ls) -> ls <> [] -> length l = g /\ pieces g ls.
Proof.
  intros H Hn. split.
  - specialize (H 0%nat l eq_refl). destruct ls; [done|exact H].
  - intros k x Hk. exact (H (S k) x Hk).
Qed.

Lemma field_pieces {A} g (ls : list (list A)) : forall k l, pieces g ls -> ls !! k = Some l -> field (concat ls) (k * g) g = l.
Proof.
  induction ls as [|x ls IH]; intros k l Hp Hk; [done|].
  destruct (decide (length ls = 0)%nat) as [H0|H0].
  - apply nil_length_inv in H0 as ->. destruct k as [|k]; [|done]. injection Hk as <-. specialize (Hp 0%nat x eq_refl). cbn in Hp.
    cbn. rewrite app_nil_r. unfold field. by rewrite drop_0, take_ge.
  - destruct (pieces_tail g x ls Hp) as [Hx Ht]; [by intros ->|]. cbn [concat]. unfold field. destruct k as [|k].
    + injection Hk as <-. rewrite drop_0, take_app_le, take_ge by lia. done.
    + rewrite drop_app_ge by lia. replace (S k * g - length x)%nat with (k * g)%nat by lia. by apply IH.
Qed.

Lemma length_pieces {A} g (ls : list (list A)) l k : pieces g ls -> ls !! k = Some l -> length ls = S k -> length (concat ls) = (k * g + length l)%nat.
Proof.
  revert k. induction ls as [|x ls IH]; intros k Hp Hk Hl; [done|]. cbn [concat]. rewrite length_app. cbn [length] in Hl.
  destruct k as [|k].
  - injection Hk as ->. destruct ls; [cbn; lia|done].
  - destruct (pieces_tail g x ls Hp) as [Hx Ht]; [by intros ->|]. rewrite (IH k); [lia|done|done|lia].
Qed.

Lemma div_ceil_unique a b n : (0 < b)%nat -> (b * n < a + b /\ a <= b * n)%nat -> div_ceil a b = n.
Proof.
  intros Hb H. unfold div_ceil. pose proof (Nat.div_mod_eq a b) as E. pose proof (Nat.mod_upper_bound a b ltac:(lia)).
  destruct (Nat.eqb_spec (a mod b) 0) as [E0|E0]; nia.
Qed.

Section trip.
Variable little : bool.

(** ** Native integers *)

Lemma to_ne_length n z : length (to_ne_bytes little n z) = n.
Proof. unfold to_ne_bytes. destruct little; rewrite ?length_rev; apply length_to_be_bytes. Qed.
Lemma from_to_ne z : is_u16 z -> from_ne_bytes little (to_ne_bytes little 2 z) = z.
Proof.
  intros Hz. unfold from_ne_bytes, to_ne_bytes. destruct little; rewrite ?rev_involutive; by apply (from_to_be_bytes_small 2).
Qed.
Lemma wf_to_ne n z : wf_bytes (to_ne_bytes little n z).
Proof. unfold to_ne_bytes. destruct little; [apply Forall_rev|]; apply wf_to_be_bytes. Qed.

Lemma to_ne_two z : is_u16 z -> exists a b, to_ne_bytes little 2 z = [a; b] /\ from_ne_bytes little [a; b] = z.
Proof.
  intros Hz. pose proof (from_to_ne z Hz) as E. pose proof (to_ne_length 2 z) as L.
  destruct (to_ne_bytes little 2 z) as [|a [|b [|]]]; try done. by exists a, b.
Qed.

Lemma account_header_length it : length (account_header little it) = 10%nat.
Proof. unfold account_header. by rewrite !length_app, !to_ne_length. Qed.

(** ** The frame of an output *)

Definition seg_header (s : Seg) : nat := (m_ip_len (s_meta s) + m_tcp_len (s_meta s))%nat.
Definition seg_data (s : Seg) : list Z := drop (seg_header s) (s_packet s).

Section frame.
Variables (packets packets' : list (list Z)) (it : TcpItem) (s : Seg) (ss : list Seg) (p' : list Z).
Hypothesis Hpackets : Forall wf_bytes packets.
Hypothesis Hss : ss <> [].
Hypothesis Hframe : frame_of little packets it s ss.
Hypothesis Hhead : packets' !! s_index s = Some p'.
Hypothesis Hacc : accounted little it (s_packet s) p'.
Hypothesis Hrest : forall s', s' ∈ ss -> packets' !! s_index s' = Some (s_packet s').
Let v6 := k_v6 (i_key it).
Let ip := ip_len_of v6.
Let tl := Z.to_nat (i_tcp_len it).

Lemma trip_fits s' : s' ∈ s :: ss -> fits packets it s s'.
Proof. apply (fr_fits _ _ _ _ _ Hframe). Qed.

Lemma trip_header s' : s' ∈ s :: ss -> seg_header s' = (ip + tl)%nat /\ length (s_packet s') = (ip + tl + m_payload (s_meta s'))%nat.
Proof.
  intros Hs. destruct (trip_fits s' Hs) as [_ S K T _]. pose proof (so_ip_len _ _ S) as Ei. pose proof (so_length _ _ S) as L.
  rewrite K in Ei. unfold seg_header, ip, tl, v6. lia.
Qed.

Lemma trip_tl : (20 <= tl <= 60)%nat /\ i_tcp_len it = Z.of_nat tl /\ i_ip_len it = Z.of_nat ip.
Proof.
  destruct (trip_fits s ltac:(left)) as [_ S K T _]. pose proof (so_tcp_len_ok _ _ S). pose proof (fr_ip_len _ _ _ _ _ Hframe).
  unfold tl, ip, v6. lia.
Qed.

Lemma seg_data_length s' : s' ∈ s :: ss -> length (seg_data s') = m_payload (s_meta s').
Proof. intros Hs. destruct (trip_header s' Hs) as [E L]. unfold seg_data. rewrite length_drop, E, L. lia. Qed.

Lemma seg_data_pieces : pieces (Z.to_nat (i_gso_size it)) (seg_data <$> s :: ss).
Proof.
  intros k l Hk. rewrite list_lookup_fmap in Hk. destruct ((s :: ss) !! k) as [s'|] eqn:E; [|done]. injection Hk as <-.
  rewrite length_fmap, seg_data_length by (by eapply list_elem_of_lookup_2). apply lookup_lt_Some in E as Hlt.
  destruct (fr_order _ _ _ _ _ Hframe) as [Hg Hc Ha]. destruct (Ha k s' E) as (_ & Hp & _).
  destruct (Nat.eqb_spec (S k) (length (s :: ss))) as [El|El]; [lia|]. assert (i_gso_size it * (Z.of_nat k + 1) < payload_len it) by nia. lia.
Qed.

Lemma seg_data_total : Z.of_nat (length (concat (seg_data <$> s :: ss))) = payload_len it.
Proof.
  destruct (fr_order _ _ _ _ _ Hframe) as [Hg Hc Ha].
  destruct (lookup_lt_is_Some_2 (s :: ss) (length ss) ltac:(cbn; lia)) as [sl El].
  destruct (Ha _ _ El) as (_ & Hp & _). cbn [length] in Hc.
  rewrite (length_pieces _ _ (seg_data sl) (length ss) seg_data_pieces);
    [|by rewrite list_lookup_fmap, El|by rewrite length_fmap].
  rewrite seg_data_length by (by eapply list_elem_of_lookup_2).
  assert (Z.of_nat (length ss * Z.to_nat (i_gso_size it)) = i_gso_size it * Z.of_nat (length ss)) as E by nia. nia.
Qed.

Lemma write_fragments_spec l : forall total,
  (forall s', s' ∈ l -> s' ∈ ss) -> 0 <= total -> total + Z.of_nat (length (concat (seg_data <$> l))) <= SSIZE_MAX ->
  write_fragments packets' (map fragment_of l) total =
  Ok (seg_data <$> l, total + Z.of_nat (length (concat (seg_data <$> l)))).
Proof.
  induction l as [|x l IH]; intros total Hin H0 Hm; cbn [map write_fragments].
  { cbn. by rewrite Z.add_0_r. }
  assert (x ∈ ss) as Hx by (apply Hin; left). destruct (trip_header x (list_elem_of_further _ _ _ Hx)) as [Eh Lx].
  cbn [fragment_of f_packet f_start f_end]. rewrite (Hrest x Hx). cbn [ok_or]. unfold mbind, result_bind.
  fold (seg_header x). pose proof (get_range_ok (s_packet x) (seg_header x) (length (s_packet x) - seg_header x) ltac:(lia)) as E.
  replace (seg_header x + (length (s_packet x) - seg_header x))%nat with (length (s_packet x)) in E by lia.
  rewrite E. cbn [ok_or]. rewrite field_all. fold (seg_data x). rewrite fmap_cons in *. cbn [concat] in *. rewrite length_app in *.
  unfold SSIZE_MAX in *. rewrite (proj2 (Z.leb_gt _ _)), (proj2 (Z.ltb_ge _ _)) by lia.
  rewrite IH; [|intros s' Hs'; apply Hin; by right|lia|lia]. cbn [fst snd]. do 2 f_equal. lia.
Qed.

Lemma trip_head_length : length p' = length (s_packet s).
Proof. exact (proj1 (ac_kept _ _ _ _ Hacc)). Qed.

Lemma write_frame :
  gro_write_iovecs MAX_GRO_IOVECS (output_of (account_header little it) s ss) packets' =
  Ok (account_header little it :: p' :: (seg_data <$> ss), 10 + (i_ip_len it + i_tcp_len it + payload_len it)).
Proof.
  pose proof (fr_iovecs _ _ _ _ _ Hframe) as Hio. pose proof (fr_total _ _ _ _ _ Hframe) as Hto. pose proof seg_data_total as Hd.
  destruct trip_tl as (Ht & Et & Ei). destruct (trip_header s ltac:(left)) as [_ L]. rewrite <- trip_head_length in L.
  rewrite fmap_cons in Hd. cbn [concat] in Hd. rewrite length_app, seg_data_length in Hd by left.
  unfold gro_write_iovecs, iovec_count. cbn [output_of o_fragments o_head o_header]. rewrite length_map.
  rewrite (proj2 (Nat.ltb_ge _ _)), (proj2 (Z.ltb_ge _ _)) by (unfold MAX_GRO_IOVECS in *; lia). cbn [orb].
  rewrite Hhead. cbn [ok_or]. unfold mbind, result_bind. unfold vnet_write_len, VIRTIO_NET_HDR_LEN, SSIZE_MAX.
  rewrite (proj2 (Z.leb_gt _ _)), (proj2 (Z.ltb_ge _ _)) by lia.
  rewrite write_fragments_spec by (done || unfold SSIZE_MAX; lia). cbn [fst snd]. do 2 f_equal. lia.
Qed.

(** ** The frame as the splitter sees it *)

Definition frame_bytes : list Z := account_header little it ++ p' ++ concat (seg_data <$> ss).
Definition frame_input : list Z := p' ++ concat (seg_data <$> ss).
Definition frame_hdr : VirtioHdr :=
  {| v_flags := VIRTIO_NET_HDR_F_NEEDS_CSUM; gso_type := if v6 then GSO_TCPV6 else GSO_TCPV4;
     hdr_len := i_ip_len it + i_tcp_len it; v_gso_size := i_gso_size it; csum_start := i_ip_len it; csum_offset := 16 |}.
Definition frame_g : Gso := frame_gso frame_hdr frame_input tl.

Lemma frame_input_eq : drop VIRTIO_NET_HDR_LEN frame_bytes = frame_input.
Proof.
  unfold frame_bytes. rewrite drop_app_ge by (rewrite account_header_length; unfold VIRTIO_NET_HDR_LEN; lia).
  by rewrite account_header_length.
Qed.

Lemma trip_gso : 0 < i_gso_size it <= 65535 /\ i_gso_size it <= payload_len it.
Proof.
  destruct (fr_order _ _ _ _ _ Hframe) as [Hg Hc _]. pose proof (fr_total _ _ _ _ _ Hframe). destruct trip_tl as (? & ? & ?).
  destruct ss as [|s1 ss']; [done|]. cbn [length] in Hc. nia.
Qed.

Lemma frame_header_ok : virtio_header little frame_bytes = Ret (Ok frame_hdr).
Proof.
  destruct trip_tl as (Ht & Et & Ei). destruct trip_gso as [Hg _]. pose proof (account_header_length it) as Hl.
  assert (ip <= 40)%nat as Hip by (unfold ip, ip_len_of; destruct v6; lia).
  unfold virtio_header. rewrite (proj2 (Nat.ltb_ge _ _)) by (unfold frame_bytes; rewrite length_app, Hl; unfold VIRTIO_NET_HDR_LEN; lia).
  unfold frame_bytes, account_header, frame_hdr.
  destruct (to_ne_two (i_ip_len it + i_tcp_len it) ltac:(unfold is_u16; lia)) as (a1 & b1 & -> & V1).
  destruct (to_ne_two (i_gso_size it) ltac:(unfold is_u16; lia)) as (a2 & b2 & -> & V2).
  destruct (to_ne_two (i_ip_len it) ltac:(unfold is_u16; lia)) as (a3 & b3 & -> & V3).
  destruct (to_ne_two 16 ltac:(unfold is_u16; lia)) as (a4 & b4 & -> & V4).
  cbn [app idx lookup list_lookup expect mbind run_bind idx_range]. by rewrite V1, V2, V3, V4.
Qed.

(** The positions of the head packet that accounting changes. *)
Definition head_rewritten (k : nat) : Prop :=
  ((if v6 then 4 <= k < 6 else 2 <= k < 4 \/ 10 <= k < 12) \/ k = ip + 13 \/ ip + 16 <= k < ip + 18)%nat.

Lemma head_packet_length : (ip + tl < length p')%nat.
Proof.
  destruct (trip_header s ltac:(left)) as [_ L]. rewrite trip_head_length, L.
  pose proof (so_payload _ _ (ft_segment _ _ _ _ (trip_fits s ltac:(left)))). lia.
Qed.

Lemma input_kept k : (k < ip + tl)%nat -> ~ head_rewritten k -> frame_input !! k = s_packet s !! k.
Proof.
  intros Hk Hn. pose proof head_packet_length. unfold frame_input. rewrite lookup_app_l by lia. by apply (ac_kept _ _ _ _ Hacc).
Qed.

Lemma input_byte k : (k < ip + tl)%nat -> ~ head_rewritten k -> byte_at frame_input k = byte_at (s_packet s) k.
Proof. intros Hk Hn. unfold byte_at. by rewrite !nth_lookup, input_kept. Qed.

Lemma input_field i n : (i + n <= ip + tl)%nat -> (forall k, (i <= k < i + n)%nat -> ~ head_rewritten k) ->
  field frame_input i n = field (s_packet s) i n.
Proof.
  intros Hi Hn. apply list_eq. intros k. unfold field. destruct (decide (k < n)%nat).
  - rewrite !lookup_take_lt, !lookup_drop by done. apply input_kept; [lia|]. apply Hn. lia.
  - by rewrite !lookup_take_ge by lia.
Qed.

Lemma input_wf : wf_bytes frame_input /\ wf_bytes frame_bytes.
Proof.
  assert (wf_bytes frame_input) as Hw.
  { apply wf_bytes_app. split; [exact (ac_wf _ _ _ _ Hacc)|]. apply Forall_concat, Forall_fmap, list.Forall_forall. intros s' Hs.
    apply wf_bytes_drop. apply (packet_wf packets Hpackets s'). exact (ft_packet _ _ _ _ (trip_fits s' (list_elem_of_further _ _ _ Hs))). }
  split; [done|]. apply wf_bytes_app. split; [|exact Hw]. unfold account_header. rewrite !wf_bytes_app. split_and!; try apply wf_to_ne.
  apply list.Forall_cons. unfold is_u8. split; [done|]. apply list.Forall_cons. by destruct (k_v6 _).
Qed.

Lemma input_payload : drop (ip + tl) frame_input = concat (seg_data <$> s :: ss).
Proof.
  pose proof head_packet_length. unfold frame_input. rewrite drop_app_le by lia. cbn [fmap list_fmap concat]. f_equal.
  destruct (trip_header s ltac:(left)) as [Eh _]. unfold seg_data. rewrite Eh, <- (field_all p'), <- (field_all (s_packet s)), trip_head_length.
  apply (field_same _ _ _ _ _ (ac_kept _ _ _ _ Hacc)). destruct trip_tl as (Ht & _). fold v6 ip. intros k Hk. destruct v6; lia.
Qed.

Lemma input_length : length frame_input = (ip + tl + Z.to_nat (payload_len it))%nat.
Proof.
  pose proof seg_data_total as E. pose proof head_packet_length. rewrite <- input_payload, length_drop in E.
  assert (length p' <= length frame_input)%nat by (unfold frame_input; rewrite length_app; lia). lia.
Qed.

(** What the splitter reads in the frame. *)
Lemma frame_g_fields :
  cs frame_g = ip /\ csum_at frame_g = (ip + 16)%nat /\ header_len frame_g = (ip + tl)%nat /\ tcp frame_g = true /\
  g_version frame_g = (if v6 then 6 else 4) /\ (v6 = false -> Z.land (byte_at frame_input 0) 0x0f = 5) /\
  count frame_g = length (s :: ss) /\ sequence frame_g = m_seq (s_meta s).
Proof.
  destruct trip_tl as (Ht & Et & Ei). destruct (trip_fits s ltac:(left)) as [_ S K _ _]. pose proof (so_version _ _ S) as Hv.
  rewrite K in Hv. fold v6 in Hv.
  assert (byte_at frame_input 0 = byte_at (s_packet s) 0) as E0.
  { apply input_byte; [lia|]. unfold head_rewritten, ip, ip_len_of. destruct v6; lia. }
  assert (cs frame_g = ip) as Ecs by (unfold frame_g; cbn; lia).
  split_and!; [done|unfold frame_g; cbn; lia|unfold frame_g; cbn; lia| | | | |].
  - unfold frame_g. cbn. unfold is_tcp_gso. by destruct v6.
  - unfold frame_g. cbn. rewrite E0. unfold version_ok in Hv. destruct v6; apply Hv.
  - intros Ef. rewrite E0. rewrite Ef in Hv. apply Hv.
  - change (count frame_g) with (div_ceil (length frame_input - (Z.to_nat (i_ip_len it) + tl)) (Z.to_nat (i_gso_size it))).
    destruct (fr_order _ _ _ _ _ Hframe) as [Hg Hc _]. apply div_ceil_unique; [lia|]. rewrite input_length. nia.
  - unfold frame_g. cbn [sequence frame_gso frame_hdr gso_type csum_start]. rewrite Ei, Nat2Z.id.
    assert (is_tcp_gso (if v6 then GSO_TCPV6 else GSO_TCPV4) = true) as -> by (by destruct v6).
    rewrite input_field; [|lia|unfold head_rewritten, ip, ip_len_of; destruct v6; lia].
    by rewrite (so_seq _ _ S), (so_ip_len _ _ S), K.
Qed.

Lemma input_lookup k : (k < ip + tl)%nat -> frame_input !! k = Some (byte_at frame_input k).
Proof. intros Hk. apply lookup_byte_at. rewrite input_length. lia. Qed.

Lemma frame_transport : transport_header frame_input (gso_type frame_hdr) (cs frame_g) = Ok tl.
Proof.
  destruct frame_g_fields as (-> & _). destruct trip_tl as (Ht & Et & _). destruct (trip_fits s ltac:(left)) as [_ S K T _].
  unfold transport_header. assert ((gso_type frame_hdr =? GSO_UDP_L4) = false) as -> by (cbn; by destruct v6).
  rewrite input_lookup, input_byte by (unfold head_rewritten, ip, ip_len_of; destruct v6; lia). cbn [ok_or]. unfold mbind, result_bind.
  pose proof (so_tcp_len _ _ S) as E. rewrite (so_ip_len _ _ S), K in E. fold v6 ip in E. rewrite <- E.
  assert (m_tcp_len (s_meta s) = tl) as -> by (unfold tl; lia). rewrite !(proj2 (Nat.ltb_ge _ _)) by lia. done.
Qed.

Lemma frame_layout : layout_checked frame_hdr frame_input tl = true.
Proof.
  destruct frame_g_fields as (Ecs & Eat & _ & Etcp & Ev & E5 & _). destruct trip_tl as (Ht & _).
  unfold layout_checked. fold frame_g. rewrite Ecs, Eat, Etcp, Ev. unfold ip_layout. rewrite input_length.
  change (Z.shiftr (byte_at frame_input 0) 4) with (g_version frame_g). rewrite Ev. cbn [gso_type frame_hdr]. unfold ip, ip_len_of in *.
  destruct v6; cbn [Z.eqb Pos.eqb GSO_TCPV4 GSO_TCPV6 GSO_UDP_L4 orb negb andb].
  - rewrite !(proj2 (Nat.ltb_ge _ _)) by lia. by rewrite Nat.eqb_refl.
  - rewrite E5 by done. change (Z.to_nat 5 * 4)%nat with 20%nat. rewrite !(proj2 (Nat.ltb_ge _ _)) by lia.
    by rewrite !Nat.eqb_refl.
Qed.

Lemma frame_splits batch :
  (length (s :: ss) <= MAX_PACKETS)%nat ->
  exists b qs, split_virtio little frame_bytes batch = Ret (b, Ok tt) /\ batch_packets b = Ret qs /\
    length qs = length (s :: ss) /\ forall i q, qs !! i = Some q -> is_segment little frame_g i q.
Proof.
  intros Hn. destruct frame_g_fields as (_ & _ & Eh & _ & _ & _ & Ec & _). destruct input_wf as [_ Hw]. destruct trip_gso as [Hg Hgp].
  destruct trip_tl as (Ht & Et & Ei). pose proof (fr_total _ _ _ _ _ Hframe) as Hto. pose proof input_length as Hl.
  pose proof (split_virtio_segments little frame_bytes frame_hdr tl batch) as H. cbv zeta in H. rewrite frame_input_eq in H.
  fold frame_g in H. rewrite Ec, Eh in H. apply H; clear H.
  - done.
  - unfold frame_bytes. rewrite length_app, account_header_length. lia.
  - apply frame_header_ok.
  - cbn. lia.
  - cbn. destruct v6; auto.
  - apply frame_transport.
  - lia.
  - apply frame_layout.
  - cbn. lia.
  - cbn [length] in *. lia.
  - cbn. lia.
Qed.

(** ** One segment of the frame *)

Section segment.
Variables (k : nat) (q : list Z) (s' : Seg).
Hypothesis Hq : is_segment little frame_g k q.
Hypothesis Hs' : (s :: ss) !! k = Some s'.

(** The positions a segment does not share with the head packet as it came. *)
Definition moved (j : nat) : Prop :=
  ((if v6 then 4 <= j < 6 else 2 <= j < 6 \/ 10 <= j < 12) \/
   ip + 4 <= j < ip + 8 \/ j = ip + 13 \/ ip + 16 <= j < ip + 18)%nat.

Lemma moved_kept j : (j < ip + tl)%nat -> ~ moved j -> q !! j = s_packet s !! j.
Proof.
  destruct frame_g_fields as (Ecs & Eat & Eh & Etcp & Ev & _). intros Hj Hn. unfold moved in Hn.
  rewrite (seg_kept _ _ _ _ Hq); [apply input_kept; [done|unfold head_rewritten]| |].
  - destruct v6; lia.
  - by rewrite Eh.
  - unfold rewritten. rewrite Ecs, Eat, Etcp, Ev. destruct v6; cbn [Z.eqb Pos.eqb]; lia.
Qed.

Lemma moved_byte j : (j < ip + tl)%nat -> ~ moved j -> byte_at q j = byte_at (s_packet s) j.
Proof. intros Hj Hn. unfold byte_at. by rewrite !nth_lookup, moved_kept. Qed.

Lemma moved_field i n : (i + n <= ip + tl)%nat -> (forall j, (i <= j < i + n)%nat -> ~ moved j) ->
  field q i n = field (s_packet s) i n.
Proof.
  intros Hi Hn. apply list_eq. intros j. unfold field. destruct (decide (j < n)%nat).
  - rewrite !lookup_take_lt, !lookup_drop by done. apply moved_kept; [lia|]. apply Hn. lia.
  - by rewrite !lookup_take_ge by lia.
Qed.

Lemma trip_in : s' ∈ s :: ss.
Proof. by eapply list_elem_of_lookup_2. Qed.

Lemma trip_payload : drop (ip + tl) q = seg_data s' /\ length q = length (s_packet s').
Proof.
  destruct frame_g_fields as (_ & _ & Eh & _). pose proof (seg_payload _ _ _ _ Hq) as E. pose proof (seg_length _ _ _ _ Hq) as L.
  destruct (trip_header s' trip_in) as [_ L']. rewrite Eh in E, L.
  assert (payload_of frame_g k = seg_data s') as Ep.
  { unfold payload_of. rewrite Eh. change (input frame_g) with frame_input. change (g_gso_size frame_g) with (i_gso_size it).
    unfold field. rewrite <- drop_drop, input_payload. apply (field_pieces _ _ k); [apply seg_data_pieces|].
    by rewrite list_lookup_fmap, Hs'. }
  rewrite Ep in E, L. rewrite seg_data_length in L by apply trip_in. split; [done|lia].
Qed.

Lemma trip_flags : byte_at q (ip + 13) = if m_psh (s_meta s') then Z.lor TCP_ACK TCP_PSH else TCP_ACK.
Proof.
  destruct frame_g_fields as (Ecs & _ & _ & Etcp & _ & _ & Ec & _). pose proof (seg_transport _ _ _ _ Hq) as F.
  rewrite Etcp, Ecs, Ec in F. destruct F as [_ F]. destruct trip_tl as (Ht & _).
  change (input frame_g) with frame_input in F. rewrite input_lookup in F by lia. cbn [fmap option_fmap option_map] in F.
  assert (byte_at frame_input (ip + 13) = byte_at p' (ip + 13)) as Ei.
  { unfold byte_at, frame_input. rewrite app_nth1; [done|]. pose proof head_packet_length. lia. }
  pose proof (ac_flags _ _ _ _ Hacc) as Ef. fold v6 ip in Ef.
  destruct (trip_fits s ltac:(left)) as [_ S0 K _ _]. pose proof (so_flags _ _ S0) as F0. rewrite (so_ip_len _ _ S0), K in F0. fold v6 ip in F0.
  destruct (fr_order _ _ _ _ _ Hframe) as [_ _ Ha]. destruct (Ha 0%nat s eq_refl) as (_ & _ & P0), (Ha k s' Hs') as (_ & _ & Pk).
  assert (byte_at q (ip + 13) = (if (k + 1 <? length (s :: ss))%nat then Z.land (byte_at frame_input (ip + 13)) 0xF6 else byte_at frame_input (ip + 13))) as ->.
  { unfold byte_at at 1. by apply nth_lookup_Some. }
  rewrite Ei, Ef, F0, Pk, P0. apply lookup_lt_Some in Hs' as Hlt. destruct ss as [|s1 ss']; [done|].
  cbn [length Nat.eqb andb] in *. destruct (Nat.ltb_spec (k + 1) (S (S (length ss')))) as [H|H].
  - rewrite (proj2 (Nat.eqb_neq _ _)) by lia. by destruct (i_psh it).
  - rewrite (proj2 (Nat.eqb_eq _ _)) by lia. by destruct (i_psh it).
Qed.

Lemma trip_version : version_ok v6 q.
Proof.
  destruct frame_g_fields as (_ & _ & _ & _ & Ev & _). destruct trip_tl as (Ht & _). destruct trip_payload as [_ Lq].
  destruct (trip_fits s ltac:(left)) as [_ S0 K _ _]. pose proof (so_version _ _ S0) as Hv. rewrite K in Hv. fold v6 in Hv.
  destruct (trip_header s' trip_in) as [_ L']. pose proof (seg_ip _ _ _ _ Hq) as Hip. pose proof (seg_bound _ _ _ _ Hq) as Hb. rewrite Ev in Hip.
  unfold version_ok in *. pose proof moved_byte as B. unfold moved in B. unfold ip, ip_len_of in *.
  destruct v6; cbn [Z.eqb Pos.eqb] in Hip.
  - destruct Hv as (V0 & _ & V6 & _). rewrite !B, Hip by lia. split_and!; [done|lia|done|].
    rewrite (from_to_be_bytes_small 2) by lia. lia.
  - destruct Hv as (V0 & V1 & V9 & _ & V6 & V7 & V8). rewrite !B by lia. destruct Hip as [-> _].
    rewrite (from_to_be_bytes_small 2) by lia. done.
Qed.

Lemma trip_key : m_key (s_meta s') = key_of v6 q.
Proof.
  destruct trip_tl as (Ht & _). destruct (trip_fits s ltac:(left)) as [_ S0 K _ _], (trip_fits s' trip_in) as [_ _ K' _ _].
  rewrite K', <- K, (so_key _ _ S0), K. fold v6. unfold key_of. pose proof moved_field as F. unfold moved in F. unfold ip, ip_len_of in *.
  destruct v6; cbn [address_at ip_len_of]; rewrite !F by lia; done.
Qed.

Lemma trip_seq : m_seq (s_meta s') = from_be_bytes (field q (ip + 4) 4).
Proof.
  destruct frame_g_fields as (Ecs & _ & _ & Etcp & _ & _ & _ & Es). pose proof (seg_transport _ _ _ _ Hq) as F.
  rewrite Etcp, Ecs, Es in F. destruct F as [-> _]. change (g_gso_size frame_g) with (i_gso_size it).
  destruct (fr_order _ _ _ _ _ Hframe) as [_ _ Ha]. destruct (Ha 0%nat s eq_refl) as (P0 & _), (Ha k s' Hs') as (Pk & _).
  rewrite P0, Pk, (from_to_be_bytes 4). change (256 ^ Z.of_nat 4) with (2 ^ 32). fold (wrap32 (wrap32 (sent_seq it + i_gso_size it * Z.of_nat 0) + i_gso_size it * Z.of_nat k)).
  rewrite wrap32_add. f_equal. lia.
Qed.

Lemma trip_segment : segment_of q (s_meta s').
Proof.
  destruct trip_tl as (Ht & Et & _). destruct trip_payload as [_ Lq]. destruct (trip_fits s ltac:(left)) as [_ S0 K T _].
  destruct (trip_fits s' trip_in) as [_ Sk Kk Tk _]. pose proof (so_ip_len _ _ Sk) as Ei. rewrite Kk in Ei. fold v6 ip in Ei.
  pose proof (so_tcp_len _ _ S0) as Etl. rewrite (so_ip_len _ _ S0), K in Etl. fold v6 ip in Etl.
  split; rewrite ?Kk, ?Ei, ?Lq; fold v6.
  - exact (so_max _ _ Sk).
  - apply trip_version.
  - done.
  - rewrite moved_byte by (unfold moved, ip, ip_len_of; destruct v6; lia). rewrite <- Etl. lia.
  - exact (so_tcp_len_ok _ _ Sk).
  - rewrite <- Ei. exact (so_length _ _ Sk).
  - exact (so_payload _ _ Sk).
  - apply trip_flags.
  - rewrite <- Kk. apply trip_key.
  - apply trip_seq.
Qed.

Lemma trip_alike : likeness v6 tl q = likeness v6 tl (s_packet s').
Proof.
  destruct trip_tl as (Ht & _). pose proof (ft_alike _ _ _ _ (trip_fits s' trip_in)) as E. fold v6 tl in E. rewrite E.
  unfold likeness. pose proof moved_byte as B. pose proof moved_field as F. unfold moved in B, F. unfold ip, ip_len_of in *.
  destruct v6; rewrite !B, F by lia; done.
Qed.

Lemma trip_checksum : checksum_ok little v6 q = true.
Proof.
  destruct frame_g_fields as (Ecs & _ & _ & Etcp & Ev & _). pose proof (seg_checksum _ _ _ _ Hq) as C. unfold protocol_of in C.
  rewrite Etcp, Ecs in C. unfold checksum_ok.
  assert (address_offset frame_g = (address_at v6).1 /\ address_len frame_g = (address_at v6).2) as [Ea Es].
  { unfold frame_g, frame_gso. cbn [address_offset address_len]. change (Z.shiftr (byte_at frame_input 0) 4) with (g_version frame_g).
    rewrite Ev. by destruct v6. }
  rewrite Ea, Es in C. destruct (address_at v6). by apply Z.eqb_eq.
Qed.
End segment.

Lemma meta_of x m : segment_of x m -> tcp_meta x = Ret (Some m).
Proof. intros H. destruct (tcp_meta_spec x) as (o & -> & Ho). by rewrite (proj2 (Ho m) H). Qed.
End frame.

(** [p] and [q] are the same segment: same flow, sequence number, flags, options
    and payload.  The checksum of [q] is valid. *)
Definition same_segment (p q : list Z) : Prop :=
  exists m, tcp_meta p = Ret (Some m) /\ tcp_meta q = Ret (Some m) /\
    likeness (k_v6 (m_key m)) (m_tcp_len m) q = likeness (k_v6 (m_key m)) (m_tcp_len m) p /\
    drop (m_ip_len m + m_tcp_len m) q = drop (m_ip_len m + m_tcp_len m) p /\
    tcp_checksum_valid little q (m_ip_len m) (k_v6 (m_key m)) = Ret true.

Section plan.
Variable packets : list (list Z).
Hypothesis Hpackets : Forall wf_bytes packets.
Variable values : gmap TcpFlowKey (list TcpItem) -> list (list TcpItem).
Hypothesis values_all : forall m, values m ≡ₚ (map_to_list m).*2.

(** C5. The frame written for an output with fragments comes back from
    [split_virtio] as the segments that were joined: one packet per member, with
    the member's flow, sequence number, flags, IP header fields, options and
    payload, and a valid checksum.  The splitter takes at most [MAX_PACKETS]
    packets from a frame. *)
Theorem gro_split_roundtrip (st : TcpGroState) (batch : TunPacketBatch) :
  exists st' packets', plan little values st packets = Ret (st', packets') /\
    forall o, o ∈ outputs st' -> o_fragments o <> [] -> (length (members o) <= MAX_PACKETS)%nat ->
      exists iovs total b qs, gro_write_iovecs MAX_GRO_IOVECS o packets' = Ok (iovs, total) /\
        split_virtio little (concat iovs) batch = Ret (b, Ok tt) /\ batch_packets b = Ret qs /\
        Forall2 (fun j q => exists p, packets !! j = Some p /\ same_segment p q) (members o) qs.
Proof.
  destruct (plan_spec little packets Hpackets values values_all st) as (st' & packets' & E & _ & Ho). exists st', packets'.
  split; [done|]. intros o [i Hi]%list_elem_of_lookup Hne Hn.
  destruct (Ho i o Hi) as [_ Hf _|it s ss p' Hss Hf -> Hp Ha Hs]; [done|].
  assert (members (output_of (account_header little it) s ss) = s_index <$> s :: ss) as Em.
  { unfold members. cbn [output_of o_head o_fragments]. by rewrite map_map. }
  rewrite Em, length_fmap in Hn. destruct (frame_splits packets packets' it s ss p' Hpackets Hss Hf Ha Hs batch Hn) as (b & qs & E1 & E2 & Lq & Hq).
  do 4 eexists. split; [by apply (write_frame packets packets' it s ss p')|]. split; [exact E1|]. split; [exact E2|].
  rewrite Em. apply Forall2_fmap_l, Forall2_same_length_lookup_2; [done|]. intros k s' q Hs' Hq'. specialize (Hq k q Hq').
  assert (s' ∈ s :: ss) as Hin by (by eapply list_elem_of_lookup_2). destruct (fr_fits _ _ _ _ _ Hf s' Hin) as [Pk Sk Kk Tk _].
  exists (s_packet s'). split; [done|]. exists (s_meta s'). rewrite (so_ip_len _ _ Sk), Kk.
  assert (m_tcp_len (s_meta s') = Z.to_nat (i_tcp_len it)) as -> by lia.
  pose proof (trip_segment packets packets' it s ss p' Hss Hf Ha Hs k q s' Hq Hs') as Sq. destruct (segment_min _ _ Sq) as [Hmin _].
  split_and!; [by apply meta_of|by apply meta_of| | |].
  - exact (trip_alike packets it s ss p' Hf Ha k q s' Hq Hs').
  - destruct (trip_payload packets it s ss p' Hf Ha k q s' Hq Hs') as [-> _]. unfold seg_data.
    by destruct (trip_header packets it s ss Hf s' Hin) as [-> _].
  - rewrite tcp_checksum_valid_spec by (rewrite Kk in Hmin; try exact (so_max _ _ Sq); lia).
    by rewrite (trip_checksum packets it s ss p' Hf Ha k q).
Qed.

(** Every output of a plan can be written: it has at most [MAX_GRO_IOVECS]
    vectors, their number and total length are the ones announced, and a frame of
    joined segments is at most 65535 bytes behind its header. *)
Theorem gro_write_bounds (st : TcpGroState) :
  Forall (fun p => Z.of_nat VIRTIO_NET_HDR_LEN + Z.of_nat (length p) <= SSIZE_MAX) packets ->
  exists st' packets', plan little values st packets = Ret (st', packets') /\
    forall o, o ∈ outputs st' -> (iovec_count o <= MAX_GRO_IOVECS)%nat /\
      exists iovs total, gro_write_iovecs MAX_GRO_IOVECS o packets' = Ok (iovs, total) /\
        length iovs = iovec_count o /\ total = Z.of_nat (length (concat iovs)) /\
        (o_fragments o <> [] -> total <= Z.of_nat VIRTIO_NET_HDR_LEN + 65535).
Proof.
  intros Hlen. destruct (plan_spec little packets Hpackets values values_all st) as (st' & packets' & E & Hm & Ho). exists st', packets'.
  split; [done|]. intros o [i Hi]%list_elem_of_lookup. destruct (Ho i o Hi) as [Hh Hf Hp|it s ss p' Hss Hf -> Hp Ha Hs].
  - assert (iovec_count o = 2%nat) as Ec by (unfold iovec_count; by rewrite Hf).
    assert (o_head o < length packets)%nat as Hlt.
    { assert (o_head o ∈ concat (members <$> outputs st')) as Hin.
      { apply list_elem_of_In, in_concat. exists (members o). rewrite <- !list_elem_of_In. split; [|left].
        apply list_elem_of_fmap_2. by eapply list_elem_of_lookup_2. }
      rewrite Hm in Hin. apply elem_of_seq in Hin. lia. }
    destruct (lookup_lt_is_Some_2 packets (o_head o) Hlt) as [p Ep]. pose proof (Forall_lookup_1 _ _ _ _ Hlen Ep) as Hb. cbv beta in Hb.
    rewrite Ec. split; [unfold MAX_GRO_IOVECS; lia|]. unfold gro_write_iovecs. rewrite Ec, Hp, Ep, Hf, Hh.
    rewrite (proj2 (Nat.ltb_ge _ _)), (proj2 (Z.ltb_ge _ _)) by (unfold MAX_GRO_IOVECS; lia). cbn [orb ok_or].
    unfold mbind, result_bind, vnet_write_len. unfold SSIZE_MAX in *. rewrite (proj2 (Z.leb_gt _ _)), (proj2 (Z.ltb_ge _ _)) by lia.
    cbn [write_fragments fst snd]. do 2 eexists. split; [reflexivity|]. split; [done|]. split; [|done].
    cbn [concat]. rewrite app_nil_r, length_app. unfold no_header. rewrite length_replicate. lia.
  - assert (iovec_count (output_of (account_header little it) s ss) = (2 + length ss)%nat) as Ec.
    { unfold iovec_count. cbn [output_of o_fragments]. by rewrite length_map. }
    rewrite Ec. split; [exact (fr_iovecs _ _ _ _ _ Hf)|]. rewrite (write_frame packets packets' it s ss p') by done.
    pose proof (fr_total _ _ _ _ _ Hf) as Ht. do 2 eexists. split; [done|]. split; [cbn; by rewrite length_fmap|]. split.
    + pose proof (input_length packets it s ss p' Hf Ha) as L. unfold frame_input in L.
      destruct (trip_tl packets it s ss Hf) as (_ & Et & Ei). cbn [concat]. rewrite length_app, account_header_length.
      destruct (fr_order _ _ _ _ _ Hf) as [Hg Hc _]. cbn [length] in Hc. rewrite L. nia.
    + intros _. unfold VIRTIO_NET_HDR_LEN. lia.
Qed.
End plan.
End trip.

(** Two segments of a flow. *)
Definition example_packets : list (list Z) :=
  [[69; 0; 0; 44; 0; 9; 64; 0; 64; 6; 38; 193; 10; 0; 0; 1; 10; 0; 0; 2; 0; 80; 1; 187; 0; 0; 0; 100; 0; 0; 0; 9;
    80; 16; 2; 0; 147; 80; 0; 0; 1; 2; 3; 4];
   [69; 0; 0; 43; 0; 9; 64; 0; 64; 6; 38; 194; 10; 0; 0; 1; 10; 0; 0; 2; 0; 80; 1; 187; 0; 0; 0; 104; 0; 0; 0; 9;
    80; 24; 2; 0; 139; 69; 0; 0; 5; 6; 7]].

(** The table of flows in the order of its representation. *)
Definition example_values (m : gmap TcpFlowKey (list TcpItem)) : list (list TcpItem) := (map_to_list m).*2.

(** The members of the outputs of the plan for [example_packets]. *)
Definition example_members : run (list (list nat)) :=
  plan true example_values gro_default example_packets ≫= fun r => Ret (map members (outputs r.1)).

Lemma example_packets_wf : Forall wf_bytes example_packets.
Proof. apply (bool_decide_unpack _). by vm_compute. Qed.

Lemma plan_correct_witness :
  (exists st' packets', plan true example_values gro_default example_packets = Ret (st', packets') /\
    concat (members <$> outputs st') ≡ₚ [0; 1]%nat) /\ example_members = Ret [[0; 1]]%nat.
Proof.
  split; [|by vm_compute].
  destruct (plan_correct true example_packets example_packets_wf example_values (fun m => reflexivity _) gro_default)
    as (st' & packets' & E & Hm & _). exists st', packets'. split; [exact E|exact Hm].
Defined.

Lemma gro_split_roundtrip_witness :
  (exists st' packets', plan true example_values gro_default example_packets = Ret (st', packets') /\
    forall o, o ∈ outputs st' -> o_fragments o <> [] -> (length (members o) <= MAX_PACKETS)%nat ->
      exists iovs total b, gro_write_iovecs MAX_GRO_IOVECS o packets' = Ok (iovs, total) /\
        split_virtio true (concat iovs) batch_new = Ret (b, Ok tt)) /\ example_members = Ret [[0; 1]]%nat.
Proof.
  split; [|by vm_compute].
  destruct (gro_split_roundtrip true example_packets example_packets_wf example_values (fun m => reflexivity _) gro_default batch_new)
    as (st' & packets' & E & Ho). exists st', packets'. split; [exact E|]. intros o H1 H2 H3.
  destruct (Ho o H1 H2 H3) as (iovs & total & b & qs & E1 & E2 & _). exists iovs, total, b. split; [exact E1|exact E2].
Defined.

Lemma gro_write_bounds_witness :
  (exists st' packets', plan true example_values gro_default example_packets = Ret (st', packets') /\
    forall o, o ∈ outputs st' -> (iovec_count o <= MAX_GRO_IOVECS)%nat) /\ example_members = Ret [[0; 1]]%nat.
Proof.
  split; [|by vm_compute].
  destruct (gro_write_bounds true example_packets example_packets_wf example_values (fun m => reflexivity _) gro_default)
    as (st' & packets' & E & Ho).
  - apply (bool_decide_unpack _). by vm_compute.
  - exists st', packets'. split; [exact E|]. intros o Hin. apply (Ho o Hin).
Defined.
