(* ===== verification/MagicEndpoint.v ===== *)
(** * Per-peer endpoint state: [crates/magicsock/src/endpoint.rs]

    An endpoint keeps the candidate addresses of a peer, the direct address last
    confirmed by a pong and how long it is trusted, the peer-relay path and the
    addresses used with each relay server, the DERP region of the last packet, the
    pings that await a pong and the probe of the lifetime of the UDP path.

    An [Instant] and a [SystemTime] are a number of nanoseconds; a function that
    reads a clock takes the time as an argument. *)

From S2P Require Import Prelude Bytes IpAddr Keys.

Definition SECOND : Z := 1000000000.
Definition TRUST_BEST_ADDR_DURATION : Z := 6500 * 1000000.
Definition DERP_ROUTE_CLEANUP_TIMEOUT : Z := 300 * SECOND.
Definition PATH_ACTIVITY_TIMEOUT : Z := 45 * SECOND.
Definition MAX_RELAY_PATH_HISTORY_PER_SERVER : nat := 8.
Definition MAX_CANDIDATES : nat := 100.

(** [Instant::duration_since] and [Instant::checked_duration_since]. *)
Definition duration_since (now t : Z) : Z := Z.max 0 (now - t).
Definition checked_duration_since (now t : Z) : option Z := if t <=? now then Some (now - t) else None.
(** [Duration::checked_sub]. *)
Definition checked_sub (a b : Z) : option Z := if b <=? a then Some (a - b) else None.

(** ** Data *)

Inductive EndpointType : Type := TUnknown | ExplicitConf | Stun | Portmapped | Stun4LocalPort | Local.

(** [EndpointType::rank]. *)
Definition rank (t : EndpointType) : Z :=
  match t with
  | Local => 5 | Portmapped => 4 | Stun4LocalPort => 3 | Stun => 2 | ExplicitConf => 1 | TUnknown => 0
  end.

Inductive PathClass : Type := PNone | PDerp | PRelay | PDirect.
#[global] Instance PathClass_eq_dec : EqDecision PathClass.
Proof. solve_decision. Defined.

Record PathTelemetry : Type := {
  t_class : PathClass; t_addr : option SocketAddr; t_derp_region : option Z;
  t_observed_at : option Z; t_last_rx_at : option Z; t_last_tx_at : option Z; t_fresh : bool }.
Definition telemetry_default : PathTelemetry :=
  {| t_class := PNone; t_addr := None; t_derp_region := None; t_observed_at := None; t_last_rx_at := None;
     t_last_tx_at := None; t_fresh := false |}.

Record TransportObservation : Type := {
  ob_class : PathClass; ob_addr : option SocketAddr; ob_derp_region : option Z; ob_monotonic_at : Z; ob_wall_at : Z }.

Inductive DiscoPingPurpose : Type := Discovery | Heartbeat | CLI | HeartbeatForUDPLifetime.

Record PendingPing : Type := {
  sent_at : Z; pp_addr : SocketAddr; purpose : DiscoPingPurpose; pp_size : Z; cli_request_id : option Z }.

Inductive BestPath : Type :=
| BNone
| BDerp (region : Z)
| BDirect (addr : SocketAddr) (trusted_until : Z)
| BRelay (addr : SocketAddr) (vni : Z).

(** [BestPath::class] and [BestPath::addr]. *)
Definition class (p : BestPath) : PathClass :=
  match p with BNone => PNone | BDerp _ => PDerp | BRelay _ _ => PRelay | BDirect _ _ => PDirect end.
Definition path_addr (p : BestPath) : option SocketAddr :=
  match p with BDirect a _ | BRelay a _ => Some a | _ => None end.

(** ** The probe of the lifetime of a UDP path *)

Record ProbeUDPLifetime : Type := {
  cliffs : list Z; cycle_can_start_every : Z; current_cliff : nat; cycle_active : bool;
  cycle_started_at : option Z; probe_addr : option SocketAddr; last_tx_id : list Z }.

(** [ProbeUDPLifetime::default_config]. *)
Definition default_config : ProbeUDPLifetime :=
  {| cliffs := [10 * SECOND; 30 * SECOND; 60 * SECOND]; cycle_can_start_every := 86400 * SECOND; current_cliff := 0;
     cycle_active := false; cycle_started_at := None; probe_addr := None; last_tx_id := replicate 12 0 |}.

(** [current_cliff_duration]. *)
Definition current_cliff_duration (p : ProbeUDPLifetime) : run Z := idx (cliffs p) (current_cliff p).

(** [reset_cycle]. *)
Definition reset_cycle (p : ProbeUDPLifetime) : ProbeUDPLifetime :=
  {| cliffs := cliffs p; cycle_can_start_every := cycle_can_start_every p; current_cliff := 0; cycle_active := false;
     cycle_started_at := cycle_started_at p; probe_addr := None; last_tx_id := last_tx_id p |}.

(** [start_cycle]. *)
Definition start_cycle (p : ProbeUDPLifetime) (addr : SocketAddr) (now : Z) : ProbeUDPLifetime :=
  {| cliffs := cliffs p; cycle_can_start_every := cycle_can_start_every p; current_cliff := 0; cycle_active := true;
     cycle_started_at := Some now; probe_addr := Some addr; last_tx_id := last_tx_id p |}.

(** [set_last_tx_id]. *)
Definition set_last_tx_id (p : ProbeUDPLifetime) (tx_id : list Z) : ProbeUDPLifetime :=
  {| cliffs := cliffs p; cycle_can_start_every := cycle_can_start_every p; current_cliff := current_cliff p;
     cycle_active := cycle_active p; cycle_started_at := cycle_started_at p; probe_addr := probe_addr p; last_tx_id := tx_id |}.

(** [advance_cliff]. *)
Definition advance_cliff (p : ProbeUDPLifetime) : run (ProbeUDPLifetime * bool) :=
  last ← sub_usize (length (cliffs p)) 1;
  if (last <=? current_cliff p)%nat then Ret (reset_cycle p, false)
  else Ret ({| cliffs := cliffs p; cycle_can_start_every := cycle_can_start_every p;
               current_cliff := (current_cliff p + 1)%nat; cycle_active := cycle_active p;
               cycle_started_at := cycle_started_at p; probe_addr := probe_addr p; last_tx_id := last_tx_id p |}, true).

(** [can_start_cycle]. *)
Definition can_start_cycle (p : ProbeUDPLifetime) (now : Z) : bool :=
  if cycle_active p then false
  else match cycle_started_at p with
       | Some t => cycle_can_start_every p <=? duration_since now t
       | None => true
       end.

(** ** The endpoint *)

Record RelayPath : Type := { r_addr : SocketAddr; r_vni : Z; server_key : list Z; server_generation : Z }.

Record Endpoint : Type := {
  peer_node_key : list Z;
  node_addr : option IpAddr;
  peer_disco_key : list Z;
  candidates : list (SocketAddr * EndpointType);
  best_addr : option (SocketAddr * Z);
  relay : option RelayPath;
  relay_history : gmap (list Z * Z) (list SocketAddr);
  home_derp : Z;
  last_recv_derp_region : Z;
  last_recv_derp_at : option Z;
  pending_pings : gmap (list Z) PendingPing;
  call_me_maybe_sent : bool;
  last_send_ext : option Z;
  last_recv_udp : option Z;
  probe_udp_lifetime : option ProbeUDPLifetime;
  peer_mtu : Z;
  last_full_ping : option Z;
  last_transport : option TransportObservation;
  last_transport_rx : option Z;
  last_transport_tx : option Z }.

(** Assignments to the fields. *)
Definition with_node_addr (e : Endpoint) (v : option IpAddr) : Endpoint :=
  {| peer_node_key := peer_node_key e; node_addr := v; peer_disco_key := peer_disco_key e; candidates := candidates e;
     best_addr := best_addr e; relay := relay e; relay_history := relay_history e; home_derp := home_derp e;
     last_recv_derp_region := last_recv_derp_region e; last_recv_derp_at := last_recv_derp_at e;
     pending_pings := pending_pings e; call_me_maybe_sent := call_me_maybe_sent e; last_send_ext := last_send_ext e;
     last_recv_udp := last_recv_udp e; probe_udp_lifetime := probe_udp_lifetime e; peer_mtu := peer_mtu e;
     last_full_ping := last_full_ping e; last_transport := last_transport e; last_transport_rx := last_transport_rx e;
     last_transport_tx := last_transport_tx e |}.
Definition with_peer_disco_key (e : Endpoint) (v : list Z) : Endpoint :=
  {| peer_node_key := peer_node_key e; node_addr := node_addr e; peer_disco_key := v; candidates := candidates e;
     best_addr := best_addr e; relay := relay e; relay_history := relay_history e; home_derp := home_derp e;
     last_recv_derp_region := last_recv_derp_region e; last_recv_derp_at := last_recv_derp_at e;
     pending_pings := pending_pings e; call_me_maybe_sent := call_me_maybe_sent e; last_send_ext := last_send_ext e;
     last_recv_udp := last_recv_udp e; probe_udp_lifetime := probe_udp_lifetime e; peer_mtu := peer_mtu e;
     last_full_ping := last_full_ping e; last_transport := last_transport e; last_transport_rx := last_transport_rx e;
     last_transport_tx := last_transport_tx e |}.
Definition with_candidates (e : Endpoint) (v : list (SocketAddr * EndpointType)) : Endpoint :=
  {| peer_node_key := peer_node_key e; node_addr := node_addr e; peer_disco_key := peer_disco_key e; candidates := v;
     best_addr := best_addr e; relay := relay e; relay_history := relay_history e; home_derp := home_derp e;
     last_recv_derp_region := last_recv_derp_region e; last_recv_derp_at := last_recv_derp_at e;
     pending_pings := pending_pings e; call_me_maybe_sent := call_me_maybe_sent e; last_send_ext := last_send_ext e;
     last_recv_udp := last_recv_udp e; probe_udp_lifetime := probe_udp_lifetime e; peer_mtu := peer_mtu e;
     last_full_ping := last_full_ping e; last_transport := last_transport e; last_transport_rx := last_transport_rx e;
     last_transport_tx := last_transport_tx e |}.
Definition with_best_addr (e : Endpoint) (v : option (SocketAddr * Z)) : Endpoint :=
  {| peer_node_key := peer_node_key e; node_addr := node_addr e; peer_disco_key := peer_disco_key e;
     candidates := candidates e; best_addr := v; relay := relay e; relay_history := relay_history e;
     home_derp := home_derp e; last_recv_derp_region := last_recv_derp_region e;
     last_recv_derp_at := last_recv_derp_at e; pending_pings := pending_pings e;
     call_me_maybe_sent := call_me_maybe_sent e; last_send_ext := last_send_ext e; last_recv_udp := last_recv_udp e;
     probe_udp_lifetime := probe_udp_lifetime e; peer_mtu := peer_mtu e; last_full_ping := last_full_ping e;
     last_transport := last_transport e; last_transport_rx := last_transport_rx e;
     last_transport_tx := last_transport_tx e |}.
Definition with_relay (e : Endpoint) (v : option RelayPath) : Endpoint :=
  {| peer_node_key := peer_node_key e; node_addr := node_addr e; peer_disco_key := peer_disco_key e;
     candidates := candidates e; best_addr := best_addr e; relay := v; relay_history := relay_history e;
     home_derp := home_derp e; last_recv_derp_region := last_recv_derp_region e;
     last_recv_derp_at := last_recv_derp_at e; pending_pings := pending_pings e;
     call_me_maybe_sent := call_me_maybe_sent e; last_send_ext := last_send_ext e; last_recv_udp := last_recv_udp e;
     probe_udp_lifetime := probe_udp_lifetime e; peer_mtu := peer_mtu e; last_full_ping := last_full_ping e;
     last_transport := last_transport e; last_transport_rx := last_transport_rx e;
     last_transport_tx := last_transport_tx e |}.
Definition with_relay_history (e : Endpoint) (v : gmap (list Z * Z) (list SocketAddr)) : Endpoint :=
  {| peer_node_key := peer_node_key e; node_addr := node_addr e; peer_disco_key := peer_disco_key e;
     candidates := candidates e; best_addr := best_addr e; relay := relay e; relay_history := v;
     home_derp := home_derp e; last_recv_derp_region := last_recv_derp_region e;
     last_recv_derp_at := last_recv_derp_at e; pending_pings := pending_pings e;
     call_me_maybe_sent := call_me_maybe_sent e; last_send_ext := last_send_ext e; last_recv_udp := last_recv_udp e;
     probe_udp_lifetime := probe_udp_lifetime e; peer_mtu := peer_mtu e; last_full_ping := last_full_ping e;
     last_transport := last_transport e; last_transport_rx := last_transport_rx e;
     last_transport_tx := last_transport_tx e |}.
Definition with_home_derp (e : Endpoint) (v : Z) : Endpoint :=
  {| peer_node_key := peer_node_key e; node_addr := node_addr e; peer_disco_key := peer_disco_key e;
     candidates := candidates e; best_addr := best_addr e; relay := relay e; relay_history := relay_history e;
     home_derp := v; last_recv_derp_region := last_recv_derp_region e; last_recv_derp_at := last_recv_derp_at e;
     pending_pings := pending_pings e; call_me_maybe_sent := call_me_maybe_sent e; last_send_ext := last_send_ext e;
     last_recv_udp := last_recv_udp e; probe_udp_lifetime := probe_udp_lifetime e; peer_mtu := peer_mtu e;
     last_full_ping := last_full_ping e; last_transport := last_transport e; last_transport_rx := last_transport_rx e;
     last_transport_tx := last_transport_tx e |}.
Definition with_last_recv_derp_region (e : Endpoint) (v : Z) : Endpoint :=
  {| peer_node_key := peer_node_key e; node_addr := node_addr e; peer_disco_key := peer_disco_key e;
     candidates := candidates e; best_addr := best_addr e; relay := relay e; relay_history := relay_history e;
     home_derp := home_derp e; last_recv_derp_region := v; last_recv_derp_at := last_recv_derp_at e;
     pending_pings := pending_pings e; call_me_maybe_sent := call_me_maybe_sent e; last_send_ext := last_send_ext e;
     last_recv_udp := last_recv_udp e; probe_udp_lifetime := probe_udp_lifetime e; peer_mtu := peer_mtu e;
     last_full_ping := last_full_ping e; last_transport := last_transport e; last_transport_rx := last_transport_rx e;
     last_transport_tx := last_transport_tx e |}.
Definition with_last_recv_derp_at (e : Endpoint) (v : option Z) : Endpoint :=
  {| peer_node_key := peer_node_key e; node_addr := node_addr e; peer_disco_key := peer_disco_key e;
     candidates := candidates e; best_addr := best_addr e; relay := relay e; relay_history := relay_history e;
     home_derp := home_derp e; last_recv_derp_region := last_recv_derp_region e; last_recv_derp_at := v;
     pending_pings := pending_pings e; call_me_maybe_sent := call_me_maybe_sent e; last_send_ext := last_send_ext e;
     last_recv_udp := last_recv_udp e; probe_udp_lifetime := probe_udp_lifetime e; peer_mtu := peer_mtu e;
     last_full_ping := last_full_ping e; last_transport := last_transport e; last_transport_rx := last_transport_rx e;
     last_transport_tx := last_transport_tx e |}.
Definition with_pending_pings (e : Endpoint) (v : gmap (list Z) PendingPing) : Endpoint :=
  {| peer_node_key := peer_node_key e; node_addr := node_addr e; peer_disco_key := peer_disco_key e;
     candidates := candidates e; best_addr := best_addr e; relay := relay e; relay_history := relay_history e;
     home_derp := home_derp e; last_recv_derp_region := last_recv_derp_region e;
     last_recv_derp_at := last_recv_derp_at e; pending_pings := v; call_me_maybe_sent := call_me_maybe_sent e;
     last_send_ext := last_send_ext e; last_recv_udp := last_recv_udp e; probe_udp_lifetime := probe_udp_lifetime e;
     peer_mtu := peer_mtu e; last_full_ping := last_full_ping e; last_transport := last_transport e;
     last_transport_rx := last_transport_rx e; last_transport_tx := last_transport_tx e |}.
Definition with_call_me_maybe_sent (e : Endpoint) (v : bool) : Endpoint :=
  {| peer_node_key := peer_node_key e; node_addr := node_addr e; peer_disco_key := peer_disco_key e;
     candidates := candidates e; best_addr := best_addr e; relay := relay e; relay_history := relay_history e;
     home_derp := home_derp e; last_recv_derp_region := last_recv_derp_region e;
     last_recv_derp_at := last_recv_derp_at e; pending_pings := pending_pings e; call_me_maybe_sent := v;
     last_send_ext := last_send_ext e; last_recv_udp := last_recv_udp e; probe_udp_lifetime := probe_udp_lifetime e;
     peer_mtu := peer_mtu e; last_full_ping := last_full_ping e; last_transport := last_transport e;
     last_transport_rx := last_transport_rx e; last_transport_tx := last_transport_tx e |}.
Definition with_last_send_ext (e : Endpoint) (v : option Z) : Endpoint :=
  {| peer_node_key := peer_node_key e; node_addr := node_addr e; peer_disco_key := peer_disco_key e;
     candidates := candidates e; best_addr := best_addr e; relay := relay e; relay_history := relay_history e;
     home_derp := home_derp e; last_recv_derp_region := last_recv_derp_region e;
     last_recv_derp_at := last_recv_derp_at e; pending_pings := pending_pings e;
     call_me_maybe_sent := call_me_maybe_sent e; last_send_ext := v; last_recv_udp := last_recv_udp e;
     probe_udp_lifetime := probe_udp_lifetime e; peer_mtu := peer_mtu e; last_full_ping := last_full_ping e;
     last_transport := last_transport e; last_transport_rx := last_transport_rx e;
     last_transport_tx := last_transport_tx e |}.
Definition with_last_recv_udp (e : Endpoint) (v : option Z) : Endpoint :=
  {| peer_node_key := peer_node_key e; node_addr := node_addr e; peer_disco_key := peer_disco_key e;
     candidates := candidates e; best_addr := best_addr e; relay := relay e; relay_history := relay_history e;
     home_derp := home_derp e; last_recv_derp_region := last_recv_derp_region e;
     last_recv_derp_at := last_recv_derp_at e; pending_pings := pending_pings e;
     call_me_maybe_sent := call_me_maybe_sent e; last_send_ext := last_send_ext e; last_recv_udp := v;
     probe_udp_lifetime := probe_udp_lifetime e; peer_mtu := peer_mtu e; last_full_ping := last_full_ping e;
     last_transport := last_transport e; last_transport_rx := last_transport_rx e;
     last_transport_tx := last_transport_tx e |}.
Definition with_probe_udp_lifetime (e : Endpoint) (v : option ProbeUDPLifetime) : Endpoint :=
  {| peer_node_key := peer_node_key e; node_addr := node_addr e; peer_disco_key := peer_disco_key e;
     candidates := candidates e; best_addr := best_addr e; relay := relay e; relay_history := relay_history e;
     home_derp := home_derp e; last_recv_derp_region := last_recv_derp_region e;
     last_recv_derp_at := last_recv_derp_at e; pending_pings := pending_pings e;
     call_me_maybe_sent := call_me_maybe_sent e; last_send_ext := last_send_ext e; last_recv_udp := last_recv_udp e;
     probe_udp_lifetime := v; peer_mtu := peer_mtu e; last_full_ping := last_full_ping e;
     last_transport := last_transport e; last_transport_rx := last_transport_rx e;
     last_transport_tx := last_transport_tx e |}.
Definition with_peer_mtu (e : Endpoint) (v : Z) : Endpoint :=
  {| peer_node_key := peer_node_key e; node_addr := node_addr e; peer_disco_key := peer_disco_key e;
     candidates := candidates e; best_addr := best_addr e; relay := relay e; relay_history := relay_history e;
     home_derp := home_derp e; last_recv_derp_region := last_recv_derp_region e;
     last_recv_derp_at := last_recv_derp_at e; pending_pings := pending_pings e;
     call_me_maybe_sent := call_me_maybe_sent e; last_send_ext := last_send_ext e; last_recv_udp := last_recv_udp e;
     probe_udp_lifetime := probe_udp_lifetime e; peer_mtu := v; last_full_ping := last_full_ping e;
     last_transport := last_transport e; last_transport_rx := last_transport_rx e;
     last_transport_tx := last_transport_tx e |}.
Definition with_last_full_ping (e : Endpoint) (v : option Z) : Endpoint :=
  {| peer_node_key := peer_node_key e; node_addr := node_addr e; peer_disco_key := peer_disco_key e;
     candidates := candidates e; best_addr := best_addr e; relay := relay e; relay_history := relay_history e;
     home_derp := home_derp e; last_recv_derp_region := last_recv_derp_region e;
     last_recv_derp_at := last_recv_derp_at e; pending_pings := pending_pings e;
     call_me_maybe_sent := call_me_maybe_sent e; last_send_ext := last_send_ext e; last_recv_udp := last_recv_udp e;
     probe_udp_lifetime := probe_udp_lifetime e; peer_mtu := peer_mtu e; last_full_ping := v;
     last_transport := last_transport e; last_transport_rx := last_transport_rx e;
     last_transport_tx := last_transport_tx e |}.
Definition with_last_transport (e : Endpoint) (v : option TransportObservation) : Endpoint :=
  {| peer_node_key := peer_node_key e; node_addr := node_addr e; peer_disco_key := peer_disco_key e;
     candidates := candidates e; best_addr := best_addr e; relay := relay e; relay_history := relay_history e;
     home_derp := home_derp e; last_recv_derp_region := last_recv_derp_region e;
     last_recv_derp_at := last_recv_derp_at e; pending_pings := pending_pings e;
     call_me_maybe_sent := call_me_maybe_sent e; last_send_ext := last_send_ext e; last_recv_udp := last_recv_udp e;
     probe_udp_lifetime := probe_udp_lifetime e; peer_mtu := peer_mtu e; last_full_ping := last_full_ping e;
     last_transport := v; last_transport_rx := last_transport_rx e; last_transport_tx := last_transport_tx e |}.
Definition with_last_transport_rx (e : Endpoint) (v : option Z) : Endpoint :=
  {| peer_node_key := peer_node_key e; node_addr := node_addr e; peer_disco_key := peer_disco_key e;
     candidates := candidates e; best_addr := best_addr e; relay := relay e; relay_history := relay_history e;
     home_derp := home_derp e; last_recv_derp_region := last_recv_derp_region e;
     last_recv_derp_at := last_recv_derp_at e; pending_pings := pending_pings e;
     call_me_maybe_sent := call_me_maybe_sent e; last_send_ext := last_send_ext e; last_recv_udp := last_recv_udp e;
     probe_udp_lifetime := probe_udp_lifetime e; peer_mtu := peer_mtu e; last_full_ping := last_full_ping e;
     last_transport := last_transport e; last_transport_rx := v; last_transport_tx := last_transport_tx e |}.
Definition with_last_transport_tx (e : Endpoint) (v : option Z) : Endpoint :=
  {| peer_node_key := peer_node_key e; node_addr := node_addr e; peer_disco_key := peer_disco_key e;
     candidates := candidates e; best_addr := best_addr e; relay := relay e; relay_history := relay_history e;
     home_derp := home_derp e; last_recv_derp_region := last_recv_derp_region e;
     last_recv_derp_at := last_recv_derp_at e; pending_pings := pending_pings e;
     call_me_maybe_sent := call_me_maybe_sent e; last_send_ext := last_send_ext e; last_recv_udp := last_recv_udp e;
     probe_udp_lifetime := probe_udp_lifetime e; peer_mtu := peer_mtu e; last_full_ping := last_full_ping e;
     last_transport := last_transport e; last_transport_rx := last_transport_rx e; last_transport_tx := v |}.

(** [Endpoint::new]. *)
Definition new (node_key disco_key : list Z) (home : Z) : Endpoint :=
  {| peer_node_key := node_key; node_addr := None; peer_disco_key := disco_key; candidates := []; best_addr := None;
     relay := None; relay_history := ∅; home_derp := home; last_recv_derp_region := 0; last_recv_derp_at := None;
     pending_pings := ∅; call_me_maybe_sent := false; last_send_ext := None; last_recv_udp := None;
     probe_udp_lifetime := Some default_config; peer_mtu := 0; last_full_ping := None; last_transport := None;
     last_transport_rx := None; last_transport_tx := None |}.

(** [update_peer_disco_key]: the endpoint and the replaced key. *)
Definition update_peer_disco_key (e : Endpoint) (k : list Z) : Endpoint * option (list Z) :=
  if decide (peer_disco_key e = k) then (e, None) else (with_peer_disco_key e k, Some (peer_disco_key e)).

(** *** Candidates *)

(** [set_candidates] and [set_candidates_typed]. *)
Definition set_candidates (e : Endpoint) (addrs : list SocketAddr) : Endpoint :=
  with_candidates e (map (fun a => (a, TUnknown)) addrs).
Definition set_candidates_typed (e : Endpoint) (addrs : list (SocketAddr * EndpointType)) : Endpoint := with_candidates e addrs.

(** [learn_candidate]. *)
Definition learn_candidate (e : Endpoint) (addr : SocketAddr) : Endpoint * bool :=
  if existsb (fun c => bool_decide (c.1 = addr)) (candidates e) || (MAX_CANDIDATES <=? length (candidates e))%nat
  then (e, false)
  else (with_candidates e (candidates e ++ [(addr, TUnknown)]), true).

(** [sort_by_key] with the key [Reverse(rank)]: a stable sort. *)
Fixpoint insert_ranked (c : SocketAddr * EndpointType) (l : list (SocketAddr * EndpointType)) : list (SocketAddr * EndpointType) :=
  match l with
  | [] => [c]
  | d :: l' => if rank d.2 <=? rank c.2 then c :: l else d :: insert_ranked c l'
  end.
(** [ranked_candidates]. *)
Definition ranked_candidates (e : Endpoint) : list (SocketAddr * EndpointType) := foldr insert_ranked [] (candidates e).

(** [should_start_discovery]. *)
Definition should_start_discovery (e : Endpoint) (now interval : Z) : Endpoint * bool :=
  match last_full_ping e with
  | Some last => if duration_since now last <? interval then (e, false) else (with_last_full_ping e (Some now), true)
  | None => (with_last_full_ping e (Some now), true)
  end.

(** *** DERP *)

(** [set_last_recv_derp_region]. *)
Definition set_last_recv_derp_region (e : Endpoint) (region clock : Z) : Endpoint :=
  with_last_recv_derp_at (with_last_recv_derp_region e region) (Some clock).

(** [derp_route_valid]. *)
Definition derp_route_valid (e : Endpoint) (clock : Z) : bool :=
  match last_recv_derp_at e with
  | Some t => duration_since clock t <? DERP_ROUTE_CLEANUP_TIMEOUT
  | None => false
  end.

(** [derp_send_region]. *)
Definition derp_send_region (e : Endpoint) (clock : Z) : Z :=
  if (0 <? last_recv_derp_region e) && derp_route_valid e clock then last_recv_derp_region e else home_derp e.

(** [remove_derp_route]. *)
Definition remove_derp_route (e : Endpoint) : Endpoint := with_last_recv_derp_at (with_last_recv_derp_region e 0) None.

(** [expire_derp_route_if_stale]. *)
Definition expire_derp_route_if_stale (e : Endpoint) (clock : Z) : Endpoint :=
  match last_recv_derp_at e with
  | Some t => if DERP_ROUTE_CLEANUP_TIMEOUT <=? duration_since clock t then remove_derp_route e else e
  | None => e
  end.

(** *** The best path *)

(** [best_path]. *)
Definition best_path (e : Endpoint) (now clock : Z) : BestPath :=
  let rest :=
    match relay e with
    | Some r => BRelay (r_addr r) (r_vni r)
    | None =>
        let region := if derp_route_valid e clock then last_recv_derp_region e else home_derp e in
        if 0 <? region then BDerp region else BNone
    end in
  match best_addr e with
  | Some (addr, until) => if now <? until then BDirect addr until else rest
  | None => rest
  end.

(** [trusted_direct_addr] and [direct_expired]. *)
Definition trusted_direct_addr (e : Endpoint) (now : Z) : option SocketAddr :=
  match best_addr e with
  | Some (addr, until) => if now <? until then Some addr else None
  | None => None
  end.
Definition direct_expired (e : Endpoint) (now : Z) : bool :=
  match best_addr e with Some (_, until) => until <=? now | None => true end.

(** [record_transport_at]. *)
Definition record_transport_at (e : Endpoint) (c : PathClass) (addr : option SocketAddr) (region : option Z)
    (monotonic_at wall_at : Z) (received : bool) : Endpoint :=
  if negb received then
    let matches_current :=
      match last_transport e with
      | None => false
      | Some ob =>
          bool_decide (ob_class ob = c) && bool_decide (ob_addr ob = addr) && bool_decide (ob_derp_region ob = region)
          && match checked_duration_since monotonic_at (ob_monotonic_at ob) with
             | Some age => age <? PATH_ACTIVITY_TIMEOUT
             | None => false
             end
          && (negb (bool_decide (c = PDirect)) || bool_decide (trusted_direct_addr e monotonic_at = addr))
      end in
    if matches_current then with_last_transport_tx e (Some wall_at) else e
  else
    with_last_transport_rx
      (with_last_transport e
         (Some {| ob_class := c; ob_addr := addr; ob_derp_region := region; ob_monotonic_at := monotonic_at; ob_wall_at := wall_at |}))
      (Some wall_at).

(** [confirm_direct]. *)
Definition confirm_direct (e : Endpoint) (addr : SocketAddr) (now wall : Z) : Endpoint :=
  record_transport_at (with_best_addr e (Some (addr, now + TRUST_BEST_ADDR_DURATION))) PDirect (Some addr) None now wall true.

(** [note_direct_transport], [note_derp_transport] and [note_relay_transport]. *)
Definition note_direct_transport (e : Endpoint) (addr : SocketAddr) (received : bool) (clock wall : Z) : Endpoint :=
  record_transport_at e PDirect (Some addr) None clock wall received.
Definition note_derp_transport (e : Endpoint) (region : Z) (received : bool) (clock wall : Z) : Endpoint :=
  record_transport_at e PDerp None (if 0 <? region then Some region else None) clock wall received.
Definition note_relay_transport (e : Endpoint) (addr : SocketAddr) (received : bool) (clock wall : Z) : Endpoint :=
  record_transport_at e PRelay (Some addr) None clock wall received.

(** [path_telemetry_at]. *)
Definition path_telemetry_at (e : Endpoint) (now : Z) : PathTelemetry :=
  match last_transport e with
  | None => telemetry_default
  | Some ob =>
      let fresh := match checked_duration_since now (ob_monotonic_at ob) with
                   | Some age => age <? PATH_ACTIVITY_TIMEOUT
                   | None => false
                   end in
      let direct_current := negb (bool_decide (ob_class ob = PDirect)) ||
                            match trusted_direct_addr e now with Some _ => true | None => false end in
      let current := fresh && direct_current in
      {| t_class := if current then ob_class ob else PNone; t_addr := if current then ob_addr ob else None;
         t_derp_region := if current then ob_derp_region ob else None; t_observed_at := Some (ob_wall_at ob);
         t_last_rx_at := last_transport_rx e; t_last_tx_at := last_transport_tx e; t_fresh := current |}
  end.

(** *** Relay paths *)

(** The loop of [set_relay]: the evicted addresses and the history. *)
Fixpoint evict_oldest (addr : SocketAddr) (history : list SocketAddr) : run (list SocketAddr * list SocketAddr) :=
  match history with
  | [] => Ret ([], [])
  | oldest :: rest =>
      if (MAX_RELAY_PATH_HISTORY_PER_SERVER <? length history)%nat then
        _ ← assert_run (negb (bool_decide (oldest = addr)));
        r ← evict_oldest addr rest;
        Ret (oldest :: r.1, r.2)
      else Ret ([], history)
  end.

(** [VecDeque::remove] at the position [iter().position] finds. *)
Definition remove_address (addr : SocketAddr) (history : list SocketAddr) : list SocketAddr :=
  match list_find (fun a => a = addr) history with Some (i, _) => delete i history | None => history end.

(** [set_relay]. *)
Definition set_relay (e : Endpoint) (addr : SocketAddr) (vni : Z) (key : list Z) (generation : Z)
  : run (Endpoint * list SocketAddr) :=
  let history := remove_address addr (default [] (relay_history e !! (key, generation))) ++ [addr] in
  r ← evict_oldest addr history;
  Ret (with_relay (with_relay_history e (<[(key, generation) := r.2]> (relay_history e)))
         (Some {| r_addr := addr; r_vni := vni; server_key := key; server_generation := generation |}), r.1).

(** [clear_relay]. *)
Definition clear_relay (e : Endpoint) : Endpoint := with_relay_history (with_relay e None) ∅.

(** [clear_relay_server]. *)
Definition clear_relay_server (e : Endpoint) (key : list Z) (generation : Z) : Endpoint * list SocketAddr :=
  let addresses := default [] (relay_history e !! (key, generation)) in
  let e' := with_relay_history e (delete (key, generation) (relay_history e)) in
  match relay e with
  | Some r =>
      if bool_decide (server_key r = key) && bool_decide (server_generation r = generation)
      then (with_relay e' None, if bool_decide (r_addr r ∈ addresses) then addresses else addresses ++ [r_addr r])
      else (e', base.filter (fun a => a <> r_addr r) addresses)
  | None => (e', addresses)
  end.

(** *** Pings *)

(** [add_pending_ping]. *)
Definition add_pending_ping (e : Endpoint) (tx_id : list Z) (addr : SocketAddr) (now : Z) (p : DiscoPingPurpose) (size : Z)
    (cli : option Z) : Endpoint :=
  with_pending_pings e
    (<[tx_id := {| sent_at := now; pp_addr := addr; purpose := p; pp_size := size; cli_request_id := cli |}]> (pending_pings e)).

(** [match_pong]. *)
Definition match_pong (e : Endpoint) (tx_id : list Z) : Endpoint * option PendingPing :=
  (with_pending_pings e (delete tx_id (pending_pings e)), pending_pings e !! tx_id).

(** [has_pending_ping]. *)
Definition has_pending_ping (e : Endpoint) (tx_id : list Z) : bool := bool_decide (is_Some (pending_pings e !! tx_id)).

(** [remove_cli_request_pings] and [expire_pending_pings]. *)
Definition remove_cli_request_pings (e : Endpoint) (request_id : Z) : Endpoint :=
  with_pending_pings e (base.filter (fun kv => cli_request_id kv.2 <> Some request_id) (pending_pings e)).
Definition expire_pending_pings (e : Endpoint) (now max_age : Z) : Endpoint :=
  with_pending_pings e (base.filter (fun kv => duration_since now (sent_at kv.2) < max_age) (pending_pings e)).

(** [should_send_call_me_maybe]. *)
Definition should_send_call_me_maybe (e : Endpoint) : Endpoint * bool :=
  if call_me_maybe_sent e then (e, false) else (with_call_me_maybe_sent e true, true).

(** [maybe_retrigger_call_me_maybe]. *)
Definition maybe_retrigger_call_me_maybe (e : Endpoint) (now : Z) : Endpoint * bool :=
  match best_addr e with
  | Some (_, until) =>
      if until <=? now then
        if call_me_maybe_sent e then (with_call_me_maybe_sent e false, true) else (e, false)
      else (e, false)
  | None => (e, false)
  end.

(** *** Activity *)

(** [session_active]. *)
Definition session_active (e : Endpoint) (now timeout : Z) : bool :=
  match last_send_ext e with Some t => duration_since now t <? timeout | None => false end.

(** [note_tx_activity_transition]. *)
Definition note_tx_activity_transition (e : Endpoint) (now timeout : Z) : Endpoint * bool :=
  (with_last_send_ext e (Some now), negb (session_active e now timeout)).

(** [inactivity_duration]. *)
Definition inactivity_duration (e : Endpoint) (now : Z) : Z :=
  match last_send_ext e, last_recv_udp e with
  | Some t1, Some t2 => duration_since now (Z.max t1 t2)
  | Some t, None | None, Some t => duration_since now t
  | None, None => (2 ^ 64 - 1) / 2 * SECOND
  end.

(** *** Lifetime probe *)

(** The order of byte arrays. *)
Fixpoint bytes_ltb (a b : list Z) : bool :=
  match a, b with
  | x :: a', y :: b' => (x <? y) || ((x =? y) && bytes_ltb a' b')
  | [], _ :: _ => true
  | _, [] => false
  end.

(** [maybe_probe_udp_lifetime]. *)
Definition maybe_probe_udp_lifetime (e : Endpoint) (now : Z) (our_disco : list Z) (cliff_slack : Z) : run (option Z) :=
  match probe_udp_lifetime e, best_addr e with
  | Some p, Some _ =>
      if is_zero (peer_disco_key e) then Ret None
      else if negb (bytes_ltb our_disco (peer_disco_key e)) then Ret None
      else if negb (can_start_cycle p now) then Ret None
      else d ← current_cliff_duration p; Ret (checked_sub d cliff_slack)
  | _, _ => Ret None
  end.

(** [start_udp_lifetime_cycle]. *)
Definition start_udp_lifetime_cycle (e : Endpoint) (now : Z) : Endpoint :=
  match probe_udp_lifetime e, best_addr e with
  | Some p, Some (addr, _) => with_probe_udp_lifetime e (Some (start_cycle p addr now))
  | _, _ => e
  end.

(** [set_udp_lifetime_tx_id]. *)
Definition set_udp_lifetime_tx_id (e : Endpoint) (tx_id : list Z) : Endpoint :=
  with_probe_udp_lifetime e ((fun p => set_last_tx_id p tx_id) <$> probe_udp_lifetime e).

(** [advance_udp_lifetime_cliff]. *)
Definition advance_udp_lifetime_cliff (e : Endpoint) : run (Endpoint * bool) :=
  match probe_udp_lifetime e with
  | Some p => r ← advance_cliff p; Ret (with_probe_udp_lifetime e (Some r.1), r.2)
  | None => Ret (e, false)
  end.

(** [complete_udp_lifetime_cycle]. *)
Definition complete_udp_lifetime_cycle (e : Endpoint) : Endpoint :=
  with_probe_udp_lifetime e (reset_cycle <$> probe_udp_lifetime e).

(** [udp_lifetime_cycle_active], [udp_lifetime_best_addr_matches] and
    [udp_lifetime_current_cliff_duration]. *)
Definition udp_lifetime_cycle_active (e : Endpoint) : bool :=
  match probe_udp_lifetime e with Some p => cycle_active p | None => false end.
Definition udp_lifetime_best_addr_matches (e : Endpoint) : bool :=
  match best_addr e, probe_udp_lifetime e with
  | Some (addr, _), Some p => bool_decide (probe_addr p = Some addr)
  | _, _ => false
  end.
Definition udp_lifetime_current_cliff_duration (e : Endpoint) : run (option Z) :=
  match probe_udp_lifetime e with Some p => d ← current_cliff_duration p; Ret (Some d) | None => Ret None end.

(** [is_last_udp_lifetime_ping_answered]. *)
Definition is_last_udp_lifetime_ping_answered (e : Endpoint) : bool :=
  match probe_udp_lifetime e with Some p => negb (has_pending_ping e (last_tx_id p)) | None => true end.

(** [set_probe_udp_lifetime]. *)
Definition set_probe_udp_lifetime (e : Endpoint) (enabled : bool) : Endpoint :=
  if enabled then
    match probe_udp_lifetime e with None => with_probe_udp_lifetime e (Some default_config) | Some _ => e end
  else with_probe_udp_lifetime e None.

(** *** Path MTU and link changes *)

(** [set_peer_mtu]. *)
Definition set_peer_mtu (e : Endpoint) (size : Z) : Endpoint :=
  if peer_mtu e <? size then with_peer_mtu e size else e.

(** [reset_for_link_change]. *)
Definition reset_for_link_change (e : Endpoint) : Endpoint :=
  let e := with_best_addr e None in
  let e := with_pending_pings e ∅ in
  let e := with_last_recv_derp_region e 0 in
  let e := with_last_recv_derp_at e None in
  let e := with_call_me_maybe_sent e false in
  let e := with_last_send_ext e None in
  let e := with_last_recv_udp e None in
  with_probe_udp_lifetime e (reset_cycle <$> probe_udp_lifetime e).
