(* ===== verification/MagicEndpointSpec.v ===== *)
(** * What an endpoint remembers

    The operations of [MagicEndpoint] as one type, and what holds after any
    sequence of them: nothing panics, the relay history of a server is bounded, a
    direct path is reported on the strength of a recent pong only, a pong answers
    one outstanding ping, and every relay address is kept or handed back. *)

From Stdlib Require Import Sorting.Sorted.
From S2P Require Import Prelude Bytes IpAddr Keys MagicEndpoint.

(** ** Sequences of operations *)

Inductive ep_op : Type :=
| OSetNodeAddr (a : option IpAddr)
| OUpdateDisco (k : list Z)
| OSetCandidates (l : list SocketAddr)
| OSetCandidatesTyped (l : list (SocketAddr * EndpointType))
| OLearnCandidate (a : SocketAddr)
| OStartDiscovery (now interval : Z)
| OSetHomeDerp (region : Z)
| OSetLastRecvDerp (region clock : Z)
| OExpireDerp (clock : Z)
| ORemoveDerp
| OConfirmDirect (a : SocketAddr) (now wall : Z)
| ONoteDirect (a : SocketAddr) (received : bool) (clock wall : Z)
| ONoteDerp (region : Z) (received : bool) (clock wall : Z)
| ONoteRelay (a : SocketAddr) (received : bool) (clock wall : Z)
| OClearBest
| OSetRelay (a : SocketAddr) (vni : Z) (key : list Z) (generation : Z)
| OClearRelay
| OClearRelayServer (key : list Z) (generation : Z)
| OAddPing (tx : list Z) (p : PendingPing)
| OMatchPong (tx : list Z)
| ORemoveCli (id : Z)
| OExpirePings (now max_age : Z)
| OSendCallMeMaybe
| OResetCallMeMaybe
| ORetrigger (now : Z)
| ONoteTx (now : Z)
| ONoteRecvUdp (now : Z)
| OStartProbe (now : Z)
| OSetProbeTx (tx : list Z)
| OAdvance
| OComplete
| OEnableProbe (b : bool)
| OSetMtu (size : Z)
| OResetMtu
| OLinkChange.

Inductive ep_out : Type :=
| OutNone
| OutBool (b : bool)
| OutKey (k : option (list Z))
| OutPing (p : option PendingPing)
| OutAddrs (l : list SocketAddr).

Definition quiet (e : Endpoint) : run (Endpoint * ep_out) := Ret (e, OutNone).
Definition flag (r : Endpoint * bool) : run (Endpoint * ep_out) := Ret (r.1, OutBool r.2).

Definition step (e : Endpoint) (op : ep_op) : run (Endpoint * ep_out) :=
  match op with
  | OSetNodeAddr a => quiet (with_node_addr e a)
  | OUpdateDisco k => let r := update_peer_disco_key e k in Ret (r.1, OutKey r.2)
  | OSetCandidates l => quiet (set_candidates e l)
  | OSetCandidatesTyped l => quiet (set_candidates_typed e l)
  | OLearnCandidate a => flag (learn_candidate e a)
  | OStartDiscovery now interval => flag (should_start_discovery e now interval)
  | OSetHomeDerp region => quiet (with_home_derp e region)
  | OSetLastRecvDerp region clock => quiet (set_last_recv_derp_region e region clock)
  | OExpireDerp clock => quiet (expire_derp_route_if_stale e clock)
  | ORemoveDerp => quiet (remove_derp_route e)
  | OConfirmDirect a now wall => quiet (confirm_direct e a now wall)
  | ONoteDirect a received clock wall => quiet (note_direct_transport e a received clock wall)
  | ONoteDerp region received clock wall => quiet (note_derp_transport e region received clock wall)
  | ONoteRelay a received clock wall => quiet (note_relay_transport e a received clock wall)
  | OClearBest => quiet (with_best_addr e None)
  | OSetRelay a vni key generation => r ← set_relay e a vni key generation; Ret (r.1, OutAddrs r.2)
  | OClearRelay => quiet (clear_relay e)
  | OClearRelayServer key generation => let r := clear_relay_server e key generation in Ret (r.1, OutAddrs r.2)
  | OAddPing tx p => quiet (add_pending_ping e tx (pp_addr p) (sent_at p) (purpose p) (pp_size p) (cli_request_id p))
  | OMatchPong tx => let r := match_pong e tx in Ret (r.1, OutPing r.2)
  | ORemoveCli id => quiet (remove_cli_request_pings e id)
  | OExpirePings now max_age => quiet (expire_pending_pings e now max_age)
  | OSendCallMeMaybe => flag (should_send_call_me_maybe e)
  | OResetCallMeMaybe => quiet (with_call_me_maybe_sent e false)
  | ORetrigger now => flag (maybe_retrigger_call_me_maybe e now)
  | ONoteTx now => quiet (with_last_send_ext e (Some now))
  | ONoteRecvUdp now => quiet (with_last_recv_udp e (Some now))
  | OStartProbe now => quiet (start_udp_lifetime_cycle e now)
  | OSetProbeTx tx => quiet (set_udp_lifetime_tx_id e tx)
  | OAdvance => r ← advance_udp_lifetime_cliff e; flag r
  | OComplete => quiet (complete_udp_lifetime_cycle e)
  | OEnableProbe b => quiet (set_probe_udp_lifetime e b)
  | OSetMtu size => quiet (set_peer_mtu e size)
  | OResetMtu => quiet (with_peer_mtu e 0)
  | OLinkChange => quiet (reset_for_link_change e)
  end.

(** The endpoint after a sequence of operations, and what they returned. *)
Fixpoint exec (e : Endpoint) (ops : list ep_op) : run (Endpoint * list ep_out) :=
  match ops with
  | [] => Ret (e, [])
  | op :: ops => r ← step e op; r' ← exec r.1 ops; Ret (r'.1, r.2 :: r'.2)
  end.

Lemma exec_snoc e ops op e2 outs :
  exec e (ops ++ [op]) = Ret (e2, outs) <->
  exists e1 outs1 o, exec e ops = Ret (e1, outs1) /\ step e1 op = Ret (e2, o) /\ outs = outs1 ++ [o].
Proof.
  revert e outs. induction ops as [|op' ops IH]; intros e outs; cbn [app exec].
  - destruct (step e op) as [[e1 o]|] eqn:E; cbn.
    + split; [intros [= <- <-]; by exists e, [], o|]. intros (e3 & outs3 & o3 & [= <- <-] & Hs & ->). rewrite E in Hs. by injection Hs as <- <-.
    + split; [done|]. intros (e3 & outs3 & o3 & [= <- <-] & Hs & _). congruence.
  - destruct (step e op') as [[e1 o']|]; cbn [mbind run_bind fst snd]; [|split; [done|by intros (? & ? & ? & ? & _)]].
    split.
    + destruct (exec e1 (ops ++ [op])) as [[e3 outs3]|] eqn:E; [|done]. intros [= <- <-].
      apply IH in E as (e4 & outs4 & o & -> & Hs & ->). by do 3 eexists.
    + intros (e4 & outs4 & o & E & Hs & ->). destruct (exec e1 ops) as [[e5 outs5]|] eqn:E5; [|done]. injection E as <- <-.
      assert (exec e1 (ops ++ [op]) = Ret (e2, outs5 ++ [o])) as -> by (apply IH; by do 3 eexists). done.
Qed.

(** ** The invariant *)

(** The configuration of a probe never changes and its index is in range. *)
Definition probe_ok (p : ProbeUDPLifetime) : Prop :=
  (cliffs p = cliffs default_config /\ cycle_can_start_every p = cycle_can_start_every default_config) /\
  (current_cliff p < length (cliffs p))%nat.

Record ep_inv (e : Endpoint) : Prop := {
  ei_history k h : relay_history e !! k = Some h -> NoDup h /\ (0 < length h <= MAX_RELAY_PATH_HISTORY_PER_SERVER)%nat;
  ei_relay r : relay e = Some r -> exists h, relay_history e !! (server_key r, server_generation r) = Some (h ++ [r_addr r]);
  ei_probe p : probe_udp_lifetime e = Some p -> probe_ok p }.

Lemma inv_new node disco home : ep_inv (new node disco home).
Proof. split; [done|done|]. intros p [= <-]. split; [done|]. cbn. lia. Qed.

Lemma inv_same e e' :
  ep_inv e -> relay_history e' = relay_history e -> relay e' = relay e -> probe_udp_lifetime e' = probe_udp_lifetime e -> ep_inv e'.
Proof. intros [H R P] E1 E2 E3. split; rewrite ?E1, ?E2, ?E3; done. Qed.

Lemma remove_address_spec addr h :
  NoDup h -> NoDup (remove_address addr h) /\ (addr ∉ remove_address addr h) /\
    (length (remove_address addr h) <= length h)%nat /\ (forall a, a ∈ h -> a = addr \/ a ∈ remove_address addr h).
Proof.
  intros Hn. unfold remove_address. destruct (list_find _ h) as [[i x]|] eqn:E.
  - apply list_find_Some in E as (Hi & -> & _). pose proof (delete_Permutation h i addr Hi) as Hp.
    rewrite Hp in Hn. apply list.NoDup_cons in Hn as [Hni Hn]. split_and!; [done|done| |].
    + rewrite length_delete by (by exists addr). lia.
    + intros a Ha. rewrite Hp in Ha. by apply elem_of_cons in Ha.
  - apply list_find_None in E. rewrite list.Forall_forall in E. split_and!; [done| |done|auto]. intros H. by apply (E addr H).
Qed.

(** Eviction drops the oldest addresses and keeps the one just added. *)
Lemma evict_spec addr h :
  addr ∉ h -> let k := (length h + 1 - MAX_RELAY_PATH_HISTORY_PER_SERVER)%nat in
  evict_oldest addr (h ++ [addr]) = Ret (take k h, drop k h ++ [addr]).
Proof.
  unfold MAX_RELAY_PATH_HISTORY_PER_SERVER. induction h as [|x h IH]; intros Hn; [done|]. cbv zeta in *. cbn [app evict_oldest].
  apply not_elem_of_cons in Hn as [Hx Hn]. cbn [length]. rewrite length_app. cbn [length].
  unfold MAX_RELAY_PATH_HISTORY_PER_SERVER. destruct (Nat.ltb_spec 8 (S (length h + 1))) as [Hl|Hl].
  - rewrite bool_decide_eq_false_2 by congruence. cbn [negb assert_run]. rewrite run_bind_Ret, IH, run_bind_Ret by done. cbn [fst snd].
    replace (S (length h) + 1 - 8)%nat with (S (length h + 1 - 8)) by lia. done.
  - by replace (S (length h) + 1 - 8)%nat with 0%nat by lia.
Qed.

(** What [set_relay] does to the history of the server. *)
Lemma set_relay_spec e addr vni key gen :
  ep_inv e ->
  let before := default [] (relay_history e !! (key, gen)) in
  exists h evicted, set_relay e addr vni key gen =
    Ret (with_relay (with_relay_history e (<[(key, gen) := h ++ [addr]]> (relay_history e)))
           (Some {| r_addr := addr; r_vni := vni; server_key := key; server_generation := gen |}), evicted) /\
    NoDup (h ++ [addr]) /\ (length (h ++ [addr]) <= MAX_RELAY_PATH_HISTORY_PER_SERVER)%nat /\
    forall a, a ∈ before -> a ∈ h ++ [addr] \/ a ∈ evicted.
Proof.
  intros Hi before. assert (NoDup before) as Hb.
  { unfold before. destruct (relay_history e !! (key, gen)) as [h|] eqn:E; [|constructor]. by apply (ei_history _ Hi) in E as [? _]. }
  destruct (remove_address_spec addr before Hb) as (N1 & N2 & L1 & M1). set (r := remove_address addr before) in *.
  set (k := (length r + 1 - MAX_RELAY_PATH_HISTORY_PER_SERVER)%nat). exists (drop k r), (take k r).
  unfold set_relay. fold before r. rewrite (evict_spec addr r N2), run_bind_Ret. fold k. split; [done|].
  split; [|split].
  - apply list.NoDup_app. split_and!; [by eapply sublist_NoDup; [|apply sublist_drop]|..|apply NoDup_singleton].
    intros a Ha ->%list_elem_of_singleton. apply N2. rewrite <- (take_drop k r). apply elem_of_app. by right.
  - rewrite length_app, length_drop. cbn. unfold k, MAX_RELAY_PATH_HISTORY_PER_SERVER. lia.
  - intros a Ha. destruct (M1 a Ha) as [->|Hr]; [left; apply elem_of_app; right; by left|].
    rewrite <- (take_drop k r) in Hr. apply elem_of_app in Hr as [Hr|Hr]; [by right|]. left. apply elem_of_app. by left.
Qed.

Lemma inv_set_relay e addr vni key gen :
  ep_inv e -> exists e' evicted, set_relay e addr vni key gen = Ret (e', evicted) /\ ep_inv e'.
Proof.
  intros Hi. destruct (set_relay_spec e addr vni key gen Hi) as (h & evicted & -> & N & L & _). do 2 eexists. split; [done|].
  split; cbn [relay_history relay probe_udp_lifetime with_relay with_relay_history].
  - intros k h'. destruct (decide (k = (key, gen))) as [->|Hk].
    + rewrite lookup_insert_eq. intros [= <-]. split; [done|]. rewrite length_app in *. cbn in *. lia.
    + rewrite lookup_insert_ne by done. apply (ei_history _ Hi).
  - intros r [= <-]. exists h. cbn. by rewrite lookup_insert_eq.
  - apply (ei_probe _ Hi).
Qed.

Lemma inv_clear_relay_server e key gen : ep_inv e -> ep_inv (clear_relay_server e key gen).1.
Proof.
  intros [H R P]. assert (forall k h, delete (key, gen) (relay_history e) !! k = Some h -> NoDup h /\ (0 < length h <= MAX_RELAY_PATH_HISTORY_PER_SERVER)%nat) as Hd.
  { intros k h Hk. apply lookup_delete_Some in Hk as [_ Hk]. by eapply H. }
  unfold clear_relay_server. destruct (relay e) as [r|] eqn:Er; [|by split; [|cbn; rewrite Er|]].
  destruct (bool_decide _ && _) eqn:Eb; [by split|]. split; [done| |done]. cbn. rewrite Er. intros r' [= <-].
  destruct (R r eq_refl) as [h Hh]. exists h. rewrite lookup_delete_ne; [done|]. intros [= -> ->].
  rewrite !bool_decide_eq_true_2 in Eb by done. done.
Qed.

(** The probe after an operation on it. *)
Lemma inv_probe e o :
  ep_inv e -> (forall p, o = Some p -> probe_ok p) ->
  ep_inv (with_probe_udp_lifetime e o).
Proof. intros [H R P] Ho. by split. Qed.

Lemma inv_reset_cycle e p :
  ep_inv e -> reset_cycle <$> probe_udp_lifetime e = Some p -> probe_ok p.
Proof.
  intros Hi Hp. destruct (probe_udp_lifetime e) as [q|] eqn:E; [|done]. injection Hp as <-.
  destruct (ei_probe _ Hi q E) as [Hc Hl]. split; [done|]. cbn. lia.
Qed.

Lemma inv_advance e : ep_inv e -> exists e' b, advance_udp_lifetime_cliff e = Ret (e', b) /\ ep_inv e'.
Proof.
  intros Hi. unfold advance_udp_lifetime_cliff. destruct (probe_udp_lifetime e) as [p|] eqn:E; [|by do 2 eexists].
  destruct (ei_probe _ Hi p E) as [Hc Hl]. unfold advance_cliff, sub_usize. rewrite (proj2 (Nat.leb_le _ _)), run_bind_Ret by lia.
  destruct (Nat.leb_spec (length (cliffs p) - 1) (current_cliff p)); rewrite run_bind_Ret; do 2 eexists; (split; [done|]);
    apply inv_probe; try done; intros q [= <-]; (split; [done|cbn; lia]).
Qed.

(** The branches of the operations that only test and set fields. *)
Ltac ep_cases :=
  unfold flag, quiet, update_peer_disco_key, learn_candidate, should_start_discovery, expire_derp_route_if_stale,
    note_direct_transport, note_derp_transport, note_relay_transport, record_transport_at, should_send_call_me_maybe,
    maybe_retrigger_call_me_maybe, set_peer_mtu in *;
  repeat case_match.

Lemma step_inv e op : ep_inv e -> exists e' o, step e op = Ret (e', o) /\ ep_inv e'.
Proof.
  intros Hi. destruct op; cbn [step];
    try (do 2 eexists; split; [done|]; by eapply inv_same);
    try (ep_cases; (do 2 eexists; split; [done|]; by eapply inv_same)).
  - destruct (inv_set_relay e a vni key generation Hi) as (e' & ev & -> & Hi'). by do 2 eexists.
  - do 2 eexists. split; [done|]. destruct Hi. by split.
  - do 2 eexists. split; [done|]. by apply inv_clear_relay_server.
  - do 2 eexists. split; [done|]. unfold start_udp_lifetime_cycle. destruct (probe_udp_lifetime e) as [p|] eqn:E; [|done].
    destruct (best_addr e) as [[a u]|]; [|done]. apply inv_probe; [done|]. intros q [= <-]. destruct (ei_probe _ Hi p E). split; [done|cbn; lia].
  - do 2 eexists. split; [done|]. apply inv_probe; [done|]. intros q Hq. destruct (probe_udp_lifetime e) as [p|] eqn:E; [|done].
    injection Hq as <-. exact (ei_probe _ Hi p E).
  - destruct (inv_advance e Hi) as (e' & b & -> & Hi'). by do 2 eexists.
  - do 2 eexists. split; [done|]. apply inv_probe; [done|]. intros p. by apply inv_reset_cycle.
  - do 2 eexists. split; [done|]. unfold set_probe_udp_lifetime. destruct b; [destruct (probe_udp_lifetime e) eqn:E; [done|]|];
      (apply inv_probe; [done|]); [|done]. intros p [= <-]. split; [done|]. cbn. lia.
  - do 2 eexists. split; [done|]. unfold reset_for_link_change. cbv zeta. cbn [probe_udp_lifetime with_last_recv_udp with_last_send_ext
      with_call_me_maybe_sent with_last_recv_derp_at with_last_recv_derp_region with_pending_pings with_best_addr].
    apply inv_probe; [by eapply inv_same|]. intros p. by apply inv_reset_cycle.
Qed.

Lemma exec_inv ops e : ep_inv e -> exists e' outs, exec e ops = Ret (e', outs) /\ ep_inv e'.
Proof.
  revert e. induction ops as [|op ops IH]; intros e Hi; cbn [exec]; [by do 2 eexists|].
  destruct (step_inv e op Hi) as (e1 & o & -> & H1). rewrite run_bind_Ret. destruct (IH e1 H1) as (e2 & outs & E & H2).
  cbn [fst snd]. rewrite E, run_bind_Ret. by do 2 eexists.
Qed.

Lemma exec_new_inv node disco home ops e outs : exec (new node disco home) ops = Ret (e, outs) -> ep_inv e.
Proof.
  intros E. destruct (exec_inv ops _ (inv_new node disco home)) as (e' & outs' & E' & Hi). rewrite E in E'. by injection E' as -> _.
Qed.

(** ** Which operation wrote a field *)

(** A field whose value after an operation is what the operation writes, if it
    writes it, was written by the last operation that does. *)
Lemma last_write {A} (writes : ep_op -> option A) (get : Endpoint -> A) :
  (forall e op e' o, step e op = Ret (e', o) -> get e' = default (get e) (writes op)) ->
  forall ops e0 e outs, exec e0 ops = Ret (e, outs) ->
  get e = get e0 \/
  exists pre op post, ops = pre ++ op :: post /\ writes op = Some (get e) /\ Forall (fun op => writes op = None) post.
Proof.
  intros Hstep ops e0. induction ops as [|op ops IH] using rev_ind; intros e outs E; [injection E as <- <-; by left|].
  apply exec_snoc in E as (e1 & outs1 & o & E1 & Hs & ->). pose proof (Hstep _ _ _ _ Hs) as Hg.
  destruct (writes op) as [a|] eqn:Ew; cbn in Hg.
  - right. exists ops, op, []. split; [done|]. split; [by rewrite Ew, Hg|constructor].
  - destruct (IH e1 outs1 E1) as [He|(pre & op' & post & -> & Hw & Hp)]; [left; congruence|right]. exists pre, op', (post ++ [op]).
    split; [by rewrite <- app_assoc|]. split; [by rewrite Hg|]. apply list.Forall_app. split; [done|]. by constructor.
Qed.

(** The direct address an operation sets. *)
Definition trust_write (op : ep_op) : option (option (SocketAddr * Z)) :=
  match op with
  | OConfirmDirect a now _ => Some (Some (a, now + TRUST_BEST_ADDR_DURATION))
  | OClearBest | OLinkChange => Some None
  | _ => None
  end.

(** The packet an operation reports as received from the peer. *)
Definition reception (op : ep_op) : option TransportObservation :=
  match op with
  | OConfirmDirect a now wall | ONoteDirect a true now wall =>
      Some {| ob_class := PDirect; ob_addr := Some a; ob_derp_region := None; ob_monotonic_at := now; ob_wall_at := wall |}
  | ONoteDerp region true now wall =>
      Some {| ob_class := PDerp; ob_addr := None; ob_derp_region := if 0 <? region then Some region else None;
              ob_monotonic_at := now; ob_wall_at := wall |}
  | ONoteRelay a true now wall =>
      Some {| ob_class := PRelay; ob_addr := Some a; ob_derp_region := None; ob_monotonic_at := now; ob_wall_at := wall |}
  | _ => None
  end.

(** Runs the operation of a step and looks at its branches. *)
Ltac run_op op :=
  destruct op; cbn [step]; intros Hop;
  try (apply run_bind_inv in Hop as ([? ?] & Hop' & Hop));
  unfold quiet, flag in Hop; injection Hop as <- <-.

Lemma set_relay_frame e a vni key gen e' l :
  set_relay e a vni key gen = Ret (e', l) ->
  best_addr e' = best_addr e /\ last_transport e' = last_transport e /\ pending_pings e' = pending_pings e.
Proof. unfold set_relay. intros H. apply run_bind_inv in H as (r & _ & [= <- <-]). done. Qed.

Lemma advance_frame e e' b :
  advance_udp_lifetime_cliff e = Ret (e', b) ->
  best_addr e' = best_addr e /\ last_transport e' = last_transport e /\ pending_pings e' = pending_pings e /\
  relay_history e' = relay_history e.
Proof.
  unfold advance_udp_lifetime_cliff. destruct (probe_udp_lifetime e) as [p|]; [|by intros [= <- <-]].
  intros H. apply run_bind_inv in H as (r & _ & [= <- <-]). done.
Qed.

Lemma clear_relay_server_frame e key gen :
  best_addr (clear_relay_server e key gen).1 = best_addr e /\ last_transport (clear_relay_server e key gen).1 = last_transport e /\
  pending_pings (clear_relay_server e key gen).1 = pending_pings e.
Proof. unfold clear_relay_server. by repeat case_match. Qed.

Ltac frame_cases :=
  unfold start_udp_lifetime_cycle, set_probe_udp_lifetime in *; ep_cases; cbn in *;
  try match goal with
      | H : set_relay _ _ _ _ _ = _ |- _ => apply set_relay_frame in H as (? & ? & ?)
      | H : advance_udp_lifetime_cliff _ = _ |- _ => apply advance_frame in H as (? & ? & ? & ?)
      end; try done; try apply clear_relay_server_frame.

Lemma step_trust e op e' o : step e op = Ret (e', o) -> best_addr e' = default (best_addr e) (trust_write op).
Proof. run_op op; frame_cases. Qed.

Lemma step_reception e op e' o :
  step e op = Ret (e', o) -> last_transport e' = default (last_transport e) (Some <$> reception op).
Proof. run_op op; try match goal with b : bool |- _ => destruct b end; frame_cases; by case_match. Qed.

(** ** Claims on the paths of a peer *)

(** From a new endpoint every sequence of operations returns.  The history of
    a relay server then has between 1 and [MAX_RELAY_PATH_HISTORY_PER_SERVER]
    addresses, without repetition; the current relay address is the newest of its
    server; the lifetime probe is at one of its cliffs. *)
Theorem endpoint_bounds (node disco : list Z) (home : Z) (ops : list ep_op) :
  exists e outs, exec (new node disco home) ops = Ret (e, outs) /\
    (forall k h, relay_history e !! k = Some h -> NoDup h /\ (1 <= length h <= MAX_RELAY_PATH_HISTORY_PER_SERVER)%nat) /\
    (forall r, relay e = Some r -> exists h, relay_history e !! (server_key r, server_generation r) = Some (h ++ [r_addr r])) /\
    returns (udp_lifetime_current_cliff_duration e).
Proof.
  destruct (exec_inv ops _ (inv_new node disco home)) as (e & outs & E & [H R P]). exists e, outs. split_and!; [done|done|done|].
  unfold udp_lifetime_current_cliff_duration, current_cliff_duration. destruct (probe_udp_lifetime e) as [p|] eqn:Ep; [|apply returns_Ret].
  destruct (P p eq_refl) as [_ Hl]. destruct (lookup_lt_is_Some_2 _ _ Hl) as [d Hd]. rewrite (idx_lookup _ _ _ Hd). apply returns_Ret.
Qed.

Lemma direct_trusted e now a :
  trusted_direct_addr e now = Some a -> exists u, best_addr e = Some (a, u) /\ now < u.
Proof.
  unfold trusted_direct_addr. destruct (best_addr e) as [[b u]|]; [|done]. destruct (Z.ltb_spec now u); [|done].
  intros [= <-]. by exists u.
Qed.

Section trace.
Context (node disco : list Z) (home : Z) (ops : list ep_op) (e : Endpoint) (outs : list ep_out).
Hypothesis Hexec : exec (new node disco home) ops = Ret (e, outs).

(** A trusted address comes from the last pong. *)
Lemma best_confirmed a u :
  best_addr e = Some (a, u) ->
  exists pre post t wall, ops = pre ++ OConfirmDirect a t wall :: post /\ u = t + TRUST_BEST_ADDR_DURATION /\
    Forall (fun op => trust_write op = None) post.
Proof.
  intros Hb. destruct (last_write trust_write best_addr step_trust ops _ _ _ Hexec) as [E|(pre & op & post & -> & Hw & Hp)].
  - by rewrite Hb in E.
  - rewrite Hb in Hw. destruct op; try done. injection Hw as <- <-. by exists pre, post, now, wall.
Qed.

(** An observation comes from the last packet received. *)
Lemma observation_received ob :
  last_transport e = Some ob ->
  exists pre op post, ops = pre ++ op :: post /\ reception op = Some ob /\ Forall (fun op => reception op = None) post.
Proof.
  intros Hb. destruct (last_write (fun op => Some <$> reception op) last_transport step_reception ops _ _ _ Hexec) as [E|(pre & op & post & -> & Hw & Hp)].
  - by rewrite Hb in E.
  - exists pre, op, post. split; [done|]. rewrite Hb in Hw. split; [by destruct (reception op); simplify_eq/=|].
    eapply Forall_impl; [|exact Hp]. intros op'. cbv beta. by destruct (reception op').
Qed.

(** C24. A path is reported on evidence only.  A direct best path to an address
    means the last pong confirmed that address less than
    [TRUST_BEST_ADDR_DURATION] ago, with no reset since.  Telemetry that names a
    path means the last packet received from the peer came over that path less
    than [PATH_ACTIVITY_TIMEOUT] ago, and for a direct path also that some pong
    is still trusted; writes to a socket are not evidence. *)
Theorem endpoint_trust (now clock : Z) :
  (forall a until, best_path e now clock = BDirect a until ->
    exists pre post t wall, ops = pre ++ OConfirmDirect a t wall :: post /\ Forall (fun op => trust_write op = None) post /\
      until = t + TRUST_BEST_ADDR_DURATION /\ now < until) /\
  (let t := path_telemetry_at e now in
   t_class t <> PNone ->
    (exists pre op post ob, ops = pre ++ op :: post /\ Forall (fun op => reception op = None) post /\
      reception op = Some ob /\ ob_class ob = t_class t /\ ob_addr ob = t_addr t /\ ob_derp_region ob = t_derp_region t /\
      0 <= now - ob_monotonic_at ob < PATH_ACTIVITY_TIMEOUT) /\
    (t_class t = PDirect -> exists a t wall, OConfirmDirect a t wall ∈ ops /\ now < t + TRUST_BEST_ADDR_DURATION)).
Proof.
  split.
  - unfold best_path. destruct (best_addr e) as [[a u]|] eqn:Eb; [|by repeat case_match].
    destruct (Z.ltb_spec now u) as [Hlt|]; [|by repeat case_match]. intros a' until [= <- <-].
    destruct (best_confirmed a u Eb) as (pre & post & t & wall & -> & Hu & Hp). by exists pre, post, t, wall.
  - cbv zeta. unfold path_telemetry_at. destruct (last_transport e) as [ob|] eqn:El; [|done].
    destruct (checked_duration_since now (ob_monotonic_at ob)) as [age|] eqn:Ea; cbn [andb t_class t_addr t_derp_region]; [|done].
    unfold checked_duration_since in Ea. destruct (Z.leb_spec (ob_monotonic_at ob) now); [|done]. injection Ea as <-.
    destruct (Z.ltb_spec (now - ob_monotonic_at ob) PATH_ACTIVITY_TIMEOUT); cbn [andb t_class t_addr t_derp_region]; [|done].
    destruct (negb _ || _) eqn:Ed; cbn [t_class t_addr t_derp_region]; [|done]. intros _. split.
    + destruct (observation_received ob El) as (pre & op & post & -> & Hr & Hp). exists pre, op, post, ob. split_and!; done || lia.
    + intros Ec. rewrite bool_decide_eq_true_2 in Ed by done. cbn [negb orb] in Ed.
      destruct (trusted_direct_addr e now) as [a|] eqn:Et; [|done]. apply direct_trusted in Et as (u & Eb & Hlt).
      destruct (best_confirmed a u Eb) as (pre & post & t & wall & -> & -> & _). exists a, t, wall. split; [|done].
      apply elem_of_app. right. left.
Qed.
End trace.

(** *** Pongs *)

(** An outstanding ping [p] stays outstanding under an operation. *)
Definition keeps_ping (tx : list Z) (p : PendingPing) (op : ep_op) : bool :=
  match op with
  | OAddPing tx' _ | OMatchPong tx' => negb (bool_decide (tx = tx'))
  | OLinkChange => false
  | ORemoveCli id => negb (bool_decide (cli_request_id p = Some id))
  | OExpirePings now max_age => duration_since now (sent_at p) <? max_age
  | _ => true
  end.

(** The operations on the table of pings. *)
Definition ping_op (op : ep_op) : bool :=
  match op with OAddPing _ _ | OMatchPong _ | ORemoveCli _ | OExpirePings _ _ | OLinkChange => true | _ => false end.

Lemma step_pings_frame e op e' o : step e op = Ret (e', o) -> ping_op op = false -> pending_pings e' = pending_pings e.
Proof. run_op op; intros Hn; try done; frame_cases. Qed.

Lemma step_pings e op e' o tx p :
  step e op = Ret (e', o) ->
  pending_pings e' !! tx = Some p <-> op = OAddPing tx p \/ pending_pings e !! tx = Some p /\ keeps_ping tx p op = true.
Proof.
  intros Hs. destruct (ping_op op) eqn:Eo.
  2: { rewrite (step_pings_frame _ _ _ _ Hs Eo). destruct op; try done; cbn [keeps_ping]; (split; [auto|by intros [|[? _]]]). }
  destruct op as [| | | | | | | | | | | | | | | | | |tx' q|tx'|id|now age| | | | | | | | | | | | |]; try done; cbn [step] in Hs; unfold quiet in Hs; injection Hs as <- <-;
    cbn [pending_pings add_pending_ping match_pong fst with_pending_pings keeps_ping remove_cli_request_pings expire_pending_pings].
  - replace {| sent_at := _ |} with q by (by destruct q). destruct (decide (tx = tx')) as [->|Hne].
    + rewrite lookup_insert_eq, bool_decide_eq_true_2 by done. split; [intros [= ->]; by left|]. by intros [[= ->]|[_ ?]].
    + rewrite lookup_insert_ne, bool_decide_eq_false_2 by done. split; [by right|]. by intros [[= <- _]|[? _]].
  - destruct (decide (tx = tx')) as [->|Hne].
    + rewrite lookup_delete_eq, bool_decide_eq_true_2 by done. by split; [|intros [|[_ ?]]].
    + rewrite lookup_delete_ne, bool_decide_eq_false_2 by done. split; [by right|by intros [|[? _]]].
  - rewrite map_lookup_filter_Some. cbn [snd]. rewrite negb_true_iff, bool_decide_eq_false. split; [by right|by intros [|?]].
  - rewrite map_lookup_filter_Some. cbn [snd]. rewrite Z.ltb_lt. split; [by right|by intros [|?]].
  - unfold reset_for_link_change. cbn. rewrite lookup_empty. by split; [|intros [|[_ ?]]].
Qed.

(** A pong is matched to the ping with its transaction id exactly if that
    ping is outstanding: it was sent, and since then it was not answered, not
    replaced, not expired, not cancelled with its request and the link did not
    change.  A second pong with the same id matches nothing. *)
Theorem pong_matches (node disco : list Z) (home : Z) (ops : list ep_op) (e : Endpoint) (outs : list ep_out) (tx : list Z) :
  exec (new node disco home) ops = Ret (e, outs) ->
  (forall p, (match_pong e tx).2 = Some p <->
    exists pre post, ops = pre ++ OAddPing tx p :: post /\ Forall (fun op => keeps_ping tx p op = true) post) /\
  (match_pong (match_pong e tx).1 tx).2 = None.
Proof.
  intros E. split; [|cbn; apply lookup_delete_eq]. intros p. cbn [match_pong snd]. revert e outs E.
  induction ops as [|op ops IH] using rev_ind; intros e outs E.
  - injection E as <- <-. split; [done|]. intros (pre & post & Hp & _). by destruct pre.
  - apply exec_snoc in E as (e1 & outs1 & o & E1 & Hs & ->). rewrite (step_pings _ _ _ _ tx p Hs), (IH _ _ E1). split.
    + intros [->|[(pre & post & -> & Hf) Hk]]; [exists ops, []; by split|]. exists pre, (post ++ [op]).
      split; [by rewrite <- app_assoc|]. apply list.Forall_app. split; [done|by constructor].
    + intros (pre & post & Hp & Hf). destruct post as [|x post _] using rev_ind.
      * apply app_inj_tail in Hp as [_ ->]. by left.
      * rewrite app_comm_cons, app_assoc in Hp. apply app_inj_tail in Hp as [-> <-]. apply list.Forall_app in Hf as [Hf Hx].
        right. split; [by exists pre, post|]. by apply Forall_inv in Hx.
Qed.

(** *** Relay addresses *)

(** An address the endpoint still knows a server for. *)
Definition tracked (e : Endpoint) (a : SocketAddr) : Prop := exists k h, relay_history e !! k = Some h /\ a ∈ h.

(** What an operation hands back for the caller to forget. *)
Definition handed_back (op : ep_op) (o : ep_out) (a : SocketAddr) : Prop :=
  op = OClearRelay \/ exists l, o = OutAddrs l /\ a ∈ l.

Lemma clear_server_tracked e key gen a :
  ep_inv e -> tracked e a -> tracked (clear_relay_server e key gen).1 a \/ a ∈ (clear_relay_server e key gen).2.
Proof.
  intros Hi (k & h & Hk & Ha).
  assert (relay_history (clear_relay_server e key gen).1 = delete (key, gen) (relay_history e)) as Eh
    by (unfold clear_relay_server; by repeat case_match).
  destruct (decide (k = (key, gen))) as [->|Hne].
  2: { left. exists k, h. split; [|done]. by rewrite Eh, lookup_delete_ne. }
  unfold tracked. rewrite Eh. unfold clear_relay_server. rewrite Hk. cbn [from_option]. unfold id.
  destruct (relay e) as [r|] eqn:Er; [|by right].
  destruct (bool_decide (server_key r = key) && bool_decide (server_generation r = gen)) eqn:Eb; cbn [snd].
  - right. destruct (bool_decide (r_addr r ∈ h)); [done|]. apply elem_of_app. by left.
  - destruct (decide (a = r_addr r)) as [->|Hr]; [left|right; by apply list_elem_of_filter].
    destruct (ei_relay _ Hi r Er) as [h' Hh]. exists (server_key r, server_generation r), (h' ++ [r_addr r]). split.
    + rewrite lookup_delete_ne; [done|]. intros [= -> ->]. by rewrite !bool_decide_eq_true_2 in Eb by done.
    + apply elem_of_app. right. by left.
Qed.

Lemma history_frame e op e' o :
  step e op = Ret (e', o) ->
  match op with OSetRelay _ _ _ _ | OClearRelay | OClearRelayServer _ _ => True | _ => relay_history e' = relay_history e end.
Proof. run_op op; frame_cases. Qed.

(** No operation loses track of an address without handing it back. *)
Lemma step_tracked e op e' o a :
  ep_inv e -> step e op = Ret (e', o) -> tracked e a -> tracked e' a \/ handed_back op o a.
Proof.
  intros Hi Hs Ht. pose proof (history_frame _ _ _ _ Hs) as Hf.
  destruct op as [| | | | | | | | | | | | | | |b vni key gen| |key gen| | | | | | | | | | | | | | | | |];
    try (left; destruct Ht as (ident & h & Hk & Ha); exists ident, h; by rewrite Hf).
  - cbn [step] in Hs. destruct (set_relay_spec e b vni key gen Hi) as (h & ev & E & _ & _ & Hm). rewrite E, run_bind_Ret in Hs.
    injection Hs as <- <-. destruct Ht as (k & h' & Hk & Ha). unfold tracked. cbn [relay_history with_relay with_relay_history fst snd].
    destruct (decide (k = (key, gen))) as [->|Hne]; [|left; exists k, h'; by rewrite lookup_insert_ne].
    rewrite Hk in Hm. destruct (Hm a Ha) as [Hin|Hin]; [left; exists (key, gen), (h ++ [b]); by rewrite lookup_insert_eq|].
    right. right. by eexists.
  - right. by left.
  - cbn [step] in Hs. injection Hs as <- <-. destruct (clear_server_tracked e key gen a Hi Ht) as [H|H]; [by left|]. right. right. by eexists.
Qed.

Lemma exec_length ops : forall e e' outs, exec e ops = Ret (e', outs) -> length outs = length ops.
Proof.
  induction ops as [|op ops IH]; intros e e' outs E; [by injection E as <- <-|]. cbn [exec] in E.
  apply run_bind_inv in E as ([e1 o] & _ & E). apply run_bind_inv in E as ([e2 outs2] & E2 & [= <- <-]). cbn in *. f_equal. by eapply IH.
Qed.

(** No relay address is forgotten: an address once set for a server is still
    in the history of some server, or a later operation handed it back to the
    caller (evicted, or cleared with its server), or the relay state was cleared
    as a whole. *)
Theorem relay_addresses_kept (node disco : list Z) (home : Z) (ops : list ep_op) (e : Endpoint) (outs : list ep_out)
    (i : nat) (a : SocketAddr) (vni : Z) (key : list Z) (gen : Z) :
  exec (new node disco home) ops = Ret (e, outs) -> ops !! i = Some (OSetRelay a vni key gen) ->
  tracked e a \/ exists j op o, (i < j)%nat /\ ops !! j = Some op /\ outs !! j = Some o /\ handed_back op o a.
Proof.
  revert e outs. induction ops as [|op ops IH] using rev_ind; intros e outs E Hi; [done|].
  apply exec_snoc in E as (e1 & outs1 & o & E1 & Hs & ->). pose proof (exec_new_inv _ _ _ _ _ _ E1) as Hinv.
  pose proof (exec_length _ _ _ _ E1) as Hl. apply lookup_app_Some in Hi as [Hi|[Hge Hi]].
  - destruct (IH _ _ E1 Hi) as [Ht|(j & op' & o' & Hij & Hj & Ho & Hb)].
    + destruct (step_tracked _ _ _ _ a Hinv Hs Ht) as [|Hb]; [by left|right]. apply lookup_lt_Some in Hi.
      exists (length ops), op, o. split_and!; [done|by apply list_lookup_middle|rewrite <- Hl; by apply list_lookup_middle|done].
    + right. exists j, op', o'. split_and!; [done|by apply lookup_app_l_Some|by apply lookup_app_l_Some|done].
  - left. apply list_lookup_singleton_Some in Hi as [_ ->]. cbn [step] in Hs.
    destruct (set_relay_spec e1 a vni key gen Hinv) as (h & ev & Es & _). rewrite Es, run_bind_Ret in Hs. injection Hs as <- <-.
    exists (key, gen), (h ++ [a]). cbn. rewrite lookup_insert_eq. split; [done|]. apply elem_of_app. right. by left.
Qed.

(** *** The lifetime probe *)

(** A probe cycle ends.  Started on an endpoint with a direct address, it
    waits at the cliffs of 10, 30 and 60 seconds in turn; the third pong ends the
    cycle, and no other starts within a day. *)
Theorem probe_cycle_ends (node disco : list Z) (home : Z) (ops : list ep_op) (e : Endpoint) (outs : list ep_out) (now : Z) :
  exec (new node disco home) ops = Ret (e, outs) -> is_Some (probe_udp_lifetime e) -> is_Some (best_addr e) ->
  let e0 := start_udp_lifetime_cycle e now in
  udp_lifetime_cycle_active e0 = true /\ udp_lifetime_best_addr_matches e0 = true /\
  exists e1 e2 e3,
    udp_lifetime_current_cliff_duration e0 = Ret (Some (10 * SECOND)) /\ advance_udp_lifetime_cliff e0 = Ret (e1, true) /\
    udp_lifetime_current_cliff_duration e1 = Ret (Some (30 * SECOND)) /\ advance_udp_lifetime_cliff e1 = Ret (e2, true) /\
    udp_lifetime_current_cliff_duration e2 = Ret (Some (60 * SECOND)) /\ advance_udp_lifetime_cliff e2 = Ret (e3, false) /\
    udp_lifetime_cycle_active e3 = false /\
    forall later our slack, later - now < 86400 * SECOND -> maybe_probe_udp_lifetime e3 later our slack = Ret None.
Proof.
  intros E [p Ep] [[a u] Eb]. destruct (ei_probe _ (exec_new_inv _ _ _ _ _ _ E) p Ep) as [[Hc He] _]. cbv zeta.
  assert (start_udp_lifetime_cycle e now = with_probe_udp_lifetime e (Some (start_cycle p a now))) as ->
    by (unfold start_udp_lifetime_cycle; by rewrite Ep, Eb).
  split; [done|]. split; [unfold udp_lifetime_best_addr_matches; cbn; rewrite Eb; by apply bool_decide_eq_true_2|].
  unfold advance_udp_lifetime_cliff, udp_lifetime_current_cliff_duration, current_cliff_duration, advance_cliff.
  cbn [probe_udp_lifetime with_probe_udp_lifetime start_cycle cliffs current_cliff]. rewrite Hc.
  do 3 eexists. do 7 (split; [reflexivity|]). intros later our slack Hl.
  unfold maybe_probe_udp_lifetime, can_start_cycle. cbn -[is_zero bytes_ltb Z.leb duration_since]. rewrite Eb, He.
  destruct (is_zero _); [done|]. destruct (negb (bytes_ltb _ _)); [done|]. rewrite (proj2 (Z.leb_gt _ _)); [done|].
  cbn. unfold duration_since, SECOND in *. lia.
Qed.

(** *** Candidates *)

Lemma insert_ranked_perm c l : insert_ranked c l ≡ₚ c :: l.
Proof. induction l as [|d l IH]; cbn; [done|]. destruct (_ <=? _); [done|]. rewrite IH. apply perm_swap. Qed.

Definition outranks (c d : SocketAddr * EndpointType) : Prop := rank d.2 <= rank c.2.

Lemma insert_ranked_sorted c l : StronglySorted outranks l -> StronglySorted outranks (insert_ranked c l).
Proof.
  induction 1 as [|d l Hs IH Hd]; cbn; [by repeat constructor|]. destruct (Z.leb_spec (rank d.2) (rank c.2)).
  - constructor; [by constructor|]. constructor; [done|]. eapply Forall_impl; [|exact Hd]. unfold outranks. intros x. lia.
  - constructor; [done|]. rewrite insert_ranked_perm. constructor; [unfold outranks; lia|done].
Qed.

Lemma insert_ranked_same c l r :
  base.filter (fun d => rank d.2 = r) (insert_ranked c l) = base.filter (fun d => rank d.2 = r) (c :: l).
Proof.
  induction l as [|d l IH]; [done|]. cbn [insert_ranked]. destruct (Z.leb_spec (rank d.2) (rank c.2)) as [|Hlt]; [done|].
  rewrite filter_cons, IH, !filter_cons. destruct (decide (rank d.2 = r)), (decide (rank c.2 = r)); done || lia.
Qed.

(** The candidates are probed in the order of their rank: the ranked list has
    the candidates of the endpoint, the better ranks first, and candidates of one
    rank in the order they were given. *)
Theorem ranked_candidates_sorted (e : Endpoint) :
  ranked_candidates e ≡ₚ candidates e /\
  StronglySorted (fun c d => rank d.2 <= rank c.2) (ranked_candidates e) /\
  forall r, base.filter (fun c => rank c.2 = r) (ranked_candidates e) = base.filter (fun c => rank c.2 = r) (candidates e).
Proof.
  unfold ranked_candidates. induction (candidates e) as [|c l (Hp & Hs & Hf)]; cbn [foldr]; [by repeat constructor|]. split_and!.
  - by rewrite insert_ranked_perm, Hp.
  - by apply insert_ranked_sorted.
  - intros r. rewrite insert_ranked_same, !filter_cons, Hf. done.
Qed.

(** ** Examples *)

Definition addr_a : SocketAddr := {| ip := V4 [192; 0; 2; 1]; port := 41641 |}.
Definition addr_b : SocketAddr := {| ip := V4 [192; 0; 2; 2]; port := 41641 |}.
Definition example_ping : PendingPing :=
  {| sent_at := 5; pp_addr := addr_a; purpose := Discovery; pp_size := 0; cli_request_id := None |}.
Definition example_ops : list ep_op :=
  [OSetRelay addr_b 7 [1] 1; OAddPing [9] example_ping; OConfirmDirect addr_a 10 100; ONoteDirect addr_a false 20 101; OSendCallMeMaybe].
Definition example_endpoint : Endpoint :=
  match exec (new [1] [2] 3) example_ops with Ret r => r.1 | Panic => new [] [] 0 end.
Definition example_outs : list ep_out := match exec (new [1] [2] 3) example_ops with Ret r => r.2 | Panic => [] end.

Lemma example_exec : exec (new [1] [2] 3) example_ops = Ret (example_endpoint, example_outs).
Proof. by vm_compute. Qed.

Lemma endpoint_trust_witness :
  best_path example_endpoint 30 30 = BDirect addr_a (10 + TRUST_BEST_ADDR_DURATION) /\
  t_class (path_telemetry_at example_endpoint 30) = PDirect /\
  exists a t wall, OConfirmDirect a t wall ∈ example_ops /\ 30 < t + TRUST_BEST_ADDR_DURATION.
Proof.
  split; [by vm_compute|]. split; [by vm_compute|].
  destruct (endpoint_trust [1] [2] 3 example_ops example_endpoint example_outs example_exec 30 30) as [_ H].
  apply H; by vm_compute.
Defined.

Lemma pong_matches_witness :
  (match_pong example_endpoint [9]).2 = Some example_ping /\
  exists pre post, example_ops = pre ++ OAddPing [9] example_ping :: post /\
    Forall (fun op => keeps_ping [9] example_ping op = true) post.
Proof.
  split; [by vm_compute|].
  destruct (pong_matches [1] [2] 3 example_ops example_endpoint example_outs [9] example_exec) as [H _]. apply H. by vm_compute.
Defined.

Lemma relay_addresses_kept_witness :
  example_ops !! 0%nat = Some (OSetRelay addr_b 7 [1] 1) /\
  (tracked example_endpoint addr_b \/
   exists j op o, (0 < j)%nat /\ example_ops !! j = Some op /\ example_outs !! j = Some o /\ handed_back op o addr_b).
Proof.
  split; [by vm_compute|].
  apply (relay_addresses_kept [1] [2] 3 example_ops example_endpoint example_outs 0 addr_b 7 [1] 1); [exact example_exec|reflexivity].
Defined.

Lemma probe_cycle_ends_witness :
  let e0 := start_udp_lifetime_cycle example_endpoint 40 in
  udp_lifetime_cycle_active e0 = true /\ exists e1, advance_udp_lifetime_cliff e0 = Ret (e1, true).
Proof.
  destruct (probe_cycle_ends [1] [2] 3 example_ops example_endpoint example_outs 40 example_exec) as (H1 & _ & e1 & e2 & e3 & _ & H2 & _).
  - eexists. by vm_compute.
  - eexists. by vm_compute.
  - split; [exact H1|]. exists e1. exact H2.
Defined.

(** Telemetry can name a direct address other than the one that is trusted. *)
Lemma telemetry_untrusted_address :
  let e := note_direct_transport (confirm_direct (new [1] [2] 3) addr_a 10 100) addr_b true 20 101 in
  trusted_direct_addr e 30 = Some addr_a /\ t_class (path_telemetry_at e 30) = PDirect /\
  t_addr (path_telemetry_at e 30) = Some addr_b.
Proof. by vm_compute. Qed.

(** A route last seen on region 0 hides the home region from [best_path] only. *)
Lemma best_path_ignores_home :
  exists e now, best_path e now now = BNone /\ derp_send_region e now = 3.
Proof. exists (set_last_recv_derp_region (new [1] [2] 3) 0 10), 20. by vm_compute. Qed.
