(* ===== verification/Stun.v ===== *)
(** * STUN binding requests and responses: [crates/netcheck/src/stun.rs]

    The CRC-32 of the [FINGERPRINT] attribute is computed by a library: it is the
    parameter [crc32].  The attribute walk [foreach_attr] takes the state its
    closure captures as an argument and a bound on the number of attributes; the
    length of the buffer is always enough. *)

From S2P Require Import Prelude Bytes IpAddr.

Definition HEADER_LEN : nat := 20.
Definition TX_ID_LEN : nat := 12.
Definition MAGIC_COOKIE : list Z := [0x21; 0x12; 0xa4; 0x42].
Definition MAGIC_COOKIE_PORT_XOR : Z := 0x2112.
Definition FINGERPRINT_XOR : Z := 0x5354554e.
Definition ATTR_MAPPED_ADDRESS : Z := 0x0001.
Definition ATTR_XOR_MAPPED_ADDRESS : Z := 0x0020.
Definition ATTR_XOR_MAPPED_ADDRESS_ALT : Z := 0x8020.
Definition ATTR_SOFTWARE : Z := 0x8022.
Definition ATTR_FINGERPRINT : Z := 0x8028.
(** ["tailnode"]. *)
Definition SOFTWARE : list Z := [116; 97; 105; 108; 110; 111; 100; 101].
Definition FINGERPRINT_LEN : nat := 8.

Inductive StunError : Type :=
| NotStun | NotSuccessResponse | NotBindingRequest | MalformedAttrs | WrongSoftware | NoFingerprint | WrongFingerprint.

(** ** Attributes *)

(** [(attr_len + 3) & !3]. *)
Definition pad4 (n : nat) : nat := Z.to_nat (Z.land (Z.of_nat n + 3) (Z.lnot 3)).

(** [foreach_attr]: [f] is the closure, [s] the variables it captures. *)
Fixpoint foreach_attr {S} (fuel : nat) (b : list Z) (f : S -> Z -> list Z -> run S) (s : S) : run (result StunError S) :=
  match fuel with
  | O => match b with [] => Ret (Ok s) | _ => Panic end
  | Datatypes.S fuel =>
      match b with
      | [] => Ret (Ok s)
      | _ =>
          if (length b <? 4)%nat then Ret (Err MalformedAttrs)
          else
            t ← idx_range b 0 2; l ← idx_range b 2 2;
            let attr_len := Z.to_nat (from_be_bytes l) in
            let attr_len_padded := pad4 attr_len in
            b ← slice_from b 4;
            if (length b <? attr_len_padded)%nat then Ret (Err MalformedAttrs)
            else
              attr ← slice b 0 attr_len;
              s ← f s (from_be_bytes t) attr;
              b ← slice_from b attr_len_padded;
              foreach_attr fuel b f s
      end
  end.

(** ** Addresses *)

(** Bytes from position [i] on, XORed with the cookie and then the transaction id. *)
Fixpoint xor_loop (tx_id : list Z) (i : nat) (bytes : list Z) : run (list Z) :=
  match bytes with
  | [] => Ret []
  | o :: bytes =>
      k ← (if (i <? length MAGIC_COOKIE)%nat then idx MAGIC_COOKIE i else idx tx_id (i - length MAGIC_COOKIE));
      rest ← xor_loop tx_id (S i) bytes;
      Ret (Z.lxor o k :: rest)
  end.

(** [family_addr_len]. *)
Definition family_addr_len (fam : Z) : option nat :=
  if fam =? 1 then Some 4%nat else if fam =? 2 then Some 16%nat else None.

(** [build_socket_addr]. *)
Definition build_socket_addr (fam : Z) (addr : list Z) (port : Z) : run (option SocketAddr) :=
  if (fam =? 1) && (length addr =? 4)%nat then
    o ← idx_range addr 0 4; Ret (Some {| ip := V4 o; port := port |})
  else if (fam =? 2) && (length addr =? 16)%nat then
    z ← slice addr 0 10; b10 ← idx addr 10; b11 ← idx addr 11;
    if forallb (fun x => x =? 0) z && (b10 =? 0xff) && (b11 =? 0xff)
    then o ← idx_range addr 12 4; Ret (Some {| ip := V4 o; port := port |})
    else Ret (Some {| ip := V6 addr; port := port |})
  else Ret None.

(** [xor_mapped_address]. *)
Definition xor_mapped_address (tx_id b : list Z) : run (option SocketAddr) :=
  if (length b <? 4)%nat then Ret None
  else
    p ← idx_range b 2 2;
    let port := Z.lxor (from_be_bytes p) MAGIC_COOKIE_PORT_XOR in
    addr_field ← slice_from b 4; fam ← idx b 1;
    match family_addr_len fam with
    | None => Ret None
    | Some addr_len =>
        if (length addr_field <? addr_len)%nat then Ret None
        else
          xor_addr ← slice addr_field 0 addr_len;
          addr ← xor_loop tx_id 0 xor_addr;
          build_socket_addr fam addr port
    end.

(** [mapped_address]. *)
Definition mapped_address (b : list Z) : run (option SocketAddr) :=
  if (length b <? 4)%nat then Ret None
  else
    p ← idx_range b 2 2;
    addr_field ← slice_from b 4; fam ← idx b 1;
    match family_addr_len fam with
    | None => Ret None
    | Some addr_len =>
        if (length addr_field <? addr_len)%nat then Ret None
        else a ← slice addr_field 0 addr_len; build_socket_addr fam a (from_be_bytes p)
    end.

(** [is_stun]. *)
Definition is_stun (b : list Z) : run bool :=
  if negb (HEADER_LEN <=? length b)%nat then Ret false
  else
    b0 ← idx b 0;
    if negb (Z.land b0 0xC0 =? 0) then Ret false
    else c ← slice b 4 8; Ret (bool_decide (c = MAGIC_COOKIE)).

(** ** Messages *)

(** [response]. *)
Definition response (tx_id : list Z) (addr : SocketAddr) : run (list Z) :=
  let '(fam, addr_bytes) := match ip addr with V4 o => (1, o) | V6 o => (2, o) end in
  let attrs_len := (8 + length addr_bytes)%nat in
  x ← xor_loop tx_id 0 addr_bytes;
  Ret ([0x01; 0x01] ++ to_be_bytes 2 (Z.of_nat attrs_len) ++ MAGIC_COOKIE ++ tx_id
       ++ to_be_bytes 2 ATTR_XOR_MAPPED_ADDRESS ++ to_be_bytes 2 (Z.of_nat (4 + length addr_bytes))
       ++ [0; fam] ++ to_be_bytes 2 (Z.lxor (port addr) MAGIC_COOKIE_PORT_XOR) ++ x).

(** The closure of [parse_response]. *)
Definition response_attr (tx_id : list Z) (s : option SocketAddr * option SocketAddr) (attr_type : Z) (attr : list Z)
  : run (option SocketAddr * option SocketAddr) :=
  if (attr_type =? ATTR_XOR_MAPPED_ADDRESS) || (attr_type =? ATTR_XOR_MAPPED_ADDRESS_ALT) then
    a ← xor_mapped_address tx_id attr;
    Ret (match a with Some ap => (Some ap, s.2) | None => s end)
  else if attr_type =? ATTR_MAPPED_ADDRESS then
    a ← mapped_address attr;
    Ret (match a with Some ap => (s.1, Some ap) | None => s end)
  else Ret s.

(** [parse_response]. *)
Definition parse_response (b : list Z) : run (result StunError (list Z * SocketAddr)) :=
  stun ← is_stun b;
  if negb stun then Ret (Err NotStun)
  else
    tx_id ← slice b 8 (8 + TX_ID_LEN);
    b0 ← idx b 0; b1 ← idx b 1;
    if negb (b0 =? 1) || negb (b1 =? 1) then Ret (Err NotSuccessResponse)
    else
      l ← idx_range b 2 2;
      let attrs_len := Z.to_nat (from_be_bytes l) in
      body ← slice_from b HEADER_LEN;
      if (length body <? attrs_len)%nat then Ret (Err MalformedAttrs)
      else
        body ← slice body 0 attrs_len;
        r ← foreach_attr (length body) body (response_attr tx_id) (None, None);
        Ret (match r with
             | Err e => Err e
             | Ok (Some a, _) | Ok (None, Some a) => Ok (tx_id, a)
             | Ok (None, None) => Err MalformedAttrs
             end).

Section fingerprint.
Variable crc32 : list Z -> Z.

(** [fingerprint]. *)
Definition fingerprint (b : list Z) : Z := Z.lxor (crc32 b) FINGERPRINT_XOR.

(** [request]. *)
Definition request (tx_id : list Z) : list Z :=
  let attrs_len := (4 + length SOFTWARE + FINGERPRINT_LEN)%nat in
  let b := [0x00; 0x01] ++ to_be_bytes 2 (Z.of_nat attrs_len) ++ MAGIC_COOKIE ++ tx_id
           ++ to_be_bytes 2 ATTR_SOFTWARE ++ to_be_bytes 2 (Z.of_nat (length SOFTWARE)) ++ SOFTWARE in
  b ++ to_be_bytes 2 ATTR_FINGERPRINT ++ to_be_bytes 2 4 ++ to_be_bytes 4 (fingerprint b).

(** What the closure of [parse_binding_request] captures. *)
Record RequestAttrs : Type := { software_ok : bool; last_attr : Z; got_fp : option Z }.

(** The closure of [parse_binding_request]. *)
Definition request_attr (s : RequestAttrs) (attr_type : Z) (attr : list Z) : run RequestAttrs :=
  let ok := if (attr_type =? ATTR_SOFTWARE) && bool_decide (attr = SOFTWARE) then true else software_ok s in
  fp ← (if (attr_type =? ATTR_FINGERPRINT) && (length attr =? 4)%nat
        then v ← idx_range attr 0 4; Ret (Some (from_be_bytes v)) else Ret (got_fp s));
  Ret {| software_ok := ok; last_attr := attr_type; got_fp := fp |}.

(** [parse_binding_request]. *)
Definition parse_binding_request (b : list Z) : run (result StunError (list Z)) :=
  stun ← is_stun b;
  if negb stun then Ret (Err NotStun)
  else
    b0 ← idx b 0; b1 ← idx b 1;
    if negb (b0 =? 0) || negb (b1 =? 1) then Ret (Err NotBindingRequest)
    else
      tx_id ← slice b 8 (8 + TX_ID_LEN);
      body ← slice_from b HEADER_LEN;
      r ← foreach_attr (length body) body request_attr {| software_ok := false; last_attr := 0; got_fp := None |};
      match r with
      | Err e => Ret (Err e)
      | Ok s =>
          if negb (software_ok s) then Ret (Err WrongSoftware)
          else if negb (last_attr s =? ATTR_FINGERPRINT) then Ret (Err NoFingerprint)
          else
            n ← sub_usize (length b) FINGERPRINT_LEN;
            prefix ← slice b 0 n;
            Ret (if bool_decide (got_fp s = Some (fingerprint prefix)) then Ok tx_id else Err WrongFingerprint)
      end.
End fingerprint.
