(* ===== verification/StunSpec.v ===== *)
(** * Correctness of the STUN codec

    Parsing returns on every input; what [request] and [response] build is parsed
    back; a STUN packet is never taken for a disco packet. *)

From S2P Require Import Prelude Bytes IpAddr Disco Stun.

(** ** Attributes *)

Lemma pad4_eq n : pad4 n = Z.to_nat ((Z.of_nat n + 3) / 4 * 4).
Proof.
  unfold pad4. change (Z.lnot 3) with (Z.lnot (Z.ones 2)). rewrite <- Z.ldiff_land, Z.ldiff_ones_r by lia.
  by rewrite Z.shiftl_mul_pow2, Z.shiftr_div_pow2 by lia.
Qed.

Lemma pad4_spec n : (n <= pad4 n < n + 4)%nat.
Proof.
  rewrite pad4_eq. pose proof (Z.div_mod (Z.of_nat n + 3) 4 ltac:(lia)). pose proof (Z.mod_pos_bound (Z.of_nat n + 3) 4 ltac:(lia)). lia.
Qed.

(** The walk over the attributes ends and returns. *)
Lemma foreach_returns {S} (f : S -> Z -> list Z -> run S) :
  (forall s t a, returns (f s t a)) ->
  forall fuel b s, (length b <= fuel)%nat -> returns (foreach_attr fuel b f s).
Proof.
  intros Hf. induction fuel as [|fuel IH]; intros b s Hl; cbn [foreach_attr].
  { destruct b; [apply returns_Ret|cbn in Hl; lia]. }
  destruct b as [|x b0] eqn:Eb; [apply returns_Ret|]. rewrite <- Eb in *. assert (0 < length b)%nat by (subst b; cbn; lia).
  clear Eb. destruct (Nat.ltb_spec (length b) 4); [apply returns_Ret|].
  rewrite !idx_range_field, !run_bind_Ret, slice_from_ok, run_bind_Ret by lia. cbv zeta. set (n := Z.to_nat _).
  destruct (pad4_spec n). destruct (Nat.ltb_spec (length (drop 4 b)) (pad4 n)) as [|Hp]; [apply returns_Ret|].
  rewrite slice_field, run_bind_Ret by lia. apply returns_bind; [apply Hf|]. intros s' _.
  rewrite slice_from_ok, run_bind_Ret by lia. apply IH. rewrite !length_drop. lia.
Qed.

(** One attribute, its padding and the rest. *)
Lemma foreach_cons {S} (f : S -> Z -> list Z -> run S) fuel t attr pad rest s s' :
  is_u16 t -> Z.of_nat (length attr) < 65536 -> (length attr + length pad = pad4 (length attr))%nat ->
  f s t attr = Ret s' ->
  foreach_attr (Datatypes.S fuel) (to_be_bytes 2 t ++ to_be_bytes 2 (Z.of_nat (length attr)) ++ attr ++ pad ++ rest) f s =
  foreach_attr fuel rest f s'.
Proof.
  intros Ht Hl Hp Hf. cbn [foreach_attr]. set (b := to_be_bytes 2 t ++ _).
  assert (length b = 4 + (length attr + (length pad + length rest)))%nat as Lb by (subst b; rewrite !length_app, !length_to_be_bytes; lia).
  destruct b as [|x b0] eqn:Eb; [cbn in Lb; lia|]. rewrite <- Eb in *. rewrite (proj2 (Nat.ltb_ge _ _)) by lia.
  rewrite !idx_range_field, !run_bind_Ret, slice_from_ok, run_bind_Ret by lia. clear x b0 Eb.
  assert (field b 0 2 = to_be_bytes 2 t) as -> by (apply field_here, length_to_be_bytes).
  assert (field b 2 2 = to_be_bytes 2 (Z.of_nat (length attr))) as ->.
  { unfold b. rewrite (field_skip _ _ _ _ 2) by (rewrite ?length_to_be_bytes; lia). apply field_here, length_to_be_bytes. }
  assert (drop 4 b = attr ++ pad ++ rest) as -> by done. rewrite !(from_to_be_bytes_small 2) by (unfold is_u16 in Ht; cbn; lia).
  cbv zeta. rewrite Nat2Z.id. rewrite (proj2 (Nat.ltb_ge _ _)) by (rewrite !length_app; lia).
  rewrite slice_field, run_bind_Ret by (rewrite !length_app; lia). rewrite Nat.sub_0_r, field_here, Hf, run_bind_Ret by done.
  rewrite slice_from_ok, run_bind_Ret by (rewrite !length_app; lia). f_equal.
  rewrite app_assoc, <- Hp, drop_app_ge by (rewrite length_app; lia). by rewrite length_app, Nat.sub_diag, drop_0.
Qed.

Lemma foreach_nil {S} (f : S -> Z -> list Z -> run S) fuel s : foreach_attr fuel [] f s = Ret (Ok s).
Proof. by destruct fuel. Qed.

(** ** Addresses *)

Lemma xor_loop_spec tx bytes : forall i,
  length tx = TX_ID_LEN -> (i + length bytes <= 16)%nat ->
  xor_loop tx i bytes = Ret (zip_with Z.lxor bytes (drop i (MAGIC_COOKIE ++ tx))).
Proof.
  unfold TX_ID_LEN. induction bytes as [|o bytes IH]; intros i Ht Hi; cbn [xor_loop length] in *; [done|].
  destruct (lookup_lt_is_Some_2 (MAGIC_COOKIE ++ tx) i) as [k Hk]; [rewrite length_app; cbn; lia|].
  assert ((if (i <? length MAGIC_COOKIE)%nat then idx MAGIC_COOKIE i else idx tx (i - length MAGIC_COOKIE)) = Ret k) as ->.
  { destruct (Nat.ltb_spec i (length MAGIC_COOKIE)); apply idx_lookup; rewrite <- Hk.
    - by rewrite lookup_app_l.
    - by rewrite lookup_app_r. }
  rewrite run_bind_Ret, IH, run_bind_Ret by lia. by rewrite (drop_S _ _ _ Hk).
Qed.

Lemma zip_lxor_involutive a k : (length a <= length k)%nat -> zip_with Z.lxor (zip_with Z.lxor a k) k = a.
Proof.
  revert k. induction a as [|x a IH]; intros [|y k] H; cbn in *; [done|done|lia|]. rewrite IH by lia. f_equal.
  by rewrite Z.lxor_assoc, Z.lxor_nilpotent, Z.lxor_0_r.
Qed.

(** The address as the parser reports it: an IPv4-mapped address becomes IPv4. *)
Definition unmapped_addr (a : SocketAddr) : SocketAddr := {| ip := Disco.unmapped (ip a); port := port a |}.

Lemma forallb_zero l : forallb (fun x => x =? 0) l = true <-> l = replicate (length l) 0.
Proof.
  induction l as [|x l IH]; cbn; [done|]. rewrite andb_true_iff, IH, Z.eqb_eq. split; [by intros [-> E]; rewrite <- E|].
  intros [= -> E]. by rewrite <- E.
Qed.

Lemma build_v6 o pt :
  length o = 16%nat -> build_socket_addr 2 o pt = Ret (Some (unmapped_addr {| ip := V6 o; port := pt |})).
Proof.
  intros Hl. unfold build_socket_addr, unmapped_addr, unmapped. cbn [Z.eqb Pos.eqb andb ip port]. rewrite Hl. cbn [Nat.eqb].
  rewrite slice_field, (idx_byte_at o 10), (idx_byte_at o 11), !run_bind_Ret by lia. rewrite idx_range_field, run_bind_Ret by lia.
  assert (take 12 o = field o 0 10 ++ [byte_at o 10; byte_at o 11]) as ->.
  { do 16 (destruct o as [|? o]; [done|]). destruct o; [done|]. cbn in Hl. lia. }
  assert (field o 12 4 = drop 12 o) as -> by (unfold field; apply take_ge; rewrite length_drop; lia).
  pose proof (forallb_zero (field o 0 10)) as Hz. rewrite length_field in Hz by lia. cbn [Nat.sub].
  destruct (decide _) as [E|E].
  - apply app_inj_1 in E as [E [= E1 E2]]; [|by rewrite length_field, length_replicate by lia]. rewrite (proj2 Hz E), E1, E2. done.
  - destruct (forallb _ _), (Z.eqb_spec (byte_at o 10) 255) as [E1|], (Z.eqb_spec (byte_at o 11) 255) as [E2|]; try done.
    exfalso. apply E. by rewrite (proj1 Hz eq_refl), E1, E2.
Qed.

Lemma build_v4 o pt : length o = 4%nat -> build_socket_addr 1 o pt = Ret (Some {| ip := V4 o; port := pt |}).
Proof.
  intros Hl. unfold build_socket_addr. cbn [Z.eqb Pos.eqb andb]. rewrite Hl. cbn [Nat.eqb]. rewrite idx_range_field, run_bind_Ret by lia.
  by rewrite field_end.
Qed.

(** The family byte of an address. *)
Definition family (a : IpAddr) : Z := match a with V4 _ => 1 | V6 _ => 2 end.

Lemma build_address a pt :
  length (octets a) = addr_len a ->
  build_socket_addr (family a) (octets a) pt = Ret (Some (unmapped_addr {| ip := a; port := pt |})).
Proof. destruct a as [o|o]; cbn; intros Hl; [by apply build_v4|by apply build_v6]. Qed.

Lemma build_returns fam a pt : returns (build_socket_addr fam a pt).
Proof.
  unfold build_socket_addr. destruct (_ && (length a =? 4)%nat) eqn:E4.
  { apply andb_true_iff in E4 as [_ E4%Nat.eqb_eq]. rewrite idx_range_field, run_bind_Ret by lia. apply returns_Ret. }
  destruct (_ && (length a =? 16)%nat) eqn:E16; [|apply returns_Ret]. apply andb_true_iff in E16 as [_ E16%Nat.eqb_eq].
  rewrite slice_field, (idx_byte_at a 10), (idx_byte_at a 11), !run_bind_Ret by lia. rewrite idx_range_field, run_bind_Ret by lia.
  destruct (forallb _ _ && _ && _); apply returns_Ret.
Qed.

Lemma family_len fam n : family_addr_len fam = Some n -> (n <= 16)%nat.
Proof. unfold family_addr_len. destruct (fam =? 1); [intros [= <-]; lia|]. destruct (fam =? 2); [intros [= <-]; lia|done]. Qed.

Lemma xor_mapped_returns tx b : length tx = TX_ID_LEN -> returns (xor_mapped_address tx b).
Proof.
  intros Ht. unfold xor_mapped_address. destruct (Nat.ltb_spec (length b) 4); [apply returns_Ret|].
  rewrite idx_range_field, run_bind_Ret, slice_from_ok, run_bind_Ret, (idx_byte_at b 1), run_bind_Ret by lia. cbv zeta.
  destruct (family_addr_len _) as [n|] eqn:En; [|apply returns_Ret]. apply family_len in En.
  destruct (Nat.ltb_spec (length (drop 4 b)) n); [apply returns_Ret|]. rewrite slice_field, run_bind_Ret by lia.
  rewrite xor_loop_spec, run_bind_Ret by (done || (rewrite length_field; lia)). apply build_returns.
Qed.

Lemma mapped_returns b : returns (mapped_address b).
Proof.
  unfold mapped_address. destruct (Nat.ltb_spec (length b) 4); [apply returns_Ret|].
  rewrite idx_range_field, run_bind_Ret, slice_from_ok, run_bind_Ret, (idx_byte_at b 1), run_bind_Ret by lia. cbv zeta.
  destruct (family_addr_len _) as [n|] eqn:En; [|apply returns_Ret].
  destruct (Nat.ltb_spec (length (drop 4 b)) n); [apply returns_Ret|]. rewrite slice_field, run_bind_Ret by lia. apply build_returns.
Qed.

Lemma response_attr_returns tx s t a : length tx = TX_ID_LEN -> returns (response_attr tx s t a).
Proof.
  intros Ht. unfold response_attr. destruct (_ || _); [|destruct (_ =? _); [|apply returns_Ret]].
  - destruct (xor_mapped_returns tx a Ht) as [x ->]. apply returns_Ret.
  - destruct (mapped_returns a) as [x ->]. apply returns_Ret.
Qed.

Lemma request_attr_returns s t a : returns (request_attr s t a).
Proof.
  unfold request_attr. destruct (_ && (length a =? 4)%nat) eqn:E4; [|apply returns_Ret]. apply andb_true_iff in E4 as [_ E4%Nat.eqb_eq].
  rewrite idx_range_field, !run_bind_Ret by lia. apply returns_Ret.
Qed.

(** ** Messages *)

Lemma is_stun_returns b : exists r, is_stun b = Ret r /\ (r = true -> (HEADER_LEN <= length b)%nat).
Proof.
  unfold is_stun, HEADER_LEN. destruct (Nat.leb_spec 20 (length b)); cbn [negb]; [|by eexists].
  rewrite (idx_byte_at b 0), run_bind_Ret by lia. destruct (Z.land (byte_at b 0) 192 =? 0); cbn [negb]; [|by eexists].
  rewrite slice_field, run_bind_Ret by lia. by eexists.
Qed.

(** Parsing a datagram as a STUN response or request always returns, with an
    answer or an error: no index is out of range and the walk over the attributes
    ends within the length of the datagram. *)
Theorem stun_parse_returns (crc32 : list Z -> Z) (b : list Z) :
  returns (parse_response b) /\ returns (parse_binding_request crc32 b).
Proof.
  unfold parse_response, parse_binding_request. destruct (is_stun_returns b) as (r & -> & Hr). rewrite !run_bind_Ret.
  destruct r; cbn [negb]; [|split; apply returns_Ret]. specialize (Hr eq_refl). unfold HEADER_LEN, TX_ID_LEN in *.
  rewrite slice_field, (idx_byte_at b 0), (idx_byte_at b 1), !run_bind_Ret by lia.
  rewrite idx_range_field, !slice_from_ok, !run_bind_Ret by lia. cbv zeta. split.
  - destruct (_ || _); [apply returns_Ret|]. set (n := Z.to_nat _). destruct (Nat.ltb_spec (length (drop 20 b)) n); [apply returns_Ret|].
    rewrite slice_field, run_bind_Ret by lia. apply returns_bind; [|intros; apply returns_Ret].
    apply foreach_returns; [|done]. intros s t a. apply response_attr_returns. by rewrite length_field by lia.
  - destruct (_ || _); [apply returns_Ret|]. apply returns_bind; [apply foreach_returns; [apply request_attr_returns|done]|].
    intros [s|e] _; [|apply returns_Ret]. destruct (software_ok s); [|apply returns_Ret]. destruct (_ =? _); [|apply returns_Ret].
    cbn [negb]. unfold sub_usize, FINGERPRINT_LEN. rewrite (proj2 (Nat.leb_le _ _)), run_bind_Ret by lia.
    rewrite slice_field, run_bind_Ret by lia. apply returns_Ret.
Qed.

(** The header common to requests and responses. *)
Lemma header_stun t0 t1 l0 l1 tx rest :
  Z.land t0 0xC0 = 0 -> length tx = TX_ID_LEN -> is_stun ([t0; t1] ++ [l0; l1] ++ MAGIC_COOKIE ++ tx ++ rest) = Ret true.
Proof.
  intros Ht Hx. unfold TX_ID_LEN in Hx. unfold is_stun, HEADER_LEN.
  rewrite (proj2 (Nat.leb_le _ _)) by (rewrite !length_app; cbn; lia). cbn [negb].
  cbn [app idx lookup list_lookup expect mbind run_bind]. rewrite Ht. cbn [Z.eqb negb].
  rewrite slice_field by (cbn; rewrite length_app; lia). done.
Qed.

Section roundtrip.
Variable tx : list Z.
Hypothesis Htx : length tx = TX_ID_LEN.

(** The octets of an address under the key of the transaction. *)
Definition xored (a : IpAddr) : list Z := zip_with Z.lxor (octets a) (MAGIC_COOKIE ++ tx).

Lemma xored_length a : wf_ip a -> length (xored a) = addr_len a /\ length (xored a) = length (octets a).
Proof.
  intros Hw. pose proof (wf_ip_length a Hw) as Hl. unfold xored. rewrite length_zip_with, length_app, Htx, Hl.
  unfold TX_ID_LEN. destruct a; cbn; lia.
Qed.

Lemma xor_port p : is_u16 p -> is_u16 (Z.lxor p MAGIC_COOKIE_PORT_XOR) /\ Z.lxor (Z.lxor p MAGIC_COOKIE_PORT_XOR) MAGIC_COOKIE_PORT_XOR = p.
Proof.
  intros Hp. split; [apply (lxor_bound 16); unfold is_u16, MAGIC_COOKIE_PORT_XOR in *; lia|].
  by rewrite Z.lxor_assoc, Z.lxor_nilpotent, Z.lxor_0_r.
Qed.

(** The value of the [XOR-MAPPED-ADDRESS] attribute of an address. *)
Definition xor_attr (a : SocketAddr) : list Z :=
  [0; family (ip a)] ++ to_be_bytes 2 (Z.lxor (port a) MAGIC_COOKIE_PORT_XOR) ++ xored (ip a).

Lemma response_eq a :
  wf_ip (ip a) ->
  response tx a = Ret ([1; 1] ++ to_be_bytes 2 (Z.of_nat (8 + addr_len (ip a))) ++ MAGIC_COOKIE ++ tx ++
    to_be_bytes 2 ATTR_XOR_MAPPED_ADDRESS ++ to_be_bytes 2 (Z.of_nat (length (xor_attr a))) ++ xor_attr a).
Proof.
  intros Hw. destruct (xored_length _ Hw) as [_ Lx]. pose proof (wf_ip_length _ Hw) as Hl. unfold response, xor_attr.
  rewrite !length_app, length_to_be_bytes, Lx. unfold xored.
  destruct (ip a) as [o|o]; cbn [octets family] in *; rewrite xor_loop_spec, run_bind_Ret by (done || (cbn in Hl; lia)); by rewrite Hl.
Qed.

Lemma xor_attr_parses a :
  wf_ip (ip a) -> is_u16 (port a) -> xor_mapped_address tx (xor_attr a) = Ret (Some (unmapped_addr a)).
Proof.
  intros Hw Hp. destruct (xored_length _ Hw) as [La Lx]. destruct (xor_port _ Hp) as [Hu Ex].
  unfold xor_mapped_address, xor_attr. set (b := [0; family (ip a)] ++ _).
  assert (length b = 4 + addr_len (ip a))%nat as Lb by (subst b; rewrite !length_app, length_to_be_bytes, La; done).
  rewrite (proj2 (Nat.ltb_ge _ _)) by lia. rewrite idx_range_field, run_bind_Ret, slice_from_ok, run_bind_Ret by lia.
  assert (drop 4 b = xored (ip a)) as -> by done. cbv zeta. change (idx b 1) with (Ret (family (ip a))). rewrite run_bind_Ret.
  assert (field b 2 2 = to_be_bytes 2 (Z.lxor (port a) MAGIC_COOKIE_PORT_XOR)) as -> by done.
  rewrite (from_to_be_bytes_small 2) by done. rewrite Ex.
  assert (family_addr_len (family (ip a)) = Some (addr_len (ip a))) as -> by (by destruct (ip a)).
  rewrite (proj2 (Nat.ltb_ge _ _)) by lia. rewrite slice_field, run_bind_Ret, Nat.sub_0_r by lia. rewrite field_end by done.
  rewrite xor_loop_spec, run_bind_Ret by (done || (rewrite La; destruct (ip a); cbn; lia)). unfold xored. rewrite drop_0, zip_lxor_involutive.
  - rewrite build_address by (by apply wf_ip_length). by destruct a.
  - rewrite length_app, Htx, wf_ip_length by done. unfold TX_ID_LEN. destruct (ip a); cbn; lia.
Qed.

(** The response built for a transaction and an address parses back to them;
    an IPv4-mapped IPv6 address is reported as IPv4. *)
Theorem stun_response_roundtrip (a : SocketAddr) :
  wf_ip (ip a) -> is_u16 (port a) ->
  (response tx a ≫= parse_response) = Ret (Ok (tx, unmapped_addr a)).
Proof.
  intros Hw Hp. rewrite (response_eq a Hw), run_bind_Ret. destruct (xored_length _ Hw) as [La _].
  assert (length (xor_attr a) = 4 + addr_len (ip a))%nat as Lx by (unfold xor_attr; rewrite !length_app, length_to_be_bytes, La; done).
  assert (addr_len (ip a) = 4 \/ addr_len (ip a) = 16)%nat as Hn by (destruct (ip a); cbn; lia).
  set (rest := to_be_bytes 2 ATTR_XOR_MAPPED_ADDRESS ++ _). set (b := [1; 1] ++ _).
  assert (length rest = 8 + addr_len (ip a))%nat as Lr by (subst rest; rewrite !length_app, !length_to_be_bytes; lia).
  assert (length b = 20 + length rest)%nat as Lb by (subst b; rewrite !length_app, length_to_be_bytes, Htx; cbn; lia).
  unfold parse_response. assert (is_stun b = Ret true) as -> by (apply (header_stun 1 1 _ _ tx rest); done).
  rewrite run_bind_Ret. cbn [negb]. unfold TX_ID_LEN, HEADER_LEN in *. rewrite slice_field, run_bind_Ret by lia.
  assert (field b 8 (8 + 12 - 8) = tx) as -> by (change (field b 8 12) with (field (tx ++ rest) 0 12); by apply field_here).
  change (idx b 0) with (Ret 1). change (idx b 1) with (Ret 1). rewrite !run_bind_Ret. cbn [Z.eqb Pos.eqb negb orb].
  rewrite idx_range_field, run_bind_Ret by lia. change (field b 2 2) with (to_be_bytes 2 (Z.of_nat (8 + addr_len (ip a)))).
  rewrite (from_to_be_bytes_small 2), Nat2Z.id by (cbn; lia). cbv zeta. rewrite slice_from_ok, run_bind_Ret by lia.
  assert (drop 20 b = rest) as ->.
  { change (drop 20 b) with (drop 12 (tx ++ rest)). rewrite drop_app_ge by lia. by rewrite Htx. }
  rewrite (proj2 (Nat.ltb_ge _ _)) by lia. rewrite slice_field, run_bind_Ret, Nat.sub_0_r by lia. rewrite field_end, Lr by done.
  unfold rest. rewrite <- (app_nil_r (xor_attr a)) at 2. change (8 + addr_len (ip a))%nat with (S (7 + addr_len (ip a))).
  rewrite (foreach_cons _ _ _ _ [] [] _ (Some (unmapped_addr a), None)).
  - by rewrite foreach_nil.
  - done.
  - lia.
  - rewrite pad4_eq, Lx. by destruct Hn as [-> | ->].
  - unfold response_attr. cbn [Z.eqb Pos.eqb ATTR_XOR_MAPPED_ADDRESS orb]. by rewrite xor_attr_parses.
Qed.

Section request.
Variable crc32 : list Z -> Z.
Hypothesis crc32_u32 : forall b, is_u32 (crc32 b).

Lemma fingerprint_u32 b : is_u32 (fingerprint crc32 b).
Proof. apply (lxor_bound 32); [lia|apply crc32_u32|]. unfold FINGERPRINT_XOR. lia. Qed.

Lemma fingerprint_attr s b :
  request_attr s ATTR_FINGERPRINT (to_be_bytes 4 (fingerprint crc32 b)) =
  Ret {| software_ok := software_ok s; last_attr := ATTR_FINGERPRINT; got_fp := Some (fingerprint crc32 b) |}.
Proof.
  unfold request_attr. cbn [Z.eqb Pos.eqb ATTR_FINGERPRINT ATTR_SOFTWARE andb]. rewrite length_to_be_bytes. cbn [Nat.eqb].
  rewrite idx_range_field, !run_bind_Ret by (rewrite length_to_be_bytes; lia). rewrite field_end by apply length_to_be_bytes.
  rewrite (from_to_be_bytes_small 4); [done|]. apply fingerprint_u32.
Qed.

(** The binding request built for a transaction is accepted as a request of
    the same software with a valid fingerprint, and gives the transaction back. *)
Theorem stun_request_roundtrip : parse_binding_request crc32 (request crc32 tx) = Ret (Ok tx).
Proof.
  unfold request. cbv zeta. set (pre := [0; 1] ++ _). set (fp := fingerprint crc32 pre).
  set (rest := to_be_bytes 2 ATTR_SOFTWARE ++ to_be_bytes 2 (Z.of_nat (length SOFTWARE)) ++ SOFTWARE ++ [] ++
               to_be_bytes 2 ATTR_FINGERPRINT ++ to_be_bytes 2 (Z.of_nat (length (to_be_bytes 4 fp))) ++ to_be_bytes 4 fp ++ [] ++ []).
  set (b := pre ++ _). assert (length pre = 32)%nat as Lp by (subst pre; rewrite !length_app, Htx; done).
  assert (b = [0; 1] ++ [0; 20] ++ MAGIC_COOKIE ++ tx ++ rest) as Eb by (subst b pre; by rewrite <- !app_assoc).
  assert (length b = 40)%nat as Lb by (subst b; rewrite length_app, Lp; done).
  assert (field b 0 32 = pre) as Ep by (by apply field_here). clearbody b.
  unfold parse_binding_request. assert (is_stun b = Ret true) as -> by (rewrite Eb; by apply header_stun).
  rewrite run_bind_Ret. cbn [negb]. rewrite (idx_byte_at b 0), (idx_byte_at b 1), !run_bind_Ret by lia.
  assert (byte_at b 0 = 0 /\ byte_at b 1 = 1) as [-> ->] by (by rewrite Eb). cbn [Z.eqb Pos.eqb negb orb].
  unfold TX_ID_LEN, HEADER_LEN, FINGERPRINT_LEN in *. rewrite slice_field, run_bind_Ret, slice_from_ok, run_bind_Ret by lia.
  assert (field b 8 (8 + 12 - 8) = tx) as -> by (rewrite Eb; change (field (tx ++ rest) 0 12 = tx); by apply field_here).
  assert (drop 20 b = rest) as ->.
  { rewrite Eb. change (drop 12 (tx ++ rest) = rest). rewrite drop_app_ge by lia. by rewrite Htx. }
  change (length rest) with 20%nat. unfold rest.
  rewrite (foreach_cons _ _ _ _ _ _ _ {| software_ok := true; last_attr := ATTR_SOFTWARE; got_fp := None |}) by done.
  rewrite (foreach_cons _ _ _ _ _ _ _ {| software_ok := true; last_attr := ATTR_FINGERPRINT; got_fp := Some fp |});
    [|done|done|done|by apply fingerprint_attr].
  rewrite foreach_nil, run_bind_Ret. cbn [software_ok last_attr got_fp negb Z.eqb Pos.eqb ATTR_FINGERPRINT].
  unfold sub_usize. rewrite Lb. cbn [Nat.leb]. rewrite run_bind_Ret, slice_field, run_bind_Ret by lia. cbn [Nat.sub].
  rewrite Ep. by rewrite bool_decide_eq_true_2.
Qed.
End request.
End roundtrip.

(** The demultiplexing of datagrams is unambiguous here: a datagram that looks
    like a disco packet is not a STUN packet. *)
Theorem stun_disco_disjoint (b : list Z) : looks_like_disco_wrapper b = true -> is_stun b = Ret false.
Proof.
  unfold looks_like_disco_wrapper. intros H. apply andb_true_iff in H as [Hl Hm%bool_decide_eq_true]. apply Nat.leb_le in Hl.
  unfold is_stun. rewrite (proj2 (Nat.leb_le _ _)) by (unfold HEADER_LEN; cbn in Hl; lia). cbn [negb].
  destruct b as [|x b]; [done|]. injection Hm as -> _. done.
Qed.

(** ** Examples *)

Definition example_tx : list Z := [1; 2; 3; 4; 5; 6; 7; 8; 9; 10; 11; 12].
Definition example_addr : SocketAddr := {| ip := V6 (replicate 10 0 ++ [255; 255; 192; 0; 2; 7]); port := 3478 |}.

Lemma stun_response_roundtrip_witness :
  (response example_tx example_addr ≫= parse_response) =
  Ret (Ok (example_tx, {| ip := V4 [192; 0; 2; 7]; port := 3478 |})).
Proof.
  apply (stun_response_roundtrip example_tx eq_refl example_addr).
  - split; [apply (bool_decide_unpack _); by vm_compute|reflexivity].
  - unfold is_u16. cbn. lia.
Defined.

Lemma stun_request_roundtrip_witness :
  parse_binding_request (fun b => Z.of_nat (length b) mod 2 ^ 32) (request (fun b => Z.of_nat (length b) mod 2 ^ 32) example_tx)
  = Ret (Ok example_tx).
Proof.
  apply (stun_request_roundtrip example_tx eq_refl). intros b. unfold is_u32. apply Z.mod_pos_bound. lia.
Defined.

Lemma stun_disco_disjoint_witness :
  looks_like_disco_wrapper (MAGIC ++ replicate 56 0) = true /\ is_stun (MAGIC ++ replicate 56 0) = Ret false.
Proof. split; [reflexivity|]. apply stun_disco_disjoint. reflexivity. Defined.
