(* ===== verification/Utf8.v ===== *)
(** * UTF-8

    The part of [core::str] the crates use on bytes from the network: decoding
    one character, the lossy decoder and the validity of a [String]. *)

From S2P Require Import Prelude Bytes.

(** [String::from_utf8_lossy], with a [String] as its list of code points: a
    maximal prefix of an ill-formed sequence becomes one U+FFFD. *)
Definition is_continuation (b : Z) : bool := Z.land b 192 =? 128.
Definition in_range (b lo hi : Z) : bool := (lo <=? b) && (b <=? hi).

Definition second_of_three (b0 b1 : Z) : bool :=
  ((b0 =? 0xe0) && in_range b1 0xa0 0xbf) || (in_range b0 0xe1 0xec && in_range b1 0x80 0xbf) ||
  ((b0 =? 0xed) && in_range b1 0x80 0x9f) || (in_range b0 0xee 0xef && in_range b1 0x80 0xbf).
Definition second_of_four (b0 b1 : Z) : bool :=
  ((b0 =? 0xf0) && in_range b1 0x90 0xbf) || (in_range b0 0xf1 0xf3 && in_range b1 0x80 0xbf) ||
  ((b0 =? 0xf4) && in_range b1 0x80 0x8f).

(** The code point at the start of [src], if its bytes are well-formed, and how
    many bytes are used up. *)
Definition next_char (src : list Z) : option Z * nat :=
  let b0 := byte_at src 0 in let b1 := byte_at src 1 in
  let b2 := byte_at src 2 in let b3 := byte_at src 3 in
  if b0 <? 128 then (Some b0, 1%nat)
  else if in_range b0 0xc2 0xdf then
    if negb (is_continuation b1) then (None, 1%nat)
    else (Some (Z.land b0 31 * 64 + Z.land b1 63), 2%nat)
  else if in_range b0 0xe0 0xef then
    if negb (second_of_three b0 b1) then (None, 1%nat)
    else if negb (is_continuation b2) then (None, 2%nat)
    else (Some (Z.land b0 15 * 4096 + Z.land b1 63 * 64 + Z.land b2 63), 3%nat)
  else if in_range b0 0xf0 0xf4 then
    if negb (second_of_four b0 b1) then (None, 1%nat)
    else if negb (is_continuation b2) then (None, 2%nat)
    else if negb (is_continuation b3) then (None, 3%nat)
    else (Some (Z.land b0 7 * 262144 + Z.land b1 63 * 4096 + Z.land b2 63 * 64 + Z.land b3 63), 4%nat)
  else (None, 1%nat).

Fixpoint utf8_lossy_loop (fuel : nat) (src : list Z) : list Z :=
  match fuel, src with
  | S fuel', _ :: _ =>
      let c := next_char src in
      default 0xfffd c.1 :: utf8_lossy_loop fuel' (drop c.2 src)
  | _, _ => []
  end.
Definition from_utf8_lossy (src : list Z) : list Z := utf8_lossy_loop (length src) src.

(** The bytes of a [String]: a sequence of well-formed characters. *)
Fixpoint utf8_loop (fuel : nat) (src : list Z) : bool :=
  match fuel, src with
  | _, [] => true
  | S fuel', _ :: _ =>
      let c := next_char src in
      match c.1 with Some _ => utf8_loop fuel' (drop c.2 src) | None => false end
  | O, _ :: _ => false
  end.
Definition is_utf8 (src : list Z) : bool := utf8_loop (length src) src.
