(* ===== verification/Str.v ===== *)
(** * Strings as their bytes

    The methods of [str] that the name-handling crates use, on the UTF-8 bytes
    of a string.  A pattern that is itself a string matches bytes exactly where it
    matches characters, since UTF-8 is self-synchronizing.  The Unicode tables
    behind [str::to_lowercase] are a parameter; on ASCII it is the ASCII mapping. *)

From Stdlib Require Import Ascii.
From S2P Require Import Prelude Bytes.

(** A literal, and the bytes of a string as the text the address parser reads. *)
Definition str_bytes (s : string) : list Z := map (fun c => Z.of_nat (Ascii.nat_of_ascii c)) (String.list_ascii_of_string s).
Definition to_text (s : list Z) : string := String.string_of_list_ascii (map (fun b => Ascii.ascii_of_nat (Z.to_nat b)) s).

Definition DOT : Z := 46.

(** ** Prefixes and suffixes *)

Definition starts_with (s p : list Z) : bool := bool_decide (take (length p) s = p).
Definition ends_with (s p : list Z) : bool :=
  (length p <=? length s)%nat && bool_decide (drop (length s - length p) s = p).
Definition strip_str_prefix (s p : list Z) : option (list Z) := if starts_with s p then Some (drop (length p) s) else None.
Definition strip_suffix (s p : list Z) : option (list Z) :=
  if ends_with s p then Some (take (length s - length p) s) else None.

(** [trim_start_matches] and [trim_end_matches] of a character. *)
Fixpoint trim_start (c : Z) (s : list Z) : list Z :=
  match s with
  | x :: s' => if x =? c then trim_start c s' else s
  | [] => []
  end.
Definition trim_end (c : Z) (s : list Z) : list Z := reverse (trim_start c (reverse s)).

(** [trim_end_matches] of a non-empty string: removed as often as it is there. *)
Fixpoint trim_end_loop (fuel : nat) (s p : list Z) : list Z :=
  match fuel with
  | O => s
  | S fuel => match strip_suffix s p with Some s' => trim_end_loop fuel s' p | None => s end
  end.
Definition trim_end_str (s p : list Z) : list Z := trim_end_loop (length s) s p.

(** ** Splitting *)

(** [split_once] and [find] of a character; [split] gives at least one piece. *)
Fixpoint split_once_char (c : Z) (s : list Z) : option (list Z * list Z) :=
  match s with
  | [] => None
  | x :: s' => if x =? c then Some ([], s') else
               match split_once_char c s' with Some (a, b) => Some (x :: a, b) | None => None end
  end.
Fixpoint split_char (c : Z) (s : list Z) : list (list Z) :=
  match s with
  | [] => [[]]
  | x :: s' =>
      if x =? c then [] :: split_char c s'
      else match split_char c s' with p :: ps => (x :: p) :: ps | [] => [[x]] end
  end.
Definition contains_byte (c : Z) (s : list Z) : bool := existsb (Z.eqb c) s.
Definition count_byte (c : Z) (s : list Z) : nat := length (filter (fun x => x = c) s).

(** [split_once] of a non-empty string, and [contains]. *)
Fixpoint split_once_str (p s : list Z) : option (list Z * list Z) :=
  if starts_with s p then Some ([], drop (length p) s) else
  match s with
  | [] => None
  | x :: s' => match split_once_str p s' with Some (a, b) => Some (x :: a, b) | None => None end
  end.
Definition contains_str (s p : list Z) : bool := is_some (split_once_str p s).

(** [join] and [replace] of a character. *)
Fixpoint join (sep : list Z) (ss : list (list Z)) : list Z :=
  match ss with
  | [] => []
  | [s] => s
  | s :: ss => s ++ sep ++ join sep ss
  end.
Definition replace_byte (a b : Z) (s : list Z) : list Z := map (fun x => if x =? a then b else x) s.

(** ** Case *)

Definition to_ascii_lowercase (c : Z) : Z := if (65 <=? c) && (c <=? 90) then c + 32 else c.
Definition is_ascii (s : list Z) : Prop := Forall (fun c => 0 <= c < 128) s.
#[global] Instance is_ascii_dec s : Decision (is_ascii s).
Proof. unfold is_ascii. apply _. Defined.

Class Lowercase : Type := { to_lowercase : list Z -> list Z }.
Class LowercaseLaws `{Lowercase} : Prop := {
  to_lowercase_ascii : forall s, is_ascii s -> to_lowercase s = map to_ascii_lowercase s }.

(** ** Lemmas *)

Lemma starts_with_app s t : starts_with (s ++ t) s = true.
Proof. unfold starts_with. by rewrite take_app_length, bool_decide_eq_true_2. Qed.
Lemma starts_with_inv s p : starts_with s p = true -> exists t, s = p ++ t.
Proof.
  unfold starts_with. intros H%bool_decide_eq_true. exists (drop (length p) s). rewrite <- (take_drop (length p) s) at 1. by rewrite H.
Qed.
Lemma ends_with_app s p : ends_with (s ++ p) p = true.
Proof.
  unfold ends_with. rewrite length_app, (proj2 (Nat.leb_le _ _)) by lia. replace (length s + length p - length p)%nat with (length s) by lia.
  by rewrite drop_app_length, bool_decide_eq_true_2.
Qed.
Lemma ends_with_inv s p : ends_with s p = true -> exists t, s = t ++ p.
Proof.
  unfold ends_with. intros [_ H%bool_decide_eq_true]%andb_true_iff. exists (take (length s - length p) s).
  rewrite <- (take_drop (length s - length p) s) at 1. by rewrite H.
Qed.
Lemma ends_with_true s p : ends_with s p = true <-> exists t, s = t ++ p.
Proof. split; [apply ends_with_inv|]. intros [t ->]. apply ends_with_app. Qed.

Lemma trim_start_head c s : match trim_start c s with [] => True | x :: _ => x <> c end.
Proof. induction s as [|x s IH]; cbn; [done|]. destruct (Z.eqb_spec x c); [done|done]. Qed.
Lemma trim_start_id c s : match s with [] => True | x :: _ => x <> c end -> trim_start c s = s.
Proof. destruct s as [|x s]; [done|]. cbn. intros H. by rewrite (proj2 (Z.eqb_neq _ _)). Qed.
Lemma trim_start_spec c s : exists n, s = replicate n c ++ trim_start c s.
Proof.
  induction s as [|x s [n IH]]; cbn; [by exists O|]. destruct (Z.eqb_spec x c) as [->|]; [|by exists O].
  exists (S n). cbn. by rewrite <- IH.
Qed.

(** No final [c]. *)
Definition no_final (c : Z) (s : list Z) : Prop := list.last s <> Some c.
Lemma no_final_nil c : no_final c [].
Proof. done. Qed.
Lemma trim_end_no_final c s : no_final c (trim_end c s).
Proof.
  unfold no_final, trim_end. rewrite last_reverse. pose proof (trim_start_head c (reverse s)) as H.
  destruct (trim_start c (reverse s)); [done|]. cbn. by intros [=].
Qed.
Lemma trim_end_id c s : no_final c s -> trim_end c s = s.
Proof.
  unfold no_final, trim_end. intros H. rewrite trim_start_id; [by rewrite reverse_involutive|].
  rewrite <- (reverse_involutive s), last_reverse in H. destruct (reverse s); [done|]. cbn in H. congruence.
Qed.
Lemma trim_end_idem c s : trim_end c (trim_end c s) = trim_end c s.
Proof. apply trim_end_id, trim_end_no_final. Qed.
Lemma trim_end_spec c s : exists n, s = trim_end c s ++ replicate n c.
Proof.
  unfold trim_end. destruct (trim_start_spec c (reverse s)) as [n H]. exists n.
  apply (f_equal reverse) in H. rewrite reverse_involutive, reverse_app, reverse_replicate in H. done.
Qed.

Lemma split_char_nonempty c s : split_char c s <> [].
Proof. destruct s as [|x s]; cbn; [done|]. destruct (x =? c); [done|]. by destruct (split_char c s). Qed.
Lemma join_cons sep s ss : ss <> [] -> join sep (s :: ss) = s ++ sep ++ join sep ss.
Proof. by destruct ss. Qed.
Lemma join_split c s : join [c] (split_char c s) = s.
Proof.
  induction s as [|x s IH]; [done|]. cbn. destruct (Z.eqb_spec x c) as [->|].
  - rewrite join_cons by apply split_char_nonempty. cbn. by rewrite IH.
  - destruct (split_char c s) as [|p ps] eqn:E; [by apply split_char_nonempty in E|]. destruct ps; cbn in *; by rewrite <- IH.
Qed.
Lemma split_char_no_sep c s : c ∉ s -> split_char c s = [s].
Proof.
  induction s as [|x s IH]; intros H; [done|]. apply not_elem_of_cons in H as [Hx Hs]. cbn.
  rewrite (proj2 (Z.eqb_neq _ _)) by congruence. by rewrite IH.
Qed.
Lemma split_char_cons c a s : c ∉ a -> split_char c (a ++ c :: s) = a :: split_char c s.
Proof.
  induction a as [|x a IH]; intros H; cbn; [by rewrite Z.eqb_refl|]. apply not_elem_of_cons in H as [Hx Ha].
  rewrite (proj2 (Z.eqb_neq _ _)) by congruence. by rewrite IH.
Qed.
Lemma split_join c ss : ss <> [] -> Forall (fun s => c ∉ s) ss -> split_char c (join [c] ss) = ss.
Proof.
  intros Hne Hs. induction Hs as [|s ss Hs Hss IH]; [done|]. destruct ss as [|t ss]; [by apply split_char_no_sep|].
  rewrite join_cons by done. cbn [app]. by rewrite split_char_cons, IH.
Qed.
Lemma split_char_pieces c s : Forall (fun p => c ∉ p) (split_char c s).
Proof.
  induction s as [|x s IH]; cbn; [repeat constructor; by apply not_elem_of_nil|]. destruct (Z.eqb_spec x c).
  - constructor; [by apply not_elem_of_nil|done].
  - destruct (split_char c s) as [|p ps]; [repeat constructor; by apply not_elem_of_cons; split; [congruence|apply not_elem_of_nil]|].
    apply Forall_cons_1 in IH as [Hp Hps]. constructor; [|done]. apply not_elem_of_cons. split; [congruence|done].
Qed.

Lemma to_ascii_lowercase_idem c : to_ascii_lowercase (to_ascii_lowercase c) = to_ascii_lowercase c.
Proof.
  unfold to_ascii_lowercase. destruct ((65 <=? c) && (c <=? 90)) eqn:E; [|by rewrite E].
  apply andb_true_iff in E as [E1%Z.leb_le E2%Z.leb_le]. destruct ((65 <=? c + 32) && (c + 32 <=? 90)) eqn:F; [|done].
  apply andb_true_iff in F as [_ F2%Z.leb_le]. lia.
Qed.
Lemma to_ascii_lowercase_dot c : to_ascii_lowercase c = DOT <-> c = DOT.
Proof.
  unfold to_ascii_lowercase, DOT. destruct ((65 <=? c) && (c <=? 90)) eqn:E; [|done].
  apply andb_true_iff in E as [E1%Z.leb_le E2%Z.leb_le]. lia.
Qed.
Lemma is_ascii_lower s : is_ascii s -> is_ascii (map to_ascii_lowercase s).
Proof.
  unfold is_ascii. rewrite Forall_map. intros H. eapply list.Forall_impl; [exact H|]. intros c Hc. unfold to_ascii_lowercase.
  destruct ((65 <=? c) && (c <=? 90)) eqn:E; [|done]. apply andb_true_iff in E as [E1%Z.leb_le E2%Z.leb_le]. lia.
Qed.
Lemma is_ascii_app s t : is_ascii (s ++ t) <-> is_ascii s /\ is_ascii t.
Proof. apply list.Forall_app. Qed.
