(* ===== verification/Derp.v ===== *)
(** The DERP relay protocol ([crates/derp]): the frame codec ([frame.rs]), the
    messages a client parses ([protocol.rs]), and the handshake and operations
    of the client ([client.rs]) and of one connection of the server
    ([server.rs]).

    A reader is the list of bytes it still has to deliver, a writer the list of
    bytes written so far; [read_exact] fails when the stream ends early.  The
    JSON codec ([serde_json]), the token bucket (which counts in [f64]) and the
    box cipher are parameters. *)

From S2P Require Import Prelude Bytes IpAddr Keys Utf8.

(** ** [frame.rs] *)

Definition FRAME_HEADER_LEN : nat := 5.
Definition MAX_PACKET_SIZE : Z := Z.shiftl 64 10.
Definition DERP_KEY_LEN : nat := 32.
Definition DERP_NONCE_LEN : nat := 24.
Definition PROTOCOL_VERSION : Z := 2.
Definition DERP_MAGIC : list Z := [0x44; 0x45; 0x52; 0x50; 0xf0; 0x9f; 0x94; 0x91].

Module frame_type.
Definition SERVER_KEY : Z := 0x01.
Definition CLIENT_INFO : Z := 0x02.
Definition SERVER_INFO : Z := 0x03.
Definition SEND_PACKET : Z := 0x04.
Definition RECV_PACKET : Z := 0x05.
Definition KEEP_ALIVE : Z := 0x06.
Definition NOTE_PREFERRED : Z := 0x07.
Definition PEER_GONE : Z := 0x08.
Definition PEER_PRESENT : Z := 0x09.
Definition FORWARD_PACKET : Z := 0x0a.
Definition WATCH_CONNS : Z := 0x10.
Definition CLOSE_PEER : Z := 0x11.
Definition PING : Z := 0x12.
Definition PONG : Z := 0x13.
Definition HEALTH : Z := 0x14.
Definition RESTARTING : Z := 0x15.
End frame_type.

Module peer_gone_reason.
Definition DISCONNECTED : Z := 0x00.
End peer_gone_reason.

Inductive IoError : Type := UnexpectedEof | InvalidData (msg : string).

(** [Read::read_exact] into a buffer of [n] bytes. *)
Definition read_exact (n : Z) (r : list Z) : result IoError (list Z * list Z) :=
  if Z.of_nat (length r) <? n then Err UnexpectedEof
  else Ok (take (Z.to_nat n) r, drop (Z.to_nat n) r).

(** [body.len() as u32]. *)
Definition len_u32 (body : list Z) : Z := wrap32 (Z.of_nat (length body)).

Definition encode_frame_header (typ len : Z) : list Z := typ :: to_be_bytes 4 len.

Definition decode_frame_header (buf : list Z) : Z * Z :=
  (byte_at buf 0, from_be_bytes [byte_at buf 1; byte_at buf 2; byte_at buf 3; byte_at buf 4]).

Definition write_frame_header (w : list Z) (typ len : Z) : list Z := w ++ encode_frame_header typ len.

Definition write_frame (w : list Z) (typ : Z) (body : list Z) : result IoError (list Z) :=
  if Z.of_nat (length body) >? Z.shiftl 10 20 then Err (InvalidData "unreasonably large frame write")
  else Ok (write_frame_header w typ (len_u32 body) ++ body).

Definition read_frame_header (r : list Z) : result IoError ((Z * Z) * list Z) :=
  h ← read_exact (Z.of_nat FRAME_HEADER_LEN) r;
  Ok (decode_frame_header h.1, h.2).

(** [read_frame]: the type, the declared length, the filled buffer and the rest
    of the stream. *)
Definition read_frame (r : list Z) (max_size : Z) : result IoError ((Z * Z * list Z) * list Z) :=
  h ← read_frame_header r;
  if h.1.2 >? max_size then Err (InvalidData "frame size exceeds max")
  else
    b ← read_exact h.1.2 h.2;
    Ok ((h.1.1, h.1.2, b.1), b.2).

(** ** [protocol.rs] *)

Record ClientInfo : Type := {
  ci_mesh_key : list Z; ci_version : Z; ci_can_ack_pings : bool; ci_is_prober : bool }.

Record ServerInfo : Type := {
  si_version : Z; token_bucket_bytes_per_second : Z; token_bucket_bytes_burst : Z }.

Inductive Received : Type :=
| RServerInfo (info : ServerInfo)
| RReceivedPacket (source data : list Z)
| RKeepAlive
| RPeerGone (peer : list Z) (reason : Z)
| RPeerPresent (key : list Z) (ip_port : option SocketAddr) (flags : Z)
| RPing (data : list Z)
| RPong (data : list Z)
| RHealth (problem : list Z)
| RRestarting (reconnect_in try_for : Z).

(** [serde_json]: the serialised forms of the two records. *)
Class Json : Type := {
  server_info_to_vec : ServerInfo -> list Z;
  server_info_from_slice : list Z -> option ServerInfo;
  client_info_to_vec : ClientInfo -> list Z;
  client_info_from_slice : list Z -> option ClientInfo }.

(** Records with fields of their width. *)
Definition server_info_ok (i : ServerInfo) : Prop :=
  is_u32 (si_version i) /\ is_u32 (token_bucket_bytes_per_second i) /\ is_u32 (token_bucket_bytes_burst i).
Definition client_info_ok (i : ClientInfo) : Prop :=
  wf_bytes (ci_mesh_key i) /\ length (ci_mesh_key i) = 32%nat /\ is_u32 (ci_version i).

(** What is serialised reads back, is made of bytes, and is short: the records
    are a few integers, booleans and one 64-digit key. *)
Class JsonLaws `{Json} : Prop := {
  server_info_json : forall i, server_info_ok i -> server_info_from_slice (server_info_to_vec i) = Some i;
  client_info_json : forall i, client_info_ok i -> client_info_from_slice (client_info_to_vec i) = Some i;
  server_info_bytes : forall i, server_info_ok i -> wf_bytes (server_info_to_vec i);
  client_info_bytes : forall i, client_info_ok i -> wf_bytes (client_info_to_vec i);
  server_info_short : forall i, server_info_ok i -> (length (server_info_to_vec i) <= 1024)%nat;
  client_info_short : forall i, client_info_ok i -> (length (client_info_to_vec i) <= 1024)%nat }.

Definition read_node_pub (buf : list Z) : run (list Z) := slice buf 0 32.

Definition ip_from16 (bytes : list Z) : run IpAddr :=
  arr ← slice bytes 0 16;
  Ret (match to_ipv4_mapped arr with Some v4 => V4 v4 | None => V6 arr end).

Section protocol.
Context `{BoxCrypto} `{Json}.

Definition parse_server_info (body private_key server_key : list Z) : option ServerInfo :=
  if (length body <? DERP_NONCE_LEN)%nat then None
  else plaintext ← open_from private_key server_key body; server_info_from_slice plaintext.

Definition parse_peer_present (body : list Z) : run (option Received) :=
  if (length body <? 32)%nat then Ret None
  else
    kb ← slice body 0 32; key ← read_node_pub kb;
    rest ← slice_from body 32;
    ip_port ←
      (if (16 + 2 <=? length rest)%nat then
         ib ← slice rest 0 16; ip ← ip_from16 ib;
         p0 ← idx rest 16; p1 ← idx rest (16 + 1);
         Ret (Some {| ip := ip; port := from_be_bytes [p0; p1] |})
       else Ret None);
    let flags_off := (16 + 2)%nat in
    flags ← (if (flags_off <? length rest)%nat then idx rest flags_off else Ret 0);
    Ret (Some (RPeerPresent key ip_port flags)).

Definition parse_received (typ : Z) (body private_key server_key : list Z) : run (option Received) :=
  if typ =? frame_type.SERVER_INFO then
    Ret (RServerInfo <$> parse_server_info body private_key server_key)
  else if typ =? frame_type.KEEP_ALIVE then Ret (Some RKeepAlive)
  else if typ =? frame_type.PEER_GONE then
    if (length body <? 32)%nat then Ret None
    else
      kb ← slice body 0 32; peer ← read_node_pub kb;
      reason ← (if (32 <? length body)%nat then idx body 32 else Ret peer_gone_reason.DISCONNECTED);
      Ret (Some (RPeerGone peer reason))
  else if typ =? frame_type.PEER_PRESENT then parse_peer_present body
  else if typ =? frame_type.RECV_PACKET then
    if (length body <? 32)%nat then Ret None
    else
      kb ← slice body 0 32; source ← read_node_pub kb;
      data ← slice_from body 32;
      Ret (Some (RReceivedPacket source data))
  else if typ =? frame_type.PING then
    if (length body <? 8)%nat then Ret None else data ← slice body 0 8; Ret (Some (RPing data))
  else if typ =? frame_type.PONG then
    if (length body <? 8)%nat then Ret None else data ← slice body 0 8; Ret (Some (RPong data))
  else if typ =? frame_type.HEALTH then Ret (Some (RHealth (from_utf8_lossy body)))
  else if typ =? frame_type.RESTARTING then
    if (length body <? 8)%nat then Ret None
    else
      a ← idx_range body 0 4; b ← idx_range body 4 4;
      Ret (Some (RRestarting (from_be_bytes a) (from_be_bytes b)))
  else Ret None.

End protocol.

(** ** Asynchronous framing, shared by client and server *)

Definition write_frame_async (w : list Z) (typ : Z) (body : list Z) : list Z :=
  w ++ encode_frame_header typ (len_u32 body) ++ body.

(** ** [client.rs] *)

Inductive DerpError : Type :=
| Io (e : IoError)
| BadFrame (msg : string)
| BadMagic
| BadServerInfo (msg : string)
| Key (e : KeyError)
| PacketTooLarge (n : nat)
| ServerKeyMismatch (expected actual : list Z).

Definition io {A} (r : result IoError A) : result DerpError A :=
  match r with Ok a => Ok a | Err e => Err (Io e) end.

Definition read_frame_async (r : list Z) (max_size : Z) : result DerpError ((Z * list Z) * list Z) :=
  h ← io (read_exact (Z.of_nat FRAME_HEADER_LEN) r);
  let '(typ, len) := decode_frame_header h.1 in
  if len >? max_size then Err (BadFrame "frame size exceeds max")
  else b ← io (read_exact len h.2); Ok ((typ, b.1), b.2).

(** The token bucket of [crates/limiter]. *)
Class RateLimiter : Type := {
  bucket : Type;
  bucket_new : Z -> Z -> bucket;
  allow_n : bucket -> Z -> bool * bucket }.

Section client.
Context `{BoxCrypto} `{Json} `{RateLimiter}.

Record DerpClient : Type := {
  stream_in : list Z; stream_out : list Z;
  server_key : list Z; private_key : list Z; public_key : list Z; rate_limiter : option bucket }.

Definition with_in (r : list Z) (c : DerpClient) : DerpClient :=
  {| stream_in := r; stream_out := stream_out c; server_key := server_key c;
     private_key := private_key c; public_key := public_key c; rate_limiter := rate_limiter c |}.
Definition with_out (w : list Z) (c : DerpClient) : DerpClient :=
  {| stream_in := stream_in c; stream_out := w; server_key := server_key c;
     private_key := private_key c; public_key := public_key c; rate_limiter := rate_limiter c |}.
Definition with_server_key (k : list Z) (c : DerpClient) : DerpClient :=
  {| stream_in := stream_in c; stream_out := stream_out c; server_key := k;
     private_key := private_key c; public_key := public_key c; rate_limiter := rate_limiter c |}.
Definition with_limiter (b : option bucket) (c : DerpClient) : DerpClient :=
  {| stream_in := stream_in c; stream_out := stream_out c; server_key := server_key c;
     private_key := private_key c; public_key := public_key c; rate_limiter := b |}.

(** Each operation gives the client back with its result: what was written
    before an error stays written. *)
Definition recv_server_key (c : DerpClient) (expected : option (list Z)) : run (DerpClient * result DerpError unit) :=
  match read_frame_async (stream_in c) 4096 with
  | Err e => Ret (c, Err e)
  | Ok ((typ, body), rest) =>
      let c := with_in rest c in
      if negb (typ =? frame_type.SERVER_KEY) then Ret (c, Err (BadFrame "expected FrameServerKey"))
      else if (length body <? length DERP_MAGIC + 32)%nat then Ret (c, Err BadMagic)
      else
        m ← slice body 0 (length DERP_MAGIC);
        if negb (bool_decide (m = DERP_MAGIC)) then Ret (c, Err BadMagic)
        else
          key ← slice body (length DERP_MAGIC) (length DERP_MAGIC + 32);
          let c := with_server_key key c in
          match expected with
          | Some expected_key =>
              if negb (is_zero expected_key) && negb (bool_decide (expected_key = server_key c))
              then Ret (c, Err (ServerKeyMismatch expected_key (server_key c)))
              else Ret (c, Ok tt)
          | None => Ret (c, Ok tt)
          end
  end.

Definition client_info : ClientInfo :=
  {| ci_mesh_key := replicate 32 0; ci_version := PROTOCOL_VERSION; ci_can_ack_pings := true; ci_is_prober := false |}.

Definition send_client_key (c : DerpClient) (nonce : list Z) : DerpClient * result DerpError unit :=
  match seal_to (private_key c) (server_key c) nonce (client_info_to_vec client_info) with
  | Err e => (c, Err (Key e))
  | Ok msgbox =>
      (with_out (write_frame_async (stream_out c) frame_type.CLIENT_INFO (public_key c ++ msgbox)) c, Ok tt)
  end.

Definition configure_rate_limiter (c : DerpClient) (info : ServerInfo) : DerpClient :=
  if token_bucket_bytes_per_second info >? 0 then
    with_limiter (Some (bucket_new (token_bucket_bytes_per_second info) (token_bucket_bytes_burst info))) c
  else c.

Definition recv_server_info (c : DerpClient) : run (DerpClient * result DerpError unit) :=
  match read_frame_async (stream_in c) (MAX_PACKET_SIZE * 2) with
  | Err e => Ret (c, Err e)
  | Ok ((typ, body), rest) =>
      let c := with_in rest c in
      if negb (typ =? frame_type.SERVER_INFO) then Ret (c, Err (BadFrame "expected FrameServerInfo"))
      else
        m ← parse_received typ body (private_key c) (server_key c);
        match m with
        | Some (RServerInfo info) => Ret (configure_rate_limiter c info, Ok tt)
        | _ => Ret (c, Err (BadServerInfo "failed to open ServerInfo box"))
        end
  end.

(** [DerpClient::from_stream]; the nonce is the one [seal_to] draws. *)
Definition from_stream (stream private : list Z) (expected_server_key : option (list Z)) (nonce : list Z)
  : run (DerpClient * result DerpError unit) :=
  public ← key_public private;
  let client := {| stream_in := stream; stream_out := []; server_key := replicate 32 0;
                   private_key := private; public_key := public; rate_limiter := None |} in
  r ← recv_server_key client expected_server_key;
  match r with
  | (client, Err e) => Ret (client, Err e)
  | (client, Ok _) =>
      match send_client_key client nonce with
      | (client, Err e) => Ret (client, Err e)
      | (client, Ok _) => recv_server_info client
      end
  end.

(** [DerpClient::recv]: frames that do not parse are skipped; [fuel] bounds the
    frames read. *)
Fixpoint recv_loop (fuel : nat) (c : DerpClient) : run (option (DerpClient * result DerpError Received)) :=
  match fuel with
  | O => Ret None
  | S fuel' =>
      match read_frame_async (stream_in c) (MAX_PACKET_SIZE * 2) with
      | Err e => Ret (Some (c, Err e))
      | Ok ((typ, body), rest) =>
          let c := with_in rest c in
          m ← parse_received typ body (private_key c) (server_key c);
          match m with
          | Some msg => Ret (Some (c, Ok msg))
          | None => recv_loop fuel' c
          end
      end
  end.
Definition recv (c : DerpClient) : run (option (DerpClient * result DerpError Received)) :=
  recv_loop (S (length (stream_in c))) c.

(** The limiter's verdict on a frame of [n] bytes. *)
Definition limited (c : DerpClient) (n : Z) : bool * DerpClient :=
  match rate_limiter c with
  | Some limiter => let '(ok, limiter) := allow_n limiter n in (negb ok, with_limiter (Some limiter) c)
  | None => (false, c)
  end.

Definition send_packet (c : DerpClient) (dst pkt : list Z) : DerpClient * result DerpError unit :=
  if Z.of_nat (length pkt) >? MAX_PACKET_SIZE then (c, Err (PacketTooLarge (length pkt)))
  else
    let '(drop, c) := limited c (wrap32 (Z.of_nat (FRAME_HEADER_LEN + 32 + length pkt))) in
    if drop then (c, Ok tt)
    else (with_out (write_frame_async (stream_out c) frame_type.SEND_PACKET (dst ++ pkt)) c, Ok tt).

Definition forward_packet (c : DerpClient) (src dst pkt : list Z) : DerpClient * result DerpError unit :=
  if Z.of_nat (length pkt) >? MAX_PACKET_SIZE then (c, Err (PacketTooLarge (length pkt)))
  else
    let '(drop, c) := limited c (wrap32 (Z.of_nat (FRAME_HEADER_LEN + 64 + length pkt))) in
    if drop then (c, Ok tt)
    else (with_out (write_frame_async (stream_out c) frame_type.FORWARD_PACKET (src ++ dst ++ pkt)) c, Ok tt).

Definition note_preferred (c : DerpClient) (preferred : bool) : DerpClient :=
  with_out (write_frame_async (stream_out c) frame_type.NOTE_PREFERRED [if preferred then 1 else 0]) c.
Definition send_ping (c : DerpClient) (data : list Z) : DerpClient :=
  with_out (write_frame_async (stream_out c) frame_type.PING data) c.
Definition send_pong (c : DerpClient) (data : list Z) : DerpClient :=
  with_out (write_frame_async (stream_out c) frame_type.PONG data) c.
Definition watch_conns (c : DerpClient) : DerpClient :=
  with_out (write_frame_async (stream_out c) frame_type.WATCH_CONNS []) c.
Definition close_peer (c : DerpClient) (target : list Z) : DerpClient :=
  with_out (write_frame_async (stream_out c) frame_type.CLOSE_PEER target) c.

End client.
