(* ===== verification/DerpServer.v ===== *)
(** The DERP server ([crates/derp/src/server.rs]): the handshake and the read,
    send and clean-up work of every connection, over the shared map of clients.

    A connection is a task; its awaits are the points where it can be suspended,
    and between two of them it runs alone (the map is behind a lock).  [op] lists
    these atomic pieces of work of all the connections, together with what the
    network does, and [run_op] executes one; an execution is any sequence of
    enabled operations.

    [tokio::select!] drops the futures of the branches that lose: the bytes a
    cancelled [read_exact] has taken from the stream are gone.  [Header got] keeps
    these bytes, so that a keep-alive tick loses them as in the code. *)

From S2P Require Import Prelude Bytes IpAddr Keys Utf8 Derp.

Definition MAX_FRAME_SIZE : Z := MAX_PACKET_SIZE * 2.
Definition SEND_QUEUE_DEPTH : nat := 32.

Inductive Outbound : Type :=
| ORecvPacket (src data : list Z)
| OPeerGone (peer : list Z) (reason : Z)
| OPong (data : list Z)
| OKeepAlive.

(** ** Handshake *)

Definition read_frame_header_async (r : list Z) : result IoError ((Z * Z) * list Z) :=
  h ← read_exact (Z.of_nat FRAME_HEADER_LEN) r; Ok (decode_frame_header h.1, h.2).

Definition read_frame_body_async (r : list Z) (len : Z) : result IoError (list Z * list Z) :=
  if len >? MAX_FRAME_SIZE then Err (InvalidData "frame size exceeds max") else read_exact len r.

Section handshake.
Context `{BoxCrypto} `{Json}.

Definition recv_client_key (r shared_private : list Z) : run (option ((list Z * ClientInfo) * list Z)) :=
  match read_frame_header_async r with
  | Err _ => Ret None
  | Ok ((typ, len), r) =>
      if negb (typ =? frame_type.CLIENT_INFO) then Ret None
      else if negb ((Z.of_nat (DERP_KEY_LEN + DERP_NONCE_LEN) <=? len) && (len <=? Z.shiftl 256 10)) then Ret None
      else
        match read_frame_body_async r len with
        | Err _ => Ret None
        | Ok (body, r) =>
            if (length body <? DERP_KEY_LEN)%nat then Ret None
            else
              client_key ← slice body 0 DERP_KEY_LEN;
              msgbox ← slice_from body DERP_KEY_LEN;
              Ret (plaintext ← open_from shared_private client_key msgbox;
                   info ← client_info_from_slice plaintext;
                   Some ((client_key, info), r))
        end
  end.

Definition server_info : ServerInfo :=
  {| si_version := PROTOCOL_VERSION; token_bucket_bytes_per_second := 0; token_bucket_bytes_burst := 0 |}.

(** Steps 1 to 3 of [serve_client]: the bytes written, and the client's key, its
    information and the unread bytes when the handshake succeeds. *)
Definition serve_handshake (private public nonce r : list Z)
  : run (list Z * option ((list Z * ClientInfo) * list Z)) :=
  let w := write_frame_async [] frame_type.SERVER_KEY (DERP_MAGIC ++ public) in
  k ← recv_client_key r private;
  match k with
  | None => Ret (w, None)
  | Some ((client_key, info), r) =>
      match seal_to private client_key nonce (server_info_to_vec server_info) with
      | Err _ => Ret (w, None)
      | Ok si_box => Ret (write_frame_async w frame_type.SERVER_INFO si_box, Some ((client_key, info), r))
      end
  end.

End handshake.

(** ** Connections *)

(** Where the task of a connection is:
    - [Registering]: the handshake is done, [register_client] comes next;
    - [Header got]: in the [select!] of [run_read_loop], the pending header read
      having taken [got];
    - [Body typ len got]: in a handler, reading the body of a frame;
    - [Sending d m]: awaiting room in the queue of connection [d];
    - [Leaving]: the read or send loop has returned, [unregister_client] is next;
    - [Announcing]: unregistered as the current client, the broadcast is next;
    - [Closed]: the task is over and its queue dropped. *)
Inductive Phase : Type :=
| Registering
| Header (got : list Z)
| Body (typ len : Z) (got : list Z)
| Sending (d : nat) (m : Outbound)
| Leaving
| Announcing
| Closed.

(** [writing] is what the send loop still has to write of the message it took
    from the queue; [notified] the permit of [close_notify]. *)
Record Conn : Type := {
  c_key : list Z; c_in : list Z; c_out : list Z; c_writing : option (list Z);
  c_queue : list Outbound; c_notified : bool; c_phase : Phase }.

Record Server : Type := { clients : gmap (list Z) nat; conns : list Conn }.

Definition with_phase (p : Phase) (c : Conn) : Conn :=
  {| c_key := c_key c; c_in := c_in c; c_out := c_out c; c_writing := c_writing c;
     c_queue := c_queue c; c_notified := c_notified c; c_phase := p |}.
Definition with_input (l : list Z) (c : Conn) : Conn :=
  {| c_key := c_key c; c_in := l; c_out := c_out c; c_writing := c_writing c;
     c_queue := c_queue c; c_notified := c_notified c; c_phase := c_phase c |}.
Definition with_written (out : list Z) (w : option (list Z)) (c : Conn) : Conn :=
  {| c_key := c_key c; c_in := c_in c; c_out := out; c_writing := w;
     c_queue := c_queue c; c_notified := c_notified c; c_phase := c_phase c |}.
Definition with_queue (q : list Outbound) (c : Conn) : Conn :=
  {| c_key := c_key c; c_in := c_in c; c_out := c_out c; c_writing := c_writing c;
     c_queue := q; c_notified := c_notified c; c_phase := c_phase c |}.
Definition with_notified (b : bool) (c : Conn) : Conn :=
  {| c_key := c_key c; c_in := c_in c; c_out := c_out c; c_writing := c_writing c;
     c_queue := c_queue c; c_notified := b; c_phase := c_phase c |}.

Definition on_conn (i : nat) (f : Conn -> Conn) (s : Server) : Server :=
  {| clients := clients s; conns := alter f i (conns s) |}.
Definition with_clients (m : gmap (list Z) nat) (s : Server) : Server :=
  {| clients := m; conns := conns s |}.

(** ** The shared map *)

Definition register_client (s : Server) (key : list Z) (c : nat) : Server :=
  let s' := with_clients (<[key := c]> (clients s)) s in
  match clients s !! key with
  | Some old => on_conn old (with_notified true) s'
  | None => s'
  end.

Definition unregister_client (s : Server) (key : list Z) (ours : nat) : Server * bool :=
  match clients s !! key with
  | Some entry => if (entry =? ours)%nat then (with_clients (delete key (clients s)) s, true) else (s, false)
  | None => (s, false)
  end.

Definition lookup_dst (s : Server) (dst : list Z) : option nat := clients s !! dst.

Definition is_closed (c : Conn) : bool := match c_phase c with Closed => true | _ => false end.

(** Room in the bounded channel of a connection: [None] when it is closed. *)
Definition room (s : Server) (d : nat) : option bool :=
  match conns s !! d with
  | Some c => if is_closed c then None else Some (length (c_queue c) <? SEND_QUEUE_DEPTH)%nat
  | None => None
  end.

Definition push (m : Outbound) (c : Conn) : Conn := with_queue (c_queue c ++ [m]) c.

(** What happened, for stating theorems: connection [c] handled a packet for
    [dst] and found connection [d] there; connection [c] put [m] on [d]'s queue. *)
Inductive Event : Type :=
| EvRelay (c : nat) (dst data : list Z) (d : option nat)
| EvEnqueue (c d : nat) (m : Outbound).

(** [try_send]: nothing happens when the channel is full or closed. *)
Definition try_send (c : nat) (s : Server) (d : nat) (m : Outbound) : Server * list Event :=
  match room s d with
  | Some true => (on_conn d (push m) s, [EvEnqueue c d m])
  | _ => (s, [])
  end.

Fixpoint broadcast_loop (c : nat) (gone_key : list Z) (reason : Z) (l : list (list Z * nat)) (s : Server)
  : Server * list Event :=
  match l with
  | [] => (s, [])
  | (key, d) :: l' =>
      let '(s, ev) :=
        if bool_decide (key = gone_key) then (s, []) else try_send c s d (OPeerGone gone_key reason) in
      let '(s, ev') := broadcast_loop c gone_key reason l' s in
      (s, ev ++ ev')
  end.
Definition broadcast_peer_gone (c : nat) (s : Server) (gone_key : list Z) (reason : Z) : Server * list Event :=
  broadcast_loop c gone_key reason (map_to_list (clients s)) s.

(** ** The read loop *)

(** The match on the frame type, up to the reading of the body. *)
Definition on_header (typ len : Z) : Phase :=
  if typ =? frame_type.SEND_PACKET then
    if len <? Z.of_nat DERP_KEY_LEN then Leaving
    else if len >? MAX_FRAME_SIZE then Leaving else Body typ len []
  else if typ =? frame_type.PING then
    if len <? 8 then Leaving
    else if len >? MAX_FRAME_SIZE then Leaving else Body typ len []
  else if len >? 0 then Body typ len [] else Header [].

(** [handle_send_packet] once the body is read. *)
Definition handle_send_packet (s : Server) (c : nat) (src body : list Z) : run (Phase * list Event) :=
  dst ← slice body 0 DERP_KEY_LEN;
  data ← slice_from body DERP_KEY_LEN;
  if Z.of_nat (length data) >? MAX_PACKET_SIZE then Ret (Leaving, [])
  else
    match lookup_dst s dst with
    | Some d => Ret (Sending d (ORecvPacket src data), [EvRelay c dst data (Some d)])
    | None => Ret (Header [], [EvRelay c dst data None])
    end.

(** [handle_ping] once the body is read. *)
Definition handle_ping (c : nat) (body : list Z) : run (Phase * list Event) :=
  payload ← slice body 0 8; Ret (Sending c (OPong payload), []).

Definition on_body (s : Server) (c : nat) (key : list Z) (typ : Z) (body : list Z) : run (Phase * list Event) :=
  if typ =? frame_type.SEND_PACKET then handle_send_packet s c key body
  else if typ =? frame_type.PING then handle_ping c body
  else Ret (Header [], []).

(** The send loop's encoding of a message. *)
Definition outbound_frame (m : Outbound) : list Z :=
  match m with
  | ORecvPacket src data => write_frame_async [] frame_type.RECV_PACKET (src ++ data)
  | OPeerGone peer reason => write_frame_async [] frame_type.PEER_GONE (peer ++ [reason])
  | OPong data => write_frame_async [] frame_type.PONG data
  | OKeepAlive => write_frame_async [] frame_type.KEEP_ALIVE []
  end.

(** The two loops of the connection are running. *)
Definition active (c : Conn) : bool :=
  match c_phase c with Header _ | Body _ _ _ | Sending _ _ => true | _ => false end.

(** ** Operations *)

Inductive op : Type :=
| Connect (nonce bytes : list Z)
| Register (c : nat)
| Feed (c : nat) (bytes : list Z)
| Read (c n : nat)
| ReadError (c : nat)
| Tick (c : nat)
| CloseNotified (c : nat)
| Send (c : nat)
| Pop (c : nat)
| WriteSome (c n : nat)
| WriteError (c : nat)
| Unregister (c : nat)
| Broadcast (c : nat).

Definition enabled {A} (a : A) : run (option A) := Ret (Some a).
Definition disabled {A} : run (option A) := Ret None.

(** A read of [n] bytes by the connection's pending [read_exact]. *)
Definition read_op (s : Server) (c : nat) (cn : Conn) (n : nat) : run (option (Server * list Event)) :=
  let chunk := take n (c_in cn) in
  let move (p : Phase) := on_conn c (fun cn => with_phase p (with_input (drop n (c_in cn)) cn)) s in
  if negb ((1 <=? n)%nat && (n <=? length (c_in cn))%nat) then disabled
  else
    match c_phase cn with
    | Header got =>
        let got := got ++ chunk in
        if (length got <? FRAME_HEADER_LEN)%nat then enabled (move (Header got), [])
        else if (FRAME_HEADER_LEN <? length got)%nat then disabled
        else let '(typ, len) := decode_frame_header got in enabled (move (on_header typ len), [])
    | Body typ len got =>
        let got := got ++ chunk in
        if Z.of_nat (length got) <? len then enabled (move (Body typ len got), [])
        else if len <? Z.of_nat (length got) then disabled
        else r ← on_body s c (c_key cn) typ got; enabled (move r.1, r.2)
    | _ => disabled
    end.

(** [Sender::send]: it waits while the channel is full and fails when it is
    closed, which the handlers ignore and the keep-alive branch does not. *)
Definition send_op (s : Server) (c d : nat) (m : Outbound) : run (option (Server * list Event)) :=
  match room s d with
  | Some true => enabled (on_conn c (with_phase (Header [])) (on_conn d (push m) s), [EvEnqueue c d m])
  | Some false => disabled
  | None =>
      let next := match m with OKeepAlive => Leaving | _ => Header [] end in
      enabled (on_conn c (with_phase next) s, [])
  end.

Definition write_op (s : Server) (c : nat) (cn : Conn) (n : nat) : run (option (Server * list Event)) :=
  match c_writing cn with
  | Some b =>
      if active cn && (1 <=? n)%nat && (n <=? length b)%nat then
        let left := if (n <? length b)%nat then Some (drop n b) else None in
        enabled (on_conn c (with_written (c_out cn ++ take n b) left) s, [])
      else disabled
  | None => disabled
  end.

(** The work of an existing connection. *)
Definition conn_op (s : Server) (o : op) (c : nat) (cn : Conn) : run (option (Server * list Event)) :=
  match o, c_phase cn with
  | Register _, Registering => enabled (on_conn c (with_phase (Header [])) (register_client s (c_key cn) c), [])
  | Feed _ bytes, _ => enabled (on_conn c (with_input (c_in cn ++ bytes)) s, [])
  | Read _ n, _ => read_op s c cn n
  | ReadError _, Header _ | ReadError _, Body _ _ _ => enabled (on_conn c (with_phase Leaving) s, [])
  | Tick _, Header _ => enabled (on_conn c (with_phase (Sending c OKeepAlive)) s, [])
  | CloseNotified _, Header _ =>
      if c_notified cn then enabled (on_conn c (fun cn => with_phase Leaving (with_notified false cn)) s, [])
      else disabled
  | Send _, Sending d m => send_op s c d m
  | Pop _, _ =>
      match c_writing cn, c_queue cn with
      | None, m :: q =>
          if active cn then
            enabled (on_conn c (fun cn => with_queue q (with_written (c_out cn) (Some (outbound_frame m)) cn)) s, [])
          else disabled
      | _, _ => disabled
      end
  | WriteSome _ n, _ => write_op s c cn n
  | WriteError _, _ =>
      match c_writing cn with
      | Some _ => if active cn then enabled (on_conn c (with_phase Leaving) s, []) else disabled
      | None => disabled
      end
  | Unregister _, Leaving =>
      let '(s, was_current) := unregister_client s (c_key cn) c in
      enabled (on_conn c (with_phase (if was_current then Announcing else Closed)) s, [])
  | Broadcast _, Announcing =>
      let '(s, ev) := broadcast_peer_gone c s (c_key cn) peer_gone_reason.DISCONNECTED in
      enabled (on_conn c (with_phase Closed) s, ev)
  | _, _ => disabled
  end.

Definition conn_of (o : op) : option nat :=
  match o with
  | Connect _ _ => None
  | Register c | Feed c _ | Read c _ | ReadError c | Tick c | CloseNotified c | Send c | Pop c
  | WriteSome c _ | WriteError c | Unregister c | Broadcast c => Some c
  end.

Section server.
Context `{BoxCrypto} `{Json}.
Variable private : list Z.

(** Steps 1 to 3 of [serve_client] for a client that sends [bytes], with the
    24-byte nonce [seal_to] draws; a failed handshake leaves nothing behind. *)
Definition connect_op (s : Server) (nonce bytes : list Z) : run (option (Server * list Event)) :=
  if negb (length nonce =? NONCE_LEN)%nat then disabled else
  r ← serve_handshake private (derive_public private) nonce bytes;
  match r with
  | (_, None) => disabled
  | (w, Some ((key, _), rest)) =>
      let cn := {| c_key := key; c_in := rest; c_out := w; c_writing := None; c_queue := [];
                   c_notified := false; c_phase := Registering |} in
      enabled ({| clients := clients s; conns := conns s ++ [cn] |}, [])
  end.

Definition run_op (s : Server) (o : op) : run (option (Server * list Event)) :=
  match o, conn_of o with
  | Connect nonce bytes, _ => connect_op s nonce bytes
  | _, Some c => match conns s !! c with Some cn => conn_op s o c cn | None => disabled end
  | _, None => disabled
  end.

Definition init : Server := {| clients := ∅; conns := [] |}.

(** Executions: a state and the events on the way to it. *)
Inductive reachable : list Event -> Server -> Prop :=
| reach_init : reachable [] init
| reach_step tr s o s' ev :
    reachable tr s -> run_op s o = Ret (Some (s', ev)) -> reachable (tr ++ ev) s'.

(** The same, by execution of a list of operations. *)
Fixpoint run_ops (s : Server) (tr : list Event) (l : list op) : option (Server * list Event) :=
  match l with
  | [] => Some (s, tr)
  | o :: l' =>
      match run_op s o with
      | Ret (Some (s', ev)) => run_ops s' (tr ++ ev) l'
      | _ => None
      end
  end.

Lemma run_ops_reachable l : forall s tr s' tr',
  reachable tr s -> run_ops s tr l = Some (s', tr') -> reachable tr' s'.
Proof.
  induction l as [|o l IH]; intros s tr s' tr' Hr E; cbn in E; [by simplify_eq|].
  destruct (run_op s o) as [[[s1 ev]|]|] eqn:Eo; try done. eapply IH; [|done]. by econstructor.
Qed.

End server.
