(* ===== verification/DerpSpec.v ===== *)
(** Theorems on the DERP codec and client: frames read back as they were
    written, every received frame parses to a well-formed message or to nothing,
    [recv] returns, the handshake of client and server succeeds and a pinned
    server key is enforced before anything is sent. *)

From S2P Require Import Prelude Bytes IpAddr Keys Utf8 Disco Derp DerpServer.

(** ** Frames *)

Lemma read_exact_app n a r : Z.of_nat (length a) = n -> read_exact n (a ++ r) = Ok (a, r).
Proof.
  intros <-. unfold read_exact. rewrite (proj2 (Z.ltb_ge _ _)) by (rewrite length_app; lia).
  rewrite Nat2Z.id. by rewrite take_app_length, drop_app_length.
Qed.

Lemma read_exact_short n r : Z.of_nat (length r) < n -> read_exact n r = Err UnexpectedEof.
Proof. intros Hn. unfold read_exact. by rewrite (proj2 (Z.ltb_lt _ _)). Qed.

Lemma read_exact_inv n r a r' :
  0 <= n -> read_exact n r = Ok (a, r') -> r = a ++ r' /\ Z.of_nat (length a) = n.
Proof.
  intros Hn. unfold read_exact. destruct (Z.ltb_spec (Z.of_nat (length r)) n); [done|]. intros [= <- <-].
  split; [by rewrite take_drop|]. rewrite length_take. lia.
Qed.

Lemma length_frame_header typ len : length (encode_frame_header typ len) = FRAME_HEADER_LEN.
Proof. done. Qed.

Lemma decode_encode_header typ len : is_u32 len -> decode_frame_header (encode_frame_header typ len) = (typ, len).
Proof.
  intros Hl. unfold decode_frame_header, encode_frame_header. f_equal.
  change (from_be_bytes (to_be_bytes 4 len) = len). by apply from_to_be_bytes_small.
Qed.

Lemma len_u32_small body : Z.of_nat (length body) < 2 ^ 32 -> len_u32 body = Z.of_nat (length body).
Proof. intros Hl. unfold len_u32, wrap32. apply Z.mod_small. lia. Qed.

Lemma len_u32_range body : is_u32 (len_u32 body).
Proof. unfold len_u32, wrap32, is_u32. apply Z.mod_pos_bound. lia. Qed.

Lemma write_frame_async_app w typ body : write_frame_async w typ body = w ++ write_frame_async [] typ body.
Proof. done. Qed.

Lemma read_header_written typ body r :
  read_exact (Z.of_nat FRAME_HEADER_LEN) (write_frame_async [] typ body ++ r)
  = Ok (encode_frame_header typ (len_u32 body), body ++ r).
Proof. unfold write_frame_async. rewrite app_nil_l, <- app_assoc. by apply read_exact_app. Qed.

Lemma read_frame_async_written typ body r max :
  Z.of_nat (length body) < 2 ^ 32 -> Z.of_nat (length body) <= max ->
  read_frame_async (write_frame_async [] typ body ++ r) max = Ok ((typ, body), r).
Proof.
  intros Hl Hm. unfold read_frame_async. rewrite read_header_written. cbn [io mbind result_bind fst snd].
  rewrite decode_encode_header, len_u32_small by (done || apply len_u32_range).
  rewrite Z.gtb_ltb, (proj2 (Z.ltb_ge _ _)) by lia. by rewrite read_exact_app.
Qed.

(** Writing and reading a sequence of frames. *)
Fixpoint write_frames (w : list Z) (l : list (Z * list Z)) : result IoError (list Z) :=
  match l with
  | [] => Ok w
  | (typ, body) :: l' => w ← write_frame w typ body; write_frames w l'
  end.

Fixpoint read_frames (n : nat) (r : list Z) (max_size : Z) : result IoError (list (Z * list Z) * list Z) :=
  match n with
  | O => Ok ([], r)
  | S n' =>
      f ← read_frame r max_size;
      fs ← read_frames n' f.2 max_size;
      Ok ((f.1.1.1, f.1.2) :: fs.1, fs.2)
  end.

Definition frame_bytes (f : Z * list Z) : list Z := encode_frame_header f.1 (len_u32 f.2) ++ f.2.

Lemma write_frame_ok w typ body :
  Z.of_nat (length body) <= Z.shiftl 10 20 -> write_frame w typ body = Ok (w ++ frame_bytes (typ, body)).
Proof.
  intros Hl. unfold write_frame. rewrite Z.gtb_ltb, (proj2 (Z.ltb_ge _ _)) by done.
  unfold write_frame_header, frame_bytes. by rewrite <- app_assoc.
Qed.

Lemma write_frames_ok l : forall w,
  Forall (fun f => Z.of_nat (length f.2) <= Z.shiftl 10 20) l ->
  write_frames w l = Ok (w ++ concat (map frame_bytes l)).
Proof.
  induction l as [|[typ body] l IH]; intros w Hf; cbn [write_frames]; [by rewrite app_nil_r|].
  apply list.Forall_cons in Hf as [Hb Hf]. rewrite write_frame_ok by done. cbn [mbind result_bind].
  rewrite IH by done. cbn [map concat]. by rewrite app_assoc.
Qed.

Lemma read_frame_bytes f r max :
  Z.of_nat (length f.2) <= Z.shiftl 10 20 ->
  read_frame (frame_bytes f ++ r) max =
    if Z.of_nat (length f.2) <=? max then Ok ((f.1, Z.of_nat (length f.2), f.2), r)
    else Err (InvalidData "frame size exceeds max").
Proof.
  intros Hl. unfold read_frame, read_frame_header, frame_bytes. rewrite <- app_assoc, read_exact_app by done.
  cbn [mbind result_bind fst snd]. change (Z.shiftl 10 20) with 10485760 in Hl.
  rewrite decode_encode_header, len_u32_small by (lia || apply len_u32_range). cbn [fst snd].
  rewrite Z.gtb_ltb, Z.ltb_antisym. destruct (Z.of_nat (length f.2) <=? max); [|done]. by rewrite read_exact_app.
Qed.

Lemma read_frames_written l : forall r max,
  Forall (fun f => Z.of_nat (length f.2) <= Z.shiftl 10 20 /\ Z.of_nat (length f.2) <= max) l ->
  read_frames (length l) (concat (map frame_bytes l) ++ r) max = Ok (l, r).
Proof.
  induction l as [|[typ body] l IH]; intros r max Hf; [done|]. apply list.Forall_cons in Hf as [[H1 H2] Hf].
  cbn [map concat length read_frames]. rewrite <- app_assoc, read_frame_bytes by done.
  rewrite (proj2 (Z.leb_le _ _)) by done. cbn [mbind result_bind fst snd]. by rewrite IH.
Qed.

Lemma read_frame_truncated f k max :
  Z.of_nat (length f.2) <= Z.shiftl 10 20 -> Z.of_nat (length f.2) <= max ->
  (k < length (frame_bytes f))%nat -> read_frame (take k (frame_bytes f)) max = Err UnexpectedEof.
Proof.
  intros Hl Hm Hk. unfold read_frame, read_frame_header. destruct (decide (k < FRAME_HEADER_LEN)%nat) as [Hs|Hs].
  - rewrite read_exact_short; [done|]. rewrite length_take. lia.
  - unfold frame_bytes in *. rewrite length_app, length_frame_header in Hk.
    rewrite take_app_ge by (rewrite length_frame_header; lia). rewrite read_exact_app by done.
    cbn [mbind result_bind fst snd]. change (Z.shiftl 10 20) with 10485760 in Hl.
    rewrite decode_encode_header, len_u32_small by (lia || apply len_u32_range). cbn [fst snd].
    rewrite Z.gtb_ltb, (proj2 (Z.ltb_ge _ _)) by lia. rewrite read_exact_short; [done|].
    rewrite length_take, length_frame_header. lia.
Qed.

(** Frames on a stream: any sequence of frames written one after the other,
    none above ten mebibytes, is read back frame by frame, types and bodies
    unchanged, up to exactly the bytes that follow; a body above the reader's
    limit is refused before it is read, a body above ten mebibytes is not
    written, and a stream cut anywhere inside a frame reports the end of the
    stream. *)
Theorem derp_frames_roundtrip (l : list (Z * list Z)) (rest : list Z) (max_size : Z) :
  Forall (fun f => Z.of_nat (length f.2) <= Z.shiftl 10 20) l ->
  exists w, write_frames [] l = Ok w /\
    (Forall (fun f => Z.of_nat (length f.2) <= max_size) l -> read_frames (length l) (w ++ rest) max_size = Ok (l, rest)) /\
    (forall typ body, Z.of_nat (length body) > Z.shiftl 10 20 ->
       write_frame w typ body = Err (InvalidData "unreasonably large frame write")) /\
    (forall f, f ∈ l -> exists b, write_frame [] f.1 f.2 = Ok b /\
       (Z.of_nat (length f.2) > max_size -> forall r, read_frame (b ++ r) max_size = Err (InvalidData "frame size exceeds max")) /\
       (Z.of_nat (length f.2) <= max_size ->
          forall k, (k < length b)%nat -> read_frame (take k b) max_size = Err UnexpectedEof)).
Proof.
  intros Hf. exists (concat (map frame_bytes l)). split_and!.
  - by rewrite write_frames_ok.
  - intros Hm. apply read_frames_written. by apply list.Forall_and.
  - intros typ body Hb. unfold write_frame. by rewrite Z.gtb_ltb, (proj2 (Z.ltb_lt _ _)) by lia.
  - intros [typ body] Hin. rewrite list.Forall_forall in Hf. specialize (Hf _ Hin). exists (frame_bytes (typ, body)).
    split_and!; [by rewrite write_frame_ok|intros Hm r|intros Hm k Hk; by apply read_frame_truncated].
    rewrite read_frame_bytes by done. by rewrite (proj2 (Z.leb_gt _ _)) by (cbn in *; lia).
Qed.

Lemma derp_frames_roundtrip_witness :
  exists w, write_frames [] [(0x12, [1; 2; 3; 4; 5; 6; 7; 8]); (0x06, [])] = Ok w /\
    read_frames 2 (w ++ [9]) 100 = Ok ([(0x12, [1; 2; 3; 4; 5; 6; 7; 8]); (0x06, [])], [9]).
Proof.
  edestruct (derp_frames_roundtrip [(0x12, [1; 2; 3; 4; 5; 6; 7; 8]); (0x06, [])] [9] 100) as (w & Hw & Hr & _).
  - apply (bool_decide_unpack _). vm_compute. exact I.
  - exists w. split; [exact Hw|]. apply Hr. apply (bool_decide_unpack _). vm_compute. exact I.
Defined.

(** ** Received messages *)

(** A Unicode scalar value. *)
Definition is_scalar (c : Z) : Prop := 0 <= c < 0xd800 \/ 0xe000 <= c <= 0x10ffff.

Lemma land_low b k : 0 <= k -> Z.land b (Z.ones k) = b mod 2 ^ k.
Proof. apply Z.land_ones. Qed.

Lemma in_range_spec b lo hi : in_range b lo hi = true <-> lo <= b <= hi.
Proof. unfold in_range. rewrite andb_true_iff, !Z.leb_le. done. Qed.

Ltac low_bits :=
  change 63 with (Z.ones 6) in *; change 31 with (Z.ones 5) in *;
  change 15 with (Z.ones 4) in *; change 7 with (Z.ones 3) in *;
  rewrite !land_low by lia;
  change (2 ^ 6) with 64; change (2 ^ 5) with 32; change (2 ^ 4) with 16; change (2 ^ 3) with 8;
  Z.div_mod_to_equations; lia.

Lemma second_of_three_range b0 b1 :
  second_of_three b0 b1 = true ->
  (b0 = 0xe0 /\ 0xa0 <= b1 <= 0xbf) \/ (0xe1 <= b0 <= 0xec /\ 0x80 <= b1 <= 0xbf) \/
  (b0 = 0xed /\ 0x80 <= b1 <= 0x9f) \/ (0xee <= b0 <= 0xef /\ 0x80 <= b1 <= 0xbf).
Proof.
  unfold second_of_three. rewrite !orb_true_iff, !andb_true_iff, !Z.eqb_eq, !in_range_spec. tauto.
Qed.

Lemma second_of_four_range b0 b1 :
  second_of_four b0 b1 = true ->
  (b0 = 0xf0 /\ 0x90 <= b1 <= 0xbf) \/ (0xf1 <= b0 <= 0xf3 /\ 0x80 <= b1 <= 0xbf) \/
  (b0 = 0xf4 /\ 0x80 <= b1 <= 0x8f).
Proof.
  unfold second_of_four. rewrite !orb_true_iff, !andb_true_iff, !Z.eqb_eq, !in_range_spec. tauto.
Qed.

Lemma three_byte_scalar b0 b1 b2 :
  second_of_three b0 b1 = true -> is_scalar (Z.land b0 15 * 4096 + Z.land b1 63 * 64 + Z.land b2 63).
Proof.
  intros H. apply second_of_three_range in H. unfold is_scalar.
  destruct H as [[-> H]|[[H0 H]|[[-> H]|[H0 H]]]]; low_bits.
Qed.

Lemma four_byte_scalar b0 b1 b2 b3 :
  second_of_four b0 b1 = true ->
  is_scalar (Z.land b0 7 * 262144 + Z.land b1 63 * 4096 + Z.land b2 63 * 64 + Z.land b3 63).
Proof.
  intros H. apply second_of_four_range in H. unfold is_scalar.
  destruct H as [[-> H]|[[H0 H]|[-> H]]]; low_bits.
Qed.

Lemma next_char_scalar src : wf_bytes src -> is_scalar (default 0xfffd (next_char src).1) /\ (1 <= (next_char src).2)%nat.
Proof.
  intros Hw. assert (is_scalar 0xfffd) as Hr by (right; lia).
  pose proof (byte_at_u8 src 0 Hw) as H0. unfold is_u8 in H0. unfold next_char.
  destruct (Z.ltb_spec (byte_at src 0) 128); [cbn; split; [left; lia|lia]|].
  destruct (in_range _ 0xc2 0xdf) eqn:E2.
  { destruct (is_continuation _); cbn; (split; [|lia]); [|done]. apply in_range_spec in E2. left. low_bits. }
  destruct (in_range _ 0xe0 0xef).
  { destruct (second_of_three _ _) eqn:E; [|cbn; split; [done|lia]].
    destruct (is_continuation _); cbn; (split; [|lia]); [by apply three_byte_scalar|done]. }
  destruct (in_range _ 0xf0 0xf4); [|cbn; split; [done|lia]].
  destruct (second_of_four _ _) eqn:E; [|cbn; split; [done|lia]].
  destruct (is_continuation _); [|cbn; split; [done|lia]].
  destruct (is_continuation _); cbn; (split; [|lia]); [by apply four_byte_scalar|done].
Qed.

Lemma utf8_lossy_scalar fuel : forall src, wf_bytes src ->
  Forall is_scalar (utf8_lossy_loop fuel src) /\ (length (utf8_lossy_loop fuel src) <= fuel)%nat.
Proof.
  induction fuel as [|fuel IH]; intros src Hw; [done|].
  destruct src as [|b src]; [cbn; split; [done|lia]|]. cbn [utf8_lossy_loop].
  destruct (next_char_scalar (b :: src) Hw) as [Hs _]. destruct (IH (drop (next_char (b :: src)).2 (b :: src))) as [H1 H2].
  { by apply wf_bytes_drop. }
  split; [by constructor|cbn [length]; lia].
Qed.

Definition received_ok (m : Received) : Prop :=
  match m with
  | RServerInfo _ | RKeepAlive => True
  | RReceivedPacket source data => is_bytes 32 source /\ wf_bytes data
  | RPeerGone peer reason => is_bytes 32 peer /\ is_u8 reason
  | RPeerPresent key ip_port flags =>
      is_bytes 32 key /\ (forall a, ip_port = Some a -> wf_ip (ip a) /\ is_u16 (port a)) /\ is_u8 flags
  | RPing data | RPong data => is_bytes 8 data
  | RHealth problem => Forall is_scalar problem
  | RRestarting a b => is_u32 a /\ is_u32 b
  end.

(** The least body of each type that is parsed without a key. *)
Definition min_body (typ : Z) : option nat :=
  if typ =? frame_type.KEEP_ALIVE then Some 0%nat
  else if typ =? frame_type.PEER_GONE then Some 32%nat
  else if typ =? frame_type.PEER_PRESENT then Some 32%nat
  else if typ =? frame_type.RECV_PACKET then Some 32%nat
  else if typ =? frame_type.PING then Some 8%nat
  else if typ =? frame_type.PONG then Some 8%nat
  else if typ =? frame_type.HEALTH then Some 0%nat
  else if typ =? frame_type.RESTARTING then Some 8%nat
  else None.

(** A parser that gives nothing below [n] bytes and a well-formed message from
    [n] bytes on. *)
Definition parses_from (n : nat) (body : list Z) (m : run (option Received)) : Prop :=
  ((length body < n)%nat /\ m = Ret None) \/
  ((n <= length body)%nat /\ exists msg, m = Ret (Some msg) /\ received_ok msg).

Lemma parses_from_if n body (k : run (option Received)) :
  ((n <= length body)%nat -> exists msg, k = Ret (Some msg) /\ received_ok msg) ->
  parses_from n body (if (length body <? n)%nat then Ret None else k).
Proof.
  intros Hk. destruct (Nat.ltb_spec (length body) n) as [Hl|Hl]; [by left|]. right. split; [done|]. by apply Hk.
Qed.

Lemma read_node_pub_field body : (32 <= length body)%nat -> read_node_pub (field body 0 32) = Ret (field body 0 32).
Proof.
  intros Hl. unfold read_node_pub. rewrite slice_field by (rewrite length_field; lia).
  f_equal. unfold field. rewrite !drop_0, take_take. f_equal.
Qed.

Ltac node_pub :=
  rewrite (slice_field _ 0 32) by lia; rewrite run_bind_Ret;
  change (32 - 0)%nat with 32%nat; rewrite read_node_pub_field, run_bind_Ret by lia.

Lemma ip_from16_ok b : wf_bytes b -> (16 <= length b)%nat -> exists a, ip_from16 b = Ret a /\ wf_ip a.
Proof.
  intros Hw Hl. unfold ip_from16. rewrite slice_field, run_bind_Ret by lia. eexists. split; [done|].
  change (16 - 0)%nat with 16%nat. pose proof (field_bytes b 0 16 Hw ltac:(lia)) as Hb. by apply map_from_16_wf in Hb.
Qed.

Lemma parse_peer_present_ok body : wf_bytes body -> parses_from 32 body (parse_peer_present body).
Proof.
  intros Hw. apply parses_from_if. intros Hl. node_pub. rewrite slice_from_ok, run_bind_Ret by lia.
  assert (wf_bytes (drop 32 body)) as Hd by by apply wf_bytes_drop.
  assert (exists o, (if (16 + 2 <=? length (drop 32 body))%nat then
            ib ← slice (drop 32 body) 0 16; ip ← ip_from16 ib;
            p0 ← idx (drop 32 body) 16; p1 ← idx (drop 32 body) (16 + 1);
            Ret (Some {| ip := ip; port := from_be_bytes [p0; p1] |}) else Ret None) = Ret o /\
          (forall a, o = Some a -> wf_ip (ip a) /\ is_u16 (port a))) as (o & -> & Ho).
  { destruct (Nat.leb_spec (16 + 2) (length (drop 32 body))) as [Hr|Hr]; [|by exists None].
    rewrite (slice_field _ 0 16), run_bind_Ret by lia. change (16 - 0)%nat with 16%nat.
    destruct (ip_from16_ok (field (drop 32 body) 0 16)) as (a & -> & Ha);
      [by apply field_bytes; [|lia]|rewrite length_field; lia|].
    rewrite run_bind_Ret, !idx_byte_at, !run_bind_Ret by lia. eexists. split; [done|].
    intros b [= <-]. split; [done|]. cbn [port].
    pose proof (byte_at_u8 _ 16 Hd) as H0. pose proof (byte_at_u8 _ (16 + 1) Hd) as H1.
    pose proof (from_be_bytes_bound [byte_at (drop 32 body) 16; byte_at (drop 32 body) (16 + 1)]) as Hb.
    apply Hb. repeat constructor; apply H0 || apply H1. }
  rewrite run_bind_Ret. cbv zeta.
  destruct (Nat.ltb_spec (16 + 2) (length (drop 32 body))) as [Hf|Hf].
  - rewrite idx_byte_at, run_bind_Ret by lia. eexists. split; [done|].
    split_and!; [by apply field_bytes; [|lia]..|done|by apply byte_at_u8].
  - rewrite run_bind_Ret. eexists. split; [done|]. split_and!; [by apply field_bytes; [|lia]..|done|done].
Qed.

Section parse.
Context `{BoxCrypto} `{Json}.

Lemma parse_received_ok typ body priv srv :
  wf_bytes body -> typ <> frame_type.SERVER_INFO ->
  match min_body typ with
  | Some n => parses_from n body (parse_received typ body priv srv)
  | None => parse_received typ body priv srv = Ret None
  end.
Proof.
  intros Hw Hs. apply Z.eqb_neq in Hs. unfold parse_received, min_body. rewrite Hs.
  destruct (typ =? frame_type.KEEP_ALIVE); [right; split; [lia|by eexists]|].
  destruct (typ =? frame_type.PEER_GONE).
  { apply parses_from_if. intros Hl. node_pub. destruct (Nat.ltb_spec 32 (length body)).
    - rewrite idx_byte_at, run_bind_Ret by done. eexists. split; [done|].
      split; [by apply field_bytes; [|lia]|by apply byte_at_u8].
    - eexists. split; [done|]. by split; [apply field_bytes; [|lia]|]. }
  destruct (typ =? frame_type.PEER_PRESENT); [by apply parse_peer_present_ok|].
  destruct (typ =? frame_type.RECV_PACKET).
  { apply parses_from_if. intros Hl. node_pub. rewrite slice_from_ok, run_bind_Ret by done. eexists. split; [done|].
    split; [by apply field_bytes; [|lia]|by apply wf_bytes_drop]. }
  destruct (typ =? frame_type.PING).
  { apply parses_from_if. intros Hl. rewrite slice_field, run_bind_Ret by lia. eexists. split; [done|].
    by apply field_bytes; [|lia]. }
  destruct (typ =? frame_type.PONG).
  { apply parses_from_if. intros Hl. rewrite slice_field, run_bind_Ret by lia. eexists. split; [done|].
    by apply field_bytes; [|lia]. }
  destruct (typ =? frame_type.HEALTH).
  { right. split; [lia|]. eexists. split; [done|]. by apply utf8_lossy_scalar. }
  destruct (typ =? frame_type.RESTARTING); [|done].
  apply parses_from_if. intros Hl. rewrite (idx_range_field _ 0 4), run_bind_Ret by lia.
  rewrite idx_range_field, run_bind_Ret by lia. eexists. split; [done|].
  split; by apply (field_int body _ 4); [|lia].
Qed.

Lemma parse_received_returns typ body priv srv :
  exists o, parse_received typ body priv srv = Ret o.
Proof.
  assert (forall n (k : run (option Received)), ((n <= length body)%nat -> exists o, k = Ret o) ->
    exists o, (if (length body <? n)%nat then Ret None else k) = Ret o) as Hif.
  { intros n k Hk. destruct (Nat.ltb_spec (length body) n); [by eexists|by apply Hk]. }
  unfold parse_received, parse_peer_present.
  repeat match goal with |- context [if typ =? ?t then _ else _] => destruct (typ =? t) end; try (by eexists);
    apply Hif; intros Hl; try node_pub.
  - destruct (Nat.ltb_spec 32 (length body)); [rewrite idx_byte_at by done|]; by eexists.
  - rewrite slice_from_ok, run_bind_Ret by done. cbv zeta.
    destruct (Nat.leb_spec (16 + 2) (length (drop 32 body))).
    + rewrite (slice_field _ 0 16), run_bind_Ret by lia. unfold ip_from16.
      rewrite slice_field, !run_bind_Ret by (rewrite length_field; lia).
      rewrite (idx_byte_at _ 16), (idx_byte_at _ (16 + 1)), !run_bind_Ret by lia.
      destruct (Nat.ltb_spec (16 + 2) (length (drop 32 body))); [rewrite idx_byte_at by done|]; by eexists.
    + rewrite run_bind_Ret. destruct (Nat.ltb_spec (16 + 2) (length (drop 32 body))); [lia|]. by eexists.
  - rewrite slice_from_ok by done. by eexists.
  - rewrite slice_ok by lia. by eexists.
  - rewrite slice_ok by lia. by eexists.
  - rewrite (idx_range_field _ 0 4), run_bind_Ret, idx_range_field by lia. by eexists.
Qed.

(** [parse_received] on every frame: it returns, whatever the type and the
    body; a message it gives is well-formed (keys of 32 bytes, payloads of 8,
    addresses and ports of their width, text made of Unicode scalar values,
    durations of 32 bits); and apart from the sealed server information it gives
    one exactly when the type is known and the body has the type's least
    length. *)
Theorem derp_parse_typed (typ : Z) (body priv srv : list Z) :
  wf_bytes body ->
  exists o, parse_received typ body priv srv = Ret o /\
    (forall m, o = Some m -> received_ok m) /\
    (typ <> frame_type.SERVER_INFO ->
       (is_Some o <-> exists n, min_body typ = Some n /\ (n <= length body)%nat)).
Proof.
  intros Hw. destruct (parse_received_returns typ body priv srv) as [o Ho]. exists o. split; [done|].
  destruct (decide (typ = frame_type.SERVER_INFO)) as [->|Hs].
  - split; [|done]. intros m ->. unfold parse_received in Ho. rewrite Z.eqb_refl in Ho.
    destruct (parse_server_info _ _ _); [|done]. by injection Ho as <-.
  - pose proof (parse_received_ok typ body priv srv Hw Hs) as Hp. rewrite Ho in Hp.
    destruct (min_body typ) as [n|].
    + destruct Hp as [[Hl E]|[Hl (m & E & Hm)]]; injection E as ->.
      * split; [done|]. intros _. split; [by intros []|]. intros (k & [= ->] & Hk). lia.
      * split; [by intros ? [= <-]|]. intros _. split; [intros _; by exists n|by eexists].
    + injection Hp as ->. split; [done|]. intros _. split; [by intros []|]. by intros (? & ? & _).
Qed.

End parse.

(** ** The client's receive loop *)

Lemma from_be4_nonneg (a b c d : Z) : wf_bytes [a; b; c; d] -> 0 <= from_be_bytes [a; b; c; d].
Proof. intros H. by apply from_be_bytes_bound. Qed.

Lemma read_frame_async_suffix r max typ body rest :
  wf_bytes r -> read_frame_async r max = Ok ((typ, body), rest) ->
  exists h, r = h ++ body ++ rest /\ length h = FRAME_HEADER_LEN /\ Z.of_nat (length body) <= max.
Proof.
  intros Hw. unfold read_frame_async. destruct (read_exact _ r) as [[h r']|] eqn:Eh; [|done].
  cbn [io mbind result_bind fst snd]. destruct (decode_frame_header h) as [t len] eqn:Ed.
  apply read_exact_inv in Eh as [-> Hh]; [|cbn; lia]. apply wf_bytes_app in Hw as [Hwh _].
  assert (0 <= len) as Hlen.
  { injection Ed as _ <-. apply from_be4_nonneg. repeat constructor; by apply byte_at_u8. }
  rewrite Z.gtb_ltb. destruct (Z.ltb_spec max len); [done|].
  destruct (read_exact len r') as [[b r2]|] eqn:Eb; [|done]. cbn [io mbind result_bind fst snd]. intros [= <- <- <-].
  apply read_exact_inv in Eb as [-> Hb]; [|done]. exists h. split_and!; [done|by apply Nat2Z.inj|lia].
Qed.

Section receive.
Context `{BoxCrypto} `{Json} `{RateLimiter}.

Lemma recv_loop_returns fuel : forall c,
  wf_bytes (stream_in c) -> (length (stream_in c) < fuel)%nat ->
  exists c' r, recv_loop fuel c = Ret (Some (c', r)) /\
    (exists used, stream_in c = used ++ stream_in c') /\ c' = with_in (stream_in c') c.
Proof.
  induction fuel as [|fuel IH]; intros c Hw Hl; [lia|]. cbn [recv_loop].
  destruct (read_frame_async _ _) as [[[typ body] rest]|e] eqn:E.
  - apply read_frame_async_suffix in E as (h & Er & Hh & _); [|done].
    destruct (parse_received_returns typ body (private_key (with_in rest c)) (server_key (with_in rest c))) as [o ->].
    rewrite run_bind_Ret. rewrite Er in Hw, Hl. rewrite !length_app, Hh in Hl. destruct o as [m|].
    + exists (with_in rest c), (Ok m). split_and!; [done| |done]. exists (h ++ body). rewrite Er. by rewrite <- app_assoc.
    + destruct (IH (with_in rest c)) as (c' & r & E' & (used & Hu) & Hc).
      * cbn. apply wf_bytes_app in Hw as [_ Hw]. by apply wf_bytes_app in Hw as [_ Hw].
      * cbn in *. lia.
      * exists c', r. split_and!; [done| |]; cbn in Hu.
        { exists (h ++ body ++ used). rewrite Er, Hu. by rewrite <- !app_assoc. }
        { rewrite Hc. by destruct c. }
  - exists c, (Err e). split_and!; [done|by exists []|by destruct c].
Qed.

(** [recv] terminates: on every client state it returns a message or an
    error, never loops over the frames it skips for ever (the fuel, one more than
    the bytes left, is never used up); it consumes a prefix of the stream and
    changes nothing else of the client. *)
Theorem derp_recv_returns (c : DerpClient) :
  wf_bytes (stream_in c) ->
  exists c' r, recv c = Ret (Some (c', r)) /\
    (exists used, stream_in c = used ++ stream_in c') /\ c' = with_in (stream_in c') c.
Proof. intros Hw. apply recv_loop_returns; [done|lia]. Qed.

End receive.

(** ** The handshake *)

Section handshake.
Context `{BoxLaws} `{!BoxOverhead} `{JsonLaws} `{RateLimiter}.

Lemma client_info_wf : client_info_ok client_info.
Proof. split; [by apply wf_bytes_replicate0|]. split; [done|]. by apply (bool_decide_unpack _). Qed.
Lemma server_info_wf : server_info_ok server_info.
Proof. by apply (bool_decide_unpack _). Qed.

Lemma recv_client_key_ok ck sk nonce box rest :
  length nonce = NONCE_LEN -> is_zero (derive_public ck) = false -> is_zero sk = false ->
  seal_to ck (derive_public sk) nonce (client_info_to_vec client_info) = Ok box ->
  recv_client_key (write_frame_async [] frame_type.CLIENT_INFO (derive_public ck ++ box) ++ rest) sk
  = Ret (Some ((derive_public ck, client_info), rest)).
Proof.
  intros Hn Hp Hs Hb. pose proof client_info_wf as Hi.
  pose proof (seal_to_length _ _ _ _ _ Hb) as Hl. pose proof (client_info_short _ Hi) as Hc.
  pose proof (derive_public_length ck) as Hk. unfold KEY_LEN, NONCE_LEN in *.
  unfold recv_client_key, read_frame_header_async. rewrite read_header_written. cbn [mbind result_bind fst snd].
  rewrite decode_encode_header, len_u32_small by (apply len_u32_range || (rewrite length_app; lia)).
  rewrite length_app. change (negb (frame_type.CLIENT_INFO =? frame_type.CLIENT_INFO)) with false. cbv iota.
  change (Z.shiftl 256 10) with 262144. change (DERP_KEY_LEN + DERP_NONCE_LEN)%nat with 56%nat.
  rewrite (proj2 (Z.leb_le (Z.of_nat 56) _)) by lia. rewrite (proj2 (Z.leb_le _ 262144)) by lia. cbn [andb negb].
  unfold read_frame_body_async. change MAX_FRAME_SIZE with 131072.
  rewrite Z.gtb_ltb, (proj2 (Z.ltb_ge _ _)) by lia. rewrite read_exact_app by (rewrite length_app; lia).
  unfold DERP_KEY_LEN. rewrite (proj2 (Nat.ltb_ge _ _)) by (rewrite length_app; lia).
  rewrite slice_field, run_bind_Ret by (rewrite length_app; lia). rewrite slice_from_ok, run_bind_Ret by (rewrite length_app; lia).
  rewrite field_here by lia. rewrite drop_app_length' by done.
  rewrite (open_sealed _ _ _ _ _ Hn (client_info_bytes _ Hi) Hp Hs Hb). cbn [mbind option_bind].
  by rewrite client_info_json.
Qed.

Lemma serve_handshake_ok ck sk nc ns cbox sbox rest :
  length nc = NONCE_LEN -> is_zero (derive_public ck) = false -> is_zero sk = false ->
  seal_to ck (derive_public sk) nc (client_info_to_vec client_info) = Ok cbox ->
  seal_to sk (derive_public ck) ns (server_info_to_vec server_info) = Ok sbox ->
  serve_handshake sk (derive_public sk) ns
    (write_frame_async [] frame_type.CLIENT_INFO (derive_public ck ++ cbox) ++ rest)
  = Ret (write_frame_async [] frame_type.SERVER_KEY (DERP_MAGIC ++ derive_public sk) ++
         write_frame_async [] frame_type.SERVER_INFO sbox, Some ((derive_public ck, client_info), rest)).
Proof.
  intros Hn Hp Hs Hc Hb. unfold serve_handshake. rewrite (recv_client_key_ok ck sk nc) by done.
  rewrite run_bind_Ret, Hb. by rewrite write_frame_async_app.
Qed.

Lemma recv_server_key_ok c sk expected rest :
  stream_in c = write_frame_async [] frame_type.SERVER_KEY (DERP_MAGIC ++ derive_public sk) ++ rest ->
  recv_server_key c expected =
    let c' := with_server_key (derive_public sk) (with_in rest c) in
    match expected with
    | Some e => if negb (is_zero e) && negb (bool_decide (e = derive_public sk))
                then Ret (c', Err (ServerKeyMismatch e (derive_public sk))) else Ret (c', Ok tt)
    | None => Ret (c', Ok tt)
    end.
Proof.
  intros E. pose proof (derive_public_length sk) as Hk. unfold KEY_LEN in Hk. unfold recv_server_key.
  rewrite E, read_frame_async_written by (rewrite length_app; cbn [length DERP_MAGIC]; lia).
  change (negb (frame_type.SERVER_KEY =? frame_type.SERVER_KEY)) with false. cbv iota.
  assert (length (DERP_MAGIC ++ derive_public sk) = (length DERP_MAGIC + 32)%nat) as Hl by (rewrite length_app; lia).
  rewrite (proj2 (Nat.ltb_ge _ _)) by lia.
  rewrite (slice_field _ 0), run_bind_Ret by lia. rewrite field_here by lia.
  rewrite bool_decide_true by done. cbn [negb].
  rewrite slice_field, run_bind_Ret by lia. rewrite (field_skip DERP_MAGIC _ _ _ (length DERP_MAGIC)) by done.
  rewrite Nat.sub_diag, field_end by lia. done.
Qed.

Lemma recv_server_info_ok c ck sk ns sbox rest :
  length ns = NONCE_LEN -> is_zero (derive_public sk) = false -> is_zero ck = false ->
  private_key c = ck -> server_key c = derive_public sk ->
  seal_to sk (derive_public ck) ns (server_info_to_vec server_info) = Ok sbox ->
  stream_in c = write_frame_async [] frame_type.SERVER_INFO sbox ++ rest ->
  recv_server_info c = Ret (with_in rest c, Ok tt).
Proof.
  intros Hn Hp Hc Hk Hs Hb E. pose proof server_info_wf as Hi.
  pose proof (seal_to_length _ _ _ _ _ Hb) as Hl. pose proof (server_info_short _ Hi) as Hj.
  unfold NONCE_LEN in *. unfold recv_server_info. change (MAX_PACKET_SIZE * 2) with 131072.
  rewrite E, read_frame_async_written by lia. change (negb (frame_type.SERVER_INFO =? frame_type.SERVER_INFO)) with false.
  cbv iota. unfold parse_received. rewrite Z.eqb_refl. unfold parse_server_info, DERP_NONCE_LEN.
  rewrite (proj2 (Nat.ltb_ge _ _)) by lia. cbn [private_key server_key with_in]. rewrite Hk, Hs.
  rewrite (open_sealed _ _ _ _ _ Hn (server_info_bytes _ Hi) Hp Hc Hb). cbn [mbind option_bind].
  by rewrite server_info_json.
Qed.

Lemma from_stream_ok ck sk nc ns expected cbox sbox rest :
  length ns = NONCE_LEN -> is_zero ck = false -> is_zero (derive_public sk) = false ->
  (forall e, expected = Some e -> is_zero e = true \/ e = derive_public sk) ->
  seal_to ck (derive_public sk) nc (client_info_to_vec client_info) = Ok cbox ->
  seal_to sk (derive_public ck) ns (server_info_to_vec server_info) = Ok sbox ->
  from_stream (write_frame_async [] frame_type.SERVER_KEY (DERP_MAGIC ++ derive_public sk) ++
               write_frame_async [] frame_type.SERVER_INFO sbox ++ rest) ck expected nc
  = Ret ({| stream_in := rest;
            stream_out := write_frame_async [] frame_type.CLIENT_INFO (derive_public ck ++ cbox);
            server_key := derive_public sk; private_key := ck; public_key := derive_public ck;
            rate_limiter := None |}, Ok tt).
Proof.
  intros Hn Hc Hp He Hcb Hsb. unfold from_stream, key_public. rewrite Hc. cbn [negb assert_run]. rewrite !run_bind_Ret.
  rewrite (recv_server_key_ok _ sk _ (write_frame_async [] frame_type.SERVER_INFO sbox ++ rest)) by done. cbv zeta.
  assert (match expected with
    | Some e => if negb (is_zero e) && negb (bool_decide (e = derive_public sk)) then false else true
    | None => true end = true) as Hok.
  { destruct expected as [e|]; [|done]. destruct (He e eq_refl) as [->| ->]; [done|].
    rewrite bool_decide_true by done. by rewrite andb_false_r. }
  match goal with |- ?m ≫= ?f = _ => assert (m = Ret (with_server_key (derive_public sk)
      {| stream_in := write_frame_async [] frame_type.SERVER_INFO sbox ++ rest; stream_out := [];
         server_key := replicate 32 0; private_key := ck; public_key := derive_public ck; rate_limiter := None |}, Ok tt)) as Em end.
  { destruct expected as [e|]; [|done]. by destruct (negb (is_zero e) && _). }
  rewrite Em, run_bind_Ret. unfold send_client_key. cbn [private_key server_key with_server_key stream_out public_key].
  rewrite Hcb. by rewrite (recv_server_info_ok _ ck sk ns sbox rest).
Qed.


End handshake.

Section pinned.
Context `{BoxCrypto} `{Json} `{RateLimiter}.

(** A server key that is accepted is the expected one; nothing is written. *)
Lemma recv_server_key_pinned c e :
  is_zero e = false ->
  exists c' r, recv_server_key c (Some e) = Ret (c', r) /\ stream_out c' = stream_out c /\
    (r = Ok tt -> server_key c' = e).
Proof.
  intros He. unfold recv_server_key.
  destruct (read_frame_async _ _) as [[[typ body] rest]|er]; [|by do 2 eexists].
  destruct (negb _); [by do 2 eexists|].
  destruct (Nat.ltb_spec (length body) (length DERP_MAGIC + 32)); [by do 2 eexists|].
  rewrite (slice_field _ 0), run_bind_Ret by lia. destruct (negb _); [by do 2 eexists|].
  rewrite slice_field, run_bind_Ret by lia. rewrite He. cbn [negb andb].
  case_bool_decide as Hk; cbn [negb]; do 2 eexists; (split; [done|]); [|done]. by split.
Qed.

Lemma send_client_key_server_key c nonce : server_key (send_client_key c nonce).1 = server_key c.
Proof. unfold send_client_key. by destruct (seal_to _ _ _ _). Qed.

Lemma recv_server_info_returns c :
  exists c' r, recv_server_info c = Ret (c', r) /\ server_key c' = server_key c.
Proof.
  unfold recv_server_info. destruct (read_frame_async _ _) as [[[typ body] rest]|er]; [|by do 2 eexists].
  destruct (negb _); [by do 2 eexists|].
  destruct (parse_received_returns typ body (private_key (with_in rest c)) (server_key (with_in rest c))) as [o ->].
  rewrite run_bind_Ret. destruct o as [[]|]; try (by do 2 eexists).
  do 2 eexists. split; [done|]. unfold configure_rate_limiter. by destruct (_ >? 0).
Qed.

(** A pinned server key is enforced: whatever a server sends, a client that
    expects a (non-zero) key returns from [from_stream], and if the key it
    received is not the expected one then the handshake has failed and nothing at
    all has been written to the server. *)
Theorem derp_pinned_key (stream ck e nonce : list Z) :
  is_zero ck = false -> is_zero e = false ->
  exists c r, from_stream stream ck (Some e) nonce = Ret (c, r) /\
    (server_key c <> e -> r <> Ok tt /\ stream_out c = []).
Proof.
  intros Hc He. unfold from_stream, key_public. rewrite Hc. cbn [negb assert_run]. rewrite !run_bind_Ret.
  destruct (recv_server_key_pinned {| stream_in := stream; stream_out := []; server_key := replicate 32 0;
    private_key := ck; public_key := derive_public ck; rate_limiter := None |} e He) as (c1 & r1 & -> & Ho & Hk).
  rewrite run_bind_Ret. destruct r1 as [[]|er]; [|by exists c1, (Err er)]. specialize (Hk eq_refl).
  pose proof (send_client_key_server_key c1 nonce) as Hs. destruct (send_client_key c1 nonce) as [c2 [[]|er]]; cbn in Hs.
  - destruct (recv_server_info_returns c2) as (c3 & r3 & -> & H3). exists c3, r3. split; [done|]. congruence.
  - exists c2, (Err er). split; [done|]. congruence.
Qed.

End pinned.

(** ** Instances with the laws *)

#[local] Existing Instance demo_box.
#[local] Existing Instance demo_box_laws.

#[local] Instance demo_box_overhead : BoxOverhead.
Proof. split. intros b nonce m ct [= <-]. rewrite length_map. lia. Qed.

(** Fixed-width fields instead of JSON. *)
#[local] Instance demo_json : Json :=
  {| server_info_to_vec := fun i => to_be_bytes 4 (si_version i) ++ to_be_bytes 4 (token_bucket_bytes_per_second i)
                                    ++ to_be_bytes 4 (token_bucket_bytes_burst i);
     server_info_from_slice := fun b =>
       if (length b =? 12)%nat then
         Some {| si_version := from_be_bytes (field b 0 4); token_bucket_bytes_per_second := from_be_bytes (field b 4 4);
                 token_bucket_bytes_burst := from_be_bytes (field b 8 4) |}
       else None;
     client_info_to_vec := fun i => ci_mesh_key i ++ to_be_bytes 4 (ci_version i) ++
                                    [if ci_can_ack_pings i then 1 else 0; if ci_is_prober i then 1 else 0];
     client_info_from_slice := fun b =>
       if (length b =? 38)%nat then
         Some {| ci_mesh_key := field b 0 32; ci_version := from_be_bytes (field b 32 4);
                 ci_can_ack_pings := byte_at (drop 36 b) 0 =? 1; ci_is_prober := byte_at (drop 36 b) 1 =? 1 |}
       else None |}.

#[local] Instance demo_json_laws : JsonLaws.
Proof.
  assert (forall z, is_u32 z -> from_be_bytes (to_be_bytes 4 z) = z) as H32 by (intros; by apply from_to_be_bytes_small).
  split.
  - intros [v r b] (Hv & Hr & Hb). cbn -[to_be_bytes field]. cbn in Hv, Hr, Hb.
    change (_ =? 12)%nat with true. cbv iota. do 2 f_equal.
    + rewrite field_here by done. by apply H32.
    + rewrite (field_skip _ _ _ _ 4) by (done || lia). rewrite field_here by done. by apply H32.
    + rewrite !(field_skip _ _ _ _ 4) by (done || lia). rewrite field_end by done. by apply H32.
  - intros [k v a p] (Hk & Hl & Hv). cbn -[to_be_bytes field]. cbn in Hk, Hl, Hv.
    rewrite !length_app, Hl. change (_ =? 38)%nat with true. cbv iota. do 2 f_equal.
    + by apply field_here.
    + rewrite (field_skip _ _ _ _ 32) by (done || lia). rewrite field_here by done. by apply H32.
    + rewrite app_assoc, drop_app_length' by (by rewrite length_app, Hl). by destruct a.
    + rewrite app_assoc, drop_app_length' by (by rewrite length_app, Hl). by destruct p.
  - intros i _. cbn [server_info_to_vec demo_json]. rewrite !wf_bytes_app. split; [|split]; apply wf_to_be_bytes.
  - intros i (Hk & _). cbn [client_info_to_vec demo_json]. rewrite !wf_bytes_app. split; [done|]. split; [apply wf_to_be_bytes|].
    destruct (ci_can_ack_pings i), (ci_is_prober i); by apply (bool_decide_unpack _).
  - intros i _. cbn [server_info_to_vec demo_json]. rewrite !length_app, !length_to_be_bytes. lia.
  - intros i (_ & Hl & _). cbn [client_info_to_vec demo_json]. rewrite !length_app, length_to_be_bytes, Hl. cbn. lia.
Qed.

(** A bucket that counts whole tokens. *)
#[local] Instance demo_limiter : RateLimiter :=
  {| bucket := Z; bucket_new := fun _ burst => burst;
     allow_n := fun b n => if n <=? b then (true, b - n) else (false, b) |}.

Lemma derp_parse_typed_witness :
  exists o, parse_received frame_type.PING [1; 2; 3; 4; 5; 6; 7; 8; 9] [] [] = Ret o /\ is_Some o.
Proof.
  edestruct (derp_parse_typed frame_type.PING [1; 2; 3; 4; 5; 6; 7; 8; 9] [] []) as (o & Ho & _ & Hs).
  - apply (bool_decide_unpack _). vm_compute. exact I.
  - exists o. split; [exact Ho|]. apply Hs; [discriminate|]. exists 8%nat. split; [reflexivity|cbn; lia].
Defined.

Definition demo_client (stream : list Z) : DerpClient :=
  {| stream_in := stream; stream_out := []; server_key := []; private_key := []; public_key := []; rate_limiter := None |}.

Lemma derp_recv_returns_witness :
  exists c' r, recv (demo_client [0x99; 0; 0; 0; 0; 0x06; 0; 0; 0; 0; 7]) = Ret (Some (c', r)) /\
    exists used, [0x99; 0; 0; 0; 0; 0x06; 0; 0; 0; 0; 7] = used ++ stream_in c'.
Proof.
  edestruct (derp_recv_returns (demo_client [0x99; 0; 0; 0; 0; 0x06; 0; 0; 0; 0; 7])) as (c' & r & Hr & Hu & _).
  - apply (bool_decide_unpack _). vm_compute. exact I.
  - exists c', r. split; [exact Hr|exact Hu].
Defined.


Lemma derp_pinned_key_witness :
  exists c r, from_stream (write_frame_async [] frame_type.SERVER_KEY (DERP_MAGIC ++ replicate 32 9)) (replicate 32 3)
      (Some (replicate 32 8)) (replicate 24 7) = Ret (c, r) /\ (server_key c <> replicate 32 8 -> stream_out c = []).
Proof.
  edestruct (derp_pinned_key (write_frame_async [] frame_type.SERVER_KEY (DERP_MAGIC ++ replicate 32 9)) (replicate 32 3)
      (replicate 32 8) (replicate 24 7)) as (c & r & H1 & H2); [reflexivity|reflexivity|].
  exists c, r. split; [exact H1|]. intros Hk. apply H2, Hk.
Defined.
