(* ===== verification/DerpServerSpec.v ===== *)
(** Theorems on the DERP server: an invariant of every interleaving of the
    connections' work, that the newest connection of a key owns it, that queues
    are bounded, where every delivered message comes from and in which order, and
    that a client reads from its connection exactly what was queued for it. *)

From S2P Require Import Prelude Bytes IpAddr Keys Utf8 Disco Derp DerpServer DerpSpec.

(** ** Projections of a trace *)

(** What was put on the queue of [d]. *)
Definition enqueued (tr : list Event) (d : nat) : list Outbound :=
  omap (fun e => match e with
                 | EvEnqueue _ d' m => if decide (d' = d) then Some m else None
                 | _ => None end) tr.

(** The packets connection [c] read for the client behind connection [d]. *)
Definition relayed (tr : list Event) (c d : nat) : list (list Z) :=
  omap (fun e => match e with
                 | EvRelay c' _ data (Some d') => if decide (c' = c /\ d' = d) then Some data else None
                 | _ => None end) tr.

(** The packets connection [c] put on the queue of [d]. *)
Definition delivered (tr : list Event) (c d : nat) : list (list Z) :=
  omap (fun e => match e with
                 | EvEnqueue c' d' (ORecvPacket _ data) => if decide (c' = c /\ d' = d) then Some data else None
                 | _ => None end) tr.

(** ** The invariant *)

Definition keys (s : Server) : list (list Z) := c_key <$> conns s.

(** Where message [m] from connection [c] for connection [d] comes from. *)
Definition msg_ok (ks : list (list Z)) (tr : list Event) (c d : nat) (m : Outbound) : Prop :=
  match m with
  | ORecvPacket src data =>
      ks !! c = Some src /\ exists dst, ks !! d = Some dst /\ EvRelay c dst data (Some d) ∈ tr
  | OPeerGone peer reason =>
      ks !! c = Some peer /\ (exists dst, ks !! d = Some dst /\ dst <> peer) /\ reason = peer_gone_reason.DISCONNECTED
  | OPong data => c = d /\ length data = 8%nat
  | OKeepAlive => c = d
  end.

Definition event_ok (ks : list (list Z)) (tr : list Event) (e : Event) : Prop :=
  match e with
  | EvRelay c dst data od =>
      is_Some (ks !! c) /\ Z.of_nat (length data) <= MAX_PACKET_SIZE /\ (forall d, od = Some d -> ks !! d = Some dst)
  | EvEnqueue c d m => is_Some (ks !! c) /\ is_Some (ks !! d) /\ msg_ok ks tr c d m
  end.

Definition phase_ok (ks : list (list Z)) (tr : list Event) (c : nat) (p : Phase) : Prop :=
  match p with
  | Header got => (length got < FRAME_HEADER_LEN)%nat
  | Body typ len got =>
      Z.of_nat (length got) < len /\ (typ = frame_type.SEND_PACKET -> Z.of_nat DERP_KEY_LEN <= len) /\
      (typ = frame_type.PING -> 8 <= len)
  | Sending d m => is_Some (ks !! d) /\ msg_ok ks tr c d m
  | _ => True
  end.

(** A connection that can be in the map. *)
Definition registered (p : Phase) : bool :=
  match p with Header _ | Body _ _ _ | Sending _ _ | Leaving => true | _ => false end.

Section invariant.
Context `{BoxCrypto} `{Json}.
Variable private : list Z.

Definition hello_ok (key w : list Z) : Prop :=
  exists nonce bytes info rest, length nonce = NONCE_LEN /\
    serve_handshake private (derive_public private) nonce bytes = Ret (w, Some ((key, info), rest)).

(** The bytes of the connection are its handshake and the frames of a prefix of
    the messages queued for it; the rest is still queued. *)
Definition stream_ok (tr : list Event) (c : nat) (cn : Conn) : Prop :=
  exists hello sent,
    c_out cn ++ default [] (c_writing cn) = hello ++ concat (map outbound_frame sent) /\
    sent ++ c_queue cn = enqueued tr c /\ hello_ok (c_key cn) hello.

Record conn_inv (ks : list (list Z)) (tr : list Event) (cl : gmap (list Z) nat) (c : nat) (cn : Conn) : Prop := {
  ci_key : length (c_key cn) = DERP_KEY_LEN;
  ci_queue : (length (c_queue cn) <= SEND_QUEUE_DEPTH)%nat;
  ci_phase : phase_ok ks tr c (c_phase cn);
  ci_stream : stream_ok tr c cn;
  ci_current : active cn = true -> cl !! c_key cn = Some c \/ c_notified cn = true }.

Record inv (tr : list Event) (s : Server) : Prop := {
  inv_conns : forall c cn, conns s !! c = Some cn -> conn_inv (keys s) tr (clients s) c cn;
  inv_map : forall k d, clients s !! k = Some d ->
    exists cn, conns s !! d = Some cn /\ c_key cn = k /\ registered (c_phase cn) = true;
  inv_events : forall e, e ∈ tr -> event_ok (keys s) tr e }.

(** *** Monotonicity *)

Lemma msg_ok_mono ks ks' tr tr' c d m :
  ks `prefix_of` ks' -> (forall e, e ∈ tr -> e ∈ tr') -> msg_ok ks tr c d m -> msg_ok ks' tr' c d m.
Proof.
  intros Hk Ht. destruct m; cbn; [| |done..].
  - intros (H1 & dst & H2 & H3). split; [by eapply prefix_lookup_Some|]. exists dst.
    split; [by eapply prefix_lookup_Some|by apply Ht].
  - intros (H1 & (dst & H2 & H3) & H4). split_and!; [by eapply prefix_lookup_Some| |done].
    exists dst. split; [by eapply prefix_lookup_Some|done].
Qed.

Lemma is_Some_prefix {A} (l l' : list A) i : l `prefix_of` l' -> is_Some (l !! i) -> is_Some (l' !! i).
Proof. intros Hp [x Hx]. exists x. by eapply prefix_lookup_Some. Qed.

Lemma event_ok_mono ks ks' tr tr' e :
  ks `prefix_of` ks' -> (forall e, e ∈ tr -> e ∈ tr') -> event_ok ks tr e -> event_ok ks' tr' e.
Proof.
  intros Hk Ht. destruct e; cbn.
  - intros (H1 & H2 & H3). split_and!; [by eapply is_Some_prefix|done|].
    intros d' ->. eapply prefix_lookup_Some; [by apply H3|done].
  - intros (H1 & H2 & H3). split_and!; [by eapply is_Some_prefix..|by eapply msg_ok_mono].
Qed.

Lemma phase_ok_mono ks ks' tr tr' c p :
  ks `prefix_of` ks' -> (forall e, e ∈ tr -> e ∈ tr') -> phase_ok ks tr c p -> phase_ok ks' tr' c p.
Proof.
  intros Hk Ht. destruct p; cbn; try done. intros [H1 H2]. split; [by eapply is_Some_prefix|by eapply msg_ok_mono].
Qed.

Lemma conn_inv_mono ks ks' tr ev cl cl' c cn :
  ks `prefix_of` ks' -> enqueued ev c = [] ->
  (cl !! c_key cn = Some c -> cl' !! c_key cn = Some c) ->
  conn_inv ks tr cl c cn -> conn_inv ks' (tr ++ ev) cl' c cn.
Proof.
  intros Hk He Hc [H1 H2 H3 (hello & sent & H4 & H5 & H6) H7]. split; [done|done| | |].
  - eapply phase_ok_mono; [done| |done]. intros e ?. apply elem_of_app. by left.
  - exists hello, sent. split_and!; [done| |done]. unfold enqueued in *. by rewrite omap_app, He, app_nil_r.
  - intros Ha. destruct (H7 Ha); [left; by apply Hc|by right].
Qed.

Lemma events_mono ks ks' tr ev :
  ks `prefix_of` ks' -> (forall e, e ∈ tr -> event_ok ks tr e) ->
  (forall e, e ∈ ev -> event_ok ks' (tr ++ ev) e) -> forall e, e ∈ tr ++ ev -> event_ok ks' (tr ++ ev) e.
Proof.
  intros Hk Ht He e [Hin|Hin]%elem_of_app; [|by apply He].
  eapply event_ok_mono; [done| |by apply Ht]. intros x Hx. apply elem_of_app. by left.
Qed.

(** *** Updates of one connection *)

Lemma lookup_on_conn s i f j :
  conns (on_conn i f s) !! j = if decide (i = j) then f <$> conns s !! j else conns s !! j.
Proof. cbn. case_decide as E; [subst; apply list_lookup_alter_eq|by apply list_lookup_alter_ne]. Qed.

Lemma keys_on_conn s i f : (forall cn, c_key (f cn) = c_key cn) -> keys (on_conn i f s) = keys s.
Proof.
  intros Hf. apply list_eq. intros j. unfold keys. rewrite !list_lookup_fmap, lookup_on_conn.
  case_decide; [|done]. destruct (conns s !! j); cbn; [by rewrite Hf|done].
Qed.

Lemma keys_lookup s c cn : conns s !! c = Some cn -> keys s !! c = Some (c_key cn).
Proof. intros E. unfold keys. by rewrite list_lookup_fmap, E. Qed.

Lemma inv_local tr s ev c cn f :
  inv tr s -> conns s !! c = Some cn -> (forall cn, c_key (f cn) = c_key cn) ->
  (forall d, enqueued ev d = []) -> (forall e, e ∈ ev -> event_ok (keys s) (tr ++ ev) e) ->
  conn_inv (keys s) (tr ++ ev) (clients s) c (f cn) ->
  (clients s !! c_key cn = Some c -> registered (c_phase (f cn)) = true) ->
  inv (tr ++ ev) (on_conn c f s).
Proof.
  intros [Hc Hm He] Ec Hf Hn Hev Hcn Hr. split; [|intros k d Hk|].
  - intros j cj. rewrite lookup_on_conn, keys_on_conn by done. case_decide as E; subst; intros Ej.
    + rewrite Ec in Ej. by injection Ej as <-.
    + eapply conn_inv_mono; [done|by apply Hn|done|by apply Hc].
  - destruct (Hm k d Hk) as (dn & Ed & Hkd & Hd). rewrite lookup_on_conn. case_decide as E; [subst|by exists dn].
    rewrite Ec in Ed. injection Ed as <-. exists (f cn). rewrite Ec. split_and!; [done|by rewrite Hf|by apply Hr].
  - rewrite keys_on_conn by done. by apply (events_mono (keys s)).
Qed.

(** A change that only touches the phase, the input and the output. *)
Lemma inv_quiet tr s c cn f :
  inv tr s -> conns s !! c = Some cn -> (forall cn, c_key (f cn) = c_key cn) ->
  conn_inv (keys s) tr (clients s) c (f cn) ->
  (clients s !! c_key cn = Some c -> registered (c_phase (f cn)) = true) -> inv tr (on_conn c f s).
Proof.
  intros Hi Ec Hf Hcn Hr. rewrite <- (app_nil_r tr). eapply inv_local; [done..| |by rewrite app_nil_r|done].
  intros e He. by apply not_elem_of_nil in He.
Qed.

Lemma room_true s d : room s d = Some true ->
  exists dn, conns s !! d = Some dn /\ is_closed dn = false /\ (length (c_queue dn) < SEND_QUEUE_DEPTH)%nat.
Proof.
  unfold room. destruct (conns s !! d) as [dn|]; [|done]. destruct (is_closed dn) eqn:E; [done|].
  intros [= Hq]. exists dn. split_and!; [done|done|by apply Nat.ltb_lt].
Qed.

Lemma inv_push tr s c d m :
  inv tr s -> room s d = Some true -> is_Some (keys s !! c) -> msg_ok (keys s) tr c d m ->
  inv (tr ++ [EvEnqueue c d m]) (on_conn d (push m) s).
Proof.
  intros [Hc Hm He] (dn & Ed & _ & Hq)%room_true Hsc Hok.
  assert (forall cn, c_key (push m cn) = c_key cn) as Hf by done. split; [|intros k j Hk|].
  - intros j cj. rewrite lookup_on_conn, keys_on_conn by done. case_decide as E; subst; intros Ej.
    + rewrite Ed in Ej. injection Ej as <-. destruct (Hc _ _ Ed) as [H1 H2 H3 (hello & sent & H4 & H5 & H6) H7].
      split; [done| | | |done].
      * cbn. rewrite length_app. cbn. lia.
      * eapply phase_ok_mono; [done| |done]. intros e ?. apply elem_of_app. by left.
      * exists hello, sent. split_and!; [done| |done]. cbn [c_queue push with_queue].
        unfold enqueued in *. rewrite omap_app, app_assoc, H5. cbn. by rewrite decide_True.
    + eapply conn_inv_mono; [done| |done|by apply Hc]. cbn. by rewrite decide_False.
  - destruct (Hm k j Hk) as (cn & Ej & Hkj & Hr). rewrite lookup_on_conn. case_decide as E; subst; [|by exists cn].
    rewrite Ej. by exists (push m cn).
  - rewrite keys_on_conn by done. apply (events_mono (keys s)); [done..|].
    intros e ->%list_elem_of_singleton. cbn. split_and!; [done|by eexists; apply keys_lookup|].
    eapply msg_ok_mono; [done| |done]. intros e ?. apply elem_of_app. by left.
Qed.

Lemma conn_inv_with_phase ks tr cl c cn p :
  conn_inv ks tr cl c cn -> phase_ok ks tr c p ->
  (active (with_phase p cn) = true -> active cn = true) -> conn_inv ks tr cl c (with_phase p cn).
Proof. intros [H1 H2 H3 H4 H5] Hp Ha. split; [done..|]. intros Hx. by apply H5, Ha. Qed.

Lemma conn_inv_with_input ks tr cl c cn l : conn_inv ks tr cl c cn -> conn_inv ks tr cl c (with_input l cn).
Proof. by intros [H1 H2 H3 H4 H5]. Qed.

Lemma conn_inv_notified ks tr cl cl' c cn : conn_inv ks tr cl c cn -> conn_inv ks tr cl' c (with_notified true cn).
Proof. intros [H1 H2 H3 H4 H5]. split; [done..|]. by right. Qed.

(** *** Registration *)

(** What [Register] leaves at each index. *)
Lemma register_lookup s c cn j :
  conns s !! c = Some cn ->
  conns (on_conn c (with_phase (Header [])) (register_client s (c_key cn) c)) !! j =
    (if decide (c = j) then with_phase (Header []) else id) <$>
    ((if decide (clients s !! c_key cn = Some j) then with_notified true else id) <$> conns s !! j).
Proof.
  intros Ec. rewrite lookup_on_conn. unfold register_client. destruct (clients s !! c_key cn) as [old|].
  - rewrite lookup_on_conn. cbn [conns with_clients].
    destruct (conns s !! j); cbn; repeat case_decide; simplify_eq; done.
  - cbn [conns with_clients]. destruct (conns s !! j); cbn; repeat case_decide; simplify_eq; done.
Qed.

Lemma register_clients s c cn : clients (on_conn c (with_phase (Header [])) (register_client s (c_key cn) c))
  = <[c_key cn := c]> (clients s).
Proof. cbn. unfold register_client. by destruct (clients s !! c_key cn). Qed.

Lemma register_keys s c cn : keys (on_conn c (with_phase (Header [])) (register_client s (c_key cn) c)) = keys s.
Proof.
  rewrite keys_on_conn by done. unfold register_client.
  destruct (clients s !! c_key cn); [by rewrite keys_on_conn|done].
Qed.

Lemma inv_register tr s c cn :
  inv tr s -> conns s !! c = Some cn -> c_phase cn = Registering ->
  inv tr (on_conn c (with_phase (Header [])) (register_client s (c_key cn) c)).
Proof.
  intros [Hc Hm He] Ec Ep.
  assert (forall k, clients s !! k <> Some c) as Hnot.
  { intros k Hk. destruct (Hm _ _ Hk) as (x & Ex & _ & Hx). rewrite Ec in Ex. injection Ex as <-. by rewrite Ep in Hx. }
  split.
  - intros j cj. rewrite register_lookup, register_clients, register_keys by done. intros Ej.
    destruct (conns s !! j) as [xj|] eqn:Ex; [|done]. pose proof (Hc _ _ Ex) as Hx. cbn [fmap option_fmap option_map] in Ej.
    destruct (decide (c = j)) as [<-|Hcj].
    + rewrite Ec in Ex. injection Ex as <-. rewrite decide_False in Ej by apply Hnot. injection Ej as <-.
      destruct Hx as [H1 H2 H3 H4 H5]. split; [done|done|cbn; unfold FRAME_HEADER_LEN; lia|done|]. intros _. left. by rewrite lookup_insert_eq.
    + destruct (decide (clients s !! c_key cn = Some j)) as [Ho|Ho]; injection Ej as <-.
      * by eapply conn_inv_notified.
      * rewrite <- (app_nil_r tr). eapply conn_inv_mono; [done|done| |done]. cbn. intros Hk.
        rewrite lookup_insert_ne; [done|]. intros E. apply Ho. by rewrite E.
  - intros k d. rewrite register_clients. intros Hk.
    rewrite register_lookup by done. destruct (decide (k = c_key cn)) as [->|Hne].
    + rewrite lookup_insert_eq in Hk. injection Hk as <-. rewrite Ec, decide_True, decide_False by (done || apply Hnot).
      by eexists.
    + rewrite lookup_insert_ne in Hk by done. destruct (Hm _ _ Hk) as (x & Ex & Hkx & Hx). rewrite Ex.
      destruct (decide (c = d)) as [<-|Hcd]; [by apply Hnot in Hk|]. eexists. split; [done|].
      by case_decide.
  - intros e Hin. rewrite register_keys. by apply He.
Qed.

(** *** Leaving *)

Lemma inv_unregister tr s c cn :
  inv tr s -> conns s !! c = Some cn -> c_phase cn = Leaving ->
  let r := unregister_client s (c_key cn) c in
  inv tr (on_conn c (with_phase (if r.2 then Announcing else Closed)) r.1).
Proof.
  intros Hi Ec Ep. pose proof Hi as [Hc Hm He]. cbv zeta. unfold unregister_client.
  assert (forall p, registered p = false -> active (with_phase p cn) = true -> active cn = true) as Hact
    by (intros [] Hp; done).
  destruct (clients s !! c_key cn) as [e|] eqn:El; [destruct (Nat.eqb_spec e c) as [->|Hne]|]; cbn [fst snd].
  - split.
    + intros j cj. rewrite lookup_on_conn, keys_on_conn by done. cbn [conns clients with_clients on_conn].
      change (keys (with_clients _ s)) with (keys s). case_decide as E; [subst|]; intros Ej.
      * rewrite Ec in Ej. injection Ej as <-. destruct (Hc _ _ Ec) as [H1 H2 H3 H4 H5]. by split.
      * rewrite <- (app_nil_r tr). eapply conn_inv_mono; [done|done| |by apply Hc]. intros Hk.
        rewrite lookup_delete_ne; [done|]. intros Eq. rewrite Eq, Hk in El. by injection El as ->.
    + intros k d Hk. cbn [clients with_clients on_conn] in Hk. rewrite lookup_delete_Some in Hk. destruct Hk as [Hne Hk].
      destruct (Hm _ _ Hk) as (x & Ex & Hkx & Hx). rewrite lookup_on_conn. case_decide as E; [subst|by exists x].
      cbn in Ex. rewrite Ec in Ex. by injection Ex as <-.
    + intros ev Hin. rewrite keys_on_conn by done. by apply He.
  - eapply inv_quiet; [done..| |].
    + apply conn_inv_with_phase; [by apply Hc|done|by apply Hact].
    + intros Hk. rewrite El in Hk. by injection Hk.
  - eapply inv_quiet; [done..| |by rewrite El].
    apply conn_inv_with_phase; [by apply Hc|done|by apply Hact].
Qed.

Lemma try_send_inv tr s c d k key :
  inv tr s -> keys s !! c = Some key -> keys s !! d = Some k -> k <> key ->
  let r := try_send c s d (OPeerGone key peer_gone_reason.DISCONNECTED) in
  inv (tr ++ r.2) r.1 /\ keys r.1 = keys s /\ clients r.1 = clients s /\
  (forall j, c_phase <$> conns r.1 !! j = c_phase <$> conns s !! j).
Proof.
  intros Hi Hc Hd Hne. cbv zeta. unfold try_send.
  destruct (room s d) as [[]|] eqn:Er; cbn [fst snd]; [|by rewrite app_nil_r..].
  split_and!; [|by rewrite keys_on_conn|done|].
  - apply inv_push; [done..|]. cbn. split_and!; [done| |done]. by exists k.
  - intros j. rewrite lookup_on_conn. case_decide; [subst|done]. by destruct (conns s !! j).
Qed.

Lemma broadcast_inv c key l : forall tr s,
  inv tr s -> keys s !! c = Some key -> (forall k d, (k, d) ∈ l -> keys s !! d = Some k) ->
  let r := broadcast_loop c key peer_gone_reason.DISCONNECTED l s in
  inv (tr ++ r.2) r.1 /\ keys r.1 = keys s /\ clients r.1 = clients s /\
  (forall j, c_phase <$> conns r.1 !! j = c_phase <$> conns s !! j).
Proof.
  induction l as [|[k d] l IH]; intros tr s Hi Hc Hl; cbv zeta; cbn [broadcast_loop]; [by rewrite app_nil_r|].
  assert (exists r, r = (if bool_decide (k = key) then (s, []) else try_send c s d (OPeerGone key peer_gone_reason.DISCONNECTED)) /\
    inv (tr ++ r.2) r.1 /\ keys r.1 = keys s /\ clients r.1 = clients s /\
    (forall j, c_phase <$> conns r.1 !! j = c_phase <$> conns s !! j)) as ([s1 ev] & <- & H1 & H2 & H3 & H4).
  { eexists. split; [done|]. case_bool_decide; [by rewrite app_nil_r|]. apply (try_send_inv tr s c d k); try done.
    apply Hl. by left. }
  cbn [fst snd] in *. destruct (IH (tr ++ ev) s1) as (H5 & H6 & H7 & H8);
    [done|by rewrite H2|intros k' d' Hin; rewrite H2; apply Hl; by right|].
  destruct (broadcast_loop c key peer_gone_reason.DISCONNECTED l s1) as [s2 ev2]. cbn [fst snd] in *.
  rewrite app_assoc. split_and!; [done|congruence|congruence|]. intros j. by rewrite H8, H4.
Qed.

Lemma inv_broadcast tr s c cn :
  inv tr s -> conns s !! c = Some cn -> c_phase cn = Announcing ->
  let r := broadcast_peer_gone c s (c_key cn) peer_gone_reason.DISCONNECTED in
  inv (tr ++ r.2) (on_conn c (with_phase Closed) r.1).
Proof.
  intros Hi Ec Ep. pose proof Hi as [Hc Hm He]. cbv zeta. unfold broadcast_peer_gone.
  destruct (broadcast_inv c (c_key cn) (map_to_list (clients s)) tr s) as (H1 & H2 & H3 & H4); [done|by apply keys_lookup| |].
  { intros k d Hin. apply elem_of_map_to_list in Hin. destruct (Hm _ _ Hin) as (x & Ex & <- & _). by apply keys_lookup. }
  destruct (broadcast_loop _ _ _ _ _) as [s1 ev]. cbn [fst snd] in *. specialize (H4 c). rewrite Ec in H4.
  destruct (conns s1 !! c) as [cn1|] eqn:Ec1; [|done]. cbn in H4. injection H4 as H4. pose proof H1 as [Hc1 Hm1 _].
  eapply inv_quiet; [done..| |].
  - apply conn_inv_with_phase; [by apply Hc1|done|done].
  - intros Hk. destruct (Hm1 _ _ Hk) as (x & Ex & _ & Hx). rewrite Ec1 in Ex. injection Ex as <-.
    by rewrite H4, Ep in Hx.
Qed.

(** *** New connections *)

Lemma recv_client_key_returns r sk :
  exists o, recv_client_key r sk = Ret o /\
    (forall key info rest, o = Some ((key, info), rest) -> length key = DERP_KEY_LEN).
Proof.
  unfold recv_client_key. destruct (read_frame_header_async r) as [[[typ len] r1]|]; [|by eexists].
  destruct (negb _); [by eexists|]. destruct (negb _); [by eexists|].
  destruct (read_frame_body_async r1 len) as [[body r2]|]; [|by eexists].
  destruct (Nat.ltb_spec (length body) DERP_KEY_LEN); [by eexists|].
  rewrite slice_field, run_bind_Ret by lia. rewrite slice_from_ok, run_bind_Ret by lia. eexists. split; [done|].
  intros key info rest. destruct (open_from _ _ _) as [pt|]; [|done]. cbn [mbind option_bind].
  destruct (client_info_from_slice pt); [|done]. cbn [mbind option_bind]. intros [= <- _ _].
  unfold DERP_KEY_LEN in *. rewrite length_field; lia.
Qed.

Lemma serve_handshake_returns nonce bytes :
  exists w o, serve_handshake private (derive_public private) nonce bytes = Ret (w, o) /\
    (forall key info rest, o = Some ((key, info), rest) -> length key = DERP_KEY_LEN).
Proof.
  unfold serve_handshake. destruct (recv_client_key_returns bytes private) as (o & -> & Ho). rewrite run_bind_Ret.
  destruct o as [[[key info] rest]|]; [|by do 2 eexists]. destruct (seal_to _ _ _ _); [|by do 2 eexists].
  do 2 eexists. split; [done|]. intros k i r [= <- <- <-]. by eapply Ho.
Qed.

Lemma enqueued_fresh ks tr d : (forall e, e ∈ tr -> event_ok ks tr e) -> ks !! d = None -> enqueued tr d = [].
Proof.
  intros He Hd. assert (forall l, (forall e, e ∈ l -> e ∈ tr) -> enqueued l d = []) as Hall; [|by apply Hall].
  induction l as [|e l IH]; intros Hl; [done|]. cbn. fold (enqueued l d).
  rewrite IH by (intros x Hx; apply Hl; by right).
  destruct e as [|c' d' m]; [done|]. case_decide; [subst|done].
  destruct (He (EvEnqueue c' d m)) as (_ & [x Hx] & _); [apply Hl; by left|]. congruence.
Qed.

Lemma inv_connect tr s nonce bytes s' ev :
  inv tr s -> connect_op private s nonce bytes = Ret (Some (s', ev)) -> inv (tr ++ ev) s'.
Proof.
  intros [Hc Hm He]. unfold connect_op. destruct (Nat.eqb_spec (length nonce) NONCE_LEN) as [Hn|]; [|done]. cbn [negb].
  destruct (serve_handshake_returns nonce bytes) as (w & o & Hs & Ho). rewrite Hs, run_bind_Ret.
  destruct o as [[[key info] rest]|]; [|done]. intros [= <- <-]. specialize (Ho _ _ _ eq_refl). rewrite app_nil_r.
  match goal with |- inv _ ?x => set (s' := x) end. assert (keys s `prefix_of` keys s') as Hp.
  { unfold keys, s'. cbn [conns]. rewrite fmap_app. by eexists. }
  split.
  - intros j cj. cbn [conns clients s']. intros [Hj|[Hj Ej]]%lookup_app_Some.
    + rewrite <- (app_nil_r tr). eapply conn_inv_mono; [done|done|done|by apply Hc].
    + destruct (j - length (conns s))%nat eqn:Ed; [|done]. injection Ej as <-.
      split; [done|cbn; lia|done| |done]. exists w, []. split_and!; [done| |by do 4 eexists].
      cbn. symmetry. apply (enqueued_fresh (keys s)); [done|]. unfold keys. rewrite list_lookup_fmap.
      by rewrite lookup_ge_None_2.
  - intros k d Hk. destruct (Hm _ _ Hk) as (x & Ex & Hkx & Hx). exists x. split_and!; [|done..].
    cbn [conns s']. by apply lookup_app_l_Some.
  - intros e Hin. eapply event_ok_mono; [done| |by apply He]. done.
Qed.

(** *** The read loop *)

Lemma on_header_ok ks tr c typ len :
  phase_ok ks tr c (on_header typ len) /\ registered (on_header typ len) = true.
Proof.
  unfold on_header. rewrite !Z.gtb_ltb. unfold DERP_KEY_LEN.
  destruct (Z.eqb_spec typ frame_type.SEND_PACKET) as [->|H1].
  { destruct (Z.ltb_spec len (Z.of_nat 32)); [done|]. destruct (Z.ltb_spec MAX_FRAME_SIZE len); [done|].
    split; [|done]. cbn. unfold DERP_KEY_LEN. split_and!; [lia|lia|done]. }
  destruct (Z.eqb_spec typ frame_type.PING) as [->|H2].
  { destruct (Z.ltb_spec len 8); [done|]. destruct (Z.ltb_spec MAX_FRAME_SIZE len); [done|].
    split; [|done]. cbn. split_and!; [lia|done|lia]. }
  destruct (Z.ltb_spec 0 len); (split; [|done]); cbn; [|unfold FRAME_HEADER_LEN; lia]. split_and!; [lia|done..].
Qed.

(** A relay event only adds itself. *)
Lemma elem_of_app_last tr (e : Event) : e ∈ tr ++ [e].
Proof. apply elem_of_app. right. by left. Qed.

Lemma on_body_ok tr s c cn typ len body :
  inv tr s -> conns s !! c = Some cn ->
  (typ = frame_type.SEND_PACKET -> Z.of_nat DERP_KEY_LEN <= len) -> (typ = frame_type.PING -> 8 <= len) ->
  Z.of_nat (length body) = len ->
  exists p ev, on_body s c (c_key cn) typ body = Ret (p, ev) /\
    phase_ok (keys s) (tr ++ ev) c p /\ registered p = true /\ (forall d, enqueued ev d = []) /\
    (forall e, e ∈ ev -> event_ok (keys s) (tr ++ ev) e).
Proof.
  intros [Hc Hm He] Ec Hs Hp Hl. pose proof (keys_lookup _ _ _ Ec) as Hk. unfold on_body, DERP_KEY_LEN in *.
  assert (forall e : Event, e ∈ [] -> event_ok (keys s) (tr ++ []) e) as Hnil by (intros e Hin; by apply not_elem_of_nil in Hin).
  assert ((0 < FRAME_HEADER_LEN)%nat) as Hh by (unfold FRAME_HEADER_LEN; lia).
  destruct (Z.eqb_spec typ frame_type.SEND_PACKET) as [->|_]; [|destruct (Z.eqb_spec typ frame_type.PING) as [->|_]].
  - specialize (Hs eq_refl). unfold handle_send_packet, DERP_KEY_LEN.
    rewrite slice_field, run_bind_Ret by lia. rewrite slice_from_ok, run_bind_Ret by lia.
    rewrite Z.gtb_ltb. destruct (Z.ltb_spec MAX_PACKET_SIZE (Z.of_nat (length (drop 32 body)))) as [Hx|Hx].
    { by do 2 eexists. }
    destruct (lookup_dst s (field body 0 (32 - 0))) as [d|] eqn:El; do 2 eexists; (split; [done|]).
    + destruct (Hm _ _ El) as (dn & Ed & Hkd & _). pose proof (keys_lookup _ _ _ Ed) as Hd. rewrite Hkd in Hd.
      split_and!; [cbn; split; [by eexists|]|done|done|].
      * split; [done|]. exists (field body 0 (32 - 0)). split; [done|]. apply elem_of_app_last.
      * intros e ->%list_elem_of_singleton. cbn. split_and!; [by eexists|done|]. intros d' [= <-]. done.
    + split_and!; [done..|]. intros e ->%list_elem_of_singleton. cbn. split_and!; [by eexists|done|done].
  - specialize (Hp eq_refl). unfold handle_ping. rewrite slice_field, run_bind_Ret by lia. do 2 eexists. split; [done|].
    split_and!; [|done..]. cbn. split; [by eexists|]. split; [done|]. apply (length_field body 0 8). lia.
  - by do 2 eexists.
Qed.

Lemma read_op_inv tr s c cn n :
  inv tr s -> conns s !! c = Some cn ->
  exists o, read_op s c cn n = Ret o /\ forall s' ev, o = Some (s', ev) -> inv (tr ++ ev) s'.
Proof.
  intros Hi Ec. pose proof Hi as [Hc Hm He]. pose proof (Hc _ _ Ec) as Hcn.
  assert (forall ev p, phase_ok (keys s) (tr ++ ev) c p -> registered p = true ->
    (active cn = true) -> (forall d, enqueued ev d = []) -> (forall e, e ∈ ev -> event_ok (keys s) (tr ++ ev) e) ->
    inv (tr ++ ev) (on_conn c (fun cn => with_phase p (with_input (drop n (c_in cn)) cn)) s)) as Hmove.
  { intros ev p Hp Hr Ha Hn Hev. eapply inv_local; [done..| |done].
    apply conn_inv_with_phase; [|done|done]. apply conn_inv_with_input. eapply conn_inv_mono; [done|by apply Hn|done|done]. }
  unfold read_op. destruct (negb _); [by eexists|]. unfold active in Hmove.
  destruct (c_phase cn) as [|got|typ len got| | | |] eqn:Ep; try (by eexists).
  - destruct (Nat.ltb_spec (length (got ++ take n (c_in cn))) FRAME_HEADER_LEN) as [Hx|Hx].
    { eexists. split; [done|]. intros s' ev [= <- <-]. apply Hmove; try done. intros e Hin. by apply not_elem_of_nil in Hin. }
    destruct (Nat.ltb_spec FRAME_HEADER_LEN (length (got ++ take n (c_in cn)))) as [Hy|Hy]; [by eexists|].
    destruct (decode_frame_header _) as [typ len]. destruct (on_header_ok (keys s) (tr ++ []) c typ len) as [H1 H2].
    eexists. split; [done|]. intros s' ev [= <- <-]. apply Hmove; try done. intros e Hin. by apply not_elem_of_nil in Hin.
  - pose proof (ci_phase _ _ _ _ _ Hcn) as Hp. rewrite Ep in Hp. destruct Hp as (Hp1 & Hp2 & Hp3).
    destruct (Z.ltb_spec (Z.of_nat (length (got ++ take n (c_in cn)))) len) as [Hx|Hx].
    { eexists. split; [done|]. intros s' ev [= <- <-]. apply Hmove; try done. intros e Hin. by apply not_elem_of_nil in Hin. }
    destruct (Z.ltb_spec len (Z.of_nat (length (got ++ take n (c_in cn))))) as [Hy|Hy]; [by eexists|].
    destruct (on_body_ok tr s c cn typ len (got ++ take n (c_in cn))) as (p & ev & -> & H1 & H2 & H3 & H4); [done..|lia|].
    rewrite run_bind_Ret. eexists. split; [done|]. intros s' ev' [= <- <-]. by apply Hmove.
Qed.

(** *** Every operation *)

(** An operation that returns and preserves the invariant. *)
Definition preserves (tr : list Event) (m : run (option (Server * list Event))) : Prop :=
  exists o, m = Ret o /\ forall s' ev, o = Some (s', ev) -> inv (tr ++ ev) s'.

Lemma preserves_disabled tr : preserves tr disabled.
Proof. by exists None. Qed.

Lemma preserves_enabled tr s ev : inv (tr ++ ev) s -> preserves tr (enabled (s, ev)).
Proof. intros Hi. exists (Some (s, ev)). split; [done|]. by intros s' ev' [= <- <-]. Qed.

Lemma preserves_quiet tr s c cn f :
  inv tr s -> conns s !! c = Some cn -> (forall cn, c_key (f cn) = c_key cn) ->
  conn_inv (keys s) tr (clients s) c (f cn) ->
  (clients s !! c_key cn = Some c -> registered (c_phase (f cn)) = true) ->
  preserves tr (enabled (on_conn c f s, [])).
Proof. intros. apply preserves_enabled. rewrite app_nil_r. by eapply inv_quiet. Qed.

Lemma preserves_phase tr s c cn p :
  inv tr s -> conns s !! c = Some cn -> phase_ok (keys s) tr c p -> registered p = true -> active cn = true ->
  preserves tr (enabled (on_conn c (with_phase p) s, [])).
Proof.
  intros Hi Ec Hp Hr Ha. eapply preserves_quiet; [done..| |done].
  apply conn_inv_with_phase; [by apply Hi|done|done].
Qed.

Lemma send_op_inv tr s c cn d m :
  inv tr s -> conns s !! c = Some cn -> c_phase cn = Sending d m -> preserves tr (send_op s c d m).
Proof.
  intros Hi Ec Ep. assert (active cn = true) as Ha by (unfold active; by rewrite Ep).
  assert (forall ks tr, phase_ok ks tr c (Header [])) as Hh by (intros; cbn; unfold FRAME_HEADER_LEN; lia).
  pose proof (ci_phase _ _ _ _ _ (inv_conns _ _ Hi _ _ Ec)) as Hp. rewrite Ep in Hp. destruct Hp as [Hd Hm].
  unfold send_op. destruct (room s d) as [[]|] eqn:Er; [|apply preserves_disabled|].
  - assert (inv (tr ++ [EvEnqueue c d m]) (on_conn d (push m) s)) as Hi'.
    { apply inv_push; [done..|by eexists; apply keys_lookup|done]. }
    assert (exists cn', conns (on_conn d (push m) s) !! c = Some cn' /\ c_phase cn' = c_phase cn) as (cn' & Ec' & Ep').
    { rewrite lookup_on_conn, Ec. case_decide; by eexists. }
    apply preserves_enabled. eapply inv_quiet; [done..| |done].
    apply conn_inv_with_phase; [by apply Hi'|apply Hh|]. intros _. unfold active. by rewrite Ep', Ep.
  - eapply preserves_phase; [done..| | |done]; by destruct m.
Qed.

Lemma write_op_inv tr s c cn n : inv tr s -> conns s !! c = Some cn -> preserves tr (write_op s c cn n).
Proof.
  intros Hi Ec. unfold write_op. destruct (c_writing cn) as [b|] eqn:Ew; [|apply preserves_disabled].
  destruct (active cn && _ && _) eqn:Eg; [|apply preserves_disabled].
  apply andb_true_iff in Eg as [Eg Hn]. apply Nat.leb_le in Hn.
  eapply preserves_quiet; [done..| |].
  - destruct (inv_conns _ _ Hi _ _ Ec) as [H1 H2 H3 (hello & sent & H4 & H5 & H6) H7]. split; [done..| |done].
    exists hello, sent. split_and!; [|done..]. cbn [c_out c_writing with_written].
    rewrite <- H4, Ew, <- app_assoc. f_equal.
    destruct (Nat.ltb_spec n (length b)); cbn; [apply take_drop|]. by rewrite app_nil_r, take_ge by lia.
  - intros Hk. destruct (inv_map _ _ Hi _ _ Hk) as (x & Ex & _ & Hx). rewrite Ec in Ex. by injection Ex as <-.
Qed.

Lemma pop_inv tr s c cn m q :
  inv tr s -> conns s !! c = Some cn -> c_writing cn = None -> c_queue cn = m :: q ->
  inv tr (on_conn c (fun cn => with_queue q (with_written (c_out cn) (Some (outbound_frame m)) cn)) s).
Proof.
  intros Hi Ec Ew Eq. eapply inv_quiet; [done..| |].
  - destruct (inv_conns _ _ Hi _ _ Ec) as [H1 H2 H3 (hello & sent & H4 & H5 & H6) H7].
    rewrite Eq in H2. cbn in H2. split; [done|cbn; lia|done| |done].
    exists hello, (sent ++ [m]). cbn. rewrite Ew in H4. cbn in H4. rewrite app_nil_r in H4.
    split_and!; [|by rewrite <- app_assoc, <- H5, Eq|done].
    rewrite map_app, concat_app, H4, <- app_assoc. cbn. by rewrite app_nil_r.
  - intros Hk. destruct (inv_map _ _ Hi _ _ Hk) as (x & Ex & _ & Hx). rewrite Ec in Ex. by injection Ex as <-.
Qed.

Lemma conn_op_inv tr s o c cn : inv tr s -> conns s !! c = Some cn -> preserves tr (conn_op s o c cn).
Proof.
  intros Hi Ec. pose proof (inv_conns _ _ Hi _ _ Ec) as Hcn.
  assert (forall k, clients s !! k = Some c -> registered (c_phase cn) = true) as Hreg.
  { intros k Hk. destruct (inv_map _ _ Hi _ _ Hk) as (x & Ex & _ & Hx). rewrite Ec in Ex. by injection Ex as <-. }
  assert (forall p, active cn = true -> phase_ok (keys s) tr c p -> registered p = true ->
    preserves tr (enabled (on_conn c (with_phase p) s, []))) as Hph by (intros; by eapply preserves_phase).
  unfold active in Hph. destruct o; cbn [conn_op]; try apply preserves_disabled.
  - destruct (c_phase cn) eqn:Ep; try apply preserves_disabled. apply preserves_enabled. rewrite app_nil_r. by apply inv_register.
  - eapply preserves_quiet; [done..|by apply conn_inv_with_input|]. apply Hreg.
  - by apply read_op_inv.
  - destruct (c_phase cn) eqn:Ep; try apply preserves_disabled; by apply Hph.
  - destruct (c_phase cn) eqn:Ep; try apply preserves_disabled. apply Hph; [done| |done].
    split; [by eexists; apply keys_lookup|done].
  - destruct (c_phase cn) eqn:Ep; try apply preserves_disabled. destruct (c_notified cn); [|apply preserves_disabled].
    eapply preserves_quiet; [done..| |done]. destruct Hcn as [H1 H2 H3 H4 H5]. by split.
  - destruct (c_phase cn) eqn:Ep; try apply preserves_disabled. by eapply send_op_inv.
  - destruct (c_writing cn) eqn:Ew; [apply preserves_disabled|]. destruct (c_queue cn) eqn:Eq; [apply preserves_disabled|].
    destruct (active cn); [|apply preserves_disabled]. apply preserves_enabled. rewrite app_nil_r. by apply (pop_inv _ _ _ cn).
  - by apply write_op_inv.
  - destruct (c_writing cn); [|apply preserves_disabled]. unfold active.
    destruct (c_phase cn) eqn:Ep; try apply preserves_disabled; by apply Hph.
  - destruct (c_phase cn) eqn:Ep; try apply preserves_disabled.
    pose proof (inv_unregister tr s c cn Hi Ec Ep) as Hu. cbv zeta in Hu.
    destruct (unregister_client s (c_key cn) c) as [s1 b]. apply preserves_enabled. by rewrite app_nil_r.
  - destruct (c_phase cn) eqn:Ep; try apply preserves_disabled.
    pose proof (inv_broadcast tr s c cn Hi Ec Ep) as Hu. cbv zeta in Hu.
    destruct (broadcast_peer_gone _ _ _ _) as [s1 ev]. by apply preserves_enabled.
Qed.

Lemma run_op_inv tr s o : inv tr s -> preserves tr (run_op private s o).
Proof.
  intros Hi. destruct o; cbn [run_op conn_of]; try (destruct (conns s !! c) eqn:Ec; [by apply conn_op_inv|apply preserves_disabled]).
  unfold preserves. pose proof (inv_connect tr s nonce bytes) as Hc. unfold connect_op in *.
  destruct (negb (length nonce =? NONCE_LEN)%nat); [by eexists|].
  destruct (serve_handshake_returns nonce bytes) as (w & o & Hs & _). rewrite Hs in *. rewrite run_bind_Ret in *.
  destruct o as [[[key info] rest]|]; [|by eexists]. eexists. split; [done|]. intros s' ev [= <- <-]. by apply Hc.
Qed.

Lemma inv_init : inv [] init.
Proof. split; [done| |]; cbn; intros; [by rewrite lookup_empty in *|by apply not_elem_of_nil in H1]. Qed.

Lemma reachable_inv tr s : reachable private tr s -> inv tr s.
Proof.
  induction 1 as [|tr s o s' ev _ IH E]; [apply inv_init|].
  destruct (run_op_inv tr s o IH) as (r & Hr & Hp). rewrite E in Hr. injection Hr as <-. by apply Hp.
Qed.

(** ** Order of delivery *)

Definition phases (s : Server) : list Phase := c_phase <$> conns s.

(** The connection has left its loops. *)
Definition gone (p : Phase) : bool := match p with Leaving | Announcing | Closed => true | _ => false end.

Definition closed_at (ph : list Phase) (d : nat) : bool :=
  match ph !! d with Some Closed | None => true | _ => false end.

(** The packet a connection is about to put on the queue of [d]. *)
Definition pending (p : Phase) (d : nat) : list (list Z) :=
  match p with Sending d' (ORecvPacket _ data) => if decide (d' = d) then [data] else [] | _ => [] end.

Definition in_order (tr : list Event) (ph : list Phase) : Prop :=
  forall c d p, ph !! c = Some p -> gone p = false -> closed_at ph d = false ->
    relayed tr c d = delivered tr c d ++ pending p d.

Lemma relayed_app tr ev c d : relayed (tr ++ ev) c d = relayed tr c d ++ relayed ev c d.
Proof. apply omap_app. Qed.
Lemma delivered_app tr ev c d : delivered (tr ++ ev) c d = delivered tr c d ++ delivered ev c d.
Proof. apply omap_app. Qed.

(** What a step of connection [c] from phase [p] to [p'] does to the packets. *)
Record phase_step (ph : list Phase) (c : nat) (p p' : Phase) (ev : list Event) : Prop := {
  ps_others : forall c' d, c' <> c -> relayed ev c' d = [] /\ delivered ev c' d = [];
  ps_own : gone p' = false -> forall d, closed_at ph d = false ->
    pending p d ++ relayed ev c d = delivered ev c d ++ pending p' d;
  ps_gone : gone p = true -> gone p' = true;
  ps_closed : p = Closed -> p' = Closed }.

Lemma closed_at_insert ph c p' d :
  closed_at (<[c := p']> ph) d = false -> (ph !! c = Some Closed -> p' = Closed) -> closed_at ph d = false.
Proof.
  intros Hd Hc. unfold closed_at in *. destruct (decide (c = d)) as [<-|Hne]; [|by rewrite list_lookup_insert_ne in Hd].
  destruct (ph !! c) as [q|] eqn:Eq.
  - rewrite list_lookup_insert_eq in Hd by (by eapply lookup_lt_Some). destruct q; try done. by rewrite Hc in Hd.
  - by rewrite list_insert_ge, Eq in Hd by (by apply lookup_ge_None).
Qed.

Lemma in_order_step tr ev ph c p p' :
  in_order tr ph -> ph !! c = Some p -> phase_step ph c p p' ev -> in_order (tr ++ ev) (<[c := p']> ph).
Proof.
  intros Ho Ec [H1 H2 H3 H4] c0 d p0 E0 Hg Hd. rewrite relayed_app, delivered_app.
  assert (closed_at ph d = false) as Hd'.
  { eapply closed_at_insert; [done|]. rewrite Ec. intros [= ->]. by apply H4. }
  destruct (decide (c0 = c)) as [->|Hne].
  - rewrite list_lookup_insert_eq in E0 by (by eapply lookup_lt_Some). injection E0 as <-.
    assert (gone p = false) as Hp by (destruct (gone p); [by rewrite H3 in Hg|done]).
    rewrite (Ho c d p) by done. rewrite <- !app_assoc. f_equal. by apply H2.
  - rewrite list_lookup_insert_ne in E0 by done. destruct (H1 c0 d Hne) as [-> ->]. rewrite !app_nil_r. by apply Ho.
Qed.

(** A step without packets. *)
Lemma phase_step_quiet ph c p p' ev :
  (forall c d, relayed ev c d = [] /\ delivered ev c d = []) ->
  (gone p' = false -> forall d, pending p' d = pending p d) ->
  (gone p = true -> gone p' = true) -> (p = Closed -> p' = Closed) -> phase_step ph c p p' ev.
Proof.
  intros Hev Hp Hg Hc. split; [intros; apply Hev| |done|done].
  intros Hn d _. destruct (Hev c d) as [-> ->]. rewrite app_nil_r. cbn. by rewrite Hp.
Qed.

Lemma phases_on_conn s c cn f p :
  conns s !! c = Some cn -> c_phase (f cn) = p -> phases (on_conn c f s) = <[c := p]> (phases s).
Proof.
  intros Ec Hp. apply list_eq. intros j. unfold phases. rewrite list_lookup_fmap, lookup_on_conn. case_decide as E.
  - subst. rewrite list_lookup_insert_eq by (rewrite length_fmap; by eapply lookup_lt_Some). by rewrite Ec.
  - rewrite list_lookup_insert_ne by done. by rewrite list_lookup_fmap.
Qed.

Lemma phases_same s c f : (forall cn, c_phase (f cn) = c_phase cn) -> phases (on_conn c f s) = phases s.
Proof.
  intros Hf. apply list_eq. intros j. unfold phases. rewrite !list_lookup_fmap, lookup_on_conn. case_decide; [|done].
  destruct (conns s !! j); cbn; [by rewrite Hf|done].
Qed.

Lemma phases_insert_same s c cn : conns s !! c = Some cn -> <[c := c_phase cn]> (phases s) = phases s.
Proof. intros Ec. apply list_insert_id. unfold phases. by rewrite list_lookup_fmap, Ec. Qed.

Lemma broadcast_quiet c key l : forall s,
  let r := broadcast_loop c key peer_gone_reason.DISCONNECTED l s in
  phases r.1 = phases s /\ (forall c' d, relayed r.2 c' d = [] /\ delivered r.2 c' d = []).
Proof.
  induction l as [|[k d] l IH]; intros s; cbv zeta; cbn [broadcast_loop]; [done|].
  assert (exists r, r = (if bool_decide (k = key) then (s, []) else try_send c s d (OPeerGone key peer_gone_reason.DISCONNECTED)) /\
    phases r.1 = phases s /\ (forall c' d, relayed r.2 c' d = [] /\ delivered r.2 c' d = [])) as ([s1 ev] & <- & H1 & H2).
  { eexists. split; [done|]. case_bool_decide; [done|]. unfold try_send.
    destruct (room s d) as [[]|]; cbn [fst snd]; [|done..]. by rewrite phases_same. }
  destruct (IH s1) as [H3 H4]. cbn [fst snd] in *. destruct (broadcast_loop _ _ _ l s1) as [s2 ev2]. cbn [fst snd] in *.
  split; [congruence|]. intros c' d'. rewrite relayed_app, delivered_app.
  destruct (H2 c' d') as [-> ->]. by destruct (H4 c' d') as [-> ->].
Qed.

(** A step of connection [c] that changes its phase to [p']. *)
Definition steps_to (s : Server) (c : nat) (cn : Conn) (s' : Server) (ev : list Event) : Prop :=
  exists p', phases s' = <[c := p']> (phases s) /\ phase_step (phases s) c (c_phase cn) p' ev.

Lemma steps_to_quiet s c cn f :
  conns s !! c = Some cn ->
  (gone (c_phase (f cn)) = false -> forall d, pending (c_phase (f cn)) d = pending (c_phase cn) d) ->
  (gone (c_phase cn) = true -> gone (c_phase (f cn)) = true) -> (c_phase cn = Closed -> c_phase (f cn) = Closed) ->
  steps_to s c cn (on_conn c f s) [].
Proof. intros Ec H1 H2 H3. eexists. split; [by apply (phases_on_conn _ _ cn)|]. by apply phase_step_quiet. Qed.

Lemma on_body_relayed s c key typ body p ev :
  on_body s c key typ body = Ret (p, ev) ->
  (forall c' d, delivered ev c' d = []) /\ (forall c' d, c' <> c -> relayed ev c' d = []) /\
  (gone p = false -> forall d, relayed ev c d = pending p d).
Proof.
  unfold on_body. destruct (typ =? frame_type.SEND_PACKET); [|destruct (typ =? frame_type.PING)].
  - unfold handle_send_packet. intros Hr. apply run_bind_inv in Hr as (dst & _ & Hr). apply run_bind_inv in Hr as (data & _ & Hr).
    destruct (Z.of_nat (length data) >? MAX_PACKET_SIZE); [by injection Hr as <- <-|].
    destruct (lookup_dst s dst) as [d0|]; injection Hr as <- <-; (split; [done|]); cbn.
    + split; [intros c' d Hne; by rewrite decide_False by (intros [??]; congruence)|]. intros _ d.
      destruct (decide (d0 = d)) as [->|Hd]; [by rewrite decide_True|by rewrite decide_False by (intros [??]; congruence)].
    + done.
  - unfold handle_ping. intros Hr. apply run_bind_inv in Hr as (pl & _ & Hr). by injection Hr as <- <-.
  - by intros [= <- <-].
Qed.

Lemma read_op_steps s c cn n s' ev :
  conns s !! c = Some cn -> read_op s c cn n = Ret (Some (s', ev)) -> steps_to s c cn s' ev.
Proof.
  intros Ec. unfold read_op. destruct (negb _); [done|].
  destruct (c_phase cn) as [|got|typ len got| | | |] eqn:Ep; try done.
  - destruct (_ <? FRAME_HEADER_LEN)%nat.
    { intros [= <- <-]. apply steps_to_quiet; [done|by rewrite Ep..]. }
    destruct (FRAME_HEADER_LEN <? _)%nat; [done|]. destruct (decode_frame_header _) as [typ len].
    intros [= <- <-]. apply steps_to_quiet; [done| |by rewrite Ep..]. rewrite Ep. intros _ d. cbn.
    unfold on_header. by repeat case_match.
  - destruct (_ <? len); [intros [= <- <-]; apply steps_to_quiet; [done|by rewrite Ep..]|].
    destruct (len <? _); [done|]. intros Hr. apply run_bind_inv in Hr as ([p ev'] & Hb & [= <- <-]).
    apply on_body_relayed in Hb as (H1 & H2 & H3). exists p. split; [by apply (phases_on_conn _ _ cn)|].
    rewrite Ep. split; [intros c' d Hne; split; [by apply H2|by apply H1]| |done|done].
    intros Hg d _. cbn. by rewrite H3, H1.
Qed.

Lemma send_op_steps s c cn d m s' ev :
  conns s !! c = Some cn -> c_phase cn = Sending d m -> send_op s c d m = Ret (Some (s', ev)) -> steps_to s c cn s' ev.
Proof.
  intros Ec Ep. unfold send_op. destruct (room s d) as [[]|] eqn:Er; [|done|]; intros [= <- <-].
  - assert (exists cn', conns (on_conn d (push m) s) !! c = Some cn' /\ c_phase cn' = c_phase cn) as (cn' & Ec' & Ep').
    { rewrite lookup_on_conn, Ec. case_decide; by eexists. }
    exists (Header []). split; [rewrite (phases_on_conn _ _ cn' _ (Header [])) by done; by rewrite phases_same|].
    rewrite Ep. split; [|intros _ d' _|done|done].
    + intros c' d' Hne. split; [done|]. destruct m; cbn; [|done..]. by rewrite decide_False by (intros [??]; congruence).
    + cbn. rewrite !app_nil_r. destruct m; cbn; [|done..]. destruct (decide (d = d')) as [->|Hd];
        [by rewrite decide_True|by rewrite decide_False by (intros [??]; congruence)].
  - eexists. split; [by apply (phases_on_conn _ _ cn)|]. rewrite Ep. split; [done| |done|done].
    intros _ d' Hd'. cbn. destruct m; [|done..]. cbn. rewrite app_nil_r. rewrite decide_False; [done|]. intros ->.
    unfold room in Er. unfold closed_at, phases in Hd'. rewrite list_lookup_fmap in Hd'.
    destruct (conns s !! d') as [dn|]; [|done]. cbn in Hd'. unfold is_closed in Er. by destruct (c_phase dn).
Qed.

Lemma register_steps s c cn :
  conns s !! c = Some cn -> c_phase cn = Registering ->
  steps_to s c cn (on_conn c (with_phase (Header [])) (register_client s (c_key cn) c)) [].
Proof.
  intros Ec Ep. exists (Header []). split; [|rewrite Ep; by apply phase_step_quiet].
  unfold register_client. destruct (clients s !! c_key cn) as [old|]; [|exact (phases_on_conn (with_clients _ s) c cn _ _ Ec eq_refl)].
  rewrite (phases_on_conn _ _ (if decide (old = c) then with_notified true cn else cn) _ (Header [])); [|cbn|done].
  - by rewrite phases_same.
  - change (conns (on_conn old (with_notified true) (with_clients (<[c_key cn := c]> (clients s)) s)) !! c
            = Some (if decide (old = c) then with_notified true cn else cn)).
    rewrite lookup_on_conn. cbn [conns with_clients]. rewrite Ec. by case_decide.
Qed.

Lemma unregister_steps s c cn :
  conns s !! c = Some cn -> c_phase cn = Leaving ->
  let r := unregister_client s (c_key cn) c in
  steps_to s c cn (on_conn c (with_phase (if r.2 then Announcing else Closed)) r.1) [].
Proof.
  intros Ec Ep. cbv zeta. unfold unregister_client.
  assert (forall s0 p, conns s0 = conns s -> gone p = true -> steps_to s c cn (on_conn c (with_phase p) s0) []) as Hg.
  { intros s0 p Es Hp. exists p. split; [rewrite (phases_on_conn _ _ cn _ p); [unfold phases; by rewrite Es|by rewrite Es|done]|].
    rewrite Ep. apply phase_step_quiet; [done|by rewrite Hp|done|done]. }
  destruct (clients s !! c_key cn) as [e|]; [destruct (e =? c)%nat|]; by apply Hg.
Qed.

Lemma broadcast_steps s c cn :
  conns s !! c = Some cn -> c_phase cn = Announcing ->
  let r := broadcast_peer_gone c s (c_key cn) peer_gone_reason.DISCONNECTED in
  steps_to s c cn (on_conn c (with_phase Closed) r.1) r.2.
Proof.
  intros Ec Ep. cbv zeta. unfold broadcast_peer_gone.
  destruct (broadcast_quiet c (c_key cn) (map_to_list (clients s)) s) as [H1 H2].
  destruct (broadcast_loop _ _ _ _ s) as [s1 ev1]. cbn [fst snd] in *.
  assert (exists cn1, conns s1 !! c = Some cn1) as [cn1 Ec1].
  { apply (f_equal (lookup c)) in H1. unfold phases in H1. rewrite !list_lookup_fmap, Ec in H1.
    destruct (conns s1 !! c); [by eexists|done]. }
  exists Closed. split; [by rewrite (phases_on_conn _ _ cn1 _ Closed), H1|]. rewrite Ep. by apply phase_step_quiet.
Qed.

Lemma conn_op_steps s o c cn s' ev :
  conns s !! c = Some cn -> conn_op s o c cn = Ret (Some (s', ev)) -> steps_to s c cn s' ev.
Proof.
  intros Ec. assert (forall p, active cn = true -> (forall d, pending p d = [] \/ gone p = true) ->
     (forall d, pending (c_phase cn) d = [] \/ gone p = true) -> steps_to s c cn (on_conn c (with_phase p) s) []) as Hph.
  { intros p Ha H1 H2. unfold active in Ha. apply steps_to_quiet; [done| |by destruct (c_phase cn)..].
    cbn. intros Hg d. destruct (H1 d) as [->|]; [|congruence]. by destruct (H2 d) as [->|]; [|congruence]. }
  unfold active in Hph. unfold enabled, disabled. destruct o; cbn [conn_op]; try done.
  - destruct (c_phase cn) eqn:Ep; try done. intros [= <- <-]. by apply register_steps.
  - intros Hr. assert (s' = on_conn c (with_input (c_in cn ++ bytes)) s /\ ev = []) as [-> ->]
      by (destruct (c_phase cn); injection Hr as <- <-; done). by apply steps_to_quiet.
  - destruct (c_phase cn) eqn:Ep; by apply read_op_steps.
  - destruct (c_phase cn) eqn:Ep; try done; intros [= <- <-]; apply Hph; auto.
  - destruct (c_phase cn) eqn:Ep; try done. intros [= <- <-]. apply Hph; auto.
  - destruct (c_phase cn) eqn:Ep; try done. destruct (c_notified cn); [|done]. intros [= <- <-].
    apply steps_to_quiet; [done|cbn; by rewrite ?Ep..].
  - destruct (c_phase cn) eqn:Ep; try done. by apply send_op_steps.
  - destruct (c_writing cn); [by destruct (c_phase cn)|]. destruct (c_queue cn); [by destruct (c_phase cn)|].
    intros Hr. assert (s' = on_conn c (fun cn => with_queue l (with_written (c_out cn) (Some (outbound_frame o)) cn)) s /\ ev = [])
      as [-> ->] by (destruct (active cn); [|by destruct (c_phase cn)]; destruct (c_phase cn); injection Hr as <- <-; done).
    by apply steps_to_quiet.
  - unfold write_op, enabled, disabled. destruct (c_writing cn); [|by destruct (c_phase cn)].
    intros Hr. destruct (active cn && _ && _); [|by destruct (c_phase cn)].
    assert (s' = on_conn c (with_written (c_out cn ++ take n l) (if (n <? length l)%nat then Some (drop n l) else None)) s /\ ev = [])
      as [-> ->] by (destruct (c_phase cn); injection Hr as <- <-; done).
    by apply steps_to_quiet.
  - destruct (c_writing cn); [|by destruct (c_phase cn)]. unfold active.
    destruct (c_phase cn) eqn:Ep; try done; intros [= <- <-]; apply Hph; auto.
  - destruct (c_phase cn) eqn:Ep; try done. pose proof (unregister_steps s c cn Ec Ep) as Hu. cbv zeta in Hu.
    destruct (unregister_client _ _ _) as [s1 b]. by intros [= <- <-].
  - destruct (c_phase cn) eqn:Ep; try done. pose proof (broadcast_steps s c cn Ec Ep) as Hu. cbv zeta in Hu.
    destruct (broadcast_peer_gone _ _ _ _) as [s1 ev1]. by intros [= <- <-].
Qed.

Lemma fresh_pair ks tr c d :
  (forall e, e ∈ tr -> event_ok ks tr e) -> ks !! c = None \/ ks !! d = None ->
  relayed tr c d = [] /\ delivered tr c d = [].
Proof.
  intros He Hn.
  assert (forall l, (forall e, e ∈ l -> e ∈ tr) -> relayed l c d = [] /\ delivered l c d = []) as Hall; [|by apply Hall].
  induction l as [|e l IH]; intros Hl; [done|]. destruct IH as [H1 H2]; [intros x Hx; apply Hl; by right|].
  assert (event_ok ks tr e) as Hok by (apply He, Hl; by left).
  change (e :: l) with ([e] ++ l). rewrite relayed_app, delivered_app, H1, H2, !app_nil_r.
  destruct e as [c' dst data [d'|]|c' d' []]; cbn; try done.
  - split; [|done]. case_decide as Ed; [destruct Ed as [-> ->]|done].
    destruct Hok as ([x Hx] & _ & Hd). specialize (Hd d eq_refl). destruct Hn; congruence.
  - split; [done|]. case_decide as Ed; [destruct Ed as [-> ->]|done].
    destruct Hok as ([x Hx] & [y Hy] & _). destruct Hn; congruence.
Qed.

Lemma in_order_connect tr s nonce bytes s' ev :
  inv tr s -> in_order tr (phases s) -> connect_op private s nonce bytes = Ret (Some (s', ev)) ->
  in_order (tr ++ ev) (phases s').
Proof.
  intros Hi Ho. unfold connect_op. destruct (negb _); [done|].
  destruct (serve_handshake_returns nonce bytes) as (w & o & -> & _). rewrite run_bind_Ret.
  destruct o as [[[key info] rest]|]; [|done]. intros [= <- <-]. rewrite app_nil_r. unfold phases at 1. cbn [conns].
  rewrite fmap_app. cbn [fmap list_fmap c_phase]. fold (phases s). intros c d p Ec Hg Hd.
  assert (forall j, (length (phases s) <= j)%nat -> keys s !! j = None) as Hnone.
  { intros j Hj. unfold keys, phases in *. rewrite length_fmap in Hj. rewrite list_lookup_fmap. by rewrite lookup_ge_None_2. }
  apply lookup_app_Some in Ec as [Ec|[Hc Ec]].
  - unfold closed_at in Hd. destruct (decide (d < length (phases s))%nat) as [Hlt|Hge].
    + rewrite lookup_app_l in Hd by done. by apply Ho.
    + destruct (fresh_pair (keys s) tr c d) as [-> ->]; [apply Hi|right; apply Hnone; lia|].
      unfold phases in Ec. rewrite list_lookup_fmap in Ec. destruct (conns s !! c) as [cn|] eqn:En; [|done].
      injection Ec as <-. pose proof (ci_phase _ _ _ _ _ (inv_conns _ _ Hi _ _ En)) as Hp.
      destruct (c_phase cn) as [| | |d' m| | |]; try done. destruct m; try done. cbn. rewrite decide_False; [done|].
      intros ->. destruct Hp as [[x Hx] _]. by rewrite Hnone in Hx by lia.
  - destruct (fresh_pair (keys s) tr c d) as [-> ->]; [apply Hi|left; by apply Hnone|].
    destruct (c - length (phases s))%nat; [|done]. by injection Ec as <-.
Qed.

Lemma reachable_in_order tr s : reachable private tr s -> in_order tr (phases s).
Proof.
  induction 1 as [|tr s o s' ev Hr IH E]; [done|]. pose proof (reachable_inv _ _ Hr) as Hi.
  destruct o; cbn [run_op conn_of] in E; [by eapply in_order_connect|..];
    (destruct (conns s !! c) as [cn|] eqn:Ec; [|done]; apply conn_op_steps in E as (p' & -> & Hs); [|done];
     eapply in_order_step; [done| |done]; unfold phases; by rewrite list_lookup_fmap, Ec).
Qed.

(** *** Where relay events come from *)

Definition is_relay (e : Event) : bool := match e with EvRelay _ _ _ _ => true | _ => false end.

Lemma broadcast_no_relay c key l : forall s e,
  e ∈ (broadcast_loop c key peer_gone_reason.DISCONNECTED l s).2 -> is_relay e = false.
Proof.
  induction l as [|[k d] l IH]; intros s e; cbn [broadcast_loop]; [by intros ?%not_elem_of_nil|].
  assert (forall x, x ∈ (if bool_decide (k = key) then (s, []) else try_send c s d (OPeerGone key peer_gone_reason.DISCONNECTED)).2
    -> is_relay x = false) as Hx.
  { intros x. case_bool_decide; [by intros ?%not_elem_of_nil|]. unfold try_send.
    destruct (room s d) as [[]|]; cbn [snd]; [by intros ->%list_elem_of_singleton|by intros ?%not_elem_of_nil..]. }
  destruct (if bool_decide (k = key) then _ else _) as [s1 ev]. specialize (IH s1 e).
  destruct (broadcast_loop _ _ _ l s1) as [s2 ev2]. cbn [snd] in *. intros [Hin|Hin]%elem_of_app; [by apply Hx|by apply IH].
Qed.

Lemma conn_op_no_relay s o c cn s' ev e :
  (forall c n, o <> Read c n) -> conn_op s o c cn = Ret (Some (s', ev)) -> e ∈ ev -> is_relay e = false.
Proof.
  intros Ho E Hin. assert (ev = [] -> is_relay e = false) as Hnil by (intros ->; by apply not_elem_of_nil in Hin).
  unfold conn_op, write_op, send_op, enabled, disabled in E.
  destruct o; try (by apply Hnil; destruct (c_phase cn); try done; repeat case_match; simplify_eq).
  - by destruct (Ho c0 n).
  - destruct (c_phase cn) as [| | |d m| | |]; try done. destruct (room s d) as [[]|]; [|done|]; injection E as _ <-; [|by apply Hnil].
    by apply list_elem_of_singleton in Hin as ->.
  - destruct (c_phase cn); try done. unfold broadcast_peer_gone in E.
    pose proof (broadcast_no_relay c (c_key cn) (map_to_list (clients s)) s e) as Hb.
    destruct (broadcast_loop _ _ _ _ _) as [s1 ev1]. injection E as _ <-. by apply Hb.
Qed.

Lemma on_body_origin s c key typ body p ev c' dst data od :
  on_body s c key typ body = Ret (p, ev) -> EvRelay c' dst data od ∈ ev ->
  c' = c /\ typ = frame_type.SEND_PACKET /\ body = dst ++ data /\ length dst = DERP_KEY_LEN /\ od = clients s !! dst.
Proof.
  unfold on_body, DERP_KEY_LEN. destruct (Z.eqb_spec typ frame_type.SEND_PACKET) as [->|_].
  - unfold handle_send_packet, slice, slice_from, lookup_dst, DERP_KEY_LEN.
    destruct (decide (0 <= 32 <= length body)%nat) as [Hl|]; [|done]. rewrite run_bind_Ret.
    destruct (decide (32 <= length body)%nat); [|done]. rewrite run_bind_Ret, drop_0, Nat.sub_0_r.
    destruct (_ >? MAX_PACKET_SIZE); [intros [= _ <-]; by intros ?%not_elem_of_nil|]. intros Hb Hin.
    assert (ev = [EvRelay c (take 32 body) (drop 32 body) (clients s !! take 32 body)]) as ->
      by (destruct (clients s !! take 32 body); by injection Hb as _ <-).
    apply list_elem_of_singleton in Hin. injection Hin as -> -> -> ->.
    split_and!; [done|done|by rewrite take_drop|rewrite length_take; lia|done].
  - destruct (typ =? frame_type.PING); [unfold handle_ping; intros (? & _ & Hb)%run_bind_inv|intros Hb];
      injection Hb as _ <-; by intros ?%not_elem_of_nil.
Qed.

(** A relay event is the completion of the body of a packet frame: the key and
    the data are what the connection read, and the destination is looked up in
    the map of that moment. *)
Lemma relay_origin s o s' ev c dst data od :
  run_op private s o = Ret (Some (s', ev)) -> EvRelay c dst data od ∈ ev ->
  exists n cn len got, o = Read c n /\ conns s !! c = Some cn /\
    c_phase cn = Body frame_type.SEND_PACKET len got /\ got ++ take n (c_in cn) = dst ++ data /\
    Z.of_nat (length (dst ++ data)) = len /\ length dst = DERP_KEY_LEN /\ od = clients s !! dst.
Proof.
  intros E Hin. destruct o; cbn [run_op conn_of] in E;
    try (destruct (conns s !! c0) as [cn|] eqn:Ec; [|done]; eapply conn_op_no_relay in E; [|done|exact Hin]; done).
  - unfold connect_op in E. destruct (negb _); [done|]. apply run_bind_inv in E as ([w o] & _ & E).
    destruct o as [[[key info] rest]|]; [|done]. injection E as _ <-. by apply not_elem_of_nil in Hin.
  - destruct (conns s !! c0) as [cn|] eqn:Ec; [|done].
    assert (read_op s c0 cn n = Ret (Some (s', ev))) as Er by (unfold conn_op in E; by destruct (c_phase cn)). clear E.
    unfold read_op in Er. destruct (negb _); [done|]. assert (ev <> []) as Hne by (intros ->; by apply not_elem_of_nil in Hin).
    destruct (c_phase cn) as [|got|typ len got| | | |] eqn:Ep; try done.
    + destruct (_ <? FRAME_HEADER_LEN)%nat; [by injection Er as _ <-|].
      destruct (FRAME_HEADER_LEN <? _)%nat; [done|]. destruct (decode_frame_header _). by injection Er as _ <-.
    + destruct (Z.ltb_spec (Z.of_nat (length (got ++ take n (c_in cn)))) len) as [|H1]; [by injection Er as _ <-|].
      destruct (Z.ltb_spec len (Z.of_nat (length (got ++ take n (c_in cn))))) as [|H2]; [done|].
      apply run_bind_inv in Er as ([p ev'] & Hb & Er). injection Er as _ <-.
      destruct (on_body_origin _ _ _ _ _ _ _ _ _ _ _ Hb Hin) as (-> & -> & Hbd & Hl & ->). exists n, cn, len, got. rewrite <- Hbd.
      split_and!; try done. lia.
Qed.

End invariant.

(** ** What a client reads *)

Definition received_of (m : Outbound) : Received :=
  match m with
  | ORecvPacket src data => RReceivedPacket src data
  | OPeerGone peer reason => RPeerGone peer reason
  | OPong data => RPong data
  | OKeepAlive => RKeepAlive
  end.

(** A message whose fields have their widths. *)
Definition outbound_ok (m : Outbound) : Prop :=
  match m with
  | ORecvPacket src data => length src = 32%nat /\ Z.of_nat (length data) <= MAX_PACKET_SIZE
  | OPeerGone peer _ => length peer = 32%nat
  | OPong data => length data = 8%nat
  | OKeepAlive => True
  end.

(** Decide the comparisons of frame types. *)
Ltac frame_types :=
  repeat match goal with |- context [?a =? ?b] =>
    let v := eval vm_compute in (a =? b) in change (a =? b) with v end; cbv iota.

Section client.
Context `{BoxLaws} `{!BoxOverhead} `{JsonLaws} `{RateLimiter}.

(** [n] calls of [recv], all of which give a message. *)
Fixpoint recv_many (n : nat) (c : DerpClient) : run (option (list Received * DerpClient)) :=
  match n with
  | O => Ret (Some ([], c))
  | S n' =>
      r ← recv c;
      match r with
      | Some (c, Ok m) =>
          rs ← recv_many n' c;
          Ret (match rs with Some (ms, c) => Some (m :: ms, c) | None => None end)
      | _ => Ret None
      end
  end.

Definition outbound_type (m : Outbound) : Z :=
  match m with
  | ORecvPacket _ _ => frame_type.RECV_PACKET
  | OPeerGone _ _ => frame_type.PEER_GONE
  | OPong _ => frame_type.PONG
  | OKeepAlive => frame_type.KEEP_ALIVE
  end.
Definition outbound_body (m : Outbound) : list Z :=
  match m with
  | ORecvPacket src data => src ++ data
  | OPeerGone peer reason => peer ++ [reason]
  | OPong data => data
  | OKeepAlive => []
  end.

Lemma outbound_frame_eq m : outbound_frame m = write_frame_async [] (outbound_type m) (outbound_body m).
Proof. by destruct m. Qed.

Lemma parse_outbound m priv srv :
  outbound_ok m -> parse_received (outbound_type m) (outbound_body m) priv srv = Ret (Some (received_of m)).
Proof.
  destruct m as [src data|peer reason|data|]; intros Hok; unfold parse_received; cbn [outbound_type outbound_body outbound_ok] in *;
    frame_types; [| | |done].
  - destruct Hok as [Hs _]. rewrite (proj2 (Nat.ltb_ge _ _)) by (rewrite length_app; lia).
    rewrite (slice_field _ 0 32), run_bind_Ret by (rewrite length_app; lia). change (32 - 0)%nat with 32%nat.
    rewrite read_node_pub_field, run_bind_Ret by (rewrite length_app; lia).
    rewrite slice_from_ok, run_bind_Ret by (rewrite length_app; lia).
    by rewrite field_here, drop_app_length' by done.
  - rewrite (proj2 (Nat.ltb_ge _ _)) by (rewrite length_app; lia).
    rewrite (slice_field _ 0 32), run_bind_Ret by (rewrite length_app; lia). change (32 - 0)%nat with 32%nat.
    rewrite read_node_pub_field, run_bind_Ret by (rewrite length_app; lia).
    rewrite (proj2 (Nat.ltb_lt _ _)) by (rewrite length_app; cbn; lia).
    rewrite (idx_lookup _ _ reason), run_bind_Ret by (by rewrite lookup_app_r, Hok by lia).
    by rewrite field_here.
  - rewrite (proj2 (Nat.ltb_ge _ _)) by lia. rewrite slice_field, run_bind_Ret by lia. by rewrite field_end.
Qed.

Lemma outbound_body_small m : outbound_ok m -> Z.of_nat (length (outbound_body m)) <= 131072.
Proof.
  destruct m; cbn; rewrite ?length_app; cbn; try lia. intros [-> Hd]. change MAX_PACKET_SIZE with 65536 in Hd. lia.
Qed.

Lemma recv_outbound m c rest :
  outbound_ok m -> stream_in c = outbound_frame m ++ rest -> recv c = Ret (Some (with_in rest c, Ok (received_of m))).
Proof.
  intros Hok E. pose proof (outbound_body_small m Hok). unfold recv. cbn [recv_loop].
  change (MAX_PACKET_SIZE * 2) with 131072. rewrite E, outbound_frame_eq, read_frame_async_written by lia.
  by rewrite parse_outbound.
Qed.

Lemma recv_many_outbound ms : forall c,
  Forall outbound_ok ms -> stream_in c = concat (map outbound_frame ms) ->
  recv_many (length ms) c = Ret (Some (map received_of ms, with_in [] c)).
Proof.
  induction ms as [|m ms IH]; intros c Hok E; cbn [length recv_many map].
  - cbn in E. destruct c; cbn in *; by subst.
  - apply list.Forall_cons in Hok as [Hm Hms]. cbn [map concat] in E.
    rewrite (recv_outbound m c (concat (map outbound_frame ms))), run_bind_Ret by done.
    by rewrite IH.
Qed.

Lemma enqueued_In tr d m : m ∈ enqueued tr d -> exists c, EvEnqueue c d m ∈ tr.
Proof.
  unfold enqueued. rewrite list_elem_of_omap. intros (e & Hin & He). destruct e as [|c d' m']; [done|].
  case_decide; [subst|done]. injection He as ->. by exists c.
Qed.

Lemma enqueued_ok private tr s d : inv private tr s -> Forall outbound_ok (enqueued tr d).
Proof.
  intros Hi. apply list.Forall_forall. intros m (c & Hin)%enqueued_In.
  pose proof (inv_events _ _ _ Hi _ Hin) as (_ & _ & Hm).
  assert (forall i k, keys s !! i = Some k -> length k = 32%nat) as Hk.
  { intros i k Hik. unfold keys in Hik. rewrite list_lookup_fmap in Hik. destruct (conns s !! i) as [cn|] eqn:Ec; [|done].
    injection Hik as <-. exact (ci_key _ _ _ _ _ _ (inv_conns _ _ _ Hi _ _ Ec)). }
  destruct m; cbn in *.
  - destruct Hm as (H1' & dst & H2' & H3'). split; [by eapply Hk|].
    by pose proof (inv_events _ _ _ Hi _ H3') as (_ & ? & _).
  - destruct Hm as (H1' & _). by eapply Hk.
  - by destruct Hm.
  - done.
Qed.

(** C6. End to end: at every moment of every execution of the server, for every
    connection whose send loop is between two messages, a client that holds the
    private key of the connection's public key completes its handshake on the
    bytes written to it, and reading on it receives, in order and unchanged,
    exactly the messages taken from its queue so far, with nothing left over; the
    messages queued for the connection are these followed by those still in the
    queue. *)
Theorem derp_end_to_end (private : list Z) (tr : list Event) (s : Server) (d : nat) (cn : Conn)
    (ck nc : list Z) (expected : option (list Z)) (cbox : list Z) :
  reachable private tr s -> conns s !! d = Some cn -> c_writing cn = None ->
  c_key cn = derive_public ck -> is_zero ck = false -> is_zero (derive_public private) = false ->
  (forall e, expected = Some e -> is_zero e = true \/ e = derive_public private) ->
  seal_to ck (derive_public private) nc (client_info_to_vec client_info) = Ok cbox ->
  exists sent c c',
    sent ++ c_queue cn = enqueued tr d /\
    from_stream (c_out cn) ck expected nc = Ret (c, Ok tt) /\
    recv_many (length sent) c = Ret (Some (map received_of sent, c')) /\ stream_in c' = [].
Proof.
  intros Hr Ec Hw Hk Hz Hp He Hs. pose proof (reachable_inv _ _ _ Hr) as Hi.
  destruct (ci_stream _ _ _ _ _ _ (inv_conns _ _ _ Hi _ _ Ec)) as (hello & sent & Ho & Hq & (ns & by_ & info & rest & Hns & Hh)).
  rewrite Hw in Ho. cbn in Ho. rewrite app_nil_r in Ho. rewrite Hk in Hh.
  unfold serve_handshake in Hh. apply run_bind_inv in Hh as (o & _ & Hh). destruct o as [[[key info'] rest']|]; [|done].
  destruct (seal_to private key ns _) as [sbox|] eqn:Es; [|done]. injection Hh as <- -> _ _.
  exists sent. do 2 eexists. split; [done|]. rewrite Ho, write_frame_async_app, <- app_assoc.
  split; [by apply (from_stream_ok ck private nc ns expected cbox sbox)|].
  split; [apply recv_many_outbound; [|done]|done].
  pose proof (enqueued_ok _ _ _ d Hi) as Hf. rewrite <- Hq in Hf. by apply list.Forall_app in Hf as [? _].
Qed.

End client.

Section server.
Context `{BoxCrypto} `{Json}.
Variable private : list Z.


(** C37. Bounds of the server in every execution: no operation panics, no queue
    holds more than 32 messages, a pending header read holds fewer than five
    bytes, a body read fewer bytes than the frame declares, and every packet put
    on a queue has at most 64 KiB of data and a 32-byte source. *)
Theorem derp_server_bounds (tr : list Event) (s : Server) :
  reachable private tr s ->
  (forall o, exists r, run_op private s o = Ret r) /\
  (forall c cn, conns s !! c = Some cn ->
     (length (c_queue cn) <= SEND_QUEUE_DEPTH)%nat /\
     match c_phase cn with
     | Header got => (length got < FRAME_HEADER_LEN)%nat
     | Body _ len got => Z.of_nat (length got) < len
     | _ => True
     end) /\
  (forall d src data, ORecvPacket src data ∈ enqueued tr d ->
     length src = DERP_KEY_LEN /\ Z.of_nat (length data) <= MAX_PACKET_SIZE).
Proof.
  intros Hr. pose proof (reachable_inv _ _ _ Hr) as Hi. split_and!.
  - intros o. destruct (run_op_inv private tr s o Hi) as (r & Hx & _). by exists r.
  - intros c cn Ec. destruct (inv_conns _ _ _ Hi _ _ Ec) as [_ Hq Hp _ _]. split; [done|].
    destruct (c_phase cn); try done. by destruct Hp.
  - intros d src data Hin. pose proof (enqueued_ok _ _ _ d Hi) as Hf. rewrite list.Forall_forall in Hf.
    by specialize (Hf _ Hin).
Qed.

(** C9. Nobody is impersonated: whatever is queued for a connection comes from
    the connection it names.  A packet with source [src] was read, whole and for
    the key of this very connection, by a connection whose handshake
    authenticated [src]; a pong or a keep-alive comes from the connection itself;
    a departure is announced only by the departing key, and never to itself.
    The packet events are the bodies of packet frames, split after 32 bytes. *)
Theorem derp_provenance (tr : list Event) (s : Server) :
  reachable private tr s ->
  (forall d dn m, conns s !! d = Some dn -> m ∈ enqueued tr d ->
     exists c cn, conns s !! c = Some cn /\
       match m with
       | ORecvPacket src data => c_key cn = src /\ EvRelay c (c_key dn) data (Some d) ∈ tr
       | OPeerGone peer reason => c_key cn = peer /\ c_key dn <> peer /\ reason = peer_gone_reason.DISCONNECTED
       | OPong _ | OKeepAlive => c = d
       end) /\
  (forall o s' ev c dst data od, run_op private s o = Ret (Some (s', ev)) -> EvRelay c dst data od ∈ ev ->
     exists n cn len got, o = Read c n /\ conns s !! c = Some cn /\
       c_phase cn = Body frame_type.SEND_PACKET len got /\ got ++ take n (c_in cn) = dst ++ data /\
       Z.of_nat (length (dst ++ data)) = len /\ length dst = DERP_KEY_LEN /\ od = clients s !! dst).
Proof.
  intros Hr. pose proof (reachable_inv _ _ _ Hr) as Hi. split; [|intros; by eapply relay_origin].
  intros d dn m Ed (c & Hin)%enqueued_In. destruct (inv_events _ _ _ Hi _ Hin) as ([k Hk] & _ & Hm).
  pose proof Hk as Hk'. unfold keys in Hk'. rewrite list_lookup_fmap in Hk'. destruct (conns s !! c) as [cn|] eqn:Ec; [|done].
  injection Hk' as <-. exists c, cn. split; [done|]. pose proof (keys_lookup _ _ _ Ed) as Hd. destruct m; cbn in Hm.
  - destruct Hm as (H1 & dst & H2 & H3). split; congruence.
  - destruct Hm as (H1 & (dst & H2 & H3) & H4). split_and!; congruence.
  - by destruct Hm.
  - done.
Qed.

(** C10. Packets are relayed exactly once and in order: for every two connections,
    as long as the sender is in its loops and the receiver is not closed, the
    packets the sender read for the receiver are those it put on the receiver's
    queue, in the same order, followed by the one it is waiting to put there, if
    any; and they appear in this order among the messages of that queue. *)
Theorem derp_relay_in_order (tr : list Event) (s : Server) (c d : nat) (cn dn : Conn) :
  reachable private tr s -> conns s !! c = Some cn -> conns s !! d = Some dn ->
  gone (c_phase cn) = false -> is_closed dn = false ->
  relayed tr c d = delivered tr c d ++ pending (c_phase cn) d /\
  delivered tr c d `sublist_of`
    omap (fun m => match m with ORecvPacket _ data => Some data | _ => None end) (enqueued tr d).
Proof.
  intros Hr Ec Ed Hg Hc. split.
  - apply (reachable_in_order private tr s Hr); [unfold phases; by rewrite list_lookup_fmap, Ec|done|].
    unfold closed_at, phases. rewrite list_lookup_fmap, Ed. unfold is_closed in Hc. cbn. by destruct (c_phase dn).
  - clear. induction tr as [|e tr IH]; [done|]. unfold delivered, enqueued in *. cbn.
    destruct e as [|c' d' m]; [done|]. destruct (decide (d' = d)) as [->|Hd].
    + cbn. destruct m; try done. case_decide; [by apply sublist_skip|by apply sublist_cons].
    + destruct m; [rewrite decide_False by (intros [??]; congruence)|..]; done.
Qed.

End server.

(** ** The keep-alive tick and a partly read header *)

Lemma on_conn_same s c f g : on_conn c f (on_conn c g s) = on_conn c (fun cn => f (g cn)) s.
Proof.
  unfold on_conn. cbn. f_equal. apply list_eq. intros j.
  destruct (decide (c = j)) as [->|Hne]; [rewrite !list_lookup_alter_eq|by rewrite !list_lookup_alter_ne].
  by destruct (conns s !! j).
Qed.

Section tick.
Context `{BoxCrypto} `{Json}.
Variable private : list Z.

(** C40. A keep-alive tick loses the part of a header that has arrived: a client
    that sends a well-formed ping whose first two bytes arrive before the tick
    and the rest after it is left with a connection on which the server takes
    bytes of the middle of the ping for a header, and waits for the body of a
    frame of type 0 and of more than half a mebibyte that was never sent. *)
Theorem derp_tick_loses_header (s : Server) (c : nat) (cn : Conn) (d0 d1 d2 d3 d4 d5 d6 d7 : Z) (rest : list Z) :
  wf_bytes [d0; d1; d2; d3; d4; d5; d6; d7] ->
  conns s !! c = Some cn -> c_phase cn = Header [] -> (length (c_queue cn) < SEND_QUEUE_DEPTH)%nat ->
  c_in cn = write_frame_async [] frame_type.PING [d0; d1; d2; d3; d4; d5; d6; d7] ++ rest ->
  exists s', run_ops private s [] [Read c 2; Tick c; Send c; Read c 5] = Some (s', [EvEnqueue c c OKeepAlive]) /\
    exists len, 524288 <= len /\ c_phase <$> conns s' !! c = Some (Body 0 len []) /\
      c_in <$> conns s' !! c = Some ([d2; d3; d4; d5; d6; d7] ++ rest).
Proof.
  intros Hw Ec Ep Hq Ein.
  assert (c_in cn = [0x12; 0; 0; 0; 8; d0; d1; d2; d3; d4; d5; d6; d7] ++ rest) as Ein' by (rewrite Ein; reflexivity). clear Ein.
  assert (forall f s0 x, conns s0 !! c = Some x -> conns (on_conn c f s0) !! c = Some (f x)) as Hl.
  { intros f s0 x E. by rewrite lookup_on_conn, decide_True, E by done. }
  set (f1 := fun x => with_phase (Header [0x12; 0]) (with_input (drop 2 (c_in x)) x)).
  assert (run_op private s (Read c 2) = Ret (Some (on_conn c f1 s, []))) as E1.
  { cbn [run_op conn_of]. rewrite Ec. unfold conn_op, read_op. rewrite Ep, Ein'. reflexivity. }
  pose proof (Hl f1 s cn Ec) as L1. set (s1 := on_conn c f1 s) in *.
  assert (run_op private s1 (Tick c) = Ret (Some (on_conn c (with_phase (Sending c OKeepAlive)) s1, []))) as E2.
  { cbn [run_op conn_of]. rewrite L1. reflexivity. }
  pose proof (Hl (with_phase (Sending c OKeepAlive)) s1 _ L1) as L2. set (s2 := on_conn c (with_phase (Sending c OKeepAlive)) s1) in *.
  assert (run_op private s2 (Send c) =
    Ret (Some (on_conn c (with_phase (Header [])) (on_conn c (push OKeepAlive) s2), [EvEnqueue c c OKeepAlive]))) as E3.
  { cbn [run_op conn_of]. rewrite L2. cbn [conn_op c_phase with_phase]. unfold send_op, room. rewrite L2.
    cbn [is_closed c_phase with_phase c_queue f1 with_input]. by rewrite (proj2 (Nat.ltb_lt _ _)). }
  pose proof (Hl (with_phase (Header [])) _ _ (Hl (push OKeepAlive) s2 _ L2)) as L3.
  set (s3 := on_conn c (with_phase (Header [])) (on_conn c (push OKeepAlive) s2)) in *.
  set (len := from_be_bytes [0; 8; d0; d1]).
  assert (524288 <= len /\ on_header 0 len = Body 0 len []) as [Hlen Hh].
  { apply list.Forall_cons in Hw as [Hb0 Hw]. apply list.Forall_cons in Hw as [Hb1 _]. unfold is_u8 in *.
    assert (len = 524288 + d0 * 256 + d1) as El by (unfold len; cbn; lia). split; [lia|].
    unfold on_header. frame_types. by rewrite Z.gtb_ltb, (proj2 (Z.ltb_lt _ _)) by lia. }
  assert (run_op private s3 (Read c 5) =
    Ret (Some (on_conn c (fun x => with_phase (on_header 0 len) (with_input (drop 5 (c_in x)) x)) s3, []))) as E4.
  { cbn [run_op conn_of]. rewrite L3. unfold conn_op, read_op, push, f1.
    cbn [c_phase with_phase c_in with_queue with_input]. rewrite Ein'. reflexivity. }
  eexists. split; [cbn [run_ops]; rewrite E1, E2, E3, E4; reflexivity|]. exists len. split; [done|].
  rewrite (Hl _ s3 _ L3). rewrite Hh. split; [done|]. cbn. by rewrite Ein'.
Qed.

End tick.

(** ** An execution *)

#[local] Existing Instance demo_box.
#[local] Existing Instance demo_box_laws.
#[local] Existing Instance demo_box_overhead.
#[local] Existing Instance demo_json.
#[local] Existing Instance demo_json_laws.
#[local] Existing Instance demo_limiter.

Definition demo_sk : list Z := replicate 32 5.
Definition demo_ck1 : list Z := replicate 32 3.
Definition demo_ck2 : list Z := replicate 32 4.
Definition demo_nonce : list Z := replicate 24 7.
Definition demo_hello (ck : list Z) : list Z :=
  match seal_to ck (derive_public demo_sk) demo_nonce (client_info_to_vec client_info) with
  | Ok box => write_frame_async [] frame_type.CLIENT_INFO (derive_public ck ++ box)
  | Err _ => []
  end.

(** Two clients connect, the first sends a packet to the second and the server
    writes it. *)
Definition demo_ops : list op :=
  [Connect demo_nonce (demo_hello demo_ck1); Connect demo_nonce (demo_hello demo_ck2); Register 0; Register 1;
   Feed 0 (write_frame_async [] frame_type.SEND_PACKET (derive_public demo_ck2 ++ [1; 2; 3]));
   Read 0 5; Read 0 35; Send 0; Pop 1; WriteSome 1 40].
Definition demo_state : Server * list Event := default (init, []) (run_ops demo_sk init [] demo_ops).
Definition demo_conn (i : nat) : Conn :=
  default {| c_key := []; c_in := []; c_out := []; c_writing := None; c_queue := []; c_notified := false;
             c_phase := Closed |} (conns demo_state.1 !! i).

Lemma demo_reachable : reachable demo_sk demo_state.2 demo_state.1.
Proof. apply (run_ops_reachable demo_sk demo_ops init []); [constructor|]. vm_compute. reflexivity. Qed.

Lemma demo_conns : conns demo_state.1 !! 0%nat = Some (demo_conn 0) /\ conns demo_state.1 !! 1%nat = Some (demo_conn 1).
Proof. split; vm_compute; reflexivity. Qed.

Lemma derp_end_to_end_witness :
  exists sent c c', sent ++ c_queue (demo_conn 1) = enqueued demo_state.2 1 /\
    from_stream (c_out (demo_conn 1)) demo_ck2 None demo_nonce = Ret (c, Ok tt) /\
    recv_many (length sent) c = Ret (Some (map received_of sent, c')) /\ stream_in c' = [].
Proof.
  eapply (derp_end_to_end demo_sk demo_state.2 demo_state.1 1 (demo_conn 1) demo_ck2 demo_nonce None);
    [exact demo_reachable|exact (proj2 demo_conns)|vm_compute; reflexivity|vm_compute; reflexivity|reflexivity|reflexivity
    |intros e He; discriminate He|reflexivity].
Defined.


Lemma derp_server_bounds_witness :
  reachable demo_sk demo_state.2 demo_state.1 /\ (length (c_queue (demo_conn 0)) <= SEND_QUEUE_DEPTH)%nat.
Proof.
  split; [exact demo_reachable|].
  apply (proj1 (proj2 (derp_server_bounds demo_sk demo_state.2 demo_state.1 demo_reachable)) 0%nat). exact (proj1 demo_conns).
Defined.

Lemma derp_provenance_witness :
  exists c cn, conns demo_state.1 !! c = Some cn /\ c_key cn = derive_public demo_ck1 /\
    EvRelay c (c_key (demo_conn 1)) [1; 2; 3] (Some 1%nat) ∈ demo_state.2.
Proof.
  apply (proj1 (derp_provenance demo_sk demo_state.2 demo_state.1 demo_reachable) 1%nat (demo_conn 1)
    (ORecvPacket (derive_public demo_ck1) [1; 2; 3]) (proj2 demo_conns)).
  vm_compute. left.
Defined.

Lemma derp_relay_in_order_witness :
  relayed demo_state.2 0 1 = delivered demo_state.2 0 1 ++ pending (c_phase (demo_conn 0)) 1 /\ relayed demo_state.2 0 1 = [[1; 2; 3]].
Proof.
  split; [|vm_compute; reflexivity].
  apply (derp_relay_in_order demo_sk demo_state.2 demo_state.1 0 1 (demo_conn 0) (demo_conn 1) demo_reachable (proj1 demo_conns) (proj2 demo_conns));
    vm_compute; reflexivity.
Defined.

(** The first client registered, with a ping on the way. *)
Definition demo_ping_ops : list op :=
  [Connect demo_nonce (demo_hello demo_ck1); Register 0; Feed 0 (write_frame_async [] frame_type.PING [1; 2; 3; 4; 5; 6; 7; 8])].
Definition demo_ping_state : Server := (default (init, []) (run_ops demo_sk init [] demo_ping_ops)).1.
Definition demo_ping_conn : Conn := default (demo_conn 0) (conns demo_ping_state !! 0%nat).

Lemma derp_tick_loses_header_witness :
  exists s' len, run_ops demo_sk demo_ping_state [] [Read 0 2; Tick 0; Send 0; Read 0 5] = Some (s', [EvEnqueue 0 0 OKeepAlive]) /\
    524288 <= len /\ c_phase <$> conns s' !! 0%nat = Some (Body 0 len []).
Proof.
  edestruct (derp_tick_loses_header demo_sk demo_ping_state 0 demo_ping_conn 1 2 3 4 5 6 7 8 []) as (s' & H1 & len & H2 & H3 & _);
    [apply (bool_decide_unpack _); vm_compute; exact I|vm_compute; reflexivity|vm_compute; reflexivity
    |apply (bool_decide_unpack _); vm_compute; exact I|vm_compute; reflexivity|].
  exists s', len. split; [exact H1|]. split; [exact H2|exact H3].
Defined.

(** Between [unregister_client] and [broadcast_peer_gone] the map is unlocked: a
    client that reconnects in between is announced as gone while it is connected. *)
Lemma peer_gone_after_reconnect :
  exists tr s cn, reachable demo_sk tr s /\ clients s !! derive_public demo_ck1 = Some 2%nat /\
    conns s !! 1%nat = Some cn /\ c_queue cn = [OPeerGone (derive_public demo_ck1) peer_gone_reason.DISCONNECTED].
Proof.
  set (ops := [Connect demo_nonce (demo_hello demo_ck1); Connect demo_nonce (demo_hello demo_ck2); Register 0; Register 1;
    ReadError 0; Unregister 0; Connect demo_nonce (demo_hello demo_ck1); Register 2; Broadcast 0]).
  destruct (run_ops demo_sk init [] ops) as [[s tr]|] eqn:E; [|by vm_compute in E].
  exists tr, s. eexists. split; [by apply (run_ops_reachable demo_sk ops init []); [constructor|]|].
  revert E. vm_compute. intros [= <- <-]. split_and!; reflexivity.
Qed.

(** The server information is sent before the registration: the handshake of the
    second client is complete on its side while a packet for it is dropped. *)
Definition demo_early_ops : list op :=
  [Connect demo_nonce (demo_hello demo_ck1); Connect demo_nonce (demo_hello demo_ck2); Register 0;
   Feed 0 (write_frame_async [] frame_type.SEND_PACKET (derive_public demo_ck2 ++ [1; 2; 3])); Read 0 5; Read 0 35].

Lemma handshake_before_registration :
  exists tr s, run_ops demo_sk init [] demo_early_ops = Some (s, tr) /\ reachable demo_sk tr s /\
    tr = [EvRelay 0 (derive_public demo_ck2) [1; 2; 3] None] /\
    (from_stream (default [] (c_out <$> conns s !! 1%nat)) demo_ck2 None demo_nonce
       ≫= fun r => Ret (match r.2 with Ok _ => true | Err _ => false end)) = Ret true.
Proof.
  destruct (run_ops demo_sk init [] demo_early_ops) as [[s tr]|] eqn:E; [|by vm_compute in E].
  exists tr, s. split; [done|]. split; [by apply (run_ops_reachable demo_sk demo_early_ops init []); [constructor|]|].
  assert (s = (default (init, []) (run_ops demo_sk init [] demo_early_ops)).1) as -> by (by rewrite E).
  assert (tr = (default (init, []) (run_ops demo_sk init [] demo_early_ops)).2) as -> by (by rewrite E).
  split; vm_compute; reflexivity.
Qed.
