(* ===== verification/Ipn.v ===== *)
(** The IPN backend ([crates/ipn]): the state machine ([machine.rs]), the
    backend's inputs, startup generations and setters, and the queue that hands
    notifications to callbacks in commit order ([backend.rs]).

    A method takes the backend's lock, changes its fields and, while it holds
    the lock, queues its notification; callbacks run later, without the lock, in
    the one thread that is draining the queue.  [op] lists these pieces of work,
    and any interleaving of them by any number of threads is a sequence of [op]s.
    The profile, preference and same-node snapshot of a profile notification is a
    parameter [P]; a callback is known by a number. *)

From S2P Require Import Prelude Bytes.

(** ** [machine.rs] *)

Inductive State : Type :=
| NoState | InUseOtherUser | NeedsLogin | NeedsMachineAuth | Stopped | Starting | Running.

#[global] Instance State_eq_dec : EqDecision State.
Proof. solve_decision. Defined.

Record StateMachineInputs : Type := {
  want_running : bool; logged_out : bool; blocked : bool; has_node_key : bool; netmap_present : bool;
  auth_cant_continue : bool; key_expired : bool; machine_authorized : bool;
  num_live : Z; live_derps : Z; startup_ready : bool }.

Definition state_eqb (a b : State) : bool := bool_decide (a = b).

Definition next_state (i : StateMachineInputs) (current_state : State) : State :=
  if negb (want_running i) && negb (logged_out i) && negb (blocked i) && has_node_key i then Stopped
  else if negb (netmap_present i) then
    if auth_cant_continue i || logged_out i then NeedsLogin
    else if negb (want_running i) then Stopped
    else if state_eqb current_state Running && negb (startup_ready i) then Starting
    else if blocked i && state_eqb current_state Running then NeedsLogin
    else match current_state with
         | Stopped => Starting
         | NoState => NoState
         | Starting | Running | NeedsLogin => current_state
         | _ => current_state
         end
  else if logged_out i then NeedsLogin
  else if negb (want_running i) then Stopped
  else if key_expired i then NeedsLogin
  else if negb (machine_authorized i) then NeedsMachineAuth
  else if state_eqb current_state NeedsMachineAuth then Starting
  else if state_eqb current_state Starting then
    if startup_ready i && negb (blocked i) then Running else Starting
  else if state_eqb current_state Running then
    if blocked i || negb (startup_ready i) then NeedsLogin else Running
  else Starting.

(** ** [backend.rs] *)

Record BackendInputs : Type := {
  in_want_running : bool; in_has_node_key : bool; in_netmap_present : bool; in_auth_cant_continue : bool;
  in_key_expired : bool; in_machine_authorized : bool; in_num_live : Z; in_live_derps : Z; in_startup_ready : bool }.

Definition inputs_default : BackendInputs :=
  {| in_want_running := false; in_has_node_key := false; in_netmap_present := false; in_auth_cant_continue := false;
     in_key_expired := false; in_machine_authorized := false; in_num_live := 0; in_live_derps := 0; in_startup_ready := false |}.

Record BackendInner : Type := {
  b_state : State; b_inputs : BackendInputs; b_blocked : bool; b_logged_out : bool; startup_generation : Z }.

Definition state_machine_inputs (b : BackendInner) : StateMachineInputs :=
  {| want_running := in_want_running (b_inputs b); logged_out := b_logged_out b; blocked := b_blocked b;
     has_node_key := in_has_node_key (b_inputs b); netmap_present := in_netmap_present (b_inputs b);
     auth_cant_continue := in_auth_cant_continue (b_inputs b); key_expired := in_key_expired (b_inputs b);
     machine_authorized := in_machine_authorized (b_inputs b); num_live := in_num_live (b_inputs b);
     live_derps := in_live_derps (b_inputs b); startup_ready := in_startup_ready (b_inputs b) |}.

Definition with_inputs (i : BackendInputs) (b : BackendInner) : BackendInner :=
  {| b_state := b_state b; b_inputs := i; b_blocked := b_blocked b; b_logged_out := b_logged_out b;
     startup_generation := startup_generation b |}.
Definition with_blocked (v : bool) (b : BackendInner) : BackendInner :=
  {| b_state := b_state b; b_inputs := b_inputs b; b_blocked := v; b_logged_out := b_logged_out b;
     startup_generation := startup_generation b |}.
Definition with_logged_out (v : bool) (b : BackendInner) : BackendInner :=
  {| b_state := b_state b; b_inputs := b_inputs b; b_blocked := b_blocked b; b_logged_out := v;
     startup_generation := startup_generation b |}.
Definition with_generation (g : Z) (b : BackendInner) : BackendInner :=
  {| b_state := b_state b; b_inputs := b_inputs b; b_blocked := b_blocked b; b_logged_out := b_logged_out b;
     startup_generation := g |}.
Definition with_state (s : State) (b : BackendInner) : BackendInner :=
  {| b_state := s; b_inputs := b_inputs b; b_blocked := b_blocked b; b_logged_out := b_logged_out b;
     startup_generation := startup_generation b |}.

Definition with_startup_ready (v : bool) (i : BackendInputs) : BackendInputs :=
  {| in_want_running := in_want_running i; in_has_node_key := in_has_node_key i; in_netmap_present := in_netmap_present i;
     in_auth_cant_continue := in_auth_cant_continue i; in_key_expired := in_key_expired i;
     in_machine_authorized := in_machine_authorized i; in_num_live := in_num_live i; in_live_derps := in_live_derps i;
     in_startup_ready := v |}.
Definition with_engine (n d : Z) (i : BackendInputs) : BackendInputs :=
  {| in_want_running := in_want_running i; in_has_node_key := in_has_node_key i; in_netmap_present := in_netmap_present i;
     in_auth_cant_continue := in_auth_cant_continue i; in_key_expired := in_key_expired i;
     in_machine_authorized := in_machine_authorized i; in_num_live := n; in_live_derps := d;
     in_startup_ready := in_startup_ready i |}.
Definition admitted (i : BackendInputs) : BackendInputs :=
  {| in_want_running := true; in_has_node_key := in_has_node_key i; in_netmap_present := false;
     in_auth_cant_continue := in_auth_cant_continue i; in_key_expired := in_key_expired i;
     in_machine_authorized := in_machine_authorized i; in_num_live := 0; in_live_derps := 0; in_startup_ready := false |}.

Definition inner_new : BackendInner :=
  {| b_state := NoState; b_inputs := inputs_default; b_blocked := false; b_logged_out := false; startup_generation := 0 |}.

(** The critical sections up to the evaluation of the state machine; [None] when
    the method returns without evaluating it. *)
Inductive method : Type :=
| UpdateInputs (update : BackendInputs -> BackendInputs)
| BeginStartup
| CommitStartup (generation : Z)
| CancelStartup (generation : Z)
| SetEngineStatus (num_live live_derps : Z)
| SetBlocked (blocked : bool)
| SetLoggedOut (logged_out : bool).

(** The setters of single inputs. *)
Definition set_want_running : method :=
  UpdateInputs (fun i => {|
    in_want_running := true; in_has_node_key := in_has_node_key i; in_netmap_present := in_netmap_present i;
    in_auth_cant_continue := in_auth_cant_continue i; in_key_expired := in_key_expired i;
    in_machine_authorized := in_machine_authorized i; in_num_live := in_num_live i;
    in_live_derps := in_live_derps i; in_startup_ready := in_startup_ready i |}).
Definition set_has_node_key (v : bool) : method :=
  UpdateInputs (fun i => {|
    in_want_running := in_want_running i; in_has_node_key := v; in_netmap_present := in_netmap_present i;
    in_auth_cant_continue := in_auth_cant_continue i; in_key_expired := in_key_expired i;
    in_machine_authorized := in_machine_authorized i; in_num_live := in_num_live i;
    in_live_derps := in_live_derps i; in_startup_ready := in_startup_ready i |}).
Definition set_netmap_present (v : bool) : method :=
  UpdateInputs (fun i => {|
    in_want_running := in_want_running i; in_has_node_key := in_has_node_key i; in_netmap_present := v;
    in_auth_cant_continue := in_auth_cant_continue i; in_key_expired := in_key_expired i;
    in_machine_authorized := in_machine_authorized i; in_num_live := in_num_live i;
    in_live_derps := in_live_derps i; in_startup_ready := in_startup_ready i |}).
Definition set_auth_cant_continue (v : bool) : method :=
  UpdateInputs (fun i => {|
    in_want_running := in_want_running i; in_has_node_key := in_has_node_key i; in_netmap_present := in_netmap_present i;
    in_auth_cant_continue := v; in_key_expired := in_key_expired i;
    in_machine_authorized := in_machine_authorized i; in_num_live := in_num_live i;
    in_live_derps := in_live_derps i; in_startup_ready := in_startup_ready i |}).
Definition set_key_expired (v : bool) : method :=
  UpdateInputs (fun i => {|
    in_want_running := in_want_running i; in_has_node_key := in_has_node_key i; in_netmap_present := in_netmap_present i;
    in_auth_cant_continue := in_auth_cant_continue i; in_key_expired := v;
    in_machine_authorized := in_machine_authorized i; in_num_live := in_num_live i;
    in_live_derps := in_live_derps i; in_startup_ready := in_startup_ready i |}).
Definition set_machine_authorized (v : bool) : method :=
  UpdateInputs (fun i => {|
    in_want_running := in_want_running i; in_has_node_key := in_has_node_key i; in_netmap_present := in_netmap_present i;
    in_auth_cant_continue := in_auth_cant_continue i; in_key_expired := in_key_expired i;
    in_machine_authorized := v; in_num_live := in_num_live i;
    in_live_derps := in_live_derps i; in_startup_ready := in_startup_ready i |}).

Definition begin_startup_generation (b : BackendInner) : BackendInner :=
  with_blocked true (with_inputs (admitted (b_inputs b))
    (with_generation (Z.max (wrap64 (startup_generation b + 1)) 1) b)).
Definition commit_startup_generation (g : Z) (b : BackendInner) : option BackendInner :=
  if negb (startup_generation b =? g) then None
  else Some (with_blocked false (with_inputs (with_startup_ready true (b_inputs b)) b)).
Definition cancel_startup_generation (g : Z) (b : BackendInner) : option BackendInner :=
  if negb (startup_generation b =? g) then None
  else Some (with_blocked true (with_inputs (with_startup_ready false (b_inputs b)) b)).
Definition set_engine_status (n d : Z) (b : BackendInner) : BackendInner :=
  let i := with_engine n d (b_inputs b) in
  with_inputs (if (startup_generation b =? 0) && ((n >? 0) || (d >? 0)) then with_startup_ready true i else i) b.

Definition critical (m : method) (b : BackendInner) : option BackendInner :=
  match m with
  | UpdateInputs update => Some (with_inputs (update (b_inputs b)) b)
  | BeginStartup => Some (begin_startup_generation b)
  | CommitStartup g => commit_startup_generation g b
  | CancelStartup g => cancel_startup_generation g b
  | SetEngineStatus n d => Some (set_engine_status n d b)
  | SetBlocked v => Some (with_blocked v b)
  | SetLoggedOut v => Some (with_logged_out v b)
  end.

(** The evaluation at the end of every method: the backend, and the state to
    announce when it changed. *)
Definition evaluate (b : BackendInner) : BackendInner * option State :=
  let new_state := next_state (state_machine_inputs b) (b_state b) in
  if state_eqb new_state (b_state b) then (b, None) else (with_state new_state b, Some new_state).

Definition run_method (m : method) (b : BackendInner) : BackendInner * option State :=
  match critical m b with Some b => evaluate b | None => (b, None) end.

(** ** Notifications *)

Section notifications.
Context {P : Type}.

Inductive PendingNotification : Type := PState (s : State) | PProfile (p : P).

(** A queued notification: what to say and to which callbacks, as they were
    registered when it was queued. *)
Record BackendNotification : Type := { n_what : PendingNotification; n_callbacks : list nat }.

(** [drainers] counts the tokens ([ProfileNotification]) with the duty to drain,
    held or being dispatched by some thread; [calls] are the callbacks invoked. *)
Record Backend : Type := {
  inner : BackendInner; bus : list PendingNotification;
  state_callbacks : list nat; profile_callbacks : list nat;
  queue : list BackendNotification; draining : bool; latest_profile : option P;
  drainers : nat; calls : list (nat * PendingNotification) }.

Definition backend_new : Backend :=
  {| inner := inner_new; bus := []; state_callbacks := []; profile_callbacks := []; queue := []; draining := false;
     latest_profile := None; drainers := 0; calls := [] |}.

Definition queue_notification (pending : PendingNotification) (b : Backend) : Backend :=
  let notification :=
    {| n_what := pending;
       n_callbacks := match pending with PState _ => state_callbacks b | PProfile _ => profile_callbacks b end |} in
  {| inner := inner b; bus := bus b ++ [pending];
     state_callbacks := state_callbacks b; profile_callbacks := profile_callbacks b;
     queue := queue b ++ [notification]; draining := true;
     latest_profile := match pending with PState _ => latest_profile b | PProfile p => Some p end;
     drainers := if draining b then drainers b else S (drainers b); calls := calls b |}.

Definition with_inner (i : BackendInner) (b : Backend) : Backend :=
  {| inner := i; bus := bus b; state_callbacks := state_callbacks b; profile_callbacks := profile_callbacks b;
     queue := queue b; draining := draining b; latest_profile := latest_profile b; drainers := drainers b; calls := calls b |}.

(** A method of the backend: the new state is stored and its notification queued
    under the same lock. *)
Definition commit (m : method) (b : Backend) : Backend :=
  let '(i, announced) := run_method m (inner b) in
  match announced with
  | Some s => queue_notification (PState s) (with_inner i b)
  | None => with_inner i b
  end.

(** The calls [invoke_notification] makes. *)
Definition invoke_notification (n : BackendNotification) : list (nat * PendingNotification) :=
  map (fun c => (c, n_what n)) (n_callbacks n).

(** One turn of the loop of [drain_notifications] in a draining thread. *)
Definition drain_step (b : Backend) : Backend :=
  match queue b with
  | notification :: rest =>
      {| inner := inner b; bus := bus b; state_callbacks := state_callbacks b; profile_callbacks := profile_callbacks b;
         queue := rest; draining := draining b; latest_profile := latest_profile b; drainers := drainers b;
         calls := calls b ++ invoke_notification notification |}
  | [] =>
      {| inner := inner b; bus := bus b; state_callbacks := state_callbacks b; profile_callbacks := profile_callbacks b;
         queue := []; draining := false; latest_profile := latest_profile b; drainers := pred (drainers b); calls := calls b |}
  end.

Definition add_state_change_callback (c : nat) (b : Backend) : Backend :=
  {| inner := inner b; bus := bus b; state_callbacks := state_callbacks b ++ [c]; profile_callbacks := profile_callbacks b;
     queue := queue b; draining := draining b; latest_profile := latest_profile b; drainers := drainers b; calls := calls b |}.
Definition add_profile_state_callback (c : nat) (b : Backend) : Backend :=
  {| inner := inner b; bus := bus b; state_callbacks := state_callbacks b; profile_callbacks := profile_callbacks b ++ [c];
     queue := queue b; draining := draining b; latest_profile := latest_profile b; drainers := drainers b; calls := calls b |}.
Definition seed_profile_state (p : P) (b : Backend) : Backend :=
  {| inner := inner b; bus := bus b; state_callbacks := state_callbacks b; profile_callbacks := profile_callbacks b;
     queue := queue b; draining := draining b;
     latest_profile := match latest_profile b with Some q => Some q | None => Some p end;
     drainers := drainers b; calls := calls b |}.

Inductive op : Type :=
| Method (m : method)
| QueueProfile (p : P)
| AddStateCallback (c : nat)
| AddProfileCallback (c : nat)
| SeedProfile (p : P)
| Drain.

(** A thread drains only with a token for it. *)
Definition step (b : Backend) (o : op) : Backend :=
  match o with
  | Method m => commit m b
  | QueueProfile p => queue_notification (PProfile p) b
  | AddStateCallback c => add_state_change_callback c b
  | AddProfileCallback c => add_profile_state_callback c b
  | SeedProfile p => seed_profile_state p b
  | Drain => if (drainers b =? 0)%nat then b else drain_step b
  end.

Definition exec (ops : list op) : Backend := foldl step backend_new ops.

End notifications.
Arguments PendingNotification : clear implicits.
Arguments BackendNotification : clear implicits.
Arguments Backend : clear implicits.
Arguments op : clear implicits.

(** * Theorems *)

(** ** The state machine *)

(** The condition of [Running] as a boolean. *)
Definition may_run (i : StateMachineInputs) (c : State) : bool :=
  want_running i && negb (logged_out i) && negb (blocked i) && startup_ready i &&
  ((netmap_present i && negb (key_expired i) && machine_authorized i && (state_eqb c Starting || state_eqb c Running)) ||
   (negb (netmap_present i) && negb (auth_cant_continue i) && state_eqb c Running)).

Lemma next_state_running i c : state_eqb (next_state i c) Running = may_run i c.
Proof.
  destruct i as [w l b k n a e m x y r]. unfold may_run, next_state. cbn.
  destruct w, l, b; cbn; rewrite ?andb_false_r; destruct k, n; cbn; try reflexivity;
    destruct a, e, m, r; cbn; try reflexivity; destruct c; reflexivity.
Qed.

Lemma state_eqb_eq a b : state_eqb a b = true <-> a = b.
Proof. apply bool_decide_eq_true. Qed.

Lemma may_run_spec i c :
  may_run i c = true <->
  want_running i = true /\ logged_out i = false /\ blocked i = false /\ startup_ready i = true /\
  ((netmap_present i = true /\ key_expired i = false /\ machine_authorized i = true /\ (c = Starting \/ c = Running)) \/
   (netmap_present i = false /\ auth_cant_continue i = false /\ c = Running)).
Proof.
  unfold may_run. rewrite !andb_true_iff, !orb_true_iff, !andb_true_iff, !negb_true_iff, orb_true_iff, !state_eqb_eq. tauto.
Qed.

(** When the backend is [Running]: exactly when the user wants it to run and
    has not logged out, updates are not blocked and the startup is committed, and
    either the network map is there, the key is valid, the machine is authorized
    and the backend was starting or running, or the map is not there yet and a
    running backend has no authentication pending.  Without the wish to run the
    state is never [Running] or [Starting], and a logged-out backend with a map
    needs a login. *)
Theorem ipn_running_iff (i : StateMachineInputs) (c : State) :
  (next_state i c = Running <->
     want_running i = true /\ logged_out i = false /\ blocked i = false /\ startup_ready i = true /\
     ((netmap_present i = true /\ key_expired i = false /\ machine_authorized i = true /\ (c = Starting \/ c = Running)) \/
      (netmap_present i = false /\ auth_cant_continue i = false /\ c = Running))) /\
  (want_running i = false -> next_state i c = Stopped \/ next_state i c = NeedsLogin) /\
  (logged_out i = true -> next_state i c = NeedsLogin).
Proof.
  split; [by rewrite <- may_run_spec, <- next_state_running, state_eqb_eq|].
  destruct i as [w l b k n a e m x y r]. unfold next_state. cbn. split; intros ->.
  - destruct l, b, k, n, a; cbn; auto.
  - rewrite !andb_false_r. cbn. rewrite orb_true_r. by destruct n.
Qed.

(** ** Startup generations *)

Definition methods {P} (ops : list (op P)) : list method :=
  omap (fun o => match o with Method m => Some m | _ => None end) ops.

Definition inner_after (ms : list method) : BackendInner := foldl (fun b m => (run_method m b).1) inner_new ms.

(** An update that leaves the readiness to the lifecycle owner. *)
Definition keeps_ready (m : method) : Prop :=
  match m with UpdateInputs f => forall i, in_startup_ready (f i) = in_startup_ready i | _ => True end.

(** The current generation was committed and neither replaced nor cancelled since,
    or no generation was ever admitted and the engine reported a live peer or
    relay. *)
Definition committed (ms : list method) (g : Z) : Prop :=
  (exists pre post, ms = pre ++ CommitStartup g :: post /\ (BeginStartup ∉ post) /\ (CancelStartup g ∉ post)) \/
  (g = 0 /\ (BeginStartup ∉ ms) /\ exists n d, SetEngineStatus n d ∈ ms /\ (0 < n \/ 0 < d)).

Lemma inner_after_snoc ms m : inner_after (ms ++ [m]) = (run_method m (inner_after ms)).1.
Proof. unfold inner_after. by rewrite foldl_app. Qed.

Lemma ipn_exec_snoc {P} (ops : list (op P)) o : exec (ops ++ [o]) = step (exec ops) o.
Proof. unfold exec. by rewrite foldl_app. Qed.

Lemma exec_inner {P} (ops : list (op P)) : inner (exec ops) = inner_after (methods ops).
Proof.
  induction ops as [|o ops IH] using rev_ind; [done|]. rewrite ipn_exec_snoc. unfold methods. rewrite omap_app. fold (methods ops).
  destruct o; cbn [step omap list_omap]; rewrite ?app_nil_r; try (by rewrite <- IH).
  - rewrite inner_after_snoc, <- IH. unfold commit. by destruct (run_method m (inner (exec ops))) as [i [s|]].
  - rewrite <- IH. destruct (_ =? 0)%nat; [done|]. unfold drain_step. by destruct (queue _).
Qed.

Lemma evaluate_inputs b : b_inputs (evaluate b).1 = b_inputs b.
Proof. unfold evaluate. by destruct (state_eqb _ _). Qed.
Lemma evaluate_generation b : startup_generation (evaluate b).1 = startup_generation b.
Proof. unfold evaluate. by destruct (state_eqb _ _). Qed.

(** A method that evaluates ends in a state the machine gives for its inputs. *)
Lemma evaluate_state b :
  b_state (evaluate b).1 = next_state (state_machine_inputs (evaluate b).1) (b_state b).
Proof.
  unfold evaluate. destruct (state_eqb _ _) eqn:E; [|done]. by apply state_eqb_eq in E.
Qed.

Lemma elem_of_snoc {A} (x y : A) l : x ∈ l ++ [y] <-> x ∈ l \/ x = y.
Proof. rewrite elem_of_app, list_elem_of_singleton. done. Qed.

Lemma committed_snoc ms g m :
  committed ms g -> m <> BeginStartup -> m <> CancelStartup g -> committed (ms ++ [m]) g.
Proof.
  intros [(pre & post & -> & H1 & H2)|(-> & H1 & n & d & H2 & H3)] Hb Hc.
  - left. exists pre, (post ++ [m]). split_and!; [by rewrite <- app_assoc|..]; rewrite elem_of_snoc; intros [?|?]; congruence.
  - right. split_and!; [done|rewrite elem_of_snoc; intros [?|?]; congruence|]. exists n, d. split; [|done].
    apply elem_of_snoc. by left.
Qed.

Lemma generation_zero ms : 0 <= startup_generation (inner_after ms) /\
  (startup_generation (inner_after ms) = 0 -> BeginStartup ∉ ms).
Proof.
  induction ms as [|m ms [IH1 IH2]] using rev_ind; [split; [done|intros _; apply not_elem_of_nil]|].
  assert (startup_generation (inner_after (ms ++ [m])) = startup_generation (inner_after ms) /\ m <> BeginStartup \/
          1 <= startup_generation (inner_after (ms ++ [m]))) as [[-> Hm]|Hg].
  { rewrite inner_after_snoc. unfold run_method.
    destruct m; cbn [critical]; try (left; split; [by rewrite evaluate_generation|done]).
    - right. rewrite evaluate_generation. cbn. lia.
    - left. unfold commit_startup_generation. destruct (negb _); [done|]. by rewrite evaluate_generation.
    - left. unfold cancel_startup_generation. destruct (negb _); [done|]. by rewrite evaluate_generation. }
  - split; [done|]. intros Hz. rewrite elem_of_snoc. intros [?|?]; [by apply IH2|congruence].
  - split; lia.
Qed.

(** The readiness that a method leaves behind has its reason. *)
Lemma ready_committed ms :
  Forall keeps_ready ms -> in_startup_ready (b_inputs (inner_after ms)) = true ->
  committed ms (startup_generation (inner_after ms)).
Proof.
  induction ms as [|m ms IH] using rev_ind; [done|]. intros [Hk Hm]%list.Forall_app.
  apply list.Forall_cons in Hm as [Hm _]. rewrite inner_after_snoc. unfold run_method.
  set (b := inner_after ms) in *. specialize (IH Hk).
  assert (forall b', b_inputs (evaluate b').1 = b_inputs b' /\ startup_generation (evaluate b').1 = startup_generation b') as He
    by (intros; by rewrite evaluate_inputs, evaluate_generation).
  destruct m; cbn [critical].
  - destruct (He (with_inputs (update (b_inputs b)) b)) as [-> ->]. cbn in *. rewrite Hm. intros Hr. by apply committed_snoc; [apply IH|..].
  - destruct (He (begin_startup_generation b)) as [-> _]. done.
  - unfold commit_startup_generation. destruct (Z.eqb_spec (startup_generation b) generation) as [<-|Hne]; cbn [negb].
    + intros _. rewrite evaluate_generation. left. exists ms, []. split_and!; [done|apply not_elem_of_nil..].
    + intros Hr. by apply committed_snoc; [apply IH|..].
  - unfold cancel_startup_generation. destruct (Z.eqb_spec (startup_generation b) generation) as [<-|Hne]; cbn [negb].
    + rewrite evaluate_inputs. done.
    + intros Hr. apply committed_snoc; [by apply IH|done|]. cbn. congruence.
  - destruct (He (set_engine_status num_live0 live_derps0 b)) as [-> ->]. cbn. rewrite !Z.gtb_ltb.
    destruct ((startup_generation b =? 0) && ((0 <? num_live0) || (0 <? live_derps0))) eqn:E; cbn.
    + intros _. apply andb_true_iff in E as [E1 E2]. apply Z.eqb_eq in E1. right. split_and!; [done| |].
      * rewrite elem_of_snoc. intros [Hx|Hx]; [|done]. by apply (generation_zero ms).
      * exists num_live0, live_derps0. split; [apply elem_of_snoc; by right|]. rewrite orb_true_iff, !Z.ltb_lt in E2. done.
    + intros Hr. by apply committed_snoc; [apply IH|..].
  - destruct (He (with_blocked blocked0 b)) as [-> ->]. intros Hr. by apply committed_snoc; [apply IH|..].
  - destruct (He (with_logged_out logged_out0 b)) as [-> ->]. intros Hr. by apply committed_snoc; [apply IH|..].
Qed.

(** The state after any method is one the machine gives, unless it is the first. *)
Lemma state_evaluated ms :
  b_state (inner_after ms) = NoState \/
  exists c, b_state (inner_after ms) = next_state (state_machine_inputs (inner_after ms)) c.
Proof.
  induction ms as [|m ms IH] using rev_ind; [by left|]. rewrite inner_after_snoc. unfold run_method.
  destruct (critical m (inner_after ms)) as [b|]; [|done]. right. eexists. apply evaluate_state.
Qed.



(** ** Notifications *)

Section delivery.
Context {P : Type}.

(** What a step announces, to the callbacks registered at that moment. *)
Definition announce (b : Backend P) (o : op P) : list (BackendNotification P) :=
  match o with
  | Method m =>
      match (run_method m (inner b)).2 with
      | Some s => [{| n_what := PState s; n_callbacks := state_callbacks b |}]
      | None => []
      end
  | QueueProfile p => [{| n_what := PProfile p; n_callbacks := profile_callbacks b |}]
  | _ => []
  end.

(** The announcements of an execution, in commit order. *)
Fixpoint announced (b : Backend P) (ops : list (op P)) : list (BackendNotification P) :=
  match ops with
  | [] => []
  | o :: ops' => announce b o ++ announced (step b o) ops'
  end.

Definition all_calls (l : list (BackendNotification P)) : list (nat * PendingNotification P) :=
  concat (map invoke_notification l).

(** The last state announced on the bus. *)
Definition last_state (s : State) (l : list (PendingNotification P)) : State :=
  foldl (fun s n => match n with PState s' => s' | PProfile _ => s end) s l.

Record delivery (l : list (BackendNotification P)) (b : Backend P) : Prop := {
  d_calls : calls b ++ all_calls (queue b) = all_calls l;
  d_bus : bus b = map n_what l;
  d_idle : draining b = false -> queue b = [];
  d_one : drainers b = if draining b then 1%nat else 0%nat;
  d_state : last_state NoState (bus b) = b_state (inner b) }.

Lemma all_calls_app l1 l2 : all_calls (l1 ++ l2) = all_calls l1 ++ all_calls l2.
Proof. unfold all_calls. by rewrite map_app, concat_app. Qed.

Lemma last_state_snoc s l n : last_state s (l ++ [n]) = match n with PState s' => s' | PProfile _ => last_state s l end.
Proof. unfold last_state. rewrite foldl_app. by destruct n. Qed.

Lemma delivery_queue l b pending i :
  delivery l b -> b_state i = match pending with PState s => s | PProfile _ => b_state (inner b) end ->
  delivery (l ++ [{| n_what := pending;
                     n_callbacks := match pending with PState _ => state_callbacks b | PProfile _ => profile_callbacks b end |}])
    (queue_notification pending (with_inner i b)).
Proof.
  intros [H1 H2 H3 H4 H5] Hi. split; cbn -[all_calls last_state].
  - by rewrite !all_calls_app, app_assoc, H1.
  - by rewrite map_app, H2.
  - done.
  - rewrite H4. by destruct (draining b).
  - rewrite last_state_snoc, Hi. destruct pending; [done|]. by rewrite H5.
Qed.

Lemma run_method_state m b :
  b_state (run_method m b).1 = match (run_method m b).2 with Some s => s | None => b_state b end.
Proof.
  unfold run_method. destruct (critical m b) as [b'|] eqn:E; [|done].
  assert (b_state b' = b_state b) as Hs.
  { destruct m; cbn in E; try (by injection E as <-).
    - unfold commit_startup_generation in E. destruct (negb _); [done|]. by injection E as <-.
    - unfold cancel_startup_generation in E. destruct (negb _); [done|]. by injection E as <-. }
  unfold evaluate. by destruct (state_eqb _ _).
Qed.

Lemma delivery_step l b o : delivery l b -> delivery (l ++ announce b o) (step b o).
Proof.
  intros Hd. pose proof Hd as [H1 H2 H3 H4 H5]. destruct o; cbn [announce step]; rewrite ?app_nil_r.
  - unfold commit. pose proof (run_method_state m (inner b)) as Hs.
    destruct (run_method m (inner b)) as [i [s|]]; cbn [fst snd] in *.
    + by apply (delivery_queue l b (PState s)).
    + rewrite app_nil_r. split; [done..|]. cbn. by rewrite Hs.
  - apply (delivery_queue l b (PProfile p) (inner b) Hd eq_refl).
  - by split.
  - by split.
  - by split.
  - destruct (Nat.eqb_spec (drainers b) 0) as [E|E]; [done|]. unfold drain_step. destruct (queue b) as [|n q] eqn:Eq.
    + split; cbn; [done|done|done| |done]. rewrite H4. by destruct (draining b).
    + split; cbn; [by rewrite <- H1, <- app_assoc|done| |done|done]. intros Hx. by rewrite Hx in H4.
Qed.

Lemma delivery_exec ops : forall l b, delivery l b -> delivery (l ++ announced b ops) (foldl step b ops).
Proof.
  induction ops as [|o ops IH]; intros l b Hd; cbn; [by rewrite app_nil_r|].
  rewrite app_assoc. apply IH. by apply delivery_step.
Qed.

Lemma drain_all l : forall b, delivery l b ->
  let b' := foldl step b (replicate (S (length (queue b))) Drain) in
  calls b' = all_calls l /\ queue b' = [] /\ draining b' = false.
Proof.
  intros b Hd. remember (length (queue b)) as n eqn:En. revert b Hd En. induction n as [|n IH]; intros b Hd En; cbv zeta.
  - pose proof Hd as [H1 _ _ H4 _]. destruct (queue b) as [|x q] eqn:Eq; [|done]. cbn in *.
    rewrite app_nil_r in H1. rewrite H4. destruct (draining b) eqn:Ed; cbn.
    + unfold drain_step. by rewrite Eq.
    + by rewrite Eq.
  - pose proof (delivery_step l b Drain Hd) as Hd'. cbn [announce] in Hd'. rewrite app_nil_r in Hd'.
    change (replicate (S (S n)) (@Drain P)) with (@Drain P :: replicate (S n) Drain). cbn [foldl].
    apply IH; [done|]. pose proof Hd as [_ _ H3 H4 _]. cbn [step]. rewrite H4.
    destruct (draining b); [|by rewrite H3 in En]. cbn. unfold drain_step. destruct (queue b); cbn in *; [done|lia].
Qed.


End delivery.
