(* ===== verification/Order.v ===== *)
(** * Comparators, stable sorting and fallible loops

    [sort_by] is [slice::sort_by]: a stable sort by a comparator.  For a
    comparator that is a total preorder the result is a sorted permutation, a
    sorted list is left as it is, and when no two elements compare equal the
    result does not depend on the order of the input.  [bytes_cmp] is the order
    of [\[u8\]], [String] and the hash types: lexicographic.  [try_fold] is a
    [for] loop whose body may leave the function with [?]. *)

From Stdlib Require Import Sorted.
From S2P Require Import Prelude Bytes.

(** ** Loops that may fail *)

Section try_fold.
Context {E A S : Type} (f : S -> A -> result E S).

Fixpoint try_fold (l : list A) (s : S) : result E S :=
  match l with
  | [] => Ok s
  | x :: l => s ← f s x; try_fold l s
  end.

Lemma try_fold_app l1 l2 s : try_fold (l1 ++ l2) s = (s ← try_fold l1 s; try_fold l2 s).
Proof. revert s. induction l1 as [|x l1 IH]; intros s; cbn; [done|]. destruct (f s x); cbn; [apply IH|done]. Qed.

(** An invariant of the loop's body is an invariant of the loop. *)
Lemma try_fold_inv (P : list A -> S -> Prop) l s s' :
  P [] s -> (forall done x s s', P done s -> f s x = Ok s' -> P (done ++ [x]) s') ->
  try_fold l s = Ok s' -> P l s'.
Proof.
  intros H0 Hf. assert (forall pre, P pre s -> try_fold l s = Ok s' -> P (pre ++ l) s') as H; [|exact (H [] H0)].
  clear H0. revert s. induction l as [|x l IH]; intros s pre Hp; cbn.
  - intros [= <-]. by rewrite app_nil_r.
  - destruct (f s x) as [s1|] eqn:E1; cbn; [|done]. intros H. rewrite cons_middle, app_assoc. eauto.
Qed.
End try_fold.

Lemma result_bind_inv {E A B} (f : A -> result E B) (m : result E A) (b : B) :
  (m ≫= f) = Ok b -> exists a, m = Ok a /\ f a = Ok b.
Proof. destruct m; cbn; [eauto|discriminate]. Qed.

Lemma ok_or_inv {E A} (o : option A) (e : E) a : ok_or o e = Ok a -> o = Some a.
Proof. destruct o; cbn; congruence. Qed.

(** [Result::map_err]. *)
Definition map_err {E F A} (f : E -> F) (r : result E A) : result F A :=
  match r with Ok a => Ok a | Err e => Err (f e) end.

Lemma map_err_inv {E F A} (f : E -> F) (r : result E A) a : map_err f r = Ok a -> r = Ok a.
Proof. destruct r; cbn; congruence. Qed.

Lemma mapM_Ok {E A B} (f : A -> result E B) l k : mapM f l = Ok k <-> Forall2 (fun x y => f x = Ok y) l k.
Proof.
  split.
  - revert k. induction l as [|x l IH]; intros k; cbn; [intros [= <-]; constructor|].
    intros (y & Hy & H)%result_bind_inv. apply result_bind_inv in H as (ys & Hys & [= <-]).
    constructor; [done|]. by apply IH.
  - induction 1 as [|x y l k Hx _ IH]; cbn; [done|]. rewrite Hx. cbn. by rewrite IH.
Qed.

(** [res_inv H] takes apart a block of [?] steps that ended in [Ok]. *)
Ltac res_inv H :=
  repeat match type of H with
  | (_ ≫= _) = Ok _ => let x := fresh "x" in let Hx := fresh "Hx" in
      apply result_bind_inv in H as (x & Hx & H)
  | (if ?b then Err _ else _) = Ok _ => destruct b eqn:?; [discriminate H|]
  end.

(** ** Comparators *)

(** [Ordering::then_with]. *)
Definition then_with (a b : comparison) : comparison := match a with Eq => b | _ => a end.

(** A comparator that is a total preorder. *)
Class Comparator {A} (cmp : A -> A -> comparison) : Prop := {
  cmp_opp : forall x y, cmp y x = CompOpp (cmp x y);
  cmp_le_trans : forall x y z, cmp x y <> Gt -> cmp y z <> Gt -> cmp x z <> Gt }.

Fixpoint bytes_cmp (a b : list Z) : comparison :=
  match a, b with
  | [], [] => Eq
  | [], _ :: _ => Lt
  | _ :: _, [] => Gt
  | x :: a, y :: b => then_with (x ?= y) (bytes_cmp a b)
  end.

Lemma bytes_cmp_eq a b : bytes_cmp a b = Eq <-> a = b.
Proof.
  revert b. induction a as [|x a IH]; intros [|y b]; cbn; try done.
  destruct (Z.compare_spec x y) as [->|H|H]; cbn; [rewrite IH|..]; split; try done.
  - by intros ->.
  - by intros [= ->].
  - intros [= -> ->]. lia.
  - intros [= -> ->]. lia.
Qed.

Lemma bytes_cmp_refl a : bytes_cmp a a = Eq.
Proof. by apply bytes_cmp_eq. Qed.

#[global] Instance bytes_cmp_comparator : Comparator bytes_cmp.
Proof.
  split.
  - induction x as [|x a IH]; intros [|y b]; cbn; try done.
    rewrite (Z.compare_antisym x y). destruct (x ?= y); cbn; [apply IH|done|done].
  - induction x as [|x a IH]; intros [|y b] [|z c]; cbn; try done.
    destruct (Z.compare_spec x y) as [->|H|H], (Z.compare_spec y z) as [->|H'|H']; cbn; try done; intros H1 H2.
    + by eapply IH.
    + by rewrite (proj2 (Z.compare_lt_iff x z)) by lia.
    + by rewrite (proj2 (Z.compare_lt_iff x z)) by lia.
Qed.

(** A comparator read through a projection. *)
Lemma comparator_on {A B} (g : B -> A) (cmp : A -> A -> comparison) :
  Comparator cmp -> Comparator (fun x y => cmp (g x) (g y)).
Proof. intros [Ho Ht]. split; intros *; [apply Ho|apply Ht]. Qed.

Lemma comparator_Z : Comparator Z.compare.
Proof.
  split; [intros x y; apply Z.compare_antisym|]. intros x y z.
  destruct (Z.compare_spec x y), (Z.compare_spec y z), (Z.compare_spec x z); try done; lia.
Qed.

Lemma comparator_opp {A} (cmp : A -> A -> comparison) : Comparator cmp -> Comparator (fun x y => cmp y x).
Proof.
  intros [Ho Ht]. split; [intros; apply Ho|]. intros x y z H1 H2. by eapply Ht.
Qed.

Lemma comparator_then {A} (c1 c2 : A -> A -> comparison) :
  Comparator c1 -> Comparator c2 -> Comparator (fun x y => then_with (c1 x y) (c2 x y)).
Proof.
  intros C1 C2. split.
  - intros x y. rewrite (cmp_opp (cmp := c1) x y), (cmp_opp (cmp := c2) x y). by destruct (c1 x y).
  - intros x y z H1 H2. pose proof (cmp_le_trans (cmp := c1) x y z) as T1.
    pose proof (cmp_le_trans (cmp := c1) y z x) as T2. pose proof (cmp_le_trans (cmp := c1) z x y) as T3.
    pose proof (cmp_le_trans (cmp := c2) x y z) as U.
    rewrite (cmp_opp (cmp := c1) x y) in *. rewrite (cmp_opp (cmp := c1) x z), (cmp_opp (cmp := c1) y z) in *.
    destruct (c1 x y), (c1 y z), (c1 x z); cbn in *; try done; auto; exfalso; naive_solver.
Qed.

(** ** Sorting *)

Section sort_by.
Context {A : Type} (cmp : A -> A -> comparison).

Fixpoint insert_by (x : A) (l : list A) : list A :=
  match l with
  | [] => [x]
  | y :: l' => match cmp x y with Gt => y :: insert_by x l' | _ => x :: l end
  end.
Definition sort_by (l : list A) : list A := foldr insert_by [] l.

Definition le_by (x y : A) : Prop := cmp x y <> Gt.

Lemma insert_by_perm x l : insert_by x l ≡ₚ x :: l.
Proof. induction l as [|y l IH]; cbn; [done|]. destruct (cmp x y); try done. rewrite IH. apply Permutation_swap. Qed.

Lemma sort_by_perm l : sort_by l ≡ₚ l.
Proof. induction l as [|x l IH]; cbn; [done|]. by rewrite insert_by_perm, IH. Qed.

Lemma sort_by_sorted_id l : StronglySorted le_by l -> sort_by l = l.
Proof.
  unfold sort_by. induction 1 as [|x l _ IH Hx]; cbn [foldr]; [done|]. rewrite IH. destruct l as [|y l]; [done|]. cbn.
  inversion_clear Hx. unfold le_by in *. by destruct (cmp x y).
Qed.

Context `{!Comparator cmp}.

Lemma insert_by_sorted x l : StronglySorted le_by l -> StronglySorted le_by (insert_by x l).
Proof.
  induction 1 as [|y l Hs IH Hy]; cbn; [by repeat constructor|].
  assert (le_by x y -> StronglySorted le_by (x :: y :: l)) as Hle.
  { intros Hxy. constructor; [by constructor|]. constructor; [done|].
    eapply list.Forall_impl; [exact Hy|]. intros z Hz. by eapply cmp_le_trans. }
  destruct (cmp x y) eqn:E; [apply Hle; congruence|apply Hle; congruence|].
  constructor; [done|]. rewrite insert_by_perm. constructor; [|done].
  unfold le_by. by rewrite (cmp_opp x y), E.
Qed.

Lemma sort_by_sorted l : StronglySorted le_by (sort_by l).
Proof. induction l as [|x l IH]; cbn; [constructor|by apply insert_by_sorted]. Qed.

(** Two sorted arrangements of elements that never compare equal are the same list. *)
Lemma sorted_unique l k :
  (forall x y, x ∈ l -> y ∈ l -> cmp x y = Eq -> x = y) ->
  StronglySorted le_by l -> StronglySorted le_by k -> l ≡ₚ k -> l = k.
Proof.
  intros Hd Hl. revert k. induction Hl as [|x l Hl IH Hx]; intros k Hk Hp.
  - by apply Permutation_nil in Hp.
  - destruct Hk as [|y k Hk Hy]; [symmetry in Hp; by apply Permutation_nil_cons in Hp|].
    assert (x = y) as ->.
    { assert (x ∈ y :: k) as Hxk by (rewrite <- Hp; left). assert (y ∈ x :: l) as Hyl by (rewrite Hp; left).
      apply elem_of_cons in Hxk as [->|Hxk]; [done|]. apply elem_of_cons in Hyl as [->|Hyl]; [done|].
      rewrite list.Forall_forall in Hx, Hy. specialize (Hx _ Hyl). specialize (Hy _ Hxk).
      apply Hd; [left|by right|]. unfold le_by in *. rewrite (cmp_opp x y) in Hy. by destruct (cmp x y). }
    f_equal. apply IH; [|done|by eapply Permutation_cons_inv]. intros u v Hu Hv. apply Hd; by right.
Qed.

Lemma sort_by_unique l k :
  (forall x y, x ∈ l -> y ∈ l -> cmp x y = Eq -> x = y) -> l ≡ₚ k -> sort_by l = sort_by k.
Proof.
  intros Hd Hp. apply sorted_unique; [|apply sort_by_sorted..|by rewrite !sort_by_perm].
  intros x y. rewrite !sort_by_perm. apply Hd.
Qed.
End sort_by.

Lemma elem_of_sort_by {A} (cmp : A -> A -> comparison) l x : x ∈ sort_by cmp l <-> x ∈ l.
Proof. by rewrite sort_by_perm. Qed.

Lemma NoDup_sort_by {A} (cmp : A -> A -> comparison) l : NoDup (sort_by cmp l) <-> NoDup l.
Proof. by rewrite sort_by_perm. Qed.

(** ** Hash maps *)

(** The order in which a walk over a hash map visits its entries. *)
Class HashOrder : Type := { hash_iter : forall {K} `{Countable K} {V}, gmap K V -> list (K * V) }.
Class HashOrderLaws `{HashOrder} : Prop := { hash_iter_perm : forall {K} `{Countable K} {V} (m : gmap K V), hash_iter m ≡ₚ map_to_list m }.

Lemma elem_of_hash_iter `{HashOrderLaws} `{Countable K} {V} (m : gmap K V) k v : (k, v) ∈ hash_iter m <-> m !! k = Some v.
Proof. rewrite (hash_iter_perm m). apply elem_of_map_to_list. Qed.

Definition map_order : HashOrder := {| hash_iter _ _ _ _ m := map_to_list m |}.
Lemma map_order_laws : @HashOrderLaws map_order.
Proof. constructor. done. Qed.
