(* ===== verification/TsAddr.v ===== *)
(** * Tailscale's address ranges: [crates/tsaddr/src/lib.rs]

    The crate's [IpPrefix] and its containment have the same text as those of the
    packet filter, so they are those of [FilterPrefix]; the ranges, predicates,
    mappings and prefix-list helpers are here.  The enumeration of interfaces by
    the operating system is an argument of [interface_prefixes_from]. *)

From Stdlib Require Import Sorted.
From S2P Require Import Prelude Bytes Bits IpAddr IpText FilterPrefix Order Str.

Definition prefix (a : IpAddr) (n : nat) : IpPrefix := {| p_addr := a; p_bits := n |}.

(** [IpPrefix::contains] and [IpPrefix::parse]. *)
Definition ts_contains (p : IpPrefix) (a : IpAddr) : bool :=
  match p_addr p, a with
  | V4 n, V4 b => v4_contains n b (p_bits p)
  | V6 n, V6 b => v6_contains n b (p_bits p)
  | _, _ => false
  end.
Definition ts_parse (s : list Z) : option IpPrefix :=
  '(ip_part, bits_part) ← split_once_char 47 s;
  ip ← parse_ip (to_text ip_part);
  bits ← parse_u8 (to_text bits_part);
  Some (prefix ip (Z.to_nat bits)).

(** ** Ranges *)

Definition chrome_os_vm_range : IpPrefix := prefix (V4 [100; 115; 92; 0]) 23.
Definition cgnat_range : IpPrefix := prefix (V4 [100; 64; 0; 0]) 10.
Definition tailscale_service_ipv4 : list Z := [100; 100; 100; 100].
Definition tailscale_service_ipv6_addr : list Z := groups_octets [0xfd7a; 0x115c; 0xa1e0; 0; 0; 0; 0; 0x53].
Definition tailscale_ula_range : IpPrefix := prefix (V6 (groups_octets [0xfd7a; 0x115c; 0xa1e0; 0; 0; 0; 0; 0])) 48.
Definition tailscale_via_range : IpPrefix := prefix (V6 (groups_octets [0xfd7a; 0x115c; 0xa1e0; 0x0b1a; 0; 0; 0; 0])) 64.
Definition tailscale_4to6_range : IpPrefix :=
  prefix (V6 (groups_octets [0xfd7a; 0x115c; 0xa1e0; 0xab12; 0x4843; 0xcd96; 0x6200; 0])) 104.
Definition tailscale_ephemeral6_range : IpPrefix := prefix (V6 (groups_octets [0xfd7a; 0x115c; 0xa1e0; 0xefe3; 0; 0; 0; 0])) 64.
Definition all_ipv4 : IpPrefix := prefix V4_UNSPECIFIED 0.
Definition all_ipv6 : IpPrefix := prefix V6_UNSPECIFIED 0.
Definition exit_routes : list IpPrefix := [all_ipv4; all_ipv6].

(** ** Predicates and mappings *)

Definition is_tailscale_ipv4 (a : IpAddr) : bool :=
  is_ipv4 a && ts_contains cgnat_range a && negb (ts_contains chrome_os_vm_range a).
Definition is_tailscale_ip (a : IpAddr) : bool :=
  match a with V4 _ => is_tailscale_ipv4 a | V6 _ => ts_contains tailscale_ula_range a end.

Definition tailscale_4to6 (ipv4 : list Z) : list Z := take 13 (octets (p_addr tailscale_4to6_range)) ++ drop 1 ipv4.
Definition tailscale_6to4 (ipv6 : list Z) : option (list Z) :=
  if negb (ts_contains tailscale_4to6_range (V6 ipv6)) then None
  else Some [100; byte_at ipv6 13; byte_at ipv6 14; byte_at ipv6 15].

Definition is_via_prefix (p : IpPrefix) : bool :=
  negb (is_ipv4 (p_addr p)) && ts_contains tailscale_via_range (p_addr p) && (96 <=? p_bits p)%nat.
Definition unmap_via (a : IpAddr) : IpAddr :=
  match a with
  | V6 o => if ts_contains tailscale_via_range a then V4 [byte_at o 12; byte_at o 13; byte_at o 14; byte_at o 15] else a
  | V4 _ => a
  end.
(** The sum of the lengths is a [u8]. *)
Definition map_via (site_id : Z) (v4 : IpPrefix) : result string IpPrefix :=
  match p_addr v4 with
  | V4 a => Ok (prefix (V6 (take 8 (octets (p_addr tailscale_via_range)) ++ to_be_bytes 4 site_id ++ a))
                       ((p_bits v4 + 64 + 32) mod 256))
  | V6 _ => Err "map_via: prefix must be IPv4"
  end.

(** ** Prefix lists *)

Definition prefixes_contains_ip (prefixes : list IpPrefix) (a : IpAddr) : bool := existsb (fun p => ts_contains p a) prefixes.
Definition is_exit_route (p : IpPrefix) : bool := bool_decide (p = all_ipv4) || bool_decide (p = all_ipv6).
Definition contains_exit_routes (prefixes : list IpPrefix) : bool :=
  existsb (fun p => bool_decide (p = all_ipv4)) prefixes && existsb (fun p => bool_decide (p = all_ipv6)) prefixes.
Definition contains_exit_route (prefixes : list IpPrefix) : bool := existsb is_exit_route prefixes.
Definition without_exit_routes (prefixes : list IpPrefix) : list IpPrefix := List.filter (fun p => negb (is_exit_route p)) prefixes.

Definition compare_ip (a b : IpAddr) : comparison :=
  match a, b with
  | V4 a, V4 b => bytes_cmp a b
  | V6 a, V6 b => bytes_cmp a b
  | V4 _, V6 _ => Lt
  | V6 _, V4 _ => Gt
  end.
Definition compare_prefix (a b : IpPrefix) : comparison :=
  then_with (compare_ip (p_addr a) (p_addr b)) (Nat.compare (p_bits a) (p_bits b)).
Definition sort_prefixes (l : list IpPrefix) : list IpPrefix := sort_by compare_prefix l.

(** [Vec::dedup]. *)
Fixpoint dedup (l : list IpPrefix) : list IpPrefix :=
  match l with
  | x :: (y :: _) as l' => if bool_decide (x = y) then dedup l' else x :: dedup l'
  | _ => l
  end.

(** [checked_shl] of all ones by [w - bits], which is computed in a [u8]. *)
Definition shl_mask (w bits : nat) : Z :=
  let s := (Z.of_nat w - Z.of_nat bits) mod 256 in
  if s <? Z.of_nat w then Z.land (Z.shiftl (Z.ones (Z.of_nat w)) s) (Z.ones (Z.of_nat w)) else 0.
Definition mask_v4 (a : list Z) (bits : nat) : list Z := to_be_bytes 4 (Z.land (from_be_bytes a) (shl_mask 32 bits)).
Definition mask_v6 (a : list Z) (bits : nat) : list Z := to_be_bytes 16 (Z.land (from_be_bytes a) (shl_mask 128 bits)).

Record Interface : Type := { oper_up : bool; loopback : bool; if_name : list Z; if_addr : IpAddr; prefixlen : nat }.

Definition interface_prefix (tun : list Z) (i : Interface) : list IpPrefix :=
  if negb (oper_up i) || loopback i || bool_decide (if_name i = tun) then []
  else if (prefixlen i =? 0)%nat then []
  else match if_addr i with
       | V4 a => [prefix (V4 (mask_v4 a (prefixlen i))) (prefixlen i)]
       | V6 a => [prefix (V6 (mask_v6 a (prefixlen i))) (prefixlen i)]
       end.
Definition interface_prefixes_from (tun : list Z) (interfaces : list Interface) : list IpPrefix :=
  dedup (sort_prefixes (concat (map (interface_prefix tun) interfaces))).

(** ** Containment and ranges *)

Lemma ts_contains_spec p a : wf p -> wf_ip a ->
  ts_contains p a = true <->
  is_ipv4 (p_addr p) = is_ipv4 a /\ take (p_bits p) (ip_bits a) = take (p_bits p) (ip_bits (p_addr p)).
Proof. exact (fcontains_spec p a). Qed.

(** The ranges in terms of octets. *)
Lemma in_4to6_range o : length o = 16%nat -> ts_contains tailscale_4to6_range (V6 o) = bool_decide (take 13 o = take 13 (octets (p_addr tailscale_4to6_range))).
Proof.
  intros Hl. unfold ts_contains, tailscale_4to6_range, prefix, v6_contains. cbn [p_addr p_bits octets].
  cbn [Nat.eqb Nat.ltb Nat.leb]. change (104 / 8)%nat with 13%nat. change (104 mod 8 =? 0)%nat with true. cbn [andb].
  rewrite (bool_decide_ext (take 13 o = _) (take 13 (groups_octets [64890; 4444; 41440; 43794; 18499; 52630; 25088; 0]) = take 13 o)) by (split; congruence).
  by destruct (bool_decide _).
Qed.
Lemma in_via_range o : length o = 16%nat -> ts_contains tailscale_via_range (V6 o) = bool_decide (take 8 o = take 8 (octets (p_addr tailscale_via_range))).
Proof.
  intros Hl. unfold ts_contains, tailscale_via_range, prefix, v6_contains. cbn [p_addr p_bits octets].
  cbn [Nat.eqb Nat.ltb Nat.leb]. change (64 / 8)%nat with 8%nat. change (64 mod 8 =? 0)%nat with true. cbn [andb].
  rewrite (bool_decide_ext (take 8 o = _) (take 8 (groups_octets [64890; 4444; 41440; 2842; 0; 0; 0; 0]) = take 8 o)) by (split; congruence).
  by destruct (bool_decide _).
Qed.

(** Every IPv4 address of the node has its place in the 4to6 range and is found
    again from there; nothing else is. *)
Lemma four_to_six_roundtrip a b c d : tailscale_6to4 (tailscale_4to6 [a; b; c; d]) = Some [100; b; c; d].
Proof. unfold tailscale_6to4. rewrite in_4to6_range by done. reflexivity. Qed.
Lemma six_to_four_inv o v4 : wf_ip (V6 o) -> tailscale_6to4 o = Some v4 -> tailscale_4to6 v4 = o.
Proof.
  intros [_ Hl]. cbn in Hl. unfold tailscale_6to4. rewrite in_4to6_range by done.
  destruct (bool_decide _) eqn:E; [|done]. apply bool_decide_eq_true in E. intros [= <-].
  unfold tailscale_4to6. rewrite <- E. cbn [drop]. do 16 (destruct o as [|? o]; [done|]). by destruct o.
Qed.

(** A site's IPv4 prefix is found again from its place in the via range, and
    different sites and prefixes have different places. *)
Lemma map_via_ok site a n : length a = 4%nat -> (n <= 32)%nat ->
  exists p, map_via site (prefix (V4 a) n) = Ok p /\ p_bits p = (96 + n)%nat /\ length (octets (p_addr p)) = 16%nat /\
    is_via_prefix p = true /\ unmap_via (p_addr p) = V4 a.
Proof.
  intros Ha Hn. eexists. split; [reflexivity|]. cbn [p_bits p_addr prefix octets].
  set (o := take 8 _ ++ to_be_bytes 4 site ++ a).
  assert (length o = 16%nat) as Hl by (unfold o; rewrite !length_app, length_to_be_bytes, Ha; reflexivity).
  assert (ts_contains tailscale_via_range (V6 o) = true) as Hin.
  { rewrite in_via_range by done. apply bool_decide_eq_true. unfold o. by rewrite take_app_length'. }
  assert ((n + 64 + 32) mod 256 = 96 + n)%nat as -> by (rewrite Nat.mod_small; lia).
  split; [done|]. split; [done|]. unfold is_via_prefix, unmap_via. cbn [p_addr p_bits prefix is_ipv4 negb]. rewrite Hin.
  split; [apply andb_true_iff; split; [done|]; apply Nat.leb_le; lia|].
  destruct a as [|a0 [|a1 [|a2 [|a3 []]]]]; try discriminate Ha. unfold o. cbn. reflexivity.
Qed.
Lemma map_via_inj site site' a a' p : 0 <= site < 2 ^ 32 -> 0 <= site' < 2 ^ 32 ->
  map_via site (prefix (V4 a) 32) = Ok p -> map_via site' (prefix (V4 a') 32) = Ok p -> site = site' /\ a = a'.
Proof.
  unfold map_via. cbn [p_addr prefix]. intros Hs Hs' E1 E2. rewrite <- E2 in E1. clear E2.
  assert (to_be_bytes 4 site ++ a = to_be_bytes 4 site' ++ a') as E 
    by exact (f_equal (fun r => match r with Ok p => drop 8 (octets (p_addr p)) | Err _ => [] end) E1). clear E1.
  apply app_inj_1 in E as [E ->]; [|by rewrite !length_to_be_bytes]. split; [|done].
  apply (f_equal from_be_bytes) in E. rewrite !from_to_be_bytes_small in E by done. done.
Qed.

(** ** Prefix lists *)

Definition ip_key (a : IpAddr) : list Z := match a with V4 o => 4 :: o | V6 o => 6 :: o end.
Lemma compare_ip_key a b : compare_ip a b = bytes_cmp (ip_key a) (ip_key b).
Proof. by destruct a, b. Qed.

#[global] Instance compare_prefix_comparator : Comparator compare_prefix.
Proof.
  assert (Comparator (fun x y => then_with (bytes_cmp (ip_key (p_addr x)) (ip_key (p_addr y))) (Z.of_nat (p_bits x) ?= Z.of_nat (p_bits y)))) as C.
  { apply comparator_then; [exact (comparator_on (fun x => ip_key (p_addr x)) _ _)|].
    exact (comparator_on (fun x => Z.of_nat (p_bits x)) _ comparator_Z). }
  assert (forall x y, compare_prefix x y = then_with (bytes_cmp (ip_key (p_addr x)) (ip_key (p_addr y))) (Z.of_nat (p_bits x) ?= Z.of_nat (p_bits y))) as E.
  { intros x y. unfold compare_prefix. by rewrite compare_ip_key, Nat2Z.inj_compare. }
  destruct C as [Ho Ht]. split; intros *; rewrite !E; [apply Ho|apply Ht].
Qed.

Lemma compare_prefix_eq a b : compare_prefix a b = Eq -> a = b.
Proof.
  unfold compare_prefix. rewrite compare_ip_key. destruct (bytes_cmp _ _) eqn:E; cbn; try done. intros Hb%Nat.compare_eq.
  apply bytes_cmp_eq in E. destruct a as [[] ?], b as [[] ?]; cbn in *; congruence.
Qed.

Lemma elem_of_dedup l x : x ∈ dedup l <-> x ∈ l.
Proof.
  induction l as [|y [|z l] IH]; [done..|]. cbn [dedup]. destruct (bool_decide_reflect (y = z)) as [->|Hne].
  - rewrite IH. rewrite !elem_of_cons. tauto.
  - rewrite elem_of_cons, IH, (elem_of_cons (z :: l)). tauto.
Qed.
Lemma dedup_sorted l : StronglySorted (le_by compare_prefix) l -> StronglySorted (fun x y => compare_prefix x y = Lt) (dedup l).
Proof.
  induction l as [|y [|z l] IH]; [constructor|repeat constructor|]. intros [Hs Hy]%StronglySorted_inv. cbn [dedup].
  destruct (bool_decide_reflect (y = z)) as [->|Hne]; [by apply IH|]. constructor; [by apply IH|]. rewrite list.Forall_forall in Hy.
  apply list.Forall_forall. intros x Hx. change (x ∈ dedup (z :: l)) in Hx. rewrite elem_of_dedup in Hx. assert (le_by compare_prefix y x) as Hyx by (by apply Hy).
  unfold le_by in Hyx. destruct (compare_prefix y x) eqn:E; [|done|done]. exfalso. apply compare_prefix_eq in E as ->.
  apply elem_of_cons in Hx as [->|Hx]; [done|]. apply StronglySorted_inv in Hs as [_ Hz]. rewrite list.Forall_forall in Hz.
  assert (le_by compare_prefix z x) as Hzx by (by apply Hz).
  assert (le_by compare_prefix x z) as Hxz by (apply Hy; left).
  apply Hne, compare_prefix_eq. unfold le_by in *. rewrite (cmp_opp (cmp := compare_prefix) x z) in Hzx.
  by destruct (compare_prefix x z).
Qed.

(** The prefixes of the interfaces: each once, in order, and exactly those of the
    active interfaces other than the tunnel. *)
Lemma interface_prefixes_spec tun interfaces :
  StronglySorted (fun x y => compare_prefix x y = Lt) (interface_prefixes_from tun interfaces) /\
  forall p, p ∈ interface_prefixes_from tun interfaces <->
    exists i, i ∈ interfaces /\ oper_up i = true /\ loopback i = false /\ if_name i <> tun /\ prefixlen i <> 0%nat /\
      p = match if_addr i with
          | V4 a => prefix (V4 (mask_v4 a (prefixlen i))) (prefixlen i)
          | V6 a => prefix (V6 (mask_v6 a (prefixlen i))) (prefixlen i)
          end.
Proof.
  split; [apply dedup_sorted, sort_by_sorted, _|]. intros p. unfold interface_prefixes_from, sort_prefixes.
  rewrite elem_of_dedup, elem_of_sort_by, list_elem_of_In, in_concat. split.
  - intros (l & (i & <- & Hi)%in_map_iff & Hp). exists i. apply list_elem_of_In in Hi. split; [done|].
    unfold interface_prefix in Hp. destruct (oper_up i), (loopback i), (bool_decide_reflect (if_name i = tun)); try done.
    cbn [negb orb] in Hp. destruct (Nat.eqb_spec (prefixlen i) 0); [done|]. split_and!; try done. by destruct (if_addr i), Hp.
  - intros (i & Hi & Hu & Hl & Hn & H0 & ->). exists (interface_prefix tun i). split; [apply in_map, list_elem_of_In; done|].
    unfold interface_prefix. rewrite Hu, Hl, bool_decide_eq_false_2 by done. cbn [negb orb]. rewrite (proj2 (Nat.eqb_neq _ _)) by done.
    destruct (if_addr i); by left.
Qed.
