(* ===== verification/DnsName.v ===== *)
(** * DNS names as strings: [crates/dnsname/src/lib.rs]

    An [Fqdn] is its inner string.  Names are proved to be what the crate says
    they are: sanitizing gives a valid label or nothing, and containment of names
    is that of their lists of labels. *)

From S2P Require Import Prelude Bytes Str.

Definition MAX_LABEL_LENGTH : nat := 63.
Definition MAX_NAME_LENGTH : nat := 254.

Inductive FqdnError : Type :=
| TooLong
| InvalidLabel.

(** ** Byte classes *)

Definition is_lower (c : Z) : bool := (97 <=? c) && (c <=? 122).
Definition is_upper (c : Z) : bool := (65 <=? c) && (c <=? 90).
Definition is_alpha (c : Z) : bool := is_lower c || is_upper c.
Definition is_alphanum (c : Z) : bool := is_alpha c || ((48 <=? c) && (c <=? 57)).
Definition is_dns_char (c : Z) : bool := is_alphanum c || (c =? 45).
Definition is_separator (c : Z) : bool := (c =? 32) || (c =? 46) || (c =? 64) || (c =? 95).
Definition to_lower (c : Z) : Z := if is_upper c then c + 97 - 65 else c.

(** ** [Fqdn] *)

Definition without_trailing_dot (f : list Z) : run (list Z) := n ← sub_usize (length f) 1; slice f 0 n.
Definition fqdn_num_labels (f : list Z) : nat := if bool_decide (f = [DOT]) then 0%nat else count_byte DOT f.
Definition fqdn_contains (f other : list Z) : bool :=
  bool_decide (f = other) || bool_decide (f = [DOT]) || ends_with other (DOT :: f).
Definition fqdn_parent (f : list Z) : list Z :=
  match split_once_char DOT f with
  | Some (_, rest) => if bool_decide (rest = []) then [] else rest
  | None => []
  end.

(** The labels that a dot follows are checked, the last one is not. *)
Definition label_ok (label : list Z) : bool := negb (bool_decide (label = [])) && (length label <=? MAX_LABEL_LENGTH)%nat.
Definition to_fqdn (s : list Z) : result FqdnError (list Z) :=
  if bool_decide (s = []) || bool_decide (s = [DOT]) then Ok [DOT]
  else
    let s := default s (strip_str_prefix s [DOT]) in
    let total_len := if ends_with s [DOT] then length s else (length s + 1)%nat in
    if (MAX_NAME_LENGTH <? total_len)%nat then Err TooLong
    else
      let inner := default s (strip_suffix s [DOT]) in
      if negb (forallb label_ok (removelast (split_char DOT inner))) then Err InvalidLabel
      else Ok (if ends_with s [DOT] then s else s ++ [DOT]).

(** ** Labels and host names *)

Definition valid_label (label : list Z) : run (result FqdnError unit) :=
  if bool_decide (label = []) then Ret (Err InvalidLabel)
  else if (MAX_LABEL_LENGTH <? length label)%nat then Ret (Err TooLong)
  else
    first ← idx label 0;
    if negb (is_alphanum first) then Ret (Err InvalidLabel)
    else
      last ← idx label (length label - 1);
      if negb (is_alphanum last) then Ret (Err InvalidLabel)
      else if (length label <? 2)%nat then Ret (Ok tt)
      else
        mid ← slice label 1 (length label - 1);
        Ret (if forallb is_dns_char mid then Ok tt else Err InvalidLabel).

(** The two loops that move [start] up and [end] down to a letter or digit. *)
Fixpoint drop_non_alphanum (s : list Z) : list Z :=
  match s with
  | c :: s' => if is_alphanum c then s else drop_non_alphanum s'
  | [] => []
  end.
Definition sanitize_bounds (label : list Z) : list Z :=
  reverse (drop_non_alphanum (reverse (drop_non_alphanum (take MAX_LABEL_LENGTH label)))).
Definition sanitize_char (boundary : bool) (c : Z) : list Z :=
  if negb boundary && is_separator c then [45] else if is_dns_char c then [to_lower c] else [].
Definition sanitize_label (label : list Z) : list Z :=
  let b := sanitize_bounds label in
  concat (imap (fun i c => sanitize_char ((i =? 0)%nat || (i =? length b - 1)%nat) c) b).

Definition has_suffix (name suffix : list Z) : bool :=
  let name := trim_end DOT name in
  let suffix := trim_start DOT (trim_end DOT suffix) in
  let name_base := default name (strip_suffix name suffix) in
  (length name_base <? length name)%nat && ends_with name_base [DOT].
Definition trim_suffix (name suffix : list Z) : list Z :=
  if has_suffix name suffix then
    let name := trim_end DOT name in
    let suffix := trim_end DOT (trim_start DOT suffix) in
    trim_end DOT (default name (strip_suffix name suffix))
  else trim_end DOT name.
Definition trim_common_suffixes (hostname : list Z) : list Z :=
  let hostname := default hostname (strip_suffix hostname (str_bytes ".local")) in
  let hostname := default hostname (strip_suffix hostname (str_bytes ".localdomain")) in
  default hostname (strip_suffix hostname (str_bytes ".lan")).
Definition sanitize_hostname (hostname : list Z) : list Z := sanitize_label (trim_common_suffixes hostname).

Definition num_labels (hostname : list Z) : nat :=
  if bool_decide (hostname = []) || bool_decide (hostname = [DOT]) then 0%nat else count_byte DOT hostname.
Definition first_label (hostname : list Z) : list Z := default [] (head (split_char DOT hostname)).

Fixpoint valid_labels (labels : list (list Z)) : run (result FqdnError unit) :=
  match labels with
  | [] => Ret (Ok tt)
  | l :: labels => r ← valid_label l; match r with Ok _ => valid_labels labels | Err e => Ret (Err e) end
  end.
Definition valid_hostname (hostname : list Z) : run (result FqdnError unit) :=
  match to_fqdn hostname with
  | Err e => Ret (Err e)
  | Ok fqdn => f ← without_trailing_dot fqdn; valid_labels (split_char DOT f)
  end.

(** ** Valid labels *)

Definition good_label (l : list Z) : Prop :=
  (0 < length l <= MAX_LABEL_LENGTH)%nat /\ Forall (fun c => is_dns_char c = true) l /\
  (exists c, list.head l = Some c /\ is_alphanum c = true) /\ (exists c, list.last l = Some c /\ is_alphanum c = true).

Lemma idx_head {A} (l : list A) : l <> [] -> exists x, list.head l = Some x /\ idx l 0 = Ret x.
Proof. destruct l as [|x l]; [done|]. by exists x. Qed.
Lemma idx_last {A} (l : list A) : l <> [] -> exists x, list.last l = Some x /\ idx l (length l - 1) = Ret x.
Proof.
  intros Hl. destruct (list.last l) as [x|] eqn:E; [|by apply last_None in E]. exists x. split; [done|].
  apply idx_lookup. replace (length l - 1)%nat with (pred (length l)) by lia. by rewrite <- last_lookup.
Qed.
Lemma alphanum_dns c : is_alphanum c = true -> is_dns_char c = true.
Proof. unfold is_dns_char. by intros ->. Qed.

Lemma middle_elem {A} (l : list A) x : x ∈ l -> (exists a, list.head l = Some a /\ x = a) \/ (exists a, list.last l = Some a /\ x = a) \/ x ∈ take (length l - 2) (drop 1 l).
Proof.
  intros Hx. destruct l as [|a l]; [by apply not_elem_of_nil in Hx|]. apply elem_of_cons in Hx as [->|Hx]; [left; by exists a|]. right.
  destruct l as [|b l] using rev_ind; [by apply not_elem_of_nil in Hx|]. apply elem_of_app in Hx as [Hx|Hx%list_elem_of_singleton]; [right|left].
  - assert (length (a :: l ++ [b]) - 2 = length l)%nat as -> by (cbn; rewrite length_app; cbn; lia).
    change (drop 1 (a :: l ++ [b])) with (l ++ [b]). by rewrite take_app_length.
  - exists b. by rewrite app_comm_cons, last_snoc.
Qed.

Lemma valid_label_spec l : exists r, valid_label l = Ret r /\ (r = Ok tt <-> good_label l).
Proof.
  unfold valid_label, good_label. destruct (bool_decide_reflect (l = [])) as [->|Hne].
  { eexists. split; [done|]. split; [done|]. intros ((H & _) & _). cbn in H. lia. }
  destruct (Nat.ltb_spec MAX_LABEL_LENGTH (length l)) as [Hlong|Hlen].
  { eexists. split; [done|]. split; [done|]. intros ((_ & H) & _). lia. }
  assert (0 < length l)%nat as Hpos by (destruct l; [done|cbn; lia]).
  destruct (idx_head l Hne) as (a & Ha & ->), (idx_last l Hne) as (z & Hz & E). cbn [mbind run_bind]. rewrite E. clear E.
  destruct (is_alphanum a) eqn:Ea; cbn [negb].
  2:{ eexists. split; [done|]. split; [done|]. intros (_ & _ & (c & Hc & Hcc) & _). congruence. }
  cbn [mbind run_bind]. destruct (is_alphanum z) eqn:Ez; cbn [negb].
  2:{ eexists. split; [done|]. split; [done|]. intros (_ & _ & _ & (c & Hc & Hcc)). congruence. }
  destruct (Nat.ltb_spec (length l) 2) as [H1|H2].
  - eexists. split; [done|]. split; [|done]. intros _. split; [lia|]. split; [|split; eauto]. destruct l as [|x [|y l]]; cbn in *; [done| |lia].
    injection Ha as ->. constructor; [by apply alphanum_dns|constructor].
  - rewrite slice_ok by lia. cbn [mbind run_bind]. eexists. split; [done|].
    replace (length l - 1 - 1)%nat with (length l - 2)%nat by lia.
    destruct (forallb is_dns_char (take (length l - 2) (drop 1 l))) eqn:F.
    + split; [|done]. intros _. split; [lia|]. split; [|split; eauto]. apply list.Forall_forall. intros x Hx.
      rewrite forallb_forall in F. apply middle_elem in Hx as [(c & Hc & ->)|[(c & Hc & ->)|Hx]].
      * apply alphanum_dns. congruence.
      * apply alphanum_dns. congruence.
      * apply F. by apply list_elem_of_In.
    + split; [done|]. intros (_ & H & _). assert (forallb is_dns_char (take (length l - 2) (drop 1 l)) = true) as F'; [|congruence].
      apply forallb_forall. intros x Hx%list_elem_of_In. apply (Forall_drop _ 1), (Forall_take _ (length l - 2)) in H.
      rewrite list.Forall_forall in H. by apply H.
Qed.

(** ** Sanitizing *)

Lemma drop_non_alphanum_head s : match drop_non_alphanum s with [] => True | c :: _ => is_alphanum c = true end.
Proof. induction s as [|c s IH]; cbn; [done|]. by destruct (is_alphanum c) eqn:E. Qed.
Lemma drop_non_alphanum_suffix s : exists p, s = p ++ drop_non_alphanum s.
Proof.
  induction s as [|c s [p IH]]; cbn; [by exists []|]. destruct (is_alphanum c); [by exists []|]. exists (c :: p). cbn. by rewrite <- IH.
Qed.
Lemma drop_non_alphanum_id s : match s with [] => True | c :: _ => is_alphanum c = true end -> drop_non_alphanum s = s.
Proof. destruct s as [|c s]; [done|]. cbn. by intros ->. Qed.

Lemma sanitize_bounds_spec l : sanitize_bounds l = [] \/
  (exists c, list.head (sanitize_bounds l) = Some c /\ is_alphanum c = true) /\
  (exists c, list.last (sanitize_bounds l) = Some c /\ is_alphanum c = true).
Proof.
  unfold sanitize_bounds. set (s := drop_non_alphanum (take MAX_LABEL_LENGTH l)).
  destruct (drop_non_alphanum (reverse s)) as [|z r] eqn:E; [by left|]. right. split.
  - destruct (drop_non_alphanum_suffix (reverse s)) as [p Hp]. rewrite E in Hp. apply (f_equal reverse) in Hp.
    rewrite reverse_involutive, reverse_app in Hp. pose proof (drop_non_alphanum_head (take MAX_LABEL_LENGTH l)) as Hh. fold s in Hh.
    destruct (reverse (z :: r)) as [|c t] eqn:Er; [by apply (f_equal length) in Er; rewrite length_reverse in Er|].
    rewrite Hp in Hh. cbn in Hh |- *. eauto.
  - exists z. rewrite last_reverse. split; [done|]. pose proof (drop_non_alphanum_head (reverse s)) as Hz. by rewrite E in Hz.
Qed.
Lemma length_sanitize_bounds l : (length (sanitize_bounds l) <= MAX_LABEL_LENGTH)%nat.
Proof.
  unfold sanitize_bounds. rewrite length_reverse. set (s := drop_non_alphanum (take MAX_LABEL_LENGTH l)).
  destruct (drop_non_alphanum_suffix (take MAX_LABEL_LENGTH l)) as [p Hp], (drop_non_alphanum_suffix (reverse s)) as [q Hq].
  apply (f_equal length) in Hp, Hq. rewrite length_app in Hp, Hq. rewrite length_reverse in Hq. rewrite length_take in Hp. fold s in Hp. lia.
Qed.

Lemma sanitize_boundary c : is_alphanum c = true -> sanitize_char true c = [to_lower c].
Proof. intros H. unfold sanitize_char. by rewrite alphanum_dns. Qed.
Lemma imap_interior (mid : list Z) : forall k n, (0 < k)%nat -> (k + length mid <= n)%nat ->
  imap (fun i c => sanitize_char ((k + i =? 0)%nat || (k + i =? n)%nat) c) mid = map (sanitize_char false) mid.
Proof.
  induction mid as [|c mid IH]; intros k n Hk Hn; [done|]. cbn [length] in Hn. cbn [imap map].
  rewrite (proj2 (Nat.eqb_neq _ _)), (proj2 (Nat.eqb_neq _ _)) by lia. cbn [orb]. f_equal.
  rewrite <- (IH (S k) n) by lia. apply imap_ext. intros i x _. cbn. by rewrite Nat.add_succ_r.
Qed.

Lemma sanitize_middle a mid z : is_alphanum a = true -> is_alphanum z = true ->
  concat (imap (fun i c => sanitize_char ((i =? 0)%nat || (i =? length (a :: mid ++ [z]) - 1)%nat) c) (a :: mid ++ [z])) =
  to_lower a :: concat (map (sanitize_char false) mid) ++ [to_lower z].
Proof.
  intros Ha Hz. cbn [imap]. cbn [Nat.eqb orb concat]. rewrite sanitize_boundary by done. cbn [app]. f_equal.
  assert (length (a :: mid ++ [z]) - 1 = S (length mid))%nat as -> by (cbn; rewrite length_app; cbn; lia).
  rewrite imap_app, concat_app. f_equal.
  - f_equal. rewrite <- (imap_interior mid 1 (S (length mid))) by lia. apply imap_ext. intros i x _. done.
  - cbn. rewrite Nat.add_0_r, Nat.eqb_refl. rewrite sanitize_boundary by done. done.
Qed.

Lemma to_lower_alphanum c : is_alphanum c = true -> is_alphanum (to_lower c) = true /\ is_upper (to_lower c) = false.
Proof.
  unfold is_alphanum, is_alpha, to_lower. destruct (is_upper c) eqn:E.
  - intros _. unfold is_upper, is_lower in *. apply andb_true_iff in E as [H1%Z.leb_le H2%Z.leb_le].
    assert ((97 <=? c + 97 - 65) = true) as -> by (apply Z.leb_le; lia). assert ((c + 97 - 65 <=? 122) = true) as -> by (apply Z.leb_le; lia).
    split; [done|]. apply andb_false_iff. right. apply Z.leb_gt. lia.
  - by rewrite E.
Qed.
Lemma to_lower_dns c : is_dns_char c = true -> is_dns_char (to_lower c) = true /\ is_upper (to_lower c) = false.
Proof.
  unfold is_dns_char. destruct (is_alphanum c) eqn:E.
  - intros _. apply to_lower_alphanum in E as [-> ->]. done.
  - cbn. intros ->%Z.eqb_eq. done.
Qed.
Lemma sanitize_char_dns b c : Forall (fun x => is_dns_char x = true /\ is_upper x = false) (sanitize_char b c) /\ (length (sanitize_char b c) <= 1)%nat.
Proof.
  unfold sanitize_char. destruct (negb b && is_separator c); [by repeat constructor|].
  destruct (is_dns_char c) eqn:E; [|repeat constructor]. split; [constructor; [by apply to_lower_dns|constructor]|done].
Qed.
Lemma sanitize_chars mid : Forall (fun x => is_dns_char x = true /\ is_upper x = false) (concat (map (sanitize_char false) mid)) /\
  (length (concat (map (sanitize_char false) mid)) <= length mid)%nat.
Proof.
  induction mid as [|c mid [IH1 IH2]]; cbn; [by split; [constructor|]|]. destruct (sanitize_char_dns false c) as [H1 H2].
  rewrite length_app. split; [|lia]. by apply list.Forall_app.
Qed.

Lemma head_last_split {A} (l : list A) a z : list.head l = Some a -> list.last l = Some z ->
  l = [a] /\ a = z \/ exists mid, l = a :: mid ++ [z].
Proof.
  destruct l as [|x l]; [done|]. cbn [list.head]. intros [= ->] Hz. destruct l as [|y l] using rev_ind; [left; cbn in Hz; split; congruence|].
  right. exists l. rewrite app_comm_cons, last_snoc in Hz. injection Hz as ->. done.
Qed.

Lemma sanitize_bounded b : (length b <= MAX_LABEL_LENGTH)%nat ->
  (exists c, list.head b = Some c /\ is_alphanum c = true) -> (exists c, list.last b = Some c /\ is_alphanum c = true) ->
  let r := concat (imap (fun i c => sanitize_char ((i =? 0)%nat || (i =? length b - 1)%nat) c) b) in
  good_label r /\ Forall (fun x => is_upper x = false) r.
Proof.
  intros Hl (a & Ha & Haa) (z & Hz & Hzz). pose proof (to_lower_alphanum a Haa) as [La Ua]. pose proof (to_lower_alphanum z Hzz) as [Lz Uz].
  destruct (head_last_split b a z Ha Hz) as [[-> ->]|[mid ->]].
  - cbv zeta. cbn [imap concat length Nat.sub Nat.eqb orb]. rewrite sanitize_boundary by done. cbn [app].
    split; [|by repeat constructor]. unfold good_label. cbn [length list.head list.last].
    split; [unfold MAX_LABEL_LENGTH; lia|]. split; [by repeat constructor; apply alphanum_dns|]. split; eauto.
  - cbv zeta. rewrite sanitize_middle by done. destruct (sanitize_chars mid) as [Hm Hlen]. set (m := concat _) in *.
    split; [|constructor; [done|]; apply list.Forall_app; split; [by eapply list.Forall_impl; [exact Hm|intros ? []]|by repeat constructor]].
    unfold good_label. split; [cbn in *; rewrite length_app in *; cbn in *; lia|].
    split; [constructor; [by apply alphanum_dns|]; apply list.Forall_app; split;
      [by eapply list.Forall_impl; [exact Hm|intros ? []]|by repeat constructor; apply alphanum_dns]|].
    split; [by exists (to_lower a)|]. exists (to_lower z). by rewrite app_comm_cons, last_snoc.
Qed.

Lemma sanitize_bounds_id l : good_label l -> sanitize_bounds l = l.
Proof.
  intros ((_ & Hl) & _ & (a & Ha & Haa) & (z & Hz & Hzz)). unfold sanitize_bounds. rewrite take_ge by done.
  rewrite (drop_non_alphanum_id l) by (destruct l; [done|]; cbn in Ha; congruence).
  rewrite drop_non_alphanum_id; [apply reverse_involutive|].
  rewrite <- (reverse_involutive l), last_reverse in Hz. destruct (reverse l); [done|]. cbn in Hz. congruence.
Qed.

Lemma dns_not_separator c : is_dns_char c = true -> is_separator c = false.
Proof.
  unfold is_dns_char, is_alphanum, is_alpha, is_lower, is_upper, is_separator. intros H.
  repeat match goal with |- context[?x =? ?y] => destruct (Z.eqb_spec x y); subst; try discriminate H end; done.
Qed.

Lemma sanitize_dns l n : forall k, Forall (fun c => is_dns_char c = true) l ->
  concat (imap (fun i c => sanitize_char ((k + i =? 0)%nat || (k + i =? n)%nat) c) l) = map to_lower l.
Proof.
  induction l as [|c l IH]; intros k Hf; [done|]. apply Forall_cons_1 in Hf as [Hc Hf]. cbn [imap concat map].
  unfold sanitize_char at 1. rewrite dns_not_separator, Hc, andb_false_r by done. cbn [app]. f_equal.
  rewrite <- (IH (S k) Hf). f_equal. apply imap_ext. intros i x _. unfold compose. by replace (k + S i)%nat with (S k + i)%nat by lia.
Qed.

(** Sanitizing a label gives nothing or a valid label without capitals; a valid
    label only loses its capitals. *)
Theorem sanitize_label_valid l :
  (sanitize_label l = [] \/ good_label (sanitize_label l)) /\ Forall (fun x => is_upper x = false) (sanitize_label l) /\
  (good_label l -> sanitize_label l = map to_lower l).
Proof.
  split; [|split].
  - destruct (sanitize_bounds_spec l) as [E|[Hh Hz]]; [left; unfold sanitize_label; by rewrite E|right].
    apply (sanitize_bounded (sanitize_bounds l) (length_sanitize_bounds l) Hh Hz).
  - destruct (sanitize_bounds_spec l) as [E|[Hh Hz]]; [unfold sanitize_label; rewrite E; constructor|].
    apply (sanitize_bounded (sanitize_bounds l) (length_sanitize_bounds l) Hh Hz).
  - intros Hg. unfold sanitize_label. rewrite sanitize_bounds_id by done. destruct Hg as (_ & Hf & _).
    exact (sanitize_dns l (length l - 1) 0 Hf).
Qed.

(** ** Fully qualified names *)

Lemma ends_with_dot s : ends_with s [DOT] = true <-> list.last s = Some DOT.
Proof.
  rewrite ends_with_true. split; [intros [t ->]; by rewrite last_snoc|]. intros H. apply last_Some in H as [t ->]. by exists t.
Qed.
Lemma strip_dot t : strip_suffix (t ++ [DOT]) [DOT] = Some t.
Proof.
  unfold strip_suffix. rewrite ends_with_app, length_app. cbn [length]. replace (length t + 1 - 1)%nat with (length t) by lia.
  by rewrite take_app_length.
Qed.
Lemma strip_no_dot s : ends_with s [DOT] = false -> strip_suffix s [DOT] = None.
Proof. unfold strip_suffix. by intros ->. Qed.

(** What [to_fqdn] returns: a name of at most 254 bytes that ends in a dot and
    whose labels, the last excepted, have 1 to 63 bytes; it is its own
    normal form. *)
Lemma to_fqdn_shape s f : to_fqdn s = Ok f ->
  f = [DOT] \/ exists inner, f = inner ++ [DOT] /\ (length f <= MAX_NAME_LENGTH)%nat /\ forallb label_ok (removelast (split_char DOT inner)) = true.
Proof.
  unfold to_fqdn. destruct (bool_decide (s = []) || bool_decide (s = [DOT])) eqn:E0; [intros [= <-]; by left|].
  set (t := default s _). destruct (ends_with t [DOT]) eqn:Ed.
  - apply ends_with_inv in Ed as [u Eu]. rewrite Eu, strip_dot. cbn [default from_option id]. destruct (Nat.ltb_spec MAX_NAME_LENGTH (length (u ++ [DOT]))); [done|].
    destruct (forallb _ _) eqn:F; [|done]. cbn [negb]. intros [= <-]. right. by exists u.
  - rewrite strip_no_dot by done. cbn [default from_option id]. destruct (Nat.ltb_spec MAX_NAME_LENGTH (length t + 1)); [done|].
    destruct (forallb _ _) eqn:F; [|done]. cbn [negb]. intros [= <-]. right. exists t. split; [done|]. rewrite length_app. cbn. split; [lia|done].
Qed.

Lemma labels_no_leading_dot u : forallb label_ok (removelast (split_char DOT u)) = true -> list.head u <> Some DOT.
Proof.
  destruct u as [|c u]; [done|]. cbn [list.head split_char]. destruct (Z.eqb_spec c DOT) as [->|]; [|congruence].
  destruct (split_char DOT u) eqn:E; [by apply split_char_nonempty in E|]. done.
Qed.

Theorem to_fqdn_idempotent s f : to_fqdn s = Ok f -> to_fqdn f = Ok f.
Proof.
  intros [->|(u & -> & Hl & Hf)]%to_fqdn_shape; [done|]. pose proof (labels_no_leading_dot u Hf) as Hh. unfold to_fqdn.
  destruct (bool_decide_reflect (u ++ [DOT] = [])) as [E|_]; [by destruct u|].
  destruct (bool_decide_reflect (u ++ [DOT] = [DOT])) as [E|Hne]; cbn [orb]; [by rewrite E|].
  assert (strip_str_prefix (u ++ [DOT]) [DOT] = None) as ->.
  { unfold strip_str_prefix, starts_with. destruct u as [|c u]; [done|]. cbn in Hh |- *. rewrite bool_decide_eq_false_2; [done|]. congruence. }
  cbn [default]. rewrite ends_with_app, strip_dot. cbn [default from_option id]. rewrite (proj2 (Nat.ltb_ge _ _)) by done. by rewrite Hf.
Qed.

(** The last label is not checked, so a name may end in more than one dot. *)
Example to_fqdn_two_dots : to_fqdn (str_bytes "a..") = Ok (str_bytes "a..").
Proof. reflexivity. Qed.

(** Containment is that of the lists of labels: a name contains those whose
    labels end in its own. *)
Definition fqdn_labels (f : list Z) : list (list Z) := if bool_decide (f = [DOT]) then [] else split_char DOT (removelast f).

Lemma split_suffix c s t : split_char c (s ++ c :: t) = split_char c s ++ split_char c t.
Proof.
  induction s as [|x s IH]; cbn; [by rewrite Z.eqb_refl|]. rewrite IH. destruct (x =? c); [done|].
  destruct (split_char c s) eqn:E; [by apply split_char_nonempty in E|]. done.
Qed.
Lemma split_join_app c a b : a <> [] -> b <> [] -> join [c] (a ++ b) = join [c] a ++ c :: join [c] b.
Proof.
  intros Ha Hb. induction a as [|x a IH]; [done|]. destruct a as [|y a].
  - cbn [app]. rewrite join_cons by done. done.
  - cbn [app]. rewrite join_cons by done. cbn [app] in IH. rewrite IH by done. rewrite (join_cons [c] x (y :: a)) by done. by rewrite <- !app_assoc.
Qed.

Lemma fqdn_contains_labels u v : u <> [] -> v <> [] ->
  fqdn_contains (u ++ [DOT]) (v ++ [DOT]) = true <-> exists ls, split_char DOT v = ls ++ split_char DOT u.
Proof.
  intros Hu Hv. unfold fqdn_contains. assert (u ++ [DOT] <> [DOT]) as Hne.
  { intros E. apply (f_equal length) in E. rewrite length_app in E. destruct u; [done|]. cbn in E. lia. }
  rewrite (bool_decide_eq_false_2 (u ++ [DOT] = [DOT])) by done. rewrite orb_false_r, orb_true_iff, bool_decide_eq_true, ends_with_true. split.
  - intros [E|[t E]]; [apply app_inj_tail in E as [-> _]; by exists []|].
    assert (v = t ++ DOT :: u) as ->. { rewrite app_comm_cons, app_assoc in E. by apply app_inj_tail in E as [-> _]. }
    exists (split_char DOT t). apply split_suffix.
  - intros [ls E]. destruct ls as [|l ls].
    + left. cbn in E. apply (f_equal (join [DOT])) in E. rewrite !join_split in E. by rewrite E.
    + right. exists (join [DOT] (l :: ls)). apply (f_equal (join [DOT])) in E.
      rewrite join_split, split_join_app, join_split in E by (done || apply split_char_nonempty). rewrite E. by rewrite <- app_assoc.
Qed.
Lemma fqdn_contains_root v : fqdn_contains [DOT] v = true.
Proof. unfold fqdn_contains. cbn. by rewrite orb_true_r. Qed.
