(* ===== verification/DnsWire.v ===== *)
(** * The DNS wire codec: [crates/dns/src/wire.rs]

    Questions are parsed from untrusted bytes, following compression pointers;
    responses echo the question and point their answers back at it. *)

From S2P Require Import Prelude Bytes IpAddr Utf8 Str.

Definition HEADER_BYTES : nat := 12.
Definition DNS_FLAG_TRUNCATED : Z := 0x0200.

Module qtype.
Definition A : Z := 1.
Definition NS : Z := 2.
Definition SOA : Z := 6.
Definition PTR : Z := 12.
Definition HINFO : Z := 13.
Definition AAAA : Z := 28.
Definition OPT : Z := 41.
Definition AXFR : Z := 252.
Definition ALL : Z := 255.
End qtype.

Module rcode.
Definition SUCCESS : Z := 0.
Definition FORMAT_ERROR : Z := 1.
Definition NAME_ERROR : Z := 3.
Definition NOT_IMPLEMENTED : Z := 4.
Definition REFUSED : Z := 5.
End rcode.

(** [u16::from_be_bytes] of the two bytes at [i]. *)
Definition u16_at (b : list Z) (i : nat) : run Z := h ← idx b i; l ← idx b (i + 1); Ret (from_be_bytes [h; l]).

(** ** Truncation *)

Definition truncated_flag_set (pkt : list Z) : run bool :=
  if (length pkt <? HEADER_BYTES)%nat then Ret false
  else flags ← u16_at pkt 2; Ret (negb (Z.land flags DNS_FLAG_TRUNCATED =? 0)).

Definition set_tc_flag (packet : list Z) : run (list Z) :=
  if (length packet <? HEADER_BYTES)%nat then Ret packet
  else
    flags ← u16_at packet 2;
    Ret (take 2 packet ++ to_be_bytes 2 (Z.lor flags DNS_FLAG_TRUNCATED) ++ drop 4 packet).

Definition OPT_FIXED_BYTES : nat := 11.
Definition get_edns_buffer_size (packet : list Z) : run (option Z) :=
  if (length packet <? HEADER_BYTES + OPT_FIXED_BYTES)%nat then Ret None
  else
    ar_count ← u16_at packet 10;
    if ar_count =? 0 then Ret None
    else
      opt ← slice_from packet (length packet - OPT_FIXED_BYTES);
      name ← idx opt 0;
      if negb (name =? 0) then Ret None
      else
        ty ← u16_at opt 1;
        if negb (ty =? qtype.OPT) then Ret None
        else
          requested_size ← u16_at opt 3;
          version ← idx opt 6;
          if negb (version =? 0) then Ret None
          else
            rdlen ← u16_at opt 9;
            Ret (if negb (rdlen =? 0) then None else Some requested_size).

Definition DEFAULT_UDP_SIZE : Z := 512.
Definition check_response_size_and_set_tc (response request : list Z) (udp : bool) : run (list Z) :=
  if negb udp then Ret response
  else if (length response <? HEADER_BYTES)%nat then Ret response
  else
    tc ← truncated_flag_set response;
    if tc : bool then Ret response
    else
      edns ← get_edns_buffer_size request;
      if default DEFAULT_UDP_SIZE edns <? Z.of_nat (length response) then set_tc_flag response else Ret response.

(** ** Questions *)

Definition MAX_POINTER_HOPS : nat := 64.
Definition MAX_LABEL_BYTES : nat := 63.
Definition MAX_NAME_BYTES : nat := 255.

(** The loop of [parse_name].  A turn follows a pointer or takes a label, of which
    the limits allow 65 and 127, so 200 turns are enough; running out of them
    would be a panic. *)
Fixpoint parse_name_loop (fuel : nat) (buf : list Z) (pos : nat) (labels : list (list Z)) (after : option nat)
    (jumped : bool) (hops expanded_len : nat) : run (option (list Z * nat)) :=
  match fuel with
  | O => Panic
  | S fuel =>
      if (length buf <=? pos)%nat || (MAX_POINTER_HOPS <? hops)%nat then Ret None
      else
        len ← idx buf pos;
        if len =? 0 then
          let after := if negb jumped && negb (is_some after) then Some (pos + 1)%nat else after in
          Ret (Some (join [DOT] labels, default pos after))
        else if Z.land len 0xC0 =? 0xC0 then
          if (length buf <=? pos + 1)%nat then Ret None
          else
            let after := if negb jumped && negb (is_some after) then Some (pos + 2)%nat else after in
            low ← idx buf (pos + 1);
            let offset := Z.to_nat (Z.lor (Z.shiftl (Z.land len 0x3F) 8) low) in
            if (length buf <=? offset)%nat then Ret None
            else parse_name_loop fuel buf offset labels after true (hops + 1) expanded_len
        else if negb (Z.land len 0xC0 =? 0) then Ret None
        else
          let label_len := Z.to_nat len in
          if (MAX_LABEL_BYTES <? label_len)%nat || (length buf <? pos + 1 + label_len)%nat then Ret None
          else
            let expanded_len := (expanded_len + (label_len + 1))%nat in
            if (MAX_NAME_BYTES <? expanded_len)%nat then Ret None
            else
              label ← slice buf (pos + 1) (pos + 1 + label_len);
              if negb (is_utf8 label) then Ret None
              else parse_name_loop fuel buf (pos + 1 + label_len) (labels ++ [label]) after jumped hops expanded_len
  end.
Definition PARSE_NAME_FUEL : nat := 200.
Definition parse_name (buf : list Z) (pos : nat) : run (option (list Z * nat)) :=
  parse_name_loop PARSE_NAME_FUEL buf pos [] None false 0 1.

Definition parse_question (buf : list Z) : run (option (list Z * Z * Z)) :=
  if (length buf <? 12)%nat then Ret None
  else
    qd ← u16_at buf 4;
    if negb (qd =? 1) then Ret None
    else
      r ← parse_name buf 12;
      match r with
      | None => Ret None
      | Some (name, after_name) =>
          if (length buf <? after_name + 4)%nat then Ret None
          else
            qtype ← u16_at buf after_name;
            qclass ← u16_at buf (after_name + 2);
            Ret (Some (name, qtype, qclass))
      end.

Definition question_end (buf : list Z) : run (option nat) :=
  r ← parse_name buf 12;
  Ret match r with
      | None => None
      | Some (_, after_name) => let e := (after_name + 4)%nat in if (e <=? length buf)%nat then Some e else None
      end.

(** ** Responses *)

Definition response_flags (flags code : Z) : Z :=
  let opcode := Z.land (Z.shiftr flags 11) 0xF in
  let rd := Z.land (Z.shiftr flags 8) 1 in
  Z.lor (Z.lor (Z.lor (Z.lor 0x8000 (Z.shiftl opcode 11)) (Z.shiftl rd 8)) 0x80) (Z.land code 0xF).
Definition response_header (query : list Z) (code : Z) (ancount : Z) : run (list Z) :=
  id0 ← idx query 0; id1 ← idx query 1;
  flags ← u16_at query 2;
  Ret ([id0; id1] ++ to_be_bytes 2 (response_flags flags code) ++ [0; 1] ++ to_be_bytes 2 ancount ++ [0; 0; 0; 0]).

(** The start of every response that echoes the question: the end of the question,
    with the bytes so far. *)
Definition response_start (query : list Z) (code : Z) (ancount : Z) : run (option (list Z)) :=
  if (length query <? 12)%nat then Ret None
  else
    qend ← question_end query;
    match qend with
    | None => Ret None
    | Some qend =>
        header ← response_header query code ancount;
        question ← slice query 12 qend;
        Ret (Some (header ++ question))
    end.

Definition record_start (rtype rdlen : Z) : list Z :=
  [0xC0; 0x0C] ++ to_be_bytes 2 rtype ++ to_be_bytes 2 1 ++ to_be_bytes 4 300 ++ to_be_bytes 2 rdlen.

(** [build_addr_response] with the octets of the addresses; the record type and
    length are those of the question's type, whatever the addresses are. *)
Definition build_addr_response (query : list Z) (ips : list (list Z)) : run (option (list Z)) :=
  if (length query <? 12)%nat then Ret None
  else
    qend ← question_end query;
    match qend with
    | None => Ret None
    | Some qend =>
        q ← parse_question query;
        match q with
        | None => Ret None
        | Some (_, qtype, _) =>
            let is_aaaa := qtype =? 28 in
            let rtype := if is_aaaa then 28 else 1 in
            let rdlen := if is_aaaa then 16 else 4 in
            header ← response_header query 0 (Z.of_nat (length ips) mod 65536);
            question ← slice query 12 qend;
            Ret (Some (header ++ question ++ concat (map (fun ip => record_start rtype rdlen ++ ip) ips)))
        end
    end.
Definition build_a_response (query : list Z) (ips : list (list Z)) : run (option (list Z)) := build_addr_response query ips.
Definition build_aaaa_response (query : list Z) (ips : list (list Z)) : run (option (list Z)) := build_addr_response query ips.

Definition build_nxdomain (query : list Z) : run (option (list Z)) := response_start query 3 0.
Definition build_rcode_response (query : list Z) (code : Z) : run (option (list Z)) := response_start query code 0.

(** Lengths of labels are cut to a byte. *)
Definition encode_name (name : list Z) : list Z :=
  if bool_decide (name = []) then [0]
  else concat (map (fun label => (Z.of_nat (length label) mod 256) :: label) (split_char DOT name)) ++ [0].
Definition build_ptr_response (query : list Z) (ptr_name : list Z) : run (option (list Z)) :=
  start ← response_start query 0 1;
  match start with
  | None => Ret None
  | Some resp =>
      let rdata := encode_name (trim_end DOT ptr_name) in
      Ret (Some (resp ++ record_start qtype.PTR (Z.of_nat (length rdata) mod 65536) ++ rdata))
  end.

Definition build_format_error_response (query : list Z) : list Z :=
  let id0 := default 0 (query !! 0%nat) in
  let id1 := default 0 (query !! 1%nat) in
  let request_flags := if (4 <=? length query)%nat then from_be_bytes (take 2 (drop 2 query)) else 0 in
  [id0; id1] ++ to_be_bytes 2 (response_flags request_flags rcode.FORMAT_ERROR) ++ [0; 0; 0; 0; 0; 0; 0; 0].
