(* ===== verification/DnsWireSpec.v ===== *)
(** * What the DNS codec promises

    Parsing arbitrary bytes returns within its limits, a question survives
    encoding, and a reference decoder reads back every response. *)

From S2P Require Import Prelude Bytes IpAddr Utf8 Str DnsWire.

(** ** Parsing returns *)

Lemma u16_at_ok b i : (i + 2 <= length b)%nat -> exists v, u16_at b i = Ret v /\ v = from_be_bytes (take 2 (drop i b)).
Proof.
  intros H. destruct (lookup_lt_is_Some_2 b i ltac:(lia)) as [x Hx], (lookup_lt_is_Some_2 b (i + 1) ltac:(lia)) as [y Hy].
  unfold u16_at. rewrite (idx_lookup _ _ _ Hx), (idx_lookup _ _ _ Hy). cbn [mbind run_bind]. eexists. split; [done|].
  rewrite (drop_S _ _ _ Hx). replace (S i) with (i + 1)%nat by lia. rewrite (drop_S _ _ _ Hy). done.
Qed.
Lemma u16_at_eq b i : (i + 2 <= length b)%nat -> u16_at b i = Ret (from_be_bytes (take 2 (drop i b))).
Proof. intros (v & -> & ->)%u16_at_ok. done. Qed.

Lemma idx_middle (pre t : list Z) x : idx (pre ++ x :: t) (length pre) = Ret x.
Proof. apply idx_lookup. by rewrite list_lookup_middle. Qed.

Lemma lookup_byte (b : list Z) i x : wf_bytes b -> b !! i = Some x -> is_u8 x.
Proof. intros H Hx. unfold wf_bytes in H. rewrite list.Forall_forall in H. apply H. by apply list_elem_of_lookup_2 in Hx. Qed.

(** The measure of [parse_name_loop]: pointers and bytes of the name left. *)
Definition name_measure (hops expanded : nat) : nat := (2 * (66 - hops) + (257 - expanded))%nat.

Lemma parse_name_loop_returns buf lo fuel : forall pos labels after jumped hops expanded, wf_bytes buf ->
  (hops <= 65)%nat -> (name_measure hops expanded <= 2 * fuel)%nat -> (jumped = true -> is_some after = true) ->
  (jumped = false -> (lo <= pos)%nat) -> (match after with Some a => (lo <= a <= length buf)%nat | None => True end) ->
  exists r, parse_name_loop fuel buf pos labels after jumped hops expanded = Ret r /\
    match r with Some (_, a) => (lo <= a <= length buf)%nat | None => True end.
Proof.
  induction fuel as [|fuel IH]; intros pos labels after jumped hops expanded Hw Hh Hm Hj Hlo Ha; [unfold name_measure in Hm; lia|].
  cbn [parse_name_loop]. destruct (Nat.leb_spec (length buf) pos) as [|Hpos]; [by eexists|].
  destruct (Nat.ltb_spec MAX_POINTER_HOPS hops) as [|Hhops]; [by eexists|]. cbn [orb]. unfold MAX_POINTER_HOPS in Hhops.
  destruct (lookup_lt_is_Some_2 buf pos Hpos) as [len Hlen]. rewrite (idx_lookup _ _ _ Hlen). cbn [mbind run_bind].
  pose proof (lookup_byte _ _ _ Hw Hlen) as Hu. unfold is_u8 in Hu.
  destruct (Z.eqb_spec len 0) as [->|Hnz].
  { eexists. split; [done|]. destruct jumped, after as [a|]; cbn; try done.
    - by specialize (Hj eq_refl).
    - specialize (Hlo eq_refl). lia. }
  destruct (Z.land len 192 =? 192).
  { destruct (Nat.leb_spec (length buf) (pos + 1)) as [|Hp1]; [by eexists|].
    destruct (lookup_lt_is_Some_2 buf (pos + 1) Hp1) as [low Hlow]. rewrite (idx_lookup _ _ _ Hlow). cbn [mbind run_bind].
    destruct (Nat.leb_spec (length buf) (Z.to_nat (Z.lor (Z.shiftl (Z.land len 63) 8) low))); [by eexists|].
    apply IH; [done|lia|unfold name_measure in *; lia| |done|].
    - intros _. destruct jumped, after; try done. by specialize (Hj eq_refl).
    - destruct jumped, after; cbn; try done. specialize (Hlo eq_refl). lia. }
  destruct (negb _); [by eexists|].
  destruct (Nat.ltb_spec MAX_LABEL_BYTES (Z.to_nat len)); [by eexists|].
  destruct (Nat.ltb_spec (length buf) (pos + 1 + Z.to_nat len)); [by eexists|]. cbn [orb].
  destruct (Nat.ltb_spec MAX_NAME_BYTES (expanded + (Z.to_nat len + 1))) as [|Hexp]; [by eexists|]. unfold MAX_NAME_BYTES in Hexp.
  rewrite slice_ok by lia. cbn [mbind run_bind]. destruct (negb _); [by eexists|].
  apply IH; [done|done|unfold name_measure in *; lia|done| |done]. intros Hf. specialize (Hlo Hf). lia.
Qed.

Lemma parse_name_returns buf pos : wf_bytes buf ->
  exists r, parse_name buf pos = Ret r /\ match r with Some (_, a) => (pos <= a <= length buf)%nat | None => True end.
Proof. intros Hw. unfold parse_name. apply parse_name_loop_returns; [done|lia|unfold name_measure, PARSE_NAME_FUEL; lia|done..]. Qed.

Lemma question_end_returns buf : wf_bytes buf ->
  exists r, question_end buf = Ret r /\ match r with Some e => (16 <= e <= length buf)%nat | None => True end.
Proof.
  intros Hw. unfold question_end. destruct (parse_name_returns buf 12 Hw) as (r & -> & Hr). cbn [mbind run_bind]. eexists. split; [done|].
  destruct r as [[name a]|]; [|done]. destruct (Nat.leb_spec (a + 4) (length buf)); [lia|done].
Qed.

Lemma parse_question_returns buf : wf_bytes buf -> returns (parse_question buf).
Proof.
  intros Hw. unfold parse_question. destruct (Nat.ltb_spec (length buf) 12); [apply returns_Ret|].
  rewrite u16_at_eq by lia. cbn [mbind run_bind]. destruct (negb _); [apply returns_Ret|].
  destruct (parse_name_returns buf 12 Hw) as (r & -> & Hr). cbn [mbind run_bind]. destruct r as [[name a]|]; [|apply returns_Ret].
  destruct (Nat.ltb_spec (length buf) (a + 4)); [apply returns_Ret|]. rewrite !u16_at_eq by lia. apply returns_Ret.
Qed.

(** A response to a query has a header and the query's identifier. *)
Definition id_matches (query : list Z) (r : option (list Z)) : Prop :=
  match r with Some resp => (HEADER_BYTES <= length resp)%nat /\ take 2 resp = take 2 query | None => True end.
Definition responds (query : list Z) (m : run (option (list Z))) : Prop := exists r, m = Ret r /\ id_matches query r.

Lemma responds_None query : responds query (Ret None).
Proof. by exists None. Qed.
Lemma responds_app query b t : id_matches query (Some b) -> responds query (Ret (Some (b ++ t))).
Proof.
  intros [Hl Ht]. eexists. split; [done|]. unfold id_matches, HEADER_BYTES in *. split; [rewrite length_app; lia|]. by rewrite take_app_le by lia.
Qed.

Lemma response_header_id query code an : (12 <= length query)%nat -> exists h, response_header query code an = Ret h /\ id_matches query (Some h).
Proof.
  intros Hl. unfold response_header. rewrite (idx_byte_at query 0), (idx_byte_at query 1), u16_at_eq by lia. cbn [mbind run_bind].
  eexists. split; [done|]. split; [by rewrite !length_app, !length_to_be_bytes|]. by destruct query as [|x [|y query]]; [cbn in Hl; lia..|].
Qed.
Lemma response_start_responds query code an : wf_bytes query -> responds query (response_start query code an).
Proof.
  intros Hw. unfold response_start. destruct (Nat.ltb_spec (length query) 12); [apply responds_None|].
  destruct (question_end_returns query Hw) as (r & -> & Hr). cbn [mbind run_bind]. destruct r as [e|]; [|apply responds_None].
  destruct (response_header_id query code an) as (h & -> & Hh); [lia|]. cbn [mbind run_bind]. rewrite slice_ok by lia. by apply responds_app.
Qed.
Lemma build_addr_response_responds query ips : wf_bytes query -> responds query (build_addr_response query ips).
Proof.
  intros Hw. unfold build_addr_response. destruct (Nat.ltb_spec (length query) 12); [apply responds_None|].
  destruct (question_end_returns query Hw) as (r & -> & Hr). cbn [mbind run_bind]. destruct r as [e|]; [|apply responds_None].
  destruct (parse_question_returns query Hw) as [p ->]. cbn [mbind run_bind]. destruct p as [[[name qt] qc]|]; [|apply responds_None].
  destruct (response_header_id query 0 (Z.of_nat (length ips) mod 65536)) as (h & -> & Hh); [lia|]. cbn [mbind run_bind].
  rewrite slice_ok by lia. by apply responds_app.
Qed.
Lemma build_ptr_response_responds query name : wf_bytes query -> responds query (build_ptr_response query name).
Proof.
  intros Hw. unfold build_ptr_response. destruct (response_start_responds query 0 1 Hw) as (r & -> & Hr). cbn [mbind run_bind].
  destruct r; [by apply responds_app|apply responds_None].
Qed.

(** ** Names without pointers *)

Definition wire_label (l : list Z) : list Z := Z.of_nat (length l) :: l.
Definition wire_name (labels : list (list Z)) : list Z := concat (map wire_label labels) ++ [0].
Definition ok_label (l : list Z) : Prop := (0 < length l <= MAX_LABEL_BYTES)%nat /\ is_utf8 l = true.
Definition ok_name (labels : list (list Z)) : Prop := Forall ok_label labels /\ (length (wire_name labels) <= MAX_NAME_BYTES)%nat.

Lemma length_wire_name l ls : length (wire_name (l :: ls)) = (1 + length l + length (wire_name ls))%nat.
Proof. unfold wire_name. cbn [map concat]. rewrite !length_app. cbn. lia. Qed.

Lemma small_label_bits n : (n <= 63)%nat -> Z.land (Z.of_nat n) 192 = 0.
Proof.
  intros Hn. assert (forallb (fun k => Z.land (Z.of_nat k) 192 =? 0) (seq 0 64) = true) as H by reflexivity.
  rewrite forallb_forall in H. apply Z.eqb_eq, H. apply in_seq. lia.
Qed.

Lemma parse_name_loop_wire labels (st : option nat) hops : (hops <= MAX_POINTER_HOPS)%nat -> forall fuel pre post acc e, Forall ok_label labels ->
  (e + length (wire_name labels) <= MAX_NAME_BYTES + 1)%nat -> (length labels < fuel)%nat ->
  parse_name_loop fuel (pre ++ wire_name labels ++ post) (length pre) acc st (is_some st) hops e =
  Ret (Some (join [DOT] (acc ++ labels), default (length pre + length (wire_name labels))%nat st)).
Proof.
  intros Hhops. apply Nat.ltb_ge in Hhops. induction labels as [|l ls IH]; intros fuel pre post acc e Hok He Hf; (destruct fuel as [|fuel]; [cbn in Hf; lia|]); cbn [parse_name_loop].
  - rewrite (proj2 (Nat.leb_gt _ _)) by (rewrite !length_app; cbn; lia). rewrite Hhops. cbn [orb].
    change (wire_name [] ++ post) with (0 :: post). rewrite idx_middle. cbn [mbind run_bind Z.eqb].
    rewrite app_nil_r. by destruct st.
  - apply Forall_cons_1 in Hok as [[Hl Hu] Hok]. rewrite length_wire_name in He. unfold MAX_LABEL_BYTES in Hl.
    assert (pre ++ wire_name (l :: ls) ++ post = pre ++ wire_label l ++ wire_name ls ++ post) as E.
    { unfold wire_name. cbn [map concat]. by rewrite <- !app_assoc. }
    rewrite E. rewrite (proj2 (Nat.leb_gt _ _)) by (rewrite !length_app; cbn; lia). rewrite Hhops. cbn [orb].
    assert (idx (pre ++ wire_label l ++ wire_name ls ++ post) (length pre) = Ret (Z.of_nat (length l))) as -> by exact (idx_middle pre _ _).
    cbn [mbind run_bind].
    rewrite (proj2 (Z.eqb_neq _ 0)) by lia. rewrite small_label_bits by lia. cbn [Z.eqb negb]. rewrite Nat2Z.id.
    rewrite (proj2 (Nat.ltb_ge _ _)) by (unfold MAX_LABEL_BYTES; lia).
    rewrite (proj2 (Nat.ltb_ge _ _)) by (rewrite !length_app; cbn; lia). cbn [orb].
    rewrite (proj2 (Nat.ltb_ge _ _)) by (unfold MAX_NAME_BYTES, wire_name in *; rewrite length_app in He; cbn in He; lia).
    assert (slice (pre ++ wire_label l ++ wire_name ls ++ post) (length pre + 1) (length pre + 1 + length l) = Ret l) as ->.
    { rewrite slice_ok by (rewrite !length_app; cbn; lia). replace (length pre + 1 + length l - (length pre + 1))%nat with (length l) by lia.
      rewrite <- drop_drop, drop_app_length. cbn [wire_label app]. cbn [drop]. by rewrite drop_0, take_app_length. }
    cbn [mbind run_bind]. rewrite Hu. cbn [negb].
    replace (length pre + 1 + length l)%nat with (length (pre ++ wire_label l)) by (rewrite length_app; cbn; lia).
    rewrite (app_assoc pre (wire_label l)). rewrite IH; [|done|lia|cbn in Hf; lia].
    rewrite <- app_assoc. do 3 f_equal. destruct st; [done|]. cbn [default from_option id]. rewrite length_wire_name, length_app. cbn. lia.
Qed.

Lemma length_labels labels : Forall ok_label labels -> (2 * length labels + 1 <= length (wire_name labels))%nat.
Proof. induction 1 as [|l ls [Hl _] _ IH]; [cbn; lia|]. rewrite length_wire_name. cbn [length]. lia. Qed.

Lemma parse_name_wire labels pre post : ok_name labels ->
  parse_name (pre ++ wire_name labels ++ post) (length pre) = Ret (Some (join [DOT] labels, (length pre + length (wire_name labels))%nat)).
Proof.
  intros [Hok Hl]. pose proof (length_labels labels Hok). unfold parse_name.
  rewrite (parse_name_loop_wire labels None 0); [done|unfold MAX_POINTER_HOPS; lia|done|lia|].
  unfold PARSE_NAME_FUEL, MAX_NAME_BYTES in *. lia.
Qed.

(** A pointer to the name. *)
Lemma parse_name_pointer labels buf pre post post' : ok_name labels -> buf = take 12 buf ++ wire_name labels ++ post ->
  buf = pre ++ [0xC0; 0x0C] ++ post' -> (12 <= length buf)%nat ->
  parse_name buf (length pre) = Ret (Some (join [DOT] labels, (length pre + 2)%nat)).
Proof.
  intros [Hok Hl] E1 E2 H12. unfold parse_name.
  assert (exists f, PARSE_NAME_FUEL = S f /\ (199 <= f)%nat) as (f & -> & Hfuel) by (by exists 199%nat). cbn [parse_name_loop].
  assert (length buf = (length pre + 2 + length post')%nat) as Elen by (rewrite E2, !length_app; cbn; lia).
  assert (12 < length buf)%nat as H13.
  { rewrite E1, !length_app, length_take. pose proof (length_labels labels Hok). lia. }
  rewrite (proj2 (Nat.leb_gt _ _)) by lia. change (MAX_POINTER_HOPS <? 0)%nat with false. cbn [orb].
  assert (idx buf (length pre) = Ret 0xC0) as -> by (rewrite E2; exact (idx_middle pre _ _)). cbn [mbind run_bind].
  change (192 =? 0) with false. change (Z.land 192 192 =? 192) with true. cbv iota.
  rewrite (proj2 (Nat.leb_gt _ _)) by lia.
  assert (idx buf (length pre + 1) = Ret 0x0C) as ->.
  { apply idx_lookup. rewrite E2, lookup_app_r by lia. by replace (length pre + 1 - length pre)%nat with 1%nat by lia. }
  cbn [mbind run_bind negb andb is_some]. change (Z.to_nat (Z.lor (Z.shiftl (Z.land 192 63) 8) 12)) with 12%nat.
  rewrite (proj2 (Nat.leb_gt _ _)) by lia.
  assert (length (take 12 buf) = 12%nat) as Ht by (rewrite length_take; lia). set (p := take 12 buf) in *. clearbody p.
  rewrite E1. rewrite <- Ht.
  pose proof (length_labels labels Hok).
  rewrite (parse_name_loop_wire labels (Some (length pre + 2)%nat) 1); [done|unfold MAX_POINTER_HOPS; lia|done|lia|].
  unfold MAX_NAME_BYTES in *. lia.
Qed.

(** ** Queries *)

(** A query as a client sends it: one question, whose name is written out. *)
Record Query : Type := {
  q_id : list Z; q_flags : Z; q_counts : list Z; q_labels : list (list Z); q_type : Z; q_class : Z; q_rest : list Z }.
Definition q_name (q : Query) : list Z := join [DOT] (q_labels q).
Definition q_question (q : Query) : list Z := wire_name (q_labels q) ++ to_be_bytes 2 (q_type q) ++ to_be_bytes 2 (q_class q).
Definition wire_query (q : Query) : list Z :=
  q_id q ++ to_be_bytes 2 (q_flags q) ++ [0; 1] ++ q_counts q ++ q_question q ++ q_rest q.
Definition ok_query (q : Query) : Prop :=
  length (q_id q) = 2%nat /\ length (q_counts q) = 6%nat /\ is_u16 (q_flags q) /\ is_u16 (q_type q) /\ is_u16 (q_class q) /\
  ok_name (q_labels q).

Section query.
Context (q : Query) (Hq : ok_query q).

Let header : list Z := q_id q ++ to_be_bytes 2 (q_flags q) ++ [0; 1] ++ q_counts q.

Lemma query_split : wire_query q = header ++ q_question q ++ q_rest q.
Proof. unfold wire_query, header. by rewrite <- !app_assoc. Qed.
Lemma query_header : length header = 12%nat.
Proof. destruct Hq as (Hi & Hc & _). unfold header. rewrite !length_app, length_to_be_bytes, Hi, Hc. done. Qed.
Lemma length_question : length (q_question q) = (length (wire_name (q_labels q)) + 4)%nat.
Proof. unfold q_question. rewrite !length_app, !length_to_be_bytes. done. Qed.
Lemma length_query : length (wire_query q) = (12 + length (q_question q) + length (q_rest q))%nat.
Proof. rewrite query_split, !length_app, query_header. lia. Qed.

Lemma query_name : parse_name (wire_query q) 12 = Ret (Some (q_name q, (12 + length (wire_name (q_labels q)))%nat)).
Proof.
  destruct Hq as (_ & _ & _ & _ & _ & Hn). rewrite query_split. unfold q_question. rewrite <- !app_assoc.
  pose proof (parse_name_wire (q_labels q) header (to_be_bytes 2 (q_type q) ++ to_be_bytes 2 (q_class q) ++ q_rest q) Hn) as E.
  rewrite query_header in E. exact E.
Qed.

Lemma u16_field (pre post : list Z) v i : is_u16 v -> length pre = i -> u16_at (pre ++ to_be_bytes 2 v ++ post) i = Ret v.
Proof.
  intros Hv <-. rewrite u16_at_eq by (rewrite !length_app, length_to_be_bytes; lia).
  rewrite drop_app_length, take_app_length' by (by rewrite length_to_be_bytes). by rewrite from_to_be_bytes_small.
Qed.

Lemma query_question : parse_question (wire_query q) = Ret (Some (q_name q, q_type q, q_class q)).
Proof.
  destruct Hq as (Hi & Hc & Hf & Ht & Hcl & Hn). unfold parse_question. pose proof length_query as Hl. rewrite length_question in Hl.
  rewrite (proj2 (Nat.ltb_ge _ _)) by lia.
  assert (u16_at (wire_query q) 4 = Ret 1) as ->.
  { unfold wire_query. rewrite app_assoc. change [0; 1] with (to_be_bytes 2 1). apply u16_field; [done|].
    by rewrite length_app, length_to_be_bytes, Hi. }
  cbn [mbind run_bind Z.eqb negb]. change (Pos.eqb 1 1) with true. cbn [negb]. rewrite query_name. cbn [mbind run_bind].
  rewrite (proj2 (Nat.ltb_ge _ _)) by lia.
  assert (wire_query q = (header ++ wire_name (q_labels q)) ++ to_be_bytes 2 (q_type q) ++ to_be_bytes 2 (q_class q) ++ q_rest q) as E.
  { rewrite query_split. unfold q_question. by rewrite <- !app_assoc. }
  assert (u16_at (wire_query q) (12 + length (wire_name (q_labels q))) = Ret (q_type q)) as ->.
  { rewrite E. apply u16_field; [done|]. by rewrite length_app, query_header. }
  cbn [mbind run_bind].
  assert (u16_at (wire_query q) (12 + length (wire_name (q_labels q)) + 2) = Ret (q_class q)) as ->; [|done].
  rewrite E, app_assoc. apply u16_field; [done|]. by rewrite !length_app, query_header, length_to_be_bytes.
Qed.

Lemma query_question_end : question_end (wire_query q) = Ret (Some (12 + length (q_question q))%nat).
Proof.
  unfold question_end. rewrite query_name. cbn [mbind run_bind]. rewrite length_question.
  rewrite (proj2 (Nat.leb_le _ _)) by (rewrite length_query, length_question; lia). by rewrite Nat.add_assoc.
Qed.

(** ** Responses *)

Definition wire_header (id : list Z) (flags ancount : Z) : list Z :=
  id ++ to_be_bytes 2 flags ++ [0; 1] ++ to_be_bytes 2 ancount ++ [0; 0; 0; 0].

Lemma query_response_header code an :
  response_header (wire_query q) code an = Ret (wire_header (q_id q) (response_flags (q_flags q) code) an).
Proof.
  destruct Hq as (Hi & _ & Hf & _). unfold response_header. unfold wire_query at 1 2 3.
  destruct (q_id q) as [|a [|b []]]; try discriminate Hi. cbn [app].
  change (idx (a :: b :: _) 0) with (Ret a : run Z). change (idx (a :: b :: _) 1) with (Ret b : run Z). cbn [mbind run_bind].
  assert (forall t, u16_at (a :: b :: to_be_bytes 2 (q_flags q) ++ t) 2 = Ret (q_flags q)) as ->; [|done].
  intros t. exact (u16_field [a; b] t _ 2 Hf eq_refl).
Qed.
Lemma query_slice : slice (wire_query q) 12 (12 + length (q_question q)) = Ret (q_question q).
Proof.
  rewrite slice_ok by (rewrite length_query; lia). replace (12 + length (q_question q) - 12)%nat with (length (q_question q)) by lia.
  rewrite query_split, <- query_header, drop_app_length, take_app_length. done.
Qed.
Lemma query_response_start code an :
  response_start (wire_query q) code an = Ret (Some (wire_header (q_id q) (response_flags (q_flags q) code) an ++ q_question q)).
Proof.
  unfold response_start. rewrite (proj2 (Nat.ltb_ge _ _)) by (rewrite length_query; lia). rewrite query_question_end. cbn [mbind run_bind].
  rewrite query_response_header. cbn [mbind run_bind]. rewrite query_slice. done.
Qed.
Lemma query_addr_response ips :
  build_addr_response (wire_query q) ips =
  Ret (Some (wire_header (q_id q) (response_flags (q_flags q) 0) (Z.of_nat (length ips) mod 65536) ++ q_question q ++
    concat (map (fun a => record_start (if q_type q =? 28 then 28 else 1) (if q_type q =? 28 then 16 else 4) ++ a) ips))).
Proof.
  unfold build_addr_response. rewrite (proj2 (Nat.ltb_ge _ _)) by (rewrite length_query; lia). rewrite query_question_end. cbn [mbind run_bind].
  rewrite query_question. cbn [mbind run_bind]. rewrite query_response_header. cbn [mbind run_bind]. rewrite query_slice. done.
Qed.
End query.

(** ** A reference decoder *)

Record RR : Type := { rr_name : list Z; rr_type : Z; rr_class : Z; rr_ttl : Z; rr_data : list Z }.
Record DnsMessage : Type := { m_id : list Z; m_flags : Z; m_question : list Z * Z * Z; m_answers : list RR }.

Definition parsed {A} (m : run (option A)) : option A := match m with Ret o => o | Panic => None end.
Definition get_be (n : nat) (b : list Z) (i : nat) : option Z :=
  if (i + n <=? length b)%nat then Some (from_be_bytes (take n (drop i b))) else None.
Definition decode_rr (buf : list Z) (pos : nat) : option (RR * nat) :=
  '(name, p) ← parsed (parse_name buf pos);
  ty ← get_be 2 buf p; class ← get_be 2 buf (p + 2); ttl ← get_be 4 buf (p + 4); rdlen ← get_be 2 buf (p + 8);
  if (p + 10 + Z.to_nat rdlen <=? length buf)%nat then
    Some ({| rr_name := name; rr_type := ty; rr_class := class; rr_ttl := ttl; rr_data := take (Z.to_nat rdlen) (drop (p + 10) buf) |},
          (p + 10 + Z.to_nat rdlen)%nat)
  else None.
Fixpoint decode_rrs (n : nat) (buf : list Z) (pos : nat) : option (list RR * nat) :=
  match n with
  | O => Some ([], pos)
  | S n => '(r, pos) ← decode_rr buf pos; '(rs, pos) ← decode_rrs n buf pos; Some (r :: rs, pos)
  end.
(** Answers only, and nothing after them. *)
Definition decode_message (buf : list Z) : option DnsMessage :=
  question ← parsed (parse_question buf);
  qend ← parsed (question_end buf);
  flags ← get_be 2 buf 2; an ← get_be 2 buf 6; more ← get_be 4 buf 8;
  '(rs, e) ← decode_rrs (Z.to_nat an) buf qend;
  if (more =? 0) && (e =? length buf)%nat
  then Some {| m_id := take 2 buf; m_flags := flags; m_question := question; m_answers := rs |} else None.

Definition wire_rr (r : Z * list Z) : list Z := record_start r.1 (Z.of_nat (length r.2)) ++ r.2.
Definition ok_rr (r : Z * list Z) : Prop := is_u16 r.1 /\ is_u16 (Z.of_nat (length r.2)).
Definition the_rr (name : list Z) (r : Z * list Z) : RR :=
  {| rr_name := name; rr_type := r.1; rr_class := 1; rr_ttl := 300; rr_data := r.2 |}.

Lemma get_be_at (pre post : list Z) n v i : 0 <= v < 256 ^ Z.of_nat n -> length pre = i -> get_be n (pre ++ to_be_bytes n v ++ post) i = Some v.
Proof.
  intros Hv <-. unfold get_be. rewrite (proj2 (Nat.leb_le _ _)) by (rewrite !length_app, length_to_be_bytes; lia).
  rewrite drop_app_length, take_app_length' by (by rewrite length_to_be_bytes). by rewrite from_to_be_bytes_small.
Qed.

Lemma decode_rr_wire labels buf pre r post rest : ok_name labels -> ok_rr r ->
  buf = take 12 buf ++ wire_name labels ++ rest -> (12 <= length buf)%nat -> buf = pre ++ wire_rr r ++ post ->
  decode_rr buf (length pre) = Some (the_rr (join [DOT] labels) r, length (pre ++ wire_rr r)).
Proof.
  intros Hn [Ht Hd] E1 H12 E2. destruct r as [t d]. unfold wire_rr, record_start in E2 |- *. cbn [fst snd] in *.
  set (len := Z.of_nat (length d)) in *.
  assert (forall v w x y z : list Z, pre ++ ([0xC0; 0x0C] ++ v ++ w ++ x ++ y) ++ z =
    (pre ++ [0xC0; 0x0C]) ++ v ++ w ++ x ++ y ++ z) as Hassoc by (intros; by rewrite <- !app_assoc).
  assert (buf = pre ++ [0xC0; 0x0C] ++ to_be_bytes 2 t ++ to_be_bytes 2 1 ++ to_be_bytes 4 300 ++ to_be_bytes 2 len ++ d ++ post) as E
    by (rewrite E2, <- !app_assoc; done). clear E2.
  unfold decode_rr. rewrite (parse_name_pointer labels buf pre rest _ Hn E1 E H12). cbn [parsed mbind option_bind].
  rewrite app_assoc in E. remember (pre ++ [0xC0; 0x0C]) as p1 eqn:Ep1.
  assert (length p1 = length pre + 2)%nat as H1 by (rewrite Ep1, length_app; done). rewrite <- !H1.
  assert (get_be 2 buf (length p1) = Some t) as -> by (rewrite E; by apply get_be_at). cbn [mbind option_bind].
  rewrite app_assoc in E. remember (p1 ++ to_be_bytes 2 t) as p2 eqn:Ep2.
  assert (length p2 = length p1 + 2)%nat as H2 by (rewrite Ep2, length_app, length_to_be_bytes; done). rewrite <- H2.
  assert (get_be 2 buf (length p2) = Some 1) as -> by (rewrite E; by apply get_be_at). cbn [mbind option_bind].
  rewrite app_assoc in E. remember (p2 ++ to_be_bytes 2 1) as p3 eqn:Ep3.
  assert (length p3 = length p1 + 4)%nat as H3 by (rewrite Ep3, length_app, length_to_be_bytes; lia). rewrite <- H3.
  assert (get_be 4 buf (length p3) = Some 300) as -> by (rewrite E; by apply get_be_at). cbn [mbind option_bind].
  rewrite app_assoc in E. remember (p3 ++ to_be_bytes 4 300) as p4 eqn:Ep4.
  assert (length p4 = length p1 + 8)%nat as H4 by (rewrite Ep4, length_app, length_to_be_bytes; lia). rewrite <- H4.
  assert (get_be 2 buf (length p4) = Some len) as -> by (rewrite E; by apply get_be_at). cbn [mbind option_bind].
  rewrite app_assoc in E. remember (p4 ++ to_be_bytes 2 len) as p5 eqn:Ep5.
  assert (length p5 = length p1 + 10)%nat as H5 by (rewrite Ep5, length_app, length_to_be_bytes; lia). rewrite <- H5.
  unfold len. rewrite Nat2Z.id. rewrite (proj2 (Nat.leb_le _ _)) by (rewrite E, !length_app; lia).
  assert (take (length d) (drop (length p5) buf) = d) as -> by (by rewrite E, drop_app_length, take_app_length).
  unfold the_rr. cbn [fst snd]. do 2 f_equal. rewrite H5, H1, !length_app, !length_to_be_bytes. cbn. lia.
Qed.

Lemma decode_rrs_wire labels buf rest rs : forall pre, ok_name labels -> Forall ok_rr rs ->
  buf = take 12 buf ++ wire_name labels ++ rest -> (12 <= length buf)%nat -> buf = pre ++ concat (map wire_rr rs) ->
  decode_rrs (length rs) buf (length pre) = Some (map (the_rr (join [DOT] labels)) rs, length buf).
Proof.
  induction rs as [|r rs IH]; intros pre Hn Hrs E1 H12 E2; cbn [length decode_rrs map].
  - cbn in E2. rewrite app_nil_r in E2. by rewrite E2.
  - apply Forall_cons_1 in Hrs as [Hr Hrs]. cbn [map concat] in E2.
    rewrite (decode_rr_wire labels buf pre r (concat (map wire_rr rs)) rest Hn Hr E1 H12 E2). cbn [mbind option_bind].
    rewrite (IH (pre ++ wire_rr r) Hn Hrs E1 H12); [done|]. by rewrite <- app_assoc.
Qed.

(** Every response that echoes the question of a query decodes to what it says. *)
Lemma decode_response q flags rs : ok_query q -> is_u16 flags -> Forall ok_rr rs -> is_u16 (Z.of_nat (length rs)) ->
  decode_message (wire_header (q_id q) flags (Z.of_nat (length rs)) ++ q_question q ++ concat (map wire_rr rs)) =
  Some {| m_id := q_id q; m_flags := flags; m_question := (q_name q, q_type q, q_class q);
          m_answers := map (the_rr (q_name q)) rs |}.
Proof.
  intros Hq Hf Hrs Hn. set (q' := {| q_id := q_id q; q_flags := flags; q_counts := to_be_bytes 2 (Z.of_nat (length rs)) ++ [0; 0; 0; 0];
    q_labels := q_labels q; q_type := q_type q; q_class := q_class q; q_rest := concat (map wire_rr rs) |}).
  assert (ok_query q') as Hq'.
  { destruct Hq as (Hi & Hc & _ & Ht & Hcl & Hnm). unfold ok_query, q'. cbn. split_and!; try done. }
  destruct Hq as (Hi & _ & _ & _ & _ & Hnm).
  assert (wire_header (q_id q) flags (Z.of_nat (length rs)) ++ q_question q ++ concat (map wire_rr rs) = wire_query q') as ->.
  { unfold wire_header, wire_query, q'. cbn [q_id q_flags q_counts q_question q_rest]. by rewrite <- !app_assoc. }
  unfold decode_message. rewrite (query_question q' Hq'), (query_question_end q' Hq'). cbn [parsed mbind option_bind].
  assert (get_be 2 (wire_query q') 2 = Some flags) as -> by (by apply get_be_at). cbn [mbind option_bind].
  assert (get_be 2 (wire_query q') 6 = Some (Z.of_nat (length rs))) as ->.
  { unfold wire_query. cbn [q_counts q' q_id q_flags]. rewrite <- !app_assoc, 2!app_assoc, <- (app_assoc (q_id q)), app_assoc, <- (app_assoc (q_id q ++ to_be_bytes 2 flags ++ [0; 1])).
    apply get_be_at; [done|]. by rewrite !length_app, length_to_be_bytes, Hi. }
  cbn [mbind option_bind].
  assert (get_be 4 (wire_query q') 8 = Some 0) as ->.
  { unfold get_be. rewrite (proj2 (Nat.leb_le _ _)) by (rewrite (length_query q' Hq'); lia). f_equal.
    unfold wire_query. cbn [q_counts q' q_id q_flags]. destruct (q_id q) as [|a [|b []]]; try discriminate Hi. reflexivity. }
  cbn [mbind option_bind]. rewrite Nat2Z.id.
  assert (12 + length (q_question q') = length (take (12 + length (q_question q')) (wire_query q')))%nat as Hpre.
  { rewrite length_take, (length_query q' Hq'). lia. }
  rewrite Hpre at 1. rewrite (decode_rrs_wire (q_labels q) (wire_query q') (drop (12 + length (wire_name (q_labels q))) (wire_query q'))).
  - cbn [mbind option_bind]. rewrite Nat.eqb_refl. cbn [andb]. change (0 =? 0) with true. cbv iota. do 2 f_equal.
    unfold wire_query. cbn [q_id q']. by rewrite take_app_length'.
  - done.
  - done.
  - pose proof (query_split q') as E. pose proof (query_header q' Hq') as Hh. set (h := q_id q' ++ _) in E, Hh. clearbody h.
    unfold q_question in E. cbn [q_labels q'] in E. rewrite <- !app_assoc in E.
    rewrite <- (take_drop 12 (wire_query q')) at 1. f_equal. rewrite <- (take_drop (length (wire_name (q_labels q))) (drop 12 (wire_query q'))) at 1.
    rewrite drop_drop. f_equal. rewrite E, drop_app_length' by (by rewrite Hh). by rewrite take_app_length.
  - rewrite (length_query q' Hq'). lia.
  - rewrite <- (take_drop (12 + length (q_question q')) (wire_query q')) at 1. f_equal.
    rewrite (query_split q'), app_assoc. by rewrite drop_app_length' by (by rewrite length_app, (query_header q' Hq')).
Qed.

(** ** Flags *)

Definition QR : Z := 0x8000.
Definition flags_of (op rd code : Z) : Z := Z.lor (Z.lor (Z.lor (Z.lor QR (Z.shiftl op 11)) (Z.shiftl rd 8)) 0x80) (Z.land code 0xF).

(** A response has [QR] set, the opcode and [RD] of the query and the response
    code; with or without [TC]. *)
Definition response_to (query_flags code f : Z) : Prop :=
  is_u16 f /\ Z.land f QR = QR /\ Z.land f 0xF = code /\
  Z.land (Z.shiftr f 11) 0xF = Z.land (Z.shiftr query_flags 11) 0xF /\ Z.land (Z.shiftr f 8) 1 = Z.land (Z.shiftr query_flags 8) 1.
Definition response_tob (op rd code f : Z) : bool :=
  (0 <=? f) && (f <? 65536) && (Z.land f QR =? QR) && (Z.land f 0xF =? code) && (Z.land (Z.shiftr f 11) 0xF =? op) &&
  (Z.land (Z.shiftr f 8) 1 =? rd).

Lemma all_flags : forallb (fun op => forallb (fun rd => forallb (fun code =>
  let f := flags_of op rd code in
  response_tob op rd code f && (Z.land f DNS_FLAG_TRUNCATED =? 0) && response_tob op rd code (Z.lor f DNS_FLAG_TRUNCATED))
  (seqZ 0 16)) (seqZ 0 2)) (seqZ 0 16) = true.
Proof. vm_compute. reflexivity. Qed.

Lemma response_flags_spec qf code : 0 <= code < 16 ->
  response_to qf code (response_flags qf code) /\ Z.land (response_flags qf code) DNS_FLAG_TRUNCATED = 0 /\
  response_to qf code (Z.lor (response_flags qf code) DNS_FLAG_TRUNCATED).
Proof.
  intros Hc. pose proof all_flags as H. rewrite forallb_forall in H.
  assert (0 <= Z.land (Z.shiftr qf 11) 0xF < 16) as Hop by (change (Z.land (Z.shiftr qf 11) 0xF) with (Z.land (Z.shiftr qf 11) (Z.ones 4)); rewrite Z.land_ones by lia; by apply Z.mod_pos_bound).
  assert (0 <= Z.land (Z.shiftr qf 8) 1 < 2) as Hrd by (change (Z.land (Z.shiftr qf 8) 1) with (Z.land (Z.shiftr qf 8) (Z.ones 1)); rewrite Z.land_ones by lia; by apply Z.mod_pos_bound).
  specialize (H (Z.land (Z.shiftr qf 11) 0xF) ltac:(apply list_elem_of_In, elem_of_seqZ; lia)). rewrite forallb_forall in H.
  specialize (H (Z.land (Z.shiftr qf 8) 1) ltac:(apply list_elem_of_In, elem_of_seqZ; lia)). rewrite forallb_forall in H.
  specialize (H code ltac:(apply list_elem_of_In, elem_of_seqZ; lia)). cbv zeta in H.
  change (flags_of (Z.land (Z.shiftr qf 11) 15) (Z.land (Z.shiftr qf 8) 1) code) with (response_flags qf code) in H.
  set (f := response_flags qf code) in *. clearbody f. unfold response_tob in H. unfold response_to, is_u16.
  repeat rewrite andb_true_iff in H. rewrite !Z.eqb_eq, !Z.leb_le, !Z.ltb_lt in H. tauto.
Qed.

(** ** Truncation *)

Lemma get_edns_returns b : returns (get_edns_buffer_size b).
Proof.
  unfold get_edns_buffer_size. destruct (Nat.ltb_spec (length b) (HEADER_BYTES + OPT_FIXED_BYTES)) as [|Hl]; [apply returns_Ret|].
  unfold HEADER_BYTES, OPT_FIXED_BYTES in *. rewrite u16_at_eq by lia. cbn [mbind run_bind]. destruct (_ =? 0); [apply returns_Ret|].
  rewrite slice_from_ok by lia. cbn [mbind run_bind]. set (o := drop (length b - 11) b).
  assert (length o = 11%nat) as Ho by (unfold o; rewrite length_drop; lia). clearbody o.
  rewrite (idx_byte_at o 0) by lia. cbn [mbind run_bind]. destruct (negb _); [apply returns_Ret|].
  rewrite (u16_at_eq o 1) by lia. cbn [mbind run_bind]. destruct (negb _); [apply returns_Ret|].
  rewrite (u16_at_eq o 3) by lia. cbn [mbind run_bind]. rewrite (idx_byte_at o 6) by lia. cbn [mbind run_bind].
  destruct (negb _); [apply returns_Ret|]. rewrite (u16_at_eq o 9) by lia. apply returns_Ret.
Qed.

(** The longest response that a request allows over UDP. *)
Definition udp_limit (request : list Z) : Z := match get_edns_buffer_size request with Ret (Some n) => n | _ => DEFAULT_UDP_SIZE end.

Lemma check_response_size_spec id flags an rest request udp : length id = 2%nat -> is_u16 flags -> Z.land flags DNS_FLAG_TRUNCATED = 0 ->
  let response := wire_header id flags an ++ rest in
  check_response_size_and_set_tc response request udp =
  Ret (wire_header id (if udp && (udp_limit request <? Z.of_nat (length response)) then Z.lor flags DNS_FLAG_TRUNCATED else flags) an ++ rest).
Proof.
  intros Hi Hf Htc response. unfold check_response_size_and_set_tc. destruct udp; cbn [negb andb]; [|done].
  assert (12 <= length response)%nat as Hl.
  { unfold response, wire_header. rewrite !length_app, !length_to_be_bytes, Hi. cbn. lia. }
  rewrite (proj2 (Nat.ltb_ge _ _)) by (unfold HEADER_BYTES; lia).
  assert (u16_at response 2 = Ret flags) as Hu.
  { unfold response, wire_header. rewrite <- !app_assoc. by apply u16_field. }
  unfold truncated_flag_set. rewrite (proj2 (Nat.ltb_ge _ _)) by (unfold HEADER_BYTES; lia). rewrite Hu. cbn [mbind run_bind].
  rewrite Htc. cbn [Z.eqb negb]. unfold udp_limit. destruct (get_edns_returns request) as [o ->]. cbn [mbind run_bind].
  assert (match o with Some n => n | None => DEFAULT_UDP_SIZE end = default DEFAULT_UDP_SIZE o) as -> by (by destruct o).
  destruct (default DEFAULT_UDP_SIZE o <? Z.of_nat (length response)); [|done].
  unfold set_tc_flag. rewrite (proj2 (Nat.ltb_ge _ _)) by (unfold HEADER_BYTES; lia). rewrite Hu. cbn [mbind run_bind]. f_equal.
  unfold response, wire_header. destruct id as [|a [|b []]]; try discriminate Hi. cbn [app take]. rewrite !take_0. cbn [app]. done.
Qed.

Lemma truncated_flag_set_returns b : returns (truncated_flag_set b).
Proof.
  unfold truncated_flag_set. destruct (Nat.ltb_spec (length b) HEADER_BYTES) as [|H]; [apply returns_Ret|]. unfold HEADER_BYTES in H.
  rewrite u16_at_eq by lia. apply returns_Ret.
Qed.
(** Setting the flag changes neither the length nor the identifier. *)
Lemma set_tc_flag_returns b : exists b', set_tc_flag b = Ret b' /\ length b' = length b /\ take 2 b' = take 2 b.
Proof.
  unfold set_tc_flag. destruct (Nat.ltb_spec (length b) HEADER_BYTES) as [|H]; [by eexists|]. unfold HEADER_BYTES in H.
  rewrite u16_at_eq by lia. cbn [mbind run_bind]. eexists. split; [done|]. split.
  - rewrite !length_app, length_take, length_to_be_bytes, length_drop. lia.
  - rewrite take_app_length' by (rewrite length_take; lia). done.
Qed.
Lemma check_response_size_returns b request udp :
  exists b', check_response_size_and_set_tc b request udp = Ret b' /\ length b' = length b /\ take 2 b' = take 2 b.
Proof.
  unfold check_response_size_and_set_tc. destruct (negb udp); [by eexists|]. destruct (_ <? _)%nat; [by eexists|].
  destruct (truncated_flag_set_returns b) as [tc ->]. cbn [mbind run_bind]. destruct tc; [by eexists|].
  destruct (get_edns_returns request) as [o ->]. cbn [mbind run_bind]. destruct (_ <? _); [apply set_tc_flag_returns|by eexists].
Qed.
