(* ===== verification/Dns.v ===== *)
(** * The MagicDNS resolver: [crates/dns/src/lib.rs]

    A [HashMap] is a [gmap]; the order in which a walk over one visits its entries
    is a parameter. *)

From Stdlib Require Import Ascii.
From S2P Require Import Prelude Bytes IpAddr IpText FilterPrefix Keys Order Utf8 Str TsAddr DnsName DnsWire.

(** ** Data *)

(** The parts of [tailcfg] the resolver reads. *)
Record DNSConfig : Type := {
  Resolvers : list (list Z); Routes : gmap (list Z) (list (list Z)); FallbackResolvers : list (list Z);
  Domains : list (list Z); Proxied : bool; ExtraRecords : list (list Z * list Z) }.
Record Node : Type := { node_Key : list Z; node_Name : list Z; node_Addresses : list (list Z) }.

Inductive ResolverKind : Type :=
| Udp (server : SocketAddr)
| Doh (url host : list Z)
| Invalid.
Record UpstreamResolver : Type := { up_addr : list Z; up_kind : ResolverKind }.

#[global] Instance ResolverKind_eq_dec : EqDecision ResolverKind.
Proof. solve_decision. Defined.

Record Config : Type := {
  accept_dns : bool; routes : gmap (list Z) (list UpstreamResolver); hosts : gmap (list Z) (list IpAddr);
  local_domains : list (list Z); search_domains : list (list Z); subdomain_hosts : gset (list Z) }.
Record MagicDnsResolver : Type := {
  peers : list Node; domain : list Z; proxied : bool; config : Config; ip_to_host : gmap IpAddr (list Z) }.

Inductive ResolveOutcome : Type :=
| Answer (addrs : list IpAddr)
| NxDomain
| NotTailnet.

Definition DNS_SYMBOLIC_FQDN : list Z := str_bytes "magicdns.localhost-tailscale-daemon.".
Definition RDNS_V4_SUFFIX : list Z := str_bytes ".in-addr.arpa.".
Definition RDNS_V6_SUFFIX : list Z := str_bytes ".ip6.arpa.".
Definition MAGICDNS_VIP : IpAddr := V4 tailscale_service_ipv4.
Definition MAGICDNS_VIP_V6 : IpAddr := V6 tailscale_service_ipv6_addr.

(** [Ipv4Addr::from_str], and [SocketAddr::from_str] up to the scope of an IPv6
    address. *)
Definition parse_ipv4 (s : string) : option (list Z) :=
  match read_ipv4_addr s with Some (o, EmptyString) => Some o | _ => None end.
Definition read_port (s : string) : option (Z * string) :=
  s ← read_given_char ":"%char s; read_number 10 (String.length s) true 65535 s.
Definition read_scope_id (s : string) : string :=
  match read_given_char "%"%char s with
  | Some s' => match read_number 10 (String.length s') true (2 ^ 32 - 1) s' with Some (_, s'') => s'' | None => s end
  | None => s
  end.
Definition read_socket_addr (s : string) : option (SocketAddr * string) :=
  match ('(o, s) ← read_ipv4_addr s; '(p, s) ← read_port s; Some ({| ip := V4 o; port := p |}, s)) with
  | Some r => Some r
  | None =>
      s ← read_given_char "["%char s; '(o, s) ← read_ipv6_addr s;
      s ← read_given_char "]"%char (read_scope_id s); '(p, s) ← read_port s;
      Some ({| ip := V6 o; port := p |}, s)
  end.
Definition parse_socket_addr (s : string) : option SocketAddr :=
  match read_socket_addr s with Some (a, EmptyString) => Some a | _ => None end.

(** [UpstreamResolver::from_addr]. *)
Definition from_addr (addr : list Z) : UpstreamResolver :=
  {| up_addr := addr;
     up_kind :=
       match strip_str_prefix addr (str_bytes "https://") with
       | Some rest => Doh addr (default [] (head (split_char 47 rest)))
       | None =>
           match parse_ip (to_text addr) with
           | Some a => Udp {| ip := a; port := 53 |}
           | None => match parse_socket_addr (to_text addr) with Some sa => Udp sa | None => Invalid end
           end
       end |}.

(** [max_by_key]: the last of the greatest. *)
Fixpoint max_by_key {A} (key : A -> nat) (l : list A) : option A :=
  match l with
  | [] => None
  | x :: l => match max_by_key key l with
              | Some y => if (key y <? key x)%nat then Some x else Some y
              | None => Some x
              end
  end.

(** [extend] and [push] on the list at a key of [hosts]. *)
Definition entry_extend (m : gmap (list Z) (list IpAddr)) (name : list Z) (ips : list IpAddr) : gmap (list Z) (list IpAddr) :=
  <[name := default [] (m !! name) ++ ips]> m.

Section resolver.
Context {LC : Lowercase} {HO : HashOrder}.

(** ** Names *)

Definition normal (name : list Z) : list Z := to_lowercase (trim_end DOT name).
Definition normalize_suffix (suffix : list Z) : list Z :=
  let suffix := normal suffix in if bool_decide (suffix = []) then [DOT] else suffix.
Definition suffix_specificity (suffix : list Z) : nat :=
  let suffix := trim_end DOT suffix in if bool_decide (suffix = []) then 0%nat else length (split_char DOT suffix).
Definition suffix_matches (suffix name : list Z) : bool :=
  let suffix := normal suffix in
  let name := normal name in
  bool_decide (suffix = []) || bool_decide (name = suffix) || ends_with name (DOT :: suffix).
Definition dns_has_suffix (s suffix : list Z) : bool := ends_with (to_lowercase s) suffix.

Definition node_ips (peer : Node) : list IpAddr :=
  omap (fun s => parse_ip (to_text (default [] (head (split_char 47 s))))) (node_Addresses peer).

Definition peer_matches (peer : Node) (name domain : list Z) : bool :=
  let peer_name := trim_end DOT (to_lowercase (node_Name peer)) in
  if bool_decide (peer_name = name) then true
  else if negb (contains_byte DOT name) && bool_decide (first_label peer_name = name) then true
  else if bool_decide (domain = []) || negb (ends_with name (DOT :: domain)) then bool_decide (peer_name = name ++ DOT :: domain)
  else false.

(** ** Configuration *)

(** The loop that adds the peers' names to [hosts]. *)
Definition add_peer (h : gmap (list Z) (list IpAddr)) (peer : Node) : gmap (list Z) (list IpAddr) :=
  if is_zero (node_Key peer) then h
  else
    let peer_name := normal (node_Name peer) in
    if bool_decide (peer_name = []) then h
    else let ips := node_ips peer in if bool_decide (ips = []) then h else entry_extend h peer_name ips.

Definition push_new (l : list (list Z)) (x : list Z) : list (list Z) := if bool_decide (x ∈ l) then l else l ++ [x].
Definition non_empty_resolvers (rs : list (list Z)) : list UpstreamResolver :=
  map from_addr (List.filter (fun a => negb (bool_decide (a = []))) rs).

(** One entry of [DNSConfig.Routes]: the routes and local domains so far. *)
Definition add_route (acc : gmap (list Z) (list UpstreamResolver) * list (list Z)) (e : list Z * list (list Z))
  : gmap (list Z) (list UpstreamResolver) * list (list Z) :=
  let '(rs, locals) := acc in
  let suffix := normalize_suffix e.1 in
  if bool_decide (e.2 = []) then (rs, push_new locals suffix)
  else
    let up := non_empty_resolvers e.2 in
    if (length up =? 0)%nat then (rs, push_new locals suffix) else (<[suffix := up]> rs, locals).

Definition add_record (h : gmap (list Z) (list IpAddr)) (rec : list Z * list Z) : gmap (list Z) (list IpAddr) :=
  match parse_ip (to_text rec.2) with Some a => entry_extend h (normal rec.1) [a] | None => h end.

Definition CGNAT_ARPA : list Z := str_bytes "100.64.0.0/10.in-addr.arpa.".
Definition ULA_ARPA : list Z := str_bytes "fd7a:115c:a1e0::/48.ip6.arpa.".

Definition build_config (dns_config : option DNSConfig) (dom : list Z) (nodes : list Node) : Config :=
  match dns_config with
  | None =>
      {| accept_dns := false; routes := ∅; hosts := foldl add_peer ∅ nodes; local_domains := [];
         search_domains := []; subdomain_hosts := ∅ |}
  | Some dc =>
      let '(rs, locals) := foldl add_route (∅, []) (hash_iter (Routes dc)) in
      let has_root_route := existsb (fun e => bool_decide (normalize_suffix e.1 = [DOT])) (hash_iter (Routes dc)) in
      let rs :=
        if negb has_root_route && negb (is_some (rs !! [DOT])) then
          let source := if bool_decide (Resolvers dc = []) then FallbackResolvers dc else Resolvers dc in
          let dflt := non_empty_resolvers source in
          if (length dflt =? 0)%nat then rs else <[[DOT] := dflt]> rs
        else rs in
      let hs := foldl add_record ∅ (ExtraRecords dc) in
      let locals := if bool_decide (dom = []) then locals else push_new locals dom ++ [CGNAT_ARPA; ULA_ARPA] in
      let locals := foldl (fun l d => push_new l (normalize_suffix d)) locals (Domains dc) in
      {| accept_dns := true; routes := rs; hosts := foldl add_peer hs nodes; local_domains := locals;
         search_domains := Domains dc; subdomain_hosts := ∅ |}
  end.

(** [rebuild_config_from_peers]. *)
Definition keep_host (dom name : list Z) : bool :=
  (bool_decide (dom = []) || negb (ends_with name (DOT :: dom))) && negb (bool_decide (name = dom)).
Definition rebuild_config_from_peers (cfg : Config) (dom : list Z) (nodes : list Node) : Config :=
  {| accept_dns := accept_dns cfg; routes := routes cfg;
     hosts := foldl add_peer (filter (fun e => keep_host dom e.1 = true) (hosts cfg)) nodes;
     local_domains := local_domains cfg; search_domains := search_domains cfg; subdomain_hosts := subdomain_hosts cfg |}.

(** [build_reverse_map]: a later host replaces an earlier one, a peer does not. *)
Definition reverse_host (m : gmap IpAddr (list Z)) (e : list Z * list IpAddr) : gmap IpAddr (list Z) :=
  foldl (fun m a => <[a := e.1]> m) m e.2.
Definition reverse_peer (m : gmap IpAddr (list Z)) (peer : Node) : gmap IpAddr (list Z) :=
  if is_zero (node_Key peer) then m
  else
    let peer_name := normal (node_Name peer) in
    if bool_decide (peer_name = []) then m
    else foldl (fun m a => match m !! a with Some _ => m | None => <[a := peer_name]> m end) m (node_ips peer).
Definition build_reverse_map (h : gmap (list Z) (list IpAddr)) (nodes : list Node) : gmap IpAddr (list Z) :=
  foldl reverse_peer (foldl reverse_host ∅ (hash_iter h)) nodes.

Definition resolver_new (nodes : list Node) (dom : list Z) (dns_config : option DNSConfig) : MagicDnsResolver :=
  let prox := match dns_config with Some c => Proxied c | None => true end in
  let dom := normal dom in
  let cfg := build_config dns_config dom nodes in
  {| peers := nodes; domain := dom; proxied := prox; config := cfg; ip_to_host := build_reverse_map (hosts cfg) nodes |}.
Definition set_peers (r : MagicDnsResolver) (nodes : list Node) : MagicDnsResolver :=
  let cfg := rebuild_config_from_peers (config r) (domain r) nodes in
  {| peers := nodes; domain := domain r; proxied := proxied r; config := cfg; ip_to_host := build_reverse_map (hosts cfg) nodes |}.
Definition set_config (r : MagicDnsResolver) (cfg : Config) : MagicDnsResolver :=
  {| peers := peers r; domain := domain r; proxied := proxied r; config := cfg; ip_to_host := build_reverse_map (hosts cfg) (peers r) |}.

(** ** Lookups *)

Definition is_tailnet_name (r : MagicDnsResolver) (name : list Z) : bool :=
  if negb (proxied r) then false
  else
    let n := normal name in
    if bool_decide (n = []) then false
    else if negb (bool_decide (domain r = [])) && bool_decide (n = domain r) then true
    else if negb (bool_decide (domain r = [])) && ends_with n (DOT :: domain r) then true
    else negb (bool_decide (domain r = [])) && negb (contains_byte DOT n).

(** [resolve_subdomain]: each turn drops a label, so the length is enough. *)
Fixpoint subdomain_loop (fuel : nat) (cfg : Config) (current : list Z) : option (list IpAddr) :=
  match fuel with
  | O => None
  | S fuel =>
      match split_once_char DOT current with
      | None => None
      | Some (_, rest) =>
          if bool_decide (rest = []) then None
          else match (if bool_decide (rest ∈ subdomain_hosts cfg) then hosts cfg !! rest else None) with
               | Some addrs => Some addrs
               | None => subdomain_loop fuel cfg rest
               end
      end
  end.
Definition resolve_subdomain (r : MagicDnsResolver) (name : list Z) : option (list IpAddr) :=
  if bool_decide (subdomain_hosts (config r) = ∅) then None else subdomain_loop (length name) (config r) name.

Fixpoint find_peer (nodes : list Node) (n dom : list Z) : list IpAddr :=
  match nodes with
  | [] => []
  | peer :: nodes =>
      if is_zero (node_Key peer) then find_peer nodes n dom
      else if peer_matches peer n dom then node_ips peer else find_peer nodes n dom
  end.
Definition resolve (r : MagicDnsResolver) (name : list Z) : list IpAddr :=
  let n := normal name in
  match hosts (config r) !! n with
  | Some addrs => addrs
  | None => match resolve_subdomain r n with Some addrs => addrs | None => find_peer (peers r) n (domain r) end
  end.
Definition resolve_a (r : MagicDnsResolver) (name : list Z) : list (list Z) :=
  omap (fun a => match a with V4 o => Some o | V6 _ => None end) (resolve r name).
Definition resolve_aaaa (r : MagicDnsResolver) (name : list Z) : list (list Z) :=
  omap (fun a => match a with V6 o => Some o | V4 _ => None end) (resolve r name).
Definition lookup_name (r : MagicDnsResolver) (name : list Z) : ResolveOutcome :=
  if negb (is_tailnet_name r name) then NotTailnet
  else match resolve r name with [] => NxDomain | addrs => Answer addrs end.
Definition resolve_first (r : MagicDnsResolver) (name : list Z) : option IpAddr :=
  let addrs := resolve r name in
  match List.find is_ipv4 addrs with Some a => Some a | None => head addrs end.

(** [resolve_via_domain]. *)
Definition resolve_via_domain (dns_name : list Z) (qt : Z) : run (option IpAddr * bool) :=
  if negb ((qt =? qtype.A) || (qt =? qtype.AAAA) || (qt =? qtype.ALL)) then Ret (None, false)
  else if (length dns_name <? 13)%nat then Ret (None, false)
  else if negb (contains_str dns_name (str_bytes "-via-")) then Ret (None, false)
  else
    let '(first_label, dom) := default (dns_name, []) (split_once_char DOT dns_name) in
    if negb (bool_decide (dom = [])) && negb (dns_has_suffix dom (str_bytes "ts.net"))
       && negb (dns_has_suffix dom (str_bytes "tailscale.net")) then Ret (None, false)
    else
      match split_once_str (str_bytes "-via-") first_label with
      | None => Ret (None, false)
      | Some (v4hyphens, suffix) =>
          match parse_ipv4 (to_text (replace_byte 45 DOT v4hyphens)) with
          | None => Ret (None, false)
          | Some ip4 =>
              match parse_unsigned (2 ^ 32 - 1) (to_text suffix) with
              | None => Ret (None, false)
              | Some site_id =>
                  if qt =? qtype.A then Ret (None, true)
                  else match map_via site_id (prefix (V4 ip4) 32) with
                       | Ok p => Ret (Some (p_addr p), true)
                       | Err _ => Panic
                       end
              end
          end
      end.

Definition first_of (fam : IpAddr -> bool) (l : list IpAddr) : option IpAddr := List.find fam l.

(** What [resolve_local] answers once addresses are found. *)
Definition answer_for (found : list IpAddr) (qt : Z) : option IpAddr * Z :=
  if qt =? qtype.A then (first_of is_ipv4 found, rcode.SUCCESS)
  else if qt =? qtype.AAAA then (first_of is_ipv6 found, rcode.SUCCESS)
  else if qt =? qtype.ALL then (head found, rcode.SUCCESS)
  else if (qt =? qtype.NS) || (qt =? qtype.SOA) || (qt =? qtype.AXFR) || (qt =? qtype.HINFO) then (None, rcode.NOT_IMPLEMENTED)
  else (None, rcode.SUCCESS).

Definition resolve_hosts (r : MagicDnsResolver) (name n : list Z) (qt : Z) : option IpAddr * Z :=
  let addrs := match hosts (config r) !! n with Some a => Some a | None => resolve_subdomain r n end in
  match addrs with
  | Some (a :: l) => answer_for (a :: l) qt
  | _ =>
      match resolve r name with
      | [] => if existsb (fun suffix => suffix_matches suffix n) (local_domains (config r))
              then (None, rcode.NAME_ERROR) else (None, rcode.REFUSED)
      | peer_addrs => answer_for peer_addrs qt
      end
  end.
Definition resolve_local (r : MagicDnsResolver) (name : list Z) (qt : Z) : run (option IpAddr * Z) :=
  let n := normal name in
  if dns_has_suffix n (str_bytes ".onion") then Ret (None, rcode.NAME_ERROR)
  else if bool_decide (n = trim_end DOT DNS_SYMBOLIC_FQDN) && (qt =? qtype.A) then Ret (Some MAGICDNS_VIP, rcode.SUCCESS)
  else if bool_decide (n = trim_end DOT DNS_SYMBOLIC_FQDN) && (qt =? qtype.AAAA) then Ret (Some MAGICDNS_VIP_V6, rcode.SUCCESS)
  else
    via ← resolve_via_domain n qt;
    if via.2 : bool then Ret (via.1, rcode.SUCCESS) else Ret (resolve_hosts r name n qt).

(** ** Reverse lookups *)

Definition rdns_name_to_ipv4 (name : list Z) : option IpAddr * bool :=
  match parse_ipv4 (to_text (trim_end_str name RDNS_V4_SUFFIX)) with
  | None => (None, false)
  | Some o => (Some (V4 [byte_at o 3; byte_at o 2; byte_at o 1; byte_at o 0]), true)
  end.

Definition hex_val (b : Z) : option Z :=
  if (48 <=? b) && (b <=? 57) then Some (b - 48)
  else if (97 <=? b) && (b <=? 102) then Some (b - 97 + 10)
  else if (65 <=? b) && (b <=? 70) then Some (b - 65 + 10)
  else None.
(** The walk from the end over digits and dots that alternate, [s] reversed. *)
Fixpoint nibbles_loop (s : list Z) (prev_dot : bool) (nibbles : list Z) : option (list Z) :=
  match s with
  | [] => Some nibbles
  | b :: s =>
      let this_dot := b =? DOT in
      if Bool.eqb prev_dot this_dot then None
      else if this_dot then nibbles_loop s this_dot nibbles
      else if (32 <=? length nibbles)%nat then None
      else nibbles_loop s this_dot (nibbles ++ [b])
  end.
Fixpoint decode_nibbles (l : list Z) : option (list Z) :=
  match l with
  | h :: l' :: rest =>
      hi ← hex_val h; lo ← hex_val l'; bs ← decode_nibbles rest; Some (Z.lor (Z.shiftl hi 4) lo :: bs)
  | _ => Some []
  end.
Definition rdns_name_to_ipv6 (name : list Z) : option IpAddr * bool :=
  let s := trim_end_str name RDNS_V6_SUFFIX in
  if negb (length s =? 63)%nat then (None, false)
  else match nibbles_loop (reverse s) true [] with
       | None => (None, false)
       | Some nibbles =>
           if negb (length nibbles =? 32)%nat then (None, false)
           else match decode_nibbles nibbles with Some ipb => (Some (V6 ipb), true) | None => (None, false) end
       end.

Definition fqdn_for_ip (r : MagicDnsResolver) (a : IpAddr) (name : list Z) : list Z * Z :=
  if bool_decide (a = MAGICDNS_VIP) || bool_decide (a = MAGICDNS_VIP_V6) then (DNS_SYMBOLIC_FQDN, rcode.SUCCESS)
  else match ip_to_host r !! a with
       | Some fqdn => (fqdn, rcode.SUCCESS)
       | None => if existsb (fun suffix => suffix_matches suffix name) (local_domains (config r))
                 then ([], rcode.NAME_ERROR) else ([], rcode.REFUSED)
       end.
Definition resolve_local_reverse (r : MagicDnsResolver) (name : list Z) : list Z * Z :=
  let n := to_lowercase name in
  let '(a, ok) :=
    if ends_with n RDNS_V4_SUFFIX then rdns_name_to_ipv4 n
    else if ends_with n RDNS_V6_SUFFIX then rdns_name_to_ipv6 n
    else (None, false) in
  match ok, a with
  | true, Some a =>
      match (match a with V6 v6 => tailscale_6to4 v6 | V4 _ => None end) with
      | Some v4 =>
          let '(fqdn, code) := fqdn_for_ip r (V4 v4) n in
          if code =? rcode.SUCCESS then (fqdn, code) else fqdn_for_ip r a n
      | None => fqdn_for_ip r a n
      end
  | _, _ => ([], rcode.REFUSED)
  end.
Definition has_rdns_bonjour_prefix (name : list Z) : bool :=
  match split_once_char DOT name with
  | None => false
  | Some (base, rest) =>
      if bool_decide (base ∈ map str_bytes ["b"; "db"; "r"; "dr"; "lb"]%string)
      then starts_with rest (str_bytes "_dns-sd._udp.") else false
  end.

(** ** Routes *)

Definition upstream_route_for (r : MagicDnsResolver) (name : list Z) : option (list UpstreamResolver) :=
  let n := normal name in
  snd <$> max_by_key (fun e => suffix_specificity e.1)
            (List.filter (fun e => bool_decide (e.1 = [DOT]) || suffix_matches e.1 n) (hash_iter (routes (config r)))).
Definition upstream_resolvers_for (r : MagicDnsResolver) (name : list Z) : list UpstreamResolver :=
  default [] (upstream_route_for r name).
End resolver.
