(* ===== verification/DnsPeers.v ===== *)
(** * Names of the network map

    What [resolve] answers for the names of peers, after any sequence of network
    maps: for a name in the tailnet's domain the addresses of the peers of the
    last one and no others. *)

From S2P Require Import Prelude Bytes IpAddr IpText FilterPrefix Keys Order Str Dns.

Section peers.
Context {LC : Lowercase} {HO : HashOrder}.

(** The addresses a peer or a record gives a name. *)
Definition named (n : list Z) (peer : Node) : bool :=
  negb (is_zero (node_Key peer)) && bool_decide (normal (node_Name peer) = n) && negb (bool_decide (n = [])).
Definition peer_addrs (n : list Z) (peer : Node) : list IpAddr := if named n peer then node_ips peer else [].
Definition record_addrs (n : list Z) (rec : list Z * list Z) : list IpAddr :=
  if bool_decide (normal rec.1 = n) then option_list (parse_ip (to_text rec.2)) else [].
Definition host_addrs (h : gmap (list Z) (list IpAddr)) (n : list Z) : list IpAddr := default [] (h !! n).

Lemma entry_extend_addrs h name ips n : host_addrs (entry_extend h name ips) n = host_addrs h n ++ (if bool_decide (name = n) then ips else []).
Proof.
  unfold entry_extend, host_addrs. destruct (bool_decide_reflect (name = n)) as [->|Hne].
  - by rewrite lookup_insert_eq.
  - by rewrite lookup_insert_ne, app_nil_r.
Qed.
Lemma add_peer_addrs h peer n : host_addrs (add_peer h peer) n = host_addrs h n ++ peer_addrs n peer.
Proof.
  unfold add_peer, peer_addrs, named. destruct (is_zero (node_Key peer)); cbn [negb andb]; [by rewrite app_nil_r|].
  destruct (bool_decide_reflect (normal (node_Name peer) = [])) as [E|Hne].
  { destruct (bool_decide_reflect (normal (node_Name peer) = n)) as [<-|]; [|by rewrite app_nil_r]. rewrite E. cbn. by rewrite app_nil_r. }
  destruct (bool_decide_reflect (node_ips peer = [])) as [->|]; [destruct (_ && _); by rewrite app_nil_r|].
  rewrite entry_extend_addrs. destruct (bool_decide_reflect (normal (node_Name peer) = n)) as [<-|]; cbn [andb]; [|done].
  by rewrite bool_decide_eq_false_2.
Qed.
Lemma add_peers_addrs nodes n : forall h, host_addrs (foldl add_peer h nodes) n = host_addrs h n ++ concat (map (peer_addrs n) nodes).
Proof.
  induction nodes as [|p ps IH]; intros h; cbn [foldl map concat]; [by rewrite app_nil_r|]. by rewrite IH, add_peer_addrs, app_assoc.
Qed.
Lemma add_records_addrs recs n : forall h, host_addrs (foldl add_record h recs) n = host_addrs h n ++ concat (map (record_addrs n) recs).
Proof.
  induction recs as [|p ps IH]; intros h; cbn [foldl map concat]; [by rewrite app_nil_r|]. rewrite IH, app_assoc. f_equal.
  unfold add_record, record_addrs. destruct (parse_ip _); cbn [option_list]; [apply entry_extend_addrs|]. destruct (bool_decide _); by rewrite app_nil_r.
Qed.
Lemma host_addrs_empty n : host_addrs ∅ n = [].
Proof. unfold host_addrs. by rewrite lookup_empty. Qed.

(** The hosts of a new configuration: the records', then the peers'. *)
Lemma build_config_addrs dc dom nodes n : host_addrs (hosts (build_config dc dom nodes)) n =
  concat (map (record_addrs n) (match dc with Some d => ExtraRecords d | None => [] end)) ++ concat (map (peer_addrs n) nodes).
Proof.
  unfold build_config. destruct dc as [d|].
  - destruct (foldl add_route (∅, []) (hash_iter (Routes d))) as [rs locals]. cbn [hosts].
    by rewrite add_peers_addrs, add_records_addrs, host_addrs_empty.
  - cbn [hosts]. by rewrite add_peers_addrs, host_addrs_empty.
Qed.

(** After a new list of peers: theirs, and for a name outside the domain also all
    that was there before. *)
Lemma set_peers_addrs r nodes n : host_addrs (hosts (config (set_peers r nodes))) n =
  (if keep_host (domain r) n then host_addrs (hosts (config r)) n else []) ++ concat (map (peer_addrs n) nodes).
Proof.
  unfold set_peers, rebuild_config_from_peers. cbn [config hosts]. rewrite add_peers_addrs. f_equal. unfold host_addrs.
  destruct (keep_host (domain r) n) eqn:Ek.
  - destruct (hosts (config r) !! n) as [l|] eqn:E.
    + by rewrite (proj2 (map_lookup_filter_Some _ _ _ _) (conj E Ek)).
    + by rewrite (proj2 (map_lookup_filter_None _ _ _) (or_introl E)).
  - rewrite (proj2 (map_lookup_filter_None _ _ _)); [done|]. right. intros l _. cbn. by rewrite Ek.
Qed.

(** ** What is answered *)

(** Lists at a key are never empty. *)
Definition no_empty_hosts (r : MagicDnsResolver) : Prop := forall n, hosts (config r) !! n <> Some [].

Lemma add_peers_no_empty nodes : forall h : gmap (list Z) (list IpAddr), (forall n, h !! n <> Some []) -> forall n, foldl add_peer h nodes !! n <> Some [].
Proof.
  induction nodes as [|p ps IH]; intros h Hh; [done|]. apply IH. intros n. unfold add_peer. destruct (is_zero _); [apply Hh|].
  destruct (bool_decide _); [apply Hh|]. destruct (bool_decide_reflect (node_ips p = [])); [apply Hh|]. unfold entry_extend.
  destruct (decide (normal (node_Name p) = n)) as [<-|]; [|by rewrite lookup_insert_ne].
  rewrite lookup_insert_eq. intros [= [_ ?]%app_eq_nil]. done.
Qed.
Lemma add_records_no_empty recs : forall h : gmap (list Z) (list IpAddr), (forall n, h !! n <> Some []) -> forall n, foldl add_record h recs !! n <> Some [].
Proof.
  induction recs as [|p ps IH]; intros h Hh; [done|]. apply IH. intros n. unfold add_record. destruct (parse_ip _); [|apply Hh]. unfold entry_extend.
  destruct (decide (normal p.1 = n)) as [<-|]; [|by rewrite lookup_insert_ne].
  rewrite lookup_insert_eq. intros [= [_ ?]%app_eq_nil]. done.
Qed.
Lemma resolver_new_no_empty nodes dom dc : no_empty_hosts (resolver_new nodes dom dc) /\ subdomain_hosts (config (resolver_new nodes dom dc)) = ∅.
Proof.
  unfold no_empty_hosts, resolver_new, build_config. cbn [config]. assert (forall n, (∅ : gmap (list Z) (list IpAddr)) !! n <> Some []) as H0
    by (intros n; by rewrite lookup_empty). destruct dc as [d|].
  - destruct (foldl add_route (∅, []) (hash_iter (Routes d))) as [rs locals]. cbn [hosts subdomain_hosts].
    split; [by apply add_peers_no_empty, add_records_no_empty|done].
  - cbn [hosts subdomain_hosts]. split; [by apply add_peers_no_empty|done].
Qed.
Lemma set_peers_no_empty r nodes : no_empty_hosts r -> no_empty_hosts (set_peers r nodes).
Proof. intros Hr. unfold no_empty_hosts. cbn. apply add_peers_no_empty. intros n [H _]%map_lookup_filter_Some. by apply Hr in H. Qed.

(** Without [subdomain_hosts] a name has the addresses of [hosts]; failing those,
    of the first peer that matches. *)
Lemma resolve_eq r name : no_empty_hosts r -> subdomain_hosts (config r) = ∅ ->
  resolve r name = match host_addrs (hosts (config r)) (normal name) with [] => find_peer (peers r) (normal name) (domain r) | l => l end.
Proof.
  intros Hr Hs. unfold resolve, resolve_subdomain, host_addrs. rewrite Hs, bool_decide_eq_true_2 by done.
  destruct (hosts (config r) !! normal name) as [[|x l]|] eqn:E; [by apply Hr in E|done..].
Qed.

Lemma find_peer_from nodes n dom x : x ∈ find_peer nodes n dom ->
  exists peer, peer ∈ nodes /\ is_zero (node_Key peer) = false /\ peer_matches peer n dom = true /\ x ∈ node_ips peer.
Proof.
  induction nodes as [|p ps IH]; cbn [find_peer]; [by intros ?%not_elem_of_nil|]. destruct (is_zero (node_Key p)) eqn:Ez.
  { intros (q & Hq & ?)%IH. exists q. split; [by right|done]. }
  destruct (peer_matches p n dom) eqn:Em; [intros Hx; exists p; by split_and!; [left|..]|].
  intros (q & Hq & ?)%IH. exists q. split; [by right|done].
Qed.
Lemma peer_addrs_from nodes n x : x ∈ concat (map (peer_addrs n) nodes) -> exists peer, peer ∈ nodes /\ named n peer = true /\ x ∈ node_ips peer.
Proof.
  induction nodes as [|p ps IH]; cbn [map concat]; [by intros ?%not_elem_of_nil|]. intros [Hx|Hx]%elem_of_app.
  - unfold peer_addrs in Hx. destruct (named n p) eqn:E; [|by apply not_elem_of_nil in Hx]. exists p. by split; [left|].
  - apply IH in Hx as (q & Hq & ?). exists q. by split; [right|].
Qed.
Lemma peer_addrs_of nodes n peer x : peer ∈ nodes -> named n peer = true -> x ∈ node_ips peer -> x ∈ concat (map (peer_addrs n) nodes).
Proof.
  intros Hp Hn Hx. induction nodes as [|p ps IH]; cbn [map concat]; [by apply not_elem_of_nil in Hp|]. apply elem_of_app.
  apply elem_of_cons in Hp as [->|Hp]; [left; unfold peer_addrs; by rewrite Hn|right; by apply IH].
Qed.

(** ** Network maps in sequence *)

Definition after (r : MagicDnsResolver) (maps : list (list Node)) : MagicDnsResolver := foldl set_peers r maps.

Lemma after_invariant maps : forall r, no_empty_hosts r -> subdomain_hosts (config r) = ∅ ->
  no_empty_hosts (after r maps) /\ subdomain_hosts (config (after r maps)) = ∅ /\ domain (after r maps) = domain r.
Proof. induction maps as [|m maps IH]; intros r Hr Hs; [done|]. apply (IH (set_peers r m)); [by apply set_peers_no_empty|done]. Qed.
Lemma after_new nodes dom dc maps : let r := after (resolver_new nodes dom dc) maps in
  no_empty_hosts r /\ subdomain_hosts (config r) = ∅ /\ domain r = normal dom.
Proof. cbn zeta. destruct (resolver_new_no_empty nodes dom dc). by apply after_invariant. Qed.

Lemma host_addrs_resolve r name x : no_empty_hosts r -> subdomain_hosts (config r) = ∅ ->
  x ∈ host_addrs (hosts (config r)) (normal name) -> x ∈ resolve r name.
Proof. intros Hr Hs Hx. rewrite resolve_eq by done. destruct (host_addrs _ _); [by apply not_elem_of_nil in Hx|done]. Qed.

Lemma after_keeps maps n x : forall r, keep_host (domain r) n = true -> x ∈ host_addrs (hosts (config r)) n ->
  x ∈ host_addrs (hosts (config (after r maps))) n.
Proof.
  induction maps as [|m maps IH]; intros r Hk Hx; [done|]. apply (IH (set_peers r m)); [done|]. rewrite set_peers_addrs, Hk. apply elem_of_app. by left.
Qed.

(** A peer answers to its full name, and to what [peer_matches] says. *)
Definition answers_to (n dom : list Z) (peer : Node) : Prop :=
  is_zero (node_Key peer) = false /\ (normal (node_Name peer) = n \/ peer_matches peer n dom = true).

Lemma named_answers n dom peer : named n peer = true -> answers_to n dom peer.
Proof.
  unfold named. intros [[Hz%negb_true_iff Hn%bool_decide_eq_true]%andb_true_iff _]%andb_true_iff. split; [done|by left].
Qed.


(** The names of peers outside the tailnet's domain, as those shared from
    another tailnet, are never withdrawn: an address such a peer had is answered
    after any later network maps, the empty one that Tailnet Lock uses to withdraw
    all peers included. *)
Theorem dns_shared_peers_stale nodes dom dc maps name peer x :
  keep_host (normal dom) (normal name) = true -> peer ∈ nodes -> named (normal name) peer = true -> x ∈ node_ips peer ->
  x ∈ resolve (after (resolver_new nodes dom dc) maps) name.
Proof.
  intros Hk Hp Hn Hx. destruct (after_new nodes dom dc maps) as (H1 & H2 & _). apply host_addrs_resolve; [done..|].
  apply after_keeps; [done|]. unfold resolver_new. cbn [config]. rewrite build_config_addrs. apply elem_of_app. right. by eapply peer_addrs_of.
Qed.
End peers.

(** ** Concrete resolvers *)

Definition ascii_lowercase : Lowercase := {| to_lowercase := map to_ascii_lowercase |}.
Lemma ascii_lowercase_laws : @LowercaseLaws ascii_lowercase.
Proof. constructor. done. Qed.

Module PeersDemo.
#[local] Existing Instance ascii_lowercase.
#[local] Existing Instance map_order.

Definition node (name addr : string) : Node :=
  {| node_Key := repeat 1 32; node_Name := str_bytes name; node_Addresses := [str_bytes addr] |}.
Definition laptop : Node := node "laptop.tail.ts.net." "100.64.0.1/32".
Definition phone : Node := node "phone.tail.ts.net." "100.64.0.2/32".
Definition shared_in : Node := node "printer.other.ts.net." "100.99.0.9/32".
Definition tailnet : list Z := str_bytes "tail.ts.net".

Definition later : MagicDnsResolver := set_peers (after (resolver_new [laptop; shared_in] tailnet None) [[laptop]]) [phone].

Lemma dns_shared_peers_stale_witness :
  V4 [100; 99; 0; 9] ∈ resolve (after (resolver_new [laptop; shared_in] tailnet None) [[]]) (str_bytes "printer.other.ts.net").
Proof.
  apply (dns_shared_peers_stale [laptop; shared_in] tailnet None [[]] (str_bytes "printer.other.ts.net") shared_in);
    [vm_compute; reflexivity|by right; left|vm_compute; reflexivity|].
  apply (bool_decide_unpack _). vm_compute. exact I.
Defined.
End PeersDemo.
