(* ===== verification/DnsServe.v ===== *)
(** * Forwarding and serving DNS queries: [crates/dns/src/forwarder.rs] and the
    responder of [lib.rs]

    What the network gives back is an argument, one [Attempt] per resolver that is
    tried: the datagram and the TCP stream that come back, if any, which of the two
    is there first, and the HTTP response.  [send] says whether the resolver is
    contacted, and the forwarder records those that are.  Timeouts and cancellation,
    which drop a query, are not modelled. *)

From S2P Require Import Prelude Bytes IpAddr Order Utf8 Str DnsWire Dns.

Definition MAX_RESPONSE_BYTES : nat := 4095.
Definition MAX_DOH_HTTP_BYTES : Z := 128 * 1024.
Definition MAX_TCP_REQUEST_SIZE : nat := 4096.

Record Attempt : Type := {
  at_udp : option (list Z); at_tcp : option (list Z); at_udp_first : bool; at_http : option (list Z) }.

(** ** One resolver *)

(** [send_udp]: one byte more than the limit is read to notice that a datagram was
    cut. *)
Definition send_udp (at_ : Attempt) : run (option (list Z)) :=
  match at_udp at_ with
  | None => Ret None
  | Some datagram =>
      let n := Nat.min (length datagram) (MAX_RESPONSE_BYTES + 1) in
      let response := take (Nat.min n MAX_RESPONSE_BYTES) datagram in
      if (MAX_RESPONSE_BYTES <? n)%nat then response ← set_tc_flag response; Ret (Some response)
      else Ret (Some response)
  end.
Definition send_tcp (query : list Z) (at_ : Attempt) : option (list Z) :=
  if 65535 <? Z.of_nat (length query) then None
  else
    stream ← at_tcp at_;
    if (length stream <? 2)%nat then None
    else
      let response_len := Z.to_nat (from_be_bytes (take 2 stream)) in
      if (response_len <? HEADER_BYTES)%nat then None
      else if (length (drop 2 stream) <? response_len)%nat then None
      else Some (take response_len (drop 2 stream)).
(** The body of the HTTP response; its status is not looked at. *)
Definition send_doh (at_ : Attempt) : option (list Z) :=
  buf ← at_http at_;
  if MAX_DOH_HTTP_BYTES <? Z.of_nat (length buf) then None
  else snd <$> split_once_str [13; 10; 13; 10] buf.

Definition or_else {A} (a b : option A) : option A := match a with Some x => Some x | None => b end.

Definition send_classic (skip_tcp : bool) (query : list Z) (udp : bool) (at_ : Attempt) : run (option (list Z)) :=
  udp_response ← send_udp at_;
  let tcp_response := send_tcp query at_ in
  truncated ← match udp_response with Some response => truncated_flag_set response | None => Ret false end;
  if negb udp && negb skip_tcp then
    Ret (if at_udp_first at_ then
           match udp_response with
           | Some response => if truncated : bool then or_else tcp_response (Some response) else Some response
           | None => tcp_response
           end
         else or_else tcp_response udp_response)
  else
    match udp_response with
    | Some response => if udp || negb truncated || skip_tcp then Ret (Some response)
                       else if skip_tcp then Ret None else Ret tcp_response
    | None => if skip_tcp then Ret None else Ret tcp_response
    end.

Definition finish_response (query response : list Z) (udp : bool) : run (option (list Z)) :=
  if (length query <? 2)%nat || (length response <? HEADER_BYTES)%nat || negb (bool_decide (take 2 response = take 2 query)) then Ret None
  else response ← check_response_size_and_set_tc response query udp; Ret (Some response).

Definition send (skip_tcp : bool) (query : list Z) (kind : ResolverKind) (udp : bool) (at_ : Attempt) : run (option (list Z)) :=
  response ← match kind with
             | Doh _ _ => Ret (send_doh at_)
             | Udp _ => send_classic skip_tcp query udp at_
             | Invalid => Ret None
             end;
  match response with None => Ret None | Some response => finish_response query response udp end.

(** ** The forwarder *)

Definition contacted (kind : ResolverKind) : list ResolverKind := match kind with Invalid => [] | _ => [kind] end.

Section forwarder.
Context (skip_tcp : bool) (net : nat -> Attempt).

(** Resolvers are tried in order until one gives a response; [n] attempts came
    before. *)
Fixpoint try_each (query : list Z) (udp : bool) (n : nat) (kinds : list ResolverKind) : run (list ResolverKind * option (list Z)) :=
  match kinds with
  | [] => Ret ([], None)
  | kind :: kinds =>
      r ← send skip_tcp query kind udp (net n);
      match r with
      | Some resp => Ret (contacted kind, Some resp)
      | None => rest ← try_each query udp (S n) kinds; Ret (contacted kind ++ rest.1, rest.2)
      end
  end.

Record Forwarder : Type := { default_resolvers : list UpstreamResolver; fallback : list SocketAddr }.

Definition forward_with_resolvers (f : Forwarder) (query : list Z) (udp : bool) (resolvers : option (list UpstreamResolver))
  : run (list ResolverKind * option (list Z)) :=
  let selected := map up_kind (default (default_resolvers f) resolvers) in
  r ← try_each query udp 0 selected;
  match r.2 with
  | Some resp => Ret r
  | None =>
      if is_some resolvers then Ret (r.1, None)
      else rest ← try_each query udp (length selected) (map Udp (fallback f)); Ret (r.1 ++ rest.1, rest.2)
  end.

(** ** The responder *)

Context {LC : Lowercase} {HO : HashOrder}.

Definition finish_local_response (response : run (option (list Z))) (query : list Z) (udp : bool)
  : run (list ResolverKind * option (list Z)) :=
  response ← response;
  match response with
  | None => Ret ([], None)
  | Some response => response ← check_response_size_and_set_tc response query udp; Ret ([], Some response)
  end.

(** [handle_query]: the resolvers contacted and the response. *)
Definition handle_query (r : MagicDnsResolver) (f : Forwarder) (query : list Z) (udp : bool)
  : run (list ResolverKind * option (list Z)) :=
  q ← parse_question query;
  match q with
  | None => Ret ([], Some (build_format_error_response query))
  | Some (name, qt, _) =>
      if qt =? qtype.PTR then
        if has_rdns_bonjour_prefix name then forward_with_resolvers f query udp (upstream_route_for r name)
        else
          let '(fqdn, code) := resolve_local_reverse r name in
          if code =? rcode.REFUSED then forward_with_resolvers f query udp (upstream_route_for r name)
          else if (code =? rcode.SUCCESS) && negb (bool_decide (fqdn = []))
          then finish_local_response (build_ptr_response query fqdn) query udp
          else finish_local_response (build_rcode_response query code) query udp
      else if ends_with (normal name) (str_bytes ".onion")
      then finish_local_response (build_rcode_response query rcode.NAME_ERROR) query udp
      else
        local ← resolve_local r name qt;
        let '(a, code) := local in
        if code =? rcode.REFUSED then forward_with_resolvers f query udp (upstream_route_for r name)
        else if negb (code =? rcode.SUCCESS) then finish_local_response (build_rcode_response query code) query udp
        else
          finish_local_response
            (match a with
             | Some (V4 v4) => if (qt =? qtype.A) || (qt =? qtype.ALL) then build_a_response query [v4]
                               else build_rcode_response query rcode.SUCCESS
             | Some (V6 v6) => if (qt =? qtype.AAAA) || (qt =? qtype.ALL) then build_aaaa_response query [v6]
                               else build_rcode_response query rcode.SUCCESS
             | None => build_rcode_response query rcode.SUCCESS
             end) query udp
  end.

(** [serve_tcp_connection] on the bytes of a connection: the bytes written.  Each
    turn takes two bytes at least. *)
Fixpoint serve_tcp (fuel : nat) (resolve_query : list Z -> run (option (list Z))) (stream : list Z) : run (list Z) :=
  match fuel with
  | O => Ret []
  | S fuel =>
      if (length stream <? 2)%nat then Ret []
      else
        let request_len := Z.to_nat (from_be_bytes (take 2 stream)) in
        let stream := drop 2 stream in
        if (MAX_TCP_REQUEST_SIZE <? request_len)%nat then Ret []
        else if (length stream <? request_len)%nat then Ret []
        else
          response ← resolve_query (take request_len stream);
          match response with
          | None => Ret []
          | Some response =>
              if 65535 <? Z.of_nat (length response) then Ret []
              else rest ← serve_tcp fuel resolve_query (drop request_len stream);
                   Ret (to_be_bytes 2 (Z.of_nat (length response)) ++ response ++ rest)
          end
  end.
End forwarder.
