(* ===== verification/DnsSpec.v ===== *)
(** * What the MagicDNS responder promises

    A local name is answered from the network map and nobody is asked; any other
    query goes to the resolvers of the most specific route and to no others. *)

From S2P Require Import Prelude Bytes IpAddr IpText FilterPrefix Keys Order Utf8 Str TsAddr DnsName DnsWire DnsWireSpec Dns DnsPeers DnsServe.

(** ** Names *)

Section names.
Context {LC : Lowercase} {LL : LowercaseLaws}.

Definition lower (s : list Z) : list Z := map to_ascii_lowercase s.

Lemma lower_idem s : lower (lower s) = lower s.
Proof. unfold lower. rewrite map_map. apply map_ext. apply to_ascii_lowercase_idem. Qed.
Lemma lower_app s t : lower (s ++ t) = lower s ++ lower t.
Proof. apply map_app. Qed.
Lemma is_ascii_trim c s : is_ascii s -> is_ascii (trim_end c s).
Proof. intros H. destruct (trim_end_spec c s) as [n E]. rewrite E in H. by apply is_ascii_app in H as [H _]. Qed.
Lemma last_lower s : list.last (lower s) = to_ascii_lowercase <$> list.last s.
Proof. unfold lower. induction s as [|x s IH] using rev_ind; [done|]. rewrite map_app. cbn [map]. by rewrite !last_snoc. Qed.
Lemma no_final_lower s : no_final DOT s -> no_final DOT (lower s).
Proof.
  unfold no_final. rewrite last_lower. destruct (list.last s) as [x|]; [|done]. cbn. intros H [= E]. by apply to_ascii_lowercase_dot in E as ->.
Qed.

(** A normalized name: no capitals and no final dot. *)
Definition is_normal (n : list Z) : Prop := is_ascii n /\ lower n = n /\ no_final DOT n.

Lemma normal_eq s : is_ascii s -> normal s = lower (trim_end DOT s).
Proof. intros H. unfold normal. by apply to_lowercase_ascii, is_ascii_trim. Qed.
Lemma normal_is_normal s : is_ascii s -> is_normal (normal s).
Proof.
  intros H. rewrite normal_eq by done. split; [by apply is_ascii_lower, is_ascii_trim|]. split; [apply lower_idem|].
  apply no_final_lower, trim_end_no_final.
Qed.
Lemma normal_id n : is_normal n -> normal n = n.
Proof. intros (Ha & Hl & Hf). rewrite normal_eq by done. by rewrite trim_end_id. Qed.
Lemma to_lowercase_id n : is_normal n -> to_lowercase n = n.
Proof. intros (Ha & Hl & Hf). by rewrite to_lowercase_ascii. Qed.

(** ** Suffixes *)

(** A route's key: the root or a normalized, non-empty name. *)
Definition route_key (k : list Z) : Prop := k = [DOT] \/ (k <> [] /\ is_normal k).
Definition under (suffix n : list Z) : Prop := suffix = [DOT] \/ n = suffix \/ exists t, n = t ++ DOT :: suffix.

Lemma normal_root : normal [DOT] = [].
Proof. rewrite normal_eq; [done|]. unfold is_ascii. repeat constructor; unfold DOT; lia. Qed.

Lemma suffix_matches_under k n : route_key k -> is_normal n -> suffix_matches k n = true <-> under k n.
Proof.
  intros [->|[Hne Hk]] Hn; unfold suffix_matches, under.
  - rewrite normal_root. cbn. tauto.
  - rewrite (normal_id k), (normal_id n) by done. rewrite bool_decide_eq_false_2 by done. cbn [orb].
    rewrite orb_true_iff, bool_decide_eq_true, ends_with_true. split; [tauto|]. intros [->|?]; [|done].
    destruct Hk as (_ & _ & Hf). by destruct (Hf eq_refl).
Qed.

Lemma specificity_root : suffix_specificity [DOT] = 0%nat.
Proof. reflexivity. Qed.
Lemma specificity_name k : k <> [] -> is_normal k -> suffix_specificity k = length (split_char DOT k).
Proof. intros Hne (_ & _ & Hf). unfold suffix_specificity. rewrite trim_end_id by done. by rewrite bool_decide_eq_false_2. Qed.
Lemma specificity_pos k : k <> [] -> is_normal k -> (0 < suffix_specificity k)%nat.
Proof.
  intros Hne Hk. rewrite specificity_name by done. destruct (split_char DOT k) eqn:E; [by apply split_char_nonempty in E|]. cbn. lia.
Qed.

Lemma under_labels k n : k <> [DOT] -> under k n -> exists ls, split_char DOT n = ls ++ split_char DOT k.
Proof. intros Hk [->|[->|[t ->]]]; [done|by exists []|]. exists (split_char DOT t). apply split_suffix. Qed.

(** Two routes that hold a name with the same number of labels are the same. *)
Lemma same_specificity k k' n : route_key k -> route_key k' -> under k n -> under k' n ->
  suffix_specificity k = suffix_specificity k' -> k = k'.
Proof.
  intros [->|[Hne Hk]] [->|[Hne' Hk']] Hu Hu' E; [done| | |].
  - rewrite specificity_root in E. pose proof (specificity_pos k' Hne' Hk'). lia.
  - rewrite specificity_root in E. pose proof (specificity_pos k Hne Hk). lia.
  - rewrite !specificity_name in E by done.
    assert (forall j, is_normal j -> j <> [DOT]) as Hd by (intros j (_ & _ & Hf) ->; by destruct (Hf eq_refl)).
    destruct (under_labels k n (Hd k Hk) Hu) as [ls E1], (under_labels k' n (Hd k' Hk') Hu') as [ls' E2].
    rewrite E1 in E2. apply app_inj_2 in E2 as [_ E2]; [|done]. apply (f_equal (join [DOT])) in E2. by rewrite !join_split in E2.
Qed.
End names.

(** ** Routes *)

Lemma max_by_key_None {A} (key : A -> nat) l : max_by_key key l = None <-> l = [].
Proof.
  destruct l as [|x l]; cbn [max_by_key]; [done|].
  destruct (max_by_key key l) as [y|]; [destruct (key y <? key x)%nat|]; by split.
Qed.
Lemma max_by_key_spec {A} (key : A -> nat) l x : max_by_key key l = Some x -> x ∈ l /\ forall y, y ∈ l -> (key y <= key x)%nat.
Proof.
  revert x. induction l as [|a l IH]; intros x; cbn [max_by_key]; [done|]. destruct (max_by_key key l) as [y|] eqn:E.
  - destruct (IH y eq_refl) as [Hy Hmax]. destruct (Nat.ltb_spec (key y) (key a)); intros [= <-].
    + split; [by left|]. intros z [->|Hz]%elem_of_cons; [done|]. specialize (Hmax z Hz). lia.
    + split; [by right|]. intros z [->|Hz]%elem_of_cons; [done|]. by apply Hmax.
  - apply max_by_key_None in E as ->. intros [= <-]. split; [by left|]. intros z [->|Hz]%elem_of_cons; [done|]. by apply not_elem_of_nil in Hz.
Qed.

Section routes.
Context {LC : Lowercase} {LL : LowercaseLaws} {HO : HashOrder} {HL : HashOrderLaws}.

Definition routes_ok (cfg : Config) : Prop := forall k rs, routes cfg !! k = Some rs -> route_key k.

(** The most specific route that holds a name. *)
Definition most_specific (cfg : Config) (n k : list Z) (rs : list UpstreamResolver) : Prop :=
  routes cfg !! k = Some rs /\ under k n /\
  forall k' rs', routes cfg !! k' = Some rs' -> under k' n -> k' = k \/ (suffix_specificity k' < suffix_specificity k)%nat.

Lemma route_entries cfg n k rs : routes_ok cfg -> is_normal n ->
  (k, rs) ∈ List.filter (fun e => bool_decide (e.1 = [DOT]) || suffix_matches e.1 n) (hash_iter (routes cfg)) <->
  routes cfg !! k = Some rs /\ under k n.
Proof.
  intros Hok Hn. rewrite list_elem_of_In, filter_In, <- list_elem_of_In. cbn [fst].
  rewrite elem_of_hash_iter.
  split; intros [Hk Hu]; (split; [done|]); rewrite orb_true_iff, bool_decide_eq_true, (suffix_matches_under k n (Hok k rs Hk) Hn) in *.
  - destruct Hu as [->|]; [by left|done].
  - by right.
Qed.

Lemma upstream_route_best r name : routes_ok (config r) -> is_ascii name ->
  match upstream_route_for r name with
  | Some rs => exists k, most_specific (config r) (normal name) k rs
  | None => forall k rs, routes (config r) !! k = Some rs -> ~ under k (normal name)
  end.
Proof.
  intros Hok Ha. pose proof (normal_is_normal name Ha) as Hn. unfold upstream_route_for.
  destruct (max_by_key _ _) as [[k rs]|] eqn:E; cbn.
  - apply max_by_key_spec in E as [Hin Hmax]. apply route_entries in Hin as [Hk Hu]; [|done..]. exists k. split_and!; [done..|].
    intros k' rs' Hk' Hu'. specialize (Hmax (k', rs')). cbn in Hmax. rewrite route_entries in Hmax by done.
    specialize (Hmax (conj Hk' Hu')). destruct (decide (suffix_specificity k' = suffix_specificity k)) as [Es|]; [left|right; lia].
    by apply (same_specificity k' k (normal name) (Hok _ _ Hk') (Hok _ _ Hk)).
  - apply max_by_key_None in E. intros k rs Hk Hu. apply (not_elem_of_nil (k, rs)). rewrite <- E. by apply route_entries.
Qed.

(** Hence the choice does not depend on the order of the hash map. *)
Lemma most_specific_unique cfg n k rs k' rs' : most_specific cfg n k rs -> most_specific cfg n k' rs' -> k = k' /\ rs = rs'.
Proof.
  intros (H1 & H2 & H3) (H1' & H2' & H3'). assert (k = k') as ->; [|split; [done|congruence]].
  destruct (H3 k' rs' H1' H2') as [|Hlt]; [done|]. destruct (H3' k rs H1 H2) as [|Hlt']; [done|]. lia.
Qed.
End routes.

(** ** The forwarder *)

Lemma send_udp_returns a : returns (send_udp a).
Proof.
  unfold send_udp. destruct (at_udp a) as [d|]; [|apply returns_Ret]. destruct (_ <? _)%nat; [|apply returns_Ret].
  destruct (set_tc_flag_returns (take (Nat.min (Nat.min (length d) (MAX_RESPONSE_BYTES + 1)) MAX_RESPONSE_BYTES) d)) as (b & -> & _). apply returns_Ret.
Qed.
Lemma send_classic_returns skip query udp a : returns (send_classic skip query udp a).
Proof.
  unfold send_classic. destruct (send_udp_returns a) as [r ->]. cbn [mbind run_bind].
  assert (returns (match r with Some response => truncated_flag_set response | None => Ret false end)) as [t ->]
    by (destruct r; [apply truncated_flag_set_returns|apply returns_Ret]). cbn [mbind run_bind].
  destruct (negb udp && negb skip); [apply returns_Ret|]. destruct r; repeat case_match; apply returns_Ret.
Qed.

(** A response that is passed on is long enough and has the query's identifier. *)
Lemma send_spec skip query kind udp a : exists r, send skip query kind udp a = Ret r /\
  match r with Some resp => (HEADER_BYTES <= length resp)%nat /\ take 2 resp = take 2 query /\ kind <> Invalid | None => True end.
Proof.
  unfold send. assert (returns (match kind with Doh _ _ => Ret (send_doh a) | Udp _ => send_classic skip query udp a | Invalid => Ret None end)
    /\ (kind = Invalid -> match kind with Doh _ _ => Ret (send_doh a) | Udp _ => send_classic skip query udp a | Invalid => Ret None end = Ret None)) as [[r Hr] Hi].
  { destruct kind; (split; [|done || discriminate]); [apply send_classic_returns|apply returns_Ret..]. }
  rewrite Hr in *. cbn [mbind run_bind]. destruct r as [resp|]; [|by eexists]. unfold finish_response.
  destruct (Nat.ltb_spec (length query) 2); [by eexists|]. destruct (Nat.ltb_spec (length resp) HEADER_BYTES); [by eexists|].
  destruct (bool_decide_reflect (take 2 resp = take 2 query)) as [E|]; [|by eexists]. cbn [orb negb].
  destruct (check_response_size_returns resp query udp) as (b & -> & Hl & Ht). cbn [mbind run_bind]. eexists. split; [done|].
  split; [lia|]. split; [congruence|]. intros Hk. specialize (Hi Hk). done.
Qed.

Section forwarding.
Context (skip_tcp : bool) (net : nat -> Attempt).

Definition contacts_in (c kinds : list ResolverKind) : Prop := Forall (fun k => k ∈ kinds /\ k <> Invalid) c.

Lemma contacted_in kind kinds : kind ∈ kinds -> contacts_in (contacted kind) kinds.
Proof. intros H. unfold contacts_in. destruct kind; cbn; repeat constructor; done. Qed.
Lemma contacts_weaken c k k' : contacts_in c k -> k ⊆ k' -> contacts_in c k'.
Proof. intros H Hs. eapply list.Forall_impl; [exact H|]. cbn. intros x []. split; [by apply Hs|done]. Qed.

Lemma try_each_spec query udp kinds : forall n, exists c r, try_each skip_tcp net query udp n kinds = Ret (c, r) /\
  contacts_in c kinds /\ id_matches query r.
Proof.
  induction kinds as [|kind kinds IH]; intros n; cbn [try_each]; [by exists [], None; split_and!; try constructor|].
  destruct (send_spec skip_tcp query kind udp (net n)) as (r & -> & Hr). cbn [mbind run_bind]. destruct r as [resp|].
  - exists (contacted kind), (Some resp). split; [done|]. split; [apply contacted_in; by left|]. by destruct Hr as (? & ? & _).
  - destruct (IH (S n)) as (c & r & -> & Hc & Hid). cbn [mbind run_bind fst snd]. eexists _, _. split; [done|]. split; [|done].
    apply list.Forall_app. split; [apply contacted_in; by left|]. eapply contacts_weaken; [exact Hc|]. intros x. by right.
Qed.

(** The resolvers a forwarder may ask: those of the route, or without one the
    defaults and then the system's. *)
Definition allowed (f : Forwarder) (route : option (list UpstreamResolver)) : list ResolverKind :=
  match route with
  | Some rs => map up_kind rs
  | None => map up_kind (default_resolvers f) ++ map Udp (fallback f)
  end.

Lemma forward_spec f query udp route : exists c r, forward_with_resolvers skip_tcp net f query udp route = Ret (c, r) /\
  contacts_in c (allowed f route) /\ id_matches query r.
Proof.
  unfold forward_with_resolvers. destruct (try_each_spec query udp (map up_kind (default (default_resolvers f) route)) 0) as (c & r & -> & Hc & Hr).
  cbn [mbind run_bind fst snd]. assert (contacts_in c (allowed f route)) as Hc'.
  { eapply contacts_weaken; [exact Hc|]. destruct route; cbn; [done|]. intros x Hx. apply elem_of_app. by left. }
  destruct r as [resp|]; [by eexists _, _|]. destruct route as [rs|]; cbn [is_some]; [by eexists _, _|].
  destruct (try_each_spec query udp (map Udp (fallback f)) (length (map up_kind (default_resolvers f)))) as (c2 & r2 & E & Hc2 & Hr2).
  cbn [default]. rewrite E. cbn [mbind run_bind fst snd]. eexists _, _. split; [done|]. split; [|done]. apply list.Forall_app. split; [done|].
  eapply contacts_weaken; [exact Hc2|]. intros x Hx. apply elem_of_app. by right.
Qed.
End forwarding.

(** ** Resolvers *)

Section resolvers.
Context {LC : Lowercase} {LL : LowercaseLaws} {HO : HashOrder} {HL : HashOrderLaws}.

Definition hosts_ok (h : gmap (list Z) (list IpAddr)) : Prop := forall n l, h !! n = Some l -> Forall wf_ip l.
Definition resolver_ok (r : MagicDnsResolver) : Prop := hosts_ok (hosts (config r)) /\ routes_ok (config r).

Lemma node_ips_wf peer : Forall wf_ip (node_ips peer).
Proof.
  unfold node_ips. induction (node_Addresses peer) as [|s l IH]; cbn; [constructor|]. destruct (parse_ip _) as [a|] eqn:E; [|done].
  constructor; [by eapply parse_ip_wf|done].
Qed.
Lemma entry_extend_ok h name ips : hosts_ok h -> Forall wf_ip ips -> hosts_ok (entry_extend h name ips).
Proof.
  intros Hh Hi n l. unfold entry_extend. destruct (decide (n = name)) as [->|Hne].
  - rewrite lookup_insert. rewrite decide_True by done. intros [= <-]. apply list.Forall_app. split; [|done].
    destruct (h !! name) as [l|] eqn:E; cbn; [by eapply Hh|constructor].
  - rewrite lookup_insert_ne by done. apply Hh.
Qed.
Lemma add_peer_ok h peer : hosts_ok h -> hosts_ok (add_peer h peer).
Proof.
  intros Hh. unfold add_peer. destruct (is_zero _); [done|]. destruct (bool_decide _); [done|]. destruct (bool_decide _); [done|].
  apply entry_extend_ok; [done|apply node_ips_wf].
Qed.
Lemma add_peers_ok nodes : forall h, hosts_ok h -> hosts_ok (foldl add_peer h nodes).
Proof. induction nodes as [|p ps IH]; intros h Hh; [done|]. apply IH. by apply add_peer_ok. Qed.
Lemma add_record_ok h rec : hosts_ok h -> hosts_ok (add_record h rec).
Proof.
  intros Hh. unfold add_record. destruct (parse_ip _) as [a|] eqn:E; [|done]. apply entry_extend_ok; [done|].
  constructor; [by eapply parse_ip_wf|constructor].
Qed.
Lemma add_records_ok recs : forall h, hosts_ok h -> hosts_ok (foldl add_record h recs).
Proof. induction recs as [|p ps IH]; intros h Hh; [done|]. apply IH. by apply add_record_ok. Qed.
Lemma hosts_ok_empty : hosts_ok ∅.
Proof. intros n l. by rewrite lookup_empty. Qed.

Lemma normalize_suffix_key s : is_ascii s -> route_key (normalize_suffix s).
Proof.
  intros Hs. unfold normalize_suffix. pose proof (normal_is_normal s Hs) as Hn. destruct (bool_decide_reflect (normal s = [])); [by left|by right].
Qed.
Definition routes_keys (m : gmap (list Z) (list UpstreamResolver)) : Prop := forall k rs, m !! k = Some rs -> route_key k.
Lemma insert_key m k rs : routes_keys m -> route_key k -> routes_keys (<[k := rs]> m).
Proof.
  intros Hm Hk k' rs'. destruct (decide (k' = k)) as [->|]; [done|]. rewrite lookup_insert_ne by done. apply Hm.
Qed.
Lemma add_route_keys acc e : routes_keys acc.1 -> is_ascii e.1 -> routes_keys (add_route acc e).1.
Proof.
  intros Hm He. destruct acc as [m l]. unfold add_route. destruct (bool_decide _); [done|]. destruct (_ =? _)%nat; [done|].
  apply insert_key; [done|by apply normalize_suffix_key].
Qed.
Lemma add_routes_keys l : forall acc, routes_keys acc.1 -> Forall (fun e => is_ascii e.1) l -> routes_keys (foldl add_route acc l).1.
Proof.
  induction l as [|e l IH]; intros acc Hm Hl; [done|]. apply Forall_cons_1 in Hl as [He Hl]. apply IH; [|done]. by apply add_route_keys.
Qed.

(** The configurations that are built from the control plane's are in order. *)
Lemma build_config_ok dc dom nodes : (forall d, dc = Some d -> forall k rs, Routes d !! k = Some rs -> is_ascii k) ->
  hosts_ok (hosts (build_config dc dom nodes)) /\ routes_ok (build_config dc dom nodes).
Proof.
  intros Hd. unfold build_config. destruct dc as [d|].
  - destruct (foldl add_route (∅, []) (hash_iter (Routes d))) as [rs locals] eqn:E.
    split; [cbn; apply add_peers_ok, add_records_ok, hosts_ok_empty|]. unfold routes_ok. cbn [routes].
    assert (routes_keys rs) as Hrs.
    { change rs with (rs, locals).1. rewrite <- E. apply add_routes_keys; [intros k v; cbn [fst]; by rewrite lookup_empty|].
      apply list.Forall_forall. intros [k v] Hin. apply elem_of_hash_iter in Hin.
      by eapply Hd. }
    destruct (negb _ && _); [|exact Hrs]. destruct (_ =? _)%nat; [exact Hrs|]. apply insert_key; [exact Hrs|by left].
  - split; [cbn; apply add_peers_ok, hosts_ok_empty|]. intros k rs. cbn. by rewrite lookup_empty.
Qed.
Lemma resolver_new_ok nodes dom dc : (forall d, dc = Some d -> forall k rs, Routes d !! k = Some rs -> is_ascii k) -> resolver_ok (resolver_new nodes dom dc).
Proof. intros H. unfold resolver_ok, resolver_new. cbn [config]. by apply build_config_ok. Qed.
Lemma set_peers_ok r nodes : resolver_ok r -> resolver_ok (set_peers r nodes).
Proof.
  intros [Hh Hr]. split; [|exact Hr]. cbn. apply add_peers_ok. intros n l [H _]%map_lookup_filter_Some. by eapply Hh.
Qed.

Lemma find_peer_wf nodes n dom : Forall wf_ip (find_peer nodes n dom).
Proof.
  induction nodes as [|p ps IH]; cbn; [constructor|]. destruct (is_zero _); [done|]. destruct (peer_matches _ _ _); [apply node_ips_wf|done].
Qed.
Lemma subdomain_loop_ok fuel cfg : forall n l, hosts_ok (hosts cfg) -> subdomain_loop fuel cfg n = Some l -> Forall wf_ip l.
Proof.
  induction fuel as [|fuel IH]; intros n l Hh; cbn; [done|]. destruct (split_once_char DOT n) as [[a rest]|]; [|done].
  destruct (bool_decide _); [done|]. destruct (bool_decide (rest ∈ subdomain_hosts cfg)); [|by apply IH].
  destruct (hosts cfg !! rest) as [l'|] eqn:E; [|by apply IH]. intros [= <-]. by eapply Hh.
Qed.
Lemma resolve_wf r name : resolver_ok r -> Forall wf_ip (resolve r name).
Proof.
  intros [Hh _]. unfold resolve. destruct (hosts (config r) !! normal name) as [l|] eqn:E; [by eapply Hh|].
  destruct (resolve_subdomain r (normal name)) as [l|] eqn:Es; [|apply find_peer_wf]. unfold resolve_subdomain in Es.
  destruct (bool_decide _); [done|]. by eapply subdomain_loop_ok.
Qed.

(** Asking for a local name is asking [resolve], then the local domains. *)
Lemma resolve_hosts_eq r name qt : resolve_hosts r name (normal name) qt =
  match resolve r name with
  | [] => if existsb (fun suffix => suffix_matches suffix (normal name)) (local_domains (config r))
          then (None, rcode.NAME_ERROR) else (None, rcode.REFUSED)
  | l => answer_for l qt
  end.
Proof.
  unfold resolve_hosts. assert (forall l, match hosts (config r) !! normal name with Some a => Some a | None => resolve_subdomain r (normal name) end = Some l ->
    resolve r name = l) as H.
  { intros l. unfold resolve. destruct (hosts (config r) !! normal name); [by intros [= ->]|]. by intros ->. }
  destruct (match hosts (config r) !! normal name with Some a => Some a | None => resolve_subdomain r (normal name) end) as [[|a l]|] eqn:E.
  - rewrite (H [] eq_refl). done.
  - rewrite (H (a :: l) eq_refl). done.
  - done.
Qed.
End resolvers.

(** ** Local answers *)

Section responder.
Context {LC : Lowercase} {LL : LowercaseLaws} {HO : HashOrder} {HL : HashOrderLaws}.

Lemma parse_ipv4_wf s o : parse_ipv4 s = Some o -> wf_ip (V4 o).
Proof.
  unfold parse_ipv4, read_ipv4_addr. destruct (read_v4_groups 4 0 s) as [[o' rest]|] eqn:E; [|done]. destruct rest; [|done]. intros [= <-].
  apply read_v4_groups_wf in E as [Hw Hl]. by split.
Qed.

Lemma via_octets_wf site o : wf_ip (V4 o) -> wf_ip (V6 (take 8 (octets (p_addr tailscale_via_range)) ++ to_be_bytes 4 site ++ o)).
Proof.
  intros [Hw Hl]. cbn in Hl. split.
  - cbn [octets]. apply wf_bytes_app. split; [apply (bool_decide_unpack _); vm_compute; exact I|]. apply wf_bytes_app. split; [apply wf_to_be_bytes|done].
  - cbn [octets addr_len is_ipv4]. rewrite !length_app, length_to_be_bytes, Hl. done.
Qed.

Lemma resolve_via_spec n qt : exists a ok, resolve_via_domain n qt = Ret (a, ok) /\
  match a with Some x => ok = true /\ is_ipv4 x = false /\ wf_ip x /\ (qt = qtype.AAAA \/ qt = qtype.ALL) | None => True end.
Proof.
  unfold resolve_via_domain. destruct (negb ((qt =? qtype.A) || (qt =? qtype.AAAA) || (qt =? qtype.ALL))) eqn:Eq; [by exists None, false|].
  destruct (_ <? _)%nat; [by exists None, false|]. destruct (negb (contains_str n _)); [by exists None, false|]. destruct (default _ _) as [first dom].
  destruct (_ && _); [by exists None, false|]. destruct (split_once_str _ first) as [[v4 suffix]|]; [|by exists None, false].
  destruct (parse_ipv4 _) as [o|] eqn:Eo; [|by exists None, false]. destruct (parse_unsigned _ _) as [site|]; [|by exists None, false].
  destruct (Z.eqb_spec qt qtype.A) as [Hqa|Ha]; [by exists None, true|]. unfold map_via. cbn [p_addr prefix]. eexists _, _. split; [done|].
  split; [done|]. split; [done|]. split; [apply via_octets_wf; by eapply parse_ipv4_wf|].
  destruct (Z.eqb_spec qt qtype.AAAA); [by left|]. destruct (Z.eqb_spec qt qtype.ALL); [by right|]. done.
Qed.

(** What a query is answered locally: the response code and the addresses, or
    nothing when it is to be forwarded. *)
Definition verdict (r : MagicDnsResolver) (name : list Z) (qt : Z) : option (Z * list IpAddr) :=
  let n := normal name in
  if ends_with n (str_bytes ".onion") then Some (rcode.NAME_ERROR, [])
  else if bool_decide (n = trim_end DOT DNS_SYMBOLIC_FQDN) && (qt =? qtype.A) then Some (rcode.SUCCESS, [MAGICDNS_VIP])
  else if bool_decide (n = trim_end DOT DNS_SYMBOLIC_FQDN) && (qt =? qtype.AAAA) then Some (rcode.SUCCESS, [MAGICDNS_VIP_V6])
  else match resolve_via_domain n qt with
       | Ret (a, true) => Some (rcode.SUCCESS, option_list a)
       | _ =>
           match resolve r name with
           | [] => if existsb (fun suffix => suffix_matches suffix n) (local_domains (config r)) then Some (rcode.NAME_ERROR, []) else None
           | l => let '(a, code) := answer_for l qt in Some (code, option_list a)
           end
       end.

Lemma answer_for_spec l qt : Forall wf_ip l ->
  let '(a, code) := answer_for l qt in 0 <= code < 16 /\ code <> rcode.REFUSED /\ (code <> rcode.SUCCESS -> a = None) /\
  match a with Some x => wf_ip x /\ (qt = qtype.A /\ is_ipv4 x = true \/ qt = qtype.AAAA /\ is_ipv4 x = false \/ qt = qtype.ALL) | None => True end.
Proof.
  intros Hl. unfold answer_for, first_of. assert (forall f x, List.find f l = Some x -> wf_ip x /\ f x = true) as Hf.
  { intros f x H. apply find_some in H as [Hin Hx]. split; [|done]. rewrite list.Forall_forall in Hl. by apply Hl, list_elem_of_In. }
  destruct (Z.eqb_spec qt qtype.A); [split_and!; [done..|]; destruct (find is_ipv4 l) eqn:E; [|done]; apply Hf in E as []; tauto|].
  destruct (Z.eqb_spec qt qtype.AAAA).
  { split_and!; [done..|]. destruct (find is_ipv6 l) eqn:E; [|done]. apply Hf in E as [? Hv6]. split; [done|]. right. left.
    split; [done|]. unfold is_ipv6 in Hv6. by apply negb_true_iff in Hv6. }
  destruct (Z.eqb_spec qt qtype.ALL).
  { split_and!; [done..|]. destruct l as [|x l]; cbn; [done|]. apply Forall_cons_1 in Hl as [? _]. tauto. }
  destruct (_ || _); split_and!; done.
Qed.

(** An address fits a query of its family's type and one for all types. *)
Definition type_fits (qt : Z) (x : IpAddr) : Prop :=
  wf_ip x /\ (qt = qtype.A /\ is_ipv4 x = true \/ qt = qtype.AAAA /\ is_ipv4 x = false \/ qt = qtype.ALL).
Definition verdict_ok (qt code : Z) (addrs : list IpAddr) : Prop :=
  0 <= code < 16 /\ code <> rcode.REFUSED /\ (code <> rcode.SUCCESS -> addrs = []) /\ (length addrs <= 1)%nat /\ Forall (type_fits qt) addrs.

Lemma verdict_ok_nil qt code : 0 <= code < 16 -> code <> rcode.REFUSED -> verdict_ok qt code [].
Proof. intros Hc Hr. unfold verdict_ok. split_and!; try done; cbn; lia || constructor. Qed.
Lemma verdict_ok_one qt x : type_fits qt x -> verdict_ok qt rcode.SUCCESS [x].
Proof. intros Hx. unfold verdict_ok. split_and!; try done. by apply list.Forall_singleton. Qed.

Lemma verdict_spec r name qt code addrs : resolver_ok r -> verdict r name qt = Some (code, addrs) -> verdict_ok qt code addrs.
Proof.
  intros Hr. unfold verdict. destruct (ends_with _ _); [intros [= <- <-]; by apply verdict_ok_nil|].
  assert (wf_ip MAGICDNS_VIP) as W4 by (apply (bool_decide_unpack _); vm_compute; exact I).
  assert (wf_ip MAGICDNS_VIP_V6) as W6 by (apply (bool_decide_unpack _); vm_compute; exact I).
  set (sym := bool_decide (normal name = trim_end DOT DNS_SYMBOLIC_FQDN)). destruct (sym && (qt =? qtype.A)) eqn:EA.
  { apply andb_true_iff in EA as [_ ->%Z.eqb_eq]. intros [= <- <-]. apply verdict_ok_one. split; [done|by left]. }
  destruct (sym && (qt =? qtype.AAAA)) eqn:EB.
  { apply andb_true_iff in EB as [_ ->%Z.eqb_eq]. intros [= <- <-]. apply verdict_ok_one. split; [done|by right; left]. }
  destruct (resolve_via_spec (normal name) qt) as (a & ok & -> & Ha). destruct ok.
  { intros [= <- <-]. destruct a as [x|]; cbn [option_list]; [|by apply verdict_ok_nil]. apply verdict_ok_one.
    destruct Ha as (_ & Hv & Hw & Hq). split; [done|]. destruct Hq as [->| ->]; [by right; left|by right; right]. }
  clear Ha a. pose proof (resolve_wf r name Hr) as Hw. destruct (resolve r name) as [|x l].
  { destruct (existsb _ _); [|done]. intros [= <- <-]. by apply verdict_ok_nil. }
  pose proof (answer_for_spec (x :: l) qt Hw) as H. destruct (answer_for (x :: l) qt) as [a c]. intros [= <- <-].
  destruct H as (H1 & H2 & H3 & H4). destruct a as [y|]; cbn [option_list]; [|by apply verdict_ok_nil].
  assert (c = rcode.SUCCESS) as -> by (destruct (decide (c = rcode.SUCCESS)); [done|by specialize (H3 n)]). by apply verdict_ok_one.
Qed.

Lemma resolve_local_verdict r name qt : is_ascii name -> ends_with (normal name) (str_bytes ".onion") = false ->
  resolve_local r name qt = Ret (match verdict r name qt with Some (code, addrs) => (head addrs, code) | None => (None, rcode.REFUSED) end).
Proof.
  intros Ha Ho. unfold resolve_local, verdict, dns_has_suffix. rewrite (to_lowercase_id _ (normal_is_normal name Ha)), Ho.
  destruct (_ && (qt =? qtype.A)); [done|]. destruct (_ && (qt =? qtype.AAAA)); [done|].
  destruct (resolve_via_spec (normal name) qt) as (a & ok & -> & _). cbn [mbind run_bind fst snd]. destruct ok; [by destruct a|].
  rewrite resolve_hosts_eq. destruct (resolve r name) as [|x l]; [by destruct (existsb _ _)|].
  destruct (answer_for (x :: l) qt) as [[y|] c]; done.
Qed.

(** ** Responses on the wire *)

Definition addr_rr (x : IpAddr) : Z * list Z := (if is_ipv4 x then qtype.A else qtype.AAAA, octets x).

(** The response to a query: the same identifier and question, [code] and the
    addresses, cut short only when the requester cannot take more. *)
Definition answers_query (q : Query) (udp : bool) (code : Z) (addrs : list IpAddr) (resp : list Z) : Prop :=
  exists flags,
    decode_message resp = Some {| m_id := q_id q; m_flags := flags; m_question := (q_name q, q_type q, q_class q);
                                  m_answers := map (fun x => the_rr (q_name q) (addr_rr x)) addrs |} /\
    response_to (q_flags q) code flags /\
    (Z.land flags DNS_FLAG_TRUNCATED =? 0) = negb (udp && (udp_limit (wire_query q) <? Z.of_nat (length resp))).

Lemma ok_addr_rr x : wf_ip x -> ok_rr (addr_rr x).
Proof. intros [_ Hl]. unfold ok_rr, addr_rr. cbn [fst snd]. rewrite Hl. by destruct x. Qed.

Lemma length_wire_header id flags flags' an : length (wire_header id flags an) = length (wire_header id flags' an).
Proof. unfold wire_header. by rewrite !length_app, !length_to_be_bytes. Qed.
Lemma truncated_lor f : (Z.land (Z.lor f DNS_FLAG_TRUNCATED) DNS_FLAG_TRUNCATED =? 0) = false.
Proof.
  rewrite Z.land_lor_distr_l. apply Z.eqb_neq. intros H%Z.lor_eq_0_iff. destruct H as [_ H]. discriminate H.
Qed.

Lemma finish_local_answers q udp code addrs : ok_query q -> 0 <= code < 16 -> Forall wf_ip addrs -> (length addrs <= 1)%nat ->
  exists resp, finish_local_response (Ret (Some (wire_header (q_id q) (response_flags (q_flags q) code) (Z.of_nat (length addrs)) ++
      q_question q ++ concat (map (fun x => wire_rr (addr_rr x)) addrs)))) (wire_query q) udp = Ret ([], Some resp) /\
    answers_query q udp code addrs resp.
Proof.
  intros Hq Hc Hw Hn. destruct (response_flags_spec (q_flags q) code Hc) as (Hf & Htc & Hf').
  unfold finish_local_response. cbn [mbind run_bind].
  rewrite (check_response_size_spec (q_id q) (response_flags (q_flags q) code)) by (done || apply Hq || apply Hf). cbn [mbind run_bind].
  eexists. split; [done|]. set (tc := udp && _). exists (if tc then Z.lor (response_flags (q_flags q) code) DNS_FLAG_TRUNCATED else response_flags (q_flags q) code).
  split_and!.
  - rewrite <- (map_map addr_rr wire_rr), <- (map_map addr_rr (the_rr (q_name q))), <- (length_map addr_rr addrs).
    apply decode_response; [done|destruct tc; [apply Hf'|apply Hf]| |rewrite length_map; unfold is_u16; lia].
    apply Forall_map. eapply list.Forall_impl; [exact Hw|]. intros x. apply ok_addr_rr.
  - by destruct tc.
  - rewrite length_app, (length_wire_header _ _ (response_flags (q_flags q) code)), <- length_app. fold tc. destruct tc; [apply truncated_lor|by rewrite Htc].
Qed.

Lemma build_code_answers q udp code : ok_query q -> 0 <= code < 16 -> exists resp,
  finish_local_response (build_rcode_response (wire_query q) code) (wire_query q) udp = Ret ([], Some resp) /\ answers_query q udp code [] resp.
Proof.
  intros Hq Hc. unfold build_rcode_response. rewrite (query_response_start q Hq code 0).
  destruct (finish_local_answers q udp code [] Hq Hc) as (resp & E & H); [constructor|cbn; lia|]. cbn [map concat length] in E.
  rewrite app_nil_r in E. by exists resp.
Qed.

(** An address of the question's own family gets a well-formed record. *)
Lemma build_addr_answers q udp x : ok_query q -> type_fits (q_type q) x -> (q_type q = qtype.ALL -> is_ipv4 x = true) -> exists resp,
  finish_local_response (build_addr_response (wire_query q) [octets x]) (wire_query q) udp = Ret ([], Some resp) /\ answers_query q udp rcode.SUCCESS [x] resp.
Proof.
  intros Hq [Hx Hfit] Hall. rewrite (query_addr_response q Hq).
  destruct (finish_local_answers q udp rcode.SUCCESS [x] Hq) as (resp & E & H); [done|by apply list.Forall_singleton|cbn; lia|].
  exists resp. split; [|done]. rewrite <- E. cbn [map concat length]. destruct Hx as [_ Hl]. unfold wire_rr, addr_rr. cbn [fst snd]. rewrite Hl.
  clear E H. destruct x as [o|o]; cbn in Hfit, Hall; destruct Hfit as [[-> ?]|[[-> ?]|HA]]; try done; [by rewrite HA|by specialize (Hall HA)].
Qed.

Context (skip_tcp : bool) (net : nat -> Attempt).

Lemma handle_query_verdict r f q udp : resolver_ok r -> ok_query q -> is_ascii (q_name q) -> q_type q <> qtype.PTR ->
  match verdict r (q_name q) (q_type q) with
  | Some (code, addrs) => (q_type q = qtype.ALL -> Forall (fun x => is_ipv4 x = true) addrs) ->
      exists resp, handle_query skip_tcp net r f (wire_query q) udp = Ret ([], Some resp) /\ answers_query q udp code addrs resp
  | None => handle_query skip_tcp net r f (wire_query q) udp =
      forward_with_resolvers skip_tcp net f (wire_query q) udp (upstream_route_for r (q_name q))
  end.
Proof.
  intros Hr Hq Ha Hp. unfold handle_query. rewrite (query_question q Hq). cbn [mbind run_bind]. rewrite (proj2 (Z.eqb_neq _ _) Hp).
  destruct (ends_with (normal (q_name q)) (str_bytes ".onion")) eqn:Eo.
  { unfold verdict. rewrite Eo. intros _. by apply build_code_answers. }
  rewrite (resolve_local_verdict r _ _ Ha Eo). cbn [mbind run_bind].
  destruct (verdict r (q_name q) (q_type q)) as [[code addrs]|] eqn:Ev; [|done]. intros Hall.
  apply (verdict_spec r _ _ _ _ Hr) in Ev as (Hc & Href & Hs & Hn & Hfits).
  rewrite (proj2 (Z.eqb_neq _ _) Href). destruct (Z.eqb_spec code rcode.SUCCESS) as [->|Hne]; cbn [negb].
  - destruct addrs as [|x [|y l]]; [by apply build_code_answers| |cbn in Hn; lia].
    apply Forall_cons_1 in Hfits as [Hx _]. cbn [head].
    assert (q_type q = qtype.ALL -> is_ipv4 x = true) as Hx4 by (intros HA; by apply Hall, Forall_cons_1 in HA as [? _]).
    pose proof (build_addr_answers q udp x Hq Hx Hx4) as G. destruct Hx as [_ Hfit].
    destruct x as [o|o]; cbn in Hfit, Hx4, G |- *; destruct Hfit as [[-> ?]|[[-> ?]| ->]]; done || exact G || by specialize (Hx4 eq_refl).
  - rewrite (Hs Hne). by apply build_code_answers.
Qed.

(** ** Any bytes *)

Definition route_choice (cfg : Config) (n : list Z) (route : option (list UpstreamResolver)) : Prop :=
  match route with
  | Some rs => exists k, most_specific cfg n k rs
  | None => forall k rs, routes cfg !! k = Some rs -> ~ under k n
  end.

Lemma finish_local_responds m query udp : responds query m -> exists r, finish_local_response m query udp = Ret ([], r) /\ id_matches query r.
Proof.
  intros (r & -> & Hr). unfold finish_local_response. cbn [mbind run_bind]. destruct r as [b|]; [|by exists None].
  destruct (check_response_size_returns b query udp) as (b' & -> & Hl & Ht). eexists. split; [done|]. destruct Hr as [Hb Hid].
  split; [lia|congruence].
Qed.

Lemma resolve_local_returns r name qt : returns (resolve_local r name qt).
Proof.
  unfold resolve_local. destruct (dns_has_suffix _ _); [apply returns_Ret|]. destruct (_ && (qt =? qtype.A)); [apply returns_Ret|].
  destruct (_ && (qt =? qtype.AAAA)); [apply returns_Ret|]. destruct (resolve_via_spec (normal name) qt) as (a & ok & -> & _).
  cbn [mbind run_bind]. destruct ok; apply returns_Ret.
Qed.

(** What becomes of a query: a local response, or what the forwarder gives. *)
Definition local_or_forwarded (f : Forwarder) (query : list Z) (udp : bool) (route : option (list UpstreamResolver))
    (m : run (list ResolverKind * option (list Z))) : Prop :=
  (exists resp, m = Ret ([], resp) /\ id_matches query resp) \/ m = forward_with_resolvers skip_tcp net f query udp route.

Lemma handle_query_cases r f query udp name qt qc : wf_bytes query -> parse_question query = Ret (Some (name, qt, qc)) ->
  local_or_forwarded f query udp (upstream_route_for r name) (handle_query skip_tcp net r f query udp).
Proof.
  intros Hw Hq. unfold handle_query. rewrite Hq. cbn [mbind run_bind].
  assert (forall code, responds query (build_rcode_response query code)) as Hcode by (intros; by apply response_start_responds).
  assert (forall ips, responds query (build_addr_response query ips)) as Haddr by (intros; by apply build_addr_response_responds).
  assert (forall m, responds query m -> local_or_forwarded f query udp (upstream_route_for r name) (finish_local_response m query udp)) as Hl
    by (intros m Hm; left; by apply finish_local_responds).
  destruct (qt =? qtype.PTR).
  - destruct (has_rdns_bonjour_prefix name); [by right|]. destruct (resolve_local_reverse r name) as [fqdn code].
    destruct (code =? rcode.REFUSED); [by right|]. destruct (_ && _); apply Hl; [by apply build_ptr_response_responds|apply Hcode].
  - destruct (ends_with _ _); [apply Hl, Hcode|]. destruct (resolve_local_returns r name qt) as [[a code] ->]. cbn [mbind run_bind].
    destruct (code =? rcode.REFUSED); [by right|]. destruct (negb _); [apply Hl, Hcode|]. apply Hl.
    destruct a as [[o|o]|]; [| |apply Hcode]; destruct (_ || _); apply Haddr || apply Hcode.
Qed.

Lemma local_silent r f query udp name qt qc : is_ascii name -> qt <> qtype.PTR -> is_Some (verdict r name qt) -> resolver_ok r ->
  wf_bytes query -> parse_question query = Ret (Some (name, qt, qc)) ->
  exists resp, handle_query skip_tcp net r f query udp = Ret ([], resp).
Proof.
  intros Ha Hp [[code addrs] Hv] Hr Hw Hq. unfold handle_query. rewrite Hq. cbn [mbind run_bind]. rewrite (proj2 (Z.eqb_neq _ _) Hp).
  assert (forall m, responds query m -> exists resp, finish_local_response m query udp = Ret ([], resp)) as Hl
    by (intros m Hm; destruct (finish_local_responds m query udp Hm) as (x & ? & _); by exists x).
  destruct (ends_with _ _) eqn:Eo; [by apply Hl, response_start_responds|]. rewrite (resolve_local_verdict r _ _ Ha Eo), Hv. cbn [mbind run_bind].
  apply (verdict_spec r _ _ _ _ Hr) in Hv as (_ & Href & _). rewrite (proj2 (Z.eqb_neq _ _) Href).
  destruct (negb _); [by apply Hl, response_start_responds|]. apply Hl.
  destruct (head addrs) as [[o|o]|]; [| |by apply response_start_responds]; destruct (_ || _);
    by apply build_addr_response_responds || apply response_start_responds.
Qed.



End responder.

(** ** DNS over TCP *)

Definition tcp_frame (b : list Z) : list Z := to_be_bytes 2 (Z.of_nat (length b)) ++ b.

(** Requests that come one after the other are answered in order, each response
    with its length; what is cut off at the end is dropped. *)
Lemma serve_tcp_in_order answer resolve_query rest queries : forall fuel,
  Forall (fun q => (length q <= MAX_TCP_REQUEST_SIZE)%nat /\ resolve_query q = Ret (Some (answer q)) /\ Z.of_nat (length (answer q)) <= 65535) queries ->
  (length rest < 2)%nat -> (length queries < fuel)%nat ->
  serve_tcp fuel resolve_query (concat (map tcp_frame queries) ++ rest) = Ret (concat (map (fun q => tcp_frame (answer q)) queries)).
Proof.
  induction queries as [|q qs IH]; intros fuel Hq Hr Hf; (destruct fuel as [|fuel]; [cbn in Hf; lia|]); cbn [map concat serve_tcp].
  - cbn [app]. by rewrite (proj2 (Nat.ltb_lt _ _)).
  - apply Forall_cons_1 in Hq as [(Hl & Ha & Hs) Hq]. change (tcp_frame q) with (to_be_bytes 2 (Z.of_nat (length q)) ++ q). rewrite <- !app_assoc.
    rewrite (proj2 (Nat.ltb_ge _ _)) by (rewrite length_app, length_to_be_bytes; lia).
    rewrite take_app_length', drop_app_length' by (by rewrite length_to_be_bytes).
    rewrite from_to_be_bytes_small by (unfold MAX_TCP_REQUEST_SIZE in Hl; lia). rewrite Nat2Z.id.
    rewrite (proj2 (Nat.ltb_ge _ _)) by lia. rewrite (proj2 (Nat.ltb_ge _ _)) by (rewrite length_app; lia).
    rewrite take_app_length, drop_app_length, Ha. cbn [mbind run_bind]. rewrite (proj2 (Z.ltb_ge _ _)) by lia.
    rewrite IH by (done || cbn in Hf; lia). cbn [mbind run_bind]. by rewrite app_assoc.
Qed.

(** ** A resolver and its queries *)

Module ServeDemo.
#[local] Existing Instance ascii_lowercase.
#[local] Existing Instance ascii_lowercase_laws.
#[local] Existing Instance map_order.
#[local] Existing Instance map_order_laws.

Definition upstream : SocketAddr := {| ip := V4 [8; 8; 8; 8]; port := 53 |}.
Definition corp : SocketAddr := {| ip := V4 [10; 0; 0; 53]; port := 53 |}.
Definition dual : Node :=
  {| node_Key := repeat 1 32; node_Name := str_bytes "db.tail.ts.net."; node_Addresses := [str_bytes "fd7a:115c:a1e0::2/128"; str_bytes "100.64.0.2/32"] |}.
Definition dns_config : DNSConfig :=
  {| Resolvers := [str_bytes "8.8.8.8"]; Routes := {[ str_bytes "corp.example." := [str_bytes "10.0.0.53"] ]}; FallbackResolvers := [];
     Domains := [str_bytes "tail.ts.net"]; Proxied := true; ExtraRecords := [] |}.
Definition resolver : MagicDnsResolver := resolver_new [PeersDemo.laptop; dual] PeersDemo.tailnet (Some dns_config).
Definition forwarder : Forwarder := {| default_resolvers := []; fallback := [] |}.
Definition canned_reply : list Z := [7; 7; 129; 128; 0; 1; 0; 0; 0; 0; 0; 0].
Definition network (_ : nat) : Attempt := {| at_udp := Some canned_reply; at_tcp := None; at_udp_first := true; at_http := None |}.
Definition query (labels : list string) (qt : Z) : Query :=
  {| q_id := [7; 7]; q_flags := 0x0100; q_counts := repeat 0 6; q_labels := map str_bytes labels; q_type := qt; q_class := 1; q_rest := [] |}.

Lemma resolver_is_ok : resolver_ok resolver.
Proof.
  apply resolver_new_ok. intros d [= <-] k rs. cbn [Routes dns_config]. intros [<- _]%lookup_singleton_Some.
  apply (bool_decide_unpack _). vm_compute. exact I.
Qed.
Ltac concrete := apply (bool_decide_unpack _); vm_compute; exact I.
Lemma ok_queries labels qt : (0 <=? qt) && (qt <? 65536) &&
  forallb (fun l => (0 <? length l)%nat && (length l <=? MAX_LABEL_BYTES)%nat && is_utf8 l) (map str_bytes labels) &&
  (length (wire_name (map str_bytes labels)) <=? MAX_NAME_BYTES)%nat = true -> ok_query (query labels qt).
Proof.
  rewrite !andb_true_iff, Z.leb_le, Z.ltb_lt, Nat.leb_le, forallb_forall. intros (([H1 H2] & Hl) & Hn).
  unfold ok_query. split_and!; try done. split; [|done]. apply list.Forall_forall. intros l Hin%list_elem_of_In.
  specialize (Hl l Hin). rewrite !andb_true_iff, Nat.ltb_lt, Nat.leb_le in Hl. by destruct Hl.
Qed.

Definition laptop_query : Query := query ["Laptop"; "tail"; "ts"; "net"] qtype.A.

Definition corp_query : Query := query ["wiki"; "corp"; "example"] qtype.A.

(** The name of [laptop]'s address is known, and is asked of 8.8.8.8. *)
Definition ptr_query : Query := query ["1"; "0"; "64"; "100"; "in-addr"; "arpa"] qtype.PTR.

(** Asked for all types, a name whose first address is IPv6 gets a record of type A
    and length 4 with 16 bytes of data, which does not decode. *)
Example dns_all_malformed :
  verdict resolver (str_bytes "db.tail.ts.net") qtype.ALL = Some (rcode.SUCCESS, [V6 [0xfd; 0x7a; 0x11; 0x5c; 0xa1; 0xe0; 0; 0; 0; 0; 0; 0; 0; 0; 0; 2]]) /\
  match handle_query false network resolver forwarder (wire_query (query ["db"; "tail"; "ts"; "net"] qtype.ALL)) true with
  | Ret ([], Some resp) => decode_message resp = None
  | _ => False
  end.
Proof. split; vm_compute; reflexivity. Qed.

(** The domains of 4via6 names are compared as text. *)
Example via_suffix_text :
  resolve_via_domain (str_bytes "10-0-0-1-via-7.notts.net") qtype.AAAA =
    Ret (Some (V6 [0xfd; 0x7a; 0x11; 0x5c; 0xa1; 0xe0; 0xb; 0x1a; 0; 0; 0; 7; 10; 0; 0; 1]), true).
Proof. vm_compute. reflexivity. Qed.
End ServeDemo.
