(* ===== verification/Crypto.v ===== *)
(** * Cryptographic primitives as parameters

    The [blake2], [chacha20poly1305] and [curve25519-dalek] crates are not part
    of the repository.  Each is a class of functions; the laws are what their
    documentation promises about inputs and outputs, not that anything is hard to
    compute.  [derive_public] of [Keys] is the same multiplication of the base
    point as [x25519_basepoint], by another crate. *)

From S2P Require Import Prelude Bytes Keys.

(** [Blake2s256::digest]; feeding a hasher in pieces is feeding their concatenation. *)
Class Blake2s256 : Type := { blake2s256 : list Z -> list Z }.
Class Blake2s256Laws `{Blake2s256} : Prop := {
  blake2s256_length : forall x, length (blake2s256 x) = 32%nat;
  blake2s256_bytes : forall x, wf_bytes (blake2s256 x) }.

(** [ChaCha20Poly1305] under a key and nonce: [encrypt] and [decrypt] with
    associated data. *)
Class ChaChaPoly : Type := {
  aead_encrypt : list Z -> list Z -> list Z -> list Z -> option (list Z);
  aead_decrypt : list Z -> list Z -> list Z -> list Z -> option (list Z) }.

(** Messages of up to 64 KiB are encrypted, with a tag of 16 bytes, and decrypt
    to themselves; what decrypts is the encryption of the result, since the tag
    is compared with the one of the received ciphertext. *)
Class ChaChaPolyLaws `{ChaChaPoly} : Prop := {
  aead_encrypts : forall key nonce aad m, Z.of_nat (length m) < 2 ^ 16 ->
    exists ct, aead_encrypt key nonce aad m = Some ct /\ length ct = (length m + 16)%nat /\
      aead_decrypt key nonce aad ct = Some m;
  aead_canonical : forall key nonce aad ct m,
    aead_decrypt key nonce aad ct = Some m -> aead_encrypt key nonce aad m = Some ct;
  aead_decrypt_length : forall key nonce aad ct m, aead_decrypt key nonce aad ct = Some m -> length ct = (length m + 16)%nat }.

(** [MontgomeryPoint::mul_clamped] of a public key and of the base point. *)
Class X25519 : Type := {
  x25519 : list Z -> list Z -> list Z;
  x25519_basepoint : list Z -> list Z }.
Class X25519Laws `{X25519} `{BoxCrypto} : Prop := {
  x25519_agree : forall a b, x25519 a (x25519_basepoint b) = x25519 b (x25519_basepoint a);
  x25519_public_length : forall a, length (x25519_basepoint a) = 32%nat;
  derive_public_x25519 : forall a, derive_public a = x25519_basepoint a }.

(** ** Functions with the laws

    Small enough to evaluate, and of no cryptographic strength: a checksum, a
    cipher that only appends one, and multiplication modulo [2^256]. *)

Definition demo_digest (x : list Z) : Z := foldl (fun h b => Z.land (h * 31 + b + 1) (Z.ones 32)) 5381 x.

Definition demo_blake2s256 : Blake2s256 := {| blake2s256 x := to_be_bytes 32 (demo_digest x) |}.
Lemma demo_blake2s256_laws : @Blake2s256Laws demo_blake2s256.
Proof. constructor; intros x; [apply length_to_be_bytes|apply wf_to_be_bytes]. Qed.

Definition demo_tag (key nonce aad m : list Z) : list Z := to_be_bytes 16 (demo_digest (key ++ nonce ++ aad ++ m)).
Definition demo_chacha : ChaChaPoly := {|
  aead_encrypt key nonce aad m := Some (m ++ demo_tag key nonce aad m);
  aead_decrypt key nonce aad ct :=
    if (length ct <? 16)%nat then None else
    let m := take (length ct - 16) ct in
    if bool_decide (drop (length ct - 16) ct = demo_tag key nonce aad m) then Some m else None |}.
Lemma demo_chacha_laws : @ChaChaPolyLaws demo_chacha.
Proof.
  constructor; cbn [aead_encrypt aead_decrypt demo_chacha].
  - intros key nonce aad m _. eexists. split; [done|]. rewrite length_app. assert (length (demo_tag key nonce aad m) = 16%nat) as -> by apply length_to_be_bytes.
    split; [done|]. rewrite (proj2 (Nat.ltb_ge _ _)) by lia. replace (length m + 16 - 16)%nat with (length m) by lia.
    rewrite take_app_length, drop_app_length. by rewrite bool_decide_eq_true_2.
  - intros key nonce aad ct m. destruct (_ <? _)%nat; [done|]. case_bool_decide as Hd; [|done]. intros [= <-].
    by rewrite <- Hd, take_drop.
  - intros key nonce aad ct m. destruct (Nat.ltb_spec (length ct) 16); [done|]. case_bool_decide; [|done]. intros [= <-].
    rewrite length_take. lia.
Qed.

Definition demo_scalar (a : list Z) : Z := from_be_bytes a mod 2 ^ 256.
Definition demo_x25519 : X25519 := {|
  x25519 a p := to_be_bytes 32 (demo_scalar a * from_be_bytes p);
  x25519_basepoint a := to_be_bytes 32 (demo_scalar a) |}.
Definition demo_keys : BoxCrypto := {|
  salsa_box := unit; box_new _ _ := tt; box_encrypt _ _ m := Some m; box_decrypt _ _ m := Some m;
  derive_public := @x25519_basepoint demo_x25519 |}.
Lemma demo_x25519_laws : @X25519Laws demo_x25519 demo_keys.
Proof.
  constructor; [|intros a; apply length_to_be_bytes|done]. intros a b. cbn [x25519 x25519_basepoint demo_x25519].
  assert (forall k, from_be_bytes (to_be_bytes 32 (demo_scalar k)) = demo_scalar k) as E.
  { intros k. apply from_to_be_bytes_small, Z.mod_pos_bound. done. }
  rewrite !E. f_equal. apply Z.mul_comm.
Qed.
