(* ===== verification/Noise.v ===== *)
(** * The control connection: [controlclient/src/controlbase.rs]

    The Noise IK handshake between a client and the control server, and the
    framing of encrypted records after it.  A connection is read as a list of
    bytes: [take_exact] takes bytes from its front and fails at its end.  What is
    written is appended to a list.  The 32 random bytes of each ephemeral key are
    an argument. *)

From S2P Require Import Prelude Bytes Keys Utf8 Str Crypto.

Definition MSG_TYPE_INITIATION : Z := 1.
Definition MSG_TYPE_RESPONSE : Z := 2.
Definition MSG_TYPE_ERROR : Z := 3.
Definition MSG_TYPE_RECORD : Z := 4.
Definition HEADER_LEN : nat := 3.
Definition INITIATION_HEADER_LEN : nat := 5.
Definition CHACHA_TAG_LEN : nat := 16.
Definition INITIATION_PAYLOAD_LEN : nat := 32 + 48 + 16.
Definition RESPONSE_PAYLOAD_LEN : nat := 32 + 16.
Definition INITIATION_MSG_LEN : nat := INITIATION_HEADER_LEN + INITIATION_PAYLOAD_LEN.
Definition RESPONSE_MSG_LEN : nat := HEADER_LEN + RESPONSE_PAYLOAD_LEN.
Definition MAX_MESSAGE_SIZE : nat := 4096.
Definition MAX_CIPHERTEXT_SIZE : nat := MAX_MESSAGE_SIZE - HEADER_LEN.
Definition MAX_PLAINTEXT_SIZE : nat := MAX_CIPHERTEXT_SIZE - CHACHA_TAG_LEN.
Definition INVALID_NONCE : Z := 2 ^ 64 - 1.

Inductive NoiseError : Type :=
| ServerError (message : list Z)
| Handshake (reason : string)
| NoiseIo
| Decrypt
| CipherExhausted
| FrameTooLarge (n : nat).

(** [Read::read_exact]. *)
Definition take_exact (n : nat) (stream : list Z) : option (list Z * list Z) :=
  if (length stream <? n)%nat then None else Some (take n stream, drop n stream).

(** [copy_from_slice] into an array of [n] bytes. *)
Definition exactly (n : nat) (b : list Z) : run (list Z) := if (length b =? n)%nat then Ret b else Panic.

(** [u16::to_string]. *)
Fixpoint decimal (digits : nat) (z : Z) : list Z :=
  match digits with
  | O => []
  | S digits => if z <? 10 then [48 + z] else decimal digits (z / 10) ++ [48 + z mod 10]
  end.
Definition protocol_version_prologue (version : Z) : list Z := str_bytes "Tailscale Control Protocol v" ++ decimal 5 version.

(** ** Key derivation *)

Section noise.
Context {B2 : Blake2s256} {CC : ChaChaPoly} {XD : X25519} {BX : BoxCrypto}.

Definition mix_hash (h data : list Z) : list Z := blake2s256 (h ++ data).

Definition hmac_key (key : list Z) : list Z :=
  let k := if (length key <=? 64)%nat then key else blake2s256 key in k ++ replicate (64 - length k) 0.
Definition hmac_blake2s (key data : list Z) : list Z :=
  let k := hmac_key key in
  let ipad := map (fun b => Z.lxor b 0x36) k in
  let opad := map (fun b => Z.lxor b 0x5c) k in
  blake2s256 (opad ++ blake2s256 (ipad ++ data)).

(** The expansion loop: [t] is the previous block, [need] the bytes still wanted. *)
Fixpoint hkdf_expand (fuel : nat) (prk info t : list Z) (counter : Z) (need : nat) : list Z :=
  match fuel with
  | O => []
  | S fuel =>
      if (need =? 0)%nat then []
      else
        let t := hmac_blake2s prk (t ++ info ++ [counter]) in
        let n := Nat.min need (length t) in
        take n t ++ hkdf_expand fuel prk info t (wrap8 (counter + 1)) (need - n)
  end.
Definition hkdf_blake2s (salt ikm info : list Z) (n : nat) : list Z :=
  hkdf_expand n (hmac_blake2s salt ikm) info [] 1 n.

(** The new chaining key and the cipher key. *)
Definition mix_key (ck ikm : list Z) : list Z * list Z :=
  let both := hkdf_blake2s ck ikm [] 64 in (take 32 both, drop 32 both).
Definition split_keys (ck : list Z) : list Z * list Z :=
  let both := hkdf_blake2s ck [] [] 64 in (take 32 both, drop 32 both).

(** ** The symmetric state of a handshake *)

Record SymmetricState : Type := { ss_h : list Z; ss_ck : list Z; ss_finished : bool }.

Definition ss_new : SymmetricState :=
  let h := blake2s256 (str_bytes "Noise_IK_25519_ChaChaPoly_BLAKE2s") in {| ss_h := h; ss_ck := h; ss_finished := false |}.
Definition ss_mix_hash (s : SymmetricState) (data : list Z) : SymmetricState :=
  {| ss_h := mix_hash (ss_h s) data; ss_ck := ss_ck s; ss_finished := ss_finished s |}.
Definition mix_dh (s : SymmetricState) (priv pub : list Z) : SymmetricState * list Z :=
  let '(ck, k) := mix_key (ss_ck s) (x25519 priv pub) in
  ({| ss_h := ss_h s; ss_ck := ck; ss_finished := ss_finished s |}, k).

Definition ZERO_NONCE : list Z := replicate 12 0.
Definition encrypt_and_hash (s : SymmetricState) (key plaintext : list Z) : run (SymmetricState * list Z) :=
  ct ← expect (aead_encrypt key ZERO_NONCE (ss_h s) plaintext);
  Ret (ss_mix_hash s ct, ct).
Definition decrypt_and_hash (s : SymmetricState) (key ciphertext : list Z) : result NoiseError (SymmetricState * list Z) :=
  pt ← ok_or (aead_decrypt key ZERO_NONCE (ss_h s) ciphertext) Decrypt;
  Ok (ss_mix_hash s ciphertext, pt).
Definition ss_split (s : SymmetricState) : SymmetricState * (list Z * list Z) :=
  ({| ss_h := ss_h s; ss_ck := ss_ck s; ss_finished := true |}, split_keys (ss_ck s)).

(** ** Record ciphers *)

Record CipherState : Type := { cs_key : list Z; cs_nonce : list Z }.
Definition cipher_new (key : list Z) : CipherState := {| cs_key := key; cs_nonce := replicate 12 0 |}.

Definition nonce_valid (nonce : list Z) : bool :=
  (from_be_bytes (take 4 nonce) =? 0) && negb (from_be_bytes (drop 4 nonce) =? INVALID_NONCE).
Definition nonce_increment (nonce : list Z) : list Z :=
  take 4 nonce ++ to_be_bytes 8 (from_be_bytes (drop 4 nonce) + 1).

Definition cipher_encrypt (c : CipherState) (plaintext : list Z) : CipherState * result NoiseError (list Z) :=
  if negb (nonce_valid (cs_nonce c)) then (c, Err CipherExhausted)
  else match aead_encrypt (cs_key c) (cs_nonce c) [] plaintext with
       | None => (c, Err Decrypt)
       | Some ct => ({| cs_key := cs_key c; cs_nonce := nonce_increment (cs_nonce c) |}, Ok ct)
       end.
Definition cipher_decrypt (c : CipherState) (ciphertext : list Z) : CipherState * result NoiseError (list Z) :=
  if negb (nonce_valid (cs_nonce c)) then (c, Err CipherExhausted)
  else match aead_decrypt (cs_key c) (cs_nonce c) [] ciphertext with
       | None => (c, Err Decrypt)
       | Some pt => ({| cs_key := cs_key c; cs_nonce := nonce_increment (cs_nonce c) |}, Ok pt)
       end.

Record NoiseConn : Type := {
  nc_version : Z; nc_peer : list Z; nc_handshake_hash : list Z; nc_tx : CipherState; nc_rx : CipherState }.

(** ** The handshake *)

Definition build_initiation (version : Z) (machine_key control_key machine_ephemeral : list Z)
  : run (list Z * SymmetricState) :=
  let s := ss_mix_hash (ss_mix_hash ss_new (protocol_version_prologue version)) control_key in
  let header := to_be_bytes 2 version ++ [MSG_TYPE_INITIATION] ++ to_be_bytes 2 (Z.of_nat INITIATION_PAYLOAD_LEN) in
  e ← exactly 32 (x25519_basepoint machine_ephemeral);
  let s := ss_mix_hash s e in
  let '(s, es_key) := mix_dh s machine_ephemeral control_key in
  machine_pub ← key_public machine_key;
  st ← encrypt_and_hash s es_key machine_pub;
  ct ← exactly 48 st.2;
  let '(s, ss_key) := mix_dh st.1 machine_key control_key in
  st ← encrypt_and_hash s ss_key [];
  tag ← exactly 16 st.2;
  Ret (header ++ e ++ ct ++ tag, st.1).

Record DeferredHandshake : Type := {
  dh_init : list Z; dh_ephemeral : list Z; dh_state : SymmetricState; dh_machine_key : list Z; dh_control_key : list Z;
  dh_version : Z }.

Definition client_deferred (random machine_key control_key : list Z) (version : Z) : run DeferredHandshake :=
  machine_ephemeral ← clamp25519 random;
  im ← build_initiation version machine_key control_key machine_ephemeral;
  Ret {| dh_init := im.1; dh_ephemeral := machine_ephemeral; dh_state := im.2; dh_machine_key := machine_key;
         dh_control_key := control_key; dh_version := version |}.

(** The part of [finish_from_response_bytes] after the header. *)
Definition finish_payload (d : DeferredHandshake) (resp : list Z) : run (result NoiseError NoiseConn) :=
  control_ephemeral_pub ← slice resp HEADER_LEN (HEADER_LEN + 32);
  let s := ss_mix_hash (dh_state d) control_ephemeral_pub in
  let '(s, _) := mix_dh s (dh_ephemeral d) control_ephemeral_pub in
  let '(s, se_key) := mix_dh s (dh_machine_key d) control_ephemeral_pub in
  tag ← slice_from resp (HEADER_LEN + 32);
  Ret (sp ← decrypt_and_hash s se_key tag;
       let '(s, (c1, c2)) := ss_split sp.1 in
       Ok {| nc_version := dh_version d; nc_peer := dh_control_key d; nc_handshake_hash := ss_h s;
             nc_tx := cipher_new c1; nc_rx := cipher_new c2 |}).

Definition finish_from_response_bytes (d : DeferredHandshake) (resp : list Z) : run (result NoiseError NoiseConn) :=
  kind ← idx resp 0;
  if negb (kind =? MSG_TYPE_RESPONSE) then
    if kind =? MSG_TYPE_ERROR then
      len ← slice resp 1 3;
      let len := Z.to_nat (from_be_bytes len) in
      if (length resp <? HEADER_LEN + len)%nat then Ret (Err (ServerError (str_bytes "(truncated error)")))
      else msg ← slice resp HEADER_LEN (HEADER_LEN + len); Ret (Err (ServerError (from_utf8_lossy msg)))
    else Ret (Err (Handshake "unexpected response message type"))
  else
    len ← slice resp 1 3;
    if negb (from_be_bytes len =? Z.of_nat RESPONSE_PAYLOAD_LEN) then Ret (Err (Handshake "wrong response length"))
    else finish_payload d resp.

Definition continue_handshake (d : DeferredHandshake) (stream : list Z) : run (result NoiseError NoiseConn * list Z) :=
  match take_exact RESPONSE_MSG_LEN stream with
  | None => Ret (Err NoiseIo, stream)
  | Some (resp, stream) => r ← finish_from_response_bytes d resp; Ret (r, stream)
  end.

(** What [send_error] writes. *)
Definition send_error (msg : list Z) : list Z :=
  let msg := if 2 ^ 16 <=? Z.of_nat (length msg) then take (Z.to_nat (2 ^ 16)) msg else msg in
  [MSG_TYPE_ERROR] ++ to_be_bytes 2 (Z.of_nat (length msg)) ++ msg.

(** The responder on an initiation whose header was accepted: the response it
    writes and its connection. *)
Definition server_payload (random control_key init : list Z) : run (list Z * result NoiseError NoiseConn) :=
  let client_version := from_be_bytes (take 2 init) in
  let s := ss_mix_hash ss_new (protocol_version_prologue client_version) in
  control_pub ← key_public control_key;
  let s := ss_mix_hash s control_pub in
  machine_ephemeral_pub ← slice init INITIATION_HEADER_LEN (INITIATION_HEADER_LEN + 32);
  let s := ss_mix_hash s machine_ephemeral_pub in
  let '(s, es_key) := mix_dh s control_key machine_ephemeral_pub in
  machine_pub_ct ← slice init (INITIATION_HEADER_LEN + 32) (INITIATION_HEADER_LEN + 32 + 48);
  match decrypt_and_hash s es_key machine_pub_ct with
  | Err e => Ret ([], Err e)
  | Ok (s, machine_pub_bytes) =>
      machine_key ← exactly 32 machine_pub_bytes;
      let '(s, ss_key) := mix_dh s control_key machine_key in
      init_tag ← slice_from init (INITIATION_HEADER_LEN + 32 + 48);
      match decrypt_and_hash s ss_key init_tag with
      | Err e => Ret ([], Err e)
      | Ok (s, _) =>
          control_ephemeral ← clamp25519 random;
          control_ephemeral_pub ← exactly 32 (x25519_basepoint control_ephemeral);
          let s := ss_mix_hash s control_ephemeral_pub in
          let '(s, _) := mix_dh s control_ephemeral machine_ephemeral_pub in
          let '(s, dh_se) := mix_dh s control_ephemeral machine_key in
          st ← encrypt_and_hash s dh_se [];
          tag ← exactly 16 st.2;
          let '(s, (c1, c2)) := ss_split st.1 in
          Ret ([MSG_TYPE_RESPONSE] ++ to_be_bytes 2 (Z.of_nat RESPONSE_PAYLOAD_LEN) ++ control_ephemeral_pub ++ tag,
               Ok {| nc_version := client_version; nc_peer := machine_key; nc_handshake_hash := ss_h s;
                     nc_tx := cipher_new c2; nc_rx := cipher_new c1 |})
      end
  end.

(** [server_handshake] on a stream: what it writes, its result, and the rest of
    the stream. *)
Definition server_handshake (random control_key stream : list Z) (optional_init : option (list Z))
  : run (list Z * result NoiseError NoiseConn * list Z) :=
  match match optional_init with
        | Some provided =>
            if negb (length provided =? INITIATION_MSG_LEN)%nat
            then Err (send_error (str_bytes "wrong handshake initiation size"), Handshake "wrong handshake initiation size")
            else Ok (provided, stream)
        | None => ok_or (take_exact INITIATION_MSG_LEN stream) ([], NoiseIo)
        end with
  | Err (out, e) => Ret (out, Err e, stream)
  | Ok (init, stream) =>
      kind ← idx init 2;
      if negb (kind =? MSG_TYPE_INITIATION) then
        Ret (send_error (str_bytes "unexpected handshake message type"), Err (Handshake "unexpected handshake message type"), stream)
      else
        declared_len ← slice init 3 5;
        if negb (from_be_bytes declared_len =? Z.of_nat INITIATION_PAYLOAD_LEN) then
          Ret (send_error (str_bytes "wrong handshake initiation length"), Err (Handshake "wrong handshake initiation length"), stream)
        else r ← server_payload random control_key init; Ret (r.1, r.2, stream)
  end.

(** ** Records *)

Definition record_frame (ct : list Z) : list Z := [MSG_TYPE_RECORD] ++ to_be_bytes 2 (Z.of_nat (length ct)) ++ ct.

(** The loop of [write_record], with at most [fuel] turns; each takes at least
    one byte, so the length of the plaintext is enough. *)
Fixpoint write_loop (fuel : nat) (c : CipherState) (out plaintext : list Z) : CipherState * list Z * result NoiseError unit :=
  match fuel, plaintext with
  | _, [] => (c, out, Ok tt)
  | O, _ => (c, out, Ok tt)
  | S fuel, _ =>
      let chunk := take (Nat.min (length plaintext) MAX_PLAINTEXT_SIZE) plaintext in
      match cipher_encrypt c chunk with
      | (c, Err _) => (c, out, Err NoiseIo)
      | (c, Ok ct) => write_loop fuel c (out ++ record_frame ct) (drop (length chunk) plaintext)
      end
  end.
Definition write_record (c : CipherState) (out plaintext : list Z) : CipherState * list Z * result NoiseError unit :=
  write_loop (length plaintext) c out plaintext.

(** One record from a stream. *)
Definition read_record (c : CipherState) (stream : list Z) : CipherState * list Z * result NoiseError (list Z) :=
  match take_exact HEADER_LEN stream with
  | None => (c, stream, Err NoiseIo)
  | Some (hdr, stream) =>
      if negb (byte_at hdr 0 =? MSG_TYPE_RECORD) then (c, stream, Err (Handshake "unexpected transport message type"))
      else
        let len := Z.to_nat (from_be_bytes (drop 1 hdr)) in
        if (MAX_CIPHERTEXT_SIZE <? len)%nat then (c, stream, Err (FrameTooLarge len))
        else match take_exact len stream with
             | None => (c, stream, Err NoiseIo)
             | Some (ct, stream) => let '(c, r) := cipher_decrypt c ct in (c, stream, r)
             end
  end.

(** The read pump of [NoiseIo::new_owned]: records are read until one fails, and
    their plaintexts handed on.  Each turn takes bytes from the stream, so its
    length is enough fuel. *)
Fixpoint read_pump (fuel : nat) (c : CipherState) (stream : list Z) : list (list Z) :=
  match fuel with
  | O => []
  | S fuel =>
      match read_record c stream with
      | (c, stream, Ok pt) => pt :: read_pump fuel c stream
      | (_, _, Err _) => []
      end
  end.

(** The write pump on the pieces that its reads return: it stops at an empty read
    and at the first encryption that fails. *)
Fixpoint write_pump (c : CipherState) (pieces : list (list Z)) : list Z :=
  match pieces with
  | [] => []
  | data :: pieces =>
      if bool_decide (data = []) then []
      else match cipher_encrypt c data with
           | (c, Ok ct) => record_frame ct ++ write_pump c pieces
           | (_, Err _) => []
           end
  end.
End noise.
