(* ===== verification/NoiseSpec.v ===== *)
(** * What the control connection promises

    The records of one direction arrive complete and in order, whatever prefix
    of the bytes arrives; what is delivered from any bytes is what their sender
    sealed under consecutive nonces, which never repeat; and the handshake leaves
    both ends with the same keys, each knowing the other. *)

From S2P Require Import Prelude Bytes Keys Utf8 Str Crypto Noise.

(** ** Nonces *)

Definition nonce_at (n : Z) : list Z := replicate 4 0 ++ to_be_bytes 8 n.
Definition cipher_at (key : list Z) (n : Z) : CipherState := {| cs_key := key; cs_nonce := nonce_at n |}.

Lemma cipher_new_at key : cipher_new key = cipher_at key 0.
Proof. reflexivity. Qed.
Lemma nonce_at_counter n : 0 <= n < 2 ^ 64 -> from_be_bytes (drop 4 (nonce_at n)) = n.
Proof.
  intros Hn. unfold nonce_at. rewrite drop_app_length' by done. by apply from_to_be_bytes_small.
Qed.
Lemma nonce_at_valid n : 0 <= n < INVALID_NONCE -> nonce_valid (nonce_at n) = true.
Proof.
  unfold INVALID_NONCE. intros Hn. unfold nonce_valid. rewrite nonce_at_counter by lia. cbn [nonce_at].
  apply andb_true_iff. split; [done|]. apply negb_true_iff, Z.eqb_neq. unfold INVALID_NONCE. lia.
Qed.
Lemma nonce_at_exhausted : nonce_valid (nonce_at INVALID_NONCE) = false.
Proof. reflexivity. Qed.
Lemma nonce_at_increment n : 0 <= n < 2 ^ 64 -> nonce_increment (nonce_at n) = nonce_at (n + 1).
Proof. intros Hn. unfold nonce_increment. by rewrite nonce_at_counter. Qed.
Lemma nonce_at_inj n m : 0 <= n < 2 ^ 64 -> 0 <= m < 2 ^ 64 -> nonce_at n = nonce_at m -> n = m.
Proof. intros Hn Hm E. rewrite <- (nonce_at_counter n), <- (nonce_at_counter m) by done. by rewrite E. Qed.

(** ** Records *)

Section records.
Context {CC : ChaChaPoly} {CL : ChaChaPolyLaws}.

Definition sealed (key : list Z) (n : Z) (p : list Z) : list Z := default [] (aead_encrypt key (nonce_at n) [] p).
(** The frames of consecutive records from the [n]th on. *)
Fixpoint frames (key : list Z) (n : Z) (ps : list (list Z)) : list (list Z) :=
  match ps with
  | [] => []
  | p :: ps => record_frame (sealed key n p) :: frames key (n + 1) ps
  end.

Definition piece (p : list Z) : Prop := (0 < length p <= MAX_PLAINTEXT_SIZE)%nat.

Lemma small_piece (p : list Z) : (length p <= MAX_PLAINTEXT_SIZE)%nat -> Z.of_nat (length p) < 2 ^ 16.
Proof. unfold MAX_PLAINTEXT_SIZE, MAX_CIPHERTEXT_SIZE, MAX_MESSAGE_SIZE, HEADER_LEN, CHACHA_TAG_LEN. lia. Qed.

Lemma sealed_spec key n p : (length p <= MAX_PLAINTEXT_SIZE)%nat ->
  aead_encrypt key (nonce_at n) [] p = Some (sealed key n p) /\ length (sealed key n p) = (length p + 16)%nat /\
  aead_decrypt key (nonce_at n) [] (sealed key n p) = Some p.
Proof.
  intros Hp. destruct (aead_encrypts key (nonce_at n) [] p (small_piece p Hp)) as (ct & E & Hl & Hd).
  unfold sealed. by rewrite E.
Qed.

Lemma encrypt_at key n p : 0 <= n < INVALID_NONCE -> (length p <= MAX_PLAINTEXT_SIZE)%nat ->
  cipher_encrypt (cipher_at key n) p = (cipher_at key (n + 1), Ok (sealed key n p)).
Proof.
  intros Hn Hp. destruct (sealed_spec key n p Hp) as (E & _ & _). unfold cipher_encrypt. cbn [cs_nonce cs_key cipher_at].
  rewrite nonce_at_valid by done. cbn [negb]. rewrite E, nonce_at_increment by (unfold INVALID_NONCE in *; lia). done.
Qed.

Lemma length_frame ct : length (record_frame ct) = (3 + length ct)%nat.
Proof. unfold record_frame. rewrite !length_app, length_to_be_bytes. done. Qed.

Lemma take_exact_app (a b : list Z) : take_exact (length a) (a ++ b) = Some (a, b).
Proof.
  unfold take_exact. rewrite length_app, (proj2 (Nat.ltb_ge _ _)) by lia. by rewrite take_app_length, drop_app_length.
Qed.

Lemma frame_header (ct : list Z) : Z.of_nat (length ct) < 2 ^ 16 ->
  Z.to_nat (from_be_bytes (to_be_bytes 2 (Z.of_nat (length ct)))) = length ct.
Proof. intros H. rewrite from_to_be_bytes_small by (cbn; lia). lia. Qed.

(** A whole frame is read; part of one is not. *)
Lemma read_frame key n p rest : 0 <= n < INVALID_NONCE -> (length p <= MAX_PLAINTEXT_SIZE)%nat ->
  read_record (cipher_at key n) (record_frame (sealed key n p) ++ rest) = (cipher_at key (n + 1), rest, Ok p).
Proof.
  intros Hn Hp. destruct (sealed_spec key n p Hp) as (_ & Hl & Hd). unfold read_record, record_frame.
  set (ct := sealed key n p) in *. assert (length ct <= MAX_CIPHERTEXT_SIZE)%nat as Hc.
  { unfold MAX_PLAINTEXT_SIZE, MAX_CIPHERTEXT_SIZE, MAX_MESSAGE_SIZE, HEADER_LEN, CHACHA_TAG_LEN in *. lia. }
  assert (Z.of_nat (length ct) < 2 ^ 16) as Hs.
  { unfold MAX_CIPHERTEXT_SIZE, MAX_MESSAGE_SIZE, HEADER_LEN in Hc. lia. }
  set (hdr := [MSG_TYPE_RECORD] ++ to_be_bytes 2 (Z.of_nat (length ct))).
  replace (([MSG_TYPE_RECORD] ++ to_be_bytes 2 (Z.of_nat (length ct)) ++ ct) ++ rest) with (hdr ++ ct ++ rest)
    by (unfold hdr; by rewrite <- !app_assoc).
  change HEADER_LEN with (length hdr). rewrite take_exact_app. unfold hdr at 1. cbn [byte_at nth app Z.eqb negb Pos.eqb].
  change (drop 1 hdr) with (to_be_bytes 2 (Z.of_nat (length ct))). rewrite frame_header by done.
  rewrite (proj2 (Nat.ltb_ge _ _)) by done. rewrite take_exact_app. unfold cipher_decrypt. cbn [cs_nonce cs_key cipher_at].
  rewrite nonce_at_valid by done. cbn [negb]. rewrite Hd, nonce_at_increment by (unfold INVALID_NONCE in *; lia). done.
Qed.

Lemma read_partial c ct bs : Z.of_nat (length ct) < 2 ^ 16 -> bs `prefix_of` record_frame ct -> (length bs < length (record_frame ct))%nat ->
  exists c' bs' e, read_record c bs = (c', bs', Err e).
Proof.
  intros Hs [k Hk] Hl. unfold read_record, take_exact at 1. destruct (Nat.ltb_spec (length bs) HEADER_LEN) as [|Hh]; [eauto|].
  destruct (negb _); [eauto|]. destruct (MAX_CIPHERTEXT_SIZE <? _)%nat; [eauto|].
  assert (take HEADER_LEN bs = [MSG_TYPE_RECORD] ++ to_be_bytes 2 (Z.of_nat (length ct))) as ->.
  { apply (f_equal (take HEADER_LEN)) in Hk. rewrite take_app_le in Hk by done. by rewrite <- Hk. }
  change (drop 1 _) with (to_be_bytes 2 (Z.of_nat (length ct))). rewrite frame_header by done.
  unfold take_exact. rewrite length_drop. rewrite length_frame in Hl. rewrite (proj2 (Nat.ltb_lt _ _)); [eauto|].
  unfold HEADER_LEN in *. lia.
Qed.

Lemma write_pump_frames key ps : forall n, Forall piece ps -> 0 <= n -> n + Z.of_nat (length ps) <= INVALID_NONCE ->
  write_pump (cipher_at key n) ps = concat (frames key n ps).
Proof.
  induction ps as [|p ps IH]; intros n Hps Hn Hm; [done|]. apply Forall_cons_1 in Hps as [Hp Hps]. cbn [length write_pump frames concat] in *.
  rewrite bool_decide_eq_false_2 by (intros ->; destruct Hp; cbn in *; lia).
  rewrite encrypt_at by (try apply Hp; lia). rewrite IH by (done || lia). done.
Qed.

(** From any initial segment of the bytes of consecutive records, exactly the
    records that arrived whole are delivered. *)
Lemma read_pump_prefix key ps : forall n bs fuel, Forall piece ps -> 0 <= n -> n + Z.of_nat (length ps) <= INVALID_NONCE ->
  bs `prefix_of` concat (frames key n ps) -> (length bs <= fuel)%nat ->
  exists j, read_pump fuel (cipher_at key n) bs = take j ps /\ (j <= length ps)%nat /\
    (length (concat (frames key n (take j ps))) <= length bs)%nat /\
    ((j < length ps)%nat -> (length bs < length (concat (frames key n (take (S j) ps))))%nat) /\
    (bs = concat (frames key n ps) -> j = length ps).
Proof.
  induction ps as [|p ps IH]; intros n bs fuel Hps Hn Hm Hpre Hfuel; cbn [frames concat length] in *.
  { exists O. apply prefix_nil_inv in Hpre as ->. destruct fuel; cbn; split_and!; done || lia. }
  apply Forall_cons_1 in Hps as [Hp Hps]. set (f := record_frame (sealed key n p)) in *.
  destruct (sealed_spec key n p (proj2 Hp)) as (_ & Hl & _).
  assert (Z.of_nat (length (sealed key n p)) < 2 ^ 16) as Hs.
  { destruct Hp as [_ Hp]. unfold MAX_PLAINTEXT_SIZE, MAX_CIPHERTEXT_SIZE, MAX_MESSAGE_SIZE, HEADER_LEN, CHACHA_TAG_LEN in Hp. lia. }
  destruct (Nat.le_gt_cases (length f) (length bs)) as [Hf|Hf].
  - destruct Hpre as [k Hk]. assert (bs = f ++ drop (length f) bs) as Ebs.
    { rewrite <- (take_drop (length f) bs) at 1. f_equal. apply (f_equal (take (length f))) in Hk.
      rewrite take_app_length, take_app_le in Hk by done. done. }
    assert (length f = 3 + length (sealed key n p))%nat as Hlf by apply length_frame.
    destruct fuel as [|fuel]; [lia|]. cbn [read_pump]. 
    assert (read_record (cipher_at key n) bs = (cipher_at key (n + 1), drop (length f) bs, Ok p)) as ->.
    { etransitivity; [exact (f_equal (read_record _) Ebs)|]. apply read_frame; [lia|apply Hp]. }
    destruct (IH (n + 1) (drop (length f) bs) fuel) as (j & E & Hj & Hb & Hmax & Hall); try done; try lia.
    { rewrite Ebs in Hk. rewrite <- app_assoc in Hk. apply app_inv_head in Hk. by exists k. }
    { rewrite length_drop. lia. }
    exists (S j). rewrite E. split; [done|]. split; [lia|]. split; [|split].
    + cbn [take frames concat]. rewrite length_app. rewrite length_drop in Hb. fold f. lia.
    + intros Hlt. specialize (Hmax ltac:(lia)). rewrite length_drop in Hmax. rewrite firstn_cons. cbn [frames concat].
      rewrite length_app. fold f. lia.
    + intros Eall. rewrite Hall; [done|]. rewrite Ebs in Eall. by apply app_inv_head in Eall.
  - exists O. split; [|split; [lia|split; [cbn; lia|split; [|intros ->; rewrite length_app in Hf; lia]]]].
    2: { intros _. cbn [take frames concat]. fold f. rewrite app_nil_r. exact Hf. }
    rewrite take_0.
    destruct fuel as [|fuel]; [done|]. cbn [read_pump].
    destruct (read_partial (cipher_at key n) (sealed key n p) bs Hs) as (c' & bs' & e & E); [|exact Hf|by rewrite E].
    destruct Hpre as [k Hk]. exists (take (length f - length bs) k). apply (f_equal (take (length f))) in Hk.
    by rewrite take_app_length, take_app_ge in Hk by lia.
Qed.

(** Whatever the bytes are, the plaintexts delivered are those whose records,
    sealed under consecutive nonces, the bytes begin with. *)
Lemma read_record_inv key n bs c bs' p : 0 <= n < INVALID_NONCE -> wf_bytes bs ->
  read_record (cipher_at key n) bs = (c, bs', Ok p) ->
  c = cipher_at key (n + 1) /\ wf_bytes bs' /\
  exists ct, aead_encrypt key (nonce_at n) [] p = Some ct /\ bs = record_frame ct ++ bs'.
Proof.
  intros Hn Hw. unfold read_record, take_exact at 1. destruct (Nat.ltb_spec (length bs) HEADER_LEN) as [|Hh]; [done|].
  destruct (Z.eqb_spec (byte_at (take HEADER_LEN bs) 0) MSG_TYPE_RECORD) as [Ht|]; cbn [negb]; [|done].
  set (len := Z.to_nat _). destruct (Nat.ltb_spec MAX_CIPHERTEXT_SIZE len) as [|Hlen]; [done|].
  unfold take_exact. destruct (Nat.ltb_spec (length (drop HEADER_LEN bs)) len) as [|Hd]; [done|].
  unfold cipher_decrypt. cbn [cs_nonce cs_key cipher_at]. rewrite nonce_at_valid by done. cbn [negb].
  destruct (aead_decrypt _ _ _ _) as [p'|] eqn:E; [|done]. rewrite nonce_at_increment by (unfold INVALID_NONCE in *; lia).
  intros [= <- <- <-]. split; [done|]. split; [by repeat apply wf_bytes_drop|].
  apply aead_canonical in E. eexists. split; [exact E|]. unfold record_frame.
  assert (length (take len (drop HEADER_LEN bs)) = len) as Elen by (rewrite length_take; lia).
  rewrite Elen, <- !app_assoc, take_drop. rewrite <- (take_drop HEADER_LEN bs) at 1. rewrite app_assoc. f_equal.
  destruct bs as [|b0 [|b1 [|b2 bs]]]; cbn in Hh; try (unfold HEADER_LEN in Hh; lia). cbn in Ht. subst b0. cbn [take HEADER_LEN app]. f_equal.
  assert (wf_bytes [b1; b2]) as Hw2 by exact (wf_bytes_take 2 _ (wf_bytes_drop 1 _ Hw)).
  pose proof (from_be_bytes_bound [b1; b2] Hw2) as Hb. change (drop 1 (take HEADER_LEN (MSG_TYPE_RECORD :: b1 :: b2 :: bs))) with [b1; b2] in len.
  unfold len. rewrite Z2Nat.id by lia. symmetry. exact (to_from_be_bytes [b1; b2] Hw2).
Qed.

Lemma read_record_exhausted key bs c bs' p : read_record (cipher_at key INVALID_NONCE) bs <> (c, bs', Ok p).
Proof.
  unfold read_record. repeat case_match; try done. unfold cipher_decrypt in *. cbn [cs_nonce cipher_at] in *.
  rewrite nonce_at_exhausted in *. cbn [negb] in *. congruence.
Qed.

Lemma read_pump_sealed key fuel : forall n bs, 0 <= n <= INVALID_NONCE -> wf_bytes bs ->
  let ps := read_pump fuel (cipher_at key n) bs in
  n + Z.of_nat (length ps) <= INVALID_NONCE /\
  exists cts rest, bs = concat (map record_frame cts) ++ rest /\ length cts = length ps /\
    forall i p, ps !! i = Some p -> exists ct, cts !! i = Some ct /\ aead_encrypt key (nonce_at (n + Z.of_nat i)) [] p = Some ct.
Proof.
  induction fuel as [|fuel IH]; intros n bs Hn Hw; cbn [read_pump]; [split; [cbn; lia|by exists [], bs]|].
  destruct (read_record (cipher_at key n) bs) as [[c bs'] [p|e]] eqn:E; [|split; [cbn; lia|by exists [], bs]].
  destruct (Z.eq_dec n INVALID_NONCE) as [->|]; [by apply read_record_exhausted in E|].
  apply read_record_inv in E as (-> & Hw' & ct & Ect & Ebs); [|lia|done].
  destruct (IH (n + 1) bs') as (Hm & cts & rest & E' & Hl & Hall); [lia|done|]. split; [cbn [length]; lia|].
  exists (ct :: cts), rest. cbn [map concat length]. split; [by rewrite <- app_assoc, <- E'|]. split; [by rewrite Hl|].
  intros [|i] q Hq; cbn in Hq |- *; [injection Hq as <-; exists ct; by rewrite Z.add_0_r|].
  destruct (Hall i q Hq) as (cti & Hi & Ei). exists cti. split; [done|]. by replace (n + Z.of_nat (S i)) with (n + 1 + Z.of_nat i) by lia.
Qed.

(** ** The pieces of a message *)

Lemma write_loop_frames key fuel : forall n out pt, (length pt <= fuel)%nat ->
  exists ps, concat ps = pt /\ Forall piece ps /\
    (0 <= n -> n + Z.of_nat (length ps) <= INVALID_NONCE ->
     write_loop fuel (cipher_at key n) out pt = (cipher_at key (n + Z.of_nat (length ps)), out ++ concat (frames key n ps), Ok tt)).
Proof.
  induction fuel as [|fuel IH]; intros n out pt Hl.
  { exists []. destruct pt; [|cbn in Hl; lia]. split; [done|]. split; [constructor|]. intros _ _. cbn. by rewrite app_nil_r, Z.add_0_r. }
  destruct pt as [|x pt].
  { exists []. split; [done|]. split; [constructor|]. intros _ _. cbn. by rewrite app_nil_r, Z.add_0_r. }
  set (p := x :: pt) in *. set (chunk := take (Nat.min (length p) MAX_PLAINTEXT_SIZE) p).
  assert (length chunk = Nat.min (length p) MAX_PLAINTEXT_SIZE) as Hc by (unfold chunk; rewrite length_take; lia).
  assert (0 < length p)%nat as Hp by (unfold p; cbn; lia).
  assert (0 < MAX_PLAINTEXT_SIZE)%nat as Hmax by (unfold MAX_PLAINTEXT_SIZE, MAX_CIPHERTEXT_SIZE, MAX_MESSAGE_SIZE, HEADER_LEN, CHACHA_TAG_LEN; lia).
  destruct (IH (n + 1) (out ++ record_frame (sealed key n chunk)) (drop (length chunk) p)) as (ps & E & Hps & Hw);
    [rewrite length_drop; lia|].
  exists (chunk :: ps). split; [|split].
  - cbn [concat]. rewrite E. rewrite Hc. apply take_drop.
  - constructor; [|done]. unfold piece. lia.
  - intros Hn Hm. cbn [length] in Hm. cbn [write_loop]. fold p. fold chunk. rewrite encrypt_at by lia.
    rewrite Hw by lia. cbn [frames concat length]. rewrite <- app_assoc.
    by replace (n + 1 + Z.of_nat (length ps)) with (n + Z.of_nat (S (length ps))) by lia.
Qed.
End records.

(** ** The handshake *)

Section handshake.
Context {B2 : Blake2s256} {BL : Blake2s256Laws} {CC : ChaChaPoly} {CL : ChaChaPolyLaws} {BX : BoxCrypto} {XD : X25519} {XL : X25519Laws}.

Lemma mix_dh_agree s a b : mix_dh s a (x25519_basepoint b) = mix_dh s b (x25519_basepoint a).
Proof. unfold mix_dh. by rewrite x25519_agree. Qed.

Lemma encrypt_decrypt_and_hash s key pt : (length pt <= 32)%nat ->
  exists s' ct, encrypt_and_hash s key pt = Ret (s', ct) /\ length ct = (length pt + 16)%nat /\
    decrypt_and_hash s key ct = Ok (s', pt).
Proof.
  intros Hl. destruct (aead_encrypts key ZERO_NONCE (ss_h s) pt) as (ct & E & Hc & Hd); [lia|].
  exists (ss_mix_hash s ct), ct. unfold encrypt_and_hash, decrypt_and_hash. rewrite E, Hd. done.
Qed.

Lemma exactly_ok n b : length b = n -> exactly n b = Ret b.
Proof. intros <-. unfold exactly. by rewrite Nat.eqb_refl. Qed.
Lemma slice_at {A} (a b c : list A) i j : length a = i -> (i + length b = j)%nat -> slice (a ++ b ++ c) i j = Ret b.
Proof.
  intros <- <-. rewrite slice_ok by (rewrite !length_app; lia). rewrite drop_app_length, take_app_length' by lia. done.
Qed.
Lemma slice_from_at {A} (a b : list A) i : length a = i -> slice_from (a ++ b) i = Ret b.
Proof. intros <-. rewrite slice_from_ok by (rewrite length_app; lia). by rewrite drop_app_length. Qed.
Lemma key_public_ok k : is_zero k = false -> key_public k = Ret (x25519_basepoint k).
Proof. intros Hk. unfold key_public. rewrite Hk. cbn. by rewrite derive_public_x25519. Qed.
Lemma clamp_ok r : length r = 32%nat -> exists c, clamp25519 r = Ret c.
Proof. intros Hr. rewrite clamp25519_eq by done. eauto. Qed.

(** The initiation of a client, and what the server's half makes of it up to the
    point where both have mixed in the same keys. *)
Lemma initiation_spec version mk ck eph :
  is_zero mk = false ->
  exists s ct tag s1 k1 s2 s3 k3,
    build_initiation version mk (x25519_basepoint ck) eph =
      Ret ((to_be_bytes 2 version ++ [MSG_TYPE_INITIATION] ++ to_be_bytes 2 (Z.of_nat INITIATION_PAYLOAD_LEN)) ++ x25519_basepoint eph ++ ct ++ tag, s) /\
    length ct = 48%nat /\ length tag = 16%nat /\
    mix_dh (ss_mix_hash (ss_mix_hash (ss_mix_hash ss_new (protocol_version_prologue version)) (x25519_basepoint ck)) (x25519_basepoint eph))
      ck (x25519_basepoint eph) = (s1, k1) /\
    decrypt_and_hash s1 k1 ct = Ok (s2, x25519_basepoint mk) /\
    mix_dh s2 ck (x25519_basepoint mk) = (s3, k3) /\ decrypt_and_hash s3 k3 tag = Ok (s, []).
Proof.
  intros Hmk. unfold build_initiation. rewrite exactly_ok by apply x25519_public_length. cbn [mbind run_bind].
  destruct (mix_dh _ eph (x25519_basepoint ck)) as [s1 k1] eqn:E1. rewrite key_public_ok by done. cbn [mbind run_bind].
  destruct (encrypt_decrypt_and_hash s1 k1 (x25519_basepoint mk)) as (s2 & ct & E2 & Hl2 & D2);
    [rewrite x25519_public_length; lia|]. rewrite x25519_public_length in Hl2.
  rewrite E2. cbn [mbind run_bind fst snd]. rewrite exactly_ok by done. cbn [mbind run_bind].
  destruct (mix_dh s2 mk (x25519_basepoint ck)) as [s3 k3] eqn:E3.
  destruct (encrypt_decrypt_and_hash s3 k3 []) as (s4 & tag & E4 & Hl4 & D4); [cbn; lia|].
  rewrite E4. cbn [mbind run_bind fst snd]. rewrite exactly_ok by done. cbn [mbind run_bind].
  exists s4, ct, tag, s1, k1, s2, s3, k3. split; [done|]. split; [done|]. split; [done|].
  rewrite mix_dh_agree. split; [done|]. split; [done|]. rewrite mix_dh_agree. done.
Qed.

Lemma server_payload_spec version mk ck eph r s ct tag s1 k1 s2 s3 k3 init :
  is_u16 version -> is_zero ck = false -> length r = 32%nat -> length ct = 48%nat -> length tag = 16%nat ->
  init = (to_be_bytes 2 version ++ [MSG_TYPE_INITIATION] ++ to_be_bytes 2 (Z.of_nat INITIATION_PAYLOAD_LEN)) ++ x25519_basepoint eph ++ ct ++ tag ->
  mix_dh (ss_mix_hash (ss_mix_hash (ss_mix_hash ss_new (protocol_version_prologue version)) (x25519_basepoint ck)) (x25519_basepoint eph))
      ck (x25519_basepoint eph) = (s1, k1) ->
  decrypt_and_hash s1 k1 ct = Ok (s2, x25519_basepoint mk) ->
  mix_dh s2 ck (x25519_basepoint mk) = (s3, k3) -> decrypt_and_hash s3 k3 tag = Ok (s, []) ->
  exists e s5 ke s6 k6 s7 rtag, clamp25519 r = Ret e /\
    mix_dh (ss_mix_hash s (x25519_basepoint e)) e (x25519_basepoint eph) = (s5, ke) /\
    mix_dh s5 e (x25519_basepoint mk) = (s6, k6) /\
    length rtag = 16%nat /\ decrypt_and_hash s6 k6 rtag = Ok (s7, []) /\
    server_payload r ck init =
      Ret ([MSG_TYPE_RESPONSE] ++ to_be_bytes 2 (Z.of_nat RESPONSE_PAYLOAD_LEN) ++ x25519_basepoint e ++ rtag,
           Ok {| nc_version := version; nc_peer := x25519_basepoint mk; nc_handshake_hash := ss_h s7;
                 nc_tx := cipher_new (split_keys (ss_ck s7)).2; nc_rx := cipher_new (split_keys (ss_ck s7)).1 |}).
Proof.
  intros Hv Hck Hr Hct Htag -> E1 D1 E2 D2. destruct (clamp_ok r Hr) as [e He].
  destruct (mix_dh (ss_mix_hash s (x25519_basepoint e)) e (x25519_basepoint eph)) as [s5 ke] eqn:E5.
  destruct (mix_dh s5 e (x25519_basepoint mk)) as [s6 k6] eqn:E6.
  destruct (encrypt_decrypt_and_hash s6 k6 []) as (s7 & rtag & E7 & Hl7 & D7); [cbn; lia|].
  exists e, s5, ke, s6, k6, s7, rtag. split; [done|]. split; [done|]. split; [done|]. split; [done|]. split; [done|].
  unfold server_payload. set (hd := to_be_bytes 2 version ++ _ ++ to_be_bytes 2 _).
  assert (from_be_bytes (take 2 (hd ++ x25519_basepoint eph ++ ct ++ tag)) = version) as ->.
  { unfold hd. rewrite <- app_assoc, take_app_length' by done. apply from_to_be_bytes_small. exact Hv. }
  assert (length hd = INITIATION_HEADER_LEN) as Hhd by (unfold hd; rewrite !length_app, !length_to_be_bytes; done).
  clearbody hd. rewrite key_public_ok by done. cbn [mbind run_bind].
  rewrite (slice_at hd (x25519_basepoint eph) _ INITIATION_HEADER_LEN (INITIATION_HEADER_LEN + 32)) by (rewrite ?x25519_public_length; done). cbn [mbind run_bind].
  rewrite E1. rewrite app_assoc, (slice_at (hd ++ x25519_basepoint eph) ct _ (INITIATION_HEADER_LEN + 32) (INITIATION_HEADER_LEN + 32 + 48)) by (rewrite ?length_app, ?x25519_public_length, ?Hct, ?Hhd; done).
  cbn [mbind run_bind]. rewrite D1. rewrite exactly_ok by apply x25519_public_length. cbn [mbind run_bind]. rewrite E2.
  rewrite app_assoc, (slice_from_at ((hd ++ x25519_basepoint eph) ++ ct)) by (rewrite ?length_app, ?x25519_public_length, ?Hct, ?Hhd; done).
  cbn [mbind run_bind]. rewrite D2, He. cbn [mbind run_bind]. rewrite exactly_ok by apply x25519_public_length. cbn [mbind run_bind].
  rewrite E5, E6, E7. cbn [mbind run_bind fst snd]. rewrite exactly_ok by done. cbn [mbind run_bind]. unfold ss_split.
  by destruct (split_keys (ss_ck s7)).
Qed.
(** The two ends of one session: each sends with the key the other receives with. *)
Definition paired (client server : NoiseConn) : Prop :=
  nc_tx client = nc_rx server /\ nc_rx client = nc_tx server /\
  nc_handshake_hash client = nc_handshake_hash server /\ nc_version client = nc_version server /\
  exists c1 c2, nc_tx client = cipher_at c1 0 /\ nc_rx client = cipher_at c2 0.

Lemma finish_spec version mk ck eph init s e s5 ke s6 k6 s7 rtag rest :
  mix_dh (ss_mix_hash s (x25519_basepoint e)) e (x25519_basepoint eph) = (s5, ke) ->
  mix_dh s5 e (x25519_basepoint mk) = (s6, k6) ->
  length rtag = 16%nat -> decrypt_and_hash s6 k6 rtag = Ok (s7, []) ->
  continue_handshake {| dh_init := init; dh_ephemeral := eph; dh_state := s; dh_machine_key := mk; dh_control_key := ck; dh_version := version |}
    (([MSG_TYPE_RESPONSE] ++ to_be_bytes 2 (Z.of_nat RESPONSE_PAYLOAD_LEN) ++ x25519_basepoint e ++ rtag) ++ rest) =
  Ret (Ok {| nc_version := version; nc_peer := ck; nc_handshake_hash := ss_h s7;
             nc_tx := cipher_new (split_keys (ss_ck s7)).1; nc_rx := cipher_new (split_keys (ss_ck s7)).2 |}, rest).
Proof.
  intros E5 E6 Hl D7. unfold continue_handshake.
  set (hd := [MSG_TYPE_RESPONSE] ++ to_be_bytes 2 (Z.of_nat RESPONSE_PAYLOAD_LEN)).
  assert ([MSG_TYPE_RESPONSE] ++ to_be_bytes 2 (Z.of_nat RESPONSE_PAYLOAD_LEN) ++ x25519_basepoint e ++ rtag
          = hd ++ x25519_basepoint e ++ rtag) as -> by (unfold hd; by rewrite <- app_assoc).
  assert (RESPONSE_MSG_LEN = length (hd ++ x25519_basepoint e ++ rtag)) as ->
    by (rewrite !length_app, x25519_public_length, Hl; reflexivity).
  rewrite take_exact_app. unfold finish_from_response_bytes.
  change (idx (hd ++ x25519_basepoint e ++ rtag) 0) with (Ret MSG_TYPE_RESPONSE : run Z). cbn [mbind run_bind]. rewrite Z.eqb_refl. cbn [negb].
  change (slice (hd ++ x25519_basepoint e ++ rtag) 1 3) with (slice ([MSG_TYPE_RESPONSE] ++ to_be_bytes 2 (Z.of_nat RESPONSE_PAYLOAD_LEN) ++ x25519_basepoint e ++ rtag) 1 3).
  rewrite slice_at by done. cbn [mbind run_bind]. rewrite from_to_be_bytes_small by done. rewrite Z.eqb_refl. cbn [negb].
  unfold finish_payload. rewrite (slice_at hd (x25519_basepoint e) _ HEADER_LEN (HEADER_LEN + 32)) by (rewrite ?x25519_public_length; done).
  cbn [mbind run_bind dh_state dh_ephemeral dh_machine_key]. rewrite mix_dh_agree, E5, mix_dh_agree, E6.
  rewrite app_assoc, slice_from_at by (rewrite length_app, x25519_public_length; done). cbn [mbind run_bind]. rewrite D7. unfold ss_split.
  cbn [mbind result_bind fst]. by destruct (split_keys (ss_ck s7)).
Qed.

(** An initiation in the stream is taken as one passed in is. *)
Lemma server_handshake_stream rs ck init rest : length init = INITIATION_MSG_LEN ->
  server_handshake rs ck (init ++ rest) None = server_handshake rs ck rest (Some init).
Proof. intros Hl. unfold server_handshake. rewrite <- Hl, take_exact_app, Nat.eqb_refl. done. Qed.

Lemma server_handshake_header rs ck init rest out conn :
  length init = INITIATION_MSG_LEN -> idx init 2 = Ret MSG_TYPE_INITIATION ->
  slice init 3 5 = Ret (to_be_bytes 2 (Z.of_nat INITIATION_PAYLOAD_LEN)) ->
  server_payload rs ck init = Ret (out, conn) -> server_handshake rs ck rest (Some init) = Ret (out, conn, rest).
Proof.
  intros Hinit Hkind Hlen P. unfold server_handshake. rewrite Hinit, Nat.eqb_refl. cbn [negb].
  rewrite Hkind. cbn [mbind run_bind]. rewrite Z.eqb_refl. cbn [negb]. rewrite Hlen. cbn [mbind run_bind].
  rewrite from_to_be_bytes_small by done. rewrite Z.eqb_refl. cbn [negb]. rewrite P. done.
Qed.

Lemma handshake_pairs version mk ck rc rs :
  is_u16 version -> is_zero mk = false -> is_zero ck = false -> length rc = 32%nat -> length rs = 32%nat ->
  exists d resp client server,
    client_deferred rc mk (x25519_basepoint ck) version = Ret d /\
    (forall rest, server_handshake rs ck (dh_init d ++ rest) None = Ret (resp, Ok server, rest) /\
                  server_handshake rs ck rest (Some (dh_init d)) = Ret (resp, Ok server, rest)) /\
    (forall rest, continue_handshake d (resp ++ rest) = Ret (Ok client, rest)) /\
    paired client server /\ nc_version client = version /\
    nc_peer client = x25519_basepoint ck /\ nc_peer server = x25519_basepoint mk.
Proof.
  intros Hv Hmk Hck Hrc Hrs. destruct (clamp_ok rc Hrc) as [eph Heph].
  destruct (initiation_spec version mk ck eph Hmk) as (s & ct & tag & s1 & k1 & s2 & s3 & k3 & B & Hct & Htag & E1 & D1 & E2 & D2).
  remember (_ ++ x25519_basepoint eph ++ ct ++ tag) as init eqn:Ei in B.
  destruct (server_payload_spec version mk ck eph rs s ct tag s1 k1 s2 s3 k3 init Hv Hck Hrs Hct Htag Ei E1 D1 E2 D2)
    as (e & s5 & ke & s6 & k6 & s7 & rtag & He & E5 & E6 & Hl & D7 & P).
  assert (length init = INITIATION_MSG_LEN) as Hinit.
  { rewrite Ei, !length_app, !length_to_be_bytes, x25519_public_length, Hct, Htag. reflexivity. }
  assert (idx init 2 = Ret MSG_TYPE_INITIATION) as Hkind by (rewrite Ei; reflexivity).
  assert (slice init 3 5 = Ret (to_be_bytes 2 (Z.of_nat INITIATION_PAYLOAD_LEN))) as Hlen.
  { rewrite Ei, (app_assoc (to_be_bytes 2 version)), <- !(app_assoc (to_be_bytes 2 version ++ [MSG_TYPE_INITIATION])).
    rewrite slice_at by reflexivity. reflexivity. }
  clear Ei. unfold client_deferred. rewrite Heph. cbn [mbind run_bind]. rewrite B. cbn [mbind run_bind fst snd].
  eexists _, _, _, _. split; [reflexivity|]. cbn [dh_init].
  split; [|split; [intros rest; exact (finish_spec version mk (x25519_basepoint ck) eph init s e s5 ke s6 k6 s7 rtag rest E5 E6 Hl D7)|]].
  - intros rest. rewrite server_handshake_stream by exact Hinit.
    split; exact (server_handshake_header rs ck init rest _ _ Hinit Hkind Hlen P).
  - split; [|by split_and!]. unfold paired. split; [reflexivity|]. split; [reflexivity|]. split; [reflexivity|]. split; [reflexivity|].
    eexists _, _. rewrite !cipher_new_at. split; reflexivity.
Qed.
(** The initiation that the secrets shared by the control key [ck] with the
    ephemeral key [e] and the machine key [peer] make: what a client that holds the
    private halves sends, computed from the other side. *)
Definition expected_initiation (ck : list Z) (version : Z) (e peer : list Z) : option (list Z) :=
  let s := ss_mix_hash (ss_mix_hash (ss_mix_hash ss_new (protocol_version_prologue version)) (x25519_basepoint ck)) e in
  let '(s, es_key) := mix_dh s ck e in
  ct ← aead_encrypt es_key ZERO_NONCE (ss_h s) peer;
  let '(s, ss_key) := mix_dh (ss_mix_hash s ct) ck peer in
  tag ← aead_encrypt ss_key ZERO_NONCE (ss_h s) [];
  Some (to_be_bytes 2 version ++ [MSG_TYPE_INITIATION] ++ to_be_bytes 2 (Z.of_nat INITIATION_PAYLOAD_LEN) ++ e ++ ct ++ tag).

Lemma decrypt_and_hash_inv s key ct s' pt : decrypt_and_hash s key ct = Ok (s', pt) ->
  s' = ss_mix_hash s ct /\ aead_encrypt key ZERO_NONCE (ss_h s) pt = Some ct /\ length ct = (length pt + 16)%nat.
Proof.
  unfold decrypt_and_hash. destruct (aead_decrypt _ _ _ ct) as [m|] eqn:E; [|done]. cbn. intros [= <- <-].
  split; [done|]. split; [by apply aead_canonical|by eapply aead_decrypt_length].
Qed.

Lemma exactly_inv n b v : exactly n b = Ret v -> v = b /\ length b = n.
Proof. unfold exactly. destruct (Nat.eqb_spec (length b) n); [|done]. by intros [= <-]. Qed.

Lemma server_payload_inv rs ck init out conn : length init = INITIATION_MSG_LEN -> is_zero ck = false ->
  server_payload rs ck init = Ret (out, Ok conn) ->
  nc_version conn = from_be_bytes (take 2 init) /\
  exists e ct s1 k1 s3 k3 tag, drop 5 init = e ++ ct ++ tag /\ length e = 32%nat /\ length (nc_peer conn) = 32%nat /\
    mix_dh (ss_mix_hash (ss_mix_hash (ss_mix_hash ss_new (protocol_version_prologue (nc_version conn))) (x25519_basepoint ck)) e) ck e = (s1, k1) /\
    aead_encrypt k1 ZERO_NONCE (ss_h s1) (nc_peer conn) = Some ct /\
    mix_dh (ss_mix_hash s1 ct) ck (nc_peer conn) = (s3, k3) /\ aead_encrypt k3 ZERO_NONCE (ss_h s3) [] = Some tag.
Proof.
  intros Hl Hck. unfold server_payload. rewrite key_public_ok by done. cbn [mbind run_bind].
  change INITIATION_MSG_LEN with 101%nat in Hl.
  rewrite (slice_ok init INITIATION_HEADER_LEN), (slice_ok init (INITIATION_HEADER_LEN + 32)), slice_from_ok by (rewrite Hl; unfold INITIATION_HEADER_LEN; lia).
  cbn [mbind run_bind].
  change (INITIATION_HEADER_LEN + 32 - INITIATION_HEADER_LEN)%nat with 32%nat.
  change (INITIATION_HEADER_LEN + 32 + 48 - (INITIATION_HEADER_LEN + 32))%nat with 48%nat.
  change (INITIATION_HEADER_LEN + 32 + 48)%nat with 85%nat. change (INITIATION_HEADER_LEN + 32)%nat with 37%nat.
  change INITIATION_HEADER_LEN with 5%nat. set (e := take 32 (drop 5 init)). set (ct := take 48 (drop 37 init)). set (tag := drop 85 init).
  destruct (mix_dh _ ck e) as [s1 k1] eqn:E1. destruct (decrypt_and_hash s1 k1 ct) as [[s2 peer]|] eqn:D1; [|done].
  destruct (exactly 32 peer) as [pk|] eqn:Ep; [|done]. apply exactly_inv in Ep as [-> Hp]. cbn [mbind run_bind].
  destruct (mix_dh s2 ck peer) as [s3 k3] eqn:E3. destruct (decrypt_and_hash s3 k3 tag) as [[s4 pt]|] eqn:D3; [|done].
  apply decrypt_and_hash_inv in D1 as (-> & A1 & _). apply decrypt_and_hash_inv in D3 as (-> & A3 & Ht).
  assert (pt = []) as ->. { unfold tag in Ht. rewrite length_drop, Hl in Ht. destruct pt; [done|]. cbn in Ht. lia. }
  destruct (clamp25519 rs) as [ce|]; [|done]. cbn [mbind run_bind]. destruct (exactly 32 (x25519_basepoint ce)) as [cep|]; [|done].
  cbn [mbind run_bind]. destruct (mix_dh _ ce e) as [s5 ?]. destruct (mix_dh s5 ce peer) as [s6 k6].
  destruct (encrypt_and_hash s6 k6 []) as [[s7 rtag]|]; [|done]. cbn [mbind run_bind fst snd].
  destruct (exactly 16 rtag); [|done]. cbn [mbind run_bind]. unfold ss_split. destruct (split_keys _) as [c1 c2]. intros [= <- <-].
  cbn [nc_version nc_peer]. split; [done|]. exists e, ct, s1, k1, s3, k3, tag. split_and!; try done.
  - unfold e, ct, tag. rewrite <- (take_drop 32 (drop 5 init)) at 1. f_equal. rewrite drop_drop.
    rewrite <- (take_drop 48 (drop (5 + 32) init)) at 1. f_equal. by rewrite drop_drop.
  - unfold e. rewrite length_take, length_drop, Hl. done.
Qed.

(** The bytes that one end's write pump produced, or the first part of them, at
    the other end's read pump. *)
Definition delivers (from to : NoiseConn) : Prop := forall ps bs,
  Forall piece ps -> Z.of_nat (length ps) <= INVALID_NONCE -> bs `prefix_of` write_pump (nc_tx from) ps ->
  exists j, read_pump (length bs) (nc_rx to) bs = take j ps /\ (j <= length ps)%nat /\
    (length (write_pump (nc_tx from) (take j ps)) <= length bs)%nat /\
    ((j < length ps)%nat -> (length bs < length (write_pump (nc_tx from) (take (S j) ps)))%nat) /\
    (bs = write_pump (nc_tx from) ps -> j = length ps).
(** One message through [write_record]. *)
Definition carries_message (from to : NoiseConn) : Prop := forall pt, Z.of_nat (length pt) <= INVALID_NONCE ->
  exists c bs, write_record (nc_tx from) [] pt = (c, bs, Ok tt) /\ concat (read_pump (length bs) (nc_rx to) bs) = pt.

Lemma delivers_at from to key : nc_tx from = cipher_at key 0 -> nc_rx to = cipher_at key 0 -> delivers from to.
Proof.
  intros Ht Hr ps bs Hps Hn Hpre. rewrite Ht, Hr in *. rewrite write_pump_frames in Hpre by (done || lia).
  destruct (read_pump_prefix key ps 0 bs (length bs) Hps) as (j & E & Hj & Hb & Hmax & Hall); [lia|lia|done|lia|].
  exists j. split; [done|]. split; [done|].
  rewrite !write_pump_frames by (done || rewrite ?length_take; lia || by apply Forall_take). done.
Qed.

Lemma pieces_le (ps : list (list Z)) : Forall piece ps -> (length ps <= length (concat ps))%nat.
Proof. induction 1 as [|p ps Hp _ IH]; cbn; [lia|]. rewrite length_app. unfold piece in Hp. lia. Qed.

Lemma carries_message_at from to key : nc_tx from = cipher_at key 0 -> nc_rx to = cipher_at key 0 -> carries_message from to.
Proof.
  intros Ht Hr pt Hn. rewrite Ht, Hr. destruct (write_loop_frames key (length pt) 0 [] pt) as (ps & E & Hps & Hw); [lia|].
  pose proof (pieces_le ps Hps) as Hl. rewrite E in Hl. eexists _, _. split; [apply Hw; lia|]. cbn [app].
  destruct (read_pump_prefix key ps 0 (concat (frames key 0 ps)) (length (concat (frames key 0 ps))) Hps) as (j & -> & _ & _ & _ & Hall);
    [lia|lia|done|lia|]. by rewrite Hall, firstn_all.
Qed.

(** C8. The control connection from end to end.  A client that starts a handshake
    with a control key's public half and the holder of that key who answers it end
    with each other's public keys and the same version, handshake hash and pair of
    keys, whether the initiation came with the HTTP request or in the stream, and
    take nothing more from the stream than the handshake.  Afterwards, in both
    directions, the receiver gets from any initial part of the bytes sent exactly
    the pieces whose records arrived whole, in order, and all of them from all of
    the bytes; and a message of any length passed to [write_record] arrives. *)
Theorem noise_session version mk ck rc rs :
  is_u16 version -> is_zero mk = false -> is_zero ck = false -> length rc = 32%nat -> length rs = 32%nat ->
  exists d resp client server,
    client_deferred rc mk (x25519_basepoint ck) version = Ret d /\
    (forall rest, server_handshake rs ck (dh_init d ++ rest) None = Ret (resp, Ok server, rest) /\
                  server_handshake rs ck rest (Some (dh_init d)) = Ret (resp, Ok server, rest)) /\
    (forall rest, continue_handshake d (resp ++ rest) = Ret (Ok client, rest)) /\
    nc_version client = version /\ nc_version server = version /\
    nc_handshake_hash client = nc_handshake_hash server /\
    nc_peer client = x25519_basepoint ck /\ nc_peer server = x25519_basepoint mk /\
    delivers client server /\ delivers server client /\ carries_message client server /\ carries_message server client.
Proof.
  intros Hv Hmk Hck Hrc Hrs.
  destruct (handshake_pairs version mk ck rc rs Hv Hmk Hck Hrc Hrs)
    as (d & resp & client & server & Ed & Hs & Hc & (Htx & Hrx & Hh & Hver & c1 & c2 & H1 & H2) & Hvc & Hpc & Hps).
  exists d, resp, client, server. split_and!; try done; try congruence.
  - apply (delivers_at _ _ c1); congruence.
  - apply (delivers_at _ _ c2); congruence.
  - apply (carries_message_at _ _ c1); congruence.
  - apply (carries_message_at _ _ c2); congruence.
Qed.

(** C17. Nothing is delivered that was not sealed for its place.  Whatever bytes a
    receiver gets, they begin with records that are the encryption of the
    plaintexts it delivers, the [i]th under the [i]th nonce; no nonce is used for
    two of them, and a connection is over before its nonces are. *)
Theorem noise_delivers_sealed key bs fuel : wf_bytes bs ->
  let ps := read_pump fuel (cipher_new key) bs in
  (exists cts rest, bs = concat (map record_frame cts) ++ rest /\ length cts = length ps /\
    forall i p, ps !! i = Some p -> exists ct, cts !! i = Some ct /\ aead_encrypt key (nonce_at (Z.of_nat i)) [] p = Some ct) /\
  Z.of_nat (length ps) < 2 ^ 64 /\
  forall i j, (i < length ps)%nat -> (j < length ps)%nat -> nonce_at (Z.of_nat i) = nonce_at (Z.of_nat j) -> i = j.
Proof.
  intros Hw. rewrite cipher_new_at. destruct (read_pump_sealed key fuel 0 bs) as (Hm & H); [done|done|].
  unfold INVALID_NONCE in Hm. split; [exact H|]. split; [lia|]. intros i j Hi Hj E. apply nonce_at_inj in E; lia.
Qed.

Lemma slice_inv {A} (b v : list A) i j : slice b i j = Ret v -> (i <= j <= length b)%nat /\ v = take (j - i) (drop i b).
Proof. unfold slice. destruct (decide _); [|done]. by intros [= <-]. Qed.

Lemma initiation_header init version : wf_bytes init -> length init = INITIATION_MSG_LEN ->
  from_be_bytes (take 2 init) = version -> idx init 2 = Ret MSG_TYPE_INITIATION ->
  from_be_bytes (take 2 (drop 3 init)) = Z.of_nat INITIATION_PAYLOAD_LEN ->
  init = to_be_bytes 2 version ++ [MSG_TYPE_INITIATION] ++ to_be_bytes 2 (Z.of_nat INITIATION_PAYLOAD_LEN) ++ drop 5 init.
Proof.
  intros Hw Hl <- Hk <-. destruct init as [|a [|b [|k [|c [|d init]]]]]; try discriminate Hl. injection Hk as ->. cbn [take drop].
  pose proof (to_from_be_bytes [a; b] (wf_bytes_take 2 _ Hw)) as E1.
  pose proof (to_from_be_bytes [c; d] (wf_bytes_take 2 _ (wf_bytes_drop 3 _ Hw))) as E2. cbn [length] in E1, E2.
  by rewrite take_0, E1, E2.
Qed.

(** C18. The server knows whom it talks to.  An initiation that it accepts as coming
    from a machine key is, byte for byte, the one that the secrets it shares with
    that key and with an ephemeral key determine, for the version it goes on with. *)
Theorem noise_server_authenticates rs ck init rest out conn rest' :
  wf_bytes init -> is_zero ck = false ->
  server_handshake rs ck rest (Some init) = Ret (out, Ok conn, rest') ->
  exists e, length e = 32%nat /\ length (nc_peer conn) = 32%nat /\
    expected_initiation ck (nc_version conn) e (nc_peer conn) = Some init.
Proof.
  intros Hw Hck. unfold server_handshake. destruct (Nat.eqb_spec (length init) INITIATION_MSG_LEN) as [Hl|]; [|done]. cbn [negb].
  destruct (idx init 2) as [kind|] eqn:Ek; [|done]. cbn [mbind run_bind].
  destruct (Z.eqb_spec kind MSG_TYPE_INITIATION) as [->|]; [|done]. cbn [negb].
  destruct (slice init 3 5) as [dl|] eqn:Es; [|done]. apply slice_inv in Es as [_ ->]. cbn [mbind run_bind].
  destruct (Z.eqb_spec (from_be_bytes (take (5 - 3) (drop 3 init))) (Z.of_nat INITIATION_PAYLOAD_LEN)) as [Hp|]; [|done]. cbn [negb].
  destruct (server_payload rs ck init) as [[o r]|] eqn:P; [|done]. cbn [mbind run_bind fst snd]. intros [= <- -> <-].
  destruct (server_payload_inv rs ck init o conn Hl Hck P) as (Hv & e & ct & s1 & k1 & s3 & k3 & tag & Ed & He & Hpe & E1 & A1 & E3 & A3).
  exists e. split; [done|]. split; [done|]. unfold expected_initiation. rewrite E1. cbn [mbind option_bind]. rewrite A1. cbn [mbind option_bind].
  rewrite E3. rewrite A3. cbn [mbind option_bind]. rewrite <- Ed. f_equal. symmetry. by apply initiation_header.
Qed.

(** The client reads a whole response of 51 bytes before it looks at the type, so
    of an error message only a text of 48 bytes is reported. *)
Lemma error_message_lost d msg :
  wf_bytes msg -> Z.of_nat (length msg) < 2 ^ 16 -> length msg <> 48%nat ->
  exists rest, continue_handshake d (send_error msg) =
    Ret (Err (if (length msg <? 48)%nat then NoiseIo else ServerError (str_bytes "(truncated error)")), rest).
Proof.
  intros Hw Hl Hn. unfold continue_handshake, send_error. rewrite (proj2 (Z.leb_gt _ _)) by done.
  set (m := [MSG_TYPE_ERROR] ++ to_be_bytes 2 (Z.of_nat (length msg)) ++ msg).
  assert (length m = 3 + length msg)%nat as Hm by done.
  destruct (Nat.ltb_spec (length msg) 48) as [Hs|Hs]; unfold take_exact; change RESPONSE_MSG_LEN with 51%nat.
  { rewrite (proj2 (Nat.ltb_lt _ _)) by lia. by eexists. }
  rewrite (proj2 (Nat.ltb_ge _ _)) by lia. unfold finish_from_response_bytes.
  change (idx (take 51 m) 0) with (Ret MSG_TYPE_ERROR : run Z). cbn [mbind run_bind negb]. 
  rewrite slice_ok by (rewrite length_take; lia). cbn [mbind run_bind].
  change (take (3 - 1) (drop 1 (take 51 m))) with (to_be_bytes 2 (Z.of_nat (length msg))).
  rewrite frame_header by done. rewrite (proj2 (Nat.ltb_lt _ _)) by (rewrite length_take; unfold HEADER_LEN; lia).
  eexists. reflexivity.
Qed.

Lemma server_payload_err rs ck init out e : server_payload rs ck init = Ret (out, Err e) -> out = [].
Proof.
  unfold server_payload. destruct (key_public ck) as [cp|]; [|discriminate 1]. cbn [mbind run_bind].
  destruct (slice init INITIATION_HEADER_LEN (INITIATION_HEADER_LEN + 32)) as [me|]; [|discriminate 1]. cbn [mbind run_bind]. destruct (mix_dh _ ck me) as [s1 k1].
  destruct (slice init _ _) as [ct|]; [|discriminate 1]. cbn [mbind run_bind].
  destruct (decrypt_and_hash s1 k1 ct) as [[s2 peer]|]; [|by intros [= <- _]].
  destruct (exactly 32 peer) as [pk|]; [|discriminate 1]. cbn [mbind run_bind]. destruct (mix_dh s2 ck pk) as [s3 k3].
  destruct (slice_from init _) as [tag|]; [|discriminate 1]. cbn [mbind run_bind].
  destruct (decrypt_and_hash s3 k3 tag) as [[s4 pt]|]; [|by intros [= <- _]].
  destruct (clamp25519 rs) as [ce|]; [|discriminate 1]. cbn [mbind run_bind].
  destruct (exactly 32 _) as [cep|]; [|discriminate 1]. cbn [mbind run_bind].
  destruct (mix_dh _ ce me) as [s5 ?]. destruct (mix_dh s5 ce pk) as [s6 k6].
  destruct (encrypt_and_hash s6 k6 []) as [[s7 rtag]|]; [|discriminate 1]. cbn [mbind run_bind fst snd].
  destruct (exactly 16 rtag) as [t|]; [|discriminate 1]. cbn [mbind run_bind]. unfold ss_split. destruct (split_keys _). discriminate 1.
Qed.

(** C39. A refusal never reaches the client.  The server answers a bad initiation
    with an error message, but the client waits for a whole response before it looks
    at the type, and each of those messages is shorter: what it reports is an I/O
    error, never the server's reason. *)
Theorem noise_error_lost rs ck stream init out e stream' d :
  server_handshake rs ck stream init = Ret (out, Err e, stream') ->
  exists rest, continue_handshake d out = Ret (Err NoiseIo, rest).
Proof.
  intros H. assert (length out < RESPONSE_MSG_LEN)%nat as Hl.
  { unfold server_handshake in H. destruct (match init with Some _ => _ | None => _ end) as [[i st]|[o e']] eqn:Ei.
    - destruct (idx i 2); [|done]. cbn [mbind run_bind] in H. destruct (negb _); [injection H as <- _ _; apply Nat.ltb_lt; reflexivity|].
      destruct (slice i 3 5); [|done]. cbn [mbind run_bind] in H. destruct (negb _); [injection H as <- _ _; apply Nat.ltb_lt; reflexivity|].
      destruct (server_payload rs ck i) as [[o r]|] eqn:P; [|done]. cbn in H. injection H as -> -> _.
      apply server_payload_err in P as ->. apply Nat.ltb_lt; reflexivity.
    - injection H as <- _ _. destruct init as [p|]; [destruct (negb _); [injection Ei as <- _; apply Nat.ltb_lt; reflexivity|done]|].
      destruct (take_exact _ _); [done|]. injection Ei as <- _. apply Nat.ltb_lt; reflexivity. }
  unfold continue_handshake, take_exact. rewrite (proj2 (Nat.ltb_lt _ _)) by done. by eexists.
Qed.
End handshake.

(** ** Witnesses *)

Module Demo.
#[local] Existing Instance demo_blake2s256.
#[local] Existing Instance demo_blake2s256_laws.
#[local] Existing Instance demo_chacha.
#[local] Existing Instance demo_chacha_laws.
#[local] Existing Instance demo_x25519.
#[local] Existing Instance demo_keys.
#[local] Existing Instance demo_x25519_laws.

Definition machine : list Z := repeat 7 32.
Definition control : list Z := repeat 9 32.
Definition client_random : list Z := repeat 3 32.
Definition server_random : list Z := repeat 5 32.

Lemma noise_session_witness : exists d resp client server,
  client_deferred client_random machine (x25519_basepoint control) 89 = Ret d /\
  server_handshake server_random control [] (Some (dh_init d)) = Ret (resp, Ok server, []) /\
  continue_handshake d resp = Ret (Ok client, []) /\ nc_peer server = x25519_basepoint machine /\
  delivers client server.
Proof.
  destruct (noise_session 89 machine control client_random server_random) as (d & resp & client & server & H);
    [unfold is_u16; lia|reflexivity..|]. destruct H as (Hd & Hs & Hc & _ & _ & _ & _ & Hp & Hdel & _).
  exists d, resp, client, server. split; [exact Hd|]. split; [exact (proj2 (Hs []))|].
  split; [|split; [exact Hp|exact Hdel]]. specialize (Hc []). rewrite app_nil_r in Hc. exact Hc.
Defined.

Definition two_records : list Z := write_pump (cipher_new machine) [[1; 2; 3]; [4]].
Lemma noise_delivers_sealed_witness :
  read_pump 100 (cipher_new machine) (two_records ++ [4; 0]) = [[1; 2; 3]; [4]] /\
  exists cts rest, two_records ++ [4; 0] = concat (map record_frame cts) ++ rest /\ length cts = 2%nat.
Proof.
  split; [vm_compute; reflexivity|].
  destruct (noise_delivers_sealed machine (two_records ++ [4; 0]) 100) as ((cts & rest & E & Hl & _) & _).
  - apply (bool_decide_unpack _). vm_compute. exact I.
  - exists cts, rest. split; [exact E|]. rewrite Hl. vm_compute. reflexivity.
Defined.

Definition initiation : list Z :=
  match client_deferred client_random machine (x25519_basepoint control) 89 with Ret d => dh_init d | Panic => [] end.
Lemma noise_server_authenticates_witness :
  exists e out conn, server_handshake server_random control [] (Some initiation) = Ret (out, Ok conn, []) /\
    expected_initiation control (nc_version conn) e (nc_peer conn) = Some initiation.
Proof.
  destruct (server_handshake server_random control [] (Some initiation)) as [[[out [conn|]] rest]|] eqn:E;
    [|vm_compute in E; discriminate E..].
  destruct (noise_server_authenticates server_random control initiation [] out conn rest) as (e & _ & _ & He).
  - apply (bool_decide_unpack _). vm_compute. exact I.
  - reflexivity.
  - exact E.
  - exists e, out, conn. split; [|exact He]. rewrite <- E in *. vm_compute in E. injection E as <- <- <-. reflexivity.
Defined.

Definition deferred : DeferredHandshake :=
  {| dh_init := initiation; dh_ephemeral := client_random; dh_state := ss_new; dh_machine_key := machine;
     dh_control_key := control; dh_version := 89 |}.
Lemma noise_error_lost_witness :
  exists rest, continue_handshake deferred (send_error (str_bytes "wrong handshake initiation size")) = Ret (Err NoiseIo, rest).
Proof.
  apply (noise_error_lost server_random control [] (Some [1; 2; 3]) _ (Handshake "wrong handshake initiation size") []). reflexivity.
Defined.
End Demo.
