(* ===== verification/Cbor.v ===== *)
(** * CBOR values: the low-level half of [tka/src/aum.rs]

    [Value] is [ciborium::Value].  The encoder and decoder of the [ciborium]
    crate are parameters ([Ciborium]); [CiboriumLaws] states that on the values
    the crate builds the encoder writes the preferred serialization of RFC 8949
    and the decoder reads it back.  What the crate does itself is modelled: the
    scan of untrusted bytes before the allocating decoder sees them, the bound on
    nesting, the typed accessors and the canonical order of map keys.

    Recursion depth is a count-down: [k] stands for [MAX_NESTING + 1 - depth], so
    [k = 0] is the code's [depth > MAX_NESTING].  [usize] has 64 bits. *)

From Stdlib Require Import Sorted.
From S2P Require Import Prelude Bytes Order Utf8.

Definition MAX_NESTING : nat := 16.
Definition MAX_CBOR_BYTES : Z := 1024 * 1024.
Definition MAX_ARRAY_ELEMENTS : Z := 4096.
Definition MAX_MAP_PAIRS : Z := 1024.

(** A [String] is its UTF-8 bytes, a [Float] its bits. *)
Unset Elimination Schemes.
Inductive Value : Type :=
| Integer (n : Z)
| Bytes (b : list Z)
| Float (bits : Z)
| Text (s : list Z)
| Bool (b : bool)
| Null
| Tag (t : Z) (v : Value)
| Array (a : list Value)
| Map (m : list (Value * Value)).
Set Elimination Schemes.

Inductive DecodeError : Type :=
| Cbor (msg : string)
| InputTooLarge (n : nat)
| TooManyArrayElements (n : Z)
| TooManyMapPairs (n : Z)
| NotAMap
| NotAnArray
| NotBytes
| NotText
| NotUint
| DuplicateKey
| MissingField (n : Z)
| NestingTooDeep (n : nat)
| InvalidAumKind (n : Z)
| InvalidSigKind (n : Z)
| InvalidKeyKind (n : Z)
| TypeMismatch (n : Z).

(** ** The [ciborium] crate *)

Class Ciborium : Type := {
  into_writer : Value -> list Z;
  from_reader : list Z -> result string Value;
  canonical_cmp : Z -> Z -> comparison }.

(** RFC 8949: the head of an item of the given major type, with the shortest
    form of its argument, and the item itself. *)
Definition item_head (major arg : Z) : list Z :=
  if arg <? 24 then [major * 32 + arg]
  else if arg <? 256 then (major * 32 + 24) :: to_be_bytes 1 arg
  else if arg <? 65536 then (major * 32 + 25) :: to_be_bytes 2 arg
  else if arg <? 2 ^ 32 then (major * 32 + 26) :: to_be_bytes 4 arg
  else (major * 32 + 27) :: to_be_bytes 8 arg.
Definition zlen {A} (l : list A) : Z := Z.of_nat (length l).

Fixpoint rfc8949 (v : Value) : list Z :=
  match v with
  | Integer n => if 0 <=? n then item_head 0 n else item_head 1 (-1 - n)
  | Bytes b => item_head 2 (zlen b) ++ b
  | Text s => item_head 3 (zlen s) ++ s
  | Array a => item_head 4 (zlen a) ++ concat (map rfc8949 a)
  | Map m => item_head 5 (zlen m) ++ concat (map (fun e => rfc8949 e.1 ++ rfc8949 e.2) m)
  | Tag t v => item_head 6 t ++ rfc8949 v
  | Bool b => [if b then 0xf5 else 0xf4]
  | Null => [0xf6]
  | Float bits => 0xfb :: to_be_bytes 8 bits
  end.

(** Values without tags and floats that nest less than [k] deep, with
    containers, integers, bytes and text within bounds. *)
Fixpoint fits (k : nat) (v : Value) : bool :=
  match k with
  | O => false
  | S k =>
      match v with
      | Integer n => (- 2 ^ 64 <=? n) && (n <? 2 ^ 64)
      | Bytes b => bool_decide (wf_bytes b) && (zlen b <? 2 ^ 64)
      | Text s => bool_decide (wf_bytes s) && is_utf8 s && (zlen s <? 2 ^ 64)
      | Bool _ | Null => true
      | Array a => (zlen a <=? MAX_ARRAY_ELEMENTS) && forallb (fits k) a
      | Map m => (zlen m <=? MAX_MAP_PAIRS) && forallb (fun e => fits k e.1 && fits k e.2) m
      | Tag _ _ | Float _ => false
      end
  end.

Class CiboriumLaws `{Ciborium} : Prop := {
  into_writer_rfc8949 : forall v, fits (S MAX_NESTING) v = true -> into_writer v = rfc8949 v;
  from_reader_rfc8949 : forall v, fits (S MAX_NESTING) v = true -> from_reader (rfc8949 v) = Ok v;
  canonical_cmp_small : forall a b, 0 <= a < 24 -> 0 <= b < 24 -> canonical_cmp a b = (a ?= b) }.

(** ** Scanning untrusted bytes *)

(** [read_fixed::<N>], as the number its bytes spell. *)
Definition read_fixed (n : nat) (data : list Z) (start : nat) : result DecodeError Z :=
  if (start + n <=? length data)%nat then Ok (from_be_bytes (field data start n))
  else Err (Cbor "truncated argument").

(** The argument of the item head at [start], and the cursor after it. *)
Definition scan_argument (data : list Z) (start : nat) (additional : Z) : result DecodeError (Z * nat) :=
  if additional <=? 23 then Ok (additional, start + 1)%nat
  else if additional =? 24 then n ← read_fixed 1 data (start + 1); Ok (n, start + 2)%nat
  else if additional =? 25 then n ← read_fixed 2 data (start + 1); Ok (n, start + 3)%nat
  else if additional =? 26 then n ← read_fixed 4 data (start + 1); Ok (n, start + 5)%nat
  else if additional =? 27 then n ← read_fixed 8 data (start + 1); Ok (n, start + 9)%nat
  else if additional =? 31 then Err (Cbor "indefinite-length CBOR is forbidden")
  else Err (Cbor "invalid additional information").

(** [for _ in 0..n { cursor = f(cursor)?; }] *)
Fixpoint scan_n (f : nat -> result DecodeError nat) (n : nat) (cursor : nat) : result DecodeError nat :=
  match n with
  | O => Ok cursor
  | S n => c ← f cursor; scan_n f n c
  end.

(** What follows the head, given how to scan a nested item. *)
Definition scan_body (item : nat -> result DecodeError nat) (data : list Z) (major argument : Z) (cursor : nat)
  : result DecodeError nat :=
  if (major =? 0) || (major =? 1) || (major =? 7) then Ok cursor
  else if (major =? 2) || (major =? 3) then
    if Z.of_nat cursor + argument <=? zlen data then Ok (cursor + Z.to_nat argument)%nat
    else Err (Cbor "declared string exceeds input")
  else if major =? 4 then
    if argument >? MAX_ARRAY_ELEMENTS then Err (TooManyArrayElements MAX_ARRAY_ELEMENTS)
    else scan_n item (Z.to_nat argument) cursor
  else if major =? 5 then
    if argument >? MAX_MAP_PAIRS then Err (TooManyMapPairs MAX_MAP_PAIRS)
    else scan_n (fun c => c ← item c; item c) (Z.to_nat argument) cursor
  else if major =? 6 then Err (Cbor "CBOR tags are forbidden")
  else Err (Cbor "invalid CBOR major type").

Fixpoint scan_cbor_item (k : nat) (data : list Z) (start : nat) : result DecodeError nat :=
  match k with
  | O => Err (NestingTooDeep MAX_NESTING)
  | S k =>
      initial ← ok_or (data !! start) (Cbor "truncated item");
      ac ← scan_argument data start (Z.land initial 0x1f);
      scan_body (scan_cbor_item k data) data (Z.shiftr initial 5) ac.1 ac.2
  end.

Fixpoint check_nesting (k : nat) (v : Value) : result DecodeError unit :=
  match k with
  | O => Err (NestingTooDeep MAX_NESTING)
  | S k =>
      match v with
      | Map m => try_fold (fun _ e => _ ← check_nesting k e.1; check_nesting k e.2) m tt
      | Array a => try_fold (fun _ item => check_nesting k item) a tt
      | _ => Ok tt
      end
  end.

(** ** Typed accessors *)

Definition expect_map (v : Value) : result DecodeError (list (Value * Value)) :=
  match v with Map m => Ok m | _ => Err NotAMap end.
Definition expect_array (v : Value) : result DecodeError (list Value) :=
  match v with Array a => Ok a | _ => Err NotAnArray end.
Definition expect_bytes (v : Value) : result DecodeError (list Z) :=
  match v with Bytes b => Ok b | _ => Err NotBytes end.
Definition expect_text (v : Value) : result DecodeError (list Z) :=
  match v with Text s => Ok s | _ => Err NotText end.
Definition expect_uint (v : Value) : result DecodeError Z :=
  match v with
  | Integer n => if (0 <=? n) && (n <? 2 ^ 64) then Ok n else Err NotUint
  | _ => Err NotUint
  end.
Definition expect_key (v : Value) : result DecodeError Z := expect_uint v.
Definition set_unique {T} (slot : option T) (val : T) : result DecodeError (option T) :=
  match slot with Some _ => Err DuplicateKey | None => Ok (Some val) end.

(** [a.len().cmp(&b.len()).then_with(|| a.cmp(b))] *)
Definition len_first_cmp (a b : list Z) : comparison := then_with (zlen a ?= zlen b) (bytes_cmp a b).

Section codec.
Context `{Ciborium}.

Definition encode_value (v : Value) : list Z := into_writer v.

Definition decode_value (data : list Z) : result DecodeError Value :=
  if zlen data >? MAX_CBOR_BYTES then Err (InputTooLarge (length data))
  else
    consumed ← scan_cbor_item (S MAX_NESTING) data 0;
    if negb (consumed =? length data)%nat then Err (Cbor "trailing data")
    else
      val ← map_err Cbor (from_reader data);
      _ ← check_nesting (S MAX_NESTING) val;
      Ok val.

Definition canonical_key_cmp (a b : Value) : comparison :=
  match a, b with
  | Integer a, Integer b => canonical_cmp a b
  | Bytes a, Bytes b => len_first_cmp a b
  | Text a, Text b => len_first_cmp a b
  | Integer _, _ => Lt
  | _, Integer _ => Gt
  | Bytes _, _ => Lt
  | _, Bytes _ => Gt
  | Text _, _ => Lt
  | _, Text _ => Gt
  | _, _ => Eq
  end.

(** [map.sort_by(|a, b| canonical_key_cmp(&a.0, &b.0))], also the macro
    [canonical_map!]. *)
Definition canonical_map (m : list (Value * Value)) : list (Value * Value) :=
  sort_by (fun a b => canonical_key_cmp a.1 b.1) m.

End codec.

(** ** Properties of the scan *)

Lemma head_length_pos major arg : (0 < length (item_head major arg))%nat.
Proof. unfold item_head. repeat case_match; cbn [length]; lia. Qed.

Lemma shiftr_head major x : 0 <= x < 32 -> Z.shiftr (major * 32 + x) 5 = major.
Proof.
  intros Hx. rewrite Z.shiftr_div_pow2 by lia. change (2 ^ 5) with 32.
  rewrite Z.add_comm, Z.div_add by lia. rewrite Z.div_small by lia. lia.
Qed.

Lemma land_head major x : 0 <= x < 32 -> Z.land (major * 32 + x) 0x1f = x.
Proof.
  intros Hx. change 0x1f with (Z.ones 5). rewrite Z.land_ones by lia. change (2 ^ 5) with 32.
  rewrite Z.add_comm, Z.mod_add by lia. by apply Z.mod_small.
Qed.

Lemma read_fixed_app n pre x b post z :
  0 <= z < 256 ^ Z.of_nat n -> b = to_be_bytes n z ->
  read_fixed n (pre ++ (x :: b) ++ post) (length pre + 1) = Ok z.
Proof.
  intros Hz ->. unfold read_fixed. rewrite (proj2 (Nat.leb_le _ _)).
  2: { rewrite !length_app. cbn [length]. rewrite length_to_be_bytes. lia. }
  f_equal. rewrite (field_skip pre _ _ _ (length pre)) by lia. replace (length pre + 1 - length pre)%nat with 1%nat by lia.
  change ((x :: to_be_bytes n z) ++ post) with ([x] ++ to_be_bytes n z ++ post).
  rewrite (field_skip [x] _ _ _ 1), field_here by (done || apply length_to_be_bytes).
  by apply from_to_be_bytes_small.
Qed.

(** The head of an item reads back: its initial byte gives the major type and
    the argument parser the argument and the position after the head. *)
Lemma scan_head major arg pre post :
  0 <= arg < 2 ^ 64 ->
  let data := pre ++ item_head major arg ++ post in
  exists initial, data !! length pre = Some initial /\ Z.shiftr initial 5 = major /\
    scan_argument data (length pre) (Z.land initial 0x1f) = Ok (arg, length pre + length (item_head major arg))%nat.
Proof.
  intros Ha. cbv zeta. assert (forall x l, (pre ++ (x :: l) ++ post) !! length pre = Some x) as Hi.
  { intros x l. rewrite lookup_app_r, Nat.sub_diag by lia. done. }
  unfold item_head. destruct (Z.ltb_spec arg 24).
  { exists (major * 32 + arg). split_and!; [apply Hi|apply shiftr_head; lia|].
    rewrite land_head by lia. unfold scan_argument. rewrite (proj2 (Z.leb_le _ _)) by lia. done. }
  destruct (Z.ltb_spec arg 256); [|destruct (Z.ltb_spec arg 65536); [|destruct (Z.ltb_spec arg (2 ^ 32))]];
    (eexists; split_and!; [apply Hi|apply shiftr_head; lia|]; rewrite land_head by lia; unfold scan_argument;
     cbn [Z.leb Z.eqb Z.compare Pos.compare Pos.compare_cont Pos.eqb];
     rewrite read_fixed_app with (z := arg) by (reflexivity || (cbn; lia));
     cbn [mbind result_bind length]; rewrite length_to_be_bytes; do 2 f_equal; lia).
Qed.

(** A loop over the items of a concatenation stops at its end. *)
Lemma scan_n_concat {A} (f : nat -> result DecodeError nat) (g : A -> list Z) (data : list Z) l : forall pre post,
  data = pre ++ concat (map g l) ++ post ->
  (forall x p q, x ∈ l -> data = p ++ g x ++ q -> f (length p) = Ok (length p + length (g x))%nat) ->
  scan_n f (length l) (length pre) = Ok (length pre + length (concat (map g l)))%nat.
Proof.
  induction l as [|x l IH]; intros pre post Hd Hf; cbn [length scan_n map concat]; [f_equal; lia|].
  cbn [map concat] in Hd. rewrite <- app_assoc in Hd. rewrite (Hf x pre _ ltac:(left) Hd). cbn [mbind result_bind].
  rewrite <- length_app, (IH (pre ++ g x) post).
  - rewrite !length_app. f_equal. lia.
  - by rewrite <- app_assoc.
  - intros y p q Hy. apply Hf. by right.
Qed.

Lemma zlen_Z_to_nat {A} (l : list A) : Z.to_nat (zlen l) = length l.
Proof. apply Nat2Z.id. Qed.

Lemma fits_lengths {A} (l : list A) n : (zlen l <=? n) = true -> n < 2 ^ 64 -> 0 <= zlen l < 2 ^ 64 /\ (zlen l >? n) = false.
Proof. unfold zlen. intros H%Z.leb_le Hn. rewrite Z.gtb_ltb, Z.ltb_ge. lia. Qed.

Lemma scan_item_head k major arg pre post data :
  data = pre ++ item_head major arg ++ post -> 0 <= arg < 2 ^ 64 ->
  scan_cbor_item (S k) data (length pre) =
  scan_body (scan_cbor_item k data) data major arg (length (pre ++ item_head major arg)).
Proof.
  intros -> Ha. destruct (scan_head major arg pre post Ha) as (i & Hi & Hm & Hs).
  cbn [scan_cbor_item]. rewrite Hi. cbn [ok_or mbind result_bind]. rewrite Hs. cbn [mbind result_bind fst snd].
  by rewrite Hm, length_app.
Qed.

Lemma scan_string major b (item : nat -> result DecodeError nat) pre h post :
  major = 2 \/ major = 3 ->
  scan_body item (pre ++ (h ++ b) ++ post) major (zlen b) (length (pre ++ h)) = Ok (length pre + length (h ++ b))%nat.
Proof.
  intros Hm. unfold scan_body. assert ((major =? 0) || (major =? 1) || (major =? 7) = false /\
    (major =? 2) || (major =? 3) = true) as [-> ->] by (by destruct Hm as [-> | ->]).
  rewrite (proj2 (Z.leb_le _ _)) by (unfold zlen; rewrite !length_app; lia).
  rewrite zlen_Z_to_nat, !length_app. f_equal. lia.
Qed.

(** The scan accepts the serialization of a value within the bounds, wherever
    it stands, and stops right after it. *)
Lemma scan_rfc8949 k : forall v data pre post, fits k v = true -> data = pre ++ rfc8949 v ++ post ->
  scan_cbor_item k data (length pre) = Ok (length pre + length (rfc8949 v))%nat.
Proof.
  induction k as [|k IH]; intros v data pre post Hf Hd; [done|].
  assert (forall h b, rfc8949 v = h ++ b -> data = (pre ++ h) ++ b ++ post) as Hsplit.
  { intros h b E. by rewrite Hd, E, <- !app_assoc. }
  destruct v as [n|b|bits|s|b| |t v|a|m]; cbn [fits rfc8949] in *; try discriminate Hf; rewrite ?andb_true_iff in Hf.
  - destruct Hf as [H1%Z.leb_le H2%Z.ltb_lt]. destruct (Z.leb_spec 0 n).
    + rewrite (scan_item_head _ _ _ _ _ _ Hd) by lia. cbn. by rewrite length_app.
    + rewrite (scan_item_head _ _ _ _ _ _ Hd) by lia. cbn. by rewrite length_app.
  - destruct Hf as [_ H%Z.ltb_lt]. rewrite (scan_item_head _ 2 (zlen b) pre (b ++ post)); [|by rewrite Hd, <- app_assoc|unfold zlen in *; lia].
    rewrite Hd. apply scan_string. by left.
  - destruct Hf as [_ H%Z.ltb_lt]. rewrite (scan_item_head _ 3 (zlen s) pre (s ++ post)); [|by rewrite Hd, <- app_assoc|unfold zlen in *; lia].
    rewrite Hd. apply scan_string. by right.
  - rewrite (scan_item_head _ 7 (if b then 21 else 20) pre post); [cbn|by destruct b|by destruct b].
    rewrite length_app. by destruct b.
  - rewrite (scan_item_head _ 7 22 pre post); [cbn|done|done]. by rewrite length_app.
  - destruct Hf as [H1 H2]. apply fits_lengths in H1 as [H1 H3]; [|done].
    rewrite (scan_item_head _ 4 (zlen a) pre (concat (map rfc8949 a) ++ post)); [|by rewrite Hd, <- app_assoc|done].
    cbn [scan_body Z.eqb orb Pos.eqb]. unfold scan_body. cbn [Z.eqb orb Pos.eqb]. rewrite H3, zlen_Z_to_nat.
    rewrite (scan_n_concat _ rfc8949 data a _ post); [rewrite !length_app; f_equal; lia|by apply Hsplit|].
    intros x p q Hx. apply IH. rewrite forallb_forall in H2. apply H2. by apply list_elem_of_In.
  - destruct Hf as [H1 H2]. apply fits_lengths in H1 as [H1 H3]; [|done].
    set (g := fun e : Value * Value => rfc8949 e.1 ++ rfc8949 e.2) in *.
    rewrite (scan_item_head _ 5 (zlen m) pre (concat (map g m) ++ post)); [|by rewrite Hd, <- app_assoc|done].
    unfold scan_body. cbn [Z.eqb orb Pos.eqb]. rewrite H3, zlen_Z_to_nat.
    rewrite (scan_n_concat _ g data m _ post); [rewrite !length_app; f_equal; lia|by apply Hsplit|].
    intros x p q Hx E. rewrite forallb_forall in H2. specialize (H2 x ltac:(by apply list_elem_of_In)).
    apply andb_true_iff in H2 as [Hk Hv]. unfold g in E. rewrite <- app_assoc in E. rewrite (IH _ _ _ _ Hk E).
    cbn [mbind result_bind]. rewrite <- length_app. rewrite (IH x.2 data (p ++ rfc8949 x.1) q Hv) by (by rewrite <- app_assoc).
    unfold g. rewrite !length_app. f_equal. lia.
Qed.

Lemma check_nesting_fits k : forall v, fits k v = true -> check_nesting k v = Ok tt.
Proof.
  induction k as [|k IH]; intros v Hf; [done|]. destruct v as [| | | | | |t v|a|m]; try done; cbn [fits check_nesting] in *;
    apply andb_true_iff in Hf as [_ Hf].
  - induction a as [|x a IHa]; [done|]. cbn [forallb try_fold] in *. apply andb_true_iff in Hf as [Hx Hf].
    rewrite IH by done. by apply IHa.
  - induction m as [|x m IHm]; [done|]. cbn [forallb try_fold] in *. rewrite !andb_true_iff in Hf. destruct Hf as [[Hk Hv] Hf].
    rewrite !IH by done. by apply IHm.
Qed.

Section laws.
Context `{CiboriumLaws}.

Lemma decode_encode_value v :
  fits (S MAX_NESTING) v = true -> zlen (encode_value v) <= MAX_CBOR_BYTES -> decode_value (encode_value v) = Ok v.
Proof.
  intros Hf Hl. unfold decode_value, encode_value in *. rewrite (into_writer_rfc8949 v Hf) in *.
  rewrite Z.gtb_ltb, (proj2 (Z.ltb_ge _ _)) by done.
  rewrite (scan_rfc8949 _ v _ [] []) by (done || by rewrite app_nil_r). cbn [length mbind result_bind Nat.add].
  rewrite Nat.eqb_refl. cbn [negb]. rewrite (from_reader_rfc8949 v Hf). cbn [map_err mbind result_bind].
  by rewrite check_nesting_fits.
Qed.

(** Small integer keys in ascending order are already canonical. *)
Lemma canonical_map_sorted (l : list (Z * Value)) :
  StronglySorted (fun a b => a.1 < b.1) l -> Forall (fun e => 0 <= e.1 < 24) l ->
  canonical_map (map (fun e => (Integer e.1, e.2)) l) = map (fun e => (Integer e.1, e.2)) l.
Proof.
  intros Hs Hb. apply sort_by_sorted_id. induction Hs as [|x l Hs IH Hx]; cbn [map]; [constructor|].
  inversion_clear Hb as [|? ? Hx0 Hl]. constructor; [by apply IH|]. clear IH Hs.
  induction Hx as [|y l Hy _ IH]; cbn [map]; constructor.
  - inversion_clear Hl. unfold le_by. cbn. rewrite canonical_cmp_small by done. rewrite Z.compare_gt_iff. cbn in *. lia.
  - inversion_clear Hl. by apply IH.
Qed.
End laws.

(** ** What the scan guarantees of untrusted bytes *)

Lemma scan_argument_bounds data start additional arg cursor :
  wf_bytes data -> 0 <= additional < 32 -> (start < length data)%nat ->
  scan_argument data start additional = Ok (arg, cursor) ->
  0 <= arg < 2 ^ 64 /\ (start < cursor <= length data)%nat.
Proof.
  intros Hw Ha Hs H. unfold scan_argument, read_fixed in H.
  assert (forall n, (start + 1 + n <= length data)%nat -> 0 <= from_be_bytes (field data (start + 1) n) < 256 ^ Z.of_nat n) as Hb.
  { intros n Hn. pose proof (from_be_bytes_bound (field data (start + 1) n)) as B. rewrite length_field in B by done.
    apply B. unfold field. auto with wf. }
  destruct (Z.leb_spec additional 23); [injection H as <- <-; lia|].
  repeat match type of H with
  | (if ?b then _ else _) = _ => destruct b
  | ((if ?b then _ else _) ≫= _) = _ => destruct b eqn:E; [|discriminate H]
  end; try discriminate H; cbn [mbind result_bind] in H; injection H as <- <-; apply Nat.leb_le in E;
    match goal with |- context [field _ _ ?n] => specialize (Hb n E); cbn in Hb end; lia.
Qed.

Lemma scan_n_bounds f n : forall c c' len,
  (forall c c', (c <= len)%nat -> f c = Ok c' -> (c < c' <= len)%nat) ->
  (c <= len)%nat -> scan_n f n c = Ok c' -> (c + n <= c' <= len)%nat.
Proof.
  induction n as [|n IH]; intros c c' len Hf Hc H; cbn in H; [injection H as <-; lia|].
  apply result_bind_inv in H as (c1 & H1 & H). apply Hf in H1; [|done]. apply (IH _ _ len) in H; [lia|done|lia].
Qed.

(** An accepted item ends within the input and takes at least one byte, so the
    containers it declares have no more elements than the input has bytes. *)
Lemma scan_bounds k : forall data start c,
  wf_bytes data -> scan_cbor_item k data start = Ok c -> (start < c <= length data)%nat.
Proof.
  induction k as [|k IH]; intros data start c Hw H; [done|]. cbn [scan_cbor_item] in H.
  apply result_bind_inv in H as (i & Hi%ok_or_inv & H). apply result_bind_inv in H as ([arg cursor] & Ha & H).
  pose proof (lookup_lt_Some _ _ _ Hi) as Hl. apply scan_argument_bounds in Ha as [Hr Hc]; [|done| |done].
  2: { change 0x1f with (Z.ones 5). rewrite Z.land_ones by lia. by apply Z.mod_pos_bound. }
  assert (forall c c', (c <= length data)%nat -> scan_cbor_item k data c = Ok c' -> (c < c' <= length data)%nat) as Hf.
  { intros c1 c2 _. by apply IH. }
  cbn [fst snd] in H. unfold scan_body in H.
  repeat match type of H with
  | (if ?b then _ else _) = _ => destruct b eqn:?
  end; try discriminate H.
  - injection H as <-. lia.
  - injection H as <-. match goal with E : (_ <=? zlen _) = true |- _ => apply Z.leb_le in E; unfold zlen in E end. lia.
  - apply (scan_n_bounds _ _ _ _ (length data)) in H; [lia|done|lia].
  - apply (scan_n_bounds _ _ _ _ (length data)) in H; [lia| |lia]. intros c1 c2 H1 H2.
    apply result_bind_inv in H2 as (c3 & H3 & H2). apply Hf in H3; [|done]. apply Hf in H2; lia.
Qed.
