(* ===== verification/TkaAum.v ===== *)
(** * Authority updates: [tka/src/key.rs], [state.rs] and [aum.rs]

    Keys, authority states and update messages with their CBOR codecs, their
    structural validation, and the effect of an update on a state.  The BLAKE2s
    digest is a parameter.  A [BTreeMap<String, String>] is a finite map whose
    iteration is sorted by key; an [AumHash] is its 32 bytes.  The texts of error
    messages omit interpolated numbers. *)

From S2P Require Import Prelude Bytes Order Utf8 Crypto Cbor.


Abbreviation Meta := (gmap (list Z) (list Z)).

(** [BTreeMap::iter]. *)
Definition btree_iter (m : Meta) : list (list Z * list Z) :=
  sort_by (fun a b => bytes_cmp a.1 b.1) (map_to_list m).

(** A map with integer keys, as the encoders build it. *)
Definition int_pairs (l : list (Z * Value)) : list (Value * Value) := map (fun e => (Integer e.1, e.2)) l.
(** [if let Some(x) = o { map.push((Integer(n), f(x))) }] *)
Definition push_opt {A} (n : Z) (f : A -> Value) (o : option A) : list (Z * Value) :=
  match o with Some x => [(n, f x)] | None => [] end.
Definition null_or_bytes (o : option (list Z)) : Value :=
  match o with Some h => Bytes h | None => Null end.

(** [position] of the first element that satisfies [p]. *)
Fixpoint position {A} (p : A -> bool) (l : list A) : option nat :=
  match l with
  | [] => None
  | x :: l => if p x then Some O else S <$> position p l
  end.

(** ** [key.rs] *)

Inductive KeyKind : Type := KeyInvalid | Key25519.
#[global] Instance KeyKind_eq_dec : EqDecision KeyKind.
Proof. solve_decision. Defined.
Definition key_kind_to_u8 (k : KeyKind) : Z := match k with KeyInvalid => 0 | Key25519 => 1 end.
Definition key_kind_from_u64 (v : Z) : option KeyKind :=
  if v =? 0 then Some KeyInvalid else if v =? 1 then Some Key25519 else None.

Record Key : Type := { k_kind : KeyKind; k_votes : Z; k_public : list Z; k_meta : option Meta }.
#[global] Instance Key_eq_dec : EqDecision Key.
Proof. solve_decision. Defined.

Definition key_id (k : Key) : result string (list Z) :=
  match k_kind k with Key25519 => Ok (k_public k) | KeyInvalid => Err "invalid key kind" end.
(** [key.id().is_ok_and(|id| id == key_id)] *)
Definition has_id (id : list Z) (k : Key) : bool :=
  match key_id k with Ok i => bool_decide (i = id) | Err _ => false end.

Definition meta_bytes (m : Meta) : Z :=
  foldr Z.add 0 (map (fun e => zlen e.1 + zlen e.2) (btree_iter m)).

Definition key_validate (k : Key) : result string unit :=
  if negb (bool_decide (k_kind k = Key25519)) then Err "unrecognized key kind"
  else if negb (length (k_public k) =? 32)%nat then Err "ed25519 public key has wrong length"
  else if (k_votes k =? 0) || (k_votes k >? 4096) then Err "key votes outside 1..=4096"
  else if (match k_meta k with Some m => meta_bytes m | None => 0 end) >? 512 then Err "key metadata too large"
  else Ok tt.

(** [Vec<(String, String)>] entries read into a map without duplicates. *)
Definition meta_from_value (v : Value) : result DecodeError Meta :=
  entries ← expect_map v;
  try_fold (fun (m : Meta) e =>
    mk ← expect_text e.1; mv ← expect_text e.2;
    match m !! mk with Some _ => Err DuplicateKey | None => Ok (<[mk := mv]> m) end) entries ∅.

Record KeySlots : Type := KS {
  ks_kind : option KeyKind; ks_votes : option Z; ks_public : option (list Z); ks_meta : option Meta }.

(** The body of the loop of [Key::from_value]. *)
Definition key_field (s : KeySlots) (e : Value * Value) : result DecodeError KeySlots :=
  n ← expect_key e.1;
  let v := e.2 in
  if n =? 1 then
    x ← expect_uint v; kd ← ok_or (key_kind_from_u64 x) (InvalidKeyKind x);
    r ← set_unique (ks_kind s) kd; Ok (KS r (ks_votes s) (ks_public s) (ks_meta s))
  else if n =? 2 then
    x ← expect_uint v; r ← set_unique (ks_votes s) x; Ok (KS (ks_kind s) r (ks_public s) (ks_meta s))
  else if n =? 3 then
    x ← expect_bytes v; r ← set_unique (ks_public s) x; Ok (KS (ks_kind s) (ks_votes s) r (ks_meta s))
  else if n =? 12 then
    x ← meta_from_value v; r ← set_unique (ks_meta s) x; Ok (KS (ks_kind s) (ks_votes s) (ks_public s) r)
  else Ok s.

Definition key_from_value (v : Value) : result DecodeError Key :=
  m ← expect_map v;
  s ← try_fold key_field m (KS None None None None);
  kd ← ok_or (ks_kind s) (MissingField 1);
  vs ← ok_or (ks_votes s) (MissingField 2);
  pb ← ok_or (ks_public s) (MissingField 3);
  Ok {| k_kind := kd; k_votes := vs; k_public := pb; k_meta := ks_meta s |}.

(** ** [state.rs] and the messages of [aum.rs] *)

Record State : Type := {
  last_aum_hash : option (list Z); disablement_values : list (list Z); keys : list Key;
  state_id1 : Z; state_id2 : Z }.
#[global] Instance State_eq_dec : EqDecision State.
Proof. solve_decision. Defined.

Inductive AumKind : Type := AumInvalid | AddKey | RemoveKey | NoOp | UpdateKey | Checkpoint.
#[global] Instance AumKind_eq_dec : EqDecision AumKind.
Proof. solve_decision. Defined.
Definition aum_kind_to_u8 (k : AumKind) : Z :=
  match k with
  | AumInvalid => 0 | AddKey => 1 | RemoveKey => 2 | NoOp => 3 | UpdateKey => 4 | Checkpoint => 5
  end.
Definition aum_kind_from_u64 (v : Z) : option AumKind :=
  if v =? 0 then Some AumInvalid else if v =? 1 then Some AddKey else if v =? 2 then Some RemoveKey
  else if v =? 3 then Some NoOp else if v =? 4 then Some UpdateKey else if v =? 5 then Some Checkpoint
  else None.

Record Signature : Type := { sg_key_id : list Z; sg_signature : list Z }.
#[global] Instance Signature_eq_dec : EqDecision Signature.
Proof. solve_decision. Defined.

Record Aum : Type := {
  message_kind : AumKind; prev_aum_hash : option (list Z); a_key : option Key; a_key_id : option (list Z);
  a_state : option State; a_votes : option Z; a_meta : option Meta; signatures : list Signature }.
#[global] Instance Aum_eq_dec : EqDecision Aum.
Proof. solve_decision. Defined.

(** [State::key]. *)
Definition state_key (s : State) (id : list Z) : option Key := List.find (has_id id) (keys s).

(** The loop over the disablement values of [validate_checkpoint]. *)
Definition check_disablement_value (seen : list (list Z)) (v : list Z) : result string (list (list Z)) :=
  if negb (length v =? 32)%nat then Err "disablement value has wrong length"
  else if bool_decide (v ∈ seen) then Err "disablement value is duplicated"
  else Ok (seen ++ [v]).
Definition check_key (seen : list Key) (k : Key) : result string (list Key) :=
  _ ← key_validate k;
  id ← key_id k;
  if existsb (has_id id) seen then Err "key is duplicated" else Ok (seen ++ [k]).

Definition validate_checkpoint (s : State) : result string unit :=
  if is_some (last_aum_hash s) then Err "checkpoint state cannot specify a last AUM hash"
  else if bool_decide (disablement_values s = []) || (32 <? length (disablement_values s))%nat
  then Err "checkpoint must contain 1..=32 disablement values"
  else
    _ ← try_fold check_disablement_value (disablement_values s) [];
    if bool_decide (keys s = []) || (512 <? length (keys s))%nat then Err "checkpoint must contain 1..=512 keys"
    else _ ← try_fold check_key (keys s) []; Ok tt.

Definition parent (a : Aum) : option (list Z) :=
  h ← prev_aum_hash a; if (length h =? 32)%nat then Some h else None.

(** [Aum::validate] per message kind. *)
Definition validate_kind (a : Aum) : result string unit :=
  let no_key_id := match a_key_id a with Some id => bool_decide (id = []) | None => true end in
  match message_kind a with
  | AddKey =>
      if negb (is_some (a_key a)) then Err "AddKey AUM must contain a key"
      else if is_some (a_key_id a) || is_some (a_state a) || is_some (a_votes a) || is_some (a_meta a)
      then Err "AddKey AUM may only specify a key" else Ok tt
  | RemoveKey =>
      if no_key_id then Err "RemoveKey AUM must specify a key ID"
      else if is_some (a_key a) || is_some (a_state a) || is_some (a_votes a) || is_some (a_meta a)
      then Err "RemoveKey AUM may only specify a key ID" else Ok tt
  | UpdateKey =>
      if no_key_id then Err "UpdateKey AUM must specify a key ID"
      else if bool_decide (a_meta a = Some ∅) then Err "UpdateKey AUM cannot contain empty metadata"
      else if negb (is_some (a_votes a)) && negb (is_some (a_meta a)) then Err "UpdateKey AUM must update votes or metadata"
      else if is_some (a_key a) || is_some (a_state a)
      then Err "UpdateKey AUM may only specify key ID, votes, and metadata" else Ok tt
  | Checkpoint =>
      if negb (is_some (a_state a)) then Err "Checkpoint AUM must specify state"
      else if is_some (a_key a) || is_some (a_key_id a) || is_some (a_votes a) || is_some (a_meta a)
      then Err "Checkpoint AUM may only specify state" else Ok tt
  | NoOp => Ok tt
  | AumInvalid => Err "invalid AUM kind"
  end.

Definition malformed (s : Signature) : bool :=
  negb (length (sg_key_id s) =? 32)%nat || negb (length (sg_signature s) =? 64)%nat.

Definition validate (a : Aum) : result string unit :=
  if match prev_aum_hash a with Some h => negb (length h =? 32)%nat | None => false end
  then Err "parent hash has wrong length"
  else if existsb malformed (signatures a) then Err "signature has malformed key ID or signature"
  else
    _ ← (match a_key a with Some k => key_validate k | None => Ok tt end);
    _ ← (match a_state a with Some s => validate_checkpoint s | None => Ok tt end);
    validate_kind a.

(** ** Codecs *)

Section codec.
Context `{Ciborium}.

Definition int_map (l : list (Z * Value)) : Value := Map (canonical_map (int_pairs l)).

Definition meta_to_value (m : Meta) : Value :=
  Map (canonical_map (map (fun e => (Text e.1, Text e.2)) (btree_iter m))).
(** [if let Some(meta) = meta { if !meta.is_empty() { .. } }] *)
Definition push_meta (n : Z) (o : option Meta) : list (Z * Value) :=
  match o with
  | Some m => if bool_decide (m = ∅) then [] else [(n, meta_to_value m)]
  | None => []
  end.

Definition key_to_value (k : Key) : Value :=
  int_map ([(1, Integer (key_kind_to_u8 (k_kind k))); (2, Integer (k_votes k)); (3, Bytes (k_public k))] ++
           push_meta 12 (k_meta k)).
Definition key_encode (k : Key) : list Z := encode_value (key_to_value k).
Definition key_decode (data : list Z) : result DecodeError Key := v ← decode_value data; key_from_value v.

Definition state_to_value (s : State) : Value :=
  int_map ([(1, null_or_bytes (last_aum_hash s));
            (2, Array (map Bytes (disablement_values s)));
            (3, Array (map key_to_value (keys s)))] ++
           (if negb (state_id1 s =? 0) then [(4, Integer (state_id1 s))] else []) ++
           (if negb (state_id2 s =? 0) then [(5, Integer (state_id2 s))] else [])).

Record StateSlots : Type := SS {
  ss_last : option (option (list Z)); ss_dis : option (list (list Z)); ss_keys : option (list Key);
  ss_id1 : option Z; ss_id2 : option Z }.

Definition opt_bytes (n : Z) (v : Value) : result DecodeError (option (list Z)) :=
  match v with Null => Ok None | Bytes b => Ok (Some b) | _ => Err (TypeMismatch n) end.

Definition state_field (s : StateSlots) (e : Value * Value) : result DecodeError StateSlots :=
  n ← expect_key e.1;
  let v := e.2 in
  if n =? 1 then
    x ← opt_bytes 1 v; r ← set_unique (ss_last s) x; Ok (SS r (ss_dis s) (ss_keys s) (ss_id1 s) (ss_id2 s))
  else if n =? 2 then
    arr ← expect_array v; out ← mapM expect_bytes arr;
    r ← set_unique (ss_dis s) out; Ok (SS (ss_last s) r (ss_keys s) (ss_id1 s) (ss_id2 s))
  else if n =? 3 then
    arr ← expect_array v; out ← mapM key_from_value arr;
    r ← set_unique (ss_keys s) out; Ok (SS (ss_last s) (ss_dis s) r (ss_id1 s) (ss_id2 s))
  else if n =? 4 then
    x ← expect_uint v; r ← set_unique (ss_id1 s) x; Ok (SS (ss_last s) (ss_dis s) (ss_keys s) r (ss_id2 s))
  else if n =? 5 then
    x ← expect_uint v; r ← set_unique (ss_id2 s) x; Ok (SS (ss_last s) (ss_dis s) (ss_keys s) (ss_id1 s) r)
  else Ok s.

Definition state_from_value (v : Value) : result DecodeError State :=
  m ← expect_map v;
  s ← try_fold state_field m (SS None None None None None);
  dis ← ok_or (ss_dis s) (MissingField 2);
  ks ← ok_or (ss_keys s) (MissingField 3);
  Ok {| last_aum_hash := default None (ss_last s); disablement_values := dis; keys := ks;
        state_id1 := default 0 (ss_id1 s); state_id2 := default 0 (ss_id2 s) |}.

Definition state_encode (s : State) : list Z := encode_value (state_to_value s).
Definition state_decode (data : list Z) : result DecodeError State := v ← decode_value data; state_from_value v.

Definition signature_to_value (s : Signature) : Value :=
  int_map [(1, Bytes (sg_key_id s)); (2, Bytes (sg_signature s))].

Definition signature_field (s : option (list Z) * option (list Z)) (e : Value * Value)
  : result DecodeError (option (list Z) * option (list Z)) :=
  n ← expect_key e.1;
  if n =? 1 then x ← expect_bytes e.2; r ← set_unique s.1 x; Ok (r, s.2)
  else if n =? 2 then x ← expect_bytes e.2; r ← set_unique s.2 x; Ok (s.1, r)
  else Ok s.

Definition signature_from_value (v : Value) : result DecodeError Signature :=
  m ← expect_map v;
  s ← try_fold signature_field m (None, None);
  i ← ok_or s.1 (MissingField 1);
  g ← ok_or s.2 (MissingField 2);
  Ok {| sg_key_id := i; sg_signature := g |}.

Definition aum_to_value (a : Aum) : Value :=
  int_map ([(1, Integer (aum_kind_to_u8 (message_kind a))); (2, null_or_bytes (prev_aum_hash a))] ++
           push_opt 3 key_to_value (a_key a) ++
           push_opt 4 Bytes (a_key_id a) ++
           push_opt 5 state_to_value (a_state a) ++
           push_opt 6 Integer (a_votes a) ++
           push_meta 7 (a_meta a) ++
           (if bool_decide (signatures a = []) then [] else [(23, Array (map signature_to_value (signatures a)))])).
Definition aum_encode (a : Aum) : list Z := encode_value (aum_to_value a).

Record AumSlots : Type := AS {
  as_kind : option AumKind; as_prev : option (option (list Z)); as_key : option Key; as_key_id : option (list Z);
  as_state : option State; as_votes : option Z; as_meta : option Meta; as_sigs : option (list Signature) }.

Definition aum_field (s : AumSlots) (e : Value * Value) : result DecodeError AumSlots :=
  let '(AS kd pv ky id st vt mt sg) := s in
  n ← expect_key e.1;
  let v := e.2 in
  if n =? 1 then
    x ← expect_uint v; k ← ok_or (aum_kind_from_u64 x) (InvalidAumKind x);
    r ← set_unique kd k; Ok (AS r pv ky id st vt mt sg)
  else if n =? 2 then x ← opt_bytes 2 v; r ← set_unique pv x; Ok (AS kd r ky id st vt mt sg)
  else if n =? 3 then x ← key_from_value v; r ← set_unique ky x; Ok (AS kd pv r id st vt mt sg)
  else if n =? 4 then x ← expect_bytes v; r ← set_unique id x; Ok (AS kd pv ky r st vt mt sg)
  else if n =? 5 then x ← state_from_value v; r ← set_unique st x; Ok (AS kd pv ky id r vt mt sg)
  else if n =? 6 then x ← expect_uint v; r ← set_unique vt x; Ok (AS kd pv ky id st r mt sg)
  else if n =? 7 then x ← meta_from_value v; r ← set_unique mt x; Ok (AS kd pv ky id st vt r sg)
  else if n =? 23 then
    arr ← expect_array v; x ← mapM signature_from_value arr;
    r ← set_unique sg x; Ok (AS kd pv ky id st vt mt r)
  else Ok s.

Definition aum_decode (data : list Z) : result DecodeError Aum :=
  v ← decode_value data;
  m ← expect_map v;
  s ← try_fold aum_field m (AS None None None None None None None None);
  kd ← ok_or (as_kind s) (MissingField 1);
  Ok {| message_kind := kd; prev_aum_hash := default None (as_prev s); a_key := as_key s; a_key_id := as_key_id s;
        a_state := as_state s; a_votes := as_votes s; a_meta := as_meta s; signatures := default [] (as_sigs s) |}.

End codec.

(** ** Hashes and the effect of updates *)

Section hash.
Context `{Ciborium} `{Blake2s256}.

Definition hash (a : Aum) : list Z := blake2s256 (aum_encode a).
Definition unsigned (a : Aum) : Aum :=
  {| message_kind := message_kind a; prev_aum_hash := prev_aum_hash a; a_key := a_key a; a_key_id := a_key_id a;
     a_state := a_state a; a_votes := a_votes a; a_meta := a_meta a; signatures := [] |}.
Definition sig_hash (a : Aum) : list Z := blake2s256 (aum_encode (unsigned a)).

Definition with_keys (ks : list Key) (s : State) : State :=
  {| last_aum_hash := last_aum_hash s; disablement_values := disablement_values s; keys := ks;
     state_id1 := state_id1 s; state_id2 := state_id2 s |}.
Definition with_last (h : option (list Z)) (s : State) : State :=
  {| last_aum_hash := h; disablement_values := disablement_values s; keys := keys s;
     state_id1 := state_id1 s; state_id2 := state_id2 s |}.
Definition with_last_aum (s : State) (a : Aum) : State := with_last (Some (hash a)) s.

(** The body of the match of [apply_verified]. *)
Definition apply_kind (s : State) (u : Aum) : result string State :=
  match message_kind u with
  | NoOp => Ok s
  | Checkpoint =>
      c ← ok_or (a_state u) "missing checkpoint state";
      if negb (state_id1 c =? state_id1 s) || negb (state_id2 c =? state_id2 s)
      then Err "checkpoint state has incorrect state IDs" else Ok c
  | AddKey =>
      k ← ok_or (a_key u) "missing key";
      id ← key_id k;
      if is_some (state_key s id) then Err "key already exists" else Ok (with_keys (keys s ++ [k]) s)
  | RemoveKey =>
      id ← ok_or (a_key_id u) "missing key ID";
      i ← ok_or (position (has_id id) (keys s)) "key not found";
      Ok (with_keys (delete i (keys s)) s)
  | UpdateKey =>
      id ← ok_or (a_key_id u) "missing key ID";
      i ← ok_or (position (has_id id) (keys s)) "key not found";
      k ← ok_or (keys s !! i) "key not found";
      let k := {| k_kind := k_kind k; k_votes := default (k_votes k) (a_votes u); k_public := k_public k;
                  k_meta := match a_meta u with Some m => Some m | None => k_meta k end |} in
      _ ← map_err (fun _ => "updated key is invalid") (key_validate k);
      Ok (with_keys (<[i := k]> (keys s)) s)
  | AumInvalid => Err "invalid AUM kind"
  end.

Definition apply_verified (s : State) (u : Aum) : result string State :=
  if match last_aum_hash s with
     | Some last => negb (bool_decide (prev_aum_hash u = Some last))
     | None => false
     end
  then Err "parent AUM hash mismatch"
  else out ← apply_kind s u; Ok (with_last_aum out u).

End hash.
