(* ===== verification/TkaCodec.v ===== *)
(** * The CBOR codecs of keys, states and updates round-trip

    A value whose fields have their widths decodes from its encoding to itself,
    so the encoding is injective: an update is determined by the bytes its hash
    and its signatures are computed from. *)

From Stdlib Require Import Sorted.
From S2P Require Import Prelude Bytes Order Utf8 Crypto Cbor TkaAum.

(** ** Fields within their widths *)

Definition bytes_ok (b : list Z) : Prop := wf_bytes b /\ zlen b < 2 ^ 64.
Definition text_ok (s : list Z) : Prop := bytes_ok s /\ is_utf8 s = true.
Definition opt_ok {A} (P : A -> Prop) (o : option A) : Prop := match o with Some x => P x | None => True end.
(** A [BTreeMap] that is written: an empty one is not told from an absent one. *)
Definition meta_ok (m : Meta) : Prop :=
  m <> ∅ /\ Forall (fun e => text_ok e.1 /\ text_ok e.2) (map_to_list m) /\ Z.of_nat (size m) <= MAX_MAP_PAIRS.
Definition key_ok (k : Key) : Prop := is_u64 (k_votes k) /\ bytes_ok (k_public k) /\ opt_ok meta_ok (k_meta k).
Definition array_ok {A} (P : A -> Prop) (l : list A) : Prop := zlen l <= MAX_ARRAY_ELEMENTS /\ Forall P l.
Definition state_ok (s : State) : Prop :=
  opt_ok bytes_ok (last_aum_hash s) /\ array_ok bytes_ok (disablement_values s) /\ array_ok key_ok (keys s) /\
  is_u64 (state_id1 s) /\ is_u64 (state_id2 s).
Definition signature_ok (s : Signature) : Prop := bytes_ok (sg_key_id s) /\ bytes_ok (sg_signature s).
Definition aum_ok (a : Aum) : Prop :=
  opt_ok bytes_ok (prev_aum_hash a) /\ opt_ok key_ok (a_key a) /\ opt_ok bytes_ok (a_key_id a) /\
  opt_ok state_ok (a_state a) /\ opt_ok is_u64 (a_votes a) /\ opt_ok meta_ok (a_meta a) /\
  array_ok signature_ok (signatures a).

#[global] Instance opt_ok_dec {A} (P : A -> Prop) `{forall x, Decision (P x)} o : Decision (opt_ok P o).
Proof. unfold opt_ok. destruct o; apply _. Defined.
#[global] Instance array_ok_dec {A} (P : A -> Prop) `{forall x, Decision (P x)} l : Decision (array_ok P l).
Proof. unfold array_ok. apply _. Defined.
#[global] Instance bytes_ok_dec b : Decision (bytes_ok b).
Proof. unfold bytes_ok. apply _. Defined.
#[global] Instance text_ok_dec s : Decision (text_ok s).
Proof. unfold text_ok. apply _. Defined.
#[global] Instance meta_ok_dec m : Decision (meta_ok m).
Proof. unfold meta_ok. apply _. Defined.
#[global] Instance key_ok_dec k : Decision (key_ok k).
Proof. unfold key_ok. apply _. Defined.
#[global] Instance state_ok_dec s : Decision (state_ok s).
Proof. unfold state_ok. apply _. Defined.
#[global] Instance signature_ok_dec s : Decision (signature_ok s).
Proof. unfold signature_ok. apply _. Defined.
#[global] Instance aum_ok_dec a : Decision (aum_ok a).
Proof. unfold aum_ok. apply _. Defined.

(** ** Maps with ascending integer keys *)

(** Keys in ascending order between [lo] and [hi]. *)
Definition ascending (lo hi : Z) (l : list (Z * Value)) : Prop :=
  StronglySorted (fun a b => a.1 < b.1) l /\ Forall (fun e => lo <= e.1 < hi) l.

Lemma ascending_app lo mid hi l1 l2 :
  lo <= mid <= hi -> ascending lo mid l1 -> ascending mid hi l2 -> ascending lo hi (l1 ++ l2).
Proof.
  intros Hm [S1 F1] [S2 F2]. split.
  - induction S1 as [|x l1 _ IH Hx]; cbn; [done|]. inversion_clear F1 as [|? ? Hx1 F1']. constructor; [by apply IH|].
    apply list.Forall_app. split; [done|]. eapply list.Forall_impl; [exact F2|]. cbn. intros y Hy. lia.
  - apply list.Forall_app. split; [eapply list.Forall_impl; [exact F1|]|eapply list.Forall_impl; [exact F2|]]; cbn; intros; lia.
Qed.

Lemma ascending_weaken lo lo' hi hi' l : ascending lo hi l -> lo' <= lo -> hi <= hi' -> ascending lo' hi' l.
Proof. intros [S F] H1 H2. split; [done|]. eapply list.Forall_impl; [exact F|]. cbn. intros. lia. Qed.

Lemma ascending_nil lo hi : ascending lo hi [].
Proof. split; constructor. Qed.

Lemma ascending_one n lo hi v : lo <= n < hi -> ascending lo hi [(n, v)].
Proof. intros H. split; [by repeat constructor|]. by constructor. Qed.

Lemma ascending_push_opt {A} n (f : A -> Value) o lo hi : lo <= n < hi -> ascending lo hi (push_opt n f o).
Proof. intros H. destruct o; cbn; [by apply ascending_one|apply ascending_nil]. Qed.

Section codec.
Context `{CiboriumLaws}.

Lemma ascending_push_meta n o lo hi : lo <= n < hi -> ascending lo hi (push_meta n o).
Proof. intros Hn. destruct o; cbn; [|apply ascending_nil]. case_bool_decide; [apply ascending_nil|by apply ascending_one]. Qed.

Lemma ascending_if (b : bool) l lo hi : ascending lo hi l -> ascending lo hi (if b then l else []).
Proof. destruct b; [done|intros _; apply ascending_nil]. Qed.
Lemma ascending_if' (b : bool) l lo hi : ascending lo hi l -> ascending lo hi (if b then [] else l).
Proof. destruct b; [intros _; apply ascending_nil|done]. Qed.

Lemma int_map_pairs l : ascending 0 24 l -> int_map l = Map (int_pairs l).
Proof. intros [Hs Hf]. unfold int_map. f_equal. by apply canonical_map_sorted. Qed.

Lemma fits_Map k m :
  fits (S k) (Map m) = (zlen m <=? MAX_MAP_PAIRS) && forallb (fun e => fits k e.1 && fits k e.2) m.
Proof. reflexivity. Qed.
Lemma fits_Array k a : fits (S k) (Array a) = (zlen a <=? MAX_ARRAY_ELEMENTS) && forallb (fits k) a.
Proof. reflexivity. Qed.

Lemma fits_int_map k l :
  ascending 0 24 l -> zlen l <= MAX_MAP_PAIRS -> Forall (fun e => fits (S k) e.2 = true) l ->
  fits (S (S k)) (int_map l) = true.
Proof.
  intros Ha Hl Hf. rewrite int_map_pairs by done. cbn [fits]. apply andb_true_iff. split.
  - apply Z.leb_le. unfold zlen, int_pairs in *. by rewrite length_map.
  - unfold int_pairs. apply forallb_forall. intros e He%list_elem_of_In. apply list_elem_of_fmap in He as (x & -> & Hx).
    destruct Ha as [_ Hr]. rewrite list.Forall_forall in Hr, Hf. specialize (Hr _ Hx). cbn [fst snd fits].
    rewrite (proj2 (Z.leb_le _ _)), (proj2 (Z.ltb_lt _ _)) by lia. cbn [andb]. by apply Hf.
Qed.

Lemma fits_bytes k b : bytes_ok b -> fits (S k) (Bytes b) = true.
Proof. intros [H1 H2]. cbn. by rewrite bool_decide_true, (proj2 (Z.ltb_lt _ _)). Qed.
Lemma fits_text k s : text_ok s -> fits (S k) (Text s) = true.
Proof. intros [[H1 H2] H3]. cbn [fits]. by rewrite bool_decide_true, H3, (proj2 (Z.ltb_lt _ _)). Qed.
Lemma fits_u64 k n : is_u64 n -> fits (S k) (Integer n) = true.
Proof. intros Hn. unfold is_u64 in Hn. cbn [fits]. by rewrite (proj2 (Z.leb_le _ _)), (proj2 (Z.ltb_lt _ _)) by lia. Qed.
Lemma fits_null_or_bytes k o : opt_ok bytes_ok o -> fits (S k) (null_or_bytes o) = true.
Proof. destruct o; [apply fits_bytes|done]. Qed.

Lemma fits_array {A} k (f : A -> Value) (P : A -> Prop) l :
  array_ok P l -> (forall x, P x -> fits k (f x) = true) -> fits (S k) (Array (map f l)) = true.
Proof.
  intros [Hl Hp] Hf. rewrite fits_Array. apply andb_true_iff. split; [apply Z.leb_le; unfold zlen in *; by rewrite length_map|].
  apply forallb_forall. intros v Hv%list_elem_of_In. apply list_elem_of_fmap in Hv as (x & -> & Hx).
  apply Hf. rewrite list.Forall_forall in Hp. by apply Hp.
Qed.

Lemma btree_iter_perm m : btree_iter m ≡ₚ map_to_list m.
Proof. apply sort_by_perm. Qed.

Lemma fits_meta k m : meta_ok m -> fits (S (S k)) (meta_to_value m) = true.
Proof.
  intros (_ & Hf & Hs). unfold meta_to_value. rewrite fits_Map.
  assert (canonical_map (map (fun e => (Text e.1, Text e.2)) (btree_iter m)) ≡ₚ
    map (fun e => (Text e.1, Text e.2)) (map_to_list m)) as Hp.
  { unfold canonical_map. rewrite sort_by_perm. apply fmap_Permutation, btree_iter_perm. }
  apply andb_true_iff. split.
  - apply Z.leb_le. unfold zlen. rewrite Hp, length_map, (length_map_to_list (M := gmap (list Z)) m). exact Hs.
  - apply forallb_forall. intros e He%list_elem_of_In. rewrite Hp in He. apply list_elem_of_fmap in He as (x & -> & Hx).
    rewrite list.Forall_forall in Hf. destruct (Hf _ Hx) as [H1 H2]. cbn [fst snd]. by rewrite !fits_text.
Qed.

Lemma Forall_push_opt {A} k n (f : A -> Value) (P : A -> Prop) o :
  opt_ok P o -> (forall x, P x -> fits k (f x) = true) -> Forall (fun e => fits k e.2 = true) (push_opt n f o).
Proof. destruct o; cbn; [|constructor]. intros Ho Hf. constructor; [by apply Hf|constructor]. Qed.

Lemma Forall_push_meta k n o :
  opt_ok meta_ok o -> Forall (fun e => fits (S (S k)) e.2 = true) (push_meta n o).
Proof.
  destruct o as [m|]; cbn; [|constructor]. intros Hm. case_bool_decide; [constructor|]. constructor; [by apply fits_meta|constructor].
Qed.

(** Bounds of the encoded values: a key nests three deep, a state five, an
    update six. *)
Lemma fits_key k x : key_ok x -> fits (S (S (S k))) (key_to_value x) = true.
Proof.
  intros (Hv & Hp & Hm). apply fits_int_map.
  - apply (ascending_app 0 4 24); [lia| |apply ascending_push_meta; lia].
    apply (ascending_app 0 2 4 [_]); [lia|by apply ascending_one|].
    apply (ascending_app 2 3 4 [_]); [lia|by apply ascending_one|by apply ascending_one].
  - unfold zlen, MAX_MAP_PAIRS. rewrite length_app. destruct (k_meta x) as [m|]; cbn; [case_bool_decide|]; cbn; lia.
  - repeat constructor; cbn [snd].
    + apply fits_u64. unfold is_u64. destruct (k_kind x); cbn; lia.
    + by apply fits_u64.
    + by apply fits_bytes.
    + by apply Forall_push_meta.
Qed.

Lemma state_pairs_ascending s :
  ascending 0 24 ([(1, null_or_bytes (last_aum_hash s)); (2, Array (map Bytes (disablement_values s)));
     (3, Array (map key_to_value (keys s)))] ++
    (if negb (state_id1 s =? 0) then [(4, Integer (state_id1 s))] else []) ++
    (if negb (state_id2 s =? 0) then [(5, Integer (state_id2 s))] else [])).
Proof.
  apply (ascending_app 0 2 24 [_]); [lia|by apply ascending_one|].
  apply (ascending_app 2 3 24 [_]); [lia|by apply ascending_one|].
  apply (ascending_app 3 4 24 [_]); [lia|by apply ascending_one|].
  apply (ascending_app 4 5 24); [lia|apply ascending_if; by apply ascending_one|].
  apply ascending_if; by apply ascending_one.
Qed.

Lemma fits_state k s : state_ok s -> fits (S (S (S (S (S k))))) (state_to_value s) = true.
Proof.
  intros (Hl & Hd & Hk & H1 & H2). apply fits_int_map; [apply state_pairs_ascending| |].
  - unfold zlen, MAX_MAP_PAIRS. rewrite !length_app. repeat case_match; cbn; lia.
  - repeat constructor; cbn [snd].
    + by apply fits_null_or_bytes.
    + eapply fits_array; [exact Hd|]. intros b. apply fits_bytes.
    + eapply fits_array; [exact Hk|]. intros b. apply fits_key.
    + apply list.Forall_app. split; case_match; repeat constructor; cbn [snd]; by apply fits_u64.
Qed.

Lemma fits_signature k s : signature_ok s -> fits (S (S k)) (signature_to_value s) = true.
Proof.
  intros [H1 H2]. apply fits_int_map; [|unfold zlen, MAX_MAP_PAIRS; cbn; lia|by repeat constructor; apply fits_bytes].
  apply (ascending_app 0 2 24 [_]); [lia|by apply ascending_one|by apply ascending_one].
Qed.

Definition aum_pairs (a : Aum) : list (Z * Value) :=
  [(1, Integer (aum_kind_to_u8 (message_kind a))); (2, null_or_bytes (prev_aum_hash a))] ++
  push_opt 3 key_to_value (a_key a) ++ push_opt 4 Bytes (a_key_id a) ++ push_opt 5 state_to_value (a_state a) ++
  push_opt 6 Integer (a_votes a) ++ push_meta 7 (a_meta a) ++
  (if bool_decide (signatures a = []) then [] else [(23, Array (map signature_to_value (signatures a)))]).

Lemma aum_pairs_ascending a : ascending 0 24 (aum_pairs a).
Proof.
  unfold aum_pairs. apply (ascending_app 0 2 24 [_]); [lia|by apply ascending_one|].
  apply (ascending_app 2 3 24 [_]); [lia|by apply ascending_one|].
  apply (ascending_app 3 4 24); [lia|by apply ascending_push_opt|].
  apply (ascending_app 4 5 24); [lia|by apply ascending_push_opt|].
  apply (ascending_app 5 6 24); [lia|by apply ascending_push_opt|].
  apply (ascending_app 6 7 24); [lia|by apply ascending_push_opt|].
  apply (ascending_app 7 8 24); [lia|apply ascending_push_meta; lia|].
  apply ascending_if'. by apply ascending_one.
Qed.

Lemma fits_aum_at k a : aum_ok a -> fits (S (S (S (S (S (S (S k))))))) (aum_to_value a) = true.
Proof.
  intros (Hp & Hk & Hi & Hs & Hv & Hm & Hg). apply (fits_int_map (S (S (S (S (S k))))) (aum_pairs a)); [apply aum_pairs_ascending| |].
  - unfold zlen, MAX_MAP_PAIRS, aum_pairs, push_opt, push_meta. rewrite !length_app. repeat case_match; cbn; lia.
  - unfold aum_pairs. repeat (apply list.Forall_app; split).
    + repeat constructor; cbn [snd]; [|by apply fits_null_or_bytes]. apply fits_u64. unfold is_u64. destruct (message_kind a); cbn; lia.
    + eapply Forall_push_opt; [exact Hk|]. apply fits_key.
    + eapply Forall_push_opt; [exact Hi|]. apply fits_bytes.
    + eapply Forall_push_opt; [exact Hs|]. apply fits_state.
    + eapply Forall_push_opt; [exact Hv|]. apply fits_u64.
    + by apply Forall_push_meta.
    + case_bool_decide; [constructor|]. repeat constructor. eapply fits_array; [exact Hg|]. apply fits_signature.
Qed.
Lemma fits_aum a : aum_ok a -> fits (S MAX_NESTING) (aum_to_value a) = true.
Proof. apply fits_aum_at. Qed.

(** ** Decoding what was encoded *)

Lemma expect_key_int n : 0 <= n < 24 -> expect_key (Integer n) = Ok n.
Proof. intros Hn. cbn. by rewrite (proj2 (Z.leb_le _ _)), (proj2 (Z.ltb_lt _ _)) by lia. Qed.
Lemma expect_uint_ok n : is_u64 n -> expect_uint (Integer n) = Ok n.
Proof. unfold is_u64. intros Hn. cbn. by rewrite (proj2 (Z.leb_le _ _)), (proj2 (Z.ltb_lt _ _)) by lia. Qed.

Lemma mapM_map_ok {E A B} (f : A -> B) (g : B -> result E A) l :
  (forall x, x ∈ l -> g (f x) = Ok x) -> mapM g (map f l) = Ok l.
Proof.
  intros Hg. apply mapM_Ok. induction l as [|x l IH]; cbn; [constructor|].
  constructor; [apply Hg; left|apply IH]. intros y Hy. apply Hg. by right.
Qed.

(** Entries without duplicate keys are read into the map they come from. *)
Lemma meta_entries_fold (l : list (list Z * list Z)) : forall m0 : Meta,
  NoDup l.*1 -> (forall k, k ∈ l.*1 -> m0 !! k = None) ->
  try_fold (fun (m : Meta) e =>
    mk ← expect_text e.1; mv ← expect_text e.2;
    match m !! mk with Some _ => Err DuplicateKey | None => Ok (<[mk := mv]> m) end)
    (map (fun e => (Text e.1, Text e.2)) l) m0 = Ok (list_to_map l ∪ m0).
Proof.
  induction l as [|[k v] l IH]; intros m0 Hd Hn; [cbn; by rewrite map_empty_union|].
  apply list.NoDup_cons in Hd as [Hk Hd]. cbn [map try_fold fst snd expect_text mbind result_bind].
  rewrite (Hn k) by left. cbn [mbind result_bind]. rewrite IH; [|done|].
  - f_equal. rewrite list_to_map_cons, <- insert_union_l. symmetry. apply insert_union_r. by apply not_elem_of_list_to_map_1.
  - intros x Hx. rewrite lookup_insert_ne by (by intros ->). apply Hn. by right.
Qed.

Lemma meta_roundtrip m : meta_from_value (meta_to_value m) = Ok m.
Proof.
  unfold meta_from_value, meta_to_value. cbn [expect_map mbind result_bind].
  set (f := fun e : list Z * list Z => (Text e.1, Text e.2)).
  assert (exists l, canonical_map (map f (btree_iter m)) = map f l /\ l ≡ₚ map_to_list m) as (l & -> & Hp).
  { assert (canonical_map (map f (btree_iter m)) ≡ₚ map f (map_to_list m)) as Hp.
    { unfold canonical_map. rewrite sort_by_perm. apply fmap_Permutation, btree_iter_perm. }
    apply Permutation_map_inv in Hp as (l & E & Hp). by exists l. }
  rewrite meta_entries_fold.
  - f_equal. rewrite map_union_empty. rewrite <- (list_to_map_to_list m). apply list_to_map_proper; [|done].
    rewrite Hp. apply NoDup_fst_map_to_list.
  - rewrite Hp. apply NoDup_fst_map_to_list.
  - intros k _. apply lookup_empty.
Qed.

(** [fields] runs the body of a decoding loop over the entries at hand. *)
Ltac fields :=
  repeat first
    [ rewrite expect_uint_ok by (done || (unfold is_u64; cbn; lia))
    | progress cbn [try_fold map app negb fst snd mbind result_bind ok_or set_unique Z.eqb Pos.eqb expect_bytes expect_array
        ks_kind ks_votes ks_public ks_meta ss_last ss_dis ss_keys ss_id1 ss_id2
        as_kind as_prev as_key as_key_id as_state as_votes as_meta as_sigs default]
    | progress unfold key_field, state_field, signature_field, aum_field, expect_key, int_pairs ].

Lemma key_roundtrip k : key_ok k -> key_from_value (key_to_value k) = Ok k.
Proof.
  intros (Hv & Hp & Hm). unfold key_to_value, key_from_value. rewrite int_map_pairs.
  2: { apply (ascending_app 0 4 24); [lia| |apply ascending_push_meta; lia].
    apply (ascending_app 0 2 4 [_]); [lia|by apply ascending_one|].
    apply (ascending_app 2 3 4 [_]); [lia|by apply ascending_one|by apply ascending_one]. }
  cbn [expect_map mbind result_bind]. unfold int_pairs. rewrite map_app, try_fold_app.
  assert (ok_or (key_kind_from_u64 (key_kind_to_u8 (k_kind k))) (InvalidKeyKind (key_kind_to_u8 (k_kind k))) = Ok (k_kind k)) as Hk
    by (by destruct (k_kind k)).
  assert (is_u64 (key_kind_to_u8 (k_kind k))) by (unfold is_u64; destruct (k_kind k); cbn; lia).
  cbn [map app fst snd]. fields. rewrite Hk. fields. 
  destruct k as [kd vt pb [m|]]; cbn [k_meta push_meta]; [|done].
  destruct Hm as [Hne _]. rewrite bool_decide_false by done. fields. by rewrite meta_roundtrip.
Qed.

Lemma opt_bytes_null n o : opt_bytes n (null_or_bytes o) = Ok o.
Proof. by destruct o. Qed.

Lemma mapM_expect_bytes l : mapM expect_bytes (map Bytes l) = Ok l.
Proof. by apply mapM_map_ok. Qed.

Lemma state_roundtrip s : state_ok s -> state_from_value (state_to_value s) = Ok s.
Proof.
  intros (Hl & Hd & [_ Hk] & H1 & H2). unfold state_to_value, state_from_value.
  rewrite int_map_pairs by apply state_pairs_ascending. cbn [expect_map mbind result_bind].
  unfold int_pairs. rewrite !map_app, !try_fold_app. cbn [map app fst snd]. fields. rewrite opt_bytes_null. fields.
  rewrite mapM_expect_bytes. fields. rewrite mapM_map_ok.
  2: { intros k Hin. rewrite list.Forall_forall in Hk. by apply key_roundtrip, Hk. }
  fields. destruct s as [l d ks i1 i2]; cbn [state_id1 state_id2] in *.
  destruct (Z.eqb_spec i1 0) as [->|]; cbn [negb]; fields; (destruct (Z.eqb_spec i2 0) as [->|]; cbn [negb]; fields; done).
Qed.

Lemma signature_roundtrip s : signature_ok s -> signature_from_value (signature_to_value s) = Ok s.
Proof.
  intros [H1 H2]. unfold signature_to_value, signature_from_value. rewrite int_map_pairs.
  2: { apply (ascending_app 0 2 24 [_]); [lia|by apply ascending_one|by apply ascending_one]. }
  cbn [expect_map mbind result_bind]. fields. by destruct s.
Qed.

Lemma aum_kind_u8 k : ok_or (aum_kind_from_u64 (aum_kind_to_u8 k)) (InvalidAumKind (aum_kind_to_u8 k)) = Ok k.
Proof. by destruct k. Qed.

(** One step of the loop of [Aum::decode] per field. *)
Section aum_fields.
Variables (kd : option AumKind) (pv : option (option (list Z))) (ky : option Key) (id : option (list Z))
  (st : option State) (vt : option Z) (mt : option Meta) (sg : option (list Signature)).

Lemma aum_field_start k p :
  try_fold aum_field (int_pairs [(1, Integer (aum_kind_to_u8 k)); (2, null_or_bytes p)]) (AS None None ky id st vt mt sg) =
  Ok (AS (Some k) (Some p) ky id st vt mt sg).
Proof.
  assert (is_u64 (aum_kind_to_u8 k)) by (unfold is_u64; destruct k; cbn; lia).
  fields. rewrite aum_kind_u8. fields. rewrite opt_bytes_null. by fields.
Qed.
Lemma aum_field_key o : opt_ok key_ok o ->
  try_fold aum_field (int_pairs (push_opt 3 key_to_value o)) (AS kd pv None id st vt mt sg) = Ok (AS kd pv o id st vt mt sg).
Proof. destruct o as [k|]; [|done]. cbn [opt_ok push_opt]. intros Hk. fields. rewrite key_roundtrip by done. by fields. Qed.
Lemma aum_field_key_id o :
  try_fold aum_field (int_pairs (push_opt 4 Bytes o)) (AS kd pv ky None st vt mt sg) = Ok (AS kd pv ky o st vt mt sg).
Proof. destruct o as [k|]; [|done]. cbn [push_opt]. by fields. Qed.
Lemma aum_field_state o : opt_ok state_ok o ->
  try_fold aum_field (int_pairs (push_opt 5 state_to_value o)) (AS kd pv ky id None vt mt sg) = Ok (AS kd pv ky id o vt mt sg).
Proof. destruct o as [k|]; [|done]. cbn [opt_ok push_opt]. intros Hk. fields. rewrite state_roundtrip by done. by fields. Qed.
Lemma aum_field_votes o : opt_ok is_u64 o ->
  try_fold aum_field (int_pairs (push_opt 6 Integer o)) (AS kd pv ky id st None mt sg) = Ok (AS kd pv ky id st o mt sg).
Proof. destruct o as [k|]; [|done]. cbn [opt_ok push_opt]. intros Hk. by fields. Qed.
Lemma aum_field_meta o : opt_ok meta_ok o ->
  try_fold aum_field (int_pairs (push_meta 7 o)) (AS kd pv ky id st vt None sg) = Ok (AS kd pv ky id st vt o sg).
Proof.
  destruct o as [m|]; [|done]. cbn [opt_ok push_meta]. intros [Hne _]. rewrite bool_decide_false by done.
  fields. rewrite meta_roundtrip. by fields.
Qed.
Lemma aum_field_sigs l : Forall signature_ok l ->
  try_fold aum_field (int_pairs (if bool_decide (l = []) then [] else [(23, Array (map signature_to_value l))]))
    (AS kd pv ky id st vt mt None) = Ok (AS kd pv ky id st vt mt (if bool_decide (l = []) then None else Some l)).
Proof.
  intros Hl. case_bool_decide; [done|]. fields. rewrite mapM_map_ok; [by fields|].
  intros x Hx. rewrite list.Forall_forall in Hl. by apply signature_roundtrip, Hl.
Qed.
End aum_fields.

Lemma int_pairs_app l1 l2 : int_pairs (l1 ++ l2) = int_pairs l1 ++ int_pairs l2.
Proof. apply map_app. Qed.

Lemma aum_roundtrip a :
  aum_ok a -> zlen (aum_encode a) <= MAX_CBOR_BYTES -> aum_decode (aum_encode a) = Ok a.
Proof.
  intros Ha Hl. unfold aum_decode, aum_encode in *. rewrite decode_encode_value by (by try apply fits_aum).
  destruct Ha as (Hp & Hk & Hi & Hs & Hv & Hm & [_ Hg]). unfold aum_to_value. fold (aum_pairs a).
  rewrite int_map_pairs by apply aum_pairs_ascending. cbn [expect_map mbind result_bind]. unfold aum_pairs.
  rewrite !int_pairs_app, try_fold_app, aum_field_start. cbn [mbind result_bind].
  rewrite try_fold_app, aum_field_key by done. cbn [mbind result_bind].
  rewrite try_fold_app, aum_field_key_id. cbn [mbind result_bind].
  rewrite try_fold_app, aum_field_state by done. cbn [mbind result_bind].
  rewrite try_fold_app, aum_field_votes by done. cbn [mbind result_bind].
  rewrite try_fold_app, aum_field_meta by done. cbn [mbind result_bind]. rewrite aum_field_sigs by done.
  destruct a as [kd pv ky id st vt mt sg]. cbn. case_bool_decide; by subst.
Qed.

(** The encoding determines the update. *)
Lemma aum_encode_inj a b :
  aum_ok a -> aum_ok b -> zlen (aum_encode a) <= MAX_CBOR_BYTES -> aum_encode a = aum_encode b -> a = b.
Proof.
  intros Ha Hb Hl E. pose proof (aum_roundtrip a Ha Hl) as H1. rewrite E in H1, Hl. rewrite (aum_roundtrip b Hb Hl) in H1.
  congruence.
Qed.
End codec.
