(* ===== verification/TkaSig.v ===== *)
(** * Node-key signatures: [tka/src/sig.rs]

    A signature that authorizes a node key under tailnet lock, its chain of
    rotations, and the delegation of signing to a pre-auth key.  Ed25519 and
    base64 are parameters. *)

From S2P Require Import Prelude Bytes Keys Order Utf8 Crypto Cbor TkaAum.

Inductive SigKind : Type := SigInvalid | Direct | Rotation | Credential.
#[global] Instance SigKind_eq_dec : EqDecision SigKind.
Proof. solve_decision. Defined.
Definition sig_kind_to_u8 (k : SigKind) : Z :=
  match k with SigInvalid => 0 | Direct => 1 | Rotation => 2 | Credential => 3 end.
Definition sig_kind_from_u64 (v : Z) : option SigKind :=
  if v =? 0 then Some SigInvalid else if v =? 1 then Some Direct else if v =? 2 then Some Rotation
  else if v =? 3 then Some Credential else None.

Unset Elimination Schemes.
Inductive NodeKeySignature : Type := NKS {
  sig_kind : SigKind; pubkey : option (list Z); nk_key_id : option (list Z); nk_signature : option (list Z);
  nested : option NodeKeySignature; wrapping_pubkey : option (list Z) }.
Set Elimination Schemes.

(** Induction along the chain of nested signatures. *)
Fixpoint nks_chain_ind (P : NodeKeySignature -> Prop)
  (Hs : forall s, (forall n, nested s = Some n -> P n) -> P s) (s : NodeKeySignature) : P s :=
  Hs s (match s return forall n, nested s = Some n -> P n with
        | NKS _ _ _ _ o _ => match o return forall n, o = Some n -> P n with
                             | Some n0 => fun n E => eq_ind n0 P (nks_chain_ind P Hs n0) n (Some_inj _ _ E)
                             | None => fun n E => match None_ne_Some n E with end
                             end
        end).

Inductive VerifyError : Type :=
| SignatureFailed | PubkeyMismatch | MissingPubkey | MissingSignature | MissingNested | UnexpectedNested
| MissingWrappingPubkey | RotationTooDeep | InvalidSigKind' | InvalidKeyLength | InvalidSignatureLength.

Inductive WrappedAuthKeyError : Type :=
| MissingDelimiter | InvalidSignatureEncoding | InvalidPrivateKeyEncoding | InvalidCredential | NotCredential
| InvalidPrivateKeyLength | InvalidPrivateKey.

Record RotationDetails : Type := {
  prev_node_keys : list (list Z); initial_sig : option NodeKeySignature }.

Definition MAX_ROTATION_DEPTH : nat := 15.

(** The [ed25519_dalek] crate. *)
Class Ed25519 : Type := {
  verifying_key : Type;
  verifying_key_from_bytes : list Z -> option verifying_key;
  ed_signature : Type;
  ed_signature_from_slice : list Z -> option ed_signature;
  verify_strict : verifying_key -> list Z -> ed_signature -> bool;
  verify : verifying_key -> list Z -> ed_signature -> bool;
  signing_key : Type;
  from_keypair_bytes : list Z -> option signing_key;
  signing_public : signing_key -> list Z;
  ed_sign : signing_key -> list Z -> list Z }.

(** What a key signs verifies under its public half, strictly and plainly; a
    public key has 32 bytes and a signature 64. *)
Class Ed25519Laws `{Ed25519} : Prop := {
  sign_verifies : forall sk m, exists vk sg,
    verifying_key_from_bytes (signing_public sk) = Some vk /\ ed_signature_from_slice (ed_sign sk m) = Some sg /\
    verify_strict vk m sg = true /\ verify vk m sg = true;
  signing_public_ok : forall sk, length (signing_public sk) = 32%nat /\ wf_bytes (signing_public sk);
  ed_sign_ok : forall sk m, length (ed_sign sk m) = 64%nat /\ wf_bytes (ed_sign sk m) }.

(** [base64::engine::general_purpose::STANDARD_NO_PAD.decode] *)
Class Base64 : Type := { base64_decode : list Z -> option (list Z) }.

Section codec.
Context `{Ciborium}.

(** [if let Some(b) = o { if !b.is_empty() { .. } }] *)
Definition push_bytes (n : Z) (o : option (list Z)) : list (Z * Value) :=
  match o with Some (x :: b) => [(n, Bytes (x :: b))] | _ => [] end.

Fixpoint nks_to_value (s : NodeKeySignature) : Value :=
  int_map ([(1, Integer (sig_kind_to_u8 (sig_kind s)))] ++ push_bytes 2 (pubkey s) ++ push_bytes 3 (nk_key_id s) ++
           push_bytes 4 (nk_signature s) ++
           (match nested s with Some n => [(5, nks_to_value n)] | None => [] end) ++
           push_bytes 6 (wrapping_pubkey s)).
Definition nks_encode (s : NodeKeySignature) : list Z := encode_value (nks_to_value s).

Record SigSlots : Type := GS {
  gs_kind : option SigKind; gs_pubkey : option (list Z); gs_key_id : option (list Z);
  gs_signature : option (list Z); gs_nested : option NodeKeySignature; gs_wrapping : option (list Z) }.

(** The body of the loop of [from_value]; [rec] decodes a nested signature. *)
Definition nks_field (rec : Value -> result DecodeError NodeKeySignature) (s : SigSlots) (e : Value * Value)
  : result DecodeError SigSlots :=
  let '(GS kd pk id sg ns wp) := s in
  n ← expect_key e.1;
  if n =? 1 then
    x ← expect_uint e.2; k ← ok_or (sig_kind_from_u64 x) (InvalidSigKind x);
    r ← set_unique kd k; Ok (GS r pk id sg ns wp)
  else if n =? 2 then x ← expect_bytes e.2; r ← set_unique pk x; Ok (GS kd r id sg ns wp)
  else if n =? 3 then x ← expect_bytes e.2; r ← set_unique id x; Ok (GS kd pk r sg ns wp)
  else if n =? 4 then x ← expect_bytes e.2; r ← set_unique sg x; Ok (GS kd pk id r ns wp)
  else if n =? 5 then x ← rec e.2; r ← set_unique ns x; Ok (GS kd pk id sg r wp)
  else if n =? 6 then x ← expect_bytes e.2; r ← set_unique wp x; Ok (GS kd pk id sg ns r)
  else Ok s.

Fixpoint nks_from_value (v : Value) : result DecodeError NodeKeySignature :=
  match v with
  | Map m =>
      s ← try_fold (nks_field nks_from_value) m (GS None None None None None None);
      kd ← ok_or (gs_kind s) (MissingField 1);
      Ok (NKS kd (gs_pubkey s) (gs_key_id s) (gs_signature s) (gs_nested s) (gs_wrapping s))
  | _ => Err NotAMap
  end.
Definition nks_decode (data : list Z) : result DecodeError NodeKeySignature :=
  v ← decode_value data; nks_from_value v.

End codec.

Fixpoint authorizing_key_id (s : NodeKeySignature) : option (list Z) :=
  match nested s with Some n => authorizing_key_id n | None => nk_key_id s end.

Fixpoint wrapping_pubkey_recursive (s : NodeKeySignature) : result VerifyError (list Z) :=
  match wrapping_pubkey s with
  | Some (x :: w) => Ok (x :: w)
  | _ => match nested s with
         | Some n => wrapping_pubkey_recursive n
         | None => Err MissingWrappingPubkey
         end
  end.

(** The loop of [rotation_details] from a nested signature on. *)
Fixpoint details_from (s : NodeKeySignature) (prev : list (list Z)) : RotationDetails :=
  let prev := match pubkey s with Some (x :: p) => prev ++ [x :: p] | _ => prev end in
  if negb (bool_decide (sig_kind s = Rotation)) then {| prev_node_keys := prev; initial_sig := Some s |}
  else match nested s with
       | Some n => details_from n prev
       | None => {| prev_node_keys := prev; initial_sig := None |}
       end.
Definition rotation_details (s : NodeKeySignature) : RotationDetails :=
  match nested s with
  | Some n => details_from n []
  | None => {| prev_node_keys := []; initial_sig := None |}
  end.

Section verify.
Context `{Ciborium} `{Blake2s256} `{Ed25519}.

Definition without_signature (s : NodeKeySignature) : NodeKeySignature :=
  NKS (sig_kind s) (pubkey s) (nk_key_id s) None (nested s) (wrapping_pubkey s).
Definition nks_sig_hash (s : NodeKeySignature) : list Z := blake2s256 (nks_encode (without_signature s)).

Definition parse_verifying_key (bytes : list Z) : result VerifyError verifying_key :=
  if negb (length bytes =? 32)%nat then Err InvalidKeyLength
  else ok_or (verifying_key_from_bytes bytes) InvalidKeyLength.
Definition parse_signature (bytes : list Z) : result VerifyError ed_signature :=
  ok_or (ed_signature_from_slice bytes) InvalidSignatureLength.

(** The key a level must be signed for: none for a credential. *)
Definition check_pubkey (s : NodeKeySignature) (node_key : list Z) : result VerifyError unit :=
  if bool_decide (sig_kind s = Credential) then Ok tt
  else match pubkey s with
       | Some pk => if bool_decide (pk = node_key) then Ok tt else Err PubkeyMismatch
       | None => Err MissingPubkey
       end.

Fixpoint verify_inner (s : NodeKeySignature) (node_key verification_key : list Z) (depth : nat)
  : result VerifyError (option RotationDetails) :=
  if (MAX_ROTATION_DEPTH <? depth)%nat then Err RotationTooDeep
  else
    _ ← check_pubkey s node_key;
    match sig_kind s with
    | Direct | Credential =>
        if is_some (nested s) then Err UnexpectedNested
        else
          sig_bytes ← ok_or (nk_signature s) MissingSignature;
          vk ← parse_verifying_key verification_key;
          sig ← parse_signature sig_bytes;
          if verify_strict vk (nks_sig_hash s) sig then Ok None else Err SignatureFailed
    | Rotation =>
        match nested s with
        | None => Err MissingNested
        | Some n =>
            w ← wrapping_pubkey_recursive n;
            wrapping_vk ← parse_verifying_key w;
            sig_bytes ← ok_or (nk_signature s) MissingSignature;
            sig ← parse_signature sig_bytes;
            if negb (verify wrapping_vk (nks_sig_hash s) sig) then Err SignatureFailed
            else
              nested_pubkey ← (if bool_decide (sig_kind n = Credential) then Ok []
                               else ok_or (pubkey n) MissingPubkey);
              _ ← verify_inner n nested_pubkey verification_key (S depth);
              Ok (Some (rotation_details s))
        end
    | SigInvalid => Err InvalidSigKind'
    end.
Definition verify_signature (s : NodeKeySignature) (node_key verification_key : list Z)
  : result VerifyError (option RotationDetails) := verify_inner s node_key verification_key 0.

Definition sign_by_credential (credential : NodeKeySignature) (sk : signing_key) (node_key : list Z)
  : result WrappedAuthKeyError (list Z) :=
  if negb (bool_decide (sig_kind credential = Credential)) then Err NotCredential
  else
    let signature := NKS Rotation (Some node_key) None None (Some credential) None in
    let signature := NKS Rotation (Some node_key) None (Some (ed_sign sk (nks_sig_hash signature))) (Some credential) None in
    Ok (nks_encode signature).

(** [str::split_once]: around the first occurrence of the pattern. *)
Fixpoint split_once (pat s : list Z) : option (list Z * list Z) :=
  if bool_decide (take (length pat) s = pat) then Some ([], drop (length pat) s)
  else match s with
       | [] => None
       | x :: s => p ← split_once pat s; Some (x :: p.1, p.2)
       end.

(** ["--TL"] and ['-']. *)
Definition TL_MARKER : list Z := [45; 45; 84; 76].
Definition decode_wrapped_auth_key `{Base64} (wrapped : list Z)
  : result WrappedAuthKeyError (option (list Z * NodeKeySignature * signing_key)) :=
  match split_once TL_MARKER wrapped with
  | None => Ok None
  | Some (auth_key, suffix) =>
      sp ← ok_or (split_once [45] suffix) MissingDelimiter;
      signature ← ok_or (base64_decode sp.1) InvalidSignatureEncoding;
      private_key ← ok_or (base64_decode sp.2) InvalidPrivateKeyEncoding;
      credential ← map_err (fun _ => InvalidCredential) (nks_decode signature);
      if negb (bool_decide (sig_kind credential = Credential)) then Err NotCredential
      else if negb (length private_key =? 64)%nat then Err InvalidPrivateKeyLength
      else
        sk ← ok_or (from_keypair_bytes private_key) InvalidPrivateKey;
        Ok (Some (auth_key, credential, sk))
  end.

End verify.

(** ** [disablement.rs] *)

(** Argon2id with the crate's parameters and salt. *)
Class Argon2id : Type := { disablement_kdf : list Z -> list Z }.

Definition constant_time_eq (a b : list Z) : bool :=
  if negb (length a =? length b)%nat then false else ct_diff 0 a b =? 0.

Definition check_disablement `{Argon2id} (secret : list Z) (stored_values : list (list Z)) : bool :=
  let derived := disablement_kdf secret in existsb (constant_time_eq derived) stored_values.
