(* ===== verification/TkaSigSpec.v ===== *)
(** * Node-key signatures authorize what they say

    Codec of signature chains, the meaning of verification as a derivation, and
    delegation by a pre-auth key. *)

From Stdlib Require Import Sorted.
From S2P Require Import Prelude Bytes Keys Order Utf8 Crypto Cbor TkaAum TkaCodec TkaSig.

(** ** The codec *)

Fixpoint nks_depth (s : NodeKeySignature) : nat := match nested s with Some n => S (nks_depth n) | None => O end.

(** A field that is written: present and not empty. *)
Definition field_ok (b : list Z) : Prop := b <> [] /\ bytes_ok b.
Fixpoint nks_ok (s : NodeKeySignature) : Prop :=
  opt_ok field_ok (pubkey s) /\ opt_ok field_ok (nk_key_id s) /\ opt_ok field_ok (nk_signature s) /\
  opt_ok field_ok (wrapping_pubkey s) /\ match nested s with Some n => nks_ok n | None => True end.

#[global] Instance field_ok_dec b : Decision (field_ok b).
Proof. unfold field_ok. apply _. Defined.
#[global] Instance nks_ok_dec s : Decision (nks_ok s).
Proof.
  revert s. fix IH 1. intros [kd pk id sg [n|] wp]; cbn [nks_ok nested]; [pose proof (IH n)|]; apply _.
Defined.

Section codec.
Context `{CiboriumLaws}.

Definition nks_pairs (s : NodeKeySignature) : list (Z * Value) :=
  [(1, Integer (sig_kind_to_u8 (sig_kind s)))] ++ push_bytes 2 (pubkey s) ++ push_bytes 3 (nk_key_id s) ++
  push_bytes 4 (nk_signature s) ++ push_opt 5 nks_to_value (nested s) ++ push_bytes 6 (wrapping_pubkey s).

Lemma nks_to_value_eq s : nks_to_value s = int_map (nks_pairs s).
Proof. by destruct s as [kd pk id sg [n|] wp]. Qed.

Lemma ascending_push_bytes n o lo hi : lo <= n < hi -> ascending lo hi (push_bytes n o).
Proof. intros Hn. destruct o as [[|x b]|]; cbn; [apply ascending_nil|by apply ascending_one|apply ascending_nil]. Qed.

Lemma nks_pairs_ascending s : ascending 0 24 (nks_pairs s).
Proof.
  unfold nks_pairs. apply (ascending_app 0 2 24 [_]); [lia|by apply ascending_one|].
  apply (ascending_app 2 3 24); [lia|by apply ascending_push_bytes|].
  apply (ascending_app 3 4 24); [lia|by apply ascending_push_bytes|].
  apply (ascending_app 4 5 24); [lia|by apply ascending_push_bytes|].
  apply (ascending_app 5 6 24); [lia|by apply ascending_push_opt|]. by apply ascending_push_bytes.
Qed.

Lemma Forall_push_bytes k n o :
  opt_ok field_ok o -> Forall (fun e => fits (S k) e.2 = true) (push_bytes n o).
Proof. destruct o as [[|x b]|]; cbn [push_bytes]; [constructor|intros [_ Hb]; constructor; [by apply fits_bytes|constructor]|constructor]. Qed.

Lemma fits_nks s : forall k, nks_ok s -> fits (nks_depth s + 2 + k) (nks_to_value s) = true.
Proof.
  induction s as [s IH] using nks_chain_ind. intros k Hok. rewrite nks_to_value_eq.
  assert (exists k', (nks_depth s + 2 + k = S (S k'))%nat /\
    forall n, nested s = Some n -> exists k2, (S k' = nks_depth n + 2 + k2)%nat) as (k' & -> & Hk').
  { exists (nks_depth s + k)%nat. split; [lia|]. intros n E. exists k. destruct s; cbn in *. rewrite E. lia. }
  destruct s as [kd pk id sg ns wp]. destruct Hok as (Hp & Hi & Hs & Hw & Hn). cbn [pubkey nk_key_id nk_signature nested wrapping_pubkey] in *.
  apply fits_int_map; [apply nks_pairs_ascending| |].
  - unfold zlen, MAX_MAP_PAIRS, nks_pairs, push_bytes, push_opt. rewrite !length_app. repeat case_match; cbn; lia.
  - unfold nks_pairs. cbn [pubkey nk_key_id nk_signature nested wrapping_pubkey sig_kind].
    repeat (apply list.Forall_app; split); try (by apply Forall_push_bytes).
    + repeat constructor. cbn [snd]. apply fits_u64. unfold is_u64. destruct kd; cbn; lia.
    + destruct ns as [n|]; cbn [push_opt]; [|constructor]. constructor; [|constructor]. cbn [snd].
      destruct (Hk' n eq_refl) as [k2 ->]. by apply IH.
Qed.

Section nks_fields.
Variables (kd : option SigKind) (pk id sg : option (list Z)) (ns : option NodeKeySignature) (wp : option (list Z))
  (rec : Value -> result DecodeError NodeKeySignature).

Lemma nks_field_start k :
  try_fold (nks_field rec) (int_pairs [(1, Integer (sig_kind_to_u8 k))]) (GS None pk id sg ns wp) = Ok (GS (Some k) pk id sg ns wp).
Proof. by destruct k. Qed.
Lemma nks_field_pubkey o : opt_ok field_ok o ->
  try_fold (nks_field rec) (int_pairs (push_bytes 2 o)) (GS kd None id sg ns wp) = Ok (GS kd o id sg ns wp).
Proof. destruct o as [[|x b]|]; [intros []; done|done..]. Qed.
Lemma nks_field_key_id o : opt_ok field_ok o ->
  try_fold (nks_field rec) (int_pairs (push_bytes 3 o)) (GS kd pk None sg ns wp) = Ok (GS kd pk o sg ns wp).
Proof. destruct o as [[|x b]|]; [intros []; done|done..]. Qed.
Lemma nks_field_signature o : opt_ok field_ok o ->
  try_fold (nks_field rec) (int_pairs (push_bytes 4 o)) (GS kd pk id None ns wp) = Ok (GS kd pk id o ns wp).
Proof. destruct o as [[|x b]|]; [intros []; done|done..]. Qed.
Lemma nks_field_nested o : (forall n, o = Some n -> rec (nks_to_value n) = Ok n) ->
  try_fold (nks_field rec) (int_pairs (push_opt 5 nks_to_value o)) (GS kd pk id sg None wp) = Ok (GS kd pk id sg o wp).
Proof. destruct o as [n|]; [|done]. intros Hr. cbn -[nks_to_value]. by rewrite (Hr n). Qed.
Lemma nks_field_wrapping o : opt_ok field_ok o ->
  try_fold (nks_field rec) (int_pairs (push_bytes 6 o)) (GS kd pk id sg ns None) = Ok (GS kd pk id sg ns o).
Proof. destruct o as [[|x b]|]; [intros []; done|done..]. Qed.
End nks_fields.

Lemma nks_value_roundtrip s : nks_ok s -> nks_from_value (nks_to_value s) = Ok s.
Proof.
  induction s as [s IH] using nks_chain_ind. intros Hok. rewrite nks_to_value_eq, int_map_pairs by apply nks_pairs_ascending.
  destruct s as [kd pk id sg ns wp]. destruct Hok as (Hp & Hi & Hs & Hw & Hn).
  cbn [pubkey nk_key_id nk_signature nested wrapping_pubkey] in *.
  unfold nks_pairs. rewrite !int_pairs_app.
  change (nks_from_value (Map ?m)) with (s ← try_fold (nks_field nks_from_value) m (GS None None None None None None);
      kd ← ok_or (gs_kind s) (MissingField 1);
      Ok (NKS kd (gs_pubkey s) (gs_key_id s) (gs_signature s) (gs_nested s) (gs_wrapping s))).
  cbn [pubkey nk_key_id nk_signature nested wrapping_pubkey sig_kind].
  rewrite try_fold_app, nks_field_start. cbn [mbind result_bind].
  rewrite try_fold_app, nks_field_pubkey by done. cbn [mbind result_bind].
  rewrite try_fold_app, nks_field_key_id by done. cbn [mbind result_bind].
  rewrite try_fold_app, nks_field_signature by done. cbn [mbind result_bind].
  rewrite try_fold_app, nks_field_nested. 2: { intros n ->. by apply IH. }
  cbn [mbind result_bind]. by rewrite nks_field_wrapping.
Qed.

Lemma nks_roundtrip s :
  nks_ok s -> (nks_depth s <= MAX_ROTATION_DEPTH)%nat -> zlen (nks_encode s) <= MAX_CBOR_BYTES ->
  nks_decode (nks_encode s) = Ok s.
Proof.
  intros Hok Hd Hl. unfold nks_decode, nks_encode in *. rewrite decode_encode_value; [by apply nks_value_roundtrip| |done].
  pose proof (fits_nks s (15 - nks_depth s) Hok) as Hf. unfold MAX_ROTATION_DEPTH in Hd.
  replace (nks_depth s + 2 + (15 - nks_depth s))%nat with (S MAX_NESTING) in Hf by (unfold MAX_NESTING; lia). done.
Qed.
End codec.

(** ** What verification establishes *)

Section verify.
Context `{Ciborium} `{Blake2s256} `{Ed25519}.

(** The bytes [key] verify the signature of [s] over its digest. *)
Definition signed_with (check : verifying_key -> list Z -> ed_signature -> bool) (key : list Z) (s : NodeKeySignature) : Prop :=
  exists sig_bytes vk sg, nk_signature s = Some sig_bytes /\ parse_verifying_key key = Ok vk /\
    parse_signature sig_bytes = Ok sg /\ check vk (nks_sig_hash s) sg = true.

Definition nested_key (n : NodeKeySignature) : option (list Z) :=
  if bool_decide (sig_kind n = Credential) then Some [] else pubkey n.

(** [vouched key s node_key]: a chain of signatures from [key] to [node_key].
    The innermost one is made by [key] itself; every rotation is made by the key
    that the signature below it certifies. *)
Inductive vouched (key : list Z) : NodeKeySignature -> list Z -> Prop :=
| vouched_direct s node_key :
    sig_kind s = Direct -> pubkey s = Some node_key -> nested s = None ->
    signed_with verify_strict key s -> vouched key s node_key
| vouched_credential s node_key :
    sig_kind s = Credential -> nested s = None -> signed_with verify_strict key s -> vouched key s node_key
| vouched_rotation s node_key n w prev :
    sig_kind s = Rotation -> pubkey s = Some node_key -> nested s = Some n ->
    wrapping_pubkey_recursive n = Ok w -> signed_with verify w s ->
    nested_key n = Some prev -> vouched key n prev -> vouched key s node_key.

Definition verified_details (s : NodeKeySignature) : option RotationDetails :=
  if bool_decide (sig_kind s = Rotation) then Some (rotation_details s) else None.

Lemma check_pubkey_ok s nk :
  check_pubkey s nk = Ok tt <-> sig_kind s = Credential \/ pubkey s = Some nk.
Proof.
  unfold check_pubkey. case_bool_decide as E; [tauto|]. destruct (pubkey s) as [pk|]; [|split; [done|intros [?|?]; done]].
  case_bool_decide; split; try done; [intros _; right; congruence|intros [?|?]; congruence].
Qed.

Lemma nks_depth_nested s n : nested s = Some n -> nks_depth s = S (nks_depth n).
Proof. intros E. destruct s. cbn in *. by rewrite E. Qed.
Lemma nks_depth_leaf s : nested s = None -> nks_depth s = O.
Proof. intros E. destruct s. cbn in *. by rewrite E. Qed.

(** One level of [verify_inner]. *)
Lemma verify_inner_eq s nk key d :
  verify_inner s nk key d =
  if (MAX_ROTATION_DEPTH <? d)%nat then Err RotationTooDeep
  else
    _ ← check_pubkey s nk;
    match sig_kind s with
    | Direct | Credential =>
        if is_some (nested s) then Err UnexpectedNested
        else
          sig_bytes ← ok_or (nk_signature s) MissingSignature;
          vk ← parse_verifying_key key;
          sig ← parse_signature sig_bytes;
          if verify_strict vk (nks_sig_hash s) sig then Ok None else Err SignatureFailed
    | Rotation =>
        match nested s with
        | None => Err MissingNested
        | Some n =>
            w ← wrapping_pubkey_recursive n;
            wrapping_vk ← parse_verifying_key w;
            sig_bytes ← ok_or (nk_signature s) MissingSignature;
            sig ← parse_signature sig_bytes;
            if negb (verify wrapping_vk (nks_sig_hash s) sig) then Err SignatureFailed
            else
              nested_pubkey ← (if bool_decide (sig_kind n = Credential) then Ok [] else ok_or (pubkey n) MissingPubkey);
              _ ← verify_inner n nested_pubkey key (S d);
              Ok (Some (rotation_details s))
        end
    | SigInvalid => Err InvalidSigKind'
    end.
Proof. by destruct s as [kd pk id sg [n|] wp]. Qed.

Lemma verify_leaf_inv s key (r : option RotationDetails) :
  (if is_some (nested s) then Err UnexpectedNested
   else
     sig_bytes ← ok_or (nk_signature s) MissingSignature;
     vk ← parse_verifying_key key;
     sig ← parse_signature sig_bytes;
     if verify_strict vk (nks_sig_hash s) sig then Ok None else Err SignatureFailed) = Ok r ->
  nested s = None /\ signed_with verify_strict key s /\ r = None.
Proof.
  destruct (nested s); cbn [is_some]; [done|]. intros (sb & Hsb%ok_or_inv & Hr)%result_bind_inv.
  apply result_bind_inv in Hr as (vk & Hvk & Hr). apply result_bind_inv in Hr as (sg & Hsg & Hr).
  destruct (verify_strict _ _ _) eqn:E; [|done]. injection Hr as <-. split; [done|]. split; [|done]. by exists sb, vk, sg.
Qed.

Lemma verify_inner_sound s : forall nk key d r,
  verify_inner s nk key d = Ok r ->
  vouched key s nk /\ (nks_depth s + d <= MAX_ROTATION_DEPTH)%nat /\ r = verified_details s.
Proof.
  induction s as [s IH] using nks_chain_ind. intros nk key d r Hr. rewrite verify_inner_eq in Hr.
  destruct (Nat.ltb_spec MAX_ROTATION_DEPTH d) as [|Hd]; [done|]. apply result_bind_inv in Hr as ([] & Hpk & Hr).
  apply check_pubkey_ok in Hpk. unfold verified_details. destruct (sig_kind s) eqn:Ek; [done| | |].
  - apply verify_leaf_inv in Hr as (Hn & Hs & ->). rewrite (nks_depth_leaf _ Hn). split; [|done].
    destruct Hpk as [?|Hpk]; [done|]. by apply vouched_direct.
  - destruct (nested s) as [n|] eqn:En; [|done]. apply result_bind_inv in Hr as (w & Hw & Hr).
    apply result_bind_inv in Hr as (vk & Hvk & Hr). apply result_bind_inv in Hr as (sb & Hsb%ok_or_inv & Hr).
    apply result_bind_inv in Hr as (sg & Hsg & Hr). destruct (verify _ _ _) eqn:Ev; [|done]. cbn [negb] in Hr.
    apply result_bind_inv in Hr as (prev & Hprev & Hr). apply result_bind_inv in Hr as (r' & Hv & [= <-]).
    apply (IH n eq_refl) in Hv as (Hv & Hdn & _). rewrite (nks_depth_nested _ _ En). split; [|split; [lia|done]].
    destruct Hpk as [?|Hpk]; [done|]. eapply vouched_rotation; [done|done|done|done| | |exact Hv].
    + by exists sb, vk, sg.
    + unfold nested_key. case_bool_decide; [by injection Hprev as <-|by apply ok_or_inv in Hprev].
  - apply verify_leaf_inv in Hr as (Hn & Hs & ->). rewrite (nks_depth_leaf _ Hn). split; [|done]. by apply vouched_credential.
Qed.

Lemma verify_inner_complete s : forall nk key d,
  vouched key s nk -> (nks_depth s + d <= MAX_ROTATION_DEPTH)%nat -> verify_inner s nk key d = Ok (verified_details s).
Proof.
  induction s as [s IH] using nks_chain_ind. intros nk key d Hv Hd. rewrite verify_inner_eq.
  rewrite (proj2 (Nat.ltb_ge _ _)) by lia. unfold verified_details.
  destruct Hv as [s nk Ek Hpk Hn (sb & vk & sg & E1 & E2 & E3 & E4)|s nk Ek Hn (sb & vk & sg & E1 & E2 & E3 & E4)
                 |s nk n w prev Ek Hpk Hn Hw (sb & vk & sg & E1 & E2 & E3 & E4) Hprev Hv].
  - rewrite (proj2 (check_pubkey_ok s nk)) by (by right). by rewrite Ek, Hn, E1, E2; cbn; rewrite E3; cbn; rewrite E4.
  - rewrite (proj2 (check_pubkey_ok s nk)) by (by left). by rewrite Ek, Hn, E1, E2; cbn; rewrite E3; cbn; rewrite E4.
  - rewrite (proj2 (check_pubkey_ok s nk)) by (by right). rewrite Ek, Hn, Hw. cbn [mbind result_bind]. rewrite E2, E1.
    cbn [mbind result_bind ok_or]. rewrite E3. cbn [mbind result_bind]. rewrite E4. cbn [negb].
    rewrite (nks_depth_nested _ _ Hn) in Hd. assert ((if bool_decide (sig_kind n = Credential) then Ok [] else ok_or (pubkey n) MissingPubkey) = Ok prev) as ->.
    { unfold nested_key in Hprev. case_bool_decide; [by injection Hprev as <-|by rewrite Hprev]. }
    cbn [mbind result_bind]. rewrite (IH n Hn prev key (S d) Hv) by lia. done.
Qed.
End verify.
