(* ===== verification/TkaChonk.v ===== *)
(** * Storage of authority updates: the trait and the in-memory store of [tka/src/chonk.rs]

    [Chonk] is the trait, an operation being a function of the store that gives
    the store back with its result; [ChonkLaws] says what every implementation
    promises about the updates it holds ([view]) and its hint ([hint]), errors
    of the medium included.  [MemChonk] keeps the promise. *)

From S2P Require Import Prelude Bytes Order Utf8 Crypto Cbor TkaAum.

(** ** Stateful computations that may fail *)

Definition prog (S E A : Type) : Type := S -> S * result E A.
#[global] Instance prog_ret {S E} : MRet (prog S E) := fun A a s => (s, Ok a).
#[global] Instance prog_bind {S E} : MBind (prog S E) := fun A B f m s =>
  match m s with
  | (s, Ok a) => f a s
  | (s, Err e) => (s, Err e)
  end.
Definition throw {S E A} (e : E) : prog S E A := fun s => (s, Err e).
(** A result that does not touch the store. *)
Definition lift {S E A} (r : result E A) : prog S E A := fun s => (s, r).
(** [m.map_err(f)?]. *)
Definition prog_map_err {S E F A} (f : E -> F) (m : prog S E A) : prog S F A :=
  fun s => let '(s, r) := m s in (s, map_err f r).
(** [match m { Ok(_) => .., Err(_) => .. }]. *)
Definition attempt {S E F A} (m : prog S E A) : prog S F (result E A) :=
  fun s => let '(s, r) := m s in (s, Ok r).

Inductive ChonkError : Type :=
| NotFound (h : list Z)
| Io
| Corrupt (reason : string)
| InvalidRoot (reason : string)
| LockPoisoned.
Definition is_not_found (e : ChonkError) : bool := match e with NotFound _ => true | _ => false end.

Class Chonk (S : Type) : Type := {
  c_aum : list Z -> prog S ChonkError Aum;
  c_child_aums : list Z -> prog S ChonkError (list Aum);
  c_heads : prog S ChonkError (list Aum);
  c_last_active_ancestor : prog S ChonkError (option (list Z));
  c_set_last_active_ancestor : list Z -> prog S ChonkError unit;
  c_store_verified_aums : list Aum -> prog S ChonkError nat }.

Section laws.
Context `{Ciborium} `{Blake2s256}.

(** The updates of a batch, by hash. *)
Definition batch (l : list Aum) : gmap (list Z) Aum := list_to_map (map (fun a => (hash a, a)) l).

(** [a] is stored and has [h] as its parent; [a] is stored and is no one's parent. *)
Definition child_in (v : gmap (list Z) Aum) (h : list Z) (a : Aum) : Prop := v !! hash a = Some a /\ parent a = Some h.
Definition head_in (v : gmap (list Z) Aum) (a : Aum) : Prop :=
  v !! hash a = Some a /\ forall b, ~ child_in v (hash a) b.

Class ChonkLaws (S : Type) `{!Chonk S} : Type := {
  good : S -> Prop;
  view : S -> gmap (list Z) Aum;
  hint : S -> option (list Z);
  view_hash : forall s h a, good s -> view s !! h = Some a -> hash a = h;
  aum_law : forall s h s' r, good s -> c_aum h s = (s', r) ->
    (good s' /\ view s' = view s /\ hint s' = hint s) /\
    match r with Ok a => view s !! h = Some a | Err (NotFound h') => view s !! h = None | Err _ => True end;
  child_law : forall s h s' r, good s -> c_child_aums h s = (s', r) ->
    (good s' /\ view s' = view s /\ hint s' = hint s) /\
    match r with Ok l => NoDup l /\ forall a, a ∈ l <-> child_in (view s) h a | Err _ => True end;
  heads_law : forall s s' r, good s -> c_heads s = (s', r) ->
    (good s' /\ view s' = view s /\ hint s' = hint s) /\
    match r with Ok l => NoDup l /\ forall a, a ∈ l <-> head_in (view s) a | Err _ => True end;
  last_law : forall s s' r, good s -> c_last_active_ancestor s = (s', r) ->
    (good s' /\ view s' = view s /\ hint s' = hint s) /\
    match r with Ok o => o = hint s | Err _ => True end;
  set_last_law : forall s h s' r, good s -> c_set_last_active_ancestor h s = (s', r) ->
    (good s' /\ view s' = view s) /\
    match r with Ok _ => hint s' = Some h | Err _ => True end;
  store_law : forall s l s' r, good s -> c_store_verified_aums l s = (s', r) ->
    (good s' /\ hint s' = hint s /\ view s ⊆ view s' /\ view s' ⊆ view s ∪ batch l) /\
    match r with Ok _ => view s' = view s ∪ batch l | Err _ => True end }.

(** ** [MemChonk] *)

Record MemState : Type := {
  m_aums : gmap (list Z) Aum; m_children : gmap (list Z) (list (list Z)); m_last_active : option (list Z) }.

Definition mem_new : MemState := {| m_aums := ∅; m_children := ∅; m_last_active := None |}.

Definition mem_aum (h : list Z) : prog MemState ChonkError Aum := fun s =>
  (s, ok_or (m_aums s !! h) (NotFound h)).

Definition children_of (s : MemState) (h : list Z) : list (list Z) := default [] (m_children s !! h).

Definition mem_child_aums (h : list Z) : prog MemState ChonkError (list Aum) := fun s =>
  (s, Ok (omap (fun child => m_aums s !! child) (children_of s h))).

Definition mem_heads : prog MemState ChonkError (list Aum) := fun s =>
  (s, Ok (sort_by (fun a b => bytes_cmp (hash a) (hash b))
            (map snd (filter (fun e => children_of s e.1 = []) (map_to_list (m_aums s)))))).

Definition mem_last_active_ancestor : prog MemState ChonkError (option (list Z)) := fun s => (s, Ok (m_last_active s)).
Definition mem_set_last_active_ancestor (h : list Z) : prog MemState ChonkError unit := fun s =>
  ({| m_aums := m_aums s; m_children := m_children s; m_last_active := Some h |}, Ok tt).

(** The body of the loop of [store_verified_aums]. *)
Definition mem_store_one (si : MemState * nat) (a : Aum) : MemState * nat :=
  let '(s, inserted) := si in
  let h := hash a in
  if is_some (m_aums s !! h) then (s, inserted)
  else
    let children :=
      match parent a with
      | Some p =>
          let l := children_of s p in
          <[p := if bool_decide (h ∈ l) then l else l ++ [h]]> (m_children s)
      | None => m_children s
      end in
    ({| m_aums := <[h := a]> (m_aums s); m_children := children; m_last_active := m_last_active s |}, S inserted).

Definition mem_store_verified_aums (l : list Aum) : prog MemState ChonkError nat := fun s =>
  let '(s, inserted) := foldl mem_store_one (s, O) l in (s, Ok inserted).

#[global] Instance mem_chonk : Chonk MemState := {|
  c_aum := mem_aum; c_child_aums := mem_child_aums; c_heads := mem_heads;
  c_last_active_ancestor := mem_last_active_ancestor;
  c_set_last_active_ancestor := mem_set_last_active_ancestor;
  c_store_verified_aums := mem_store_verified_aums |}.

(** Updates are stored under their hash, and the children of a hash are the
    stored updates that name it as parent, each once. *)
Record mem_good (s : MemState) : Prop := {
  mg_hash : forall h a, m_aums s !! h = Some a -> hash a = h;
  mg_nodup : forall p, NoDup (children_of s p);
  mg_children : forall p h, h ∈ children_of s p <-> exists a, m_aums s !! h = Some a /\ parent a = Some p }.

Lemma mem_new_good : mem_good mem_new.
Proof.
  split; unfold children_of; cbn; intros *; rewrite ?lookup_empty; try done; [constructor|]. cbn.
  split; [by intros ?%elem_of_nil|]. by intros (a & Ha & _).
Qed.

Lemma union_present (v : gmap (list Z) Aum) h a b : v !! h = Some b -> v ∪ {[h := a]} = v.
Proof.
  intros E. apply map_eq. intros k. destruct (decide (k = h)) as [->|Hk].
  - rewrite E. by apply lookup_union_Some_l.
  - destruct (v !! k) as [x|] eqn:Ek; [by apply lookup_union_Some_l|].
    rewrite lookup_union_r by done. by apply lookup_singleton_ne.
Qed.

Lemma batch_one a : batch [a] = {[hash a := a]}.
Proof. done. Qed.

(** An update that is already stored changes nothing; a new one is stored under
    its hash and becomes a child of its parent. *)
Lemma mem_store_one_spec s n a :
  mem_good s -> let s' := (mem_store_one (s, n) a).1 in
  mem_good s' /\ m_last_active s' = m_last_active s /\ m_aums s' = m_aums s ∪ {[hash a := a]}.
Proof.
  intros [Hh Hn Hc]. unfold mem_store_one. destruct (m_aums s !! hash a) as [b|] eqn:E; cbn [is_some fst].
  { split; [by split|]. split; [done|]. by rewrite (union_present _ _ _ _ E). }
  split; [|split; [done|by apply insert_union_singleton_r]].
  assert (forall p, children_of {| m_aums := <[hash a := a]> (m_aums s);
      m_children := match parent a with
        | Some p => <[p := if bool_decide (hash a ∈ children_of s p) then children_of s p else children_of s p ++ [hash a]]> (m_children s)
        | None => m_children s end; m_last_active := m_last_active s |} p =
    if bool_decide (parent a = Some p) then children_of s p ++ [hash a] else children_of s p) as Hch.
  { intros p. unfold children_of at 1. cbn [m_children]. destruct (parent a) as [q|] eqn:Ep; [|done].
    rewrite bool_decide_false with (P := hash a ∈ children_of s q) by (rewrite Hc; intros (x & Hx & _); congruence).
    case_bool_decide as Hq.
    - injection Hq as ->. by rewrite lookup_insert_eq.
    - rewrite lookup_insert_ne by congruence. done. }
  split.
  - intros h x. cbn [m_aums]. rewrite lookup_insert_Some. intros [[<- <-]|[_ Hx]]; [done|by apply Hh].
  - intros p. rewrite Hch. case_bool_decide; [|done]. apply list.NoDup_app. split; [done|]. split; [|apply NoDup_singleton].
    intros h (x & Hx & _)%Hc ->%list_elem_of_singleton. congruence.
  - intros p h. rewrite Hch. cbn [m_aums].
    assert (h ∈ children_of s p -> h <> hash a) as Hne by (intros (x & Hx & _)%Hc ->; congruence).
    transitivity (h ∈ children_of s p \/ (parent a = Some p /\ h = hash a)).
    { case_bool_decide; [rewrite elem_of_app, list_elem_of_singleton|]; tauto. }
    rewrite Hc. split.
    + intros [(x & Hx & Hp)|[Hp ->]]; [exists x|exists a; by rewrite lookup_insert_eq].
      rewrite lookup_insert_ne; [done|]. intros <-. congruence.
    + intros (x & Hx & Hp). apply lookup_insert_Some in Hx as [[<- <-]|[_ Hx]]; [by right|left; by exists x].
Qed.

Lemma batch_snoc (l : list Aum) (a : Aum) (v : gmap (list Z) Aum) : v ∪ batch (l ++ [a]) = (v ∪ batch l) ∪ {[hash a := a]}.
Proof.
  rewrite <- (map_union_assoc v). f_equal. unfold batch. rewrite map_app, list_to_map_app. cbn. by rewrite insert_empty.
Qed.

Lemma mem_store_spec l : forall s n, mem_good s -> let s' := (foldl mem_store_one (s, n) l).1 in
  mem_good s' /\ m_last_active s' = m_last_active s /\ m_aums s' = m_aums s ∪ batch l.
Proof.
  induction l as [|a l IH] using rev_ind; intros s n Hs; cbn [foldl].
  { change (batch []) with (∅ : gmap (list Z) Aum). by rewrite map_union_empty. }
  rewrite foldl_app. cbn [foldl]. destruct (IH s n Hs) as (H1 & H2 & H3).
  destruct (foldl mem_store_one (s, n) l) as [s1 n1]. cbn [fst] in *.
  destruct (mem_store_one_spec s1 n1 a H1) as (H4 & H5 & H6). split; [done|]. split; [congruence|].
  by rewrite H6, H3, batch_snoc.
Qed.

Lemma mem_child_spec s h : mem_good s ->
  NoDup (omap (fun child => m_aums s !! child) (children_of s h)) /\
  forall a, a ∈ omap (fun child => m_aums s !! child) (children_of s h) <-> child_in (m_aums s) h a.
Proof.
  intros [Hh Hn Hc]. split.
  - assert (forall l, NoDup l -> NoDup (omap (fun child => m_aums s !! child) l)) as Hl; [|by apply Hl].
    induction 1 as [|x l Hx Hl IH]; cbn; [constructor|]. destruct (m_aums s !! x) as [a|] eqn:E; [|done].
    constructor; [|done]. intros (y & Hy & Ey)%list_elem_of_omap. apply Hh in E as <-. apply Hh in Ey as <-. done.
  - intros a. unfold child_in. rewrite list_elem_of_omap. split.
    + intros (y & (b & Hb & Hp)%Hc & Hy). assert (a = b) as -> by congruence. by rewrite (Hh _ _ Hy).
    + intros [Ha Hp]. exists (hash a). split; [|done]. apply Hc. by exists a.
Qed.

Lemma mem_heads_spec s : mem_good s ->
  let l := map snd (filter (fun e => children_of s e.1 = []) (map_to_list (m_aums s))) in
  NoDup l /\ forall a, a ∈ l <-> head_in (m_aums s) a.
Proof.
  intros [Hh Hn Hc] l.
  assert (forall e, e ∈ filter (fun e => children_of s e.1 = []) (map_to_list (m_aums s)) ->
    m_aums s !! e.1 = Some e.2 /\ e.1 = hash e.2) as He.
  { intros [k a] [_ Hk]%list_elem_of_filter. apply elem_of_map_to_list in Hk. split; [done|]. symmetry. by apply Hh. }
  split.
  - apply NoDup_fmap_2_strong; [|apply list.NoDup_filter, NoDup_map_to_list].
    intros [k1 a1] [k2 a2] H1%He H2%He E. cbn in *. destruct H1 as [_ ->], H2 as [_ ->]. by rewrite E.
  - intros a. unfold l, head_in. rewrite list_elem_of_fmap. split.
    + intros (e & -> & Hin). pose proof (He _ Hin) as [H1 H2]. rewrite <- H2. split; [done|].
      apply list_elem_of_filter in Hin as [Hnil _]. intros b [Hb Hp]. assert (hash b ∈ children_of s e.1) as Hx by (apply Hc; by exists b).
      rewrite Hnil in Hx. by apply elem_of_nil in Hx.
    + intros [Ha Hnone]. exists (hash a, a). split; [done|]. apply list_elem_of_filter. split; [|by apply elem_of_map_to_list].
      cbn. destruct (children_of s (hash a)) as [|x r] eqn:E; [done|]. assert (x ∈ children_of s (hash a)) as (b & Hb & Hp)%Hc by (rewrite E; left).
      exfalso. apply (Hnone b). split; [by rewrite (Hh _ _ Hb)|done].
Qed.

#[global] Instance mem_chonk_laws : ChonkLaws MemState.
Proof.
  refine {| good := mem_good; view := m_aums; hint := m_last_active |}.
  - intros s h a Hs. by apply Hs.
  - intros s h s' r Hs [= <- <-]. split; [done|]. by destruct (m_aums s !! h) eqn:E; cbn.
  - intros s h s' r Hs [= <- <-]. split; [done|]. by apply mem_child_spec.
  - intros s s' r Hs [= <- <-]. split; [done|]. destruct (mem_heads_spec s Hs) as [H1 H2].
    split; [by apply NoDup_sort_by|]. intros a. rewrite elem_of_sort_by. apply H2.
  - intros s s' r Hs [= <- <-]. by split.
  - intros s h s' r Hs [= <- <-]. split; [|done]. split; [|done]. destruct Hs. by split.
  - intros s l s' r Hs E. cbn in E. unfold mem_store_verified_aums in E. destruct (mem_store_spec l s 0 Hs) as (H1 & H2 & H3).
    destruct (foldl mem_store_one (s, 0%nat) l) as [s1 n1]. cbn [fst] in *. injection E as <- <-.
    rewrite H3. split; [|done]. split; [done|]. split; [done|]. split; [apply map_union_subseteq_l|done].
Defined.
End laws.
