(* ===== verification/TkaAuthority.v ===== *)
(** * The key authority: [tka/src/authority.rs], [builder.rs] and [sync.rs]

    Authority state recomputed from stored updates, verification of updates,
    fork choice, informing an authority of updates, building signed updates, and
    the offers by which two authorities find what the other is missing.  All
    operations run over any store ([Chonk]).  Error texts omit interpolated
    numbers and hashes. *)

From S2P Require Import Prelude Bytes Keys Order Utf8 Crypto Cbor TkaAum TkaSig TkaChonk.

Definition MAX_SCAN_ITERATIONS : nat := 2000.

Inductive AuthorityError : Type :=
| Storage (e : ChonkError)
| InvalidAum (msg : string)
| InvalidState (msg : string)
| BadSignature (msg : string)
| Empty
| DistinctChains
| TraversalLimit (n : nat)
| MissingParent (h : list Z)
| EmptyInform
| Signing (msg : string)
| NodeAuthorization (msg : string).

Record Authority : Type := { au_head : Aum; oldest_ancestor : Aum; au_state : State }.

(** [AumSigner]. *)
Definition Signer : Type := list Z -> result string (list Signature).

Section authority.
Context `{Ciborium} `{Blake2s256} `{Ed25519}.

Definition signing_key_signer (sk : signing_key) : Signer := fun h =>
  Ok [{| sg_key_id := signing_public sk; sg_signature := ed_sign sk h |}].

(** ** Verification and fork choice *)

(** One turn of the loop over the signatures of an update. *)
Definition verify_one (state : State) (digest : list Z) (sig : Signature) : result AuthorityError unit :=
  k ← ok_or (state_key state (sg_key_id sig)) (BadSignature "signature uses an untrusted key");
  if negb (bool_decide (k_kind k = Key25519)) then Err (BadSignature "signature uses unsupported key kind")
  else if negb (length (k_public k) =? 32)%nat then Err (BadSignature "signature key has invalid length")
  else
    vk ← ok_or (verifying_key_from_bytes (k_public k)) (BadSignature "signature key is invalid");
    parsed ← ok_or (ed_signature_from_slice (sg_signature sig)) (BadSignature "signature has invalid length");
    if verify_strict vk digest parsed then Ok tt else Err (BadSignature "signature is invalid").

(** [AumHash::from_slice]. *)
Definition hash_from_slice (b : list Z) : option (list Z) := if (length b =? 32)%nat then Some b else None.

Definition verify_aum (a : Aum) (state : State) (genesis : bool) : result AuthorityError unit :=
  _ ← map_err InvalidAum (validate a);
  _ ← (if negb genesis then
         expected ← ok_or (last_aum_hash state ≫= hash_from_slice) (InvalidState "state has no valid head");
         if negb (bool_decide (parent a = Some expected)) then Err (InvalidAum "parent does not match state head")
         else Ok tt
       else Ok tt);
  if bool_decide (signatures a = []) then Err (InvalidAum "unsigned AUM")
  else
    _ ← try_fold (fun _ sig => verify_one state (sig_hash a) sig) (signatures a) tt;
    match keys state with
    | [k] =>
        if bool_decide (message_kind a = RemoveKey) then
          only ← map_err InvalidState (key_id k);
          if bool_decide (a_key_id a = Some only) then Err (InvalidAum "cannot remove the last trusted key") else Ok tt
        else Ok tt
    | _ => Ok tt
    end.

(** [signature_weight]: the votes of the distinct trusted signers. *)
Fixpoint weigh (state : State) (seen : list (list Z)) (sigs : list Signature) : Z :=
  match sigs with
  | [] => 0
  | sig :: sigs =>
      if bool_decide (sg_key_id sig ∈ seen) then weigh state seen sigs
      else match state_key state (sg_key_id sig) with Some k => k_votes k | None => 0 end +
           weigh state (sg_key_id sig :: seen) sigs
  end.
Definition signature_weight (state : State) (a : Aum) : Z := wrap64 (weigh state [] (signatures a)).

Definition is_remove (a : Aum) : bool := bool_decide (message_kind a = RemoveKey).
Definition compare_candidates (state : State) (left right : Aum) : comparison :=
  then_with (signature_weight state right ?= signature_weight state left)
    (then_with
      (match is_remove left, is_remove right with
       | true, false => Lt
       | false, true => Gt
       | _, _ => Eq
       end)
      (bytes_cmp (hash left) (hash right))).

(** [candidates.sort_by(..); candidates.remove(0)] of the non-empty vector [c :: cs]. *)
Definition pick_next (state : State) (c : Aum) (cs : list Aum) : Aum :=
  match sort_by (compare_candidates state) (c :: cs) with a :: _ => a | [] => c end.

(** ** Recomputing the authority from a store *)

Section storage.
Context {S : Type} `{!Chonk S}.

Definition storage {A} (m : prog S ChonkError A) : prog S AuthorityError A := prog_map_err Storage m.

(** The loop of [path_to_root], with [n] turns left. *)
Fixpoint path_loop (n : nat) (current : Aum) (seen : list (list Z)) (path : list Aum) : prog S AuthorityError (list Aum) :=
  match n with
  | O => throw (TraversalLimit MAX_SCAN_ITERATIONS)
  | Datatypes.S n =>
      let h := hash current in
      if bool_decide (h ∈ seen) then throw (InvalidState "cycle in AUM chain")
      else
        let path' := path ++ [current] in
        match parent current with
        | None => mret path'
        | Some p =>
            r ← attempt (c_aum p);
            match r with
            | Ok a => path_loop n a (h :: seen) path'
            | Err e =>
                if is_not_found e then
                  if bool_decide (message_kind current = Checkpoint) then mret path' else throw (MissingParent p)
                else throw (Storage e)
            end
        end
  end.
Definition path_to_root (h : Aum) : prog S AuthorityError (list Aum) := path_loop MAX_SCAN_ITERATIONS h [] [].

(** One turn of the replay loop of [state_at]. *)
Definition replay_one (state : State) (update : Aum) : result AuthorityError State :=
  _ ← verify_aum update state false;
  map_err InvalidState (apply_verified state update).

(** The state after the oldest update of a path. *)
Definition anchor_state (genesis : Aum) : result AuthorityError State :=
  if negb (bool_decide (message_kind genesis = Checkpoint))
  then Err (InvalidState "oldest retained AUM must be a checkpoint")
  else
    state ← ok_or (a_state genesis) (InvalidState "retained checkpoint has no state");
    _ ← (if is_some (parent genesis) then
           _ ← map_err InvalidAum (validate genesis);
           if bool_decide (signatures genesis = []) then Err (InvalidAum "unsigned retained checkpoint") else Ok tt
         else verify_aum genesis state true);
    Ok (with_last_aum state genesis).

Definition replay (path : list Aum) : result AuthorityError State :=
  match rev path with
  | [] => Err (InvalidState "empty AUM path")
  | genesis :: updates => state ← anchor_state genesis; try_fold replay_one updates state
  end.

Definition state_at (wanted : list Z) : prog S AuthorityError State :=
  top ← storage (c_aum wanted);
  path ← path_to_root top;
  lift (replay path).

(** The loop of [fast_forward], with [n] turns left. *)
Fixpoint forward_loop (n : nat) (current : Aum) (state : State) : prog S AuthorityError (Aum * State) :=
  match n with
  | O => throw (TraversalLimit MAX_SCAN_ITERATIONS)
  | Datatypes.S n =>
      children ← storage (c_child_aums (hash current));
      match children with
      | [] => mret (current, state)
      | c :: cs =>
          _ ← lift (try_fold (fun _ child => verify_aum child state false) (c :: cs) tt);
          let next := pick_next state c cs in
          state ← lift (map_err InvalidState (apply_verified state next));
          forward_loop n next state
      end
  end.
Definition fast_forward (oldest : Aum) : prog S AuthorityError (Aum * State) :=
  state ← state_at (hash oldest);
  forward_loop MAX_SCAN_ITERATIONS oldest state.

(** The loop of [open] over the heads; [roots] maps the hash of a root to the
    root and whether a path through the hint leads to it. *)
Fixpoint collect_roots (hint : option (list Z)) (heads : list Aum) (roots : gmap (list Z) (Aum * bool))
  : prog S AuthorityError (gmap (list Z) (Aum * bool)) :=
  match heads with
  | [] => mret roots
  | h :: heads =>
      path ← path_to_root h;
      match list.last path with
      | None => throw (InvalidState "path always contains head")
      | Some root =>
          let intersects := match hint with Some x => existsb (fun a => bool_decide (hash a = x)) path | None => false end in
          let entry := match roots !! hash root with
                       | Some (r, b) => (r, b || intersects)
                       | None => (root, intersects)
                       end in
          collect_roots hint heads (<[hash root := entry]> roots)
      end
  end.

Definition select_root (roots : gmap (list Z) (Aum * bool)) : result AuthorityError Aum :=
  match map snd (map_to_list roots) with
  | [(root, _)] => Ok root
  | values => match filter (fun e => e.2 = true) values with
              | [(root, _)] => Ok root
              | _ => Err DistinctChains
              end
  end.

Definition authority_open : prog S AuthorityError Authority :=
  heads ← storage c_heads;
  match heads with
  | [] => throw Empty
  | _ =>
      hint ← storage c_last_active_ancestor;
      roots ← collect_roots hint heads ∅;
      oldest ← lift (select_root roots);
      hs ← fast_forward oldest;
      mret {| au_head := hs.1; oldest_ancestor := oldest; au_state := hs.2 |}
  end.

Definition bootstrap (b : Aum) : prog S AuthorityError Authority :=
  heads ← storage c_heads;
  if negb (bool_decide (heads = [])) then throw (InvalidState "Chonk is not empty")
  else if negb (bool_decide (message_kind b = Checkpoint)) then throw (InvalidAum "bootstrap AUM must be a checkpoint")
  else
    genesis_state ← lift (ok_or (a_state b) (InvalidAum "bootstrap checkpoint has no state"));
    _ ← lift (verify_aum b genesis_state true);
    _ ← storage (c_store_verified_aums [b]);
    _ ← storage (c_set_last_active_ancestor (hash b));
    authority_open.

Definition genesis_aum (state : State) (sigs : list Signature) : Aum :=
  {| message_kind := Checkpoint; prev_aum_hash := None; a_key := None; a_key_id := None; a_state := Some state;
     a_votes := None; a_meta := None; signatures := sigs |}.
Definition authority_create (state : State) (signer : Signer) : prog S AuthorityError (Authority * Aum) :=
  let genesis := genesis_aum state [] in
  _ ← lift (map_err InvalidState (validate genesis));
  sigs ← lift (map_err Signing (signer (sig_hash genesis)));
  let genesis := genesis_aum state sigs in
  authority ← bootstrap genesis;
  mret (authority, genesis).

Definition head_hash (au : Authority) : list Z := hash (au_head au).

(** The loop of [inform] over the updates. *)
Fixpoint stage_loop (updates : list Aum) (states : gmap (list Z) State) (staged : list Aum)
  : prog S AuthorityError (list Aum) :=
  match updates with
  | [] => mret staged
  | update :: updates =>
      let h := hash update in
      r ← attempt (c_aum h);
      match r with
      | Ok _ => stage_loop updates states staged
      | Err e =>
          if negb (is_not_found e) then throw (Storage e)
          else
            p ← lift (ok_or (parent update) (InvalidAum "update has no valid parent"));
            parent_state ← (match states !! p with Some state => mret state | None => state_at p end);
            _ ← lift (map_err (fun _ => InvalidAum "update") (verify_aum update parent_state false));
            next ← lift (map_err (fun _ => InvalidState "update") (apply_verified parent_state update));
            stage_loop updates (<[h := next]> states) (staged ++ [update])
      end
  end.

(** [inform]: the authority itself is replaced only when all went well. *)
Definition inform (au : Authority) (updates : list Aum) : prog S AuthorityError Authority :=
  if bool_decide (updates = []) then throw EmptyInform
  else
    staged ← stage_loop updates {[head_hash au := au_state au]} [];
    _ ← storage (c_store_verified_aums staged);
    authority_open.

End storage.

(** ** Reading the authority *)

Definition key_trusted (au : Authority) (id : list Z) : bool := is_some (state_key (au_state au) id).
Definition valid_disablement `{Argon2id} (au : Authority) (secret : list Z) : bool :=
  check_disablement secret (disablement_values (au_state au)).

Definition node_key_authorized (au : Authority) (node_key marshaled : list Z)
  : result AuthorityError (option RotationDetails) :=
  signature ← map_err (fun _ => NodeAuthorization "decode") (nks_decode marshaled);
  if bool_decide (sig_kind signature = Credential)
  then Err (NodeAuthorization "credential signatures cannot authorize nodes directly")
  else
    id ← ok_or (authorizing_key_id signature) (NodeAuthorization "signature has no authorizing key ID");
    k ← ok_or (state_key (au_state au) id) (NodeAuthorization "authorizing key is not trusted");
    map_err (fun _ => NodeAuthorization "verify") (verify_signature signature node_key (k_public k)).

(** ** [builder.rs] *)

Definition MAX_KEYS : nat := 512.
Definition CHECKPOINT_EVERY : nat := 50.

Record UpdateBuilder : Type := {
  ub_authority : Authority; ub_signer : option Signer; ub_state : State; ub_parent : list Z; ub_updates : list Aum }.

Definition new_updater (au : Authority) (signer : option Signer) : UpdateBuilder :=
  {| ub_authority := au; ub_signer := signer; ub_state := au_state au; ub_parent := head_hash au; ub_updates := [] |}.

Definition update_aum (kind : AumKind) (prev : option (list Z)) (k : option Key) (id : option (list Z)) (st : option State)
  (votes : option Z) (meta : option Meta) (sigs : list Signature) : Aum :=
  {| message_kind := kind; prev_aum_hash := prev; a_key := k; a_key_id := id; a_state := st; a_votes := votes;
     a_meta := meta; signatures := sigs |}.
Definition with_prev (p : list Z) (a : Aum) : Aum :=
  update_aum (message_kind a) (Some p) (a_key a) (a_key_id a) (a_state a) (a_votes a) (a_meta a) (signatures a).
Definition with_signatures (l : list Signature) (a : Aum) : Aum :=
  update_aum (message_kind a) (prev_aum_hash a) (a_key a) (a_key_id a) (a_state a) (a_votes a) (a_meta a) l.

Definition ub_push (b : UpdateBuilder) (update : Aum) : result AuthorityError UpdateBuilder :=
  let update := with_prev (ub_parent b) update in
  update ← (match ub_signer b with
            | Some signer =>
                sigs ← map_err Signing (signer (sig_hash update));
                Ok (with_signatures sigs update)
            | None => Ok update
            end);
  _ ← map_err InvalidAum (validate update);
  state ← map_err InvalidState (apply_verified (ub_state b) update);
  Ok {| ub_authority := ub_authority b; ub_signer := ub_signer b; ub_state := state; ub_parent := hash update;
        ub_updates := ub_updates b ++ [update] |}.

Definition ub_add_key (b : UpdateBuilder) (k : Key) : result AuthorityError UpdateBuilder :=
  _ ← map_err InvalidState (key_validate k);
  id ← map_err InvalidState (key_id k);
  if is_some (state_key (ub_state b) id) then Err (InvalidState "key already exists")
  else if (MAX_KEYS <=? length (keys (ub_state b)))%nat then Err (InvalidState "maximum number of trusted keys reached")
  else ub_push b (update_aum AddKey None (Some k) None None None None []).

Definition ub_remove_key (b : UpdateBuilder) (id : list Z) : result AuthorityError UpdateBuilder :=
  if negb (is_some (state_key (ub_state b) id)) then Err (InvalidState "key not found")
  else ub_push b (update_aum RemoveKey None None (Some id) None None None []).

Definition ub_set_key_votes (b : UpdateBuilder) (id : list Z) (votes : Z) : result AuthorityError UpdateBuilder :=
  if negb (is_some (state_key (ub_state b) id)) then Err (InvalidState "key not found")
  else ub_push b (update_aum UpdateKey None None (Some id) None (Some votes) None []).

Definition ub_set_key_meta (b : UpdateBuilder) (id : list Z) (meta : Meta) : result AuthorityError UpdateBuilder :=
  if negb (is_some (state_key (ub_state b) id)) then Err (InvalidState "key not found")
  else ub_push b (update_aum UpdateKey None None (Some id) None None (Some meta) []).

Definition ub_checkpoint (b : UpdateBuilder) : result AuthorityError UpdateBuilder :=
  ub_push b (update_aum Checkpoint None None None (Some (with_last None (ub_state b))) None None []).

Section storage2.
Context {S : Type} `{!Chonk S}.

(** The search of [finalize] for a recent checkpoint; [true] when none was found. *)
Fixpoint need_checkpoint (n : nat) (cursor : list Z) : prog S AuthorityError bool :=
  match n with
  | O => mret true
  | Datatypes.S n =>
      r ← attempt (c_aum cursor);
      match r with
      | Err e => if is_not_found e then mret false else throw (Storage e)
      | Ok a =>
          if bool_decide (message_kind a = Checkpoint) then mret false
          else match parent a with Some p => need_checkpoint n p | None => mret false end
      end
  end.

Definition ub_finalize (b : UpdateBuilder) : prog S AuthorityError (list Aum) :=
  need ← need_checkpoint (CHECKPOINT_EVERY - length (ub_updates b)) (head_hash (ub_authority b));
  b ← lift (if need : bool then ub_checkpoint b else Ok b);
  match ub_updates b with
  | first :: _ =>
      if negb (bool_decide (parent first = Some (head_hash (ub_authority b))))
      then throw (InvalidState "updates no longer apply to authority head")
      else mret (ub_updates b)
  | [] => mret (ub_updates b)
  end.

(** ** [sync.rs] *)

Record SyncOffer : Type := { so_head : list Z; so_ancestors : list (list Z) }.

Inductive SyncError : Type :=
| SyncAuthority (e : AuthorityError)
| NoIntersection
| BrokenActiveChain
| TooManyAncestors (n : nat).

Definition ANCESTORS_SKIP_START : nat := 4.
Definition ANCESTORS_SKIP_SHIFT : nat := 2.
Definition MAX_SYNC_HEAD_ITERATIONS : nat := 400.
Definition MAX_SYNC_ANCESTORS : nat := 64.

(** The loop of [active_path]; [reverse] is the path so far, newest first. *)
Fixpoint active_loop (n : nat) (oldest cursor : list Z) (reverse : list Aum) : prog S SyncError (list Aum) :=
  match n with
  | O => throw (SyncAuthority (TraversalLimit MAX_SCAN_ITERATIONS))
  | Datatypes.S n =>
      a ← prog_map_err (fun e => SyncAuthority (Storage e)) (c_aum cursor);
      let reverse := reverse ++ [a] in
      if bool_decide (cursor = oldest) then mret (rev reverse)
      else
        p ← lift (ok_or (parent a) BrokenActiveChain);
        active_loop n oldest p reverse
  end.
Definition active_path (au : Authority) : prog S SyncError (list Aum) :=
  active_loop MAX_SCAN_ITERATIONS (hash (oldest_ancestor au)) (head_hash au) [].

(** The sampling loop of [sync_offer], from [distance] on for [n] turns. *)
Fixpoint sample_loop (n distance skip : nat) (path : list Aum) (ancestors : list (list Z)) : run (list (list Z)) :=
  match n with
  | O => Ret ancestors
  | Datatypes.S n =>
      if (distance mod skip =? 0)%nat then
        i ← sub_usize (length path - 1) distance;
        a ← idx path i;
        sample_loop n (distance + 1) (Nat.shiftl skip ANCESTORS_SKIP_SHIFT) path (ancestors ++ [hash a])
      else sample_loop n (distance + 1) skip path ancestors
  end.

Definition sync_offer (au : Authority) : S -> run (S * result SyncError SyncOffer) := fun s =>
  match active_path au s with
  | (s, Err e) => Ret (s, Err e)
  | (s, Ok path) =>
      head_index ← sub_usize (length path) 1;
      ancestors ← sample_loop (head_index `min` MAX_SYNC_HEAD_ITERATIONS) 1 ANCESTORS_SKIP_START path [];
      let oldest := hash (oldest_ancestor au) in
      let ancestors := if bool_decide (list.last ancestors = Some oldest) then ancestors else ancestors ++ [oldest] in
      Ret (s, Ok {| so_head := head_hash au; so_ancestors := ancestors |})
  end.

(** [HashMap] from hash to index: the last of equal hashes wins. *)
Definition positions (path : list Aum) : gmap (list Z) nat :=
  foldl (fun m e => <[hash e.2 := e.1]> m) ∅ (imap (fun i a => (i, a)) path).

Fixpoint first_known (pos : gmap (list Z) nat) (hs : list (list Z)) : option nat :=
  match hs with
  | [] => None
  | h :: hs => match pos !! h with Some i => Some i | None => first_known pos hs end
  end.

(** [&path[index + 1..]]: the index is one of the path's. *)
Definition missing_aums (au : Authority) (remote : SyncOffer) : prog S SyncError (list Aum) :=
  if (MAX_SYNC_ANCESTORS <? length (so_ancestors remote))%nat then throw (TooManyAncestors (length (so_ancestors remote)))
  else if bool_decide (so_head remote = head_hash au) then mret []
  else
    path ← active_path au;
    match first_known (positions path) (so_head remote :: so_ancestors remote) with
    | Some i => mret (drop (i + 1) path)
    | None => throw NoIntersection
    end.

End storage2.
End authority.
