(* ===== verification/TkaTrust.v ===== *)
(** * Trust in the key authority is rooted in its genesis

    [reads] is the specification of a computation that only reads the store.
    [chain g path st] says that [st] is reached from the checkpoint [g] by the
    updates of [path], each verified against the keys trusted before it.  Every
    store that was bootstrapped from [g] and then informed of anything holds
    only updates at the end of such chains, and every authority opened from it
    has the state of one. *)

From S2P Require Import Prelude Bytes Keys Order Utf8 Crypto Cbor TkaAum TkaSig TkaChonk TkaAuthority.

Section trust.
Context {CB : Ciborium} {B2 : Blake2s256} {ED : Ed25519}.
Context {S : Type} {CH : Chonk S} {CL : ChonkLaws S}.
Implicit Types (s : S) (v : gmap (list Z) Aum) (o : option (list Z)).

(** ** Computations that read the store *)

Definition reads {E A} v o (m : prog S E A) (Q : A -> Prop) : Prop :=
  forall s s' r, good s -> view s = v -> hint s = o -> m s = (s', r) ->
    (good s' /\ view s' = v /\ hint s' = o) /\ forall a, r = Ok a -> Q a.

Lemma reads_ret {E A} v o (a : A) (Q : A -> Prop) : Q a -> reads (E := E) v o (mret a) Q.
Proof. intros HQ s s' r Hg Hv Ho [= <- <-]. split; [done|]. by intros ? [= <-]. Qed.
Lemma reads_throw {E A} v o (e : E) (Q : A -> Prop) : reads v o (throw e) Q.
Proof. intros s s' r Hg Hv Ho [= <- <-]. split; [done|]. done. Qed.
Lemma reads_lift {E A} v o (r : result E A) (Q : A -> Prop) : (forall a, r = Ok a -> Q a) -> reads v o (lift r) Q.
Proof. intros HQ s s' r' Hg Hv Ho [= <- <-]. split; [done|]. done. Qed.
Lemma reads_bind {E A B} v o (m : prog S E A) (f : A -> prog S E B) (Q : A -> Prop) (R : B -> Prop) :
  reads v o m Q -> (forall a, Q a -> reads v o (f a) R) -> reads v o (m ≫= f) R.
Proof.
  intros Hm Hf s s' r Hg Hv Ho E'. unfold mbind, prog_bind in E'. destruct (m s) as [s1 r1] eqn:E1.
  destruct (Hm _ _ _ Hg Hv Ho E1) as [(Hg1 & Hv1 & Ho1) HQ]. destruct r1 as [a|e].
  - exact (Hf a (HQ a eq_refl) _ _ _ Hg1 Hv1 Ho1 E').
  - injection E' as <- <-. by split.
Qed.
Lemma reads_attempt {E F A} v o (m : prog S E A) (Q : result E A -> Prop) :
  (forall s s' r, good s -> view s = v -> hint s = o -> m s = (s', r) -> (good s' /\ view s' = v /\ hint s' = o) /\ Q r) ->
  reads (E := F) v o (attempt m) Q.
Proof.
  intros Hm s s' r Hg Hv Ho E'. unfold attempt in E'. destruct (m s) as [s1 r1] eqn:E1. injection E' as <- <-.
  destruct (Hm _ _ _ Hg Hv Ho E1) as [H3 HQ]. split; [done|]. by intros ? [= <-].
Qed.
Lemma reads_storage {E A} v o (f : ChonkError -> E) (m : prog S ChonkError A) (Q : A -> Prop) :
  reads v o m Q -> reads v o (prog_map_err f m) Q.
Proof.
  intros Hm s s' r Hg Hv Ho E'. unfold prog_map_err in E'. destruct (m s) as [s1 r1] eqn:E1. injection E' as <- <-.
  destruct (Hm _ _ _ Hg Hv Ho E1) as [H3 HQ]. split; [done|]. intros a Ha%map_err_inv. by apply HQ.
Qed.
Lemma reads_weaken {E A} v o (m : prog S E A) (Q R : A -> Prop) : (forall a, Q a -> R a) -> reads v o m Q -> reads v o m R.
Proof. intros HQR Hm s s' r Hg Hv Ho E'. destruct (Hm _ _ _ Hg Hv Ho E'). split; [done|]. auto. Qed.

Lemma reads_aum v o h : reads v o (c_aum h) (fun a => v !! h = Some a).
Proof.
  intros s s' r Hg <- <- E'. destruct (aum_law s h s' r Hg E') as [H3 HQ]. split; [done|]. intros a ->. exact HQ.
Qed.
Lemma reads_attempt_aum {F} v o h : reads (E := F) v o (attempt (c_aum h)) (fun r =>
  match r with Ok a => v !! h = Some a | Err (NotFound _) => v !! h = None | Err _ => True end).
Proof. apply reads_attempt. intros s s' r Hg <- <- E'. apply (aum_law s h s' r Hg E'). Qed.
Lemma reads_children v o h :
  reads v o (c_child_aums h) (fun l => NoDup l /\ forall a, a ∈ l <-> child_in v h a).
Proof. intros s s' r Hg <- <- E'. destruct (child_law s h s' r Hg E') as [H3 HQ]. split; [done|]. by intros l ->. Qed.
Lemma reads_heads v o : reads v o c_heads (fun l => NoDup l /\ forall a, a ∈ l <-> head_in v a).
Proof. intros s s' r Hg <- <- E'. destruct (heads_law s s' r Hg E') as [H3 HQ]. split; [done|]. by intros l ->. Qed.
Lemma reads_last v o : reads v o c_last_active_ancestor (fun x => x = o).
Proof. intros s s' r Hg <- <- E'. destruct (last_law s s' r Hg E') as [H3 HQ]. split; [done|]. by intros l ->. Qed.

(** ** Paths to the root *)

(** The stored updates from [a] down to an update without a parent, or to a
    checkpoint whose parent was purged. *)
Inductive ancestry v : Aum -> list Aum -> Prop :=
| anc_root a : parent a = None -> ancestry v a [a]
| anc_cut a p : parent a = Some p -> v !! p = None -> message_kind a = Checkpoint -> ancestry v a [a]
| anc_step a p b path : parent a = Some p -> v !! p = Some b -> ancestry v b path -> ancestry v a (a :: path).

Lemma ancestry_unique v a p1 : ancestry v a p1 -> forall p2, ancestry v a p2 -> p1 = p2.
Proof.
  induction 1 as [a Hp|a p Hp Hn Hk|a p b path Hp Hb _ IH]; intros p2; inversion 1; subst; try done; try congruence.
  f_equal. apply IH. assert (b0 = b) as <- by congruence. done.
Qed.

Lemma reads_path v o n : forall a seen path,
  reads v o (path_loop n a seen path) (fun p => exists q, p = path ++ q /\ ancestry v a q).
Proof.
  induction n as [|n IH]; intros a seen path; cbn [path_loop]; [apply reads_throw|].
  case_bool_decide; [apply reads_throw|]. destruct (parent a) as [p|] eqn:Ep.
  2: { apply reads_ret. exists [a]. split; [done|]. by apply anc_root. }
  eapply reads_bind; [apply reads_attempt_aum|]. intros [b|e] Hb.
  - eapply reads_weaken; [|apply IH]. cbn. intros q' (q & -> & Hq). exists (a :: q). rewrite <- app_assoc. split; [done|].
    by eapply anc_step.
  - destruct e as [h'| | | |]; cbn [is_not_found]; try apply reads_throw.
    case_bool_decide as Hk; [|apply reads_throw]. apply reads_ret. exists [a]. split; [done|]. by eapply anc_cut.
Qed.

Lemma reads_path_to_root v o a : reads v o (path_to_root a) (ancestry v a).
Proof. eapply reads_weaken; [|apply reads_path]. cbn. by intros q' (q & -> & Hq). Qed.

Lemma reads_state_at v o h :
  reads v o (state_at h) (fun st => exists top path, v !! h = Some top /\ ancestry v top path /\ replay path = Ok st).
Proof.
  unfold state_at. eapply reads_bind; [apply reads_storage, reads_aum|]. intros top Htop.
  eapply reads_bind; [apply reads_path_to_root|]. intros path Hpath. apply reads_lift. intros st Hst. by exists top, path.
Qed.

Lemma ancestry_hd v a path : ancestry v a path -> exists q, path = a :: q.
Proof. destruct 1; eauto. Qed.

(** Every update of the path is stored, when the first is, and the last one has
    no parent in the store. *)
Lemma ancestry_stored v a path :
  ancestry v a path -> v !! hash a = Some a -> (forall h b, v !! h = Some b -> hash b = h) ->
  Forall (fun b => v !! hash b = Some b) path.
Proof.
  intros Ha Hs Hv. induction Ha as [a Hp|a p Hp Hn Hk|a p b path Hp Hb Ha IH]; [by constructor|by constructor|].
  constructor; [done|]. apply IH. by rewrite (Hv _ _ Hb).
Qed.

(** ** Chains of verified updates *)

Inductive chain (g : Aum) : list Aum -> State -> Prop :=
| chain_root st : anchor_state g = Ok st -> chain g [] st
| chain_step path st u st' : chain g path st -> replay_one st u = Ok st' -> chain g (path ++ [u]) st'.

(** [st] is the state of a chain from [g] that ends in [a]. *)
Definition rooted (g : Aum) (a : Aum) (st : State) : Prop := exists path, chain g path st /\ list.last (g :: path) = Some a.

Lemma rooted_step g a st u st' : rooted g a st -> replay_one st u = Ok st' -> rooted g u st'.
Proof.
  intros (path & Hc & Hl) Hr. exists (path ++ [u]). split; [by eapply chain_step|].
  change (g :: path ++ [u]) with ((g :: path) ++ [u]). apply last_snoc.
Qed.

Lemma rooted_replay g us : forall a st st',
  rooted g a st -> try_fold replay_one us st = Ok st' -> exists b, rooted g b st' /\ list.last (a :: us) = Some b.
Proof.
  induction us as [|u us IH]; intros a st st' Hr E; cbn in E; [injection E as <-; eauto|].
  apply result_bind_inv in E as (st1 & E1 & E). destruct (IH u st1 st' (rooted_step _ _ _ _ _ Hr E1) E) as (b & Hb & Hl).
  exists b. split; [done|]. by rewrite last_cons_cons.
Qed.

(** A retained checkpoint gives the state it gave when it was first applied. *)
Lemma rooted_anchor g a st st0 : rooted g a st -> anchor_state a = Ok st0 -> st0 = st.
Proof.
  intros (path & Hc & Hl) Ha. destruct Hc as [st Hg|path st1 u st' Hc Hr].
  - injection Hl as ->. congruence.
  - change (g :: path ++ [u]) with ((g :: path) ++ [u]) in Hl. rewrite last_snoc in Hl. injection Hl as ->.
    unfold anchor_state in Ha. case_bool_decide as Hk; [|done]. cbn [negb] in Ha.
    apply result_bind_inv in Ha as (c & Hc'%ok_or_inv & Ha). apply result_bind_inv in Ha as ([] & _ & [= <-]).
    unfold replay_one in Hr. apply result_bind_inv in Hr as ([] & _ & Hr%map_err_inv). unfold apply_verified in Hr.
    destruct (match last_aum_hash st1 with Some _ => _ | None => _ end); [done|].
    apply result_bind_inv in Hr as (out & Hout & [= <-]). unfold apply_kind in Hout. rewrite Hk, Hc' in Hout.
    cbn [ok_or mbind result_bind] in Hout. destruct (_ || _); [done|]. by injection Hout as ->.
Qed.

(** The store holds updates under their hashes, all of them at the end of a
    chain from [g]. *)
Definition all_rooted (g : Aum) v : Prop := forall h a, v !! h = Some a -> hash a = h /\ exists st, rooted g a st.

Lemma replay_rooted g v top path st :
  all_rooted g v -> v !! hash top = Some top -> ancestry v top path -> replay path = Ok st -> rooted g top st.
Proof.
  intros Hv Htop Ha Hr. pose proof (ancestry_stored _ _ _ Ha Htop (fun h b E => proj1 (Hv h b E))) as Hst.
  apply ancestry_hd in Ha as [q ->]. unfold replay in Hr.
  assert (list.last (rev (top :: q)) = Some top) as Hlast by (cbn [rev]; apply last_snoc).
  assert (forall b, b ∈ rev (top :: q) -> v !! hash b = Some b) as Hall.
  { intros b Hb. rewrite list.Forall_forall in Hst. apply Hst. by apply list_elem_of_In, in_rev, list_elem_of_In. }
  destruct (rev (top :: q)) as [|r us]; [done|].
  apply result_bind_inv in Hr as (st0 & H0 & Hr). destruct (Hv _ _ (Hall r ltac:(left))) as [_ [str Hroot]].
  rewrite (rooted_anchor _ _ _ _ Hroot H0) in Hr. destruct (rooted_replay _ _ _ _ _ Hroot Hr) as (b & Hb & Hl). congruence.
Qed.

Lemma reads_state_at_rooted g v o h :
  all_rooted g v -> reads v o (state_at h) (fun st => exists a, v !! h = Some a /\ rooted g a st).
Proof.
  intros Hv. eapply reads_weaken; [|apply reads_state_at]. cbn. intros st (top & path & Htop & Ha & Hr).
  destruct (Hv _ _ Htop) as [Hh _]. exists top. split; [done|]. eapply replay_rooted; [done| |done|done]. by rewrite Hh.
Qed.

(** ** Opening *)

(** One step along the active chain: all children verify, and the chosen one is
    ahead of all others. *)
Definition best_child v (a : Aum) (st : State) (next : Aum) : Prop :=
  child_in v (hash a) next /\
  forall b, child_in v (hash a) b -> b = next \/ compare_candidates st next b = Lt.

Inductive forward v : Aum -> State -> Aum -> State -> Prop :=
| fw_stop a st : (forall b, ~ child_in v (hash a) b) -> forward v a st a st
| fw_step a st next st' h sth :
    best_child v a st next -> (forall b, child_in v (hash a) b -> verify_aum b st false = Ok tt) ->
    apply_verified st next = Ok st' -> forward v next st' h sth -> forward v a st h sth.

#[global] Instance compare_candidates_comparator st : Comparator (compare_candidates st).
Proof.
  apply (comparator_then (fun l r => signature_weight st r ?= signature_weight st l)).
  - apply (comparator_opp (fun l r => signature_weight st l ?= signature_weight st r)).
    apply (comparator_on (signature_weight st)), comparator_Z.
  - apply comparator_then; [|by apply comparator_on, _].
    split; [intros x y; by destruct (is_remove x), (is_remove y)|].
    intros x y z. by destruct (is_remove x), (is_remove y), (is_remove z).
Qed.

Lemma compare_candidates_eq st a b : compare_candidates st a b = Eq -> hash a = hash b.
Proof.
  unfold compare_candidates. destruct (_ ?= _); cbn; [|done|done].
  destruct (is_remove a), (is_remove b); cbn; try done; by intros ?%bytes_cmp_eq.
Qed.

Lemma sort_by_head {A} (cmp : A -> A -> comparison) {HC : Comparator cmp} c cs a l :
  sort_by cmp (c :: cs) = a :: l -> a ∈ c :: cs /\ forall b, b ∈ c :: cs -> cmp a b <> Gt.
Proof.
  intros E. pose proof (sort_by_sorted cmp (c :: cs)) as Hs. rewrite E in Hs.
  assert (forall x, x ∈ c :: cs <-> x ∈ a :: l) as Hm by (intros x; rewrite <- E; by rewrite elem_of_sort_by).
  split; [apply Hm; left|]. intros b Hb%Hm. apply elem_of_cons in Hb as [->|Hb].
  - intros Hgt. pose proof (cmp_opp a a) as Ho. rewrite Hgt in Ho. done.
  - inversion_clear Hs as [|? ? _ Hf]. rewrite list.Forall_forall in Hf. by apply Hf.
Qed.

Lemma pick_next_best v a st c cs :
  (forall h b, v !! h = Some b -> hash b = h) -> (forall b, b ∈ c :: cs <-> child_in v (hash a) b) ->
  best_child v a st (pick_next st c cs).
Proof.
  intros Hv Hc. unfold pick_next. destruct (sort_by (compare_candidates st) (c :: cs)) as [|x l] eqn:E.
  { pose proof (sort_by_perm (compare_candidates st) (c :: cs)) as Hp. rewrite E in Hp. by apply Permutation_nil_cons in Hp. }
  destruct (sort_by_head _ _ _ _ _ E) as [Hx Hmin]. split; [by apply Hc|]. intros b Hb. apply Hc in Hb as Hb'. specialize (Hmin b Hb').
  destruct (compare_candidates st x b) eqn:Ec; [left|by right|done].
  apply compare_candidates_eq in Ec. apply Hc in Hx as [Hx _]. destruct Hb as [Hb _]. rewrite Ec in Hx. congruence.
Qed.

Lemma try_fold_unit {E A} (f : A -> result E unit) l :
  try_fold (fun _ x => f x) l tt = Ok tt <-> forall x, x ∈ l -> f x = Ok tt.
Proof.
  induction l as [|x l IH]; cbn [try_fold]; [split; [by intros _ ? ?%elem_of_nil|done]|].
  destruct (f x) as [[]|e] eqn:E1; cbn [mbind result_bind].
  - rewrite IH. split; [intros Hl y [->|Hy]%elem_of_cons; auto|]. intros Hl y Hy. apply Hl. by right.
  - split; [done|]. intros Hl. rewrite Hl in E1 by left. done.
Qed.

Definition keyed v : Prop := forall h b, v !! h = Some b -> hash b = h.

Lemma reads_forward v o n : keyed v -> forall a st,
  reads v o (forward_loop n a st) (fun hs => forward v a st hs.1 hs.2).
Proof.
  intros Hv. induction n as [|n IH]; intros a st; cbn [forward_loop]; [apply reads_throw|].
  eapply reads_bind; [apply reads_storage, reads_children|]. intros [|c cs] [_ Hc].
  - apply reads_ret. apply fw_stop. intros b Hb. apply Hc in Hb. by apply elem_of_nil in Hb.
  - eapply reads_bind; [apply (reads_lift _ _ _ (fun _ => forall b, child_in v (hash a) b -> verify_aum b st false = Ok tt))|].
    { intros [] E1. rewrite try_fold_unit in E1. intros b Hb. by apply E1, Hc. }
    intros ? Hall. eapply reads_bind; [apply (reads_lift _ _ _ (fun st' => apply_verified st (pick_next st c cs) = Ok st'))|].
    { intros st' Hst. by apply map_err_inv in Hst. }
    intros st' Hst. eapply reads_weaken; [|apply IH]. cbn. intros hs Hf. eapply fw_step; [by apply pick_next_best|exact Hall|exact Hst|exact Hf].
Qed.

Lemma forward_rooted g v a st h sth : rooted g a st -> forward v a st h sth -> rooted g h sth.
Proof.
  intros Hr Hf. induction Hf as [|a st next st' h sth Hb Hall Ha Hf IH]; [done|]. apply IH. eapply rooted_step; [exact Hr|].
  unfold replay_one. rewrite (Hall next (proj1 Hb)). cbn. by rewrite Ha.
Qed.

(** The root the code chooses is a stored update. *)
Lemma reads_collect v o hs : keyed v -> Forall (fun a => v !! hash a = Some a) hs -> forall ho roots,
  (forall h e, roots !! h = Some e -> v !! h = Some e.1) ->
  reads v o (collect_roots ho hs roots) (fun roots => forall h e, roots !! h = Some e -> v !! h = Some e.1).
Proof.
  intros Hv. induction 1 as [|a hs Ha _ IH]; intros ho roots Hr; cbn [collect_roots]; [by apply reads_ret|].
  eapply reads_bind; [apply reads_path_to_root|]. intros path Hp.
  destruct (list.last path) as [root|] eqn:El; [|apply reads_throw]. apply IH. intros h e.
  rewrite lookup_insert_Some. intros [[<- <-]|[_ He]]; [|by apply Hr].
  pose proof (ancestry_stored _ _ _ Hp Ha Hv) as Hst. rewrite list.Forall_forall in Hst.
  assert (v !! hash root = Some root) as Hroot by (apply Hst; by eapply last_Some_elem_of).
  destruct (roots !! hash root) as [[r b]|] eqn:Er; [|done]. by apply Hr in Er.
Qed.

Lemma select_root_stored v roots r :
  (forall h e, roots !! h = Some e -> v !! h = Some e.1) -> keyed v -> select_root roots = Ok r -> v !! hash r = Some r.
Proof.
  intros Hr Hv Hs. assert (forall e, e ∈ map snd (map_to_list roots) -> v !! hash e.1 = Some e.1) as Hall.
  { intros e ([h e'] & -> & Hin)%list_elem_of_fmap. apply elem_of_map_to_list, Hr in Hin. cbn. by rewrite (Hv _ _ Hin). }
  unfold select_root in Hs. set (l := map snd (map_to_list roots)) in *.
  assert (forall l', (forall e, e ∈ l' -> e ∈ l) -> (match l' with [(x, _)] => Ok x | _ => Err DistinctChains end) = Ok r -> v !! hash r = Some r) as Hgo.
  { intros [|[x b] [|y l']] Hin E; try done. injection E as <-. apply (Hall (x, b)). apply Hin. left. }
  destruct l as [|[x b] [|y l']] eqn:El.
  - by apply (Hgo []).
  - by apply (Hgo [(x, b)]).
  - eapply Hgo; [|exact Hs]. intros e He. by apply list_elem_of_filter in He as [_ He].
Qed.

Lemma reads_open g v o : all_rooted g v ->
  reads v o authority_open (fun au => rooted g (au_head au) (au_state au)).
Proof.
  intros Hv. assert (keyed v) as Hk by (intros h b E; by apply Hv in E as [E _]).
  unfold authority_open. eapply reads_bind; [apply reads_storage, reads_heads|]. intros hs [_ Hhs].
  destruct hs as [|h0 hs]; [apply reads_throw|]. eapply reads_bind; [apply reads_storage, reads_last|]. intros ho _.
  eapply reads_bind; [apply reads_collect; [done| |by intros ? ? ?%lookup_empty_Some]|].
  { apply list.Forall_forall. intros a Ha. by apply Hhs in Ha as [Ha _]. }
  intros roots Hroots. eapply reads_bind; [apply (reads_lift _ _ _ (fun r => v !! hash r = Some r))|].
  { intros r Hr. exact (select_root_stored v roots r Hroots Hk Hr). }
  intros old Hold. eapply (reads_bind _ _ _ _ (fun hs => rooted g hs.1 hs.2)); [|intros hs' Hf; by apply reads_ret].
  unfold fast_forward. eapply reads_bind; [by apply (reads_state_at_rooted g)|]. intros st (a & Ha & Hr).
  assert (a = old) as -> by congruence. eapply reads_weaken; [|by apply reads_forward].
  intros hs' Hf. exact (forward_rooted _ _ _ _ _ _ Hr Hf).
Qed.

(** ** Bootstrapping and informing *)

Lemma all_rooted_subset g v v' : all_rooted g v -> v' ⊆ v -> all_rooted g v'.
Proof. intros Hv Hs h a Ha. apply Hv. by eapply lookup_weaken. Qed.

Lemma batch_lookup l h a : batch l !! h = Some a -> a ∈ l /\ hash a = h.
Proof.
  intros Hb%elem_of_list_to_map_2. apply list_elem_of_fmap in Hb as (x & [= -> ->] & Hx). done.
Qed.

Lemma all_rooted_batch g v l : all_rooted g v -> Forall (fun a => exists st, rooted g a st) l -> all_rooted g (v ∪ batch l).
Proof.
  intros Hv Hl h a. rewrite lookup_union_Some_raw. intros [Ha|[_ Ha]]; [by apply Hv|].
  apply batch_lookup in Ha as [Ha Hh]. split; [done|]. rewrite list.Forall_forall in Hl. by apply Hl.
Qed.

(** Every staged update extends a chain from [g]: its parent state is the
    authority's, that of an update staged before, or one replayed from the store. *)
Lemma reads_stage g v o us : all_rooted g v -> forall states staged,
  (forall h st, states !! h = Some st -> exists a, rooted g a st) ->
  Forall (fun a => exists st, rooted g a st) staged ->
  reads v o (stage_loop us states staged) (Forall (fun a => exists st, rooted g a st)).
Proof.
  intros Hv. induction us as [|u us IH]; intros states staged Hst Hsg; cbn [stage_loop]; [by apply reads_ret|].
  eapply reads_bind; [apply reads_attempt_aum|]. intros [a|e] _; [by apply IH|].
  destruct (negb (is_not_found e)); [apply reads_throw|].
  eapply reads_bind; [apply (reads_lift _ _ _ (fun _ => True)); done|]. intros p _.
  eapply (reads_bind _ _ _ _ (fun st => exists a, rooted g a st)).
  { destruct (states !! p) as [st|] eqn:Ep; [apply reads_ret; by eapply Hst|].
    eapply reads_weaken; [|by apply (reads_state_at_rooted g)]. intros st (a & _ & Hr). by exists a. }
  intros st [a Hr]. eapply reads_bind; [apply (reads_lift _ _ _ (fun _ => verify_aum u st false = Ok tt))|].
  { by intros [] ?%map_err_inv. }
  intros ? Hver. eapply reads_bind; [apply (reads_lift _ _ _ (fun next => apply_verified st u = Ok next))|].
  { by intros next ?%map_err_inv. }
  intros next Hnext. assert (rooted g u next) as Hu.
  { eapply rooted_step; [exact Hr|]. unfold replay_one. rewrite Hver. cbn. by rewrite Hnext. }
  apply IH.
  - intros h st2. rewrite lookup_insert_Some. intros [[_ <-]|[_ E]]; [by exists u|by eapply Hst].
  - apply list.Forall_app. split; [done|]. constructor; [by exists next|constructor].
Qed.

(** A store and an authority that trace back to [g]. *)
Definition authority_rooted (g : Aum) (au : Authority) : Prop := rooted g (au_head au) (au_state au).

Lemma open_keeps g s s' r :
  good s -> all_rooted g (view s) -> authority_open s = (s', r) ->
  good s' /\ all_rooted g (view s') /\ forall au, r = Ok au -> authority_rooted g au.
Proof.
  intros Hg Hv E. destruct (reads_open g _ _ Hv s s' r Hg eq_refl eq_refl E) as [(Hg' & Hv' & _) Hr]. by rewrite Hv'.
Qed.

Lemma store_keeps g s l s' r :
  good s -> all_rooted g (view s) -> Forall (fun a => exists st, rooted g a st) l ->
  storage (c_store_verified_aums l) s = (s', r) -> good s' /\ all_rooted g (view s').
Proof.
  intros Hg Hv Hl E. unfold storage, prog_map_err in E. destruct (c_store_verified_aums l s) as [s1 r1] eqn:E1.
  injection E as <- <-. destruct (store_law s l s1 r1 Hg E1) as [(Hg1 & _ & _ & Hsub) _]. split; [done|].
  eapply all_rooted_subset; [by apply all_rooted_batch|done].
Qed.

Lemma inform_keeps g au us s s' r :
  good s -> all_rooted g (view s) -> authority_rooted g au -> inform au us s = (s', r) ->
  good s' /\ all_rooted g (view s') /\ forall au', r = Ok au' -> authority_rooted g au'.
Proof.
  intros Hg Hv Hau E. unfold inform in E. destruct (bool_decide (us = [])); [injection E as <- <-; done|].
  unfold mbind, prog_bind in E. destruct (stage_loop us _ [] s) as [s1 r1] eqn:E1.
  eapply (reads_stage g) in E1 as [(Hg1 & Hv1 & _) Hst]; [|exact Hv| |constructor|done|done|done].
  2: { intros h st. rewrite lookup_singleton_Some. intros [_ <-]. by exists (au_head au). }
  destruct r1 as [staged|e]; [|injection E as <- <-; by rewrite Hv1].
  destruct (storage (c_store_verified_aums staged) s1) as [s2 r2] eqn:E2.
  apply (store_keeps g) in E2 as [Hg2 Hv2]; [|done|by rewrite Hv1|by apply Hst].
  destruct r2; [exact (open_keeps _ _ _ _ Hg2 Hv2 E)|injection E as <- <-; done].
Qed.

Lemma verify_anchor g st :
  message_kind g = Checkpoint -> a_state g = Some st -> verify_aum g st true = Ok tt ->
  anchor_state g = Ok (with_last_aum st g).
Proof.
  intros Hk Hs Hv. unfold anchor_state. rewrite bool_decide_true, Hs by done. cbn [negb ok_or mbind result_bind].
  destruct (is_some (parent g)); [|by rewrite Hv]. unfold verify_aum in Hv.
  apply result_bind_inv in Hv as ([] & Hv1 & Hv). rewrite Hv1. cbn [mbind result_bind negb] in Hv |- *.
  case_bool_decide; done.
Qed.

Lemma bootstrap_keeps g s s' r :
  good s -> view s = ∅ -> bootstrap g s = (s', r) ->
  good s' /\ all_rooted g (view s') /\ forall au, r = Ok au -> authority_rooted g au.
Proof.
  intros Hg Hv E. assert (all_rooted g (view s)) as Hr0 by (rewrite Hv; by intros h a ?%lookup_empty_Some).
  unfold bootstrap in E. unfold mbind, prog_bind in E. destruct (storage c_heads s) as [s1 r1] eqn:E1.
  eapply reads_storage in E1 as [(Hg1 & Hv1 & _) _]; [|apply reads_heads|done|done|done].
  rewrite Hv, <- Hv1 in Hr0. clear Hv Hv1 Hg.
  destruct r1 as [hs|e]; [|injection E as <- <-; done].
  destruct (negb (bool_decide (hs = []))); [injection E as <- <-; done|].
  case_bool_decide as Hk; cbn [negb] in E; [|injection E as <- <-; done].
  unfold lift in E. destruct (a_state g) as [st|] eqn:Est; cbn [ok_or] in E; [|injection E as <- <-; done].
  destruct (verify_aum g st true) as [[]|e] eqn:Ever; [|injection E as <- <-; done].
  destruct (storage (c_store_verified_aums [g]) s1) as [s2 r2] eqn:E2.
  apply (store_keeps g) in E2 as [Hg2 Hv2]; [|done|done|].
  2: { constructor; [|constructor]. eexists. exists []. split; [by eapply chain_root, verify_anchor|done]. }
  destruct r2; [|injection E as <- <-; done]. unfold storage, prog_map_err in E.
  destruct (c_set_last_active_ancestor (hash g) s2) as [s3 r3] eqn:E3.
  apply set_last_law in E3 as [[Hg3 Hv3] _]; [|done]. rewrite <- Hv3 in Hv2.
  destruct r3; cbn [map_err] in E; [exact (open_keeps _ _ _ _ Hg3 Hv2 E)|injection E as <- <-; done].
Qed.

(** ** Histories *)

(** What can happen to a node's store and authority once it was bootstrapped
    from [g]: it is informed of any updates, with success or not, and the
    authority is opened again. *)
Inductive tka_reachable (g : Aum) : S -> option Authority -> Prop :=
| tr_bootstrap s s' r :
    good s -> view s = ∅ -> bootstrap g s = (s', r) ->
    tka_reachable g s' (match r with Ok au => Some au | Err _ => None end)
| tr_inform s au us s' r :
    tka_reachable g s (Some au) -> inform au us s = (s', r) ->
    tka_reachable g s' (match r with Ok au' => Some au' | Err _ => Some au end)
| tr_open s x s' r :
    tka_reachable g s x -> authority_open s = (s', r) ->
    tka_reachable g s' (match r with Ok au => Some au | Err _ => x end).

Lemma tka_reachable_rooted g s x : tka_reachable g s x ->
  good s /\ all_rooted g (view s) /\ forall au, x = Some au -> authority_rooted g au.
Proof.
  induction 1 as [s s' r Hg Hv E|s au us s' r _ (Hg & Hv & Hx) E|s x s' r _ (Hg & Hv & Hx) E].
  - destruct (bootstrap_keeps _ _ _ _ Hg Hv E) as (Hg' & Hv' & Hr). split; [done|]. split; [done|].
    destruct r; [|done]. intros au [= <-]. by apply Hr.
  - destruct (inform_keeps _ _ _ _ _ _ Hg Hv (Hx au eq_refl) E) as (Hg' & Hv' & Hr). split; [done|]. split; [done|].
    destruct r; intros au' [= <-]; auto.
  - destruct (open_keeps _ _ _ _ Hg Hv E) as (Hg' & Hv' & Hr). split; [done|]. split; [done|].
    destruct r; [intros au [= <-]; by apply Hr|done].
Qed.
End trust.
