(* ===== verification/TkaState.v ===== *)
(** * Invariants of the states of a chain

    What validation and verification give, and that every state on a chain of
    verified updates has at least one key, only valid keys, no key twice, sound
    disablement values and the identifiers of its genesis. *)

From S2P Require Import Prelude Bytes Keys Order Utf8 Crypto Cbor TkaAum TkaSig TkaChonk TkaAuthority TkaTrust.

Record state_wf (st : State) : Prop := {
  wf_nonempty : keys st <> [];
  wf_valid : Forall (fun k => key_validate k = Ok tt) (keys st);
  wf_distinct : NoDup (map k_public (keys st));
  wf_dis_count : (1 <= length (disablement_values st) <= 32)%nat;
  wf_dis : Forall (fun d => length d = 32%nat) (disablement_values st) /\ NoDup (disablement_values st) }.

Lemma key_validate_kind k : key_validate k = Ok tt -> k_kind k = Key25519 /\ length (k_public k) = 32%nat.
Proof.
  unfold key_validate. case_bool_decide; cbn [negb]; [|done]. destruct (Nat.eqb_spec (length (k_public k)) 32); cbn [negb]; [|done]. done.
Qed.

Lemma has_id_iff id k : has_id id k = true <-> k_kind k = Key25519 /\ k_public k = id.
Proof.
  unfold has_id, key_id. destruct (k_kind k); [by split; [|intros []]|]. rewrite bool_decide_eq_true. tauto.
Qed.

Lemma state_key_Some st id k : state_key st id = Some k -> k ∈ keys st /\ k_kind k = Key25519 /\ k_public k = id.
Proof. intros [Hin Hid]%find_some. split; [by apply list_elem_of_In|by apply has_id_iff]. Qed.

Lemma state_key_None st id k :
  Forall (fun k => key_validate k = Ok tt) (keys st) -> state_key st id = None -> k ∈ keys st -> k_public k <> id.
Proof.
  intros Hv Hn Hk E. rewrite list.Forall_forall in Hv. destruct (key_validate_kind _ (Hv _ Hk)) as [Hkd _].
  apply list_elem_of_In in Hk. pose proof (find_none _ _ Hn _ Hk) as Hf. by rewrite (proj2 (has_id_iff id k)) in Hf.
Qed.

Lemma position_Some {A} (p : A -> bool) l i : position p l = Some i -> exists x, l !! i = Some x /\ p x = true.
Proof.
  revert i. induction l as [|x l IH]; intros i; cbn; [done|]. destruct (p x) eqn:E; [intros [= <-]; eauto|].
  intros (j & Hj & ->)%fmap_Some. by apply IH.
Qed.

(** ** What validation gives *)

Lemma check_keys_ok l l' : try_fold check_key l [] = Ok l' ->
  l' = l /\ Forall (fun k => key_validate k = Ok tt) l /\ NoDup (map k_public l).
Proof.
  apply (try_fold_inv check_key (fun done acc => acc = done /\ Forall (fun k => key_validate k = Ok tt) done /\ NoDup (map k_public done))).
  { split; [done|]. split; constructor. }
  intros done k s s' (-> & Hv & Hd) E. unfold check_key in E. apply result_bind_inv in E as ([] & Hk & E).
  destruct (key_validate_kind _ Hk) as [Hkd _]. unfold key_id in E. rewrite Hkd in E. cbn [mbind result_bind] in E.
  destruct (existsb _ _) eqn:Ex; [discriminate E|]. injection E as <-. split; [reflexivity|].
  split; [apply list.Forall_app; split; [exact Hv|by constructor]|]. rewrite map_app. apply list.NoDup_app.
  split; [exact Hd|]. split; [|apply NoDup_singleton]. intros x Hx ->%list_elem_of_singleton.
  apply list_elem_of_fmap in Hx as (k' & Hk' & Hin). rewrite list.Forall_forall in Hv.
  assert (existsb (has_id (k_public k)) done = true) as Hc; [|congruence]. apply existsb_elem. exists k'. split; [done|].
  apply has_id_iff. split; [by apply key_validate_kind, Hv|done].
Qed.

Lemma check_dis_ok l l' : try_fold check_disablement_value l [] = Ok l' ->
  l' = l /\ Forall (fun d => length d = 32%nat) l /\ NoDup l.
Proof.
  apply (try_fold_inv check_disablement_value (fun done acc => acc = done /\ Forall (fun d => length d = 32%nat) done /\ NoDup done)).
  { split; [done|]. split; constructor. }
  intros done d s s' (-> & Hv & Hd) E. unfold check_disablement_value in E.
  destruct (Nat.eqb_spec (length d) 32); cbn [negb] in E; [|discriminate E]. case_bool_decide as Hin; [discriminate E|]. injection E as <-.
  split; [reflexivity|]. split; [apply list.Forall_app; split; [exact Hv|by constructor]|].
  apply list.NoDup_app. split; [exact Hd|]. split; [|apply NoDup_singleton]. by intros x Hx ->%list_elem_of_singleton.
Qed.

Lemma validate_checkpoint_wf st : validate_checkpoint st = Ok tt -> state_wf st.
Proof.
  unfold validate_checkpoint. destruct (is_some _); [done|].
  destruct (bool_decide (disablement_values st = [])) eqn:Ed; cbn [orb]; [done|]. apply bool_decide_eq_false in Ed.
  destruct (Nat.ltb_spec 32 (length (disablement_values st))) as [|Hd]; [done|].
  intros (ds & Hds & E)%result_bind_inv. apply check_dis_ok in Hds as (_ & H1 & H2).
  destruct (bool_decide (keys st = [])) eqn:Ek; cbn [orb] in E; [done|]. apply bool_decide_eq_false in Ek.
  destruct (512 <? _)%nat; [done|]. apply result_bind_inv in E as (ks & Hks & _). apply check_keys_ok in Hks as (_ & H3 & H4).
  split; try done. destruct (disablement_values st); [done|]. cbn [length] in *. lia.
Qed.

Lemma validate_parts a : validate a = Ok tt ->
  (forall k, a_key a = Some k -> key_validate k = Ok tt) /\ (forall st, a_state a = Some st -> validate_checkpoint st = Ok tt) /\
  validate_kind a = Ok tt.
Proof.
  unfold validate. destruct (match prev_aum_hash a with Some _ => _ | None => _ end); [done|]. destruct (existsb _ _); [done|].
  intros ([] & H1 & E)%result_bind_inv. apply result_bind_inv in E as ([] & H2 & E).
  split; [intros k Hk; by rewrite Hk in H1|]. split; [intros st Hst; by rewrite Hst in H2|done].
Qed.

Section chain.
Context {CB : Ciborium} {B2 : Blake2s256} {ED : Ed25519}.

(** ** What verification gives *)

(** A signature by a key of the state that verifies over the digest. *)
Definition signed_by_trusted (st : State) (digest : list Z) (sig : Signature) : Prop :=
  exists k vk sg, k ∈ keys st /\ k_public k = sg_key_id sig /\ verifying_key_from_bytes (k_public k) = Some vk /\
    ed_signature_from_slice (sg_signature sig) = Some sg /\ verify_strict vk digest sg = true.

Lemma verify_one_ok st digest sig : verify_one st digest sig = Ok tt -> signed_by_trusted st digest sig.
Proof.
  unfold verify_one. intros (k & Hk%ok_or_inv & E)%result_bind_inv. apply state_key_Some in Hk as (Hin & _ & Hp).
  destruct (negb (bool_decide _)); [done|]. destruct (negb (_ =? _)%nat); [done|].
  apply result_bind_inv in E as (vk & Hvk%ok_or_inv & E). apply result_bind_inv in E as (sg & Hsg%ok_or_inv & E).
  destruct (verify_strict _ _ _) eqn:Ev; [|done]. by exists k, vk, sg.
Qed.

Lemma verify_aum_ok a st gen : verify_aum a st gen = Ok tt ->
  validate a = Ok tt /\ signatures a <> [] /\ Forall (signed_by_trusted st (sig_hash a)) (signatures a) /\
  (gen = false -> exists h, last_aum_hash st = Some h /\ parent a = Some h) /\
  (forall k, keys st = [k] -> k_kind k = Key25519 -> message_kind a = RemoveKey -> a_key_id a <> Some (k_public k)).
Proof.
  unfold verify_aum. intros ([] & Hv%map_err_inv & E)%result_bind_inv. apply result_bind_inv in E as ([] & Hp & E).
  case_bool_decide as Hs; [done|]. apply result_bind_inv in E as ([] & Hsig & E). split; [done|]. split; [done|].
  rewrite try_fold_unit in Hsig. split; [apply list.Forall_forall; intros sig Hin; by apply verify_one_ok, Hsig|]. split.
  - intros ->. cbn [negb] in Hp. apply result_bind_inv in Hp as (h & Hh%ok_or_inv & Hp).
    destruct (last_aum_hash st) as [h'|]; [|done]. cbn in Hh. unfold hash_from_slice in Hh.
    destruct (length h' =? 32)%nat; [|done]. injection Hh as ->. exists h. split; [done|].
    destruct (decide (parent a = Some h)); [done|]. by rewrite bool_decide_false in Hp.
  - intros k Hk Hkd Hr Hid. rewrite Hk in E. rewrite bool_decide_true in E by done. unfold key_id in E. rewrite Hkd in E.
    cbn [map_err mbind result_bind] in E. by rewrite bool_decide_true in E.
Qed.

(** ** The effect of an update *)

Lemma wf_with_keys st ks :
  state_wf st -> ks <> [] -> Forall (fun k => key_validate k = Ok tt) ks -> NoDup (map k_public ks) -> state_wf (with_keys ks st).
Proof. intros [] ? ? ?. by split. Qed.

Lemma remove_key_wf st i k :
  state_wf st -> keys st !! i = Some k -> keys st <> [k] -> state_wf (with_keys (delete i (keys st)) st).
Proof.
  intros Hw Hi Hne. assert (delete i (keys st) `sublist_of` keys st) as Hsub by apply sublist_delete.
  apply wf_with_keys; [done| |apply Forall_delete, Hw|].
  - intros E. apply (f_equal length) in E. rewrite length_delete in E by eauto. destruct (keys st) as [|k1 [|k2 l]]; [done| |done].
    apply list_lookup_singleton_Some in Hi as [_ ->]. done.
  - eapply sublist_NoDup; [apply Hw|]. by apply fmap_sublist.
Qed.

Lemma update_key_wf st i k k' :
  state_wf st -> keys st !! i = Some k -> k_public k' = k_public k -> key_validate k' = Ok tt ->
  state_wf (with_keys (<[i := k']> (keys st)) st).
Proof.
  intros Hw Hi Hp Hv. apply wf_with_keys; [done| | |].
  - intros E. apply (f_equal length) in E. rewrite length_insert in E. destruct (keys st) eqn:Ek; [|done]. by apply Hw.
  - apply Forall_insert; [apply Hw|done].
  - assert (map k_public (<[i := k']> (keys st)) = map k_public (keys st)) as ->; [|apply Hw].
    change (map k_public) with (fmap k_public : list Key -> list (list Z)). rewrite list_fmap_insert, Hp.
    apply list_insert_id. by rewrite list_lookup_fmap, Hi.
Qed.

Lemma apply_kind_wf st u st' :
  state_wf st -> verify_aum u st false = Ok tt -> apply_kind st u = Ok st' ->
  state_wf st' /\ state_id1 st' = state_id1 st /\ state_id2 st' = state_id2 st.
Proof.
  intros Hw Hv Ha. apply verify_aum_ok in Hv as (Hval & _ & _ & _ & Hlast). apply validate_parts in Hval as (Hvk & Hvs & _).
  unfold apply_kind in Ha. destruct (message_kind u) eqn:Ek; [done| | | | |].
  - apply result_bind_inv in Ha as (k & Hk%ok_or_inv & Ha). specialize (Hvk k Hk). destruct (key_validate_kind _ Hvk) as [Hkd _].
    unfold key_id in Ha. rewrite Hkd in Ha. cbn [mbind result_bind] in Ha. destruct (state_key st (k_public k)) eqn:Es; [done|].
    injection Ha as <-. split; [|done]. apply wf_with_keys; [done|by destruct (keys st)| |].
    + apply list.Forall_app. split; [apply Hw|by constructor].
    + rewrite map_app. apply list.NoDup_app. split; [apply Hw|]. split; [|apply NoDup_singleton].
      intros x (k' & -> & Hk')%list_elem_of_fmap Hx%list_elem_of_singleton. by eapply (state_key_None _ _ k'); [apply Hw|exact Es| |].
  - apply result_bind_inv in Ha as (id & Hid%ok_or_inv & Ha). apply result_bind_inv in Ha as (i & Hi%ok_or_inv & [= <-]).
    split; [|done]. apply position_Some in Hi as (k & Hk & [Hkd Hp]%has_id_iff). eapply remove_key_wf; [done|exact Hk|].
    intros E. eapply Hlast; [exact E|done|done|]. congruence.
  - by injection Ha as <-.
  - apply result_bind_inv in Ha as (id & Hid%ok_or_inv & Ha). apply result_bind_inv in Ha as (i & Hi%ok_or_inv & Ha).
    apply result_bind_inv in Ha as (k & Hk%ok_or_inv & Ha). apply result_bind_inv in Ha as ([] & Hval%map_err_inv & [= <-]).
    split; [|done]. by eapply update_key_wf.
  - apply result_bind_inv in Ha as (c & Hc%ok_or_inv & Ha). destruct (Z.eqb_spec (state_id1 c) (state_id1 st)); [|done].
    destruct (Z.eqb_spec (state_id2 c) (state_id2 st)); [|done]. injection Ha as <-. split; [|done]. by apply validate_checkpoint_wf, Hvs.
Qed.

Lemma wf_with_last st h : state_wf st -> state_wf (with_last h st).
Proof. intros []. by split. Qed.

(** ** The invariant *)

Record chain_inv (g : Aum) (a : Aum) (st : State) : Prop := {
  ci_wf : state_wf st;
  ci_last : last_aum_hash st = Some (hash a);
  ci_ids : exists gst, a_state g = Some gst /\ state_id1 st = state_id1 gst /\ state_id2 st = state_id2 gst }.

Lemma anchor_inv g st : anchor_state g = Ok st -> chain_inv g g st.
Proof.
  unfold anchor_state. case_bool_decide as Hk; cbn [negb]; [|done]. intros (gst & Hg%ok_or_inv & E)%result_bind_inv.
  apply result_bind_inv in E as ([] & Hv & [= <-]). assert (validate g = Ok tt) as Hval.
  { destruct (is_some (parent g)); [by apply result_bind_inv in Hv as ([] & Hv%map_err_inv & _)|by apply verify_aum_ok in Hv as [Hv _]]. }
  apply validate_parts in Hval as (_ & Hs & _). split; [by apply wf_with_last, validate_checkpoint_wf, Hs|done|by exists gst].
Qed.

Lemma replay_inv g a st u st' : chain_inv g a st -> replay_one st u = Ok st' -> chain_inv g u st'.
Proof.
  intros [Hw Hl (gst & Hg & H1 & H2)] Hr. unfold replay_one in Hr. apply result_bind_inv in Hr as ([] & Hv & Hr%map_err_inv).
  unfold apply_verified in Hr. destruct (match last_aum_hash st with Some _ => _ | None => _ end); [done|].
  apply result_bind_inv in Hr as (out & Hout & [= <-]). destruct (apply_kind_wf _ _ _ Hw Hv Hout) as (Hw' & E1 & E2).
  split; [by apply wf_with_last|done|]. exists gst. cbn. by rewrite E1, E2.
Qed.

Lemma rooted_inv g a st : rooted g a st -> chain_inv g a st.
Proof.
  intros (path & Hc & Hl). revert a Hl. induction Hc as [st Hg|path st u st' Hc IH Hr]; intros a Hl.
  - injection Hl as <-. by apply anchor_inv.
  - change (g :: path ++ [u]) with ((g :: path) ++ [u]) in Hl. rewrite last_snoc in Hl. injection Hl as <-.
    destruct (list.last (g :: path)) as [b|] eqn:E; [|by apply last_None in E]. eapply replay_inv; [by apply IH|done].
Qed.

(** Along a chain every update is signed, and only by keys trusted just before it. *)
Lemma chain_signed g path st : chain g path st -> forall p1 u p2, path = p1 ++ u :: p2 ->
  exists st1, chain g p1 st1 /\ signatures u <> [] /\ Forall (signed_by_trusted st1 (sig_hash u)) (signatures u).
Proof.
  induction 1 as [st Hg|path st u st' Hc IH Hr]; intros p1 w p2 E; [by destruct p1|].
  destruct p2 as [|y p2 _] using rev_ind.
  - apply app_inj_tail in E as [-> ->]. exists st. split; [done|]. unfold replay_one in Hr.
    apply result_bind_inv in Hr as ([] & Hv & _). by apply verify_aum_ok in Hv as (_ & H1 & H2 & _).
  - rewrite app_comm_cons, app_assoc in E. apply app_inj_tail in E as [-> ->]. by eapply IH.
Qed.
End chain.
