(* ===== verification/TkaFork.v ===== *)
(** * Fork choice makes authorities converge

    What [authority_open] computes is described by a relation on the stored
    updates alone ([authority_of]), and the relation is functional: two stores
    with the same updates and the same hint, whatever their kind and the order in
    which the updates came, open to the same authority. *)

From S2P Require Import Prelude Bytes Keys Order Utf8 Crypto Cbor TkaAum TkaSig TkaChonk TkaAuthority TkaTrust.

Section relation.
Context {CB : Ciborium} {B2 : Blake2s256} {ED : Ed25519}.
Implicit Types (v : gmap (list Z) Aum) (o : option (list Z)).

(** A path that contains the hinted update. *)
Definition through o (path : list Aum) : Prop := exists x b, o = Some x /\ b ∈ path /\ hash b = x.

(** The roots of the heads [hs], each with whether a path through the hint leads to it. *)
Definition roots_of v o (hs : list Aum) (roots : gmap (list Z) (Aum * bool)) : Prop :=
  (forall h r b, roots !! h = Some (r, b) -> hash r = h /\
     (exists a path, a ∈ hs /\ ancestry v a path /\ list.last path = Some r) /\
     (b = true <-> exists a path r', a ∈ hs /\ ancestry v a path /\ list.last path = Some r' /\ hash r' = h /\ through o path)) /\
  (forall a path r, a ∈ hs -> ancestry v a path -> list.last path = Some r -> is_Some (roots !! hash r)).

Definition authority_of v o (au : Authority) : Prop :=
  exists hs roots top path st,
    (forall a, a ∈ hs <-> head_in v a) /\ roots_of v o hs roots /\ select_root roots = Ok (oldest_ancestor au) /\
    v !! hash (oldest_ancestor au) = Some top /\ ancestry v top path /\ replay path = Ok st /\
    forward v (oldest_ancestor au) st (au_head au) (au_state au).

Lemma best_child_unique v a st n1 n2 : best_child v a st n1 -> best_child v a st n2 -> n1 = n2.
Proof.
  intros [C1 B1] [C2 B2']. destruct (B1 _ C2) as [->|L1]; [done|]. destruct (B2' _ C1) as [->|L2]; [done|].
  by rewrite (cmp_opp (cmp := compare_candidates st) n1 n2), L1 in L2.
Qed.

Lemma forward_unique v a st h1 s1 : forward v a st h1 s1 -> forall h2 s2, forward v a st h2 s2 -> h1 = h2 /\ s1 = s2.
Proof.
  induction 1 as [a st Hn|a st next st' h sth Hb Hall Ha Hf IH]; intros h2 s2 H2.
  - inversion H2 as [|? ? next ? ? ? Hb2]; subst; [done|]. exfalso. eapply Hn, Hb2.
  - inversion H2 as [? ? Hn|? ? next2 st2 ? ? Hb2 _ Ha2 Hf2]; subst; [exfalso; eapply Hn, Hb|].
    rewrite <- (best_child_unique _ _ _ _ _ Hb Hb2) in *. assert (st2 = st') as -> by congruence. by apply IH.
Qed.

Lemma roots_of_unique v o hs1 hs2 r1 r2 :
  keyed v -> (forall a, a ∈ hs1 -> v !! hash a = Some a) -> (forall a, a ∈ hs1 <-> a ∈ hs2) ->
  roots_of v o hs1 r1 -> roots_of v o hs2 r2 -> r1 = r2.
Proof.
  intros Hk Hst Heq [A1 A2] [C1 C2]. assert (forall a path r, a ∈ hs1 -> ancestry v a path -> list.last path = Some r -> v !! hash r = Some r) as Hroot.
  { intros a path r Ha Hp Hl. pose proof (ancestry_stored _ _ _ Hp (Hst _ Ha) Hk) as Hf. rewrite list.Forall_forall in Hf.
    apply Hf. by eapply last_Some_elem_of. }
  apply map_eq. intros h. destruct (r1 !! h) as [[r b]|] eqn:E1.
  - destruct (A1 _ _ _ E1) as (<- & (a & path & Ha & Hp & Hl) & Hb). destruct (C2 a path r (proj1 (Heq a) Ha) Hp Hl) as [[r' b'] E2].
    rewrite E2. destruct (C1 _ _ _ E2) as (Hh & (a' & path' & Ha'%Heq & Hp' & Hl') & Hb').
    assert (r = r') as <-. { pose proof (Hroot _ _ _ Ha Hp Hl). pose proof (Hroot _ _ _ Ha' Hp' Hl') as X. rewrite Hh in X. congruence. }
    do 2 f_equal. apply Bool.eq_iff_eq_true. rewrite Hb, Hb'. setoid_rewrite Heq. done.
  - destruct (r2 !! h) as [[r b]|] eqn:E2; [|done]. destruct (C1 _ _ _ E2) as (<- & (a & path & Ha%Heq & Hp & Hl) & _).
    destruct (A2 a path r Ha Hp Hl) as [x Hx]. congruence.
Qed.

Lemma authority_of_unique v o a1 a2 : keyed v -> authority_of v o a1 -> authority_of v o a2 -> a1 = a2.
Proof.
  intros Hk (hs1 & r1 & t1 & p1 & st1 & Hh1 & Hr1 & Ho1 & Ht1 & Hp1 & Hs1 & Hf1) (hs2 & r2 & t2 & p2 & st2 & Hh2 & Hr2 & Ho2 & Ht2 & Hp2 & Hs2 & Hf2).
  assert (r1 = r2) as <-.
  { eapply roots_of_unique; [exact Hk| | |exact Hr1|exact Hr2]; [intros a Ha; by apply Hh1 in Ha as [Ha _]|].
    intros a. by rewrite Hh1, Hh2. }
  assert (oldest_ancestor a1 = oldest_ancestor a2) as Ho by congruence. rewrite <- Ho in *.
  assert (t1 = t2) as <- by congruence. assert (p1 = p2) as <- by (by eapply ancestry_unique). assert (st1 = st2) as <- by congruence.
  destruct (forward_unique _ _ _ _ _ Hf1 _ _ Hf2) as [E1 E2]. destruct a1, a2. cbn in *. congruence.
Qed.
End relation.

Section store.
Context {CB : Ciborium} {B2 : Blake2s256} {ED : Ed25519}.
Context {S : Type} {CH : Chonk S} {CL : ChonkLaws S}.
Implicit Types (v : gmap (list Z) Aum) (o : option (list Z)).

Lemma roots_of_nil v o : roots_of v o [] ∅.
Proof. split; [by intros h r b ?%lookup_empty_Some|]. by intros a path r ?%elem_of_nil. Qed.

Lemma through_dec o path :
  (match o with Some x => existsb (fun a => bool_decide (hash a = x)) path | None => false end) = true <-> through o path.
Proof.
  unfold through. destruct o as [x|].
  - rewrite existsb_elem. split; [intros (b & Hb & E%bool_decide_eq_true); by exists x, b|].
    intros (y & b & [= <-] & Hb & E). exists b. by rewrite bool_decide_eq_true.
  - split; [done|]. by intros (y & b & ? & _).
Qed.

Lemma roots_of_snoc v o hs roots a path r :
  keyed v -> (forall b, b ∈ hs ++ [a] -> v !! hash b = Some b) -> roots_of v o hs roots -> ancestry v a path -> list.last path = Some r ->
  roots_of v o (hs ++ [a]) (<[hash r :=
    match roots !! hash r with
    | Some (r', b) => (r', b || match o with Some x => existsb (fun a => bool_decide (hash a = x)) path | None => false end)
    | None => (r, match o with Some x => existsb (fun a => bool_decide (hash a = x)) path | None => false end)
    end]> roots).
Proof.
  intros Hk Hst [A1 A2] Hp Hl.
  assert (forall b, b ∈ hs -> b ∈ hs ++ [a]) as Hin by (intros b Hb; apply elem_of_app; by left).
  assert (a ∈ hs ++ [a]) as Ha by (apply elem_of_app; right; by apply list_elem_of_singleton).
  assert (forall b path', b ∈ hs ++ [a] -> ancestry v b path' -> b ∈ hs \/ path' = path) as Hcase.
  { intros b path' [Hb|Hb%list_elem_of_singleton]%elem_of_app Hp'; [by left|right]. subst. by eapply ancestry_unique. }
  split.
  - intros h r' b. rewrite lookup_insert_Some. intros [[<- E]|[Hne E]].
    + destruct (roots !! hash r) as [[r0 b0]|] eqn:E0; injection E as <- <-.
      * destruct (A1 _ _ _ E0) as (Hh & (a0 & p0 & H1 & H2 & H3) & Hb). split; [done|]. split; [by exists a0, p0; auto|].
        rewrite orb_true_iff, Hb, through_dec. split.
        -- intros [(a1 & p1 & r1 & X1 & X2 & X3 & X4 & X5)|Ht]; [exists a1, p1, r1; auto|by exists a, path, r].
        -- intros (a1 & p1 & r1 & X1 & X2 & X3 & X4 & X5). destruct (Hcase _ _ X1 X2) as [Y| ->]; [left; by exists a1, p1, r1|by right].
      * split; [done|]. split; [by exists a, path|]. rewrite through_dec. split; [intros Ht; by exists a, path, r|].
        intros (a1 & p1 & r1 & X1 & X2 & X3 & X4 & X5). destruct (Hcase _ _ X1 X2) as [Y| ->]; [|done].
        destruct (A2 a1 p1 r1 Y X2 X3) as [x Hx]. rewrite X4 in Hx. congruence.
    + destruct (A1 _ _ _ E) as (Hh & (a0 & p0 & H1 & H2 & H3) & Hb). split; [done|]. split; [by exists a0, p0; auto|].
      rewrite Hb. split; intros (a1 & p1 & r1 & X1 & X2 & X3 & X4 & X5); exists a1, p1, r1; [by auto|].
      destruct (Hcase _ _ X1 X2) as [Y| ->]; [done|]. assert (r1 = r) as -> by congruence. congruence.
  - intros b p' r' Hb Hp' Hl'. rewrite lookup_insert_is_Some'. destruct (Hcase _ _ Hb Hp') as [Y| ->]; [right; by eapply A2|].
    left. congruence.
Qed.

Lemma reads_collect_of v o hs : keyed v -> forall done roots, (forall b, b ∈ done ++ hs -> v !! hash b = Some b) -> roots_of v o done roots ->
  reads (S := S) v o (collect_roots o hs roots) (roots_of v o (done ++ hs)).
Proof.
  intros Hk. induction hs as [|a hs IH]; intros pre roots Hst Hr; cbn [collect_roots].
  { apply reads_ret. by rewrite app_nil_r. }
  eapply reads_bind; [apply reads_path_to_root|]. intros path Hp.
  destruct (list.last path) as [root|] eqn:El; [|apply reads_throw].
  assert (pre ++ a :: hs = (pre ++ [a]) ++ hs) as E by (by rewrite <- app_assoc). rewrite E in *. apply IH; [done|].
  apply roots_of_snoc; try done. intros b Hb. apply Hst. apply elem_of_app. by left.
Qed.

Lemma reads_open_of v o : keyed v -> reads (S := S) v o authority_open (authority_of v o).
Proof.
  intros Hk. unfold authority_open. eapply reads_bind; [apply reads_storage, reads_heads|]. intros hs [_ Hhs].
  destruct hs as [|h0 hs]; [apply reads_throw|]. eapply reads_bind; [apply reads_storage, reads_last|]. intros ho ->.
  eapply reads_bind; [apply (reads_collect_of v o (h0 :: hs) Hk []); [|apply roots_of_nil]|].
  { intros b Hb. by apply Hhs in Hb as [Hb _]. }
  intros roots Hroots. eapply reads_bind; [apply (reads_lift _ _ _ (fun r => select_root roots = Ok r)); done|].
  intros old Hold. unfold fast_forward.
  eapply (reads_bind _ _ _ _ (fun hs => exists top path st, v !! hash old = Some top /\ ancestry v top path /\ replay path = Ok st /\ forward v old st hs.1 hs.2)).
  - eapply reads_bind; [apply reads_state_at|]. intros st (top & path & H1 & H2 & H3).
    eapply reads_weaken; [|by apply reads_forward]. intros hs' Hf. by exists top, path, st.
  - intros hs' (top & path & st & H1 & H2 & H3 & H4). apply reads_ret. exists (h0 :: hs), roots, top, path, st. done.
Qed.

Lemma view_keyed (s : S) : good s -> keyed (view s).
Proof. intros Hg h b. by apply view_hash. Qed.
End store.
