(* ===== verification/TkaSync.v ===== *)
(** * Synchronization offers

    An offer can always be made and is never too long; what is sent in answer is
    the end of the sender's active chain, in order, and together with what the
    receiver already holds it is the whole chain. *)

From S2P Require Import Prelude Bytes Keys Order Utf8 Crypto Cbor TkaAum TkaSig TkaChonk TkaAuthority TkaTrust.

Section sync.
Context {CB : Ciborium} {B2 : Blake2s256} {ED : Ed25519}.
Implicit Types (v : gmap (list Z) Aum) (o : option (list Z)).

(** ** The active chain *)

(** Consecutive updates: each names the one before it as its parent. *)
Fixpoint linked (l : list Aum) : Prop :=
  match l with
  | a :: (b :: _) as l' => parent b = Some (hash a) /\ linked l'
  | _ => True
  end.

(** The stored updates from the oldest ancestor to the head. *)
Record active v (oldest head : list Z) (path : list Aum) : Prop := {
  ac_stored : Forall (fun a => v !! hash a = Some a) path;
  ac_linked : linked path;
  ac_first : exists a q, path = a :: q /\ hash a = oldest /\ Forall (fun b => hash b <> oldest) q;
  ac_last : exists a, list.last path = Some a /\ hash a = head }.

Lemma linked_cons_last (l : list Aum) a b :
  linked (a :: l) -> parent a = Some (hash b) -> linked (b :: a :: l).
Proof. intros Hl Hp. by split. Qed.

Lemma linked_lookup l i a b : linked l -> l !! i = Some a -> l !! Datatypes.S i = Some b -> parent b = Some (hash a).
Proof.
  revert i. induction l as [|x l IH]; intros i Hl Ha Hb; [done|]. destruct i as [|i].
  - injection Ha as ->. destruct l as [|y l]; [done|]. injection Hb as ->. apply Hl.
  - destruct l as [|y l]; [done|]. by apply (IH i); [apply Hl| |].
Qed.

Section store.
Context {S : Type} {CH : Chonk S} {CL : ChonkLaws S}.

(** [active_loop] collects the chain backwards: [rev reverse] is its known end. *)
Lemma reads_active_loop v o n oldest head : keyed v -> forall cursor reverse,
  Forall (fun a => v !! hash a = Some a /\ hash a <> oldest) reverse -> linked (rev reverse) ->
  (match rev reverse with a :: _ => parent a = Some cursor | [] => cursor = head end) ->
  (forall a, list.last (rev reverse) = Some a -> hash a = head) ->
  reads v o (active_loop n oldest cursor reverse) (active v oldest head).
Proof.
  intros Hk. induction n as [|n IH]; intros cursor reverse Hf Hl Hc Hh; cbn [active_loop]; [apply reads_throw|].
  eapply reads_bind; [apply reads_storage, reads_aum|]. intros a Ha. pose proof (Hk _ _ Ha) as Hash. cbv zeta.
  assert (rev (reverse ++ [a]) = a :: rev reverse) as Hrev by apply rev_unit.
  assert (linked (a :: rev reverse)) as Hl'.
  { destruct (rev reverse) as [|b q]; [done|]. apply linked_cons_last; [done|]. congruence. }
  assert (forall x, list.last (a :: rev reverse) = Some x -> hash x = head) as Hh'.
  { intros x. destruct (rev reverse) as [|b q] eqn:E; [intros [= <-]; congruence|]. rewrite last_cons_cons. apply Hh. }
  case_bool_decide as Ho.
  - apply reads_ret. rewrite Hrev. rewrite list.Forall_forall in Hf.
    assert (forall b, b ∈ rev reverse -> b ∈ reverse) as Hin by (intros b Hb; by apply list_elem_of_In, in_rev, list_elem_of_In).
    split; [|done| |].
    + constructor; [congruence|]. apply list.Forall_forall. intros b Hb. by apply Hf, Hin.
    + exists a, (rev reverse). split; [done|]. split; [congruence|]. apply list.Forall_forall. intros b Hb. by apply Hf, Hin.
    + destruct (list.last (a :: rev reverse)) as [x|] eqn:E; [|by apply last_None in E]. exists x. split; [done|]. by apply Hh'.
  - eapply reads_bind; [apply (reads_lift _ _ _ (fun p => parent a = Some p)); by intros p ?%ok_or_inv|]. intros p Hp.
    apply IH; rewrite ?Hrev; try done. apply list.Forall_app. split; [done|]. constructor; [|constructor]. split; congruence.
Qed.

Lemma reads_active v o au : keyed v -> reads v o (active_path au) (active v (hash (oldest_ancestor au)) (head_hash au)).
Proof. intros Hk. apply reads_active_loop; done || constructor. Qed.

(** ** Offers *)

(** Sampled distances grow fourfold, so at most four are sampled within 400. *)
Lemma sample_loop_ok path : forall n d skip acc,
  (d + n <= length path)%nat -> (1 <= d)%nat ->
  exists anc, sample_loop n d skip path acc = Ret (acc ++ anc) /\ Forall (fun h => exists a, a ∈ path /\ hash a = h) anc.
Proof.
  induction n as [|n IH]; intros d skip acc Hn Hd; cbn [sample_loop]; [exists []; by rewrite app_nil_r|].
  destruct (d mod skip =? 0)%nat; [|apply IH; lia]. unfold sub_usize. rewrite (proj2 (Nat.leb_le _ _)) by lia. cbn [mbind run_bind].
  destruct (lookup_lt_is_Some_2 path (length path - 1 - d)) as [a Ha]; [lia|]. rewrite (idx_lookup _ _ _ Ha). cbn [mbind run_bind].
  destruct (IH (d + 1)%nat (Nat.shiftl skip ANCESTORS_SKIP_SHIFT) (acc ++ [hash a])) as (anc & E & Hanc); [lia|lia|].
  exists (hash a :: anc). rewrite E, <- app_assoc. split; [done|]. constructor; [|done]. exists a. split; [|done].
  by eapply list_elem_of_lookup_2.
Qed.

(** The number of samples left when [skip] has grown to [4 ^ k]. *)
Lemma sample_loop_short path : forall n d k acc anc,
  (1 <= k)%nat -> (1 <= d)%nat -> (d + n <= 401)%nat -> (k = 1 \/ 4 ^ (k - 1) < d)%nat ->
  sample_loop n d (4 ^ k) path acc = Ret anc -> (length anc <= length acc + (5 - k))%nat.
Proof.
  induction n as [|n IH]; intros d k acc anc Hk Hd Hn Hlt E; cbn [sample_loop] in E; [injection E as <-; lia|].
  destruct (Nat.eqb_spec (d mod 4 ^ k) 0) as [Hm|Hm].
  - apply run_bind_inv in E as (i & _ & E). apply run_bind_inv in E as (a & _ & E).
    assert (4 ^ k <= d)%nat as Hge. { apply Nat.Div0.div_exact in Hm. destruct (d / 4 ^ k)%nat eqn:Eq; [lia|]. nia. }
    assert (k <= 4)%nat as Hk4. { destruct (Nat.le_gt_cases k 4); [done|]. pose proof (Nat.pow_le_mono_r 4 5 k). cbn in *. lia. }
    assert (Nat.shiftl (4 ^ k) ANCESTORS_SKIP_SHIFT = 4 ^ Datatypes.S k)%nat as Hs.
    { unfold ANCESTORS_SKIP_SHIFT. rewrite Nat.shiftl_mul_pow2, Nat.pow_succ_r'. cbn. lia. }
    rewrite Hs in E. apply IH in E; [|lia|lia|lia|right; replace (Datatypes.S k - 1)%nat with k by lia; lia].
    rewrite length_app in E. cbn in E. lia.
  - apply IH in E; [done|done|lia|lia|lia].
Qed.

(** The hashes in an offer are those of stored ancestors of the head. *)
Lemma sync_offer_spec v o au s : keyed v -> good s -> view s = v -> hint s = o ->
  exists s' r, sync_offer au s = Ret (s', r) /\ (good s' /\ view s' = v /\ hint s' = o) /\
    forall off, r = Ok off -> so_head off = head_hash au /\ (length (so_ancestors off) <= 5)%nat /\
      exists path, active v (hash (oldest_ancestor au)) (head_hash au) path /\
        Forall (fun h => exists a, a ∈ path /\ hash a = h) (so_ancestors off).
Proof.
  intros Hk Hg Hv Ho. unfold sync_offer. destruct (active_path au s) as [s1 r1] eqn:E1.
  destruct (reads_active v o au Hk s s1 r1 Hg Hv Ho E1) as [H3 Hact].
  destruct r1 as [path|e]; [|exists s1, (Err e); split; [done|]; by split]. specialize (Hact path eq_refl).
  destruct (ac_first _ _ _ _ Hact) as (a0 & q & Hpath & Hold & _).
  assert (1 <= length path)%nat as Hlen by (rewrite Hpath; cbn; lia).
  unfold sub_usize. rewrite (proj2 (Nat.leb_le _ _)) by done. cbn [mbind run_bind].
  destruct (sample_loop_ok path ((length path - 1) `min` MAX_SYNC_HEAD_ITERATIONS) 1 ANCESTORS_SKIP_START []) as (anc & E & Hanc); [lia|lia|].
  assert (length anc <= 4)%nat as Hshort.
  { pose proof E as E'. change ANCESTORS_SKIP_START with (4 ^ 1)%nat in E'. apply sample_loop_short in E'; [cbn in E'; lia|lia|lia| |by left].
    unfold MAX_SYNC_HEAD_ITERATIONS. lia. }
  rewrite E. cbn [mbind run_bind app]. eexists _, _. split; [done|]. split; [done|]. intros off [= <-]. cbn [so_head so_ancestors].
  split; [done|]. split; [case_bool_decide; rewrite ?length_app; cbn; lia|]. exists path. split; [done|].
  case_bool_decide; [done|]. apply list.Forall_app. split; [done|]. constructor; [|constructor]. exists a0. rewrite Hpath. split; [left|done].
Qed.
End store.

(** ** Answers *)

Lemma positions_lookup path i h : positions path !! h = Some i -> exists a, path !! i = Some a /\ hash a = h.
Proof.
  unfold positions. assert (forall l (m : gmap (list Z) nat), (forall i h, m !! h = Some i -> exists a, path !! i = Some a /\ hash a = h) ->
    (forall i a, (i, a) ∈ l -> path !! i = Some a) ->
    forall i h, foldl (fun m e => <[hash e.2 := e.1]> m) m l !! h = Some i -> exists a, path !! i = Some a /\ hash a = h) as Hgo.
  { induction l as [|[j a] l IH]; intros m Hm Hl; cbn [foldl]; [done|]. apply IH.
    - intros i' h'. rewrite lookup_insert_Some. intros [[<- <-]|[_ E]]; [|by apply Hm]. exists a. split; [apply Hl; left|done].
    - intros i' a' Hin. apply Hl. by right. }
  apply Hgo; [by intros ? ? ?%lookup_empty_Some|]. intros i' a' Hin. apply list_elem_of_lookup in Hin as [j Hj].
  rewrite list_lookup_imap in Hj. apply fmap_Some in Hj as (x & Hx & [= -> ->]). done.
Qed.

Lemma first_known_Some pos hs i : first_known pos hs = Some i -> exists h, h ∈ hs /\ pos !! h = Some i.
Proof.
  induction hs as [|h hs IH]; cbn; [done|]. destruct (pos !! h) as [j|] eqn:E.
  - intros [= <-]. exists h. split; [left|done].
  - intros (h' & Hh & E')%IH. exists h'. split; [by right|done].
Qed.

(** The answer: nothing when the heads agree, else the active chain after an
    update the offer mentions. *)
Definition answers v (au : Authority) (remote : SyncOffer) (l : list Aum) : Prop :=
  (so_head remote = head_hash au /\ l = []) \/
  exists path i a, active v (hash (oldest_ancestor au)) (head_hash au) path /\ path !! i = Some a /\
    hash a ∈ so_head remote :: so_ancestors remote /\ l = drop (i + 1) path.

Lemma reads_missing {S} {CH : Chonk S} {CL : ChonkLaws S} v o au remote :
  keyed v -> reads v o (missing_aums au remote) (answers v au remote).
Proof.
  intros Hk. unfold missing_aums. destruct (_ <? _)%nat; [apply reads_throw|]. case_bool_decide as Hh; [apply reads_ret; by left|].
  eapply reads_bind; [by apply reads_active|]. intros path Hp.
  destruct (first_known _ _) as [i|] eqn:E; [|apply reads_throw]. apply reads_ret. right.
  apply first_known_Some in E as (h & Hin & Hpos). apply positions_lookup in Hpos as (a & Ha & <-). by exists path, i, a.
Qed.

(** Going down from a common update, the two active chains are the same as far
    as the common oldest ancestor: the receiver holds all of it. *)
Lemma common_prefix v1 v2 oldest h1 h2 p1 p2 :
  active v1 oldest h1 p1 -> active v2 oldest h2 p2 ->
  (forall h a b, v1 !! h = Some a -> v2 !! h = Some b -> a = b) -> keyed v2 ->
  forall i a, p1 !! i = Some a -> a ∈ p2 -> forall j b, (j <= i)%nat -> p1 !! j = Some b -> b ∈ p2.
Proof.
  intros A1 A2 Hag Hk. assert (forall i a b, p1 !! Datatypes.S i = Some a -> a ∈ p2 -> p1 !! i = Some b -> b ∈ p2) as Hstep.
  { intros i a b Ha Hin Hb. destruct (ac_first _ _ _ _ A1) as (x & q & -> & Hx & Hq). cbn in Ha.
    assert (hash a <> oldest) as Hne. { rewrite list.Forall_forall in Hq. apply Hq. by eapply list_elem_of_lookup_2. }
    apply list_elem_of_lookup in Hin as [k Hk2]. destruct k as [|k].
    { destruct (ac_first _ _ _ _ A2) as (y & q2 & -> & Hy & _). injection Hk2 as ->. done. }
    destruct (lookup_lt_is_Some_2 p2 k) as [c Hc]; [apply lookup_lt_Some in Hk2; lia|].
    pose proof (linked_lookup _ _ _ _ (ac_linked _ _ _ _ A2) Hc Hk2) as P2.
    pose proof (linked_lookup _ i _ _ (ac_linked _ _ _ _ A1) Hb Ha) as P1.
    assert (b = c) as ->; [|by eapply list_elem_of_lookup_2].
    pose proof (ac_stored _ _ _ _ A1) as S1. pose proof (ac_stored _ _ _ _ A2) as S2.
    apply (Hag (hash b)); [by eapply (Forall_lookup_1 _ _ _ _ S1)|]. assert (hash b = hash c) as -> by congruence. by eapply (Forall_lookup_1 _ _ _ _ S2). }
  intros i a Ha Hin j b Hj Hb. remember (i - j)%nat as k eqn:E. revert i a Ha Hin Hj E.
  induction k as [|k IH]; intros i a Ha Hin Hj E.
  - assert (i = j) as -> by lia. congruence.
  - destruct i as [|i]; [lia|]. destruct (lookup_lt_is_Some_2 p1 i) as [c Hc]; [apply lookup_lt_Some in Ha; lia|].
    eapply (IH i c Hc); [by eapply Hstep|lia|lia].
Qed.

(** What the receiver holds, together with the end of the sender's chain after a
    common update, is the whole chain. *)
Lemma sync_covered v1 v2 oldest h1 h2 p1 p2 i a j b :
  active v1 oldest h1 p1 -> active v2 oldest h2 p2 ->
  (forall h x y, v1 !! h = Some x -> v2 !! h = Some y -> x = y) -> keyed v2 ->
  p1 !! i = Some a -> (exists x, x ∈ p2 /\ hash x = hash a) -> p1 !! j = Some b ->
  (v2 ∪ batch (drop (i + 1) p1)) !! hash b = Some b.
Proof.
  intros A1 A2 Hag Hk Ha (x & Hx & Ex) Hb. pose proof (ac_stored _ _ _ _ A1) as S1. pose proof (ac_stored _ _ _ _ A2) as S2.
  rewrite list.Forall_forall in S1. rewrite list.Forall_forall in S2.
  assert (x = a) as ->. { symmetry. apply (Hag (hash a)); [by eapply S1, list_elem_of_lookup_2|]. rewrite <- Ex. by apply S2. }
  assert (v1 !! hash b = Some b) as Hb1 by (by eapply S1, list_elem_of_lookup_2).
  destruct (Nat.le_gt_cases j i) as [Hj|Hj].
  { apply lookup_union_Some_l, S2. exact (common_prefix v1 v2 oldest h1 h2 p1 p2 A1 A2 Hag Hk i a Ha Hx j b Hj Hb). }
  rewrite lookup_union. destruct (v2 !! hash b) as [y|] eqn:Ey.
  { rewrite (Hag _ _ _ Hb1 Ey). by destruct (batch _ !! _). }
  assert (b ∈ drop (i + 1) p1) as Hd.
  { apply list_elem_of_lookup. exists (j - (i + 1))%nat. rewrite lookup_drop. by replace (i + 1 + (j - (i + 1)))%nat with j by lia. }
  destruct (batch (drop (i + 1) p1) !! hash b) as [c|] eqn:Ec.
  - apply batch_lookup in Ec as [Hc Eh]. assert (c ∈ p1) as Hc1 by (by eapply subseteq_drop).
    specialize (S1 c Hc1). rewrite Eh in S1. cbn. congruence.
  - exfalso. apply not_elem_of_list_to_map_2 in Ec. apply Ec. apply list_elem_of_fmap. exists (hash b, b). split; [done|].
    apply list_elem_of_In, in_map_iff. exists b. split; [done|]. by apply list_elem_of_In.
Qed.
End sync.
