(* ===== verification/TkaText.v ===== *)
(** * Hashes and offers as text

    [AumHash] prints in base 32 without padding and reads back in either case;
    an offer travels as strings.  The codec of the [data_encoding] crate is a
    parameter: on 32 bytes it writes 52 characters of its alphabet, which has no
    lower-case letters, and it reads them back. *)

From S2P Require Import Prelude Bytes Keys Order Utf8 Crypto Cbor TkaAum TkaSig TkaChonk TkaAuthority TkaTrust TkaSync.

(** [u8::to_ascii_uppercase]. *)
Definition to_ascii_uppercase (c : Z) : Z := if (97 <=? c) && (c <=? 122) then c - 32 else c.

Class Base32 : Type := {
  base32_encode : list Z -> list Z;
  base32_decode : list Z -> option (list Z) }.
Class Base32Laws `{Base32} : Prop := {
  base32_length : forall b, length b = 32%nat -> length (base32_encode b) = 52%nat;
  base32_upper : forall b, map to_ascii_uppercase (base32_encode b) = base32_encode b;
  base32_inverts : forall b, wf_bytes b -> base32_decode (base32_encode b) = Some b }.

Section text.
Context `{Base32}.

Definition hash_to_string (h : list Z) : list Z := base32_encode h.
Definition hash_from_str (s : list Z) : result string (list Z) :=
  if negb (length s =? 52)%nat then Err "expected 52 base32 characters"
  else
    bytes ← ok_or (base32_decode (map to_ascii_uppercase s)) "invalid base32";
    if negb (length bytes =? 32)%nat then Err "expected 32 bytes" else Ok bytes.

Definition offer_from_strings (head : list Z) (ancestors : list (list Z)) : result string SyncOffer :=
  if (MAX_SYNC_ANCESTORS <? length ancestors)%nat then Err "too many sync ancestors"
  else
    head ← hash_from_str head;
    ancestors ← mapM hash_from_str ancestors;
    Ok {| so_head := head; so_ancestors := ancestors |}.
Definition offer_to_strings (o : SyncOffer) : list Z * list (list Z) :=
  (hash_to_string (so_head o), map hash_to_string (so_ancestors o)).

Context {BL : Base32Laws}.

Lemma hash_string_roundtrip h : length h = 32%nat -> wf_bytes h -> hash_from_str (hash_to_string h) = Ok h.
Proof.
  intros Hl Hw. unfold hash_from_str, hash_to_string. rewrite base32_length, base32_upper, base32_inverts by done. cbn.
  by rewrite Hl.
Qed.

Lemma offer_strings_roundtrip o :
  Forall (fun h => length h = 32%nat /\ wf_bytes h) (so_head o :: so_ancestors o) ->
  (length (so_ancestors o) <= MAX_SYNC_ANCESTORS)%nat ->
  offer_from_strings (offer_to_strings o).1 (offer_to_strings o).2 = Ok o.
Proof.
  intros [Hh Ha]%Forall_cons_1 Hl. unfold offer_from_strings, offer_to_strings. cbn [fst snd].
  rewrite length_map, (proj2 (Nat.ltb_ge _ _)) by done. rewrite hash_string_roundtrip by apply Hh. cbn [mbind result_bind].
  assert (mapM hash_from_str (map hash_to_string (so_ancestors o)) = Ok (so_ancestors o)) as ->; [|by destruct o].
  apply mapM_Ok. clear Hl. induction Ha as [|h l [H1 H2] _ IH]; cbn; constructor; [by apply hash_string_roundtrip|exact IH].
Qed.

(** The offers a node makes can be sent. *)
Lemma offer_travels {CB : Ciborium} {B2 : Blake2s256} {B2L : Blake2s256Laws} {ED : Ed25519}
  {S} {CH : Chonk S} {CL : ChonkLaws S} (s : S) au :
  good s -> exists s' r, sync_offer au s = Ret (s', r) /\
    forall off, r = Ok off -> offer_from_strings (offer_to_strings off).1 (offer_to_strings off).2 = Ok off.
Proof.
  intros Hg. destruct (sync_offer_spec (view s) (hint s) au s) as (s' & r & E & _ & Hr); try done.
  { intros h a. by apply view_hash. }
  exists s', r. split; [done|]. intros off ->. destruct (Hr off eq_refl) as (Hh & Hl & path & _ & Ha).
  apply offer_strings_roundtrip; [|unfold MAX_SYNC_ANCESTORS; lia]. constructor.
  - rewrite Hh. split; [apply blake2s256_length|apply blake2s256_bytes].
  - eapply list.Forall_impl; [exact Ha|]. intros h (a & _ & <-). split; [apply blake2s256_length|apply blake2s256_bytes].
Qed.
End text.
