(* ===== verification/TkaBuild.v ===== *)
(** * What the builder builds, an authority accepts

    Updates built on an authority by a signer whose key is trusted, and stays
    trusted, verify one after the other from the authority's state, and informing
    a store that does not hold them yet stages all of them. *)

From S2P Require Import Prelude Bytes Keys Order Utf8 Crypto Cbor TkaAum TkaSig TkaChonk TkaAuthority TkaTrust TkaState.

Section build.
Context {CB : Ciborium} {B2 : Blake2s256} {BL : Blake2s256Laws} {ED : Ed25519} {EL : Ed25519Laws}.

(** The operations of a builder. *)
Inductive build_op : Type :=
| BAdd (k : Key) | BRemove (id : list Z) | BVotes (id : list Z) (votes : Z) | BMeta (id : list Z) (m : Meta) | BCheckpoint.
Definition run_build (b : UpdateBuilder) (op : build_op) : result AuthorityError UpdateBuilder :=
  match op with
  | BAdd k => ub_add_key b k
  | BRemove id => ub_remove_key b id
  | BVotes id votes => ub_set_key_votes b id votes
  | BMeta id m => ub_set_key_meta b id m
  | BCheckpoint => ub_checkpoint b
  end.

Definition trusts (sk : signing_key) (st : State) : Prop := is_Some (state_key st (signing_public sk)).

(** A builder on [au] whose signer is trusted before and after every operation. *)
Inductive built (sk : signing_key) (au : Authority) : UpdateBuilder -> Prop :=
| built_new : trusts sk (au_state au) -> built sk au (new_updater au (Some (signing_key_signer sk)))
| built_op b op b' : built sk au b -> run_build b op = Ok b' -> trusts sk (ub_state b') -> built sk au b'.

Lemma sig_hash_with_signatures l a : sig_hash (with_signatures l a) = sig_hash a.
Proof. done. Qed.

Lemma verify_one_signed sk st digest :
  trusts sk st -> verify_one st digest {| sg_key_id := signing_public sk; sg_signature := ed_sign sk digest |} = Ok tt.
Proof.
  intros [k Hk]. unfold verify_one. cbn [sg_key_id sg_signature]. rewrite Hk. cbn [ok_or mbind result_bind].
  destruct (state_key_Some _ _ _ Hk) as (_ & Hkd & Hp). rewrite bool_decide_true by done. rewrite Hp.
  rewrite (proj1 (signing_public_ok sk)). cbn [negb Nat.eqb]. destruct (sign_verifies sk digest) as (vk & sg & E1 & E2 & E3 & _).
  by rewrite E1, E2; cbn; rewrite E3.
Qed.

(** Every operation pushes one update. *)
Lemma run_build_push b op b' : run_build b op = Ok b' -> exists u, ub_push b u = Ok b'.
Proof.
  destruct op; cbn; unfold ub_add_key, ub_remove_key, ub_set_key_votes, ub_set_key_meta, ub_checkpoint; intros E.
  - apply result_bind_inv in E as ([] & _ & E). apply result_bind_inv in E as (id & _ & E). destruct (is_some _); [done|].
    destruct (_ <=? _)%nat; [done|]. eauto.
  - destruct (negb _); [done|]. eauto.
  - destruct (negb _); [done|]. eauto.
  - destruct (negb _); [done|]. eauto.
  - eauto.
Qed.

(** The last key cannot be removed by a signer that stays trusted. *)
Lemma remove_last_untrusts sk st u st' k :
  keys st = [k] -> k_kind k = Key25519 -> message_kind u = RemoveKey -> a_key_id u = Some (k_public k) ->
  apply_verified st u = Ok st' -> ~ trusts sk st'.
Proof.
  intros Hk Hkd Hr Hid Ha [x Hx]. unfold apply_verified in Ha. destruct (match last_aum_hash st with Some _ => _ | None => _ end); [done|].
  apply result_bind_inv in Ha as (out & Hout & [= <-]). unfold apply_kind in Hout. rewrite Hr, Hid, Hk in Hout. cbn in Hout.
  rewrite (proj2 (has_id_iff _ _)) in Hout by done. injection Hout as <-. done.
Qed.

Lemma push_replays sk b u b' :
  ub_signer b = Some (signing_key_signer sk) -> trusts sk (ub_state b) -> trusts sk (ub_state b') ->
  last_aum_hash (ub_state b) = Some (ub_parent b) -> length (ub_parent b) = 32%nat -> ub_push b u = Ok b' ->
  exists w, ub_updates b' = ub_updates b ++ [w] /\ parent w = Some (ub_parent b) /\ hash w = ub_parent b' /\
    replay_one (ub_state b) w = Ok (ub_state b') /\ last_aum_hash (ub_state b') = Some (ub_parent b') /\
    ub_signer b' = ub_signer b /\ ub_authority b' = ub_authority b.
Proof.
  intros Hs Ht Ht' Hl Hlen E. unfold ub_push in E. rewrite Hs in E. unfold signing_key_signer in E. cbn [map_err mbind result_bind] in E.
  set (w := with_signatures _ (with_prev (ub_parent b) u)) in E.
  apply result_bind_inv in E as ([] & Hval%map_err_inv & E). apply result_bind_inv in E as (st & Hst%map_err_inv & [= <-]).
  cbn [ub_state] in Ht'. assert (parent w = Some (ub_parent b)) as Hp. { unfold parent. cbn. by rewrite Hlen. }
  exists w. cbn [ub_updates ub_parent ub_state ub_signer ub_authority]. split; [done|]. split; [done|]. split; [done|].
  assert (last_aum_hash st = Some (hash w)) as Hlast.
  { unfold apply_verified in Hst. destruct (match last_aum_hash (ub_state b) with Some _ => _ | None => _ end); [done|].
    by apply result_bind_inv in Hst as (out & _ & [= <-]). }
  split; [|done]. unfold replay_one. assert (verify_aum w (ub_state b) false = Ok tt) as ->; [|cbn; by rewrite Hst].
  unfold verify_aum. rewrite Hval. cbn [map_err mbind result_bind negb]. rewrite Hl. cbn [mbind option_bind].
  unfold hash_from_slice. rewrite Hlen. cbn [Nat.eqb ok_or mbind result_bind].
  rewrite (bool_decide_true (parent w = _)) by exact Hp. cbn [negb mbind result_bind].
  rewrite (bool_decide_false (signatures w = [])) by done. cbn [try_fold signatures w with_signatures update_aum]. rewrite verify_one_signed by done. cbn [mbind result_bind].
  destruct (keys (ub_state b)) as [|k [|]] eqn:Ek; [done| |done]. case_bool_decide as Hr; [|done].
  unfold key_id. destruct (k_kind k) eqn:Ekd.
  - destruct Ht as [x Hx]. apply state_key_Some in Hx as (Hin & Hxk & _). rewrite Ek in Hin. apply list_elem_of_singleton in Hin as ->. congruence.
  - cbn [map_err mbind result_bind]. case_bool_decide as Hid; [|done]. exfalso. by eapply (remove_last_untrusts sk _ w).
Qed.

(** The builder's state is the replay of its updates. *)
Record built_ok (sk : signing_key) (au : Authority) (b : UpdateBuilder) : Prop := {
  bo_signer : ub_signer b = Some (signing_key_signer sk);
  bo_authority : ub_authority b = au;
  bo_trusts : trusts sk (ub_state b);
  bo_last : last_aum_hash (ub_state b) = Some (ub_parent b);
  bo_replay : try_fold replay_one (ub_updates b) (au_state au) = Ok (ub_state b);
  bo_parent : exists h, h = head_hash au /\
    ub_parent b = match list.last (ub_updates b) with Some w => hash w | None => h end;
  bo_linked : forall i w, ub_updates b !! i = Some w ->
    parent w = Some (match i with O => head_hash au | Datatypes.S j => default [] (hash <$> ub_updates b !! j) end) }.

Lemma built_spec sk au b : last_aum_hash (au_state au) = Some (head_hash au) -> built sk au b -> built_ok sk au b.
Proof.
  intros Hau Hb. induction Hb as [Ht|b op b' Hb IH E Ht'].
  - split; try done. by exists (head_hash au).
  - destruct IH as [Hs Ha Ht Hl Hr (h & -> & Hp) Hlk]. apply run_build_push in E as [u E].
    destruct (push_replays sk b u b' Hs Ht Ht' Hl) as (w & Hu & Hpw & Hhw & Hrw & Hl' & Hs' & Ha'); [|exact E|].
    { rewrite Hp. destruct (list.last _); apply blake2s256_length. }
    split; try congruence.
    + by rewrite Hu, try_fold_app, Hr; cbn; rewrite Hrw.
    + exists (head_hash au). split; [done|]. by rewrite Hu, last_snoc.
    + intros i x Hx. rewrite Hu in Hx |- *. apply lookup_app_Some in Hx as [Hx|[Hge Hx]].
      * rewrite (Hlk i x Hx). destruct i as [|j]; [done|]. f_equal. by rewrite lookup_app_l by (apply lookup_lt_Some in Hx; lia).
      * apply list_lookup_singleton_Some in Hx as [Hi ->]. rewrite Hpw. f_equal. destruct i as [|j].
        -- rewrite Hp. destruct (ub_updates b) as [|y l]; [done|cbn in Hge; lia].
        -- rewrite Hp, last_lookup. replace (pred (length (ub_updates b))) with j by lia. rewrite lookup_app_l by lia.
           destruct (lookup_lt_is_Some_2 (ub_updates b) j) as [y Hy]; [lia|]. by rewrite Hy.
Qed.

(** ** Informing a store of built updates *)

Lemma stage_fresh us : forall (s : MemState) states staged st h st',
  Forall (fun u => m_aums s !! hash u = None) us ->
  states !! h = Some st -> (forall i w, us !! i = Some w ->
    parent w = Some (match i with O => h | Datatypes.S j => default [] (hash <$> us !! j) end)) ->
  try_fold replay_one us st = Ok st' -> stage_loop us states staged s = (s, Ok (staged ++ us)).
Proof.
  induction us as [|u us IH]; intros s states staged st h st' Hf Hst Hlk Hr; cbn [stage_loop].
  { unfold mret, prog_ret. by rewrite app_nil_r. }
  inversion_clear Hf as [|? ? Hu Hf']. cbn [try_fold] in Hr. apply result_bind_inv in Hr as (st1 & Hr1 & Hr).
  unfold replay_one in Hr1. apply result_bind_inv in Hr1 as ([] & Hv & Ha%map_err_inv).
  unfold mbind, prog_bind, attempt. cbn [c_aum mem_chonk]. unfold mem_aum. rewrite Hu. cbn [ok_or is_not_found negb].
  pose proof (Hlk O u eq_refl) as Hp. cbn in Hp. unfold lift. rewrite Hp. cbn [ok_or]. rewrite Hst. unfold mret, prog_ret.
  rewrite Hv. cbn [map_err]. rewrite Ha. cbn [map_err].
  rewrite (IH s (<[hash u := st1]> states) (staged ++ [u]) st1 (hash u) st'); [by rewrite <- app_assoc|done|by rewrite lookup_insert_eq| |done].
  intros i w Hw. rewrite (Hlk (Datatypes.S i) w Hw). destruct i; [by cbn|done].
Qed.

Lemma need_checkpoint_pure n : forall cursor (s s' : MemState) r, need_checkpoint n cursor s = (s', r) -> s' = s.
Proof.
  induction n as [|n IH]; intros cursor s s' r; cbn [need_checkpoint]; [by intros [= <- <-]|].
  unfold mbind, prog_bind, attempt. cbn [c_aum mem_chonk]. unfold mem_aum. destruct (m_aums s !! cursor) as [a|]; cbn [ok_or is_not_found].
  - case_bool_decide; [by intros [= <- <-]|]. destruct (parent a); [apply IH|by intros [= <- <-]].
  - by intros [= <- <-].
Qed.

(** [finalize] hands out the builder's updates, or those with a checkpoint. *)
Lemma finalize_built sk au b (s s' : MemState) l :
  last_aum_hash (au_state au) = Some (head_hash au) -> built sk au b -> ub_finalize b s = (s', Ok l) ->
  s' = s /\ exists b', built sk au b' /\ l = ub_updates b'.
Proof.
  intros Hau Hb E. unfold ub_finalize in E. unfold mbind, prog_bind in E.
  destruct (need_checkpoint _ _ s) as [s1 r1] eqn:E1. apply need_checkpoint_pure in E1 as ->.
  destruct r1 as [need|]; [|done]. unfold lift in E. destruct need.
  - destruct (ub_checkpoint b) as [b'|] eqn:Ec; [|done]. assert (built sk au b') as Hb'.
    { eapply (built_op sk au b BCheckpoint); [done|done|]. pose proof (built_spec sk au b Hau Hb) as [_ _ [k Hk] _ _ _ _].
      pose proof Ec as Ec'. unfold ub_checkpoint, ub_push in Ec'. apply result_bind_inv in Ec' as (w & Hw & Ec').
      apply result_bind_inv in Ec' as ([] & _ & Ec'). apply result_bind_inv in Ec' as (st & Hst%map_err_inv & [= <-]). cbn [ub_state].
      assert (message_kind w = Checkpoint /\ a_state w = Some (with_last None (ub_state b))) as [Hwk Hws].
      { destruct (ub_signer b) as [f|]; [apply result_bind_inv in Hw as (sg & _ & [= <-]); done|by injection Hw as <-]. }
      unfold apply_verified in Hst. destruct (match last_aum_hash (ub_state b) with Some _ => _ | None => _ end); [done|].
      apply result_bind_inv in Hst as (out & Hout & [= <-]). unfold apply_kind in Hout. rewrite Hwk, Hws in Hout. cbn in Hout.
      destruct (_ || _); [done|]. injection Hout as <-. by exists k. }
    destruct (ub_updates b') as [|w ws] eqn:Eu; [injection E as <- <-|destruct (negb _); [done|]; injection E as <- <-];
      (split; [done|]; exists b'; by rewrite Eu).
  - destruct (ub_updates b) as [|w ws] eqn:Eu; [injection E as <- <-|destruct (negb _); [done|]; injection E as <- <-];
      (split; [done|]; exists b; by rewrite Eu).
Qed.
End build.
