(* ===== verification/TkaFs.v ===== *)
(** * The file-backed store of [tka/src/chonk.rs]

    A disk is the record files by hash, the file that marks a pending
    transaction and the file with the hint.  Every file-system call takes the
    next entry of a schedule: it succeeds, fails without effect, fails after its
    effect (an [fsync] that reports an error after the rename or unlink), or the
    process stops there.  Writes are atomic, since the code writes a temporary
    file and renames it.  Checks of directories and links, whose failure is an
    error like that of any other call, are not modelled apart; nor are files in
    the directory that are not named after a hash. *)

From S2P Require Import Prelude Bytes Keys Order Utf8 Crypto Cbor TkaAum TkaChonk.

Definition MAX_RECORD_BYTES : Z := MAX_CBOR_BYTES + 1024.
Definition MAX_TRANSACTION_AUMS : nat := 2000.

Record Disk : Type := { d_records : gmap (list Z) (list Z); d_marker : option (list Z); d_last : option (list Z) }.

Inductive fault : Type := Fine | FailBefore | FailAfter | Crash.
#[global] Instance fault_eq_dec : EqDecision fault.
Proof. solve_decision. Defined.

Record FsChonk : Type := { disk : Disk; observed : gset (list Z); schedule : list fault }.

Inductive outcome (A : Type) : Type := Done (r : result ChonkError A) | Crashed.
Arguments Done {A} r.
Arguments Crashed {A}.

Definition fsm (A : Type) : Type := FsChonk -> FsChonk * outcome A.
#[global] Instance fsm_ret : MRet fsm := fun A a s => (s, Done (Ok a)).
#[global] Instance fsm_bind : MBind fsm := fun A B f m s =>
  match m s with
  | (s, Done (Ok a)) => f a s
  | (s, Done (Err e)) => (s, Done (Err e))
  | (s, Crashed) => (s, Crashed)
  end.
Definition fs_throw {A} (e : ChonkError) : fsm A := fun s => (s, Done (Err e)).
Definition fs_lift {A} (r : result ChonkError A) : fsm A := fun s => (s, Done r).
(** The result of a block that may fail, as a value. *)
Definition fs_try {A} (m : fsm A) : fsm (result ChonkError A) := fun s =>
  match m s with
  | (s, Done r) => (s, Done (Ok r))
  | (s, Crashed) => (s, Crashed)
  end.

Definition with_disk (d : Disk) (s : FsChonk) : FsChonk := {| disk := d; observed := observed s; schedule := schedule s |}.
Definition with_observed (x : gset (list Z)) (s : FsChonk) : FsChonk :=
  {| disk := disk s; observed := x; schedule := schedule s |}.

(** A call that changes the disk by [f]. *)
Definition io (f : Disk -> Disk) : fsm unit := fun s =>
  let rest := {| disk := disk s; observed := observed s; schedule := tail (schedule s) |} in
  match list.head (schedule s) with
  | Some FailBefore => (rest, Done (Err Io))
  | Some FailAfter => (with_disk (f (disk s)) rest, Done (Err Io))
  | Some Crash => (rest, Crashed)
  | _ => (with_disk (f (disk s)) rest, Done (Ok tt))
  end.
(** A call that reads the disk. *)
Definition io_read {A} (f : Disk -> A) : fsm A := fun s =>
  match io (fun d => d) s with
  | (s, Done (Ok _)) => (s, Done (Ok (f (disk s))))
  | (s, Done (Err e)) => (s, Done (Err e))
  | (s, Crashed) => (s, Crashed)
  end.

(** The set of hashes seen so far. *)
Definition was_observed (h : list Z) : fsm bool := fun s => (s, Done (Ok (bool_decide (h ∈ observed s)))).
Definition observe (h : list Z) : fsm unit := fun s => (with_observed ({[h]} ∪ observed s) s, Done (Ok tt)).
Definition forget (h : list Z) : fsm unit := fun s => (with_observed (observed s ∖ {[h]}) s, Done (Ok tt)).

Definition set_record (h : list Z) (b : option (list Z)) (d : Disk) : Disk :=
  {| d_records := match b with Some b => <[h := b]> (d_records d) | None => delete h (d_records d) end;
     d_marker := d_marker d; d_last := d_last d |}.
Definition set_marker (b : option (list Z)) (d : Disk) : Disk :=
  {| d_records := d_records d; d_marker := b; d_last := d_last d |}.
Definition set_last (b : option (list Z)) (d : Disk) : Disk :=
  {| d_records := d_records d; d_marker := d_marker d; d_last := b |}.

Section fs.
Context `{Ciborium} `{Blake2s256}.

(** ** Records *)

(** What a record file says about its hash, before the set of observed hashes is
    consulted: [Ok None] when it is purged or empty. *)
Definition record_field (s : list Z * option Value * bool) (e : Value * Value)
  : result ChonkError (list Z * option Value * bool) :=
  let '(seen, aum_value, purged) := s in
  n ← map_err (fun _ => Corrupt "record key") (expect_key e.1);
  if bool_decide (n ∈ seen) then Err (Corrupt "duplicate record key")
  else
    let seen := n :: seen in
    if n =? 2 then Ok (seen, Some e.2, purged)
    else if n =? 3 then _ ← map_err (fun _ => Corrupt "created") (expect_uint e.2); Ok (seen, aum_value, purged)
    else if n =? 4 then x ← map_err (fun _ => Corrupt "purged") (expect_uint e.2); Ok (seen, aum_value, x >? 0)
    else Ok (seen, aum_value, purged).

Definition parse_record (h : list Z) (bytes : list Z) : result ChonkError (option Aum) :=
  if zlen bytes >? MAX_RECORD_BYTES then Err (Corrupt "file is too large or not regular")
  else
    value ← map_err (fun _ => Corrupt "record") (decode_value bytes);
    entries ← map_err (fun _ => Corrupt "record") (expect_map value);
    s ← try_fold record_field entries ([], None, false);
    let '(_, aum_value, purged) := s in
    if purged : bool then Ok None
    else
      v ← ok_or aum_value (Corrupt "record has no AUM");
      match v with
      | Null => Ok None
      | _ =>
          a ← map_err (fun _ => Corrupt "record") (aum_decode (encode_value v));
          if bool_decide (hash a = h) then Ok (Some a) else Err (Corrupt "content hash differs from file name")
      end.

Definition read_aum_unlocked (h : list Z) : fsm Aum :=
  file ← io_read (fun d => d_records d !! h);
  seen ← was_observed h;
  let absent := if seen : bool then Corrupt "previously observed AUM disappeared" else NotFound h in
  match file with
  | None => fs_throw absent
  | Some bytes =>
      o ← fs_lift (parse_record h bytes);
      match o with
      | None => fs_throw absent
      | Some a => _ ← observe h; mret a
      end
  end.

(** [encode_record] at the time [created]. *)
Definition encode_record (a : Aum) (created : Z) : run (list Z) :=
  match from_reader (aum_encode a) with
  | Ok v => Ret (encode_value (Map [(Integer 2, v); (Integer 3, Integer created)]))
  | Err _ => Panic
  end.

(** ** Transactions *)

Definition write_transaction_marker (hashes : list (list Z)) : fsm unit :=
  if (MAX_TRANSACTION_AUMS <? length hashes)%nat then fs_throw (Corrupt "transaction contains too many AUMs")
  else io (set_marker (Some (concat hashes))).
Definition clear_transaction_marker : fsm unit := io (set_marker None).

Definition remove_transaction_record (h : list Z) : fsm unit :=
  _ ← io (set_record h None); forget h.

Fixpoint for_each {A} (f : A -> fsm unit) (l : list A) : fsm unit :=
  match l with
  | [] => mret tt
  | x :: l => _ ← f x; for_each f l
  end.

(** [bytes.chunks_exact(32)]. *)
Fixpoint chunks (n : nat) (bytes : list Z) : list (list Z) :=
  match n with
  | O => []
  | S n => take 32 bytes :: chunks n (drop 32 bytes)
  end.

Definition recover_transaction_unlocked : fsm unit :=
  marker ← io_read d_marker;
  match marker with
  | None => mret tt
  | Some bytes =>
      if negb (length bytes mod 32 =? 0)%nat || (MAX_TRANSACTION_AUMS <? length bytes / 32)%nat
      then fs_throw (Corrupt "invalid pending transaction marker")
      else
        _ ← for_each remove_transaction_record (chunks (length bytes / 32) bytes);
        clear_transaction_marker
  end.

(** [FsChonk::open] on a disk: nothing has been observed yet. *)
Definition fs_open (d : Disk) (faults : list fault) : FsChonk * outcome unit :=
  recover_transaction_unlocked {| disk := d; observed := ∅; schedule := faults |}.

(** The loop of [store_verified_aums] that decides what is new. *)
Fixpoint preflight (aums : list Aum) (pending : list (list Z * Aum)) : fsm (list (list Z * Aum)) :=
  match aums with
  | [] => mret pending
  | a :: aums =>
      let h := hash a in
      r ← fs_try (read_aum_unlocked h);
      match r with
      | Ok existing =>
          if bool_decide (existing = a) then preflight aums pending
          else fs_throw (Corrupt "existing AUM differs despite equal hash")
      | Err e =>
          if is_not_found e then
            preflight aums (if bool_decide (h ∈ pending.*1) then pending else pending ++ [(h, a)])
          else fs_throw e
      end
  end.

(** One turn of the writing loop; [created] is the time. *)
Definition write_record (created : Z) (e : list Z * Aum) : fsm unit :=
  match encode_record e.2 created with
  | Panic => fun s => (s, Crashed)
  | Ret encoded =>
      _ ← io (set_record e.1 (Some encoded));
      _ ← read_aum_unlocked e.1;
      mret tt
  end.

Definition store_verified_aums (created : Z) (aums : list Aum) : fsm nat :=
  pending ← preflight aums [];
  if bool_decide (pending = []) then mret O
  else
    let hashes := pending.*1 in
    _ ← write_transaction_marker hashes;
    result ← fs_try (_ ← for_each (write_record created) pending; clear_transaction_marker);
    match result with
    | Ok _ => mret (length pending)
    | Err error =>
        rollback ← fs_try (_ ← write_transaction_marker hashes;
                           _ ← for_each remove_transaction_record hashes;
                           clear_transaction_marker);
        match rollback with
        | Err _ => fs_throw (Corrupt "transaction failed; rollback failed")
        | Ok _ => fs_throw error
        end
    end.

(** ** Reading *)

(** [all_hashes_unlocked]: the readable hashes in order; everything observed
    before must still be there. *)
Fixpoint readable (hs : list (list Z)) (acc : list (list Z)) : fsm (list (list Z)) :=
  match hs with
  | [] => mret acc
  | h :: hs =>
      r ← fs_try (read_aum_unlocked h);
      match r with
      | Ok _ => readable hs (acc ++ [h])
      | Err e => if is_not_found e then readable hs acc else fs_throw e
      end
  end.
Definition observed_hashes : fsm (list (list Z)) := fun s => (s, Done (Ok (elements (observed s)))).
Definition all_hashes_unlocked : fsm (list (list Z)) :=
  names ← io_read (fun d => map fst (map_to_list (d_records d)));
  hashes ← readable names [];
  let hashes := sort_by bytes_cmp hashes in
  seen ← observed_hashes;
  if bool_decide (Forall (fun h => h ∈ hashes) seen) then mret hashes
  else fs_throw (Corrupt "previously observed AUM disappeared from storage").

Fixpoint read_all (hs : list (list Z)) (acc : list Aum) : fsm (list Aum) :=
  match hs with
  | [] => mret acc
  | h :: hs => a ← read_aum_unlocked h; read_all hs (acc ++ [a])
  end.

Definition fs_child_aums (h : list Z) : fsm (list Aum) :=
  hashes ← all_hashes_unlocked;
  all ← read_all hashes [];
  mret (sort_by (fun a b => bytes_cmp (hash a) (hash b)) (filter (fun a => parent a = Some h) all)).

Definition fs_heads : fsm (list Aum) :=
  hashes ← all_hashes_unlocked;
  all ← read_all hashes [];
  let parents := omap parent all in
  mret (sort_by (fun a b => bytes_cmp (hash a) (hash b)) (filter (fun a => hash a ∉ parents) all)).

Definition fs_last_active_ancestor : fsm (option (list Z)) :=
  file ← io_read d_last;
  match file with
  | None => mret None
  | Some bytes => if (length bytes =? 32)%nat then mret (Some bytes) else fs_throw (Corrupt "ancestor hash has wrong length")
  end.
Definition fs_set_last_active_ancestor (h : list Z) : fsm unit := io (set_last (Some h)).

(** As an implementation of the trait; a call during which the process stops
    does not return, which the caller sees as an error. *)
Definition returned {A} (m : fsm A) : prog FsChonk ChonkError A := fun s =>
  match m s with (s, Done r) => (s, r) | (s, Crashed) => (s, Err Io) end.

Definition fs_chonk (created : Z) : Chonk FsChonk := {|
  c_aum h := returned (read_aum_unlocked h);
  c_child_aums h := returned (fs_child_aums h);
  c_heads := returned fs_heads;
  c_last_active_ancestor := returned fs_last_active_ancestor;
  c_set_last_active_ancestor h := returned (fs_set_last_active_ancestor h);
  c_store_verified_aums l := returned (store_verified_aums created l) |}.

End fs.
