(* ===== verification/TkaFsSpec.v ===== *)
(** * A batch of updates is stored as a whole or not at all

    [hoare P m Q I]: started on a disk that satisfies [P], the computation ends
    with a result and a disk related by [Q], or the process stops on a disk that
    satisfies [I].  For every schedule of failures and stops, storing a batch
    leaves a disk that the next successful opening turns into the old contents or
    into the old contents with the whole batch. *)

From S2P Require Import Prelude Bytes Keys Order Utf8 Crypto Cbor TkaAum TkaCodec TkaChonk TkaFs.

(** ** Reasoning about failures *)

Definition hoare {A} (P : Disk -> Prop) (m : fsm A) (Q : result ChonkError A -> Disk -> Prop) (I : Disk -> Prop) : Prop :=
  forall s s' out, P (disk s) -> m s = (s', out) -> match out with Done r => Q r (disk s') | Crashed => I (disk s') end.

Lemma hoare_ret {A} P (a : A) (Q : result ChonkError A -> Disk -> Prop) I : (forall d, P d -> Q (Ok a) d) -> hoare P (mret a) Q I.
Proof. intros HQ s s' out HP [= <- <-]. by apply HQ. Qed.
Lemma hoare_throw {A} P e (Q : result ChonkError A -> Disk -> Prop) I : (forall d, P d -> Q (Err e) d) -> hoare P (fs_throw e) Q I.
Proof. intros HQ s s' out HP [= <- <-]. by apply HQ. Qed.
Lemma hoare_lift {A} P r (Q : result ChonkError A -> Disk -> Prop) I : (forall d, P d -> Q r d) -> hoare P (fs_lift r) Q I.
Proof. intros HQ s s' out HP [= <- <-]. by apply HQ. Qed.
Lemma hoare_bind {A B} P (m : fsm A) (f : A -> fsm B) (R : A -> Disk -> Prop) Q I :
  hoare P m (fun r d => match r with Ok a => R a d | Err e => Q (Err e) d end) I -> (forall a, hoare (R a) (f a) Q I) ->
  hoare P (m ≫= f) Q I.
Proof.
  intros Hm Hf s s' out HP E. unfold mbind, fsm_bind in E. destruct (m s) as [s1 o1] eqn:E1. specialize (Hm s s1 o1 HP E1).
  destruct o1 as [[a|e]|]; [exact (Hf a _ _ _ Hm E)|injection E as <- <-; exact Hm|injection E as <- <-; exact Hm].
Qed.
Lemma hoare_try {A B} P (m : fsm A) (f : result ChonkError A -> fsm B) (R : result ChonkError A -> Disk -> Prop) Q I :
  hoare P m R I -> (forall r, hoare (R r) (f r) Q I) -> hoare P (fs_try m ≫= f) Q I.
Proof.
  intros Hm Hf s s' out HP E. unfold mbind, fsm_bind, fs_try in E. destruct (m s) as [s1 o1] eqn:E1.
  specialize (Hm s s1 o1 HP E1). destruct o1 as [r|]; [exact (Hf r _ _ _ Hm E)|injection E as <- <-; exact Hm].
Qed.
Lemma hoare_conseq {A} (P P' : Disk -> Prop) (m : fsm A) (Q Q' : result ChonkError A -> Disk -> Prop) (I I' : Disk -> Prop) :
  hoare P' m Q' I' -> (forall d, P d -> P' d) -> (forall r d, Q' r d -> Q r d) -> (forall d, I' d -> I d) -> hoare P m Q I.
Proof.
  intros Hm HP HQ HI s s' out Hs E. specialize (Hm s s' out (HP _ Hs) E). destruct out; auto.
Qed.
Lemma hoare_io (P : Disk -> Prop) (f : Disk -> Disk) (Q : result ChonkError unit -> Disk -> Prop) (I : Disk -> Prop) :
  (forall d, P d -> Q (Ok tt) (f d) /\ Q (Err Io) d /\ Q (Err Io) (f d) /\ I d) -> hoare P (io f) Q I.
Proof.
  intros HP s s' out Hs E. destruct (HP _ Hs) as (H1 & H2 & H3 & H4). unfold io in E.
  destruct (list.head (schedule s)) as [[]|]; injection E as <- <-; done.
Qed.
Lemma hoare_io_read {A} (P : Disk -> Prop) (f : Disk -> A) (Q : result ChonkError A -> Disk -> Prop) (I : Disk -> Prop) :
  (forall d, P d -> Q (Ok (f d)) d /\ Q (Err Io) d /\ I d) -> hoare P (io_read f) Q I.
Proof.
  intros HP s s' out Hs E. destruct (HP _ Hs) as (H1 & H2 & H3). unfold io_read, io in E.
  destruct (list.head (schedule s)) as [[]|]; injection E as <- <-; done.
Qed.
Lemma hoare_observed {A : Type} (P : Disk -> Prop) (f : FsChonk -> gset (list Z)) (g : FsChonk -> A) (Q : result ChonkError A -> Disk -> Prop) I :
  (forall d a, P d -> Q (Ok a) d) -> hoare P (fun s => (with_observed (f s) s, Done (Ok (g s)))) Q I.
Proof. intros HQ s s' out Hs [= <- <-]. by apply HQ. Qed.

Lemma hoare_for_each {A} (f : A -> fsm unit) (Inv : list A -> Disk -> Prop) (Q : result ChonkError unit -> Disk -> Prop) I l :
  (forall pre x post, l = pre ++ x :: post ->
     hoare (Inv pre) (f x) (fun r d => match r with Ok _ => Inv (pre ++ [x]) d | Err e => Q (Err e) d end) I) ->
  (forall d, Inv l d -> Q (Ok tt) d) -> hoare (Inv []) (for_each f l) Q I.
Proof.
  intros Hf HQ. assert (forall post pre, l = pre ++ post -> hoare (Inv pre) (for_each f post) Q I) as H; [|by apply (H l [])].
  induction post as [|x post IH]; intros pre E; cbn [for_each].
  - apply hoare_ret. intros d Hd. apply HQ. by rewrite E, app_nil_r.
  - eapply hoare_bind; [by apply (Hf pre x post)|]. intros []. apply IH. by rewrite <- app_assoc.
Qed.

Section spec.
Context {CB : Ciborium} {B2 : Blake2s256}.

(** ** Reading *)

(** The update that a record file makes visible. *)
Definition visible (records : gmap (list Z) (list Z)) (h : list Z) : option Aum :=
  b ← records !! h; match parse_record h b with Ok o => o | Err _ => None end.

Lemma record_field_corrupt s e x : record_field s e = Err x -> is_not_found x = false.
Proof.
  destruct s as [[seen av] pg]. unfold record_field, mbind, result_bind, map_err. intros E. repeat case_match; by simplify_eq.
Qed.
Lemma parse_record_corrupt h b e : parse_record h b = Err e -> is_not_found e = false.
Proof.
  unfold parse_record. destruct (_ >? _); [by intros [= <-]|]. destruct (decode_value b) as [v|]; cbn; [|by intros [= <-]].
  destruct (expect_map v) as [m|]; cbn; [|by intros [= <-]].
  destruct (try_fold record_field m _) as [[[seen av] pg]|x] eqn:Ef; cbn.
  - destruct pg; [done|]. destruct av as [[]|]; cbn; try done; try (by intros [= <-]); unfold map_err, mbind, result_bind; intros E; repeat case_match; by simplify_eq.
  - intros [= <-]. revert Ef. generalize ([] : list Z, @None Value, false). induction m as [|y m IH]; intros s; cbn; [done|].
    destruct (record_field s y) as [s1|x1] eqn:E1; cbn; [apply IH|]. intros [= <-]. by eapply record_field_corrupt.
Qed.

Lemma hoare_read (P : Disk -> Prop) h I : (forall d, P d -> I d) ->
  hoare P (read_aum_unlocked h) (fun r d => P d /\
    match r with
    | Ok a => visible (d_records d) h = Some a
    | Err (NotFound _) => visible (d_records d) h = None
    | Err _ => True
    end) I.
Proof.
  intros HPI. unfold read_aum_unlocked.
  eapply (hoare_bind _ _ _ (fun file d => P d /\ d_records d !! h = file)); [apply hoare_io_read; by auto|]. intros file.
  eapply (hoare_bind _ _ _ (fun _ d => P d /\ d_records d !! h = file)).
  { intros s s' out Hs [= <- <-]. done. }
  intros seen. assert (forall d, P d /\ d_records d !! h = file -> match file with Some b => parse_record h b = Ok None | None => True end ->
    match (if seen : bool then Corrupt "previously observed AUM disappeared" else NotFound h) with
    | NotFound _ => visible (d_records d) h = None | _ => True end) as Habs.
  { intros d [_ E] Hf. destruct seen; [done|]. unfold visible. rewrite E. destruct file as [b|]; [|done]. cbn. by rewrite Hf. }
  destruct file as [b|]; [|apply hoare_throw; intros d Hd; split; [apply Hd|by apply Habs]].
  destruct (parse_record h b) as [[a|]|e] eqn:Ep.
  - eapply (hoare_bind _ _ _ (fun o d => (P d /\ d_records d !! h = Some b) /\ o = Some a)); [apply hoare_lift; by intros|].
    intros o. intros s s' out [[HP Hr] ->] [= <- <-]. cbn. split; [done|]. unfold visible. rewrite Hr. cbn. by rewrite Ep.
  - eapply (hoare_bind _ _ _ (fun o d => (P d /\ d_records d !! h = Some b) /\ o = None)); [apply hoare_lift; by intros|].
    intros o s s' out [Hd ->] [= <- <-]. split; [apply Hd|]. by apply Habs.
  - eapply (hoare_bind _ _ _ (fun o d => False)); [|by intros o s s' out []]. apply hoare_lift. intros d [HP _]. split; [done|].
    apply parse_record_corrupt in Ep. by destruct e.
Qed.

(** The updates that a disk makes visible. *)
Definition fs_view (d : Disk) : gmap (list Z) Aum := map_imap (fun h _ => visible (d_records d) h) (d_records d).
Lemma lookup_fs_view d h : fs_view d !! h = visible (d_records d) h.
Proof. unfold fs_view. rewrite map_lookup_imap. unfold visible. by destruct (d_records d !! h). Qed.

(** ** A record is read back *)

Context {CBL : CiboriumLaws} {BL : Blake2s256Laws}.

Lemma fits_record a created : aum_ok a -> is_u64 created ->
  fits (S MAX_NESTING) (Map [(Integer 2, aum_to_value a); (Integer 3, Integer created)]) = true.
Proof.
  intros Ha Hc. change (S MAX_NESTING) with (S (S 15)). rewrite fits_Map. cbn [forallb fst snd].
  rewrite (fits_aum_at 9 a Ha), !(fits_u64 15) by (done || unfold is_u64; lia). done.
Qed.
Lemma encode_record_ok a created : aum_ok a ->
  encode_record a created = Ret (encode_value (Map [(Integer 2, aum_to_value a); (Integer 3, Integer created)])).
Proof.
  intros Ha. unfold encode_record, aum_encode, encode_value at 1. rewrite into_writer_rfc8949 by (by apply fits_aum).
  by rewrite from_reader_rfc8949 by (by apply fits_aum).
Qed.

Definition record_bytes (created : Z) (a : Aum) : list Z :=
  match encode_record a created with Ret b => b | Panic => [] end.

(** An update that a record file can hold. *)
Definition storable (created : Z) (a : Aum) : Prop :=
  aum_ok a /\ zlen (record_bytes created a) <= MAX_CBOR_BYTES.
#[global] Instance storable_dec created a : Decision (storable created a).
Proof. apply _. Defined.

Lemma aum_fits_record a created : aum_ok a -> is_u64 created ->
  zlen (aum_encode a) <= zlen (encode_value (Map [(Integer 2, aum_to_value a); (Integer 3, Integer created)])).
Proof.
  intros Ha Hc. unfold aum_encode, encode_value.
  rewrite !into_writer_rfc8949 by (by apply fits_aum || apply fits_record).
  cbn [rfc8949 map concat fst snd]. unfold zlen. rewrite !length_app. lia.
Qed.

Lemma record_fields v created : is_u64 created ->
  try_fold record_field [(Integer 2, v); (Integer 3, Integer created)] ([], None, false) = Ok ([3; 2], Some v, false).
Proof.
  intros Hc. assert (record_field ([], None, false) (Integer 2, v) = Ok ([2], Some v, false)) as E2 by reflexivity.
  assert (record_field ([2], Some v, false) (Integer 3, Integer created) = Ok ([3; 2], Some v, false)) as E3.
  { unfold record_field. cbn [fst snd]. rewrite expect_uint_ok by done. reflexivity. }
  cbn [try_fold]. rewrite E2. cbn [mbind result_bind]. by rewrite E3.
Qed.

Lemma record_readback created a : is_u64 created -> storable created a ->
  parse_record (hash a) (record_bytes created a) = Ok (Some a).
Proof.
  intros Hc [Ha Hl]. unfold record_bytes in *. rewrite encode_record_ok in * by done. unfold parse_record.
  destruct (_ >? MAX_RECORD_BYTES) eqn:E; [unfold MAX_RECORD_BYTES in E; lia|].
  rewrite decode_encode_value by (by try apply fits_record). cbn [map_err mbind result_bind expect_map].
  rewrite record_fields by done. cbn [mbind result_bind ok_or].
  pose proof (aum_fits_record a created Ha Hc) as Hlen.
  assert (exists m, aum_to_value a = Map m) as [m Em] by (eexists; reflexivity). rewrite Em, <- Em.
  change (encode_value (aum_to_value a)) with (aum_encode a).
  assert (aum_decode (aum_encode a) = Ok a) as -> by (apply aum_roundtrip; [done|lia]).
  cbn [map_err mbind result_bind]. by rewrite bool_decide_eq_true_2.
Qed.

(** ** The transaction *)

Section txn.
Variables (created : Z) (d0 : Disk) (ps : list (list Z * Aum)).

(** Everything but the records of the batch is as in [d0]. *)
Definition rest_kept (d : Disk) : Prop :=
  d_last d = d_last d0 /\ forall h, h ∉ ps.*1 -> d_records d !! h = d_records d0 !! h.
(** The records of the batch are as in [d0], or gone, or all written. *)
Definition untouched (d : Disk) : Prop := forall h, h ∈ ps.*1 -> d_records d !! h = d_records d0 !! h.
Definition absent (l : list (list Z)) (d : Disk) : Prop := forall h, h ∈ l -> d_records d !! h = None.
Definition written (l : list (list Z * Aum)) (d : Disk) : Prop :=
  forall e, e ∈ l -> d_records d !! e.1 = Some (record_bytes created e.2).
Definition settled (d : Disk) : Prop :=
  rest_kept d /\ d_marker d = None /\ (untouched d \/ absent ps.*1 d \/ written ps d).
(** The batch is named by the marker. *)
Definition marked (d : Disk) : Prop :=
  rest_kept d /\ d_marker d = Some (concat ps.*1) /\ (length ps <= MAX_TRANSACTION_AUMS)%nat.
Definition in_txn (d : Disk) : Prop := marked d \/ settled d.

Lemma marked_txn d : marked d -> in_txn d.
Proof. by left. Qed.
Lemma clear_marked d : marked d -> (absent ps.*1 d \/ written ps d) -> settled (set_marker None d).
Proof. intros [[H1 H2] _] Hc. split; [done|]. split; [done|]. by right. Qed.
Lemma mark_txn d : (length ps <= MAX_TRANSACTION_AUMS)%nat -> in_txn d -> marked (set_marker (Some (concat ps.*1)) d).
Proof. by intros Hl [[[H1 H2] _]|[[H1 H2] _]]. Qed.
Lemma set_record_marked h b d : h ∈ ps.*1 -> marked d -> marked (set_record h b d).
Proof.
  intros Hh [[H1 H2] H3]. split; [|done]. split; [done|]. intros h' Hh'. rewrite <- (H2 h' Hh'). cbn.
  destruct b; [apply lookup_insert_ne|apply lookup_delete_ne]; congruence.
Qed.

Lemma hoare_mark : hoare in_txn (write_transaction_marker ps.*1)
  (fun r d => match r with Ok _ => marked d | Err _ => in_txn d end) in_txn.
Proof.
  unfold write_transaction_marker. rewrite length_fmap.
  destruct (Nat.ltb_spec MAX_TRANSACTION_AUMS (length ps)) as [Hl|Hl]; [by apply hoare_throw|].
  apply hoare_io. intros d Hd. pose proof (mark_txn d Hl Hd). auto using marked_txn.
Qed.

Lemma hoare_clear (P : Disk -> Prop) (c : Disk -> Prop) : (forall d, P d -> marked d) -> (forall d, P d -> c (set_marker None d)) ->
  (forall d, c d -> settled d) ->
  hoare P clear_transaction_marker (fun r d => match r with Ok _ => c d | Err _ => in_txn d end) in_txn.
Proof.
  intros H1 H2 H3. apply hoare_io. intros d Hd. specialize (H1 d Hd). specialize (H2 d Hd). unfold in_txn. eauto 8.
Qed.

Definition removed (d : Disk) : Prop := settled d /\ absent ps.*1 d.
Definition committed (d : Disk) : Prop := settled d /\ written ps d.

Lemma hoare_remove : hoare marked (_ ← for_each remove_transaction_record ps.*1; clear_transaction_marker)
  (fun r d => match r with Ok _ => removed d | Err _ => in_txn d end) in_txn.
Proof.
  eapply (hoare_bind _ _ _ (fun _ d => marked d /\ absent ps.*1 d)).
  - eapply (hoare_conseq _ (fun d => marked d /\ absent [] d)); [| |intros r d Hd; exact Hd|done].
    2: { intros d Hd. split; [done|]. intros h Hh. set_solver. }
    apply (hoare_for_each _ (fun pre d => marked d /\ absent pre d)); [|done].
    intros pre h post E. unfold remove_transaction_record. assert (h ∈ ps.*1) as Hh by (rewrite E; set_solver).
    eapply (hoare_bind _ _ _ (fun _ d => marked d /\ absent (pre ++ [h]) d)).
    + apply hoare_io. intros d [Hm Ha]. pose proof (set_record_marked h None d Hh Hm). split_and!; auto using marked_txn.
      intros h' Hh'. cbn. destruct (decide (h = h')) as [<-|Hne]; [by apply lookup_delete_eq|].
      rewrite lookup_delete_ne by done. apply Ha. apply elem_of_app in Hh' as [|?%list_elem_of_singleton]; congruence.
    + intros []. intros s s' out Hs [= <- <-]. done.
  - intros []. apply hoare_clear.
    + by intros d [].
    + intros d [Hm Ha]. split; [|done]. apply clear_marked; auto.
    + by intros d [].
Qed.

Lemma hoare_write : NoDup ps.*1 -> hoare marked (_ ← for_each (write_record created) ps; clear_transaction_marker)
  (fun r d => match r with Ok _ => committed d | Err _ => in_txn d end) in_txn.
Proof.
  intros Hnodup. eapply (hoare_bind _ _ _ (fun _ d => marked d /\ written ps d)).
  - eapply (hoare_conseq _ (fun d => marked d /\ written [] d)); [| |intros r d Hd; exact Hd|done].
    2: { intros d Hd. split; [done|]. intros h Hh. set_solver. }
    apply (hoare_for_each _ (fun pre d => marked d /\ written pre d)); [|done].
    intros pre e post E. unfold write_record. destruct (encode_record e.2 created) as [b|] eqn:Eb.
    2: { intros s s' out [Hm _] [= <- <-]. by left. }
    assert (e.1 ∈ ps.*1) as Hh by (rewrite E, fmap_app; set_solver).
    assert (e.1 ∉ pre.*1) as Hn. { rewrite E, fmap_app in Hnodup. apply list.NoDup_app in Hnodup as (_ & Hd & _).
      intros Hin. apply (Hd _ Hin). cbn. apply list_elem_of_here. }
    eapply (hoare_bind _ _ _ (fun _ d => marked d /\ written (pre ++ [e]) d)).
    + apply hoare_io. intros d [Hm Ha]. pose proof (set_record_marked e.1 (Some b) d Hh Hm). split_and!; auto using marked_txn.
      intros e' He'. cbn. apply elem_of_app in He' as [He'| ->%list_elem_of_singleton].
      * rewrite lookup_insert_ne; [by apply Ha|]. intros Heq. apply Hn. rewrite Heq. by apply list_elem_of_fmap_2.
      * rewrite lookup_insert_eq. unfold record_bytes. by rewrite Eb.
    + intros []. eapply (hoare_bind _ _ _ (fun _ d => marked d /\ written (pre ++ [e]) d)); [|by intros a; apply hoare_ret].
      eapply hoare_conseq; [apply (hoare_read (fun d => marked d /\ written (pre ++ [e]) d) e.1 in_txn)| | |];
        [by intros d [?%marked_txn _]|done| |done].
      intros [a|x] d [Hd _]; [done|apply marked_txn, Hd].
  - intros []. apply hoare_clear.
    + by intros d [].
    + intros d [Hm Ha]. split; [|done]. apply clear_marked; auto.
    + by intros d [].
Qed.

Lemma hoare_rollback : hoare in_txn
  (_ ← write_transaction_marker ps.*1; _ ← for_each remove_transaction_record ps.*1; clear_transaction_marker)
  (fun r d => match r with Ok _ => removed d | Err _ => in_txn d end) in_txn.
Proof.
  eapply (hoare_bind _ _ _ (fun _ => marked)); [|intros []; apply hoare_remove]. apply hoare_mark.
Qed.

Hypothesis Hlen : Forall (fun h => length h = 32%nat) ps.*1.

Lemma length_concat_hashes l : Forall (fun h : list Z => length h = 32%nat) l -> length (concat l) = (length l * 32)%nat.
Proof. induction 1 as [|h l Hh _ IH]; cbn; [done|]. rewrite length_app. lia. Qed.
Lemma chunks_concat l : Forall (fun h : list Z => length h = 32%nat) l -> chunks (length l) (concat l) = l.
Proof.
  induction 1 as [|h l Hh _ IH]; cbn; [done|]. rewrite take_app_length', drop_app_length' by done. by rewrite IH.
Qed.

(** Recovery, from any point of a transaction. *)
Lemma hoare_recover : hoare in_txn recover_transaction_unlocked
  (fun r d => match r with Ok _ => settled d | Err _ => in_txn d end) in_txn.
Proof.
  unfold recover_transaction_unlocked.
  eapply (hoare_bind _ _ _ (fun m d => in_txn d /\ d_marker d = m)); [by apply hoare_io_read; auto|].
  intros [bytes|]; [|apply hoare_ret; intros d [[(_ & Hm & _)|Hd] E]; [congruence|done]].
  destruct (negb _ || _) eqn:Eg; [by apply hoare_throw; intros d []|].
  intros s s' out [[Hm|(_ & Hm & _)] E]; [|congruence]. pose proof Hm as (_ & Hc & _). rewrite Hc in E. injection E as <-.
  rewrite length_concat_hashes, Nat.div_mul, chunks_concat by done. intros Hrun.
  pose proof (hoare_remove s s' out Hm Hrun) as H. destruct out as [[]|]; [apply H|done|done].
Qed.

(** The calls of a recovery without failures all succeed. *)
Lemma for_each_fine {A} (f : A -> fsm unit) l s : (forall x s, schedule s = [] -> exists s', f x s = (s', Done (Ok tt)) /\ schedule s' = []) ->
  schedule s = [] -> exists s', for_each f l s = (s', Done (Ok tt)) /\ schedule s' = [].
Proof.
  intros Hf. revert s. induction l as [|x l IH]; intros s Hs; cbn; [by exists s|]. destruct (Hf x s Hs) as (s1 & E & H1).
  unfold mbind, fsm_bind. rewrite E. by apply IH.
Qed.
Lemma io_fine f s : schedule s = [] -> exists s', io f s = (s', Done (Ok tt)) /\ schedule s' = [].
Proof. intros Hs. unfold io. rewrite Hs. eauto. Qed.

Lemma recover_returns d : in_txn d -> exists s, fs_open d [] = (s, Done (Ok tt)).
Proof.
  intros Hd. unfold fs_open, recover_transaction_unlocked, mbind at 1, fsm_bind, io_read, io. cbn -[Nat.modulo Nat.div Nat.ltb].
  destruct Hd as [(_ & -> & Hn)|(_ & -> & _)]; [|cbn; eauto]. rewrite length_concat_hashes by done.
  rewrite Nat.Div0.mod_mul, Nat.div_mul, length_fmap, (proj2 (Nat.ltb_ge _ _)) by done. cbn.
  edestruct (for_each_fine remove_transaction_record (chunks (length ps) (concat ps.*1))) as (s & E & Hs); [| |].
  3: { unfold mbind, fsm_bind. rewrite E. destruct (io_fine (set_marker None) s Hs) as (s' & E' & _). eauto. }
  - intros h s1 H1. destruct (io_fine (set_record h None) s1 H1) as (s2 & E2 & H2).
    unfold remove_transaction_record, mbind, fsm_bind. rewrite E2. cbn. eauto.
  - done.
Qed.
End txn.

(** ** Storing *)

Section store.
Variables (created : Z) (d0 : Disk).

(** [ps] is what the loop found to be new among the updates of [l]. *)
Definition fresh_of (l : list Aum) (ps : list (list Z * Aum)) : Prop :=
  NoDup ps.*1 /\ Forall (fun e => e.1 = hash e.2 /\ e.2 ∈ l /\ visible (d_records d0) e.1 = None) ps /\
  forall h, visible (d_records d0) h = None -> (list_to_map ps : gmap (list Z) Aum) !! h = batch l !! h.

Lemma batch_app_one l a h : batch (l ++ [a]) !! h = union (batch l !! h) (if decide (hash a = h) then Some a else None).
Proof.
  unfold batch. rewrite map_app, list_to_map_app, lookup_union. f_equal. cbn. rewrite insert_empty.
  by rewrite lookup_singleton.
Qed.

Lemma fresh_entries_snoc l ps a :
  Forall (fun e => e.1 = hash e.2 /\ e.2 ∈ l /\ visible (d_records d0) e.1 = None) ps ->
  Forall (fun e => e.1 = hash e.2 /\ e.2 ∈ l ++ [a] /\ visible (d_records d0) e.1 = None) ps.
Proof. intros H. eapply list.Forall_impl; [exact H|]. intros e (H1 & H2 & H3). split; [done|]. split; [apply elem_of_app; by left|done]. Qed.

Lemma fresh_skip l ps a : fresh_of l ps -> visible (d_records d0) (hash a) = Some a -> fresh_of (l ++ [a]) ps.
Proof.
  intros (H1 & H2 & H3) Ha. split; [done|]. split; [by apply fresh_entries_snoc|].
  intros h Hh. rewrite batch_app_one, decide_False by congruence. rewrite H3 by done. by destruct (batch l !! h).
Qed.
Lemma fresh_known l ps a : fresh_of l ps -> visible (d_records d0) (hash a) = None -> hash a ∈ ps.*1 -> fresh_of (l ++ [a]) ps.
Proof.
  intros (H1 & H2 & H3) Ha Hin. split; [done|]. split; [by apply fresh_entries_snoc|].
  intros h Hh. rewrite batch_app_one, H3 by done. destruct (decide (hash a = h)) as [<-|]; [|by destruct (batch l !! h)].
  rewrite <- H3 by done. apply list_elem_of_fmap in Hin as (e & He & Hin).
  assert ((list_to_map ps : gmap (list Z) Aum) !! hash a = Some e.2) as ->; [|done].
  apply elem_of_list_to_map_1; [done|]. rewrite He. by destruct e.
Qed.
Lemma fresh_new l ps a : fresh_of l ps -> visible (d_records d0) (hash a) = None -> hash a ∉ ps.*1 ->
  fresh_of (l ++ [a]) (ps ++ [(hash a, a)]).
Proof.
  intros (H1 & H2 & H3) Ha Hin. split; [|split].
  - rewrite fmap_app. apply list.NoDup_app. split; [done|]. split; [|apply NoDup_singleton].
    intros h Hh ->%list_elem_of_singleton. done.
  - apply list.Forall_app. split; [by apply fresh_entries_snoc|].
    constructor; [|constructor]. split; [done|]. split; [apply elem_of_app; right; apply list_elem_of_here|done].
  - intros h Hh. rewrite batch_app_one, list_to_map_app, lookup_union, H3 by done. f_equal. cbn.
    by rewrite insert_empty, lookup_singleton.
Qed.

Lemma hoare_preflight aums : forall pre ps, fresh_of pre ps ->
  hoare (fun d => d = d0) (preflight aums ps)
    (fun r d => d = d0 /\ match r with Ok ps' => fresh_of (pre ++ aums) ps' | Err _ => True end) (fun d => d = d0).
Proof.
  induction aums as [|a aums IH]; intros pre ps Hps; cbn [preflight].
  { apply hoare_ret. intros d ->. by rewrite app_nil_r. }
  eapply hoare_try; [apply (hoare_read (fun d => d = d0)); done|]. cbn.
  rewrite (cons_middle a pre aums), (app_assoc pre [a] aums). intros [b|e].
  - case_bool_decide as Hb; [subst b|apply hoare_throw; by intros d []].
    intros s s' out [Hd Hv]. rewrite Hd in Hv. exact (IH (pre ++ [a]) ps (fresh_skip pre ps a Hps Hv) s s' out Hd).
  - destruct (is_not_found e) eqn:Ee; [|apply hoare_throw; by intros d []].
    intros s s' out [Hd Hv]. destruct e; try discriminate Ee. rewrite Hd in Hv.
    refine (IH (pre ++ [a]) _ _ s s' out Hd). case_bool_decide; [by apply fresh_known|by apply fresh_new].
Qed.

Lemma fresh_lengths l ps : fresh_of l ps -> Forall (fun h => length h = 32%nat) ps.*1.
Proof.
  intros (_ & H & _). apply list.Forall_fmap. eapply list.Forall_impl; [exact H|]. intros e (E & _). cbn. rewrite E.
  apply blake2s256_length.
Qed.

Lemma hoare_store aums : d_marker d0 = None ->
  hoare (fun d => d = d0) (store_verified_aums created aums)
    (fun r d => match r with
       | Ok n => exists ps, fresh_of aums ps /\ n = length ps /\ committed created d0 ps d
       | Err _ => d = d0 \/ exists ps, fresh_of aums ps /\ in_txn created d0 ps d
       end)
    (fun d => d = d0 \/ exists ps, fresh_of aums ps /\ in_txn created d0 ps d).
Proof.
  intros Hm. unfold store_verified_aums.
  eapply (hoare_bind _ _ _ (fun ps d => d = d0 /\ fresh_of aums ps)).
  { eapply hoare_conseq; [apply (hoare_preflight aums [] [])| | |]; [|done| |by left].
    - split; [constructor|]. split; [constructor|]. done.
    - intros [ps|e] d [-> H]; [done|by left]. }
  intros ps s s' out [Hd Hps]. assert (settled created d0 ps (disk s)) as Hs.
  { rewrite Hd. split; [done|]. split; [done|]. by left. }
  case_bool_decide as En.
  { intros [= <- <-]. exists ps. rewrite En. rewrite En in Hs, Hps. split; [done|]. split; [done|].
    split; [done|]. by intros e He%elem_of_nil. }
  assert (hoare (in_txn created d0 ps)
    (_ ← write_transaction_marker ps.*1;
     result ← fs_try (_ ← for_each (write_record created) ps; clear_transaction_marker);
     match result with
     | Ok _ => mret (length ps)
     | Err error =>
         rollback ← fs_try (_ ← write_transaction_marker ps.*1;
                            _ ← for_each remove_transaction_record ps.*1;
                            clear_transaction_marker);
         match rollback with
         | Err _ => fs_throw (Corrupt "transaction failed; rollback failed")
         | Ok _ => fs_throw error
         end
     end)
    (fun r d => match r with Ok n => n = length ps /\ committed created d0 ps d | Err _ => in_txn created d0 ps d end)
    (in_txn created d0 ps)) as H.
  - eapply hoare_bind; [apply hoare_mark|]. intros []. eapply hoare_try; [apply hoare_write, Hps|].
    intros [[]|e]; [by apply hoare_ret|]. eapply hoare_try; [apply hoare_rollback|].
    intros [[]|e']; apply hoare_throw; [|done]. intros d [Hr _]. by right.
  - intros Hrun. specialize (H s s' out (or_intror Hs) Hrun). destruct out as [[n|e]|]; [|by right; eauto..]. destruct H. eauto.
Qed.

Lemma visible_kept ps d h : rest_kept d0 ps d -> h ∉ ps.*1 -> visible (d_records d) h = visible (d_records d0) h.
Proof. intros [_ Hr] Hh. unfold visible. by rewrite Hr. Qed.

(** A settled disk shows the old updates, or the old ones and the batch. *)
Lemma settled_old l ps d : fresh_of l ps -> settled created d0 ps d -> untouched d0 ps d \/ absent ps.*1 d -> fs_view d = fs_view d0.
Proof.
  intros (_ & Hf & _) (Hr & _ & _) Hc. apply map_eq. intros h. rewrite !lookup_fs_view.
  destruct (decide (h ∈ ps.*1)) as [Hh|Hh]; [|by eapply visible_kept]. destruct Hc as [Hu|Ha].
  - unfold visible. by rewrite Hu.
  - apply list_elem_of_fmap in Hh as (e & -> & He). rewrite list.Forall_forall in Hf. destruct (Hf e He) as (_ & _ & ->).
    unfold visible. rewrite Ha; [done|]. by apply list_elem_of_fmap_2.
Qed.
Lemma settled_new l ps d : is_u64 created -> Forall (storable created) l -> fresh_of l ps -> committed created d0 ps d ->
  fs_view d = fs_view d0 ∪ batch l.
Proof.
  intros Hc Hst (Hn & Hf & Hb) [(Hr & _ & _) Hw]. apply map_eq. intros h. rewrite lookup_union, !lookup_fs_view.
  rewrite list.Forall_forall in Hf. rewrite list.Forall_forall in Hst. destruct (decide (h ∈ ps.*1)) as [Hh|Hh].
  - apply list_elem_of_fmap in Hh as (e & -> & He). destruct (Hf e He) as (Eh & Hl & Hv). rewrite Hv, <- Hb by done.
    rewrite (elem_of_list_to_map_1 ps e.1 e.2) by (try done; by destruct e). unfold visible. rewrite Hw by done. cbn.
    rewrite Eh, record_readback by auto. done.
  - rewrite (visible_kept ps) by done. destruct (visible (d_records d0) h) eqn:Ev; [by destruct (batch l !! h)|].
    rewrite <- Hb by done. by rewrite not_elem_of_list_to_map_1.
Qed.
Lemma settled_view l ps d : is_u64 created -> Forall (storable created) l -> fresh_of l ps -> settled created d0 ps d ->
  fs_view d = fs_view d0 \/ fs_view d = fs_view d0 ∪ batch l.
Proof.
  intros Hc Hst Hf Hs. pose proof Hs as (_ & _ & [Hu|[Ha|Hw]]); [left; eapply settled_old; eauto..|].
  right. by eapply settled_new.
Qed.
End store.

(** ** Opening again *)

(** The store is opened one or more times, each opening failing, stopping or
    succeeding as its schedule says, the last one succeeding. *)
Inductive reopened : Disk -> Disk -> Prop :=
| reopened_once d faults s : fs_open d faults = (s, Done (Ok tt)) -> reopened d (disk s)
| reopened_again d faults s out d' : fs_open d faults = (s, out) -> reopened (disk s) d' -> reopened d d'.

Definition opened (d : Disk) (faults : list fault) : FsChonk := {| disk := d; observed := ∅; schedule := faults |}.

Lemma reopened_settled created d0 ps d d' : Forall (fun h => length h = 32%nat) ps.*1 ->
  reopened d d' -> in_txn created d0 ps d -> settled created d0 ps d'.
Proof.
  intros Hl. induction 1 as [d faults s E|d faults s out d' E _ IH]; intros Hd.
  - exact (hoare_recover created d0 ps Hl (opened d faults) _ _ Hd E).
  - apply IH. pose proof (hoare_recover created d0 ps Hl (opened d faults) _ _ Hd E) as H. destruct out as [[u|e]|]; [by right|done|done].
Qed.
Lemma reopened_clean d d' : reopened d d' -> d_marker d = None -> d' = d.
Proof.
  assert (forall faults s out, d_marker d = None -> fs_open d faults = (s, out) -> disk s = d) as Hopen.
  { intros faults s out Hm. unfold fs_open, recover_transaction_unlocked, mbind, fsm_bind, io_read, io. cbn.
    destruct (list.head faults) as [[]|]; cbn; rewrite ?Hm; by intros [= <- _]. }
  induction 1 as [d faults s E|d faults s out d' E _ IH]; intros Hm; [by eapply Hopen|].
  rewrite (Hopen faults s out Hm E) in IH. apply IH; [|done]. exact Hopen.
Qed.
End spec.
