(* ===== verification/TkaDemo.v ===== *)
(** * Concrete parameters for the tailnet-lock components

    A CBOR codec that satisfies [CiboriumLaws], a 32-byte hash and a signature
    scheme, simple enough to evaluate.  They show that the laws asked of the
    [ciborium], [blake2] and [ed25519-dalek] crates can hold together; nothing
    else depends on them. *)

From S2P Require Import Prelude Bytes Keys Order Utf8 Crypto Cbor TkaAum TkaSig.

(** ** CBOR *)

Fixpoint read_n {A} (item : list Z -> option (A * list Z)) (n : nat) (data : list Z) : option (list A * list Z) :=
  match n with
  | O => Some ([], data)
  | S n => '(x, data) ← item data; '(l, data) ← read_n item n data; Some (x :: l, data)
  end.

Definition read_body (item : list Z -> option (Value * list Z)) (major arg : Z) (rest : list Z) : option (Value * list Z) :=
  if major =? 0 then Some (Integer arg, rest)
  else if major =? 1 then Some (Integer (-1 - arg), rest)
  else if major =? 2 then Some (Bytes (take (Z.to_nat arg) rest), drop (Z.to_nat arg) rest)
  else if major =? 3 then Some (Text (take (Z.to_nat arg) rest), drop (Z.to_nat arg) rest)
  else if major =? 4 then '(l, rest) ← read_n item (Z.to_nat arg) rest; Some (Array l, rest)
  else if major =? 5 then
    '(l, rest) ← read_n (fun d => '(k, d) ← item d; '(v, d) ← item d; Some ((k, v), d)) (Z.to_nat arg) rest; Some (Map l, rest)
  else if major =? 7 then
    if arg =? 20 then Some (Bool false, rest) else if arg =? 21 then Some (Bool true, rest)
    else if arg =? 22 then Some (Null, rest) else None
  else None.

Fixpoint read_item (k : nat) (data : list Z) : option (Value * list Z) :=
  match k with
  | O => None
  | S k =>
      initial ← data !! 0%nat;
      match scan_argument data 0 (Z.land initial 0x1f) with
      | Ok (arg, c) => read_body (read_item k) (Z.shiftr initial 5) arg (drop c data)
      | Err _ => None
      end
  end.

Lemma read_head k major arg post : 0 <= arg < 2 ^ 64 ->
  read_item (S k) (item_head major arg ++ post) = read_body (read_item k) major arg post.
Proof.
  intros Ha. destruct (scan_head major arg [] post Ha) as (i & Hi & Hm & Hs). cbn [app length] in *.
  cbn [read_item]. rewrite Hi. cbn. rewrite Hs, Hm. by rewrite Nat.add_0_l, drop_app_length.
Qed.

Lemma read_n_concat {A} (item : list Z -> option (A * list Z)) (g : A -> list Z) l post :
  (forall x q, x ∈ l -> item (g x ++ q) = Some (x, q)) -> read_n item (length l) (concat (map g l) ++ post) = Some (l, post).
Proof.
  induction l as [|x l IH]; intros Hi; cbn; [done|]. rewrite <- app_assoc, Hi by left. cbn. rewrite IH; [done|].
  intros y q Hy. apply Hi. by right.
Qed.

Lemma read_rfc8949 k : forall v post, fits k v = true -> read_item k (rfc8949 v ++ post) = Some (v, post).
Proof.
  induction k as [|k IH]; intros v post Hf; [done|].
  destruct v as [n|b|bits|s|b| |t v|a|m]; cbn [fits rfc8949] in *; try discriminate Hf; rewrite ?andb_true_iff in Hf.
  - destruct Hf as [H1%Z.leb_le H2%Z.ltb_lt]. destruct (Z.leb_spec 0 n); rewrite read_head by lia; [done|].
    unfold read_body. cbn [Z.eqb Pos.eqb]. do 3 f_equal. lia.
  - destruct Hf as [_ H%Z.ltb_lt]. rewrite <- app_assoc, read_head by (unfold zlen in *; lia). unfold read_body. cbn [Z.eqb Pos.eqb].
    by rewrite zlen_Z_to_nat, take_app_length, drop_app_length.
  - destruct Hf as [_ H%Z.ltb_lt]. rewrite <- app_assoc, read_head by (unfold zlen in *; lia). unfold read_body. cbn [Z.eqb Pos.eqb].
    by rewrite zlen_Z_to_nat, take_app_length, drop_app_length.
  - destruct b; [apply (read_head k 7 21)|apply (read_head k 7 20)]; lia.
  - apply (read_head k 7 22); lia.
  - destruct Hf as [H1 H2]. apply fits_lengths in H1 as [H1 H3]; [|done]. rewrite <- app_assoc, read_head by done.
    unfold read_body. cbn [Z.eqb Pos.eqb]. rewrite zlen_Z_to_nat, (read_n_concat _ rfc8949); [done|].
    intros x q Hx. apply IH. rewrite forallb_forall in H2. apply H2. by apply list_elem_of_In.
  - destruct Hf as [H1 H2]. apply fits_lengths in H1 as [H1 H3]; [|done]. rewrite <- app_assoc, read_head by done.
    unfold read_body. cbn [Z.eqb Pos.eqb]. rewrite zlen_Z_to_nat, (read_n_concat _ (fun e => rfc8949 e.1 ++ rfc8949 e.2)); [done|].
    intros [x y] q Hx. rewrite forallb_forall in H2. specialize (H2 (x, y) ltac:(by apply list_elem_of_In)).
    apply andb_true_iff in H2 as [Hk Hv]. cbn [fst snd]. rewrite <- app_assoc, IH by done. cbn. by rewrite IH.
Qed.

Definition demo_cbor : Ciborium := {|
  into_writer := rfc8949;
  from_reader data := match read_item (S MAX_NESTING) data with Some (v, []) => Ok v | _ => Err "cbor" end;
  canonical_cmp := Z.compare |}.
Lemma demo_cbor_laws : @CiboriumLaws demo_cbor.
Proof.
  constructor; [done| |done]. intros v Hf. cbn [from_reader demo_cbor].
  rewrite <- (app_nil_r (rfc8949 v)), read_rfc8949 by done. done.
Qed.

(** ** Signing *)

(** A key pair is 64 equal bytes; a signature is the digest of the public key
    and the message. *)
Definition demo_sign (pub m : list Z) : list Z := to_be_bytes 32 (demo_digest (pub ++ m)) ++ repeat 0 32.

Definition demo_ed25519 : Ed25519 := {|
  verifying_key := list Z;
  verifying_key_from_bytes b := if (length b =? 32)%nat then Some b else None;
  ed_signature := list Z;
  ed_signature_from_slice b := if (length b =? 64)%nat then Some b else None;
  verify_strict vk m sg := bool_decide (sg = demo_sign vk m);
  verify vk m sg := bool_decide (sg = demo_sign vk m);
  signing_key := Z;
  from_keypair_bytes b := match b with x :: _ => if (length b =? 64)%nat then Some (x mod 256) else None | [] => None end;
  signing_public sk := repeat (sk mod 256) 32;
  ed_sign sk m := demo_sign (repeat (sk mod 256) 32) m |}.

Lemma demo_sign_length pub m : length (demo_sign pub m) = 64%nat.
Proof. unfold demo_sign. rewrite length_app, length_to_be_bytes. done. Qed.

Lemma demo_ed25519_laws : @Ed25519Laws demo_ed25519.
Proof.
  constructor.
  - intros sk m. eexists _, _. cbn [verifying_key_from_bytes ed_signature_from_slice verify_strict verify signing_public ed_sign demo_ed25519].
    rewrite repeat_length, demo_sign_length. split; [done|]. split; [done|]. by rewrite !bool_decide_eq_true_2.
  - intros sk. split; [apply repeat_length|]. apply list.Forall_forall. intros x ->%list_elem_of_In%repeat_spec.
    pose proof (Z.mod_pos_bound sk 256). unfold is_u8. lia.
  - intros sk m. split; [apply demo_sign_length|]. cbn [ed_sign demo_ed25519]. unfold demo_sign. apply wf_bytes_app. split; [apply wf_to_be_bytes|].
    by repeat constructor.
Qed.
