(* ===== verification/TkaSpec.v ===== *)
(** * What tailnet lock promises

    The theorems about [crates/tka] as a whole, over any store that keeps the
    laws of the trait, with concrete instances of each. *)

From S2P Require Import Prelude Bytes Keys Order Utf8 Crypto Cbor TkaAum TkaCodec TkaSig TkaSigSpec TkaChonk TkaAuthority TkaTrust TkaState TkaFork TkaSync TkaBuild TkaFs TkaFsSpec TkaDemo.

Section claims.
Context {CB : Ciborium} {B2 : Blake2s256} {ED : Ed25519}.

(** C4. Trust goes back to the genesis update: whatever a node was told since it was
    bootstrapped from [g], with or without success, the state of its authority is the replay of a
    chain of updates from [g] to the head, in which every update carries
    signatures, all of them by keys that were trusted right before it; the state
    is well formed and has the identifiers of the genesis state. *)
Theorem tka_trust_rooted {S} {CH : Chonk S} {CL : ChonkLaws S} g (s : S) au :
  tka_reachable g s (Some au) ->
  exists path, chain g path (au_state au) /\ list.last (g :: path) = Some (au_head au) /\
    (forall p1 u p2, path = p1 ++ u :: p2 ->
       exists st, chain g p1 st /\ signatures u <> [] /\ Forall (signed_by_trusted st (sig_hash u)) (signatures u)) /\
    chain_inv g (au_head au) (au_state au).
Proof.
  intros (_ & _ & Hr)%tka_reachable_rooted. pose proof (Hr au eq_refl) as Hau. pose proof Hau as (path & Hc & Hl).
  exists path. split; [done|]. split; [done|]. split; [by eapply chain_signed|by apply rooted_inv].
Qed.

(** C7. Two nodes that hold the same updates and the same hint, in stores of any two
    kinds, open the same authority, whatever order the updates came in. *)
Theorem tka_converges {S1 S2} {C1 : Chonk S1} {L1 : ChonkLaws S1} {C2 : Chonk S2} {L2 : ChonkLaws S2}
  (s1 : S1) (s2 : S2) s1' s2' a1 a2 :
  good s1 -> good s2 -> view s1 = view s2 -> hint s1 = hint s2 ->
  authority_open s1 = (s1', Ok a1) -> authority_open s2 = (s2', Ok a2) -> a1 = a2.
Proof.
  intros G1 G2 Hv Hh E1 E2. pose proof (view_keyed s1 G1) as Hk. apply (authority_of_unique (view s1) (hint s1)); [done| |].
  - by eapply (reads_open_of (view s1) (hint s1) Hk s1 _ _ G1 eq_refl eq_refl E1).
  - by eapply (reads_open_of (view s1) (hint s1) Hk s2 _ _ G2 (eq_sym Hv) (eq_sym Hh) E2).
Qed.


(** C16. A node key is authorized exactly by a decodable signature that is not a bare
    credential, names a trusted key as its authorizing key, and is vouched for by
    that key: directly, or through at most 15 rotations, each signed by the
    wrapping key of the one before. *)
Theorem node_authorized_iff_vouched au node_key m d :
  node_key_authorized au node_key m = Ok d <->
  exists s id k, nks_decode m = Ok s /\ sig_kind s <> Credential /\ authorizing_key_id s = Some id /\
    state_key (au_state au) id = Some k /\ vouched (k_public k) s node_key /\ (nks_depth s <= MAX_ROTATION_DEPTH)%nat /\
    d = verified_details s.
Proof.
  unfold node_key_authorized, verify_signature. split.
  - intros (s & Hs%map_err_inv & H)%result_bind_inv. case_bool_decide as Hk; [done|].
    apply result_bind_inv in H as (id & Hid%ok_or_inv & H). apply result_bind_inv in H as (k & Hkey%ok_or_inv & H%map_err_inv).
    destruct (verify_inner_sound s _ _ _ _ H) as (Hv & Hd & ->). exists s, id, k. split_and!; try done. lia.
  - intros (s & id & k & Hs & Hk & Hid & Hkey & Hv & Hd & ->). rewrite Hs. cbn. rewrite bool_decide_eq_false_2 by done.
    rewrite Hid. cbn. rewrite Hkey. cbn. by rewrite (verify_inner_complete s node_key (k_public k) 0 Hv) by lia.
Qed.

Lemma authorized_vouched au node_key m s id k :
  nks_decode m = Ok s -> sig_kind s <> Credential -> authorizing_key_id s = Some id -> state_key (au_state au) id = Some k ->
  vouched (k_public k) s node_key -> (nks_depth s <= MAX_ROTATION_DEPTH)%nat ->
  node_key_authorized au node_key m = Ok (verified_details s).
Proof.
  intros Hs Hk Hid Hkey Hv Hd. unfold node_key_authorized, verify_signature. rewrite Hs. cbn. rewrite bool_decide_eq_false_2 by done.
  rewrite Hid. cbn. rewrite Hkey. cbn. by rewrite (verify_inner_complete s node_key (k_public k) 0 Hv) by lia.
Qed.

(** C29. Delegation by a wrapped auth key: from a credential that a trusted key
    signed, the holder of the credential's private key makes a signature that
    authorizes the node key it chose, and that is traced back to the credential. *)
Theorem delegated_key_authorized {CBL : CiboriumLaws} {BL : Blake2s256Laws} {EL : Ed25519Laws} au c sk node_key id k :
  nks_ok c -> sig_kind c = Credential -> nested c = None -> wrapping_pubkey c = Some (signing_public sk) ->
  nk_key_id c = Some id -> state_key (au_state au) id = Some k -> signed_with verify_strict (k_public k) c ->
  field_ok node_key ->
  exists m, sign_by_credential c sk node_key = Ok m /\
    (zlen m <= MAX_CBOR_BYTES ->
     exists d, node_key_authorized au node_key m = Ok (Some d) /\ initial_sig d = Some c).
Proof.
  intros Hok Hck Hn Hw Hid Hk Hsig Hnk. unfold sign_by_credential. rewrite bool_decide_eq_true_2 by done. cbn [negb].
  eexists. split; [reflexivity|]. intros Hlen. set (s := NKS Rotation (Some node_key) None _ (Some c) None) in *.
  destruct (signing_public_ok sk) as [Hp1 Hp2]. set (m0 := nks_sig_hash (NKS Rotation (Some node_key) None None (Some c) None)) in *.
  assert (nks_sig_hash s = m0) as Em by reflexivity. destruct (ed_sign_ok sk m0) as [Hs1 Hs2].
  assert (nks_depth s = 1%nat) as Hdepth by (unfold s; cbn; by rewrite nks_depth_leaf).
  exists (rotation_details s). split.
  - apply (authorized_vouched au node_key _ s id k); try done; [|by unfold s; destruct c; cbn in *; subst| |rewrite Hdepth; unfold MAX_ROTATION_DEPTH; lia].
    + apply nks_roundtrip; [|rewrite Hdepth; unfold MAX_ROTATION_DEPTH; lia|done].
      split; [done|]. split; [done|]. split; [|done]. split; [by destruct (ed_sign sk m0)|]. split; [done|]. unfold zlen. rewrite Hs1. lia.
    + apply (vouched_rotation (k_public k) s node_key c (signing_public sk) []); try done.
      * unfold s. destruct c; cbn in *. subst. by destruct (signing_public sk).
      * destruct (sign_verifies sk m0) as (vk & sg & E1 & E2 & _ & E3). exists (ed_sign sk m0), vk, sg.
        split; [done|]. unfold parse_verifying_key, parse_signature. by rewrite Hp1, E1, E2.
      * unfold nested_key. by rewrite bool_decide_eq_true_2.
      * by apply vouched_credential.
  - unfold rotation_details, s. cbn [nested]. destruct c; cbn in *. subst. cbn. done.
Qed.

(** C30. What the builder makes, [inform] accepts: updates built step by step on the
    authority of a node, signed with a key that is trusted throughout, and
    finalized (with the checkpoint that [finalize] may add), are each verified
    and stored when the node that holds none of them is informed of them. *)
Theorem built_updates_accepted {CBL : CiboriumLaws} {BL : Blake2s256Laws} {EL : Ed25519Laws} g sk au b (s s' : MemState) l :
  tka_reachable g s (Some au) -> built sk au b -> ub_finalize b s = (s', Ok l) ->
  l <> [] -> Forall (fun u => view s !! hash u = None) l ->
  exists s2, inform au l s = authority_open s2 /\ view s2 = view s ∪ batch l /\ hint s2 = hint s /\
    exists st, try_fold replay_one l (au_state au) = Ok st /\ trusts sk st.
Proof.
  intros (Hg & Hr & Hau)%tka_reachable_rooted Hb Hf Hl Hnew.
  pose proof (ci_last _ _ _ (rooted_inv _ _ _ (Hau au eq_refl))) as Hlast.
  apply (finalize_built sk au) in Hf as (-> & b' & Hb' & ->); [|done|done].
  destruct (built_spec sk au b' Hlast Hb') as [_ _ Ht _ Hrep _ Hlk].
  destruct (c_store_verified_aums (ub_updates b') s) as [s2 r2] eqn:E2. pose proof E2 as E2'.
  apply store_law in E2 as [(Hg2 & Hh2 & _ & _) Hok]; [|done]. destruct r2 as [n|e].
  2: { exfalso. clear -E2'. cbn in E2'. unfold mem_store_verified_aums in E2'. by destruct (foldl _ _ _). }
  exists s2. split; [|split; [done|]; split; [done|]; eauto].
  unfold inform. rewrite bool_decide_eq_false_2 by done. unfold mbind at 1, prog_bind.
  rewrite (stage_fresh (ub_updates b') s {[head_hash au := au_state au]} [] (au_state au) (head_hash au) (ub_state b')); cbn [app]; try done.
  - unfold mbind, prog_bind, storage, prog_map_err. by rewrite E2'.
  - by rewrite lookup_singleton_eq.
Qed.

(** C31. Updates and node-key signatures survive their canonical encoding, and the
    encoding of an update determines it, so that its hash covers all of it. *)
Theorem tka_codec_roundtrip {CBL : CiboriumLaws} a b s :
  aum_ok a -> aum_ok b -> zlen (aum_encode a) <= MAX_CBOR_BYTES ->
  nks_ok s -> (nks_depth s <= MAX_ROTATION_DEPTH)%nat -> zlen (nks_encode s) <= MAX_CBOR_BYTES ->
  aum_decode (aum_encode a) = Ok a /\ (aum_encode a = aum_encode b -> a = b) /\ nks_decode (nks_encode s) = Ok s.
Proof. intros. split; [by apply aum_roundtrip|]. split; [by apply aum_encode_inj|]. by apply nks_roundtrip. Qed.

(** C11. The file store keeps a batch as a whole or not at all.  Whatever calls of the
    file system fail, before or after their effect, and wherever the process
    stops while a batch is stored; whatever fails or stops while the store is
    opened again, any number of times: after an opening that succeeds, the
    store shows what it showed before or that and the whole batch.  When the call
    itself succeeds it shows the whole batch.  An opening that meets no further
    failure succeeds. *)
Theorem tka_store_atomic {CBL : CiboriumLaws} {BL : Blake2s256Laws} created aums (s s' : FsChonk) out :
  is_u64 created -> d_marker (disk s) = None -> Forall (storable created) aums ->
  store_verified_aums created aums s = (s', out) ->
  (forall n, out = Done (Ok n) -> d_marker (disk s') = None /\ fs_view (disk s') = fs_view (disk s) ∪ batch aums) /\
  (forall d, reopened (disk s') d -> fs_view d = fs_view (disk s) \/ fs_view d = fs_view (disk s) ∪ batch aums) /\
  (exists s2, fs_open (disk s') [] = (s2, Done (Ok tt))).
Proof.
  intros Hc Hm Hst E. pose proof (hoare_store created (disk s) aums Hm s s' out eq_refl E) as H.
  assert (match out with Done (Ok n) => exists ps, fresh_of (disk s) aums ps /\ n = length ps /\ committed created (disk s) ps (disk s')
    | _ => True end /\ exists ps, (fresh_of (disk s) aums ps \/ ps = []) /\ in_txn created (disk s) ps (disk s')) as [Hok (ps & Hps & Hd)].
  { destruct out as [[n|e]|].
    - split; [done|]. destruct H as (ps & Hps & _ & Hcm & _). exists ps. split; [by left|by right].
    - split; [done|]. destruct H as [->|(ps & Hps & Hd)]; [exists []|exists ps; by split; [left|]].
      split; [by right|]. right. by split; [|split; [|left]].
    - split; [done|]. destruct H as [->|(ps & Hps & Hd)]; [exists []|exists ps; by split; [left|]].
      split; [by right|]. right. by split; [|split; [|left]]. }
  assert (Forall (fun h => length h = 32%nat) ps.*1) as Hl.
  { destruct Hps as [Hps| ->]; [by eapply fresh_lengths|constructor]. }
  split; [|split].
  - intros n ->. destruct Hok as (ps' & Hps' & _ & Hcm). split; [apply Hcm|]. by eapply settled_new.
  - intros d Hre. apply (reopened_settled created (disk s) ps) in Hre; [|done|done]. destruct Hps as [Hps| ->].
    + by eapply settled_view.
    + left. destruct Hre as ([_ Hk] & _). apply map_eq. intros h. rewrite !lookup_fs_view. unfold visible. rewrite Hk; [done|].
      apply not_elem_of_nil.
  - by eapply recover_returns.
Qed.
End claims.

(** ** Instances *)

Module Demo.
Definition is_ok {E A} (r : result E A) : bool := match r with Ok _ => true | Err _ => false end.
(** Two maps that agree on the hashes both hold, as a test. *)
Definition agree (v1 v2 : gmap (list Z) Aum) : bool :=
  forallb (fun e => match v2 !! e.1 with Some y => bool_decide (e.2 = y) | None => true end) (map_to_list v1).
Lemma agree_ok v1 v2 : agree v1 v2 = true -> forall h x y, v1 !! h = Some x -> v2 !! h = Some y -> x = y.
Proof.
  unfold agree. rewrite forallb_forall. intros H h x y Hx Hy. specialize (H (h, x)). cbn in H. rewrite Hy in H.
  eapply bool_decide_eq_true_1, H. apply list_elem_of_In. by apply elem_of_map_to_list.
Qed.

#[local] Existing Instances demo_cbor demo_cbor_laws demo_blake2s256 demo_blake2s256_laws demo_ed25519 demo_ed25519_laws.

Definition sk1 : @signing_key demo_ed25519 := 1.
Definition sk2 : @signing_key demo_ed25519 := 2.
Definition key_of (sk : @signing_key demo_ed25519) (votes : Z) : Key :=
  {| k_kind := Key25519; k_votes := votes; k_public := signing_public sk; k_meta := None |}.
Definition st0 : State :=
  {| last_aum_hash := None; disablement_values := [repeat 7 32]; keys := [key_of sk1 1]; state_id1 := 11; state_id2 := 12 |}.
Definition genesis : Aum := genesis_aum st0 [{| sg_key_id := signing_public sk1; sg_signature := ed_sign sk1 (sig_hash (genesis_aum st0 [])) |}].

Definition boot : MemState * result AuthorityError Authority := Eval vm_compute in bootstrap genesis mem_new.
Definition au0 : Authority :=
  Eval vm_compute in match boot.2 with Ok au => au | Err _ => {| au_head := genesis; oldest_ancestor := genesis; au_state := st0 |} end.

(** Two steps of a builder: a second key is trusted, the first gets more votes. *)
Definition builder0 : UpdateBuilder := new_updater au0 (Some (signing_key_signer sk1)).
Definition step (b : UpdateBuilder) (op : build_op) : UpdateBuilder := match run_build b op with Ok b => b | Err _ => b end.
Definition builder1 : UpdateBuilder := step builder0 (BAdd (key_of sk2 3)).
Definition builder2 : UpdateBuilder := step builder1 (BVotes (signing_public sk1) 5).
Definition finalized : list Aum := Eval vm_compute in match (ub_finalize builder2 boot.1).2 with Ok l => l | Err _ => [] end.
Definition told : MemState * result AuthorityError Authority := Eval vm_compute in inform au0 finalized boot.1.
Definition au1 : Authority := Eval vm_compute in match told.2 with Ok au => au | Err _ => au0 end.

Lemma boot_run : bootstrap genesis mem_new = (boot.1, Ok au0).
Proof. vm_compute. reflexivity. Qed.
Lemma told_run : inform au0 finalized boot.1 = (told.1, Ok au1).
Proof. vm_compute. reflexivity. Qed.
Lemma boot_reachable : tka_reachable genesis boot.1 (Some au0).
Proof. exact (tr_bootstrap genesis mem_new boot.1 (Ok au0) mem_new_good eq_refl boot_run). Qed.
Lemma told_reachable : tka_reachable genesis told.1 (Some au1).
Proof. exact (tr_inform genesis boot.1 au0 finalized told.1 (Ok au1) boot_reachable told_run). Qed.

Lemma tka_trust_rooted_witness :
  length finalized = 2%nat /\ k_votes <$> state_key (au_state au1) (signing_public sk1) = Some 5 /\
  exists path, chain genesis path (au_state au1) /\ list.last (genesis :: path) = Some (au_head au1).
Proof.
  split; [vm_compute; reflexivity|]. split; [vm_compute; reflexivity|].
  destruct (tka_trust_rooted genesis told.1 au1 told_reachable) as (path & H1 & H2 & _). by exists path.
Defined.

(** A fork: two nodes hear of two competing updates in different orders. *)
Definition left_fork : list Aum := Eval vm_compute in ub_updates (step builder0 (BAdd (key_of sk2 3))).
Definition right_fork : list Aum := Eval vm_compute in ub_updates (step builder0 (BVotes (signing_public sk1) 9)).
Definition node1 : MemState := Eval vm_compute in (inform au0 (left_fork ++ right_fork) boot.1).1.
Definition node2a : MemState * result AuthorityError Authority := Eval vm_compute in inform au0 right_fork boot.1.
Definition au2a : Authority := Eval vm_compute in match node2a.2 with Ok au => au | Err _ => au0 end.
Definition node2 : MemState := Eval vm_compute in (inform au2a left_fork node2a.1).1.
Definition chosen : Authority := Eval vm_compute in match (authority_open node1).2 with Ok au => au | Err _ => au0 end.

Lemma informed_good s au us : tka_reachable genesis s (Some au) -> good (inform au us s).1.
Proof.
  intros H. destruct (inform au us s) as [s' r] eqn:E. pose proof (tr_inform genesis s au us s' r H E) as H'.
  by apply tka_reachable_rooted in H' as (Hg & _).
Qed.
Lemma node1_good : good node1.
Proof. assert (node1 = (inform au0 (left_fork ++ right_fork) boot.1).1) as -> by (vm_compute; reflexivity). apply informed_good, boot_reachable. Qed.
Lemma node2_good : good node2.
Proof.
  assert (node2 = (inform au2a left_fork node2a.1).1) as -> by (vm_compute; reflexivity). apply informed_good.
  apply (tr_inform genesis boot.1 au0 right_fork node2a.1 (Ok au2a) boot_reachable). vm_compute. reflexivity.
Qed.

Lemma tka_converges_witness :
  left_fork <> right_fork /\ node1 <> node2 /\
  forall a2, authority_open node2 = (node2, Ok a2) -> chosen = a2.
Proof.
  split; [by vm_compute|]. split; [by vm_compute|]. intros a2 E.
  apply (tka_converges node1 node2 node1 node2 chosen a2 node1_good node2_good); [vm_compute; reflexivity..|exact E].
Defined.

Definition offer0 : SyncOffer :=
  Eval vm_compute in match sync_offer au0 boot.1 with Ret (_, Ok off) => off | _ => {| so_head := []; so_ancestors := [] |} end.


(** A credential signed by the first key, for a wrapped auth key. *)
Definition sk3 : @signing_key demo_ed25519 := 3.
Definition unsigned_credential : NodeKeySignature :=
  NKS Credential None (Some (signing_public sk1)) None None (Some (signing_public sk3)).
Definition credential : NodeKeySignature :=
  NKS Credential None (Some (signing_public sk1)) (Some (ed_sign sk1 (nks_sig_hash unsigned_credential))) None (Some (signing_public sk3)).
Definition node_key : list Z := repeat 9 32.

Definition delegated : list Z := Eval vm_compute in match sign_by_credential credential sk3 node_key with Ok m => m | Err _ => [] end.

Lemma credential_signed : signed_with verify_strict (k_public (key_of sk1 5)) credential.
Proof.
  exists (ed_sign sk1 (nks_sig_hash unsigned_credential)), (signing_public sk1), (ed_sign sk1 (nks_sig_hash unsigned_credential)).
  split; [vm_compute; reflexivity|]. split; [vm_compute; reflexivity|]. split; vm_compute; reflexivity.
Qed.

Lemma delegated_key_authorized_witness :
  sign_by_credential credential sk3 node_key = Ok delegated /\
  exists d, node_key_authorized au1 node_key delegated = Ok (Some d) /\ initial_sig d = Some credential.
Proof.
  assert (sign_by_credential credential sk3 node_key = Ok delegated) as E by (vm_compute; reflexivity). split; [done|].
  destruct (delegated_key_authorized au1 credential sk3 node_key (signing_public sk1) (key_of sk1 5)) as (m & Hm & H).
  - apply (bool_decide_unpack _). vm_compute. exact I.
  - vm_compute. reflexivity.
  - vm_compute. reflexivity.
  - vm_compute. reflexivity.
  - vm_compute. reflexivity.
  - vm_compute. reflexivity.
  - apply credential_signed.
  - apply (bool_decide_unpack _). vm_compute. exact I.
  - rewrite E in Hm. injection Hm as <-. apply H. vm_compute. discriminate.
Defined.

Lemma step_built b op : built sk1 au0 b -> is_ok (run_build b op) = true -> is_some (state_key (ub_state (step b op)) (signing_public sk1)) = true ->
  built sk1 au0 (step b op).
Proof.
  intros Hb Hr Ht. unfold step in *. destruct (run_build b op) as [b'|] eqn:E; [|done]. eapply built_op; [exact Hb|exact E|].
  unfold trusts. by destruct (state_key _ _).
Qed.
Lemma builder2_built : built sk1 au0 builder2.
Proof.
  apply (step_built builder1); [|vm_compute; reflexivity..]. apply (step_built builder0); [|vm_compute; reflexivity..].
  apply built_new. exists (key_of sk1 1). vm_compute. reflexivity.
Qed.

Lemma built_updates_accepted_witness :
  ub_finalize builder2 boot.1 = (boot.1, Ok finalized) /\
  exists s2, inform au0 finalized boot.1 = authority_open s2 /\ view s2 = view boot.1 ∪ batch finalized.
Proof.
  assert (ub_finalize builder2 boot.1 = (boot.1, Ok finalized)) as E by (vm_compute; reflexivity). split; [done|].
  destruct (built_updates_accepted genesis sk1 au0 builder2 boot.1 boot.1 finalized boot_reachable builder2_built E)
    as (s2 & H1 & H2 & _); [intros Hf; discriminate Hf|apply (bool_decide_unpack _); vm_compute; exact I|].
  exists s2. split; [exact H1|exact H2].
Defined.

Lemma tka_codec_roundtrip_witness :
  aum_decode (aum_encode genesis) = Ok genesis /\ nks_decode (nks_encode credential) = Ok credential.
Proof.
  destruct (tka_codec_roundtrip genesis genesis credential) as (H1 & _ & H2);
    [apply (bool_decide_unpack _); vm_compute; exact I..|by split].
Defined.

(** The batch is stored; the third file-system call that writes stops the
    process; the first opening afterwards fails, the second succeeds. *)
Definition empty_disk : Disk := {| d_records := ∅; d_marker := None; d_last := None |}.
Definition faults : list fault := [Fine; Fine; Fine; Fine; Fine; Fine; Crash].
Definition store0 : FsChonk := {| disk := empty_disk; observed := ∅; schedule := faults |}.
Definition crashed : FsChonk := Eval vm_compute in (store_verified_aums 1700000000 (genesis :: finalized) store0).1.
Definition opened1 : FsChonk := Eval vm_compute in (fs_open (disk crashed) [Fine; FailAfter]).1.
Definition opened2 : FsChonk := Eval vm_compute in (fs_open (disk opened1) []).1.

Lemma crashed_reopened : reopened (disk crashed) (disk opened2).
Proof.
  apply (reopened_again (disk crashed) [Fine; FailAfter] opened1 (Done (Err Io))); [vm_compute; reflexivity|].
  apply (reopened_once (disk opened1) []). vm_compute. reflexivity.
Qed.

Lemma tka_store_atomic_witness :
  store_verified_aums 1700000000 (genesis :: finalized) store0 = (crashed, Crashed) /\
  size (fs_view (disk crashed)) = 1%nat /\ disk opened2 = empty_disk /\
  (fs_view (disk opened2) = fs_view empty_disk \/ fs_view (disk opened2) = fs_view empty_disk ∪ batch (genesis :: finalized)).
Proof.
  assert (store_verified_aums 1700000000 (genesis :: finalized) store0 = (crashed, Crashed)) as E by (vm_compute; reflexivity).
  split; [done|]. split; [vm_compute; reflexivity|]. split; [vm_compute; reflexivity|].
  destruct (tka_store_atomic 1700000000 (genesis :: finalized) store0 crashed Crashed) as (_ & H & _).
  - split; vm_compute; [discriminate|reflexivity].
  - reflexivity.
  - apply (bool_decide_unpack _). vm_compute. exact I.
  - exact E.
  - apply (H _ crashed_reopened).
Defined.

(** The promise ends where a rollback fails and the process goes on: the next
    batch overwrites the marker of the unfinished one, what is left of it is
    never removed, and the authority cannot be opened again.  Here the second
    of two updates stays without the first. *)
Definition genesis_disk : Disk := Eval vm_compute in
  disk (store_verified_aums 1700000000 [genesis] {| disk := empty_disk; observed := ∅; schedule := [] |}).1.
Definition failing : list fault :=
  [Fine; Fine; Fine; Fine; Fine; Fine; Fine; FailBefore; Fine; Fine; FailBefore].
Definition half_done : FsChonk * outcome nat := Eval vm_compute in
  store_verified_aums 1700000000 finalized {| disk := genesis_disk; observed := ∅; schedule := failing |}.
Definition went_on : FsChonk * outcome nat := Eval vm_compute in store_verified_aums 1700000000 right_fork half_done.1.
Definition reopened_gap : FsChonk := Eval vm_compute in (fs_open (disk went_on.1) []).1.
Definition first_update : list Z := Eval vm_compute in default [] (hash <$> (finalized !! 0%nat)).

Example rollback_gap :
  half_done.2 = Done (Err (Corrupt "transaction failed; rollback failed")) /\ went_on.2 = Done (Ok 1%nat) /\
  d_marker (disk reopened_gap) = None /\
  map (fun u => bool_decide (fs_view (disk reopened_gap) !! hash u = Some u)) finalized = [false; true] /\
  (@authority_open _ _ _ _ (fs_chonk 1700000000) reopened_gap).2 = Err (MissingParent first_update).
Proof. vm_compute. split_and!; reflexivity. Qed.
End Demo.
